(* ===== verification/_CoqProject ===== *)
-Q . S2P
Prelude.v
Errors.v
Bytes.v
Chrono.v
Crypto.v
VersionModel.v
LifecycleModel.v
LifecycleConfig.v
LifecycleEval.v
Database.v
ObjectStore.v
ResidencyStore.v
VersionStore.v
VersionSpec.v
VersionReads.v
Publication.v
VersionSystem.v
StorageClasses.v
Listing.v
Transaction.v
ImportDb.v
ImportJobs.v
Ownership.v
OwnershipLoops.v
OwnershipChanges.v
OwnershipSystem.v
ZipEntries.v
ZipInput.v
ZipBatch.v
ZipSystem.v
CorsConfig.v
CorsMatching.v
Crc64.v
CorsStore.v
CorsHttp.v
CorsSystem.v
LifecycleActions.v
LifecycleQueue.v
Revalidation.v
LifecycleScan.v
LifecycleStore.v
Transitions.v
TransitionRuns.v
StoreEffects.v
TransitionSystem.v
TransitionTheorems.v
BucketDelete.v
TransitionWorker.v
Expiration.v
ActionWorkers.v
ScanWorker.v
Examples.v
OwnershipExamples.v
CorsExamples.v
LifecycleExamples.v
TransitionExamples.v
ActionExamples.v
ScanExamples.v
