(* ===== verification/Prelude.v ===== *)
(** * ipfS3 gateway: verification development

    ipfS3 is an S3 gateway that keeps object bytes in IPFS (Kubo nodes) and everything else in a
    relational database.  A request handler ([src/s3]) opens a transaction on the store
    ([src/store]); background workers (lifecycle, imports, ZIP extraction, pinning) run transactions
    of their own against the same tables.  The development is a shallow embedding of the parts that
    decide what is stored, who may write it, what is listed and what is deleted: every modelled
    function is a Rocq function on explicit state, with errors as values of [result].

    ** Conventions

    - [Prelude] models what the source uses of Rust's standard library ([Result] and [?], checked
      integer arithmetic, ordering, sorting, strings, parsing) and holds the shared lemmas and
      tactics; [Errors] has the error enums of [src/error.rs]; [Bytes] byte and UTF-8 helpers.
    - Two transaction monads: [Database] for the object tables (lists of rows, as duplicates and
      order matter to the index invariant) and [Transaction] for stores whose tables are finite maps
      from primary keys (imports, ZIP).  In both a statement that would violate a [CHECK], [UNIQUE]
      or [FOREIGN KEY] constraint of [src/store/migrations/baseline] fails, and an error rolls the
      transaction back.  Row locks order transactions and are not visible inside one.
    - Clocks, fresh identifiers and random bytes are arguments: one argument per reading.  Integers
      are [Z] with the overflow checks of the source written out.
    - Third-party code is a type class with its documented behaviour as laws: [CryptoLib] (ciphers,
      HMAC, hex), [Chrono] (calendar), [Uuid], the JSON and timestamp functions of the lifecycle
      documents, [ActionCodec] and [TransitionCodec] (stored actions and sagas), the [LIKE] operator of listings.  Parts of the gateway that a modelled
      component only calls are classes too: [Ownership] in [Publication] (tickets, pin leases, tags),
      [ZipWorld], [ImportWorld].  Sample instances show that the laws can hold.

    ** Encryption ([src/crypto]): [Crypto]

    Sealed chunks, the framing of byte streams, the encrypting and decrypting streams, key wrapping
    and SSE-C fingerprints.  Decryption gives back the plaintext however the sealed bytes were cut in
    transit; the in-place framing loop equals cutting the concatenated data.  The loop of one item
    runs with fuel the length of the item, which it shortens at every turn.

    ** Lifecycle rules ([src/lifecycle]): [LifecycleModel], [LifecycleConfig], [LifecycleEval]

    Documents ([config.rs], [model.rs], [filter.rs]): validation, canonical form, projection back to
    S3, storage as JSON.  The theorems are the round trips, the equivalence of the validation of stored
    documents with a declarative predicate, and when projection fails.  The evaluator
    ([evaluator.rs]) refines [eligible], a declarative statement of what each rule may do: it returns a
    least eligible action, none when there is none, and fails exactly when a due time lies outside the
    calendar.

    ** Objects, versions and residency ([src/store/object.rs], [bucket.rs], [object_version.rs],
    [src/residency], [src/store/residency]): [ObjectStore], [ResidencyStore], [VersionStore],
    [VersionSpec], [VersionReads], [Publication], [VersionSystem]

    The abstract state of a key is its history, newest version first ([VersionSpec.history]).
    Installing content, installing a delete marker, removing a version with promotion of the next,
    and resolving a selector are refinements of list operations on histories, under the index
    invariant [VersionSpec.Inv].  [Publication] models the transactions of
    [src/store/pinning/publication.rs] that publish and delete, with the S3 semantics of each
    versioning state; [VersionSystem] shows the invariant in every reachable database.
    [ResidencyStore] shows that a cold read is backed by a verified copy and never falls back.

    ** Listings ([src/s3/ops/object.rs], [src/s3/ops/storage_class.rs]): [Listing],
    [StorageClasses]

    The batched paging loop with common prefixes equals one pass over all rows; following the
    cursors lists every entry exactly once and ends; the classes shown are those recorded.  The loop
    runs with fuel the number of rows plus one, since every batch consumes a row or ends the page.

    ** Imports and ownership of keys ([src/store/import], [src/import/model.rs]): [ImportDb],
    [ImportJobs], [Ownership], [OwnershipLoops], [OwnershipChanges], [OwnershipSystem],
    [OwnershipExamples]

    [ImportDb] has the tables, [ImportJobs] the job queue ([jobs.rs]), [Ownership] the whole of
    [ownership.rs], [mutation_lease.rs] and [job_queries.rs] that works on them: submission, exact
    and prefix claims, admissions of ordinary, lifecycle and ZIP mutations, guards, leases,
    recovery, supersession, publication and bucket deletion.  [OwnershipLoops] shows that the paged
    loops (a [BTreeMap] fed by truncated queries, tokens in pages, expired leases) equal one pass and
    terminate.  [OwnershipChanges] splits every transaction into small changes, and
    [OwnershipSystem] shows for every history of thirty operations that a key has at most one writer,
    that a verified guard is that writer, that a guard which failed stays invalid, and that an
    admission hands out guards that hold.  Fuel: the superseding loop, jobs plus exact targets plus
    one; recovery, leases plus one; the keyset loops, rows plus one; each page handles a row.

    ** ZIP extraction ([src/zip], [src/store/zip]): [ZipEntries], [ZipInput], [ZipBatch],
    [ZipSystem]

    [ZipEntries] ([sanitize.rs], [batch.rs]): keys never leave the target prefix, the final manifest
    keeps the last entry of each key and every failure.  [ZipInput] ([input_budget.rs],
    [local_header.rs]): byte budgets and the header probe.  [ZipBatch] ([src/store/zip]) has the
    durable batch, its manifest and its root attempts, and [ZipSystem] shows for any interleaving of
    workers that a root is shown only after it was verified and adopted, that one lease is live at a
    time, that published batches are final and bound to the versions of their manifest.

    ** CORS ([src/cors], [src/store/cors_config.rs], [src/s3/ops/cors.rs]): [CorsConfig],
    [CorsMatching], [Crc64], [CorsStore], [CorsHttp], [CorsSystem]

    [CorsConfig] has the documents and the matcher, [CorsMatching] the declarative reading of a
    pattern and the choice of the first rule that admits a request.  [CorsStore] has the table of
    documents with its transactions and handlers: when a put succeeds, and that every stored document
    decodes to a valid configuration.  [CorsHttp] is the middleware around the service (preflights,
    headers of actual responses, the buffered body of a put), and [CorsSystem] says what a browser is
    told for every document that can be stored, and that a body which differs from what its digest
    was computed on is refused; [Crc64] shows which errors the checksum is sure to detect.  The crates
    below are the classes [CorsLib], [WebLib], [IntoResponse] and [DigestLib].

    ** The queue of lifecycle actions ([src/store/lifecycle_action.rs]): [LifecycleActions],
    [LifecycleQueue]

    [LifecycleActions] has the queue between the scanner and the workers, with the mutation tickets
    of [ImportDb] that a claim carries along.  [LifecycleQueue] shows for every history of the queue
    that an action has one claim holder at a time, that a claim which lost its row
    is refused from then on, that no worker takes an action over while its lease is live, that a
    finished action stays finished, that the attempts are bounded, and which actions a claiming
    transaction takes: due ones with budget left, in order, passing none over, while due ones that spent
    their budget are given up.
    The digest and the stored form of a target are the class [ActionCodec].

    ** Moves between tiers ([src/store/lifecycle_transition.rs], [src/lifecycle/transition.rs]):
    [Revalidation], [Transitions], [TransitionRuns], [StoreEffects], [TransitionSystem],
    [TransitionTheorems], [BucketDelete], [TransitionWorker]

    A transition is a saga with a durable row: prepare, copy, verify, publish, clean up, or cancel.
    [Revalidation] has the tables a worker sees together (objects, tickets, actions, sagas,
    configurations, tags, uploads) and the functions that compute again, under locks, whether a rule
    still asks for the action, and shows that what they judge is what the tables say of the target
    ([stored_context]).  [Transitions] has the transactions of the saga, [TransitionRuns] what
    each of them does to the rows, and [StoreEffects] what the other operations of the store do to the
    residency of versions.  [TransitionSystem] is the step relation of everything that is committed:
    the saga transactions, the queue, the publications and deletions of [VersionSystem], ownership,
    and arbitrary changes of configurations, tags and uploads; [TransitionTheorems] shows in every
    reachable state that each version has a verified copy where it is read, that an open saga holds
    the copies it needs and a hold has an open saga, that sagas only advance, what a publication
    does and when it is allowed, and that a lost claim changes nothing.

    [BucketDelete] is the whole transaction of [delete] in [src/store/bucket.rs] on the same tables:
    in every reachable state it is refused exactly for a bucket that does not exist or is in use, and
    otherwise succeeds, with cascades that take the rows of the bucket and nothing else.  The table of
    buckets is read by two components of the state ([buckets] with the objects, [im_buckets] with the
    tickets), and the deletion writes both.  It is not a step of the histories of [TransitionSystem],
    which remove the actions of a bucket and keep the bucket itself.

    [TransitionWorker] is the program of the worker as a tree [Work]: a transaction, a wait for an
    answer of the outside, or the end.  A transaction draws its clock readings and fresh
    identifiers ([Draws]); the answers of Kubo nodes, the number of heartbeats before an answer and
    cancellation are chosen by the outside.

    ** Expirations and the workers ([src/lifecycle/actions.rs], [src/lifecycle/worker.rs]):
    [Expiration], [ActionWorkers]

    [Expiration] has the execution of the other kinds of action: expired versions and delete
    markers, aborted uploads, retries and safe failures, and the dispatch on the kind of a claimed
    action.  [ActionWorkers] runs any number of workers, interleaved step by step with each other
    and with the system above, stopping anywhere and losing commits: they reach only states of the
    step relation, so all its theorems hold of them; and an expiration deletes exactly its target,
    only while its claim and ticket stand and a rule of the present configuration makes it due.

    ** Scans and the table of configurations ([src/store/lifecycle_scan.rs],
    [src/store/lifecycle_config.rs], [src/s3/ops/lifecycle.rs], [src/lifecycle/evaluator.rs]):
    [LifecycleScan], [LifecycleStore], [ScanWorker]

    [LifecycleScan] has the cursors and the pages of a scan over current versions, noncurrent
    versions and uploads, with the facts that a page loads in batches.  A page is a slice of one
    sorted list of rows, each read as it would be alone, and a cycle of pages sees every row that
    stays and none twice, whatever happens between the pages.  [LifecycleStore] has the documents
    of buckets with their revisions, the handlers that put, get and delete them, and the leases
    under which workers scan.  [ScanWorker] has the transaction that evaluates a page and queues
    what is due, and the histories of scanners beside all workers: a lost lease never commits
    anything, and the committed pages of a document are cycles in which everything that stays was
    evaluated.  These histories keep their buckets: a revision starts again with a new bucket of
    the same name.  Stored cursors are the class [CursorCodec], the JSON check of a column is
    [JsonColumn].

    [Examples], [OwnershipExamples], [CorsExamples], [LifecycleExamples], [TransitionExamples],
    [ActionExamples] and [ScanExamples] evaluate the definitions on small databases and apply the
    theorems that have hypotheses; [ActionExamples] runs a transition worker from its claim to the
    end, [ScanExamples] a scan of two pages.

    ** What is not modelled

    Process start, configuration and tracing; HTTP parsing, streaming and dispatch; calls to Kubo
    nodes and pinning services; migrations.  The workers that download and pin, the polling loop
    of the lifecycle worker (its order of claims, pages and actions is arbitrary here), the pin job
    and lease tables, multipart uploads other than their scan and abort, the version listing handler
    and the codecs of cluster pinning are not modelled.  Retries of transactions that the database aborts for a
    conflict are left out: a transaction is its last attempt.  [MutationLease], the task that
    renews a ticket while a request runs, is asynchronous glue around modelled operations. *)

From Stdlib Require Import ZArith Lia Ascii.
From Stdlib Require String.
From stdpp Require Import base list strings sorting gmap.

#[local] Open Scope Z_scope.

(** ** Rust's [Result] *)

Inductive result (E A : Type) : Type :=
| Ok (a : A)
| Err (e : E).
Arguments Ok {E A} a.
Arguments Err {E A} e.

Definition rbind {E A B} (c : result E A) (k : A -> result E B) : result E B :=
  match c with
  | Ok a => k a
  | Err e => Err e
  end.

Definition rmap {E A B} (f : A -> B) (c : result E A) : result E B :=
  match c with
  | Ok a => Ok (f a)
  | Err e => Err e
  end.

Definition map_err {E F A} (f : E -> F) (c : result E A) : result F A :=
  match c with
  | Ok a => Ok a
  | Err e => Err (f e)
  end.

(** [opt.ok_or(e)] *)
Definition ok_or {E A} (e : E) (o : option A) : result E A :=
  match o with
  | Some a => Ok a
  | None => Err e
  end.

(** [result.ok()] *)
Definition to_option {E A} (c : result E A) : option A :=
  match c with
  | Ok a => Some a
  | Err _ => None
  end.

Definition is_ok {E A} (c : result E A) : bool :=
  match c with
  | Ok _ => true
  | Err _ => false
  end.

Declare Scope rust_scope.
Delimit Scope rust_scope with rust.

(** [let x = c?; k] *)
Notation "'let?' x ':=' c 'in' k" := (rbind c (fun x => k))
  (at level 10, x name, c at level 100, k at level 200,
   format "'[v' 'let?'  x  ':='  c  'in' '/' k ']'") : rust_scope.
Notation "'let?' ' x ':=' c 'in' k" := (rbind c (fun x => k))
  (at level 10, x strict pattern, c at level 100, k at level 200) : rust_scope.
(** [if b { return Err(e); } k] *)
Notation "'bail_if' b 'with' e 'else' k" := (if b then Err e else k)
  (at level 10, b at level 100, e at level 100, k at level 200,
   format "'[v' 'bail_if'  b  'with'  e  'else' '/' k ']'") : rust_scope.
Open Scope rust_scope.

(** [iter.map(f).collect::<Result<Vec<_>, _>>()] and a [for] loop that pushes [f(x)?]. *)
Fixpoint try_map {E A B} (f : A -> result E B) (l : list A) : result E (list B) :=
  match l with
  | [] => Ok []
  | x :: l' => let? y := f x in let? ys := try_map f l' in Ok (y :: ys)
  end.

(** A [for] loop that threads [acc] and leaves early on [Err]. *)
Fixpoint try_fold {E A B} (f : B -> A -> result E B) (acc : B) (l : list A) : result E B :=
  match l with
  | [] => Ok acc
  | x :: l' => let? acc' := f acc x in try_fold f acc' l'
  end.

(** [opt.map(f).transpose()] *)
Definition try_option {E A B} (f : A -> result E B) (o : option A) : result E (option B) :=
  match o with
  | Some a => let? b := f a in Ok (Some b)
  | None => Ok None
  end.

(** [for x in l { f(x)?; }] *)
Fixpoint try_each {E A} (f : A -> result E unit) (l : list A) : result E unit :=
  match l with
  | [] => Ok tt
  | x :: l' => let? _ := f x in try_each f l'
  end.

Definition is_none_or {A} (f : A -> bool) (o : option A) : bool :=
  match o with Some a => f a | None => true end.
Definition is_some_and {A} (f : A -> bool) (o : option A) : bool :=
  match o with Some a => f a | None => false end.
Definition is_some {A} (o : option A) : bool :=
  match o with Some _ => true | None => false end.
Definition is_none {A} (o : option A) : bool :=
  match o with Some _ => false | None => true end.

(** ** Machine integers *)

Definition u8_max : Z := 2 ^ 8 - 1.
Definition u16_max : Z := 2 ^ 16 - 1.
Definition u32_max : Z := 2 ^ 32 - 1.
Definition u64_max : Z := 2 ^ 64 - 1.
Definition i32_max : Z := 2 ^ 31 - 1.
Definition i64_max : Z := 2 ^ 63 - 1.
Definition i64_min : Z := - 2 ^ 63.

Definition is_u16 (z : Z) : Prop := 0 <= z <= u16_max.
Definition is_u32 (z : Z) : Prop := 0 <= z <= u32_max.
Definition is_u64 (z : Z) : Prop := 0 <= z <= u64_max.
Definition is_i32 (z : Z) : Prop := - 2 ^ 31 <= z <= i32_max.
Definition is_i64 (z : Z) : Prop := i64_min <= z <= i64_max.

Definition fits_i64 (z : Z) : bool := (i64_min <=? z) && (z <=? i64_max).
Definition fits_u64 (z : Z) : bool := (0 <=? z) && (z <=? u64_max).

(** [i64::checked_add], [i64::checked_sub], [u64::checked_add] *)
Definition i64_checked_add (a b : Z) : option Z :=
  if fits_i64 (a + b) then Some (a + b) else None.
Definition i64_checked_sub (a b : Z) : option Z :=
  if fits_i64 (a - b) then Some (a - b) else None.
Definition u64_checked_add (a b : Z) : option Z :=
  if fits_u64 (a + b) then Some (a + b) else None.
Definition u64_checked_mul (a b : Z) : option Z :=
  if fits_u64 (a * b) then Some (a * b) else None.
Definition u64_saturating_add (a b : Z) : Z := Z.min u64_max (a + b).
Definition u64_saturating_mul (a b : Z) : Z := Z.min u64_max (a * b).
(** [value as i32] of a [u32], [value as u32] of an [i32], [value as u16] of an [i32]. *)
Definition as_i32 (z : Z) : Z := (z + 2 ^ 31) mod 2 ^ 32 - 2 ^ 31.
Definition as_u32 (z : Z) : Z := z mod 2 ^ 32.
Definition as_u16 (z : Z) : Z := z mod 2 ^ 16.

(** ** Rust's [Ord] *)

Class RustOrd (A : Type) := cmp : A -> A -> comparison.

Class RustOrdLaws (A : Type) `{RustOrd A} := {
  cmp_eq_iff : forall x y : A, cmp x y = Eq <-> x = y;
  cmp_antisym : forall x y : A, cmp y x = CompOpp (cmp x y);
  cmp_trans : forall x y z : A, cmp x y = Lt -> cmp y z = Lt -> cmp x z = Lt
}.

#[export] Instance z_ord : RustOrd Z := Z.compare.
#[export] Instance ascii_ord : RustOrd ascii := Ascii.compare.

(** [str] compares byte-wise. *)
Fixpoint string_cmp (s t : string) : comparison :=
  match s, t with
  | EmptyString, EmptyString => Eq
  | EmptyString, String _ _ => Lt
  | String _ _, EmptyString => Gt
  | String a s', String b t' =>
    match cmp a b with
    | Eq => string_cmp s' t'
    | c => c
    end
  end.
#[export] Instance string_ord : RustOrd string := string_cmp.

(** Tuples and derived [Ord] on structs are lexicographic: [a.cmp(b).then_with(..)]. *)
Definition then_with (c : comparison) (d : comparison) : comparison :=
  match c with Eq => d | _ => c end.
#[export] Instance prod_ord {A B} `{RustOrd A} `{RustOrd B} : RustOrd (A * B) :=
  fun x y => then_with (cmp (fst x) (fst y)) (cmp (snd x) (snd y)).

(** [std::cmp::Reverse], and the derived order of [Option]. *)
Record Reverse (A : Type) : Type := reverse { unreverse : A }.
Arguments reverse {A} unreverse.
Arguments unreverse {A} r.
#[export] Instance reverse_ord {A} `{RustOrd A} : RustOrd (Reverse A) :=
  fun x y => cmp (unreverse y) (unreverse x).
#[export] Instance option_ord {A} `{RustOrd A} : RustOrd (option A) :=
  fun x y =>
    match x, y with
    | None, None => Eq
    | None, Some _ => Lt
    | Some _, None => Gt
    | Some a, Some b => cmp a b
    end.

Definition lt_b {A} `{RustOrd A} (x y : A) : bool :=
  match cmp x y with Lt => true | _ => false end.
Definition le_b {A} `{RustOrd A} (x y : A) : bool :=
  match cmp x y with Gt => false | _ => true end.
Definition ord_le {A} `{RustOrd A} (x y : A) : Prop := cmp x y <> Gt.

(** [slice::sort_by]: a stable sort. *)
Fixpoint insert_by {A} (f : A -> A -> comparison) (x : A) (l : list A) : list A :=
  match l with
  | [] => [x]
  | y :: l' =>
    match f x y with
    | Gt => y :: insert_by f x l'
    | _ => x :: y :: l'
    end
  end.
Definition sort_by {A} (f : A -> A -> comparison) (l : list A) : list A :=
  foldr (insert_by f) [] l.

(** ** Strings

    A Rust [str] is the [string] of its UTF-8 bytes. *)

Definition str_len (s : string) : Z := Z.of_nat (String.length s).
Definition str_is_empty (s : string) : bool :=
  match s with EmptyString => true | _ => false end.

(** [s.strip_prefix(p)] *)
Fixpoint strip_prefix (p s : string) : option string :=
  match p, s with
  | EmptyString, _ => Some s
  | String a p', String b s' => if ascii_dec a b then strip_prefix p' s' else None
  | String _ _, EmptyString => None
  end.
Definition starts_with (p s : string) : bool := is_some (strip_prefix p s).

(** [str::parse::<i64>] *)
Fixpoint digits_value (acc : Z) (s : string) : option Z :=
  match s with
  | EmptyString => Some acc
  | String c s' =>
    let n := N_of_ascii c in
    if ((48 <=? n) && (n <=? 57))%N then digits_value (acc * 10 + Z.of_N (n - 48)) s' else None
  end.
Definition parse_i64 (s : string) : option Z :=
  let value (sign : Z) (digits : string) :=
    match digits with
    | EmptyString => None
    | _ => digits_value 0 digits ≫= fun v => if fits_i64 (sign * v) then Some (sign * v) else None
    end in
  match s with
  | String c rest =>
    if ascii_dec c "+" then value 1 rest else if ascii_dec c "-" then value (-1) rest else value 1 s
  | EmptyString => None
  end.

Fixpoint str_drop (n : nat) (s : string) : string :=
  match n, s with
  | O, _ => s
  | S n', String _ s' => str_drop n' s'
  | S _, EmptyString => EmptyString
  end.
Fixpoint str_take (n : nat) (s : string) : string :=
  match n, s with
  | S n', String c s' => String c (str_take n' s')
  | _, _ => EmptyString
  end.
(** [str::find]: the byte offset of the first occurrence. *)
Fixpoint str_find (p s : string) : option nat :=
  if starts_with p s then Some 0%nat
  else match s with
       | EmptyString => None
       | String _ s' => S <$> str_find p s'
       end.
Definition ends_with (p s : string) : bool :=
  (String.length p <=? String.length s)%nat
  && String.eqb (str_drop (String.length s - String.length p) s) p.

(** [s.chars().count()]: every byte that is not a UTF-8 continuation byte starts a [char]. *)
Definition is_continuation (c : ascii) : bool :=
  let n := N_of_ascii c in (128 <=? n)%N && (n <? 192)%N.
Fixpoint char_count (s : string) : Z :=
  match s with
  | EmptyString => 0
  | String c s' => (if is_continuation c then 0 else 1) + char_count s'
  end.

Fixpoint str_contains (c : ascii) (s : string) : bool :=
  match s with
  | EmptyString => false
  | String a s' => (if ascii_dec a c then true else str_contains c s')
  end.

(** [s.split(c)]: never empty. *)
Fixpoint split (c : ascii) (s : string) : list string :=
  match s with
  | EmptyString => [EmptyString]
  | String a s' =>
    if ascii_dec a c then EmptyString :: split c s'
    else match split c s' with
         | [] => [String a EmptyString]
         | w :: ws => String a w :: ws
         end
  end.

(** [s.split_once(c)] *)
Fixpoint split_once (c : ascii) (s : string) : option (string * string) :=
  match s with
  | EmptyString => None
  | String a s' =>
    if ascii_dec a c then Some (EmptyString, s')
    else match split_once c s' with
         | Some (l, r) => Some (String a l, r)
         | None => None
         end
  end.

(** [s.trim_matches(c)] *)
Fixpoint trim_start (c : ascii) (s : string) : string :=
  match s with
  | EmptyString => EmptyString
  | String a s' => if ascii_dec a c then trim_start c s' else s
  end.
Fixpoint trim_end (c : ascii) (s : string) : string :=
  match s with
  | EmptyString => EmptyString
  | String a s' =>
    match trim_end c s' with
    | EmptyString => if ascii_dec a c then EmptyString else String a EmptyString
    | t => String a t
    end
  end.
Definition trim_matches (c : ascii) (s : string) : string := trim_end c (trim_start c s).

Fixpoint string_forallb (f : ascii -> bool) (s : string) : bool :=
  match s with
  | EmptyString => true
  | String a s' => f a && string_forallb f s'
  end.

(** ** Automation *)

Create HintDb rust.
Create Rewrite HintDb rust.

(** Split every [match] of the context and of the goal, closing the impossible branches. *)
Ltac crunch :=
  repeat (first [ progress simplify_eq/= | case_match ]); try done.

(** Invert [let? x := c in k = Ok v]. *)
Lemma rbind_ok {E A B} (c : result E A) (k : A -> result E B) (b : B) :
  rbind c k = Ok b <-> exists a, c = Ok a /\ k a = Ok b.
Proof. destruct c; simpl; split; naive_solver. Qed.

Lemma rbind_unit {E B} (c : result E unit) (k : result E B) (b : B) :
  (let? _ := c in k) = Ok b <-> c = Ok tt /\ k = Ok b.
Proof. destruct c as [[]|]; simpl; split; naive_solver. Qed.

Lemma rbind_err {E A B} (c : result E A) (k : A -> result E B) (e : E) :
  rbind c k = Err e <-> c = Err e \/ exists a, c = Ok a /\ k a = Err e.
Proof. destruct c; simpl; split; naive_solver. Qed.

Lemma rmap_ok {E A B} (f : A -> B) (c : result E A) (b : B) :
  rmap f c = Ok b <-> exists a, c = Ok a /\ b = f a.
Proof. destruct c; simpl; split; naive_solver. Qed.

Lemma rmap_Ok {E A B} (f : A -> B) (a : A) : rmap (E := E) f (Ok a) = Ok (f a).
Proof. done. Qed.

Lemma map_err_ok {E F A} (f : E -> F) (c : result E A) (a : A) :
  map_err f c = Ok a <-> c = Ok a.
Proof. destruct c; simpl; split; naive_solver. Qed.

Lemma ok_or_ok {E A} (e : E) (o : option A) (a : A) : ok_or e o = Ok a <-> o = Some a.
Proof. destruct o; simpl; split; naive_solver. Qed.

Lemma bail_ok {E A} (b : bool) (e : E) (k : result E A) (a : A) :
  (bail_if b with e else k) = Ok a <-> b = false /\ k = Ok a.
Proof. destruct b; split; naive_solver. Qed.

(** [ok_inv H] turns [H : <monadic code> = Ok v] into the facts of the successful path. *)
Ltac ok_inv H :=
  lazymatch type of H with
  | rbind _ _ = Ok _ =>
    let x := fresh "x" in let E := fresh "E" in
    apply rbind_ok in H; destruct H as (x & E & H); ok_inv E; ok_inv H
  | rmap _ _ = Ok _ =>
    let x := fresh "x" in let E := fresh "E" in
    apply rmap_ok in H; destruct H as (x & H & E); ok_inv H
  | (if _ then Err _ else _) = Ok _ =>
    let E := fresh "E" in apply bail_ok in H; destruct H as [E H]; ok_inv H
  | map_err _ _ = Ok _ => apply map_err_ok in H; ok_inv H
  | ok_or _ _ = Ok _ => apply ok_or_ok in H
  | _ => idtac
  end.

(** [guard_inv] turns the boolean guards of the context into propositions. *)
Ltac guard_inv :=
  repeat match goal with
  | H : _ || _ = false |- _ => apply orb_false_iff in H; destruct H
  | H : _ && _ = true |- _ => apply andb_true_iff in H; destruct H
  | H : negb _ = false |- _ => apply negb_false_iff in H
  | H : negb _ = true |- _ => apply negb_true_iff in H
  | H : String.eqb _ _ = true |- _ => apply String.eqb_eq in H
  | H : bool_decide _ = true |- _ => apply bool_decide_eq_true in H
  | H : bool_decide _ = false |- _ => apply bool_decide_eq_false in H
  | H : (_ <=? _)%Z = false |- _ => apply Z.leb_gt in H
  | H : (_ <=? _)%Z = true |- _ => apply Z.leb_le in H
  | H : (_ <? _)%Z = true |- _ => apply Z.ltb_lt in H
  | H : (_ <? _)%Z = false |- _ => apply Z.ltb_ge in H
  | H : (_ =? _)%Z = true |- _ => apply Z.eqb_eq in H
  end.

Lemma try_map_ok {E A B} (f : A -> result E B) (l : list A) (l' : list B) :
  try_map f l = Ok l' <-> Forall2 (fun a b => f a = Ok b) l l'.
Proof.
  revert l'. induction l as [|a l IH]; intros l'; simpl.
  - split; [intros [= <-]; constructor | inversion 1; done].
  - rewrite rbind_ok. setoid_rewrite rbind_ok. setoid_rewrite IH. split.
    + intros (b & ? & bs & ? & [= <-]). by constructor.
    + inversion 1; subst. eauto 10.
Qed.

Lemma try_each_ok {E A} (f : A -> result E unit) (l : list A) :
  try_each f l = Ok tt <-> Forall (fun a => f a = Ok tt) l.
Proof.
  induction l as [|a l IH]; simpl.
  - split; done.
  - rewrite rbind_ok, Forall_cons, <- IH. split; [intros ([] & ? & ?) | intros [??]]; eauto.
Qed.

Lemma try_each_unit {E A} (f : A -> result E unit) (l : list A) u :
  try_each f l = Ok u <-> Forall (fun a => f a = Ok tt) l.
Proof. destruct u. apply try_each_ok. Qed.

Lemma try_option_ok {E A B} (f : A -> result E B) (o : option A) (o' : option B) :
  try_option f o = Ok o' <->
  match o, o' with
  | Some a, Some b => f a = Ok b
  | None, None => True
  | _, _ => False
  end.
Proof.
  destruct o as [a|], o' as [b|]; simpl; [destruct (f a); simpl| destruct (f a); simpl| |];
    split; naive_solver.
Qed.

Lemma try_fold_app {E A B} (f : B -> A -> result E B) acc l1 l2 :
  try_fold f acc (l1 ++ l2) = rbind (try_fold f acc l1) (fun a => try_fold f a l2).
Proof. revert acc. induction l1 as [|x l1 IH]; intros; simpl; [done|]. destruct (f acc x); simpl; eauto. Qed.

(** A loop that only appends to its accumulator collects what each element contributes. *)
(** Induction over the elements a successful fold has consumed. *)
Lemma try_fold_ind {E A B} (P : list A -> B -> Prop) (f : B -> A -> result E B) acc l r :
  P [] acc -> (forall l a b b', P l b -> f b a = Ok b' -> P (l ++ [a]) b') ->
  try_fold f acc l = Ok r -> P l r.
Proof.
  intros H0 Hs. revert r. induction l as [|a l IH] using rev_ind; intros r.
  - by intros [= <-].
  - rewrite try_fold_app. intros (b & Hb & Hr)%rbind_ok. simpl in Hr. apply rbind_ok in Hr as (b' & Hf & [= <-]).
    eauto.
Qed.

Lemma try_fold_collect {E A B} (f : list B -> A -> result E (list B)) :
  (forall acc a, f acc a = rmap (app acc) (f [] a)) ->
  forall acc l, try_fold f acc l = rmap (fun bss => acc ++ concat bss) (try_map (f []) l).
Proof.
  intros Hf acc l. revert acc. induction l as [|a l IH]; intros acc; simpl.
  - by rewrite app_nil_r.
  - rewrite Hf. destruct (f [] a) as [bs|]; simpl; [|done]. rewrite IH.
    destruct (try_map (f []) l); simpl; [|done]. by rewrite app_assoc.
Qed.

Lemma try_map_err {E A B} (f : A -> result E B) (l : list A) e :
  try_map f l = Err e -> exists a, a ∈ l /\ f a = Err e.
Proof.
  induction l as [|a l IH]; simpl; [done|]. rewrite rbind_err. setoid_rewrite rbind_err.
  intros [Ha|(b & _ & [Hl|(bs & _ & [=])])]; [exists a; split; [left|done]|].
  destruct (IH Hl) as (a' & ? & ?). exists a'. split; [by right|done].
Qed.

Lemma try_map_elem {E A B} (f : A -> result E B) l bs a :
  try_map f l = Ok bs -> a ∈ l -> exists b, f a = Ok b.
Proof.
  rewrite try_map_ok. intros Hf Ha. apply list_elem_of_lookup in Ha as [i Ha].
  destruct (Forall2_lookup_l _ _ _ _ _ Hf Ha) as (b & _ & ?). eauto.
Qed.

Lemma elem_of_concat_results {E A B} (f : A -> result E (list B)) l bss b :
  try_map f l = Ok bss ->
  b ∈ concat bss <-> exists a, a ∈ l /\ exists bs, f a = Ok bs /\ b ∈ bs.
Proof.
  rewrite try_map_ok. induction 1 as [|a bs l bss Ha _ IH]; simpl.
  - rewrite elem_of_nil. split; [done|]. intros (a & Ha & _). by apply elem_of_nil in Ha.
  - rewrite elem_of_app, IH. setoid_rewrite elem_of_cons. split; [naive_solver|].
    intros (a' & [->|Hin] & bs' & Hf & Hb); [left; congruence|right; eauto].
Qed.

(** [iter().enumerate()] *)
Definition enumerate {A} (l : list A) : list (Z * A) := imap (fun i a => (Z.of_nat i, a)) l.

Lemma elem_of_enumerate {A} (l : list A) i a :
  (i, a) ∈ enumerate l <-> exists n, i = Z.of_nat n /\ l !! n = Some a.
Proof.
  unfold enumerate. rewrite list_elem_of_lookup. setoid_rewrite list_lookup_imap_Some.
  naive_solver.
Qed.

Lemma enumerate_snoc {A} (l : list A) a : enumerate (l ++ [a]) = enumerate l ++ [(Z.of_nat (length l), a)].
Proof. unfold enumerate. rewrite imap_app. simpl. by rewrite Nat.add_0_r. Qed.

Lemma forallb_enumerate {A} (f : A -> bool) l : forallb (fun ia => f ia.2) (enumerate l) = forallb f l.
Proof.
  induction l as [|a l IH] using rev_ind; [done|].
  by rewrite enumerate_snoc, !forallb_app, IH.
Qed.

Lemma existsb_enumerate {A} (f : A -> bool) l : existsb (fun ia => f ia.2) (enumerate l) = existsb f l.
Proof.
  induction l as [|a l IH] using rev_ind; [done|].
  by rewrite enumerate_snoc, !existsb_app, IH.
Qed.

Lemma enumerate_sorted {A} (l : list A) : StronglySorted (fun a b : Z * A => a.1 < b.1) (enumerate l).
Proof.
  induction l as [|a l IH] using rev_ind; [constructor|]. rewrite enumerate_snoc.
  apply StronglySorted_app_2; [|done|by repeat constructor].
  intros [i x] [j y] (n & -> & Hi)%elem_of_enumerate Hj%list_elem_of_singleton. simplify_eq/=.
  apply lookup_lt_Some in Hi. lia.
Qed.

Lemma StronglySorted_filter {A} (R : A -> A -> Prop) (P : A -> Prop) `{forall a, Decision (P a)} (l : list A) :
  StronglySorted R l -> StronglySorted R (filter P l).
Proof.
  induction 1 as [|a l Hl IH Ha]; [constructor|]. rewrite filter_cons. case_decide; [|done].
  constructor; [done|]. rewrite Forall_forall in *. intros b [_ Hb]%list_elem_of_filter. by apply Ha.
Qed.

Lemma StronglySorted_NoDup {A} (R : A -> A -> Prop) (l : list A) :
  (forall a, ~ R a a) -> StronglySorted R l -> NoDup l.
Proof.
  intros Hirr. induction 1 as [|a l Hl IH Ha]; constructor; [|done].
  rewrite Forall_forall in Ha. intros Hin%Ha. by apply Hirr in Hin.
Qed.

Lemma is_some_Some {A} (o : option A) : is_some o = true <-> exists a, o = Some a.
Proof. destruct o; simpl; split; naive_solver. Qed.

Lemma is_none_false {A} (o : option A) : is_none o = false <-> is_Some o.
Proof. by destruct o. Qed.

#[export] Hint Rewrite @rbind_ok @rmap_ok @map_err_ok @ok_or_ok @bail_ok : rust.

(** ** Laws of [Ord] *)

#[export] Instance z_ord_laws : RustOrdLaws Z.
Proof.
  split.
  - apply Z.compare_eq_iff.
  - intros. apply Z.compare_antisym.
  - intros x y z. unfold cmp, z_ord. rewrite !Z.compare_lt_iff. lia.
Qed.

#[export] Instance ascii_ord_laws : RustOrdLaws ascii.
Proof.
  split; unfold cmp, ascii_ord, Ascii.compare; intros.
  - rewrite N.compare_eq_iff. split; [|by intros ->].
    intros E. rewrite <- (ascii_N_embedding x), <- (ascii_N_embedding y). by f_equal.
  - apply N.compare_antisym.
  - rewrite N.compare_lt_iff in *. lia.
Qed.

Lemma cmp_refl {A} `{RustOrdLaws A} (x : A) : cmp x x = Eq.
Proof. by apply cmp_eq_iff. Qed.

Lemma cmp_gt_lt {A} `{RustOrdLaws A} (x y : A) : cmp x y = Gt <-> cmp y x = Lt.
Proof. rewrite (cmp_antisym x y). destruct (cmp x y); simpl; split; done. Qed.

#[export] Instance string_ord_laws : RustOrdLaws string.
Proof.
  split; unfold cmp, string_ord.
  - induction x as [|a x IH]; intros [|b y]; simpl; try (split; done).
    destruct (cmp a b) eqn:E.
    + rewrite IH. apply cmp_eq_iff in E as ->. split; [by intros -> | by intros [= ->]].
    + split; [done|]. intros [= -> ->]. by rewrite cmp_refl in E.
    + split; [done|]. intros [= -> ->]. by rewrite cmp_refl in E.
  - induction x as [|a x IH]; intros [|b y]; simpl; try done.
    rewrite (cmp_antisym a b). destruct (cmp a b); simpl; auto.
  - induction x as [|a x IH]; intros [|b y] [|c z]; simpl; try done.
    destruct (cmp a b) eqn:E1; try done; destruct (cmp b c) eqn:E2; try done; intros.
    + apply cmp_eq_iff in E1 as ->. rewrite E2. eauto.
    + apply cmp_eq_iff in E1 as ->. by rewrite E2.
    + apply cmp_eq_iff in E2 as ->. by rewrite E1.
    + by rewrite (cmp_trans a b c).
Qed.

Lemma prod_cmp {A B} `{RustOrd A} `{RustOrd B} (x y : A * B) :
  cmp x y = then_with (cmp (fst x) (fst y)) (cmp (snd x) (snd y)).
Proof. done. Qed.

#[export] Instance prod_ord_laws {A B} `{RustOrdLaws A} `{RustOrdLaws B} : RustOrdLaws (A * B).
Proof.
  split.
  - intros [a b] [c d]. rewrite prod_cmp; simpl. destruct (cmp a c) eqn:E; simpl.
    + rewrite cmp_eq_iff. apply cmp_eq_iff in E as ->. split; [by intros -> | by intros [= ->]].
    + split; [done|]. intros [= -> ->]. by rewrite cmp_refl in E.
    + split; [done|]. intros [= -> ->]. by rewrite cmp_refl in E.
  - intros [a b] [c d]. rewrite !prod_cmp; simpl.
    rewrite (cmp_antisym a c), (cmp_antisym b d). destruct (cmp a c); done.
  - intros [a b] [c d] [e f]. rewrite !prod_cmp; simpl.
    destruct (cmp a c) eqn:E1; try done; destruct (cmp c e) eqn:E2; try done; simpl; intros.
    + apply cmp_eq_iff in E1 as ->. rewrite E2; simpl. eapply cmp_trans; eauto.
    + apply cmp_eq_iff in E1 as ->. by rewrite E2.
    + apply cmp_eq_iff in E2 as ->. by rewrite E1.
    + by rewrite (cmp_trans a c e).
Qed.

#[export] Instance reverse_ord_laws {A} `{RustOrdLaws A} : RustOrdLaws (Reverse A).
Proof.
  split; unfold cmp, reverse_ord.
  - intros [a] [b]; simpl. rewrite cmp_eq_iff. split; [by intros -> | by intros [= ->]].
  - intros [a] [b]; simpl. apply cmp_antisym.
  - intros [a] [b] [c]; simpl. intros. by apply (cmp_trans c b a).
Qed.

#[export] Instance option_ord_laws {A} `{RustOrdLaws A} : RustOrdLaws (option A).
Proof.
  split; unfold cmp, option_ord.
  - intros [a|] [b|]; try done. rewrite cmp_eq_iff. split; [by intros -> | by intros [= ->]].
  - intros [a|] [b|]; try done. apply cmp_antisym.
  - intros [a|] [b|] [c|]; try done. apply cmp_trans.
Qed.

Lemma lt_b_true {A} `{RustOrd A} (x y : A) : lt_b x y = true <-> cmp x y = Lt.
Proof. unfold lt_b. by destruct (cmp x y). Qed.

Lemma ord_le_refl {A} `{RustOrdLaws A} (x : A) : ord_le x x.
Proof. unfold ord_le. by rewrite cmp_refl. Qed.

Lemma ord_le_total {A} `{RustOrdLaws A} (x y : A) : ord_le x y \/ ord_le y x.
Proof. unfold ord_le. rewrite (cmp_antisym x y). destruct (cmp x y); simpl; auto. Qed.

Lemma ord_le_trans {A} `{RustOrdLaws A} (x y z : A) : ord_le x y -> ord_le y z -> ord_le x z.
Proof.
  unfold ord_le. intros H1 H2.
  destruct (cmp x y) eqn:E1; try done; destruct (cmp y z) eqn:E2; try done.
  - apply cmp_eq_iff in E1 as ->. by rewrite E2.
  - apply cmp_eq_iff in E1 as ->. by rewrite E2.
  - apply cmp_eq_iff in E2 as ->. by rewrite E1.
  - by rewrite (cmp_trans x y z).
Qed.

Lemma ord_le_antisym {A} `{RustOrdLaws A} (x y : A) : ord_le x y -> ord_le y x -> x = y.
Proof.
  unfold ord_le. rewrite (cmp_antisym x y). intros.
  apply cmp_eq_iff. destruct (cmp x y) eqn:?; done.
Qed.

Lemma ord_le_lt_eq {A} `{RustOrdLaws A} (x y : A) : ord_le x y <-> cmp x y = Lt \/ x = y.
Proof.
  unfold ord_le. rewrite <- cmp_eq_iff. destruct (cmp x y); naive_solver.
Qed.

#[export] Hint Resolve ord_le_refl ord_le_trans : rust.

(** ** [sort_by] *)

Section sorting.
Context {A K : Type} `{RustOrdLaws K} (key : A -> K).

Definition by_key (x y : A) : comparison := cmp (key x) (key y).
Definition key_le (x y : A) : Prop := ord_le (key x) (key y).

Lemma insert_by_perm f (x : A) l : insert_by f x l ≡ₚ x :: l.
Proof.
  induction l as [|y l IH]; simpl; [done|].
  destruct (f x y); try done. rewrite IH. apply Permutation_swap.
Qed.

Lemma sort_by_perm f (l : list A) : sort_by f l ≡ₚ l.
Proof. induction l as [|x l IH]; simpl; [done|]. by rewrite insert_by_perm, IH. Qed.

Lemma elem_of_sort_by f (l : list A) x : x ∈ sort_by f l <-> x ∈ l.
Proof. by rewrite sort_by_perm. Qed.

Lemma insert_by_sorted x l :
  StronglySorted key_le l -> StronglySorted key_le (insert_by by_key x l).
Proof.
  induction 1 as [|y l Hl IH Hy]; simpl; [by repeat constructor|].
  unfold by_key. destruct (cmp (key x) (key y)) eqn:E.
  3: { constructor; [done|]. rewrite insert_by_perm. constructor; [|done].
       unfold key_le, ord_le. rewrite (cmp_antisym (key x)), E. done. }
  all: constructor; [by constructor|]; constructor; [by unfold key_le, ord_le; rewrite E|].
  all: eapply Forall_impl; [exact Hy|]; intros z Hz; apply (ord_le_trans _ (key y)); [|exact Hz].
  all: unfold ord_le; by rewrite E.
Qed.

Lemma sort_by_sorted l : StronglySorted key_le (sort_by by_key l).
Proof. induction l as [|x l IH]; simpl; [constructor|]. by apply insert_by_sorted. Qed.

(** Sorting a sorted list changes nothing: the sort is stable. *)
Lemma sort_by_id l : StronglySorted key_le l -> sort_by by_key l = l.
Proof.
  induction 1 as [|x l Hl IH Hx]; simpl; [done|]. rewrite IH.
  destruct l as [|y l]; simpl; [done|].
  apply Forall_cons in Hx as [Hxy _]. unfold by_key, key_le, ord_le in *.
  destruct (cmp (key x) (key y)); done.
Qed.

Lemma insert_by_map (g : A -> A) x l :
  (forall y, key (g y) = key y) ->
  insert_by by_key (g x) (map g l) = map g (insert_by by_key x l).
Proof.
  intros Hg. induction l as [|y l IH]; simpl; [done|]. unfold by_key in *. rewrite !Hg.
  destruct (cmp (key x) (key y)); simpl; congruence.
Qed.

(** Changing rows without changing their keys does not change their order. *)
Lemma sort_by_map (g : A -> A) l :
  (forall y, key (g y) = key y) -> sort_by by_key (map g l) = map g (sort_by by_key l).
Proof.
  intros Hg. induction l as [|x l IH]; simpl; [done|]. rewrite IH. by apply insert_by_map.
Qed.

Lemma insert_by_filter (P : A -> Prop) `{forall a, Decision (P a)} x l :
  StronglySorted key_le l ->
  filter P (insert_by by_key x l) =
  if decide (P x) then insert_by by_key x (filter P l) else filter P l.
Proof.
  induction 1 as [|y l Hl IH Hy]; simpl.
  { rewrite filter_cons. by destruct (decide (P x)). }
  assert (Hmin : forall z, cmp (key x) (key y) <> Gt -> z ∈ l -> cmp (key x) (key z) <> Gt).
  { intros z Hxy Hz. rewrite Forall_forall in Hy. by apply (ord_le_trans _ (key y)), Hy. }
  destruct (by_key x y) eqn:E; unfold by_key in E.
  3: { rewrite !filter_cons, IH. destruct (decide (P y)), (decide (P x)); simpl; try done.
       unfold by_key at 2. by rewrite E. }
  all: rewrite filter_cons; destruct (decide (P x)); [|done].
  all: assert (Hhd : forall l', (forall z, z ∈ l' -> cmp (key x) (key z) <> Gt) ->
         insert_by by_key x l' = x :: l')
    by (intros [|z l'] Hz; simpl; [done|]; specialize (Hz z (list_elem_of_here _ _)); unfold by_key;
        by destruct (cmp (key x) (key z))).
  all: rewrite Hhd; [done|]; intros z [_ [->|Hz]%elem_of_cons]%list_elem_of_filter;
    [congruence|]; apply Hmin; congruence || done.
Qed.

(** Filtering and sorting commute. *)
Lemma sort_by_filter (P : A -> Prop) `{forall a, Decision (P a)} l :
  sort_by by_key (filter P l) = filter P (sort_by by_key l).
Proof.
  induction l as [|x l IH]; simpl; [done|].
  rewrite insert_by_filter, filter_cons by apply sort_by_sorted.
  destruct (decide (P x)); simpl; by rewrite IH.
Qed.

(** A new least element goes first. *)
Lemma sort_by_snoc_least l x :
  (forall y, y ∈ l -> cmp (key x) (key y) = Lt) ->
  sort_by by_key (l ++ [x]) = x :: sort_by by_key l.
Proof.
  induction l as [|y l IH]; simpl; [done|]. intros Hx.
  change (foldr (insert_by by_key) [] (l ++ [x])) with (sort_by by_key (l ++ [x])).
  rewrite IH by (intros z Hz; apply Hx; by right). simpl. unfold by_key at 1.
  rewrite (cmp_antisym (key x)), (Hx y) by left. done.
Qed.

(** The head of a sorted list is a least element. *)
Lemma sort_by_head l x :
  head (sort_by by_key l) = Some x -> x ∈ l /\ forall y, y ∈ l -> key_le x y.
Proof.
  intros Hx. pose proof (sort_by_sorted l) as Hs. pose proof (sort_by_perm by_key l) as Hp.
  destruct (sort_by by_key l) as [|z s]; simplify_eq/=.
  apply StronglySorted_inv in Hs as [_ Hs]. split.
  - rewrite <- Hp. left.
  - intros y. rewrite <- Hp, elem_of_cons. intros [->|Hy]; [apply ord_le_refl|].
    by eapply Forall_forall in Hs.
Qed.

Lemma sort_by_head_none l : head (sort_by by_key l) = None <-> l = [].
Proof.
  pose proof (sort_by_perm by_key l) as Hp. split; intros E.
  - destruct (sort_by by_key l); [|done]. by apply Permutation_nil in Hp.
  - by subst l.
Qed.
End sorting.

Lemma list_filter_filter_comm {A} (P Q : A -> Prop) `{forall a, Decision (P a)}
    `{forall a, Decision (Q a)} (l : list A) :
  filter P (filter Q l) = filter Q (filter P l).
Proof. rewrite !list_filter_filter. apply list_filter_iff. intros. tauto. Qed.

Lemma list_filter_ext_in {A} (P Q : A -> Prop) `{forall a, Decision (P a)}
    `{forall a, Decision (Q a)} (l : list A) :
  (forall a, a ∈ l -> P a <-> Q a) -> filter P l = filter Q l.
Proof.
  induction l as [|a l IH]; [done|]. intros Hl. rewrite !filter_cons.
  rewrite IH by (intros; apply Hl; by right). pose proof (Hl a (list_elem_of_here _ _)).
  destruct (decide (P a)), (decide (Q a)); tauto.
Qed.

Lemma filter_map_identity {A} (g : A -> A) (P : A -> Prop) `{forall a, Decision (P a)} (l : list A) :
  (forall a, P (g a) <-> P a) -> filter P (map g l) = map g (filter P l).
Proof.
  intros Hg. induction l as [|a l IH]; simpl; [done|]. rewrite !filter_cons, IH.
  destruct (decide (P (g a))), (decide (P a)); simpl; try done; by destruct (Hg a); tauto.
Qed.

(** ** The first row that satisfies a condition *)

Lemma filter_all {A} (P : A -> Prop) `{forall a, Decision (P a)} (l : list A) :
  (forall x, x ∈ l -> P x) -> filter P l = l.
Proof.
  induction l as [|x l IH]; intros Hall; [done|].
  rewrite filter_cons_True by (apply Hall; left). f_equal. apply IH. intros y Hy. apply Hall. by right.
Qed.

Lemma filter_nothing {A} (P : A -> Prop) `{forall a, Decision (P a)} (l : list A) :
  (forall x, x ∈ l -> ~ P x) -> filter P l = [].
Proof.
  induction l as [|x l IH]; intros Hno; [done|].
  rewrite filter_cons_False by (apply Hno; left). apply IH. intros y Hy. apply Hno. by right.
Qed.

(** A predicate that is false on a prefix and true on the rest keeps the rest. *)
Lemma filter_suffix {A} (P : A -> Prop) `{forall a, Decision (P a)} (before rest : list A) :
  (forall x, x ∈ before -> ~ P x) -> (forall x, x ∈ rest -> P x) -> filter P (before ++ rest) = rest.
Proof. intros Hb Hr. by rewrite filter_app, filter_nothing, filter_all by done. Qed.

Lemma head_elem {A} (l : list A) x : head l = Some x -> x ∈ l.
Proof. destruct l; [done|]. intros [= ->]. left. Qed.

Section head_filter.
Context {A : Type} (P : A -> Prop) `{forall a, Decision (P a)} (l : list A).

Lemma head_filter_elem x : head (filter P l) = Some x -> x ∈ l /\ P x.
Proof. intros Hx%head_elem. apply list_elem_of_filter in Hx. tauto. Qed.

Lemma head_filter_none : head (filter P l) = None <-> forall x, x ∈ l -> ~ P x.
Proof.
  destruct (filter P l) as [|y l'] eqn:E; simpl.
  - split; [|done]. intros _ x Hx HP.
    assert (Hin : x ∈ filter P l) by (by apply list_elem_of_filter). rewrite E in Hin.
    by apply elem_of_nil in Hin.
  - split; [done|]. intros Hn. assert (Hin : y ∈ filter P l) by (rewrite E; left).
    apply list_elem_of_filter in Hin as [??]. exfalso. by eapply Hn.
Qed.

Lemma head_filter_one x :
  x ∈ l -> P x -> (forall y, y ∈ l -> P y -> y = x) -> head (filter P l) = Some x.
Proof.
  intros Hx HP Hu. destruct (head (filter P l)) as [y|] eqn:E.
  - apply head_filter_elem in E as [??]. f_equal. auto.
  - rewrite head_filter_none in E. by destruct (E x Hx).
Qed.
End head_filter.

(** ** Strings: lemmas *)

#[global] Arguments String.append !s1 s2 : simpl nomatch, rename.

Lemma strip_prefix_Some p s r : strip_prefix p s = Some r <-> s = p +:+ r.
Proof.
  revert s. induction p as [|a p IH]; intros s; simpl; [split; congruence|].
  destruct s as [|b s]; simpl; [split; congruence|].
  destruct (ascii_dec a b) as [->|]; [|split; congruence].
  rewrite IH. split; congruence.
Qed.

Lemma starts_with_iff p s : starts_with p s = true <-> exists r, s = p +:+ r.
Proof. unfold starts_with. rewrite is_some_Some. by setoid_rewrite strip_prefix_Some. Qed.

Lemma starts_with_app p r : starts_with p (p +:+ r) = true.
Proof. apply starts_with_iff. eauto. Qed.

Lemma str_app_assoc (a b c : string) : (a +:+ b) +:+ c = a +:+ b +:+ c.
Proof. induction a; simpl; congruence. Qed.

Lemma str_app_nil_r (a : string) : a +:+ EmptyString = a.
Proof. induction a; simpl; congruence. Qed.

Lemma str_app_inj_l (p a b : string) : p +:+ a = p +:+ b -> a = b.
Proof. induction p; simpl; [done|]. intros [=]. eauto. Qed.

Lemma str_length_app (a b : string) :
  String.length (a +:+ b) = (String.length a + String.length b)%nat.
Proof. induction a; simpl; congruence. Qed.

Lemma str_len_app (a b : string) : str_len (a +:+ b) = str_len a + str_len b.
Proof. unfold str_len. rewrite str_length_app. lia. Qed.

Lemma str_len_nonneg s : 0 <= str_len s.
Proof. unfold str_len. lia. Qed.

Lemma str_take_drop n s : str_take n s +:+ str_drop n s = s.
Proof. revert s. induction n as [|n IH]; intros [|c s]; simpl; [done..|]. by rewrite IH. Qed.

Lemma str_take_app n s t : (n <= String.length s)%nat -> str_take n (s +:+ t) = str_take n s.
Proof.
  revert s. induction n as [|n IH]; intros [|c s] Hn; simpl in *; [by destruct t|done|lia|].
  rewrite IH by lia. done.
Qed.

Lemma str_take_length n s : (n <= String.length s)%nat -> String.length (str_take n s) = n.
Proof.
  revert s. induction n as [|n IH]; intros [|c s] Hn; simpl in *; [done..|lia|]. rewrite IH by lia. done.
Qed.

Lemma str_take_all s : str_take (String.length s) s = s.
Proof. induction s as [|c s IH]; simpl; [done|]. by rewrite IH. Qed.

Lemma starts_with_take p s : starts_with p s = true -> str_take (String.length p) s = p.
Proof. intros (r & ->)%starts_with_iff. rewrite str_take_app by lia. apply str_take_all. Qed.

Lemma starts_with_app_long p a b :
  (String.length p <= String.length a)%nat -> starts_with p (a +:+ b) = starts_with p a.
Proof.
  unfold starts_with. revert p. induction a as [|c a IH]; intros [|d p] Hl; simpl in *; [done|lia|done|].
  destruct (ascii_dec d c); [|done]. apply IH. lia.
Qed.

Lemma starts_with_length p s : starts_with p s = true -> (String.length p <= String.length s)%nat.
Proof. intros (r & ->)%starts_with_iff. rewrite str_length_app. lia. Qed.

Lemma str_find_unfold p s :
  str_find p s = if starts_with p s then Some 0%nat
                 else match s with EmptyString => None | String _ s' => S <$> str_find p s' end.
Proof. by destruct s. Qed.

Lemma str_find_bound p s n : str_find p s = Some n -> (n + String.length p <= String.length s)%nat.
Proof.
  revert n. induction s as [|c s IH]; intros n; rewrite str_find_unfold;
    (destruct (starts_with p _) eqn:E; [intros [= <-]; by apply starts_with_length in E|]); [done|].
  intros (m & Hm & ->)%fmap_Some. apply IH in Hm. simpl. lia.
Qed.

(** The first occurrence is decided by the bytes up to its end. *)
Lemma str_find_take p s n r :
  str_find p s = Some n -> str_find p (str_take (n + String.length p) s +:+ r) = Some n.
Proof.
  revert n. induction s as [|c s IH]; intros n Hf; pose proof (str_find_bound _ _ _ Hf) as Hb;
    rewrite str_find_unfold in Hf; destruct (starts_with p _) eqn:E.
  1, 3: injection Hf as <-; cbn [Nat.add]; rewrite starts_with_take by done; rewrite str_find_unfold;
    by rewrite starts_with_app.
  - done.
  - apply fmap_Some in Hf as (m & Hm & ->). rewrite str_find_unfold.
    rewrite starts_with_app_long by (rewrite str_take_length by done; lia).
    assert (starts_with p (str_take (S m + String.length p) (String c s)) = false) as ->.
    { rewrite <- (str_take_drop (S m + String.length p) (String c s)), starts_with_app_long in E; [done|].
      rewrite str_take_length by done. lia. }
    simpl. by rewrite IH.
Qed.

Lemma str_contains_app c a b : str_contains c (a +:+ b) = str_contains c a || str_contains c b.
Proof. induction a as [|x a IH]; simpl; [done|]. destruct (ascii_dec x c); auto. Qed.

Lemma split_not_nil c s : split c s <> [].
Proof. destruct s; simpl; [done|]. crunch. Qed.

(** The pieces of a split do not contain the separator. *)
Lemma split_no_sep c s : Forall (fun w => str_contains c w = false) (split c s).
Proof.
  induction s as [|a s IH]; simpl; [by repeat constructor|].
  destruct (ascii_dec a c); [by constructor|].
  destruct (split c s) as [|w ws].
  - constructor; [|done]. simpl. by destruct (ascii_dec a c).
  - apply Forall_cons in IH as [??]. constructor; [|done]. simpl. by destruct (ascii_dec a c).
Qed.

Lemma split_app_sep c a b : split c (a +:+ String c b) = split c a ++ split c b.
Proof.
  induction a as [|x a IH]; simpl; [by destruct (ascii_dec c c)|].
  rewrite IH. destruct (ascii_dec x c); [done|].
  destruct (split c a) eqn:E; simpl; [by apply split_not_nil in E|done].
Qed.

Lemma split_no_contains c a : str_contains c a = false -> split c a = [a].
Proof.
  induction a as [|x a IH]; simpl; [done|].
  destruct (ascii_dec x c); [done|]. intros ->%IH. done.
Qed.

Lemma split_once_Some c s l r :
  split_once c s = Some (l, r) <-> s = l +:+ String c r /\ str_contains c l = false.
Proof.
  revert l. induction s as [|a s IH]; intros l; simpl.
  { split; [done|]. intros [E _]. by destruct l. }
  destruct (ascii_dec a c) as [Heq|Hne].
  - split; [intros [= <- <-]; subst; done|]. intros [E Hc].
    destruct l as [|b l]; simpl in *; [congruence|].
    destruct (ascii_dec b c); congruence.
  - destruct (split_once c s) as [[l' r']|] eqn:E.
    + split.
      * intros [= <- <-]. destruct (proj1 (IH l')) as [-> ?]; [done|]. simpl.
        by destruct (ascii_dec a c).
      * intros [Hs Hc]. destruct l as [|b l]; simpl in *; [congruence|].
        destruct (ascii_dec b c); [done|]. injection Hs as -> ->.
        by pose proof (proj2 (IH l) (conj eq_refl Hc)) as [= -> ->].
    + split; [done|]. intros [Hs Hc]. destruct l as [|b l]; simpl in *; [congruence|].
      destruct (ascii_dec b c); [done|]. injection Hs as -> ->.
      by pose proof (proj2 (IH l) (conj eq_refl Hc)).
Qed.

Lemma split_once_None c s : split_once c s = None <-> str_contains c s = false.
Proof.
  induction s as [|a s IH]; simpl; [done|].
  destruct (ascii_dec a c); [done|].
  destruct (split_once c s) as [[]|]; naive_solver.
Qed.

(** ** [slice::chunks]: blocks of [n] elements, the last one possibly shorter *)

Fixpoint chunks_fuel {A} (fuel n : nat) (l : list A) : list (list A) :=
  match fuel, l with
  | O, _ | _, [] => []
  | S fuel', _ => take n l :: chunks_fuel fuel' n (drop n l)
  end.
Definition chunks {A} (n : nat) (l : list A) : list (list A) := chunks_fuel (length l) n l.

Section chunks.
Context {A : Type} (n : nat) (Hn : (0 < n)%nat).

Lemma chunks_fuel_enough f1 f2 (l : list A) :
  (length l <= f1)%nat -> (length l <= f2)%nat -> chunks_fuel f1 n l = chunks_fuel f2 n l.
Proof.
  revert f2 l. induction f1 as [|f1 IH]; intros f2 l H1 H2.
  - destruct l; simpl in *; [|lia]. by destruct f2.
  - destruct l as [|b l]; [by destruct f2|]. destruct f2 as [|f2]; simpl in *; [lia|].
    f_equal. apply IH; rewrite length_drop; simpl; lia.
Qed.

Lemma chunks_cons (l : list A) : l <> [] -> chunks n l = take n l :: chunks n (drop n l).
Proof.
  intros Hl. unfold chunks. destruct l as [|b l]; [done|]. simpl. f_equal.
  apply chunks_fuel_enough; rewrite length_drop; simpl; lia.
Qed.

Lemma chunks_concat (l : list A) : concat (chunks n l) = l.
Proof.
  induction l as [l IH] using (induction_ltof1 _ length). unfold ltof in IH.
  destruct (decide (l = [])) as [->|Hl]; [done|].
  rewrite chunks_cons by done. simpl. rewrite IH; [apply take_drop|].
  rewrite length_drop. destruct l; [done|]; simpl; lia.
Qed.
End chunks.
