(* ===== verification/Errors.v ===== *)
(** * Application errors ([src/error.rs])

    [TierError] and [AppError] with the source's variants.  A [DateTime<Utc>] payload is its
    nanoseconds since the Unix epoch. *)

From Stdlib Require Import ZArith.
From stdpp Require Import base strings.
From S2P Require Import Prelude.

Inductive TierError : Type :=
| ColdNotConfigured
| TierUnavailable
| CidMismatch
| LocalCopyIncomplete
| NodeIdentityMismatch
| SameNode
| Cancelled.

#[export] Instance TierError_eq_dec : EqDecision TierError.
Proof. solve_decision. Defined.

Inductive AppError : Type :=
| Tier (e : TierError)
| NoSuchBucket (name : string)
| NoSuchKey (key : string)
| NoSuchVersion (bucket key version_id : string)
| InvalidArgument (message : string)
| InvalidLifecycleConfiguration (message : string)
| InvalidCorsConfiguration
| CorruptCorsConfiguration
| NoSuchCorsConfiguration
| InvalidCorsDigest
| BadCorsDigest
| NoSuchLifecycleConfiguration
| DeleteMarkerError (version_id : string) (created_at : Z) (current : bool)
| BucketAlreadyExists (name : string)
| BucketNotEmpty (name : string)
| NoSuchUpload (id : string)
| InvalidPart (message : string)
| InvalidPartOrder
| EntityTooSmall
| InvalidRange
| InvalidZipParameter (value : string)
| InvalidZipEntry (value : string)
| InvalidPinningRequest (message : string)
| InvalidImportRequest
| ImportUrlDenied
| NoSuchImportJob
| ImportIdempotencyConflict
| ZipIdempotencyConflict
| ImportDisabled
| StaleImportOwnership
| StaleContentMutation
| ZipSlip (value : string)
| UnsupportedZipEntry (value : string)
| ZipArchiveRejected (value : string)
| AccessDenied (message : string)
| KuboRpc (status : option Z) (detail : string)
| Database (message : string)
| Crypto (message : string)
| Internal (message : string)
| ManagementBudget.

#[export] Instance AppError_eq_dec : EqDecision AppError.
Proof. solve_decision. Defined.

Abbreviation AppResult := (result AppError).

Definition kubo_rpc_detail (detail : string) : AppError := KuboRpc None detail.
