(* ===== verification/Bytes.v ===== *)
(** * Bytes: values, endianness, UTF-8

    The standard-library operations on bytes that the components share. *)

From Stdlib Require Import ZArith Lia Ascii Strings.Byte.
From Stdlib Require String.
From stdpp Require Import prelude strings list pretty.
From S2P Require Import Prelude.

#[local] Open Scope Z_scope.

#[export] Instance byte_eq_dec : EqDecision byte := Byte.byte_eq_dec.

(** [u64::from(b)] *)
Definition b2z (b : byte) : Z := Z.of_N (Byte.to_N b).

Lemma b2z_range b : 0 <= b2z b < 256.
Proof. unfold b2z. pose proof (Byte.to_N_bounded b). lia. Qed.

Lemma b2z_inj a b : b2z a = b2z b -> a = b.
Proof.
  unfold b2z. intros E. apply N2Z.inj in E.
  pose proof (Byte.of_to_N a) as Ha. pose proof (Byte.of_to_N b) as Hb. rewrite E in Ha. congruence.
Qed.

(** ** UTF-8 text *)

(** [s.chars().any(char::is_control)] on UTF-8: the C0 controls and DEL are single bytes, the C1
    controls U+0080 to U+009F are the byte C2 followed by 80 to 9F, and C2 is never a continuation
    byte. *)
Fixpoint any_control (s : string) : bool :=
  match s with
  | EmptyString => false
  | String c s' =>
    let n := N_of_ascii c in
    ((n <? 32) || (n =? 127)
     || (n =? 194) && match s' with
                      | String d _ => (128 <=? N_of_ascii d) && (N_of_ascii d <=? 159)
                      | EmptyString => false
                      end)%N
    || any_control s'
  end.

(** [s.chars().any(char::is_whitespace)] on UTF-8: the characters with the Unicode property
    [White_Space] are the single bytes 09 to 0D and 20, U+0085 and U+00A0 (lead byte C2), U+1680
    (E1 9A 80), U+2000 to U+200A, U+2028, U+2029 and U+202F (E2 80), U+205F (E2 81 9F) and U+3000
    (E3 80 80); lead bytes are never continuation bytes. *)
Definition whitespace_at (s : string) : bool :=
  let bytes := map N_of_ascii (String.list_ascii_of_string s) in
  match bytes with
  | n :: rest =>
    ((9 <=? n) && (n <=? 13) || (n =? 32)
     || match n, rest with
        | 194, a :: _ => (a =? 133) || (a =? 160)
        | 225, a :: b :: _ => (a =? 154) && (b =? 128)
        | 226, a :: b :: _ =>
          (a =? 128) && ((128 <=? b) && (b <=? 138) || (b =? 168) || (b =? 169) || (b =? 175))
          || (a =? 129) && (b =? 159)
        | 227, a :: b :: _ => (a =? 128) && (b =? 128)
        | _, _ => false
        end)%N
  | [] => false
  end.
Fixpoint any_whitespace (s : string) : bool :=
  match s with
  | EmptyString => false
  | String _ s' => whitespace_at s || any_whitespace s'
  end.

(** [s.chars().filter(|ch| *ch == c).count()] for an ASCII character *)
Fixpoint count_char (c : ascii) (s : string) : Z :=
  match s with
  | EmptyString => 0
  | String a s' => (if ascii_dec a c then 1 else 0) + count_char c s'
  end.

(** [std::str::from_utf8(s).is_ok()]: the well-formed sequences of the Unicode standard (no overlong
    form, no surrogate, nothing above U+10FFFF). *)
Definition within (lo hi n : N) : bool := (lo <=? n)%N && (n <=? hi)%N.
Fixpoint utf8_valid_bytes (l : list N) : bool :=
  match l with
  | [] => true
  | a :: r1 =>
    if (a <? 128)%N then utf8_valid_bytes r1 else
    match r1 with
    | [] => false
    | b :: r2 =>
      if within 194 223 a then within 128 191 b && utf8_valid_bytes r2 else
      match r2 with
      | [] => false
      | c :: r3 =>
        if within 224 239 a then
          within (if (a =? 224)%N then 160 else 128) (if (a =? 237)%N then 159 else 191) b
          && within 128 191 c && utf8_valid_bytes r3
        else match r3 with
             | [] => false
             | d :: r4 =>
               within 240 244 a
               && within (if (a =? 240)%N then 144 else 128) (if (a =? 244)%N then 143 else 191) b
               && within 128 191 c && within 128 191 d && utf8_valid_bytes r4
             end
      end
    end
  end.
Definition utf8_valid (s : string) : bool := utf8_valid_bytes (map N_of_ascii (String.list_ascii_of_string s)).

Definition is_ascii (s : string) : bool := string_forallb (fun c => N_of_ascii c <? 128)%N s.

(** [c.to_ascii_lowercase()] and [s.eq_ignore_ascii_case(t)] *)
Definition lower_char (c : ascii) : ascii :=
  let n := N_of_ascii c in if within 65 90 n then ascii_of_N (n + 32) else c.
Fixpoint ascii_lower (s : string) : string :=
  match s with
  | EmptyString => EmptyString
  | String c s' => String (lower_char c) (ascii_lower s')
  end.
Definition eq_ignore_ascii_case (s t : string) : bool := String.eqb (ascii_lower s) (ascii_lower t).

(** [s.is_char_boundary(n)], [s.get(..n)] and [s.get(n..)] *)
Definition is_char_boundary (n : nat) (s : string) : bool :=
  match str_drop n s with
  | EmptyString => (n =? String.length s)%nat
  | String c _ => (n =? 0)%nat || negb (is_continuation c)
  end.
Definition str_get_to (n : nat) (s : string) : option string :=
  if is_char_boundary n s then Some (str_take n s) else None.
Definition str_get_from (n : nat) (s : string) : option string :=
  if is_char_boundary n s then Some (str_drop n s) else None.

Lemma ascii_lower_app a b : ascii_lower (a +:+ b) = ascii_lower a +:+ ascii_lower b.
Proof. induction a as [|c a IH]; [done|]. change (String c a +:+ b) with (String c (a +:+ b)). simpl. by rewrite IH. Qed.

Lemma ascii_lower_length s : String.length (ascii_lower s) = String.length s.
Proof. induction s; simpl; congruence. Qed.

Lemma is_ascii_utf8 s : is_ascii s = true -> utf8_valid s = true.
Proof.
  unfold is_ascii, utf8_valid. induction s as [|c s IH]; simpl; [done|].
  intros [Hc Hs]%andb_true_iff. rewrite Hc. by apply IH.
Qed.

Lemma ascii_not_continuation c : (N_of_ascii c <? 128)%N = true -> is_continuation c = false.
Proof. unfold is_continuation. intros H%N.ltb_lt. apply andb_false_iff. left. apply N.leb_gt. lia. Qed.

(** Every position of an ASCII string is a character boundary. *)
Lemma is_ascii_boundary n s : is_ascii s = true -> (n <= String.length s)%nat -> is_char_boundary n s = true.
Proof.
  unfold is_char_boundary. intros Ha Hn. destruct (str_drop n s) as [|c r] eqn:E.
  - apply Nat.eqb_eq. revert n Hn E. induction s as [|a s IH]; intros [|n] Hn E; simpl in *; try done; [lia|].
    apply andb_true_iff in Ha as [_ Ha]. f_equal. apply IH; [done|lia|done].
  - apply orb_true_iff. right. rewrite ascii_not_continuation; [done|].
    revert n Hn E. induction s as [|a s IH]; intros [|n] Hn E; simpl in *; try done;
      apply andb_true_iff in Ha as [Ha1 Ha2]; [by injection E as -> ->|]. eapply (IH Ha2 n); [lia|done].
Qed.

(** Every digit of a printed number is one of the ten digits. *)
Lemma pretty_N_go_forallb f n s :
  (forall d, f (pretty_N_char d) = true) -> string_forallb f (pretty_N_go n s) = string_forallb f s.
Proof.
  intros Hf. revert s. induction (N.lt_wf_0 n) as [n _ IH]; intros s.
  assert (n = 0 \/ 0 < n)%N as [->|Hn] by lia; [by rewrite pretty_N_go_0|].
  rewrite pretty_N_go_step by done. rewrite IH by (apply N.div_lt; lia). simpl. by rewrite Hf.
Qed.

Lemma pretty_N_forallb f (n : N) : (forall d, f (pretty_N_char d) = true) -> string_forallb f (pretty n) = true.
Proof.
  intros Hf. unfold pretty, pretty_N. case_decide; [|by rewrite pretty_N_go_forallb].
  simpl. rewrite andb_true_r. apply (Hf 0%N).
Qed.
