(* ===== verification/Chrono.v ===== *)
(** * The UTC calendar the gateway takes from the [chrono] crate

    [chrono] is not part of the repository: [Chrono] is the interface of the operations the source
    calls, with their documented behaviour as laws.  A [DateTime<Utc>] is its nanoseconds since the
    Unix epoch, a [NaiveDate] its day number; leap-second representations are not distinguished. *)

From Stdlib Require Import ZArith Lia.
From stdpp Require Import prelude.
From S2P Require Import Prelude.

#[local] Open Scope Z_scope.

Definition second_ns : Z := 1000000000.
Definition minute_ns : Z := 60 * second_ns.
Definition hour_ns : Z := 60 * minute_ns.
Definition day_ns : Z := 24 * hour_ns.

Class Chrono := {
  (** The first and the last representable day. *)
  min_day : Z;
  max_day : Z;
  (** [DateTime::checked_add_days], [DateTime::date_naive], [NaiveDate::succ_opt],
      [NaiveDate::and_hms_opt(0, 0, 0)] followed by [Utc.from_utc_datetime],
      [DateTime::checked_add_signed] *)
  checked_add_days : Z -> Z -> option Z;
  date_naive : Z -> Z;
  succ_opt : Z -> option Z;
  and_midnight_opt : Z -> option Z;
  checked_add_signed : Z -> Z -> option Z;
  (** [Timelike] *)
  hour : Z -> Z;
  minute : Z -> Z;
  second : Z -> Z;
  nanosecond : Z -> Z
}.

Definition representable `{Chrono} (t : Z) : bool := (min_day <=? t / day_ns) && (t / day_ns <=? max_day).

Class ChronoLaws `{Chrono} := {
  days_ordered : min_day <= 0 <= max_day;
  checked_add_days_spec : forall t d, representable t = true -> 0 <= d ->
    checked_add_days t d =
    if representable (t + d * day_ns) then Some (t + d * day_ns) else None;
  date_naive_spec : forall t, date_naive t = t / day_ns;
  succ_opt_spec : forall d, succ_opt d = if d + 1 <=? max_day then Some (d + 1) else None;
  and_midnight_spec : forall d, and_midnight_opt d = Some (d * day_ns);
  checked_add_signed_spec : forall t d, representable t = true ->
    checked_add_signed t d = if representable (t + d) then Some (t + d) else None;
  hour_spec : forall t, hour t = (t mod day_ns) / hour_ns;
  minute_spec : forall t, minute t = (t mod hour_ns) / minute_ns;
  second_spec : forall t, second t = (t mod minute_ns) / second_ns;
  nanosecond_spec : forall t, nanosecond t = t mod second_ns
}.

(** An instance, to evaluate the definitions: [chrono]'s own day range. *)
Definition proleptic : Chrono := {|
  min_day := -96465292;
  max_day := 95026236;
  checked_add_days t d :=
    let t' := t + d * day_ns in
    if (-96465292 <=? t' / day_ns) && (t' / day_ns <=? 95026236) then Some t' else None;
  date_naive t := t / day_ns;
  succ_opt d := if d + 1 <=? 95026236 then Some (d + 1) else None;
  and_midnight_opt d := Some (d * day_ns);
  checked_add_signed t d :=
    let t' := t + d in
    if (-96465292 <=? t' / day_ns) && (t' / day_ns <=? 95026236) then Some t' else None;
  hour t := (t mod day_ns) / hour_ns;
  minute t := (t mod hour_ns) / minute_ns;
  second t := (t mod minute_ns) / second_ns;
  nanosecond t := t mod second_ns
|}.

#[export] Instance proleptic_laws : @ChronoLaws proleptic.
Proof. split; try done; intros; simpl; lia. Qed.

(** [t.hour() != 0 || t.minute() != 0 || t.second() != 0 || t.nanosecond() != 0] *)
Definition not_midnight `{Chrono} (t : Z) : bool :=
  negb (hour t =? 0) || negb (minute t =? 0) || negb (second t =? 0) || negb (nanosecond t =? 0).

(** The four fields of the clock are zero exactly at midnight. *)
Lemma not_midnight_false `{ChronoLaws} t : not_midnight t = false <-> t mod day_ns = 0.
Proof.
  unfold not_midnight. rewrite hour_spec, minute_spec, second_spec, nanosecond_spec.
  rewrite !orb_false_iff, !negb_false_iff, !Z.eqb_eq.
  unfold day_ns, hour_ns, minute_ns, second_ns. Z.to_euclidean_division_equations. lia.
Qed.
