(* ===== verification/Crypto.v ===== *)
(** * Per-object encryption ([src/crypto/])

    [aes_gcm.rs] (one sealed chunk), [chunker.rs] (framing of a byte stream and the encrypting and
    decrypting streams), [key.rs] (master key, key wrapping, SSE-C fingerprints) and [mod.rs]
    (encryption modes).  The ciphers, HMAC-SHA-256, the random generator and hex encoding are
    third-party code: they are the interface [CryptoLib], with their documented behaviour as laws. *)

From Stdlib Require Import ZArith Lia Strings.Byte.
From stdpp Require Import prelude strings list pretty.
From S2P Require Import Prelude Bytes Errors.

(** ** Third-party primitives *)

Class CryptoLib := {
  (** [Aes256Gcm::encrypt_inout_detached] and [decrypt_inout_detached] with empty associated data *)
  seal_detached : list byte -> list byte -> list byte -> option (list byte * list byte);
  open_detached : list byte -> list byte -> list byte -> list byte -> option (list byte);
  (** [Aead::encrypt] and [Aead::decrypt]: the tag follows the ciphertext *)
  aead_encrypt : list byte -> list byte -> list byte -> option (list byte);
  aead_decrypt : list byte -> list byte -> list byte -> option (list byte);
  (** [Hmac<Sha256>] *)
  hmac_sha256 : list byte -> list byte -> list byte;
  (** [hex::encode], [hex::decode] *)
  hex_encode : list byte -> string;
  hex_decode : string -> result string (list byte)
}.

Class CryptoLaws `{CryptoLib} := {
  seal_lengths : forall k n p c t, seal_detached k n p = Some (c, t) ->
    length c = length p /\ length t = 16;
  open_seal : forall k n p c t, seal_detached k n p = Some (c, t) ->
    open_detached k n c t = Some p;
  aead_length : forall k n p c, aead_encrypt k n p = Some c -> length c = length p + 16;
  aead_open : forall k n p c, aead_encrypt k n p = Some c -> aead_decrypt k n c = Some p;
  hmac_length : forall k m, length (hmac_sha256 k m) = 32;
  hex_decode_encode : forall b, hex_decode (hex_encode b) = Ok b
}.

(** ** Encryption modes *)

Inductive EncryptionMode : Type := EncNone | SseS3 | SseC.

Definition EncryptionMode_as_str (m : EncryptionMode) : string :=
  match m with
  | EncNone => "none"
  | SseS3 => "sse_s3"
  | SseC => "sse_c"
  end.

Definition EncryptionMode_parse (s : string) : EncryptionMode :=
  if String.eqb s "sse_s3" then SseS3
  else if String.eqb s "sse_c" then SseC
  else EncNone.

(** ** One sealed chunk *)

Section cipher.
Context `{CryptoLib}.

(** [ObjectKey], and [MasterKey] as its bytes. *)
Record ObjectKey : Type := { key_bytes : list byte }.

Definition CHUNK_OVERHEAD : nat := 12 + 16.

Definition encrypt (ok : ObjectKey) (nonce plaintext : list byte) : AppResult (list byte) :=
  match seal_detached (key_bytes ok) nonce plaintext with
  | Some (c, tag) => Ok (nonce ++ c ++ tag)
  | None => Err (Crypto "aes-gcm encrypt failed")
  end.

Definition decrypt (ok : ObjectKey) (encrypted : list byte) : AppResult (list byte) :=
  bail_if (length encrypted <? CHUNK_OVERHEAD)%nat with Crypto "encrypted chunk too short" else
  let tag_start := (length encrypted - 16)%nat in
  ok_or (Crypto "aes-gcm decrypt failed — wrong key or corrupted data")
    (open_detached (key_bytes ok) (take 12 encrypted)
       (take (tag_start - 12) (drop 12 encrypted)) (drop tag_start encrypted)).

(** ** Framing *)

Definition CHUNK_SIZE : nat := Z.to_nat (256 * 1024).
Definition CIPHER_CHUNK : nat := CHUNK_SIZE + CHUNK_OVERHEAD.

(** The inner loop of [frame_stream] on one input item: the frames it yields and the buffer left. *)
Fixpoint frame_item (fuel frame_size : nat) (buf bytes : list byte) : list (list byte) * list byte :=
  match fuel, bytes with
  | O, _ | _, [] => ([], buf)
  | S fuel', _ =>
    if bool_decide (buf = []) && (frame_size <=? length bytes)%nat then
      let '(out, buf') := frame_item fuel' frame_size buf (drop frame_size bytes) in
      (take frame_size bytes :: out, buf')
    else
      let len := Nat.min (frame_size - length buf) (length bytes) in
      let buf1 := buf ++ take len bytes in
      if (length buf1 =? frame_size)%nat then
        let '(out, buf') := frame_item fuel' frame_size [] (drop len bytes) in
        (buf1 :: out, buf')
      else frame_item fuel' frame_size buf1 (drop len bytes)
  end.

(** [frame_stream]: a stream is the list of its items. *)
Fixpoint frame_from {E} (frame_size : nat) (buf : list byte) (stream : list (result E (list byte)))
  : list (result E (list byte)) :=
  match stream with
  | [] => if bool_decide (buf = []) then [] else [Ok buf]
  | Ok bytes :: stream' =>
    let '(out, buf') := frame_item (length bytes) frame_size buf bytes in
    map Ok out ++ frame_from frame_size buf' stream'
  | Err e :: stream' => Err e :: frame_from frame_size buf stream'
  end.
Definition frame_stream {E} (frame_size : nat) (stream : list (result E (list byte))) :=
  frame_from frame_size [] stream.
Definition chunk_stream {E} (stream : list (result E (list byte))) := frame_stream CHUNK_SIZE stream.

(** [encrypt_chunk_stream]: [nonces i] is the [i]-th value drawn from [rand::rng()], and
    [to_app] is the conversion of a source error.  A failed seal is the last item. *)
Fixpoint encrypt_frames {E} (to_app : E -> AppError) (ok : ObjectKey) (nonces : nat -> list byte)
    (i : nat) (frames : list (result E (list byte))) : list (AppResult (list byte)) :=
  match frames with
  | [] => []
  | Ok bytes :: frames' =>
    match encrypt ok (nonces i) bytes with
    | Ok c => Ok c :: encrypt_frames to_app ok nonces (S i) frames'
    | Err e => [Err e]
    end
  | Err e :: frames' => Err (to_app e) :: encrypt_frames to_app ok nonces i frames'
  end.
Definition encrypt_chunk_stream {E} (to_app : E -> AppError) (nonces : nat -> list byte)
    (stream : list (result E (list byte))) (ok : ObjectKey) : list (AppResult (list byte)) :=
  encrypt_frames to_app ok nonces 0 (chunk_stream stream).

(** [decrypt_chunk_stream]: [kubo_provenance] and [message] are [has_kubo_stream_provenance] and
    [to_string] of the source error. *)
Definition decrypt_chunk_stream {E} (kubo_provenance : E -> bool) (message : E -> string)
    (stream : list (result E (list byte))) (ok : ObjectKey) : list (AppResult (list byte)) :=
  map (fun chunk =>
         match chunk with
         | Ok bytes => decrypt ok bytes
         | Err e =>
           if kubo_provenance e then Err (kubo_rpc_detail "Kubo response stream failed")
           else Err (Internal (message e))
         end) (frame_stream CIPHER_CHUNK stream).

(** ** Keys ([key.rs])

    Keys are 32-byte arrays, for which [Aes256Gcm::new_from_slice] and [Hmac::new_from_slice]
    always succeed. *)

Definition SSE_C_KEY_FINGERPRINT_PREFIX : string := "v1:hmac-sha256:".
Definition SSE_C_KEY_FINGERPRINT_DOMAIN : list byte :=
  String.list_byte_of_string "ipfs-s3-gateway/sse-c-key-fingerprint/v1".

Record MasterKey : Type := { master_bytes : list byte }.

Definition from_hex (hex_str : string) : AppResult MasterKey :=
  let? bytes := map_err (fun e => Crypto ("invalid master key hex: " +:+ e)) (hex_decode hex_str) in
  bail_if negb (length bytes =? 32)%nat
    with Crypto ("master key must be 32 bytes, got " +:+ pretty (length bytes)) else
  Ok {| master_bytes := bytes |}.

(** [wrap]: [nonce_bytes] is drawn from [rand::rng()], [wrap_error] is the cipher's message. *)
Definition wrap (mk : MasterKey) (nonce_bytes : list byte) (wrap_error : string) (ok : ObjectKey)
  : AppResult string :=
  let? ciphertext := ok_or (Crypto ("wrap: " +:+ wrap_error))
                       (aead_encrypt (master_bytes mk) nonce_bytes (key_bytes ok)) in
  Ok (hex_encode (nonce_bytes ++ ciphertext)).

Definition unwrap (mk : MasterKey) (wrapped_hex : string) : AppResult ObjectKey :=
  let? combined := map_err (fun e => Crypto ("invalid key_wrap hex: " +:+ e))
                     (hex_decode wrapped_hex) in
  bail_if (length combined <? 12 + 16)%nat with Crypto "wrapped key too short" else
  let? plaintext := ok_or (AccessDenied "failed to unwrap object key")
                      (aead_decrypt (master_bytes mk) (take 12 combined) (drop 12 combined)) in
  bail_if negb (length plaintext =? 32)%nat
    with Crypto ("unwrapped key not 32 bytes: " +:+ pretty (length plaintext)) else
  Ok {| key_bytes := plaintext |}.

Definition sse_c_key_fingerprint_mac (mk : MasterKey) (key : ObjectKey) : list byte :=
  hmac_sha256 (master_bytes mk) (SSE_C_KEY_FINGERPRINT_DOMAIN ++ [x00] ++ key_bytes key).

Definition sse_c_key_fingerprint (mk : MasterKey) (key : ObjectKey) : string :=
  SSE_C_KEY_FINGERPRINT_PREFIX +:+ hex_encode (sse_c_key_fingerprint_mac mk key).

Definition verify_sse_c_key_fingerprint (mk : MasterKey) (stored : string) (key : ObjectKey)
  : AppResult bool :=
  let? stored_mac := ok_or (Crypto "invalid SSE-C key fingerprint prefix")
                       (strip_prefix SSE_C_KEY_FINGERPRINT_PREFIX stored) in
  let? stored_mac := map_err (fun _ => Crypto "invalid SSE-C key fingerprint encoding")
                       (hex_decode stored_mac) in
  bail_if negb (length stored_mac =? 32)%nat
    with Crypto "SSE-C key fingerprint must be a 32-byte HMAC-SHA256 value" else
  Ok (bool_decide (stored_mac = sse_c_key_fingerprint_mac mk key)).
End cipher.

(** * Properties *)

(** The data and the errors of a stream, in order. *)
Definition oks {E A} (s : list (result E A)) : list A :=
  omap to_option s.
Definition errs {E A} (s : list (result E A)) : list E :=
  omap (fun r => match r with Ok _ => None | Err e => Some e end) s.

Section framing.
Context (n : nat) (Hn : 0 < n).

Lemma chunks_full (l r : list byte) : length l = n -> chunks n (l ++ r) = l :: chunks n r.
Proof.
  intros Hl. rewrite (chunks_cons n Hn).
  - by rewrite take_app_length', drop_app_length'.
  - intros E. apply (f_equal length) in E. rewrite length_app in E. simpl in E. lia.
Qed.

Lemma chunks_small (l : list byte) : l <> [] -> length l <= n -> chunks n l = [l].
Proof. intros. rewrite (chunks_cons n Hn) by done. by rewrite take_ge, drop_ge. Qed.

Lemma chunks_full_app (fs : list (list byte)) r :
  Forall (fun f => length f = n) fs -> chunks n (concat fs ++ r) = fs ++ chunks n r.
Proof.
  induction 1 as [|f fs Hf Hfs IH]; simpl; [done|].
  rewrite <- app_assoc, chunks_full by done. by rewrite IH.
Qed.

(** Every chunk is full but the last, which is neither empty nor longer. *)
Lemma chunks_shape (l : list byte) :
  exists fs r, chunks n l = fs ++ r /\ Forall (fun f => length f = n) fs /\
    (r = [] \/ exists f, r = [f] /\ f <> [] /\ length f < n).
Proof.
  induction l as [l IH] using (induction_ltof1 _ length). unfold ltof in IH.
  destruct (decide (l = [])) as [->|Hl]; [exists [], []; eauto|].
  destruct (decide (length l < n)).
  { exists [], [l]. rewrite chunks_small by (done || lia). eauto 10. }
  destruct (IH (drop n l)) as (fs & r & E & Hfs & Hr).
  { rewrite length_drop. lia. }
  exists (take n l :: fs), r. rewrite (chunks_cons n Hn), E by done.
  repeat split; [constructor; [|done]|done]. rewrite length_take. lia.
Qed.

Lemma frame_item_spec fuel buf bytes out buf' :
  length buf < n -> length bytes <= fuel -> frame_item fuel n buf bytes = (out, buf') ->
  Forall (fun f => length f = n) out /\ length buf' < n /\ concat out ++ buf' = buf ++ bytes.
Proof.
  revert buf bytes out. induction fuel as [|fuel IH]; intros buf bytes out Hb Hf E.
  { destruct bytes; simpl in *; [|lia]. simplify_eq/=. by rewrite app_nil_r. }
  destruct bytes as [|b bytes]; [simplify_eq/=; by rewrite app_nil_r|].
  cbn [frame_item] in E. remember (b :: bytes) as l eqn:Hl.
  assert (0 < length l) by (subst l; simpl; lia).
  destruct (bool_decide (buf = []) && (n <=? length l)) eqn:Hc.
  - apply andb_true_iff in Hc as [->%bool_decide_eq_true Hle%Nat.leb_le].
    destruct (frame_item fuel n [] (drop n l)) as [out1 b1] eqn:E1. injection E as <- <-.
    apply IH in E1 as (Ho & Hb1 & Hc1); [|done|rewrite length_drop; lia].
    split; [constructor; [rewrite length_take; lia|done]|]. split; [done|].
    simpl in *. by rewrite <- app_assoc, Hc1, take_drop.
  - set (len := (n - length buf) `min` length l) in E.
    assert (Hlen : length (take len l) = len) by (rewrite length_take; lia).
    destruct (length (buf ++ take len l) =? n) eqn:Hfull.
    + apply Nat.eqb_eq in Hfull.
      destruct (frame_item fuel n [] (drop len l)) as [out1 b1] eqn:E1. injection E as <- <-.
      rewrite length_app in Hfull.
      apply IH in E1 as (Ho & Hb1 & Hc1); [|simpl; lia|rewrite length_drop; lia].
      split; [constructor; [rewrite length_app; lia|done]|]. split; [done|].
      simpl in *. by rewrite <- !app_assoc, Hc1, take_drop.
    + apply Nat.eqb_neq in Hfull. rewrite length_app in Hfull.
      apply IH in E as (Ho & Hb1 & Hc1); [|rewrite length_app; lia|rewrite length_drop; lia].
      split; [done|]. split; [done|]. by rewrite Hc1, <- app_assoc, take_drop.
Qed.

Lemma oks_app {E A} (s1 s2 : list (result E A)) : oks (s1 ++ s2) = oks s1 ++ oks s2.
Proof. apply omap_app. Qed.
Lemma errs_app {E A} (s1 s2 : list (result E A)) : errs (s1 ++ s2) = errs s1 ++ errs s2.
Proof. apply omap_app. Qed.
Lemma oks_ok {E A} (l : list A) : oks (map (@Ok E A) l) = l.
Proof. induction l; simpl; congruence. Qed.
Lemma errs_ok {E A} (l : list A) : errs (map (@Ok E A) l) = [].
Proof. induction l; simpl; congruence. Qed.

Lemma frame_from_oks {E} (stream : list (result E (list byte))) buf :
  length buf < n -> oks (frame_from n buf stream) = chunks n (buf ++ concat (oks stream)).
Proof.
  revert buf. induction stream as [|[bytes|e] stream IH]; intros buf Hb; simpl.
  - rewrite app_nil_r. case_bool_decide; [by subst|]. by rewrite chunks_small by (done || lia).
  - destruct (frame_item (length bytes) n buf bytes) as [out buf'] eqn:E1.
    apply frame_item_spec in E1 as (Ho & Hb' & Hc); [|done..].
    rewrite oks_app, oks_ok, IH by done.
    by rewrite (app_assoc buf), <- Hc, <- app_assoc, chunks_full_app.
  - by apply IH.
Qed.

Lemma frame_from_errs {E} (stream : list (result E (list byte))) buf :
  errs (frame_from n buf stream) = errs stream.
Proof.
  revert buf. induction stream as [|[bytes|e] stream IH]; intros buf; simpl.
  - by case_bool_decide.
  - destruct (frame_item _ _ _ _). by rewrite errs_app, errs_ok, IH.
  - by rewrite IH.
Qed.
End framing.

Section sealed.
Context `{CryptoLaws}.

Lemma encrypt_length ok nonce p c :
  encrypt ok nonce p = Ok c -> length c = length nonce + length p + 16.
Proof.
  unfold encrypt. destruct (seal_detached _ _ _) as [[c' t]|] eqn:E; [|done].
  intros [= <-]. apply seal_lengths in E as [??]. rewrite !length_app. lia.
Qed.

Lemma decrypt_encrypt ok nonce p c :
  length nonce = 12 -> encrypt ok nonce p = Ok c -> decrypt ok c = Ok p.
Proof.
  intros Hn He. pose proof (encrypt_length _ _ _ _ He) as Hl. unfold encrypt in He.
  destruct (seal_detached _ _ _) as [[c' t]|] eqn:E; [|done]. injection He as <-.
  pose proof (seal_lengths _ _ _ _ _ E) as [Hc Ht]. apply open_seal in E.
  unfold decrypt. rewrite Hl.
  rewrite (proj2 (Nat.ltb_ge _ _)) by (unfold CHUNK_OVERHEAD; lia).
  rewrite take_app_length', drop_app_length' by done.
  replace (length nonce + length p + 16 - 16) with (12 + length c') by lia.
  replace (12 + length c' - 12) with (length c') by lia.
  rewrite <- drop_drop, drop_app_length', take_app_length', drop_app_length' by done.
  by rewrite E.
Qed.

(** The frames sealed by [encrypt_frames], when nothing fails. *)
Lemma encrypt_frames_ok {E} (to_app : E -> AppError) ok nonces i frames sealed :
  encrypt_frames to_app ok nonces i frames = map Ok sealed ->
  exists data, frames = map Ok data /\
    Forall2 (fun d c => exists j, encrypt ok (nonces j) d = Ok c) data sealed.
Proof.
  revert i sealed. induction frames as [|[d|e] frames IH]; intros i sealed Hs; simpl in Hs.
  - destruct sealed; [|done]. by exists [].
  - destruct (encrypt ok (nonces i) d) as [c|e'] eqn:Ec; [|by destruct sealed].
    destruct sealed as [|c' sealed]; [done|]. injection Hs as <- Hs.
    apply IH in Hs as (data & -> & ?). exists (d :: data). eauto.
  - by destruct sealed.
Qed.

Lemma sealed_chunks data sealed (n : nat) ok (nonces : nat -> list byte) :
  0 < n -> (forall i, length (nonces i) = 12) ->
  Forall2 (fun d c => exists j, encrypt ok (nonces j) d = Ok c) (chunks n data) sealed ->
  chunks (n + CHUNK_OVERHEAD) (concat sealed) = sealed.
Proof.
  intros Hn Hnonce Hs.
  assert (Hlen : Forall2 (fun d c => length c = length d + CHUNK_OVERHEAD) (chunks n data) sealed).
  { eapply Forall2_impl; [exact Hs|]. intros d c [j Hj].
    rewrite (encrypt_length _ _ _ _ Hj), Hnonce. unfold CHUNK_OVERHEAD. lia. }
  destruct (chunks_shape n Hn data) as (fs & r & E & Hfs & Hr). rewrite E in Hlen.
  apply Forall2_app_inv_l in Hlen as (s1 & s2 & H1 & H2 & ->).
  assert (Hs1 : Forall (fun c => length c = n + CHUNK_OVERHEAD) s1).
  { clear -H1 Hfs. induction H1; constructor; apply Forall_cons in Hfs as [??]; [lia|auto]. }
  rewrite concat_app, chunks_full_app by (done || lia). f_equal.
  destruct Hr as [->|(f & -> & Hf & Hfl)].
  - apply Forall2_nil_inv_l in H2 as ->. done.
  - apply Forall2_cons_inv_l in H2 as (c & s' & Hc & ->%Forall2_nil_inv_l & ->). simpl.
    rewrite app_nil_r. apply chunks_small; [lia| |lia]. intros ->. simpl in Hc.
    unfold CHUNK_OVERHEAD in Hc. lia.
Qed.
End sealed.

Lemma CHUNK_SIZE_pos : 0 < CHUNK_SIZE.
Proof. unfold CHUNK_SIZE. lia. Qed.
#[export] Hint Resolve CHUNK_SIZE_pos : rust.

Lemma map_ok_oks {E A} (s : list (result E A)) : errs s = [] -> s = map Ok (oks s).
Proof. induction s as [|[]]; simpl; [done|intros; f_equal; auto|done]. Qed.

(** re-framing is invisible.  However the source cut the bytes into items, [frame_stream]
    yields the data cut into [n]-byte frames (only the last one may be shorter, none is empty),
    and hands every error of the source through in order. *)
Theorem frame_stream_spec {E} (n : nat) (stream : list (result E (list byte))) :
  0 < n ->
  oks (frame_stream n stream) = chunks n (concat (oks stream)) /\
  errs (frame_stream n stream) = errs stream.
Proof.
  intros Hn. split; [exact (frame_from_oks n Hn stream [] Hn)|apply frame_from_errs].
Qed.

(** C33: what [encrypt_chunk_stream] wrote, [decrypt_chunk_stream] reads back.  The sealed frames may
    arrive cut into items in any way; the reader yields the plaintext in [CHUNK_SIZE] frames. *)
Theorem decrypt_encrypt_stream `{CryptoLaws} {E F} (to_app : E -> AppError)
    (prov : F -> bool) (msg : F -> string) nonces ok
    (stream : list (result E (list byte))) sealed (wire : list (result F (list byte))) :
  (forall i, length (nonces i) = 12) ->
  encrypt_chunk_stream to_app nonces stream ok = map Ok sealed ->
  errs wire = [] -> concat (oks wire) = concat sealed ->
  exists frames, decrypt_chunk_stream prov msg wire ok = map Ok frames /\
    concat frames = concat (oks stream).
Proof.
  intros Hnonce Henc Hew Hwire. apply encrypt_frames_ok in Henc as (data & Hd & Hs).
  assert (Hdata : data = chunks CHUNK_SIZE (concat (oks stream))).
  { pose proof (frame_from_oks _ CHUNK_SIZE_pos stream [] CHUNK_SIZE_pos) as Hf.
    unfold chunk_stream, frame_stream in Hd. by rewrite Hd, oks_ok in Hf. }
  exists data. split; [|subst data; apply chunks_concat; auto with rust].
  unfold decrypt_chunk_stream.
  assert (Hpos : 0 < CIPHER_CHUNK) by (unfold CIPHER_CHUNK; pose proof CHUNK_SIZE_pos; lia).
  rewrite (map_ok_oks (frame_stream CIPHER_CHUNK wire)) by (by unfold frame_stream; rewrite frame_from_errs).
  unfold frame_stream. rewrite (frame_from_oks _ Hpos wire [] Hpos); cbn [app].
  rewrite Hwire. unfold CIPHER_CHUNK. subst data.
  rewrite (sealed_chunks _ _ _ _ _ CHUNK_SIZE_pos Hnonce Hs). clear -Hs Hnonce H0.
  induction Hs as [|d c ds cs [j Hj] _ IH]; simpl; [done|]. f_equal; [|exact IH].
  eapply decrypt_encrypt; eauto.
Qed.

(** Unwrapping gives back the wrapped object key: for a 32-byte key and a 12-byte nonce,
    [wrap] then [unwrap] under the same master key is the identity. *)
Theorem unwrap_wrap `{CryptoLaws} mk nonce wrap_error ok wrapped :
  length nonce = 12 -> length (key_bytes ok) = 32 ->
  wrap mk nonce wrap_error ok = Ok wrapped -> unwrap mk wrapped = Ok ok.
Proof.
  unfold wrap, unwrap. intros Hn Hk Hw. ok_inv Hw. injection Hw as <-.
  rewrite hex_decode_encode; simpl. pose proof (aead_length _ _ _ _ E) as Hl.
  rewrite (proj2 (Nat.ltb_ge _ _)) by (rewrite length_app; lia).
  rewrite take_app_length', drop_app_length' by done.
  rewrite (aead_open _ _ _ _ E); simpl. rewrite Hk; simpl. by destruct ok.
Qed.

(** A stored SSE-C fingerprint is accepted exactly for keys with the same MAC under the master
    key, so always for the key it was made from; anything that is not the prefix followed by the
    hex of 32 bytes is an error, never [false]. *)
Theorem fingerprint_verifies `{CryptoLaws} mk key other :
  verify_sse_c_key_fingerprint mk (sse_c_key_fingerprint mk key) other =
    Ok (bool_decide (sse_c_key_fingerprint_mac mk key = sse_c_key_fingerprint_mac mk other)) /\
  verify_sse_c_key_fingerprint mk (sse_c_key_fingerprint mk key) key = Ok true /\
  forall stored b, verify_sse_c_key_fingerprint mk stored key = Ok b ->
    exists mac, hex_decode (str_drop 15 stored) = Ok mac /\ length mac = 32 /\
      stored = SSE_C_KEY_FINGERPRINT_PREFIX +:+ str_drop 15 stored.
Proof.
  assert (Hv : forall k', verify_sse_c_key_fingerprint mk (sse_c_key_fingerprint mk key) k' =
    Ok (bool_decide (sse_c_key_fingerprint_mac mk key = sse_c_key_fingerprint_mac mk k'))).
  { intros k'. unfold verify_sse_c_key_fingerprint, sse_c_key_fingerprint.
    rewrite (proj2 (strip_prefix_Some _ _ _) eq_refl); simpl.
    rewrite hex_decode_encode; simpl. unfold sse_c_key_fingerprint_mac.
    by rewrite hmac_length. }
  split; [apply Hv|]. split; [rewrite Hv; by rewrite bool_decide_true|].
  intros stored b Hs. unfold verify_sse_c_key_fingerprint in Hs. ok_inv Hs.
  apply strip_prefix_Some in E as ->.
  exists x0. apply negb_false_iff, Nat.eqb_eq in E1. done.
Qed.

(** ** A toy instance, to evaluate the definitions *)

Definition toy_crypto : CryptoLib := {|
  seal_detached k n p := Some (p, repeat x00 16);
  open_detached k n c t := Some c;
  aead_encrypt k n p := Some (p ++ repeat x00 16);
  aead_decrypt k n c := Some (take (length c - 16) c);
  hmac_sha256 k m := repeat x01 32;
  hex_encode b := String.string_of_list_byte b;
  hex_decode s := Ok (String.list_byte_of_string s)
|}.

#[export] Instance toy_crypto_laws : @CryptoLaws toy_crypto.
Proof.
  split; simpl; intros; simplify_eq/=; rewrite ?length_app; try done.
  - by rewrite Nat.add_sub, take_app_length.
  - by rewrite String.list_byte_of_string_of_list_byte.
Qed.

Lemma frame_stream_spec_witness :
  0 < 2 /\ oks (frame_stream 2 [Ok [x61; x62; x63]; Err tt; Ok [x64; x65]]) =
    [[x61; x62]; [x63; x64]; [x65]].
Proof.
  split; [lia|].
  rewrite (proj1 (frame_stream_spec 2 [Ok [x61; x62; x63]; Err tt; Ok [x64; x65]] ltac:(lia))).
  reflexivity.
Defined.

Lemma decrypt_encrypt_stream_witness :
  exists frames, @decrypt_chunk_stream toy_crypto unit (fun _ => false) (fun _ => EmptyString)
      [Ok (repeat x00 20); Ok (repeat x00 11)] {| key_bytes := [] |} = map Ok frames /\
    concat frames = repeat x00 3.
Proof.
  apply (@decrypt_encrypt_stream toy_crypto toy_crypto_laws unit unit (fun _ => Internal EmptyString)
           (fun _ => false) (fun _ => EmptyString) (fun _ => repeat x00 12) {| key_bytes := [] |}
           [Ok [x00]; Ok [x00; x00]] [repeat x00 31] [Ok (repeat x00 20); Ok (repeat x00 11)]);
    first [intros; vm_compute; reflexivity].
Defined.

Lemma unwrap_wrap_witness :
  @unwrap toy_crypto {| master_bytes := [] |}
    (String.string_of_list_byte (repeat x00 12 ++ repeat x07 32 ++ repeat x00 16)) =
  Ok {| key_bytes := repeat x07 32 |}.
Proof.
  apply (@unwrap_wrap toy_crypto toy_crypto_laws {| master_bytes := [] |} (repeat x00 12) EmptyString
           {| key_bytes := repeat x07 32 |}); vm_compute; reflexivity.
Defined.

Lemma fingerprint_verifies_witness :
  @verify_sse_c_key_fingerprint toy_crypto {| master_bytes := [] |}
    (@sse_c_key_fingerprint toy_crypto {| master_bytes := [] |} {| key_bytes := [] |})
    {| key_bytes := [] |} = Ok true.
Proof.
  apply (@fingerprint_verifies toy_crypto toy_crypto_laws {| master_bytes := [] |}
           {| key_bytes := [] |} {| key_bytes := [] |}).
Defined.
