(* ===== verification/VersionModel.v ===== *)
(** * Shared vocabulary of the store

    The enums of [src/store/object_version.rs] (bucket versioning state, public version ids, version
    kinds, selectors), of [src/residency/model.rs] (tiers and storage classes) and the object tag of
    [src/pinning/tags.rs]. *)

From Stdlib Require Import ZArith.
From stdpp Require Import prelude strings.
From S2P Require Import Prelude Errors.

(** ** Bucket versioning state *)

Inductive BucketVersioningState : Type := Unversioned | Enabled | Suspended.
#[export] Instance BucketVersioningState_eq_dec : EqDecision BucketVersioningState.
Proof. solve_decision. Defined.

Definition versioning_from_db_value (value : option string) : AppResult BucketVersioningState :=
  match value with
  | None => Ok Unversioned
  | Some v =>
    if String.eqb v "Enabled" then Ok Enabled
    else if String.eqb v "Suspended" then Ok Suspended
    else Err (Internal "invalid bucket versioning state in database")
  end.

Definition versioning_as_db_value (s : BucketVersioningState) : option string :=
  match s with
  | Unversioned => None
  | Enabled => Some "Enabled"
  | Suspended => Some "Suspended"
  end.

(** ** Public version ids

    [uuid_canonical s] is [uuid::Uuid::parse_str(s)] printed back with [to_string]. *)

Class Uuid := uuid_canonical : string -> option string.
Class UuidLaws `{Uuid} := {
  uuid_canonical_idem : forall s c, uuid_canonical s = Some c -> uuid_canonical c = Some c;
  (** a UUID text has at least 32 characters *)
  uuid_canonical_null : uuid_canonical "null" = None
}.

Definition NULL_VERSION_ID : string := "null".

Inductive PublicVersionId : Type := VNull | Opaque (id : string).
#[export] Instance PublicVersionId_eq_dec : EqDecision PublicVersionId.
Proof. solve_decision. Defined.

Definition parse_s3 `{Uuid} (value : string) : AppResult PublicVersionId :=
  if String.eqb value NULL_VERSION_ID then Ok VNull else
  let bad := InvalidArgument "version ID must be `null` or a canonical UUID" in
  let? printed := ok_or bad (uuid_canonical value) in
  bail_if negb (String.eqb printed value) with bad else
  Ok (Opaque value).

Definition as_s3_str (v : PublicVersionId) : string :=
  match v with VNull => NULL_VERSION_ID | Opaque id => id end.

Definition version_as_db_value (v : PublicVersionId) : option string :=
  match v with VNull => None | Opaque id => Some id end.

Inductive VersionKind : Type := KObject | KDeleteMarker.
#[export] Instance VersionKind_eq_dec : EqDecision VersionKind.
Proof. solve_decision. Defined.

Inductive VersionSelector : Type := Current | Exact (id : PublicVersionId).

(** ** Tiers and storage classes *)

Definition corrupt (message : string) : AppError :=
  Internal ("invalid residency state: " +:+ message).

Inductive KuboTier : Type := Hot | Cold.
#[export] Instance KuboTier_eq_dec : EqDecision KuboTier.
Proof. solve_decision. Defined.

Definition tier_as_db_str (t : KuboTier) : string :=
  match t with Hot => "hot" | Cold => "cold" end.
Definition tier_from_db_str (value : string) : AppResult KuboTier :=
  if String.eqb value "hot" then Ok Hot
  else if String.eqb value "cold" then Ok Cold
  else Err (corrupt "unknown Kubo tier").

Inductive StorageClass : Type := Standard | StandardIa.
#[export] Instance StorageClass_eq_dec : EqDecision StorageClass.
Proof. solve_decision. Defined.

Definition class_as_db_str (c : StorageClass) : string :=
  match c with Standard => "STANDARD" | StandardIa => "STANDARD_IA" end.
Definition class_from_db_str (value : string) : AppResult StorageClass :=
  if String.eqb value "STANDARD" then Ok Standard
  else if String.eqb value "STANDARD_IA" then Ok StandardIa
  else Err (corrupt "unknown storage class").

(** ** Object tags *)

Record ObjectTag : Type := { tag_key : string; tag_value : string }.
#[export] Instance ObjectTag_eq_dec : EqDecision ObjectTag.
Proof. solve_decision. Defined.

(** ** Lemmas *)

Lemma parse_s3_ok `{UuidLaws} value v :
  parse_s3 value = Ok v <->
  (v = VNull /\ value = NULL_VERSION_ID) \/ (v = Opaque value /\ uuid_canonical value = Some value).
Proof.
  unfold parse_s3. destruct (String.eqb_spec value NULL_VERSION_ID) as [->|Hne].
  - split; [intros [= <-]; auto|]. intros [[-> _]|[-> Hu]]; [done|].
    by rewrite uuid_canonical_null in Hu.
  - split.
    + intros Hp. ok_inv Hp. apply negb_false_iff, String.eqb_eq in E0 as ->.
      injection Hp as <-. auto.
    + intros [[-> ?]|[-> Hu]]; [done|]. rewrite Hu; simpl. by rewrite String.eqb_refl.
Qed.

(** The S3 spelling of an accepted version id is the text it was parsed from. *)
Lemma as_s3_str_parse `{UuidLaws} value v : parse_s3 value = Ok v -> as_s3_str v = value.
Proof. rewrite parse_s3_ok. by intros [[-> ->]|[-> _]]. Qed.
