(* ===== verification/LifecycleModel.v ===== *)
(** * Lifecycle: data and filters ([src/lifecycle/model.rs], [src/lifecycle/filter.rs]) *)

From Stdlib Require Import ZArith Lia.
From stdpp Require Import prelude strings.
From S2P Require Import Prelude Errors VersionModel.

#[local] Open Scope Z_scope.

Inductive LifecycleRuleStatus : Type := RuleEnabled | RuleDisabled.
#[export] Instance LifecycleRuleStatus_eq_dec : EqDecision LifecycleRuleStatus.
Proof. solve_decision. Defined.

Record CanonicalTag : Type := { ctag_key : string; ctag_value : string }.
#[export] Instance CanonicalTag_eq_dec : EqDecision CanonicalTag.
Proof. solve_decision. Defined.

(** The derived [Ord]: by key, then by value. *)
Definition ctag_pair (t : CanonicalTag) : string * string := (ctag_key t, ctag_value t).
#[export] Instance CanonicalTag_ord : RustOrd CanonicalTag := by_key ctag_pair.

Inductive CanonicalFilter : Type :=
| FAll
| FPrefix (prefix : string)
| FTag (tag : CanonicalTag)
| ObjectSizeGreaterThan (bytes : Z)
| ObjectSizeLessThan (bytes : Z)
| FAnd (prefix : option string) (tags : list CanonicalTag)
    (object_size_greater_than object_size_less_than : option Z).
#[export] Instance CanonicalFilter_eq_dec : EqDecision CanonicalFilter.
Proof. solve_decision. Defined.

Inductive CanonicalRuleSelector : Type :=
| LegacyPrefix (prefix : string)
| Modern (filter : CanonicalFilter).
#[export] Instance CanonicalRuleSelector_eq_dec : EqDecision CanonicalRuleSelector.
Proof. solve_decision. Defined.

Inductive CurrentExpiration : Type :=
| ExpDate (utc_midnight : Z)
| ExpDays (days : Z)
| ExpiredObjectDeleteMarker.
#[export] Instance CurrentExpiration_eq_dec : EqDecision CurrentExpiration.
Proof. solve_decision. Defined.

Record NoncurrentExpiration : Type := {
  ne_noncurrent_days : Z;
  ne_newer_noncurrent_versions : option Z
}.
#[export] Instance NoncurrentExpiration_eq_dec : EqDecision NoncurrentExpiration.
Proof. solve_decision. Defined.

Inductive CurrentTransition : Type :=
| TransDate (utc_midnight : Z)
| TransDays (days : Z).
#[export] Instance CurrentTransition_eq_dec : EqDecision CurrentTransition.
Proof. solve_decision. Defined.

Record NoncurrentTransition : Type := {
  nt_noncurrent_days : Z;
  nt_newer_noncurrent_versions : option Z
}.
#[export] Instance NoncurrentTransition_eq_dec : EqDecision NoncurrentTransition.
Proof. solve_decision. Defined.

Record AbortIncompleteMultipartUploadAction : Type := { days_after_initiation : Z }.
#[export] Instance AbortIncompleteMultipartUploadAction_eq_dec : EqDecision AbortIncompleteMultipartUploadAction.
Proof. solve_decision. Defined.

Record CanonicalLifecycleRule : Type := {
  rule_id : option string;
  status : LifecycleRuleStatus;
  selector : CanonicalRuleSelector;
  expiration : option CurrentExpiration;
  noncurrent_version_expiration : option NoncurrentExpiration;
  transition : option CurrentTransition;
  noncurrent_version_transition : option NoncurrentTransition;
  abort_incomplete_multipart_upload : option AbortIncompleteMultipartUploadAction
}.
#[export] Instance CanonicalLifecycleRule_eq_dec : EqDecision CanonicalLifecycleRule.
Proof. solve_decision. Defined.

Record CanonicalLifecycleConfiguration : Type := {
  schema_version : Z;
  rules : list CanonicalLifecycleRule
}.
#[export] Instance CanonicalLifecycleConfiguration_eq_dec : EqDecision CanonicalLifecycleConfiguration.
Proof. solve_decision. Defined.

Inductive RuleIdentity : Type := RuleId (id : string) | RuleOrdinal (n : Z).
#[export] Instance RuleIdentity_eq_dec : EqDecision RuleIdentity.
Proof. solve_decision. Defined.

Inductive LifecycleActionKind : Type :=
| ExpireCurrent
| ExpireNoncurrent
| TransitionCurrent
| TransitionNoncurrent
| DeleteExpiredMarker
| AbortIncompleteMultipartUpload.
#[export] Instance LifecycleActionKind_eq_dec : EqDecision LifecycleActionKind.
Proof. solve_decision. Defined.

Record VersionTargetIdentity : Type := {
  vt_bucket : string;
  vt_key : string;
  vt_version_row_id : string;
  vt_public_version_id : PublicVersionId;
  vt_kind : VersionKind;
  vt_object_id : option string;
  vt_sequence : Z
}.

Record MultipartUploadTargetIdentity : Type := {
  mt_bucket : string;
  mt_key : string;
  mt_upload_id : string;
  mt_initiated_at : Z
}.

Record VersionLifecycleCandidate : Type := {
  target : VersionTargetIdentity;
  is_latest : bool;
  bucket_versioning_state : BucketVersioningState;
  primary_storage_class : option StorageClass;
  hot_residency_verified : bool;
  size : Z;
  lifecycle_age_started_at : Z;
  became_noncurrent_at : option Z
}.

Inductive LifecycleCandidate : Type :=
| CandVersion (c : VersionLifecycleCandidate)
| CandMultipart (t : MultipartUploadTargetIdentity).

Inductive LifecycleTargetIdentity : Type :=
| TargetVersion (t : VersionTargetIdentity)
| TargetMultipart (t : MultipartUploadTargetIdentity).

Record NewLifecycleAction : Type := {
  act_idempotency_key : string;
  act_bucket : string;
  act_config_revision : Z;
  act_rule_identity : RuleIdentity;
  act_kind : LifecycleActionKind;
  act_target : LifecycleTargetIdentity;
  act_due_at : Z
}.

(** ** Filters *)

Definition tag_matches (expected : CanonicalTag) (tags : list ObjectTag) : bool :=
  existsb (fun actual => String.eqb (tag_key actual) (ctag_key expected)
                         && String.eqb (tag_value actual) (ctag_value expected)) tags.

Definition bounds_match (size : Z) (greater less : option Z) : bool :=
  is_none_or (fun bound => bound <? size) greater && is_none_or (fun bound => size <? bound) less.

Definition matches_modern_filter (filter : CanonicalFilter) (key : string) (size : Z)
    (tags : list ObjectTag) : bool :=
  match filter with
  | FAll => true
  | FPrefix prefix => starts_with prefix key
  | FTag tag => tag_matches tag tags
  | ObjectSizeGreaterThan bytes => bytes <? size
  | ObjectSizeLessThan bytes => size <? bytes
  | FAnd prefix expected_tags greater less =>
    is_none_or (fun prefix => starts_with prefix key) prefix
    && forallb (fun tag => tag_matches tag tags) expected_tags
    && bounds_match size greater less
  end.

Definition matches_filter (filter : CanonicalRuleSelector) (key : string) (size : Z)
    (tags : list ObjectTag) : bool :=
  match filter with
  | LegacyPrefix prefix => starts_with prefix key
  | Modern filter => matches_modern_filter filter key size tags
  end.
