(* ===== verification/LifecycleConfig.v ===== *)
(** * Lifecycle configurations ([src/lifecycle/config.rs])

    Validation and canonicalisation of a [PutBucketLifecycleConfiguration] document, revalidation of
    stored documents and the projection back to the S3 shape.  The data transfer types are those of
    the [s3s] crate, field for field; timestamps and JSON are interfaces. *)

From Stdlib Require Import ZArith Lia Ascii.
From stdpp Require Import prelude strings list sorting.
From S2P Require Import Prelude Errors Chrono VersionModel LifecycleModel.

#[local] Open Scope Z_scope.

(** ** [s3s::dto] *)

(** [s3s]'s [Timestamp]: [ts_format] prints it in the [DateTime] format as UTF-8 text,
    [parse_from_rfc3339] is [chrono]'s parser followed by [with_timezone(&Utc)], and
    [timestamp_of_utc] is [Timestamp::from(SystemTime::from(_))]. *)
Class S3Timestamp := {
  Timestamp : Type;
  Timestamp_eq_dec :: EqDecision Timestamp;
  ts_format : Timestamp -> option string;
  parse_from_rfc3339 : string -> option Z;
  timestamp_of_utc : Z -> Timestamp
}.

Section config.
Context `{Chrono} `{S3Timestamp}.

Record Tag : Type := { dto_tag_key : option string; dto_tag_value : option string }.

Record LifecycleRuleAndOperator : Type := {
  and_object_size_greater_than : option Z;
  and_object_size_less_than : option Z;
  and_prefix : option string;
  and_tags : option (list Tag)
}.

Record LifecycleRuleFilter : Type := {
  f_and : option LifecycleRuleAndOperator;
  f_object_size_greater_than : option Z;
  f_object_size_less_than : option Z;
  f_prefix : option string;
  f_tag : option Tag
}.

Record LifecycleExpiration : Type := {
  le_date : option Timestamp;
  le_days : option Z;
  le_expired_object_delete_marker : option bool
}.

Record NoncurrentVersionExpiration : Type := {
  nve_newer_noncurrent_versions : option Z;
  nve_noncurrent_days : option Z
}.

Record Transition : Type := {
  tr_date : option Timestamp;
  tr_days : option Z;
  tr_storage_class : option string
}.

Record NoncurrentVersionTransition : Type := {
  nvt_newer_noncurrent_versions : option Z;
  nvt_noncurrent_days : option Z;
  nvt_storage_class : option string
}.

Record AbortIncompleteMultipartUploadDto : Type := { dto_days_after_initiation : option Z }.

Record LifecycleRule : Type := {
  lr_abort_incomplete_multipart_upload : option AbortIncompleteMultipartUploadDto;
  lr_expiration : option LifecycleExpiration;
  lr_filter : option LifecycleRuleFilter;
  lr_id : option string;
  lr_noncurrent_version_expiration : option NoncurrentVersionExpiration;
  lr_noncurrent_version_transitions : option (list NoncurrentVersionTransition);
  lr_prefix : option string;
  lr_status : string;
  lr_transitions : option (list Transition)
}.

Definition ENABLED : string := "Enabled".
Definition DISABLED : string := "Disabled".
Definition STANDARD_IA : string := "STANDARD_IA".

(** ** Validation of a canonical document *)

Definition SCHEMA_VERSION : Z := 1.

Definition invalid (message : string) : AppError := InvalidLifecycleConfiguration message.

(** [slice.windows(2).any(f)] *)
Fixpoint windows2_any {A} (f : A -> A -> bool) (l : list A) : bool :=
  match l with
  | x :: (y :: _) as l' => f x y || windows2_any f l'
  | _ => false
  end.

(** [iter.any(|x| !set.insert(x))] from an empty set *)
Fixpoint has_duplicate (seen l : list string) : bool :=
  match l with
  | [] => false
  | x :: l' => bool_decide (x ∈ seen) || has_duplicate (x :: seen) l'
  end.

Definition nonnegative_size (bytes : Z) : AppResult Z :=
  bail_if bytes <? 0 with invalid "lifecycle object size must be nonnegative" else Ok bytes.

Definition positive_days (value : Z) (message : string) : AppResult Z :=
  bail_if value <=? 0 with invalid message else Ok (as_u32 value).

Definition selector_has_tag_filter (s : CanonicalRuleSelector) : bool :=
  match s with
  | Modern (FTag _) => true
  | Modern (FAnd _ tags _ _) => negb (bool_decide (tags = []))
  | _ => false
  end.

Definition is_modern (s : CanonicalRuleSelector) : bool :=
  match s with Modern _ => true | LegacyPrefix _ => false end.

Definition validate_noncurrent_thresholds (noncurrent_days : Z) (newer : option Z)
    (s : CanonicalRuleSelector) (days_message : string) : AppResult unit :=
  bail_if noncurrent_days =? 0 with invalid days_message else
  bail_if i32_max <? noncurrent_days with invalid "noncurrent lifecycle days are out of range" else
  match newer with
  | None => Ok tt
  | Some newer =>
    bail_if negb ((1 <=? newer) && (newer <=? 100))
      with invalid "newer noncurrent versions must be between 1 and 100" else
    bail_if negb (is_modern s)
      with invalid "newer noncurrent versions requires an explicit modern Filter" else
    Ok tt
  end.

Definition validate_canonical_selector (s : CanonicalRuleSelector) : AppResult unit :=
  match s with
  | LegacyPrefix _ => Ok tt
  | Modern (FAll | FPrefix _ | FTag _) => Ok tt
  | Modern (ObjectSizeGreaterThan bytes | ObjectSizeLessThan bytes) =>
    let? _ := nonnegative_size bytes in Ok tt
  | Modern (FAnd _ tags greater less) =>
    let? _ := try_option nonnegative_size greater in
    let? _ := try_option nonnegative_size less in
    bail_if (match greater, less with Some l, Some u => u <=? l | _, _ => false end)
      with invalid "lifecycle And size bounds must be ordered" else
    bail_if windows2_any (fun a b => lt_b b a) tags
      with invalid "lifecycle And tags must be sorted" else
    bail_if has_duplicate [] (map ctag_key tags)
      with invalid "lifecycle And tag keys must be distinct" else
    Ok tt
  end.

Definition validate_canonical_rule (rule : CanonicalLifecycleRule) : AppResult unit :=
  let? _ := validate_canonical_selector (selector rule) in
  let? _ :=
    match expiration rule with
    | Some (ExpDate t) =>
      bail_if not_midnight t with invalid "expiration date must be UTC midnight" else Ok tt
    | Some (ExpDays days) =>
      bail_if days =? 0 with invalid "lifecycle expiration days must be positive" else Ok tt
    | Some ExpiredObjectDeleteMarker =>
      bail_if selector_has_tag_filter (selector rule)
        with invalid "expired object delete marker action cannot use a tag filter" else Ok tt
    | None => Ok tt
    end in
  let? _ :=
    match noncurrent_version_expiration rule with
    | Some n => validate_noncurrent_thresholds (ne_noncurrent_days n)
                  (ne_newer_noncurrent_versions n) (selector rule)
                  "noncurrent expiration days must be positive"
    | None => Ok tt
    end in
  let? _ :=
    match transition rule with
    | Some (TransDate t) =>
      bail_if not_midnight t with invalid "transition date must be UTC midnight" else Ok tt
    | Some (TransDays days) =>
      bail_if days =? 0 with invalid "lifecycle transition days must be positive" else
      bail_if i32_max <? days with invalid "lifecycle transition days are out of range" else Ok tt
    | None => Ok tt
    end in
  let? _ :=
    match noncurrent_version_transition rule with
    | Some n => validate_noncurrent_thresholds (nt_noncurrent_days n)
                  (nt_newer_noncurrent_versions n) (selector rule)
                  "noncurrent transition days must be positive"
    | None => Ok tt
    end in
  let? _ :=
    match abort_incomplete_multipart_upload rule with
    | Some abort =>
      bail_if days_after_initiation abort =? 0
        with invalid "abort days after initiation must be positive" else
      bail_if i32_max <? days_after_initiation abort
        with invalid "abort days after initiation are out of range" else
      match selector rule with
      | LegacyPrefix _ | Modern (FAll | FPrefix _) => Ok tt
      | _ => Err (invalid "abort incomplete multipart upload requires an all or prefix selector")
      end
    | None => Ok tt
    end in
  bail_if is_none (expiration rule) && is_none (noncurrent_version_expiration rule)
          && is_none (transition rule) && is_none (noncurrent_version_transition rule)
          && is_none (abort_incomplete_multipart_upload rule)
    with invalid "lifecycle rule requires a supported action" else
  Ok tt.

(** One iteration of the loop over the rules; [ids] is the set of ids seen. *)
Definition validate_rule_step (ids : list string) (rule : CanonicalLifecycleRule)
  : AppResult (list string) :=
  let? ids :=
    match rule_id rule with
    | Some id =>
      bail_if 255 <? char_count id with invalid "lifecycle rule ID must be at most 255 characters" else
      bail_if bool_decide (id ∈ ids) with invalid "lifecycle rule IDs must be unique" else
      Ok (id :: ids)
    | None => Ok ids
    end in
  let? _ := validate_canonical_rule rule in Ok ids.

Definition validate_canonical_configuration (config : CanonicalLifecycleConfiguration)
  : AppResult unit :=
  bail_if negb (schema_version config =? SCHEMA_VERSION)
    with invalid "unsupported lifecycle configuration schema version" else
  bail_if negb ((1 <=? Z.of_nat (length (rules config))) && (Z.of_nat (length (rules config)) <=? 1000))
    with invalid "lifecycle configuration must contain 1 to 1000 rules" else
  let? _ := try_fold validate_rule_step [] (rules config) in Ok tt.

(** ** Canonicalisation of an S3 document *)

Definition timestamp_to_utc_with_messages (value : Timestamp)
    (invalid_message utc_message midnight_message : string) : AppResult Z :=
  let? text := ok_or (invalid invalid_message) (ts_format value) in
  let? parsed := ok_or (invalid invalid_message) (parse_from_rfc3339 text) in
  bail_if negb (bool_decide (timestamp_of_utc parsed = value)) with invalid utc_message else
  bail_if not_midnight parsed with invalid midnight_message else
  Ok parsed.

Definition timestamp_to_utc (value : Timestamp) : AppResult Z :=
  timestamp_to_utc_with_messages value "expiration date is invalid" "expiration date must use UTC"
    "expiration date must be UTC midnight".

Definition transition_timestamp_to_utc (value : Timestamp) : AppResult Z :=
  timestamp_to_utc_with_messages value "transition date is invalid" "transition date must use UTC"
    "transition date must be UTC midnight".

Definition canonicalize_tag (tag : Tag) : AppResult CanonicalTag :=
  let? key := ok_or (invalid "lifecycle tag key is required") (dto_tag_key tag) in
  Ok {| ctag_key := key; ctag_value := default EmptyString (dto_tag_value tag) |}.

Definition canonicalize_and (a : LifecycleRuleAndOperator) : AppResult CanonicalFilter :=
  let? greater := try_option nonnegative_size (and_object_size_greater_than a) in
  let? less := try_option nonnegative_size (and_object_size_less_than a) in
  bail_if (match greater, less with Some l, Some u => u <=? l | _, _ => false end)
    with invalid "lifecycle And size bounds must be ordered" else
  let? tags := try_map canonicalize_tag (default [] (and_tags a)) in
  let tags := sort_by cmp tags in
  bail_if windows2_any (fun x y => String.eqb (ctag_key x) (ctag_key y)) tags
    with invalid "lifecycle And tag keys must be distinct" else
  Ok (FAnd (and_prefix a) tags greater less).

Definition count_some (bs : list bool) : nat := length (filter (fun b => b = true) bs).

Definition canonicalize_filter (f : LifecycleRuleFilter) : AppResult CanonicalFilter :=
  let too_many := invalid "lifecycle Filter must contain at most one selector" in
  bail_if (1 <? count_some [is_some (f_and f); is_some (f_object_size_greater_than f);
                            is_some (f_object_size_less_than f); is_some (f_prefix f);
                            is_some (f_tag f)])%nat with too_many else
  match f_and f, f_prefix f, f_tag f, f_object_size_greater_than f, f_object_size_less_than f with
  | None, None, None, None, None => Ok FAll
  | Some a, None, None, None, None => canonicalize_and a
  | None, Some prefix, None, None, None => Ok (FPrefix prefix)
  | None, None, Some tag, None, None => let? tag := canonicalize_tag tag in Ok (FTag tag)
  | None, None, None, Some bytes, None =>
    let? bytes := nonnegative_size bytes in Ok (ObjectSizeGreaterThan bytes)
  | None, None, None, None, Some bytes =>
    let? bytes := nonnegative_size bytes in Ok (ObjectSizeLessThan bytes)
  | _, _, _, _, _ => Err too_many
  end.

Definition canonicalize_selector (prefix : option string) (f : option LifecycleRuleFilter)
  : AppResult CanonicalRuleSelector :=
  match prefix, f with
  | Some _, Some _ => Err (invalid "lifecycle rule cannot contain both Prefix and Filter")
  | Some prefix, None => Ok (LegacyPrefix prefix)
  | None, Some f => let? f := canonicalize_filter f in Ok (Modern f)
  | None, None => Err (invalid "lifecycle rule requires Prefix or Filter")
  end.

Definition canonicalize_expiration (e : LifecycleExpiration) : AppResult CurrentExpiration :=
  let one := invalid "lifecycle Expiration must contain exactly one action" in
  bail_if negb (count_some [is_some (le_date e); is_some (le_days e);
                            is_some (le_expired_object_delete_marker e)] =? 1)%nat with one else
  match le_date e, le_days e, le_expired_object_delete_marker e with
  | Some date, None, None => let? t := timestamp_to_utc date in Ok (ExpDate t)
  | None, Some days, None =>
    let? days := positive_days days "lifecycle expiration days must be positive" in Ok (ExpDays days)
  | None, None, Some true => Ok ExpiredObjectDeleteMarker
  | None, None, Some false => Err (invalid "expired object delete marker must be true when present")
  | _, _, _ => Err one
  end.

Definition canonicalize_newer_noncurrent_versions (newer : option Z) (s : CanonicalRuleSelector)
  : AppResult (option Z) :=
  match newer with
  | None => Ok None
  | Some value =>
    if (1 <=? value) && (value <=? 100) then
      bail_if negb (is_modern s)
        with invalid "newer noncurrent versions requires an explicit modern Filter" else
      Ok (Some (as_u16 value))
    else Err (invalid "newer noncurrent versions must be between 1 and 100")
  end.

(** The source repeats the match of [canonicalize_newer_noncurrent_versions] here. *)
Definition canonicalize_noncurrent_expiration (e : NoncurrentVersionExpiration)
    (s : CanonicalRuleSelector) : AppResult NoncurrentExpiration :=
  let? noncurrent_days := ok_or (invalid "noncurrent expiration days are required")
                            (nve_noncurrent_days e) in
  let? newer := canonicalize_newer_noncurrent_versions (nve_newer_noncurrent_versions e) s in
  let? days := positive_days noncurrent_days "noncurrent expiration days must be positive" in
  Ok {| ne_noncurrent_days := days; ne_newer_noncurrent_versions := newer |}.

Definition require_standard_ia (storage_class : option string) : AppResult unit :=
  let? storage_class := ok_or (invalid "lifecycle transition storage class is required")
                          storage_class in
  bail_if negb (String.eqb storage_class STANDARD_IA)
    with invalid "lifecycle transition storage class must be STANDARD_IA" else Ok tt.

Definition canonicalize_current_transition (t : Transition) : AppResult CurrentTransition :=
  let? _ := require_standard_ia (tr_storage_class t) in
  match tr_date t, tr_days t with
  | Some date, None => let? u := transition_timestamp_to_utc date in Ok (TransDate u)
  | None, Some days =>
    let? days := positive_days days "lifecycle transition days must be positive" in
    Ok (TransDays days)
  | _, _ => Err (invalid "lifecycle Transition must contain exactly one of Date or Days")
  end.

Definition canonicalize_current_transition_list (ts : option (list Transition))
  : AppResult (option CurrentTransition) :=
  match ts with
  | None => Ok None
  | Some [t] => let? t := canonicalize_current_transition t in Ok (Some t)
  | Some _ => Err (invalid "lifecycle Transition must contain exactly one step")
  end.

Definition canonicalize_noncurrent_transition (t : NoncurrentVersionTransition)
    (s : CanonicalRuleSelector) : AppResult NoncurrentTransition :=
  let? _ := require_standard_ia (nvt_storage_class t) in
  let? noncurrent_days := ok_or (invalid "noncurrent transition days are required")
                            (nvt_noncurrent_days t) in
  let? days := positive_days noncurrent_days "noncurrent transition days must be positive" in
  let? newer := canonicalize_newer_noncurrent_versions (nvt_newer_noncurrent_versions t) s in
  Ok {| nt_noncurrent_days := days; nt_newer_noncurrent_versions := newer |}.

Definition canonicalize_noncurrent_transition_list (ts : option (list NoncurrentVersionTransition))
    (s : CanonicalRuleSelector) : AppResult (option NoncurrentTransition) :=
  match ts with
  | None => Ok None
  | Some [t] => let? t := canonicalize_noncurrent_transition t s in Ok (Some t)
  | Some _ => Err (invalid "NoncurrentVersionTransition must contain exactly one step")
  end.

Definition canonicalize_abort (a : AbortIncompleteMultipartUploadDto)
  : AppResult AbortIncompleteMultipartUploadAction :=
  let? days := ok_or (invalid "abort days after initiation are required")
                 (dto_days_after_initiation a) in
  bail_if days <=? 0 with invalid "abort days after initiation must be positive" else
  bail_if negb ((0 <=? days) && (days <=? u32_max))
    with invalid "abort days after initiation are out of range" else
  Ok {| days_after_initiation := days |}.

Definition canonicalize_rule (rule : LifecycleRule) : AppResult CanonicalLifecycleRule :=
  let? status :=
    if String.eqb (lr_status rule) ENABLED then Ok RuleEnabled
    else if String.eqb (lr_status rule) DISABLED then Ok RuleDisabled
    else Err (invalid "lifecycle rule status must be Enabled or Disabled") in
  let? selector := canonicalize_selector (lr_prefix rule) (lr_filter rule) in
  let? expiration := try_option canonicalize_expiration (lr_expiration rule) in
  let? nve := try_option (fun v => canonicalize_noncurrent_expiration v selector)
                (lr_noncurrent_version_expiration rule) in
  let? transition := canonicalize_current_transition_list (lr_transitions rule) in
  let? nvt := canonicalize_noncurrent_transition_list (lr_noncurrent_version_transitions rule)
                selector in
  let? abort := try_option canonicalize_abort (lr_abort_incomplete_multipart_upload rule) in
  bail_if (match expiration with Some ExpiredObjectDeleteMarker => true | _ => false end)
          && selector_has_tag_filter selector
    with invalid "expired object delete marker action cannot use a tag filter" else
  Ok {| rule_id := lr_id rule; status := status; selector := selector; expiration := expiration;
        noncurrent_version_expiration := nve; transition := transition;
        noncurrent_version_transition := nvt; abort_incomplete_multipart_upload := abort |}.

Definition validate_and_canonicalize (input : list LifecycleRule)
  : AppResult CanonicalLifecycleConfiguration :=
  let? rules := try_map canonicalize_rule input in
  let config := {| schema_version := SCHEMA_VERSION; rules := rules |} in
  let? _ := validate_canonical_configuration config in
  Ok config.

(** ** Projection to the S3 document *)

Definition utc_to_timestamp (value : Z) : Timestamp := timestamp_of_utc value.

(** [i32::try_from(days)] of a [u32] *)
Definition i32_try_from (days : Z) (message : string) : AppResult Z :=
  bail_if i32_max <? days with invalid message else Ok days.

Definition project_tag (tag : CanonicalTag) : Tag :=
  {| dto_tag_key := Some (ctag_key tag); dto_tag_value := Some (ctag_value tag) |}.

Definition empty_filter : LifecycleRuleFilter :=
  {| f_and := None; f_object_size_greater_than := None; f_object_size_less_than := None;
     f_prefix := None; f_tag := None |}.

Definition project_filter (f : CanonicalFilter) : AppResult LifecycleRuleFilter :=
  Ok match f with
  | FAll => empty_filter
  | FPrefix prefix =>
    {| f_and := None; f_object_size_greater_than := None; f_object_size_less_than := None;
       f_prefix := Some prefix; f_tag := None |}
  | FTag tag =>
    {| f_and := None; f_object_size_greater_than := None; f_object_size_less_than := None;
       f_prefix := None; f_tag := Some (project_tag tag) |}
  | ObjectSizeGreaterThan bytes =>
    {| f_and := None; f_object_size_greater_than := Some bytes; f_object_size_less_than := None;
       f_prefix := None; f_tag := None |}
  | ObjectSizeLessThan bytes =>
    {| f_and := None; f_object_size_greater_than := None; f_object_size_less_than := Some bytes;
       f_prefix := None; f_tag := None |}
  | FAnd prefix tags greater less =>
    {| f_and := Some {| and_object_size_greater_than := greater;
                        and_object_size_less_than := less;
                        and_prefix := prefix;
                        and_tags := if bool_decide (tags = []) then None
                                    else Some (map project_tag tags) |};
       f_object_size_greater_than := None; f_object_size_less_than := None;
       f_prefix := None; f_tag := None |}
     end.

Definition project_expiration (e : CurrentExpiration) : AppResult LifecycleExpiration :=
  match e with
  | ExpDate t =>
    Ok {| le_date := Some (utc_to_timestamp t); le_days := None;
          le_expired_object_delete_marker := None |}
  | ExpDays days =>
    let? days := i32_try_from days "lifecycle expiration days are out of range" in
    Ok {| le_date := None; le_days := Some days; le_expired_object_delete_marker := None |}
  | ExpiredObjectDeleteMarker =>
    Ok {| le_date := None; le_days := None; le_expired_object_delete_marker := Some true |}
  end.

Definition project_noncurrent_expiration (e : NoncurrentExpiration) : NoncurrentVersionExpiration :=
  {| nve_newer_noncurrent_versions := ne_newer_noncurrent_versions e;
     nve_noncurrent_days := Some (as_i32 (ne_noncurrent_days e)) |}.

Definition project_transition (t : CurrentTransition) : AppResult Transition :=
  match t with
  | TransDate u =>
    Ok {| tr_date := Some (utc_to_timestamp u); tr_days := None; tr_storage_class := Some STANDARD_IA |}
  | TransDays days =>
    let? days := i32_try_from days "lifecycle transition days are out of range" in
    Ok {| tr_date := None; tr_days := Some days; tr_storage_class := Some STANDARD_IA |}
  end.

Definition project_noncurrent_transition (t : NoncurrentTransition) : NoncurrentVersionTransition :=
  {| nvt_newer_noncurrent_versions := nt_newer_noncurrent_versions t;
     nvt_noncurrent_days := Some (as_i32 (nt_noncurrent_days t));
     nvt_storage_class := Some STANDARD_IA |}.

Definition project_rule (rule : CanonicalLifecycleRule) : AppResult LifecycleRule :=
  let? abort := try_option (fun abort =>
      let? days := i32_try_from (days_after_initiation abort)
                     "abort days after initiation are out of range" in
      Ok {| dto_days_after_initiation := Some days |}) (abort_incomplete_multipart_upload rule) in
  let? expiration := try_option project_expiration (expiration rule) in
  let? filter :=
    match selector rule with
    | LegacyPrefix _ => Ok None
    | Modern f => let? f := project_filter f in Ok (Some f)
    end in
  let? transitions := try_option (fun t => let? t := project_transition t in Ok [t])
                        (transition rule) in
  Ok {| lr_abort_incomplete_multipart_upload := abort;
        lr_expiration := expiration;
        lr_filter := filter;
        lr_id := rule_id rule;
        lr_noncurrent_version_expiration :=
          project_noncurrent_expiration <$> noncurrent_version_expiration rule;
        lr_noncurrent_version_transitions :=
          (fun t => [project_noncurrent_transition t]) <$> noncurrent_version_transition rule;
        lr_prefix := match selector rule with
                     | LegacyPrefix prefix => Some prefix
                     | Modern _ => None
                     end;
        lr_status := match status rule with RuleEnabled => ENABLED | RuleDisabled => DISABLED end;
        lr_transitions := transitions |}.

Definition to_s3_rules (config : CanonicalLifecycleConfiguration) : AppResult (list LifecycleRule) :=
  let? _ := validate_canonical_configuration config in
  try_map project_rule (rules config).

(** ** Storage: [serde_json::to_string] and [serde_json::from_str] are parameters. *)

Definition canonical_json (to_json : CanonicalLifecycleConfiguration -> option string)
    (config : CanonicalLifecycleConfiguration) : AppResult string :=
  let? _ := validate_canonical_configuration config in
  ok_or (invalid "lifecycle configuration cannot be serialized") (to_json config).

Definition from_canonical_json (from_json : string -> option CanonicalLifecycleConfiguration)
    (json : string) : AppResult CanonicalLifecycleConfiguration :=
  let? config := ok_or (invalid "stored lifecycle configuration is invalid") (from_json json) in
  let? _ := validate_canonical_configuration config in
  Ok config.

(** ** The projection inverts canonicalisation *)

(** The widths of the fields of the data transfer objects. *)
Definition opt_i32 (o : option Z) : Prop := match o with Some z => is_i32 z | None => True end.

Definition dto_widths (r : LifecycleRule) : Prop :=
  opt_i32 (lr_expiration r ≫= le_days) /\
  opt_i32 (lr_noncurrent_version_expiration r ≫= nve_noncurrent_days) /\
  Forall (fun t => opt_i32 (tr_days t)) (default [] (lr_transitions r)) /\
  Forall (fun t => opt_i32 (nvt_noncurrent_days t))
    (default [] (lr_noncurrent_version_transitions r)) /\
  opt_i32 (lr_abort_incomplete_multipart_upload r ≫= dto_days_after_initiation).

Lemma as_u32_i32 z : is_i32 z -> 0 < z -> as_u32 z = z.
Proof. unfold is_i32, i32_max, as_u32. intros. apply Z.mod_small. lia. Qed.

Lemma as_i32_u32 z : 0 < z <= i32_max -> as_i32 z = z.
Proof. unfold i32_max, as_i32. intros. rewrite Z.mod_small; lia. Qed.

Lemma i32_try_from_ok z m : is_i32 z -> i32_try_from z m = Ok z.
Proof. unfold i32_try_from, is_i32. intros. rewrite (proj2 (Z.ltb_ge _ _)); [done|lia]. Qed.

Lemma positive_days_ok z m : 0 < z <= i32_max -> positive_days z m = Ok z.
Proof.
  unfold positive_days. intros. rewrite (proj2 (Z.leb_gt _ _)) by lia.
  rewrite as_u32_i32; [done| |lia]. unfold is_i32. lia.
Qed.

Lemma positive_days_inv z m d :
  is_i32 z -> positive_days z m = Ok d -> d = z /\ 0 < z <= i32_max.
Proof.
  unfold positive_days. intros Hz Hd. ok_inv Hd. simplify_eq.
  rewrite as_u32_i32 by (done || lia). unfold is_i32 in Hz. lia.
Qed.

Lemma nonnegative_size_ok b b' : nonnegative_size b = Ok b' -> b' = b.
Proof. unfold nonnegative_size. intros Hb. ok_inv Hb. congruence. Qed.

Lemma nonnegative_size_idem b b' : nonnegative_size b = Ok b' -> nonnegative_size b' = Ok b'.
Proof. intros Hb. by rewrite <- (nonnegative_size_ok _ _ Hb) in Hb. Qed.

Lemma try_nonnegative_idem o o' :
  try_option nonnegative_size o = Ok o' -> try_option nonnegative_size o' = Ok o'.
Proof.
  rewrite !try_option_ok. destruct o, o'; try done. apply nonnegative_size_idem.
Qed.

Lemma canonicalize_project_tags tags : try_map canonicalize_tag (map project_tag tags) = Ok tags.
Proof. induction tags as [|[k v] tags IH]; simpl; [done|]. by rewrite IH. Qed.

Lemma project_and_tags tags :
  try_map canonicalize_tag
    (default [] (if bool_decide (tags = []) then None else Some (map project_tag tags))) = Ok tags.
Proof. case_bool_decide as Ht; simpl; [by rewrite Ht | apply canonicalize_project_tags]. Qed.

Lemma sort_tags_idem (tags : list CanonicalTag) : sort_by cmp (sort_by cmp tags) = sort_by cmp tags.
Proof. apply (sort_by_id ctag_pair), sort_by_sorted. Qed.

Lemma canonicalize_and_roundtrip a cf :
  canonicalize_and a = Ok cf -> exists pf, project_filter cf = Ok pf /\ canonicalize_filter pf = Ok cf.
Proof.
  unfold canonicalize_and at 1. intros Ha. ok_inv Ha. simplify_eq. eexists; split; [reflexivity|].
  match goal with
  | |- canonicalize_filter ?f = _ =>
    change (canonicalize_filter f) with (from_option canonicalize_and (Ok FAll) (f_and f))
  end.
  unfold f_and, from_option, canonicalize_and, and_object_size_greater_than,
    and_object_size_less_than, and_tags, and_prefix.
  rewrite project_and_tags. erewrite !try_nonnegative_idem by eassumption.
  cbn [rbind]. rewrite sort_tags_idem.
  repeat match goal with E : _ = false |- _ => rewrite E; clear E end. done.
Qed.

Lemma canonicalize_filter_roundtrip f cf :
  canonicalize_filter f = Ok cf -> exists pf, project_filter cf = Ok pf /\ canonicalize_filter pf = Ok cf.
Proof.
  unfold canonicalize_filter. intros Hf. ok_inv Hf.
  repeat case_match; try done; simplify_eq; [by eapply canonicalize_and_roundtrip| | | | |].
  all: try (eexists; split; done).
  all: ok_inv Hf; simplify_eq; eexists; split; [done|]; simpl.
  - by destruct x.
  - by erewrite nonnegative_size_idem.
  - by erewrite nonnegative_size_idem.
Qed.

Lemma timestamp_roundtrip ts m1 m2 m3 t :
  timestamp_to_utc_with_messages ts m1 m2 m3 = Ok t -> utc_to_timestamp t = ts.
Proof.
  unfold timestamp_to_utc_with_messages. intros Ht. ok_inv Ht. simplify_eq.
  by apply negb_false_iff, bool_decide_eq_true in E1.
Qed.

Lemma expiration_roundtrip e ce :
  opt_i32 (le_days e) -> canonicalize_expiration e = Ok ce ->
  exists pe, project_expiration ce = Ok pe /\ canonicalize_expiration pe = Ok ce.
Proof.
  destruct e as [[ts|] [d|] [[]|]]; try (by intros ? [=]); unfold canonicalize_expiration; simpl;
    intros Hd Hc; ok_inv Hc; simplify_eq; simpl.
  - eexists; split; [done|]. cbn. unfold timestamp_to_utc in *.
    erewrite timestamp_roundtrip by eassumption. by rewrite E.
  - apply positive_days_inv in E as [-> Hr]; [|done]. rewrite i32_try_from_ok by done.
    eexists; split; [done|]. cbn. by rewrite positive_days_ok.
  - by eexists.
Qed.

Lemma transition_roundtrip t ct :
  opt_i32 (tr_days t) -> canonicalize_current_transition t = Ok ct ->
  exists pt, project_transition ct = Ok pt /\ canonicalize_current_transition pt = Ok ct.
Proof.
  destruct t as [[ts|] [d|] sc]; unfold canonicalize_current_transition; simpl;
    intros Hd Hc; ok_inv Hc; simplify_eq; simpl.
  - eexists; split; [done|]. cbn. unfold transition_timestamp_to_utc in *.
    erewrite timestamp_roundtrip by eassumption. by rewrite E0.
  - apply positive_days_inv in E0 as [-> Hr]; [|done]. rewrite i32_try_from_ok by done.
    eexists; split; [done|]. cbn. by rewrite positive_days_ok.
Qed.

Lemma newer_roundtrip n s n' :
  canonicalize_newer_noncurrent_versions n s = Ok n' ->
  canonicalize_newer_noncurrent_versions n' s = Ok n'.
Proof.
  destruct n as [z|]; simpl; [|by intros [= <-]].
  destruct ((1 <=? z) && (z <=? 100)) eqn:Hz; [|done]. intros Hn; ok_inv Hn; simplify_eq; simpl.
  assert (as_u16 z = z) as Hu.
  { apply andb_true_iff in Hz. unfold as_u16. apply Z.mod_small. lia. }
  by rewrite !Hu, Hz, E.
Qed.

Lemma noncurrent_expiration_roundtrip e s ce :
  opt_i32 (nve_noncurrent_days e) -> canonicalize_noncurrent_expiration e s = Ok ce ->
  canonicalize_noncurrent_expiration (project_noncurrent_expiration ce) s = Ok ce.
Proof.
  unfold canonicalize_noncurrent_expiration. intros Hd Hc. ok_inv Hc. simplify_eq; simpl in *.
  rewrite E in Hd. apply positive_days_inv in E1 as [-> Hr]; [|done].
  rewrite as_i32_u32 by done. erewrite newer_roundtrip by eassumption. simpl.
  by rewrite positive_days_ok.
Qed.

Lemma noncurrent_transition_roundtrip t s ct :
  opt_i32 (nvt_noncurrent_days t) -> canonicalize_noncurrent_transition t s = Ok ct ->
  canonicalize_noncurrent_transition (project_noncurrent_transition ct) s = Ok ct.
Proof.
  unfold canonicalize_noncurrent_transition. intros Hd Hc. ok_inv Hc. simplify_eq; simpl in *.
  rewrite E0 in Hd. apply positive_days_inv in E1 as [-> Hr]; [|done].
  rewrite as_i32_u32, positive_days_ok by done. simpl. by erewrite newer_roundtrip.
Qed.

Lemma abort_roundtrip a ca m :
  opt_i32 (dto_days_after_initiation a) -> canonicalize_abort a = Ok ca ->
  i32_try_from (days_after_initiation ca) m = Ok (days_after_initiation ca) /\
  canonicalize_abort {| dto_days_after_initiation := Some (days_after_initiation ca) |} = Ok ca.
Proof.
  unfold canonicalize_abort. intros Hd Hc. ok_inv Hc. simplify_eq; simpl in *.
  rewrite E in Hd. split; [by apply i32_try_from_ok|]. by rewrite E0, E1.
Qed.

Lemma selector_roundtrip p f s :
  canonicalize_selector p f = Ok s ->
  exists pf,
    (match s with LegacyPrefix _ => Ok None
     | Modern f => let? f := project_filter f in Ok (Some f) end) = Ok pf /\
    canonicalize_selector (match s with LegacyPrefix p => Some p | Modern _ => None end) pf = Ok s.
Proof.
  destruct p as [p|], f as [f|]; simpl; try done.
  - intros [= <-]. by exists None.
  - intros Hs; ok_inv Hs; simplify_eq. apply canonicalize_filter_roundtrip in E as (pf & Hp & Hc).
    exists (Some pf). split; [|simpl; by rewrite Hc].
    by apply (f_equal (fun r => rbind r (fun f => Ok (Some f)))) in Hp.
Qed.

(** [g] inverts [f] on what [f] returned. *)
Lemma try_option_roundtrip {A B} (f : A -> AppResult B) (g : B -> AppResult A) o o' :
  (forall a b, o = Some a -> f a = Ok b -> exists a', g b = Ok a' /\ f a' = Ok b) ->
  try_option f o = Ok o' ->
  exists p, try_option g o' = Ok p /\ try_option f p = Ok o'.
Proof.
  intros Hfg Ho. apply try_option_ok in Ho. destruct o as [a|], o' as [b|]; try done.
  - destruct (Hfg a b) as (a' & Hg & Hf); [done..|]. exists (Some a'). simpl. by rewrite Hg, Hf.
  - by exists None.
Qed.

Lemma transition_list_roundtrip ts ct :
  Forall (fun t => opt_i32 (tr_days t)) (default [] ts) ->
  canonicalize_current_transition_list ts = Ok ct ->
  exists pt, try_option (fun t => let? t := project_transition t in Ok [t]) ct = Ok pt /\
             canonicalize_current_transition_list pt = Ok ct.
Proof.
  destruct ts as [[|t [|]]|]; simpl; try done.
  - intros [Ht _]%Forall_cons Hc. ok_inv Hc; simplify_eq.
    apply transition_roundtrip in E as (pt & Hp & Hc); [|done].
    exists (Some [pt]). simpl. by rewrite Hp; simpl; rewrite Hc.
  - intros _ [= <-]. by exists None.
Qed.

Lemma noncurrent_transition_list_roundtrip ts s ct :
  Forall (fun t => opt_i32 (nvt_noncurrent_days t)) (default [] ts) ->
  canonicalize_noncurrent_transition_list ts s = Ok ct ->
  canonicalize_noncurrent_transition_list
    ((fun t => [project_noncurrent_transition t]) <$> ct) s = Ok ct.
Proof.
  destruct ts as [[|t [|]]|]; simpl; try done.
  - intros [Ht _]%Forall_cons Hc. ok_inv Hc; simplify_eq.
    apply noncurrent_transition_roundtrip in E; [|done]. simpl. by rewrite E.
  - by intros _ [= <-].
Qed.

Lemma noncurrent_expiration_option_roundtrip e s ce :
  opt_i32 (e ≫= nve_noncurrent_days) ->
  try_option (fun v => canonicalize_noncurrent_expiration v s) e = Ok ce ->
  try_option (fun v => canonicalize_noncurrent_expiration v s)
    (project_noncurrent_expiration <$> ce) = Ok ce.
Proof.
  rewrite !try_option_ok. destruct e, ce; try done. apply noncurrent_expiration_roundtrip.
Qed.

Lemma rule_roundtrip r cr :
  dto_widths r -> canonicalize_rule r = Ok cr ->
  exists pr, project_rule cr = Ok pr /\ canonicalize_rule pr = Ok cr.
Proof.
  intros (We & Wn & Wt & Wnt & Wa). unfold canonicalize_rule at 1. intros Hr. ok_inv Hr. simplify_eq.
  apply selector_roundtrip in E0 as (pf & Pf & Cf).
  eapply (try_option_roundtrip _ project_expiration) in E1 as (pe & Pe & Ce);
    [|intros a b Ho; rewrite Ho in We; by apply expiration_roundtrip].
  apply noncurrent_expiration_option_roundtrip in E2; [|done].
  apply transition_list_roundtrip in E3 as (pt & Pt & Ct); [|done].
  apply noncurrent_transition_list_roundtrip in E4; [|done].
  eapply (try_option_roundtrip _ (fun abort =>
      let? days := i32_try_from (days_after_initiation abort)
                     "abort days after initiation are out of range" in
      Ok {| dto_days_after_initiation := Some days |})) in E5 as (pa & Pa & Ca).
  2: { intros a b Ho Ha. rewrite Ho in Wa. edestruct abort_roundtrip as [Hd Hc]; [exact Wa|exact Ha|].
       rewrite Hd. by eexists. }
  unfold project_rule; cbn [abort_incomplete_multipart_upload expiration selector transition].
  rewrite Pa, Pe, Pf, Pt; cbn [rbind].
  eexists; split; [done|]. unfold canonicalize_rule; cbn -[try_option canonicalize_selector].
  replace (if String.eqb _ ENABLED then _ else _) with (Ok (E := AppError) x) by (by destruct x).
  cbn [rbind]. rewrite Cf; cbn [rbind]. rewrite Ce; cbn [rbind]. rewrite E2; cbn [rbind].
  rewrite Ct; cbn [rbind]. rewrite E4; cbn [rbind]. rewrite Ca; cbn [rbind]. by rewrite E6.
Qed.

(** ** What validation accepts *)

Definition key_lt (a b : CanonicalTag) : Prop := cmp (ctag_key a) (ctag_key b) = Lt.

Definition wf_selector (s : CanonicalRuleSelector) : Prop :=
  match s with
  | Modern (ObjectSizeGreaterThan b | ObjectSizeLessThan b) => 0 <= b
  | Modern (FAnd _ tags greater less) =>
    (forall b, greater = Some b -> 0 <= b) /\
    (forall b, less = Some b -> 0 <= b) /\
    (forall b b', greater = Some b -> less = Some b' -> b < b') /\
    StronglySorted key_lt tags
  | _ => True
  end.

(** An action that counts days counts at least one. *)
Definition wf_expiration (s : CanonicalRuleSelector) (e : CurrentExpiration) : Prop :=
  match e with
  | ExpDate t => t mod day_ns = 0
  | ExpDays d => d <> 0
  | ExpiredObjectDeleteMarker => selector_has_tag_filter s = false
  end.

Definition wf_transition (t : CurrentTransition) : Prop :=
  match t with
  | TransDate t => t mod day_ns = 0
  | TransDays d => d <> 0 /\ d <= i32_max
  end.

Definition wf_noncurrent (s : CanonicalRuleSelector) (days : Z) (newer : option Z) : Prop :=
  days <> 0 /\ days <= i32_max /\
  (forall n, newer = Some n -> 1 <= n <= 100 /\ exists f, s = Modern f).

Definition all_or_prefix (s : CanonicalRuleSelector) : Prop :=
  match s with
  | LegacyPrefix _ | Modern (FAll | FPrefix _) => True
  | _ => False
  end.

Definition has_action (r : CanonicalLifecycleRule) : Prop :=
  is_Some (expiration r) \/ is_Some (noncurrent_version_expiration r) \/ is_Some (transition r) \/
  is_Some (noncurrent_version_transition r) \/ is_Some (abort_incomplete_multipart_upload r).

Definition wf_rule (r : CanonicalLifecycleRule) : Prop :=
  wf_selector (selector r) /\
  (forall e, expiration r = Some e -> wf_expiration (selector r) e) /\
  (forall n, noncurrent_version_expiration r = Some n ->
     wf_noncurrent (selector r) (ne_noncurrent_days n) (ne_newer_noncurrent_versions n)) /\
  (forall t, transition r = Some t -> wf_transition t) /\
  (forall n, noncurrent_version_transition r = Some n ->
     wf_noncurrent (selector r) (nt_noncurrent_days n) (nt_newer_noncurrent_versions n)) /\
  (forall a, abort_incomplete_multipart_upload r = Some a ->
     days_after_initiation a <> 0 /\ days_after_initiation a <= i32_max /\
     all_or_prefix (selector r)) /\
  has_action r.

Definition wf_configuration (c : CanonicalLifecycleConfiguration) : Prop :=
  schema_version c = SCHEMA_VERSION /\
  1 <= Z.of_nat (length (rules c)) <= 1000 /\
  Forall (fun id => char_count id <= 255) (omap rule_id (rules c)) /\
  NoDup (omap rule_id (rules c)) /\
  Forall wf_rule (rules c).

Lemma has_duplicate_false seen l :
  has_duplicate seen l = false <-> NoDup l /\ (forall x, x ∈ l -> x ∉ seen).
Proof.
  revert seen. induction l as [|x l IH]; intros seen; simpl.
  { split; [|done]. split; [constructor|]. intros x; by rewrite elem_of_nil. }
  rewrite orb_false_iff, bool_decide_eq_false, IH, NoDup_cons.
  setoid_rewrite elem_of_cons. naive_solver.
Qed.

Lemma windows_sorted (tags : list CanonicalTag) :
  windows2_any (fun a b => lt_b b a) tags = false <-> StronglySorted (key_le ctag_pair) tags.
Proof.
  assert (Hw : forall a b : CanonicalTag, lt_b b a = false <-> key_le ctag_pair a b).
  { intros a b. unfold lt_b, key_le, ord_le, cmp at 1, CanonicalTag_ord, by_key.
    rewrite (cmp_antisym (ctag_pair a)). destruct (cmp (ctag_pair a) (ctag_pair b)); simpl; done. }
  induction tags as [|a [|b tags] IH]; [by repeat constructor..|].
  change (windows2_any _ (a :: b :: tags)) with
    (lt_b b a || windows2_any (fun a b => lt_b b a) (b :: tags)).
  rewrite orb_false_iff, Hw, IH. split.
  - intros [Hab Hs]. constructor; [done|]. constructor; [done|].
    apply StronglySorted_inv in Hs as [_ Hb]. eapply Forall_impl; [exact Hb|].
    intros c Hc. by apply (ord_le_trans _ (ctag_pair b)).
  - intros [Hs Ha]%StronglySorted_inv. by apply Forall_cons in Ha as [? _].
Qed.

(** Sorted with distinct keys is strictly sorted by key. *)
Lemma sorted_distinct_keys tags :
  StronglySorted (key_le ctag_pair) tags /\ NoDup (map ctag_key tags) <->
  StronglySorted key_lt tags.
Proof.
  induction tags as [|a tags IH]; simpl; [split; repeat constructor|]. split.
  - intros [[Hs Ha]%StronglySorted_inv [Hn Hd]%NoDup_cons]. constructor; [by apply IH|].
    rewrite Forall_forall in *. intros b Hb. specialize (Ha b Hb).
    unfold key_lt, key_le, ord_le, ctag_pair in *. rewrite prod_cmp in Ha; simpl in Ha.
    destruct (cmp (ctag_key a) (ctag_key b)) eqn:E; try done.
    apply cmp_eq_iff in E. destruct Hn. rewrite E. by apply list_elem_of_fmap_2.
  - intros [[Hs Hd]%IH Ha]%StronglySorted_inv. rewrite Forall_forall in Ha.
    split; constructor; try done.
    + apply Forall_forall. intros b Hb. specialize (Ha b Hb).
      unfold key_lt, key_le, ord_le, ctag_pair in *. rewrite prod_cmp; simpl. by rewrite Ha.
    + intros (b & E & Hb)%list_elem_of_fmap. specialize (Ha b Hb). unfold key_lt in Ha.
      rewrite E, cmp_refl in Ha. done.
Qed.

Lemma nonnegative_size_accepts b r : nonnegative_size b = Ok r <-> r = b /\ 0 <= b.
Proof. unfold nonnegative_size. rewrite bail_ok. split; [intros [? [= ->]]|intros [-> ?]]; split; (done || lia). Qed.

Lemma try_nonnegative_accepts o (k : AppResult unit) :
  (let? _ := try_option nonnegative_size o in k) = Ok tt <->
  (forall b, o = Some b -> 0 <= b) /\ k = Ok tt.
Proof.
  rewrite rbind_ok. split.
  - intros (o' & Ho & Hk). apply try_option_ok in Ho. split; [|done]. intros b ->.
    destruct o' as [b'|]; [|done]. by apply nonnegative_size_accepts in Ho as [_ ?].
  - intros [Hb Hk]. exists o. split; [|done]. apply try_option_ok. destruct o; [|done].
    apply nonnegative_size_accepts. auto.
Qed.

Lemma validate_selector_iff s : validate_canonical_selector s = Ok tt <-> wf_selector s.
Proof.
  destruct s as [p|[|p|t|b|b|p tags g l]]; simpl; try done.
  1, 2: unfold nonnegative_size; rewrite rbind_ok; setoid_rewrite bail_ok; split;
    [intros (? & [? _] & _); lia | intros; exists b; split; [split; [lia|done]|done]].
  rewrite !try_nonnegative_accepts, !bail_ok, windows_sorted, has_duplicate_false.
  rewrite <- sorted_distinct_keys. setoid_rewrite elem_of_nil. split.
  - intros (? & ? & Hb & ? & [? _] & _). split_and!; try done.
    intros b b' -> ->. simpl in Hb. lia.
  - intros (? & ? & Hb & ? & ?). split_and!; try done; [|naive_solver].
    destruct g as [b|], l as [b'|]; try done. apply Z.leb_gt. eauto.
Qed.

Lemma validate_thresholds_iff days newer s m :
  validate_noncurrent_thresholds days newer s m = Ok tt <-> wf_noncurrent s days newer.
Proof.
  unfold validate_noncurrent_thresholds, wf_noncurrent. rewrite !bail_ok.
  rewrite Z.eqb_neq, Z.ltb_ge. destruct newer as [n|]; [rewrite !bail_ok|naive_solver].
  rewrite !negb_false_iff, andb_true_iff, !Z.leb_le. split.
  - intros (? & ? & ? & Hm & _). split_and!; [done..|]. intros ? [= <-]. split; [done|].
    destruct s; simpl in Hm; [done|eauto].
  - intros (? & ? & Hn). destruct (Hn n) as [? [f ->]]; done.
Qed.

(** An optional part is accepted when it is absent or valid. *)
Lemma optional_iff {A} (o : option A) (f : A -> AppResult unit) (P : A -> Prop)
    (k : AppResult unit) (Q : Prop) :
  (forall a, f a = Ok tt <-> P a) -> (k = Ok tt <-> Q) ->
  (let? _ := match o with Some a => f a | None => Ok tt end in k) = Ok tt <->
  (forall a, o = Some a -> P a) /\ Q.
Proof.
  intros Hf Hk. rewrite rbind_ok. destruct o as [a|].
  - split; [intros ([] & Ha & ?) | intros [Ha ?]].
    + split; [|by apply Hk]. intros ? [= <-]. by apply Hf.
    + exists tt. split; [apply Hf; auto | by apply Hk].
  - naive_solver.
Qed.

Context `{!ChronoLaws}.

Lemma expiration_check_iff s e :
  match e with
  | ExpDate t =>
    bail_if not_midnight t with invalid "expiration date must be UTC midnight" else Ok tt
  | ExpDays days =>
    bail_if days =? 0 with invalid "lifecycle expiration days must be positive" else Ok tt
  | ExpiredObjectDeleteMarker =>
    bail_if selector_has_tag_filter s
      with invalid "expired object delete marker action cannot use a tag filter" else Ok tt
  end = Ok tt <-> wf_expiration s e.
Proof.
  destruct e; simpl; rewrite bail_ok; rewrite ?not_midnight_false, ?Z.eqb_neq; naive_solver.
Qed.

Lemma transition_check_iff t :
  match t with
  | TransDate t =>
    bail_if not_midnight t with invalid "transition date must be UTC midnight" else Ok tt
  | TransDays days =>
    bail_if days =? 0 with invalid "lifecycle transition days must be positive" else
    bail_if i32_max <? days with invalid "lifecycle transition days are out of range" else Ok tt
  end = Ok tt <-> wf_transition t.
Proof.
  destruct t; simpl; rewrite !bail_ok, ?not_midnight_false, ?Z.eqb_neq, ?Z.ltb_ge; naive_solver.
Qed.

Lemma abort_check_iff s a :
  (bail_if days_after_initiation a =? 0
     with invalid "abort days after initiation must be positive" else
   bail_if i32_max <? days_after_initiation a
     with invalid "abort days after initiation are out of range" else
   match s with
   | LegacyPrefix _ | Modern (FAll | FPrefix _) => Ok tt
   | _ => Err (invalid "abort incomplete multipart upload requires an all or prefix selector")
   end) = Ok tt <->
  days_after_initiation a <> 0 /\ days_after_initiation a <= i32_max /\ all_or_prefix s.
Proof.
  rewrite !bail_ok, Z.eqb_neq, Z.ltb_ge. destruct s as [|[]]; simpl; naive_solver.
Qed.

Lemma validate_rule_iff r : validate_canonical_rule r = Ok tt <-> wf_rule r.
Proof.
  unfold validate_canonical_rule, wf_rule. rewrite rbind_unit, validate_selector_iff.
  apply and_iff_compat_l.
  apply optional_iff; [apply expiration_check_iff|].
  apply optional_iff; [intros; apply validate_thresholds_iff|].
  apply optional_iff; [apply transition_check_iff|].
  apply optional_iff; [intros; apply validate_thresholds_iff|].
  apply optional_iff; [apply abort_check_iff|].
  rewrite bail_ok, !andb_false_iff, !is_none_false. unfold has_action. tauto.
Qed.

(** The loop over the rules: ids are short and fresh, and every rule is well formed. *)
Lemma validate_rules_iff ids rs :
  is_ok (try_fold validate_rule_step ids rs) = true <->
  Forall (fun id => char_count id <= 255) (omap rule_id rs) /\
  (NoDup (omap rule_id rs) /\ forall id, id ∈ omap rule_id rs -> id ∉ ids) /\
  Forall wf_rule rs.
Proof.
  revert ids. induction rs as [|r rs IH]; intros ids; simpl.
  { setoid_rewrite elem_of_nil. split; [|done]. repeat split; repeat constructor. naive_solver. }
  unfold validate_rule_step at 1. rewrite Forall_cons, <- validate_rule_iff.
  destruct (rule_id r) as [id|]; simpl.
  - rewrite Forall_cons, NoDup_cons. setoid_rewrite elem_of_cons.
    destruct (255 <? char_count id) eqn:E1; simpl; [lia|].
    case_bool_decide as E2; simpl; [naive_solver|].
    destruct (validate_canonical_rule r) as [[]|] eqn:E3; simpl; [|naive_solver].
    rewrite IH. setoid_rewrite elem_of_cons. naive_solver lia.
  - destruct (validate_canonical_rule r) as [[]|] eqn:E3; simpl; [|naive_solver].
    rewrite IH. naive_solver.
Qed.

Lemma validate_configuration_iff c :
  validate_canonical_configuration c = Ok tt <-> wf_configuration c.
Proof.
  unfold validate_canonical_configuration, wf_configuration.
  rewrite !bail_ok, !negb_false_iff, Z.eqb_eq, andb_true_iff, !Z.leb_le.
  apply and_iff_compat_l, and_iff_compat_l.
  transitivity (is_ok (try_fold validate_rule_step [] (rules c)) = true).
  - destruct (try_fold _ _ _); simpl; split; done.
  - rewrite validate_rules_iff. setoid_rewrite elem_of_nil. naive_solver.
Qed.

Lemma validate_configuration_unit c u :
  validate_canonical_configuration c = Ok u -> wf_configuration c.
Proof. destruct u. apply validate_configuration_iff. Qed.

(** [to_s3_rules] can represent the rule: [Days] of an expiration fits an [i32]. *)
Definition projectable (r : CanonicalLifecycleRule) : Prop :=
  forall d, expiration r = Some (ExpDays d) -> d <= i32_max.

Lemma i32_try_from_total d m : is_ok (i32_try_from d m) = true <-> d <= i32_max.
Proof. unfold i32_try_from. destruct (i32_max <? d) eqn:E; simpl; split; (done || lia). Qed.

Lemma project_rule_total r : wf_rule r -> is_ok (project_rule r) = true <-> projectable r.
Proof.
  intros (_ & _ & _ & Ht & _ & Ha & _). unfold project_rule, projectable.
  destruct (abort_incomplete_multipart_upload r) as [a|]; simpl.
  1: destruct (Ha a) as (_ & Had%(i32_try_from_total _ "abort days after initiation are out of range") & _);
     [done|]; destruct (i32_try_from (days_after_initiation a) _); [|done]; simpl.
  all: destruct (expiration r) as [[t|d|]|]; simpl.
  all: try (pose proof (i32_try_from_total d "lifecycle expiration days are out of range") as Hd;
    destruct (i32_try_from d _); simpl in *; [|split; [done|naive_solver]]).
  all: destruct (selector r); simpl.
  all: destruct (transition r) as [[u|d']|]; simpl; try (split; [|done]; naive_solver).
  all: destruct (Ht _ eq_refl) as [_ Hd'%(i32_try_from_total _ "lifecycle transition days are out of range")];
    destruct (i32_try_from d' _); [|done]; simpl; split; [|done]; naive_solver.
Qed.

Lemma try_map_total {A B} (f : A -> AppResult B) l :
  is_ok (try_map f l) = true <-> Forall (fun a => is_ok (f a) = true) l.
Proof.
  induction l as [|a l IH]; simpl; [done|]. rewrite Forall_cons, <- IH.
  destruct (f a); simpl; [|naive_solver]. destruct (try_map f l); naive_solver.
Qed.

(** C35: projecting an accepted document to the S3 shape and canonicalising the result gives the
    stored document back, whatever order and spelling the uploaded document used. *)
Theorem canonicalize_project_roundtrip input c :
  Forall dto_widths input -> validate_and_canonicalize input = Ok c ->
  exists out, to_s3_rules c = Ok out /\ validate_and_canonicalize out = Ok c.
Proof.
  unfold validate_and_canonicalize, to_s3_rules. intros Hw Hc. ok_inv Hc. simplify_eq.
  apply try_map_ok in E. rewrite E0. simpl.
  assert (exists out, Forall2 (fun cr pr => project_rule cr = Ok pr) x out /\
                      Forall2 (fun pr cr => canonicalize_rule pr = Ok cr) out x)
    as (out & Hp & Hc).
  { clear E0. induction E as [|r cr rs crs Hr _ IH]; [by exists []; split|].
    apply Forall_cons in Hw as [Hw Hws]. destruct (IH Hws) as (out & ? & ?).
    destruct (rule_roundtrip r cr) as (pr & ? & ?); [done..|].
    exists (pr :: out). by split; constructor. }
  exists out. apply try_map_ok in Hp, Hc. rewrite Hp, Hc. simpl. by rewrite E0.
Qed.

(** validation of a stored document accepts exactly the well-formed ones: 1 to 1000 rules with
    distinct short ids, each with an action, ordered nonnegative size bounds, tags strictly sorted by
    key, midnight dates, positive day counts, and abort rules only on an all or prefix selector. *)
Theorem validate_canonical_configuration_spec c :
  validate_canonical_configuration c = Ok tt <-> wf_configuration c.
Proof. apply validate_configuration_iff. Qed.

(** a valid stored document can be shown as S3 rules exactly when no expiration counts more
    than [i32::MAX] days: the validator bounds the days of every other action but not of this one. *)
Theorem to_s3_rules_total c :
  wf_configuration c -> is_ok (to_s3_rules c) = true <-> Forall projectable (rules c).
Proof.
  intros Hc. unfold to_s3_rules. rewrite (proj2 (validate_configuration_iff c) Hc). simpl.
  rewrite try_map_total. destruct Hc as (_ & _ & _ & _ & Hr).
  rewrite !Forall_forall in *. split; intros Hp r Hin; apply (project_rule_total r); auto.
Qed.

(** an accepted document is stored and read back unchanged, and whatever is read from storage
    satisfies the document invariant. *)
Theorem stored_configuration_roundtrip to_json from_json input c json :
  (forall c j, to_json c = Some j -> from_json j = Some c) ->
  validate_and_canonicalize input = Ok c -> to_json c = Some json ->
  canonical_json to_json c = Ok json /\ from_canonical_json from_json json = Ok c /\
  forall json' c', from_canonical_json from_json json' = Ok c' -> wf_configuration c'.
Proof.
  intros Hj Hc Hs. unfold validate_and_canonicalize in Hc. ok_inv Hc. simplify_eq.
  unfold canonical_json, from_canonical_json. split_and!.
  - by rewrite E0, Hs.
  - rewrite (Hj _ _ Hs). simpl. by rewrite E0.
  - intros json' c' Hr. ok_inv Hr. simplify_eq. by eapply validate_configuration_unit.
Qed.
End config.

(** ** Witnesses *)

(** Timestamps as nanoseconds, printed in binary. *)
Fixpoint binary (p : positive) : string :=
  match p with
  | xH => EmptyString
  | xO p => String "0"%char (binary p)
  | xI p => String "1"%char (binary p)
  end.
Fixpoint parse_binary (s : string) : positive :=
  match s with
  | EmptyString => xH
  | String c s => if Ascii.eqb c "0"%char then xO (parse_binary s) else xI (parse_binary s)
  end.

Definition toy_timestamps : S3Timestamp := {|
  Timestamp := Z;
  Timestamp_eq_dec := Z.eq_dec;
  ts_format t := match t with Z.pos p => Some (binary p) | _ => None end;
  parse_from_rfc3339 s := Some (Z.pos (parse_binary s));
  timestamp_of_utc t := t
|}.

Definition sample_rules : list (@LifecycleRule toy_timestamps) := [
  {| lr_abort_incomplete_multipart_upload := None;
     lr_expiration := Some {| le_date := Some (20000 * day_ns : @Timestamp toy_timestamps);
                              le_days := None; le_expired_object_delete_marker := None |};
     lr_filter := Some
       {| f_and := Some {| and_object_size_greater_than := Some 10;
                           and_object_size_less_than := Some 1000;
                           and_prefix := Some "logs/";
                           and_tags := Some [ {| dto_tag_key := Some "team"; dto_tag_value := None |};
                                              {| dto_tag_key := Some "env";
                                                 dto_tag_value := Some "prod" |} ] |};
          f_object_size_greater_than := None; f_object_size_less_than := None;
          f_prefix := None; f_tag := None |};
     lr_id := Some "archive"%string;
     lr_noncurrent_version_expiration :=
       Some {| nve_newer_noncurrent_versions := Some 3; nve_noncurrent_days := Some 30 |};
     lr_noncurrent_version_transitions := None;
     lr_prefix := None;
     lr_status := ENABLED;
     lr_transitions := Some [ {| tr_date := None; tr_days := Some 7;
                                 tr_storage_class := Some STANDARD_IA |} ] |};
  {| lr_abort_incomplete_multipart_upload := Some {| dto_days_after_initiation := Some 2 |};
     lr_expiration := None; lr_filter := None; lr_id := None;
     lr_noncurrent_version_expiration := None; lr_noncurrent_version_transitions := None;
     lr_prefix := Some "tmp/"%string; lr_status := DISABLED; lr_transitions := None |} ].

Definition sample_config : CanonicalLifecycleConfiguration :=
  match @validate_and_canonicalize proleptic toy_timestamps sample_rules with
  | Ok c => c
  | Err _ => {| schema_version := 0; rules := [] |}
  end.

Lemma sample_config_ok :
  @validate_and_canonicalize proleptic toy_timestamps sample_rules = Ok sample_config.
Proof. vm_compute. reflexivity. Qed.

Lemma canonicalize_project_roundtrip_witness :
  exists out, @to_s3_rules proleptic toy_timestamps sample_config = Ok out /\
    @validate_and_canonicalize proleptic toy_timestamps out = Ok sample_config.
Proof.
  apply (@canonicalize_project_roundtrip proleptic toy_timestamps sample_rules).
  - repeat constructor; simpl; unfold is_i32, i32_max; lia.
  - exact sample_config_ok.
Defined.

Lemma validate_canonical_configuration_spec_witness :
  wf_configuration sample_config /\ length (rules sample_config) = 2%nat.
Proof.
  split; [|vm_compute; reflexivity].
  apply (@validate_canonical_configuration_spec proleptic proleptic_laws). vm_compute. reflexivity.
Defined.

(** A stored rule that expires objects after 2^31 days. *)
Definition far_future : CanonicalLifecycleConfiguration := {|
  schema_version := 1;
  rules := [ {| rule_id := None; status := RuleEnabled; selector := Modern FAll;
                expiration := Some (ExpDays (2 ^ 31)); noncurrent_version_expiration := None;
                transition := None; noncurrent_version_transition := None;
                abort_incomplete_multipart_upload := None |} ]
|}.

Lemma to_s3_rules_total_witness :
  is_ok (@to_s3_rules proleptic toy_timestamps sample_config) = true /\
  @validate_canonical_configuration proleptic far_future = Ok tt /\
  is_ok (@to_s3_rules proleptic toy_timestamps far_future) = false.
Proof.
  split; [|split; vm_compute; reflexivity].
  apply (@to_s3_rules_total proleptic toy_timestamps proleptic_laws).
  - apply (@validate_configuration_iff proleptic proleptic_laws). vm_compute. reflexivity.
  - repeat constructor; intros d Hd; vm_compute in Hd; congruence.
Defined.

(** A serialiser of one document. *)
Definition sample_to_json (c : CanonicalLifecycleConfiguration) : option string :=
  if decide (c = sample_config) then Some "document"%string else None.
Definition sample_from_json (_ : string) : option CanonicalLifecycleConfiguration :=
  Some sample_config.

Lemma stored_configuration_roundtrip_witness :
  @canonical_json proleptic sample_to_json sample_config = Ok "document"%string /\
  @from_canonical_json proleptic sample_from_json "document"%string = Ok sample_config.
Proof.
  edestruct (@stored_configuration_roundtrip proleptic toy_timestamps proleptic_laws
    sample_to_json sample_from_json sample_rules sample_config "document"%string) as (Hc & Hf & _).
  - intros c j. unfold sample_to_json, sample_from_json. destruct (decide _); congruence.
  - exact sample_config_ok.
  - unfold sample_to_json. destruct (decide _); congruence.
  - exact (conj Hc Hf).
Defined.
