(* ===== verification/LifecycleEval.v ===== *)
(** * Lifecycle evaluation ([src/lifecycle/evaluator.rs])

    The pure evaluator: when a rule's action is due, which proposals the enabled matching rules make
    for one version or one multipart upload, and which proposal wins.  The specification [eligible]
    states per action when a rule may act; the theorems show that the evaluator returns a least
    eligible action, returns none when there is none, and fails exactly when a due time is outside
    the calendar. *)

From Stdlib Require Import ZArith Lia Ascii.
From stdpp Require Import prelude strings list sorting.
From S2P Require Import Prelude Errors Chrono VersionModel LifecycleModel LifecycleConfig.

#[local] Open Scope Z_scope.

Record LifecycleEvaluationContext : Type := {
  ctx_candidate : LifecycleCandidate;
  ctx_tags : list ObjectTag;
  public_version_count : Z;
  newer_noncurrent_count : Z;
  config_revision : Z;
  configuration : CanonicalLifecycleConfiguration;
  database_now : Z
}.

Record LifecycleProposal : Type := {
  action : NewLifecycleAction;
  stable_rule_identity : string;
  effect_priority : Z
}.

(** [candidate] is the version of [VersionEvaluationContext], [facts] the whole context. *)
Record VersionEvaluationContext : Type := {
  candidate : VersionLifecycleCandidate;
  facts : LifecycleEvaluationContext
}.

(** One decimal digit, and [format!("{n:05}")] of a [u16], which has at most five digits. *)
Definition digit (n : Z) : ascii := ascii_of_N (Z.to_N (48 + n mod 10)).
Definition format_05 (n : Z) : string :=
  String (digit (n / 10000)) (String (digit (n / 1000)) (String (digit (n / 100))
    (String (digit (n / 10)) (String (digit n) EmptyString)))).

Definition rule_identity (id : option string) (ordinal : Z) : AppResult (RuleIdentity * string) :=
  match id with
  | Some id => Ok (RuleId id, "id:" +:+ id)
  | None =>
    bail_if u16_max <? ordinal with InvalidArgument "lifecycle rule ordinal is out of range" else
    Ok (RuleOrdinal ordinal, "ordinal:" +:+ format_05 ordinal)
  end.

Section eval.
Context `{Chrono}.

Definition next_utc_midnight_after_full_days (start days : Z) : AppResult Z :=
  let out_of_range := InvalidArgument "lifecycle due time is outside the UTC timestamp range" in
  let? aged := ok_or out_of_range (checked_add_days start days) in
  let aged_date := date_naive aged in
  let? next_date := ok_or out_of_range (succ_opt aged_date) in
  let? midnight := ok_or (InvalidArgument "lifecycle due time is invalid")
                     (and_midnight_opt next_date) in
  Ok midnight.

Definition current_due_at (e : CurrentExpiration) (c : VersionLifecycleCandidate)
  : AppResult (option Z) :=
  match e with
  | ExpDate utc_midnight => Ok (Some utc_midnight)
  | ExpDays days =>
    rmap Some (next_utc_midnight_after_full_days (lifecycle_age_started_at c) days)
  | ExpiredObjectDeleteMarker => Ok None
  end.

Definition priority_of (c : VersionLifecycleCandidate) (kind : LifecycleActionKind) : Z :=
  match kind with
  | ExpireCurrent =>
    match bucket_versioning_state c with
    | Unversioned => 0
    | Suspended => if bool_decide (vt_public_version_id (target c) = VNull) then 0 else 2
    | Enabled => 2
    end
  | TransitionCurrent | TransitionNoncurrent => 1
  | ExpireNoncurrent | DeleteExpiredMarker | AbortIncompleteMultipartUpload => 0
  end.

Definition proposal (context : VersionEvaluationContext) (identity : RuleIdentity)
    (stable_identity : string) (kind : LifecycleActionKind) (due_at : Z) : LifecycleProposal :=
  {| action := {| act_idempotency_key := EmptyString;
                  act_bucket := vt_bucket (target (candidate context));
                  act_config_revision := config_revision (facts context);
                  act_rule_identity := identity;
                  act_kind := kind;
                  act_target := TargetVersion (target (candidate context));
                  act_due_at := due_at |};
     stable_rule_identity := stable_identity;
     effect_priority := priority_of (candidate context) kind |}.

Definition collect_current_proposal (proposals : list LifecycleProposal)
    (context : VersionEvaluationContext) (expiration : option CurrentExpiration)
    (identity : RuleIdentity) (stable_identity : string) : AppResult (list LifecycleProposal) :=
  match expiration with
  | None => Ok proposals
  | Some expiration =>
    let propose kind due_at := proposals ++ [proposal context identity stable_identity kind due_at] in
    match vt_kind (target (candidate context)) with
    | KObject =>
      let? due_at := current_due_at expiration (candidate context) in
      match due_at with
      | None => Ok proposals
      | Some due_at =>
        if due_at <=? database_now (facts context) then Ok (propose ExpireCurrent due_at)
        else Ok proposals
      end
    | KDeleteMarker =>
      match expiration with
      | ExpiredObjectDeleteMarker =>
        if public_version_count (facts context) =? 1 then
          Ok (propose DeleteExpiredMarker (lifecycle_age_started_at (candidate context)))
        else Ok proposals
      | ExpDate _ | ExpDays _ =>
        if public_version_count (facts context) =? 1 then
          let? due_at := current_due_at expiration (candidate context) in
          match due_at with
          | None => Ok proposals
          | Some due_at =>
            if due_at <=? database_now (facts context) then Ok (propose DeleteExpiredMarker due_at)
            else Ok proposals
          end
        else Ok proposals
      end
    end
  end.

(** The kind and the due time of a rule's transition, [None] where the code returns early. *)
Definition transition_due (context : VersionEvaluationContext) (rule : CanonicalLifecycleRule)
  : option (LifecycleActionKind * Z) :=
  if is_latest (candidate context) then
    match transition rule with
    | None => None
    | Some (TransDate utc_midnight) => Some (TransitionCurrent, utc_midnight)
    | Some (TransDays days) =>
      match next_utc_midnight_after_full_days (lifecycle_age_started_at (candidate context)) days with
      | Ok due => Some (TransitionCurrent, due)
      | Err _ => None
      end
    end
  else
    match noncurrent_version_transition rule, became_noncurrent_at (candidate context) with
    | Some transition, Some start =>
      if is_some_and (fun required => newer_noncurrent_count (facts context) <=? required)
           (nt_newer_noncurrent_versions transition)
      then None
      else
        match next_utc_midnight_after_full_days start (nt_noncurrent_days transition) with
        | Ok due => Some (TransitionNoncurrent, due)
        | Err _ => None
        end
    | _, _ => None
    end.

Definition collect_transition_proposal (proposals : list LifecycleProposal)
    (context : VersionEvaluationContext) (rule : CanonicalLifecycleRule)
    (identity : RuleIdentity) (stable_identity : string) : AppResult (list LifecycleProposal) :=
  if negb (bool_decide (vt_kind (target (candidate context)) = KObject))
     || negb (bool_decide (primary_storage_class (candidate context) = Some Standard))
  then Ok proposals
  else
    match transition_due context rule with
    | None => Ok proposals
    | Some (kind, due_at) =>
      if due_at <=? database_now (facts context)
      then Ok (proposals ++ [proposal context identity stable_identity kind due_at])
      else Ok proposals
    end.

Definition collect_noncurrent_proposal (proposals : list LifecycleProposal)
    (context : VersionEvaluationContext) (expiration : option NoncurrentExpiration)
    (identity : RuleIdentity) (stable_identity : string) : AppResult (list LifecycleProposal) :=
  match expiration, became_noncurrent_at (candidate context) with
  | Some expiration, Some became_noncurrent_at =>
    let? due_at := next_utc_midnight_after_full_days became_noncurrent_at
                     (ne_noncurrent_days expiration) in
    let newer_satisfied :=
      is_none_or (fun required => required <? newer_noncurrent_count (facts context))
        (ne_newer_noncurrent_versions expiration) in
    if (due_at <=? database_now (facts context)) && newer_satisfied
    then Ok (proposals ++ [proposal context identity stable_identity ExpireNoncurrent due_at])
    else Ok proposals
  | _, _ => Ok proposals
  end.

Definition proposal_sort_key (p : LifecycleProposal) : Z * Z * string :=
  (effect_priority p, act_due_at (action p), stable_rule_identity p).

Definition select_winner (proposals : list LifecycleProposal) : option LifecycleProposal :=
  head (sort_by (by_key proposal_sort_key) proposals).

Definition rule_applies (context : VersionEvaluationContext) (rule : CanonicalLifecycleRule) : bool :=
  bool_decide (status rule = RuleEnabled)
  && matches_filter (selector rule) (vt_key (target (candidate context))) (size (candidate context))
       (ctx_tags (facts context)).

(** One iteration of the loop of [evaluate_candidate]. *)
Definition evaluate_rule (context : VersionEvaluationContext) (proposals : list LifecycleProposal)
    (entry : Z * CanonicalLifecycleRule) : AppResult (list LifecycleProposal) :=
  let '(ordinal, rule) := entry in
  if negb (rule_applies context rule) then Ok proposals else
  let? '(identity, stable_identity) := rule_identity (rule_id rule) ordinal in
  let? proposals := collect_transition_proposal proposals context rule identity stable_identity in
  if is_latest (candidate context) then
    collect_current_proposal proposals context (expiration rule) identity stable_identity
  else
    collect_noncurrent_proposal proposals context (noncurrent_version_expiration rule) identity
      stable_identity.

Definition multipart_sort_key (p : LifecycleProposal) : Z * string :=
  (act_due_at (action p), stable_rule_identity p).

(** One iteration of the loop of [evaluate_multipart]. *)
Definition evaluate_multipart_rule (context : LifecycleEvaluationContext)
    (target : MultipartUploadTargetIdentity) (proposals : list LifecycleProposal)
    (entry : Z * CanonicalLifecycleRule) : AppResult (list LifecycleProposal) :=
  let '(ordinal, rule) := entry in
  if negb (bool_decide (status rule = RuleEnabled)) then Ok proposals else
  match abort_incomplete_multipart_upload rule with
  | None => Ok proposals
  | Some abort =>
    let? matches :=
      match selector rule with
      | Modern FAll => Ok true
      | LegacyPrefix prefix | Modern (FPrefix prefix) => Ok (starts_with prefix (mt_key target))
      | _ => Err (InvalidArgument "invalid multipart lifecycle selector")
      end in
    if negb matches then Ok proposals else
    match next_utc_midnight_after_full_days (mt_initiated_at target) (days_after_initiation abort) with
    | Err _ => Ok proposals
    | Ok due_at =>
      if database_now context <? due_at then Ok proposals else
      let? '(identity, stable_identity) := rule_identity (rule_id rule) ordinal in
      Ok (proposals ++
        [ {| action := {| act_idempotency_key := EmptyString;
                          act_bucket := mt_bucket target;
                          act_config_revision := config_revision context;
                          act_rule_identity := identity;
                          act_kind := AbortIncompleteMultipartUpload;
                          act_target := TargetMultipart target;
                          act_due_at := due_at |};
             stable_rule_identity := stable_identity;
             effect_priority := 0 |} ])
    end
  end.

Definition evaluate_multipart (context : LifecycleEvaluationContext)
    (target : MultipartUploadTargetIdentity) : AppResult (option NewLifecycleAction) :=
  let? proposals := try_fold (evaluate_multipart_rule context target) []
                      (enumerate (rules (configuration context))) in
  Ok (action <$> head (sort_by (by_key multipart_sort_key) proposals)).

Definition evaluate_candidate (context : LifecycleEvaluationContext)
  : AppResult (option NewLifecycleAction) :=
  bail_if config_revision context <=? 0
    with InvalidArgument "lifecycle configuration revision must be positive" else
  match ctx_candidate context with
  | CandMultipart target => evaluate_multipart context target
  | CandVersion version =>
    let context := {| candidate := version; facts := context |} in
    let? proposals := try_fold (evaluate_rule context) []
                        (enumerate (rules (configuration (facts context)))) in
    Ok (action <$> select_winner proposals)
  end.

(** ** Due times *)

(** The instant at which [days] full days have passed. *)
Definition aged (start days : Z) : Z := start + days * day_ns.

(** The first midnight strictly after [t]. *)
Definition first_midnight_after (t m : Z) : Prop :=
  m mod day_ns = 0 /\ t < m /\ forall m', m' mod day_ns = 0 -> t < m' -> m <= m'.

Lemma first_midnight_iff t m : first_midnight_after t m <-> m = (t / day_ns + 1) * day_ns.
Proof.
  assert (Hpos : 0 < day_ns) by done.
  assert (Hm : first_midnight_after t ((t / day_ns + 1) * day_ns)).
  { split; [by apply Z.mod_mul; lia|]. split.
    - pose proof (Z.mul_succ_div_gt t day_ns Hpos). lia.
    - intros m' Hm' Hlt. apply Z.mod_divide in Hm' as [k ->]; [|lia].
      apply Z.mul_le_mono_nonneg_r; [lia|]. apply Z.le_succ_l.
      apply Z.div_lt_upper_bound; lia. }
  split; [|by intros ->].
  intros (H1 & H2 & H3). destruct Hm as (H1' & H2' & H3').
  apply Z.le_antisymm; auto.
Qed.

(** ** When a rule may act on a version *)

Abbreviation due_after start days due := (next_utc_midnight_after_full_days start days = Ok due).

(** The due time of a current-version expiration. *)
Inductive expiration_due (c : VersionLifecycleCandidate) : CurrentExpiration -> Z -> Prop :=
| due_date t : expiration_due c (ExpDate t) t
| due_days d due :
    due_after (lifecycle_age_started_at c) d due -> expiration_due c (ExpDays d) due.

Section eligibility.
Context (cx : VersionEvaluationContext) (r : CanonicalLifecycleRule).
Local Abbreviation c := (candidate cx).
Local Abbreviation now := (database_now (facts cx)).

Inductive expires_current : LifecycleActionKind -> Z -> Prop :=
| expire_object e due :
    vt_kind (target c) = KObject -> expiration r = Some e -> expiration_due c e due ->
    due <= now -> expires_current ExpireCurrent due
| expire_lonely_marker :
    vt_kind (target c) = KDeleteMarker -> public_version_count (facts cx) = 1 ->
    expiration r = Some ExpiredObjectDeleteMarker ->
    expires_current DeleteExpiredMarker (lifecycle_age_started_at c)
| expire_aged_marker e due :
    vt_kind (target c) = KDeleteMarker -> public_version_count (facts cx) = 1 ->
    expiration r = Some e -> expiration_due c e due ->
    due <= now -> expires_current DeleteExpiredMarker due.

Inductive expires_noncurrent : LifecycleActionKind -> Z -> Prop :=
| expire_noncurrent e start due :
    noncurrent_version_expiration r = Some e -> became_noncurrent_at c = Some start ->
    due_after start (ne_noncurrent_days e) due -> due <= now ->
    (forall n, ne_newer_noncurrent_versions e = Some n -> n < newer_noncurrent_count (facts cx)) ->
    expires_noncurrent ExpireNoncurrent due.

Inductive transitions : LifecycleActionKind -> Z -> Prop :=
| transition_at t :
    is_latest c = true -> transition r = Some (TransDate t) -> t <= now ->
    transitions TransitionCurrent t
| transition_aged d due :
    is_latest c = true -> transition r = Some (TransDays d) ->
    due_after (lifecycle_age_started_at c) d due -> due <= now ->
    transitions TransitionCurrent due
| transition_noncurrent t start due :
    is_latest c = false -> noncurrent_version_transition r = Some t ->
    became_noncurrent_at c = Some start -> due_after start (nt_noncurrent_days t) due ->
    due <= now ->
    (forall n, nt_newer_noncurrent_versions t = Some n -> n < newer_noncurrent_count (facts cx)) ->
    transitions TransitionNoncurrent due.

(** An enabled rule that matches the version may take an action of the given kind, due then. *)
Definition eligible (kind : LifecycleActionKind) (due : Z) : Prop :=
  rule_applies cx r = true /\
  ((is_latest c = true /\ expires_current kind due) \/
   (is_latest c = false /\ expires_noncurrent kind due) \/
   (vt_kind (target c) = KObject /\ primary_storage_class c = Some Standard /\
    transitions kind due)).
End eligibility.

(** ** The collectors propose exactly the eligible actions *)

Section collectors.
Context (cx : VersionEvaluationContext) (r : CanonicalLifecycleRule).
Context (id : RuleIdentity) (st : string).

Definition proposes (P : LifecycleActionKind -> Z -> Prop) (ps : list LifecycleProposal) : Prop :=
  forall p, p ∈ ps <-> exists kind due, P kind due /\ p = proposal cx id st kind due.

Lemma proposes_one (P : LifecycleActionKind -> Z -> Prop) kind due :
  P kind due -> (forall k d, P k d -> k = kind /\ d = due) ->
  proposes P [proposal cx id st kind due].
Proof.
  intros HP Hu p. rewrite list_elem_of_singleton. split; [by eauto|].
  intros (k & d & Hkd & ->). by destruct (Hu k d) as [-> ->].
Qed.

Lemma proposes_none (P : LifecycleActionKind -> Z -> Prop) :
  (forall k d, ~ P k d) -> proposes P [].
Proof. intros Hn p. rewrite elem_of_nil. naive_solver. Qed.

Lemma collect_noncurrent_spec ps :
  collect_noncurrent_proposal [] cx (noncurrent_version_expiration r) id st = Ok ps ->
  proposes (expires_noncurrent cx r) ps.
Proof.
  unfold collect_noncurrent_proposal.
  destruct (noncurrent_version_expiration r) as [e|] eqn:He.
  2: { intros [= <-]. apply proposes_none. inversion 1; congruence. }
  destruct (became_noncurrent_at (candidate cx)) as [start|] eqn:Hs.
  2: { intros [= <-]. apply proposes_none. inversion 1; congruence. }
  intros Hc. ok_inv Hc. case_match eqn:Hd; simplify_eq.
  - apply andb_true_iff in Hd as [Hd Hn]. apply proposes_one.
    + econstructor; eauto; [lia|]. intros n Hn'. rewrite Hn' in Hn. simpl in Hn. lia.
    + inversion 1; split; congruence.
  - apply proposes_none. inversion 1 as [e' s' d' He' Hs' Hdue Hle Hnew]; simplify_eq.
    rewrite E in Hdue. injection Hdue as <-.
    apply andb_false_iff in Hd as [Hd|Hd]; [lia|].
    destruct (ne_newer_noncurrent_versions e) as [n|] eqn:Hn; simpl in Hd; [|done].
    specialize (Hnew n eq_refl). lia.
Qed.

Lemma transition_due_spec kind due :
  transition_due cx r = Some (kind, due) /\ due <= database_now (facts cx) <->
  transitions cx r kind due.
Proof.
  unfold transition_due. split.
  - intros [Ht Hle]. destruct (is_latest (candidate cx)) eqn:Hl.
    + destruct (transition r) as [[t|d]|] eqn:Hr; crunch.
      * by apply transition_at.
      * by eapply transition_aged.
    + destruct (noncurrent_version_transition r) as [t|] eqn:Hr; [|done].
      destruct (became_noncurrent_at (candidate cx)) as [start|] eqn:Hs; [|done].
      destruct (is_some_and _ _) eqn:Hn; [done|]. case_match; [|done]. simplify_eq.
      econstructor; eauto. intros n Hn'. rewrite Hn' in Hn. simpl in Hn. lia.
  - destruct 1 as [t Hl Hr Hle|d due Hl Hr Hd Hle|t start due Hl Hr Hs Hd Hle Hn];
      rewrite Hl, Hr; [done|by rewrite Hd|].
    rewrite Hs, Hd. destruct (nt_newer_noncurrent_versions t) as [n|]; simpl; [|done].
    specialize (Hn n eq_refl). by rewrite (proj2 (Z.leb_gt _ _)).
Qed.

Lemma collect_transition_spec :
  exists ps, collect_transition_proposal [] cx r id st = Ok ps /\
  proposes (fun kind due => vt_kind (target (candidate cx)) = KObject /\
      primary_storage_class (candidate cx) = Some Standard /\ transitions cx r kind due) ps.
Proof.
  unfold collect_transition_proposal. repeat case_bool_decide; simpl.
  2, 3, 4: eexists; split; [done|]; apply proposes_none; naive_solver.
  pose proof transition_due_spec as Hs.
  destruct (transition_due cx r) as [[kind due]|].
  - destruct (due <=? _) eqn:Hd; (eexists; split; [done|]).
    + apply proposes_one; [split_and!; [done..|]; apply Hs; split; [done|lia]|].
      intros k d (_ & _ & [[= -> ->] _]%Hs). done.
    + apply proposes_none. intros k d (_ & _ & [[= <- <-] ?]%Hs). lia.
  - eexists; split; [done|]. apply proposes_none. intros k d (_ & _ & [? _]%Hs). done.
Qed.

Lemma current_due_spec e c due : current_due_at e c = Ok (Some due) <-> expiration_due c e due.
Proof.
  destruct e; simpl; split; try done.
  - intros [= <-]. constructor.
  - by inversion 1.
  - intros Hd. apply rmap_ok in Hd as (d & Hd & [= <-]). by constructor.
  - inversion 1 as [|? ? Hd]; subst. by rewrite Hd.
  - by inversion 1.
Qed.

(** The common tail of the two branches that wait for a due time. *)
Lemma propose_due_spec (P : LifecycleActionKind -> Z -> Prop) e kind ps :
  (forall k d, P k d <->
     k = kind /\ expiration_due (candidate cx) e d /\ d <= database_now (facts cx)) ->
  (let? due_at := current_due_at e (candidate cx) in
   match due_at with
   | None => Ok []
   | Some due_at =>
     if due_at <=? database_now (facts cx) then Ok ([] ++ [proposal cx id st kind due_at]) else Ok []
   end) = Ok ps ->
  proposes P ps.
Proof.
  intros HP Hc. ok_inv Hc. destruct x as [due|].
  - assert (Hu : forall d, expiration_due (candidate cx) e d -> d = due).
    { intros d Hd%current_due_spec. congruence. }
    apply current_due_spec in E. case_match eqn:Hd; simplify_eq.
    + apply proposes_one; [apply HP; split_and!; (done || lia)|].
      intros k d (-> & Hdue & _)%HP. split; [done|by apply Hu].
    + apply proposes_none. intros k d (-> & Hdue & ?)%HP. apply Hu in Hdue. lia.
  - simplify_eq. apply proposes_none. intros k d (-> & Hdue%current_due_spec & _)%HP. congruence.
Qed.

Lemma collect_current_spec ps :
  collect_current_proposal [] cx (expiration r) id st = Ok ps ->
  proposes (expires_current cx r) ps.
Proof.
  unfold collect_current_proposal.
  destruct (expiration r) as [e|] eqn:He.
  2: { intros [= <-]. apply proposes_none. inversion 1; congruence. }
  destruct (vt_kind (target (candidate cx))) eqn:Hk.
  { apply propose_due_spec. intros k d. split.
    - inversion 1; simplify_eq; congruence || done.
    - intros (-> & ? & ?). econstructor; eauto. }
  destruct (public_version_count (facts cx) =? 1) eqn:Hn.
  2: { intros Hc. assert (ps = []) as -> by (destruct e; congruence).
       apply proposes_none. inversion 1; simplify_eq; (congruence || lia). }
  apply Z.eqb_eq in Hn. destruct e as [t|days|].
  1, 2: apply propose_due_spec; intros k d; split;
    [inversion 1; simplify_eq; congruence || done
    | intros (-> & ? & ?); eapply expire_aged_marker; eauto].
  intros [= <-]. apply proposes_one; [by constructor|].
  inversion 1 as [| |? ? ? ? ? Hd]; simplify_eq; try congruence; [done|]. inversion Hd.
Qed.
End collectors.

(** ** One rule, then the loop *)

Lemma collect_current_acc acc cx e id st :
  collect_current_proposal acc cx e id st = rmap (app acc) (collect_current_proposal [] cx e id st).
Proof.
  unfold collect_current_proposal. destruct e as [e|]; [|by rewrite rmap_Ok, app_nil_r].
  destruct (vt_kind _), e; simpl;
    try destruct (next_utc_midnight_after_full_days _ _); simpl;
    repeat (case_match; simpl; try done); by rewrite ?app_nil_r.
Qed.

Lemma collect_noncurrent_acc acc cx e id st :
  collect_noncurrent_proposal acc cx e id st =
  rmap (app acc) (collect_noncurrent_proposal [] cx e id st).
Proof.
  unfold collect_noncurrent_proposal. repeat (case_match; simpl; try by rewrite app_nil_r).
  destruct (next_utc_midnight_after_full_days _ _); simpl; [|done].
  case_match; simpl; [done|by rewrite app_nil_r].
Qed.

Lemma collect_transition_acc acc cx r id st :
  collect_transition_proposal acc cx r id st =
  rmap (app acc) (collect_transition_proposal [] cx r id st).
Proof.
  unfold collect_transition_proposal. repeat (case_match; simpl; try done); by rewrite app_nil_r.
Qed.

Lemma evaluate_rule_acc cx acc e :
  evaluate_rule cx acc e = rmap (app acc) (evaluate_rule cx [] e).
Proof.
  destruct e as [i r]. unfold evaluate_rule. case_match; simpl; [by rewrite app_nil_r|].
  destruct (rule_identity (rule_id r) i) as [[id st]|]; simpl; [|done].
  rewrite collect_transition_acc.
  destruct (collect_transition_proposal [] cx r id st) as [ps|]; simpl; [|done].
  destruct (is_latest _); [rewrite !(collect_current_acc (_ ++ _)), (collect_current_acc ps)
                          | rewrite !(collect_noncurrent_acc (_ ++ _)), (collect_noncurrent_acc ps)].
  - destruct (collect_current_proposal [] _ _ _ _); simpl; [by rewrite app_assoc|done].
  - destruct (collect_noncurrent_proposal [] _ _ _ _); simpl; [by rewrite app_assoc|done].
Qed.

Lemma proposes_app cx id st P Q ps qs :
  proposes cx id st P ps -> proposes cx id st Q qs ->
  proposes cx id st (fun k d => P k d \/ Q k d) (ps ++ qs).
Proof. intros HP HQ p. rewrite elem_of_app, (HP p), (HQ p). naive_solver. Qed.

Lemma evaluate_rule_spec cx i r ps :
  evaluate_rule cx [] (i, r) = Ok ps ->
  forall p, p ∈ ps <-> exists id st kind due,
    rule_identity (rule_id r) i = Ok (id, st) /\ eligible cx r kind due /\
    p = proposal cx id st kind due.
Proof.
  unfold evaluate_rule, eligible. destruct (rule_applies cx r); simpl.
  2: { intros [= <-] p. rewrite elem_of_nil. naive_solver. }
  destruct (rule_identity (rule_id r) i) as [[id st]|]; simpl; [|done].
  destruct (collect_transition_spec cx r id st) as (ts & -> & Ht); simpl.
  destruct (is_latest (candidate cx)).
  - rewrite collect_current_acc. intros Hc p. apply rmap_ok in Hc as (cs & Hc & ->).
    apply collect_current_spec in Hc. rewrite (proposes_app _ _ _ _ _ _ _ Ht Hc p). naive_solver.
  - rewrite collect_noncurrent_acc. intros Hc p. apply rmap_ok in Hc as (cs & Hc & ->).
    apply collect_noncurrent_spec in Hc. rewrite (proposes_app _ _ _ _ _ _ _ Ht Hc p). naive_solver.
Qed.

(** All proposals of the loop: those of the eligible actions, with the identity of their rule. *)
Lemma evaluate_rules_spec cx rs ps :
  try_fold (evaluate_rule cx) [] (enumerate rs) = Ok ps ->
  forall p, p ∈ ps <-> exists n r id st kind due, rs !! n = Some r /\
    rule_identity (rule_id r) (Z.of_nat n) = Ok (id, st) /\ eligible cx r kind due /\
    p = proposal cx id st kind due.
Proof.
  rewrite (try_fold_collect _ (evaluate_rule_acc cx)). intros Hps p.
  apply rmap_ok in Hps as (pss & Hm & ->). simpl. rewrite elem_of_concat_results by done.
  split.
  - intros ([i r] & Hin & ps' & Hr & Hp). apply elem_of_enumerate in Hin as (n & -> & Hn).
    apply (evaluate_rule_spec _ _ _ _ Hr) in Hp as (id & st & kind & due & ?). naive_solver.
  - intros (n & r & id & st & kind & due & Hn & Hi & He & ->).
    assert (Hin : (Z.of_nat n, r) ∈ enumerate rs) by (apply elem_of_enumerate; eauto).
    destruct (try_map_elem _ _ _ _ Hm Hin) as [ps' Hr].
    exists (Z.of_nat n, r). split; [done|]. exists ps'. split; [done|].
    apply (evaluate_rule_spec _ _ _ _ Hr). eauto 10.
Qed.

(** ** Failures *)

Definition due_out_of_range (start days : Z) : Prop :=
  is_ok (next_utc_midnight_after_full_days start days) = false.

(** The rule applies and its expiration needs a due time that does not exist. *)
Definition overflows (cx : VersionEvaluationContext) (r : CanonicalLifecycleRule) : Prop :=
  rule_applies cx r = true /\
  ((is_latest (candidate cx) = true /\
    (vt_kind (target (candidate cx)) = KObject \/ public_version_count (facts cx) = 1) /\
    exists d, expiration r = Some (ExpDays d) /\
      due_out_of_range (lifecycle_age_started_at (candidate cx)) d) \/
   (is_latest (candidate cx) = false /\
    exists e start, noncurrent_version_expiration r = Some e /\
      became_noncurrent_at (candidate cx) = Some start /\
      due_out_of_range start (ne_noncurrent_days e))).

Lemma rule_identity_total id n :
  n <= u16_max -> exists i s, rule_identity id n = Ok (i, s).
Proof.
  intros Hn. destruct id; simpl; [by eauto|]. rewrite (proj2 (Z.ltb_ge _ _)) by done. eauto.
Qed.

Lemma collect_current_fails cx e id st :
  is_ok (collect_current_proposal [] cx e id st) = false <->
  (vt_kind (target (candidate cx)) = KObject \/ public_version_count (facts cx) = 1) /\
  exists d, e = Some (ExpDays d) /\
    due_out_of_range (lifecycle_age_started_at (candidate cx)) d.
Proof.
  unfold collect_current_proposal, due_out_of_range.
  destruct e as [[t|d|]|]; simpl; [| | |naive_solver].
  2: { destruct (next_utc_midnight_after_full_days (lifecycle_age_started_at (candidate cx)) d)
         as [due|err] eqn:En; simpl; split.
       - repeat case_match; simpl; done.
       - intros (_ & d' & Hd & Ho). injection Hd as <-. by rewrite En in Ho.
       - intros Hf. split; [|exists d; by rewrite En].
         destruct (vt_kind _); [by left|right].
         destruct (Z.eqb_spec (public_version_count (facts cx)) 1); done.
       - intros ([-> | Hc] & _); [done|]. rewrite (proj2 (Z.eqb_eq _ _) Hc). by case_match. }
  all: repeat case_match; simpl; naive_solver.
Qed.

Lemma collect_noncurrent_fails cx e id st :
  is_ok (collect_noncurrent_proposal [] cx e id st) = false <->
  exists e' start, e = Some e' /\ became_noncurrent_at (candidate cx) = Some start /\
    due_out_of_range start (ne_noncurrent_days e').
Proof.
  unfold collect_noncurrent_proposal, due_out_of_range.
  destruct e as [e|], (became_noncurrent_at _) as [start|]; try naive_solver.
  destruct (next_utc_midnight_after_full_days _ _) eqn:En; simpl; split.
  - by case_match.
  - intros (e' & s' & He & Hs & Ho). injection He as <-. injection Hs as <-. by rewrite En in Ho.
  - intros _. exists e, start. by rewrite En.
  - done.
Qed.

Lemma evaluate_rule_fails cx n r : Z.of_nat n <= u16_max ->
  is_ok (evaluate_rule cx [] (Z.of_nat n, r)) = false <-> overflows cx r.
Proof.
  intros Hn. unfold evaluate_rule, overflows. destruct (rule_applies cx r); simpl; [|naive_solver].
  destruct (rule_identity_total (rule_id r) (Z.of_nat n)) as (id & st & ->); [done|]. simpl. destruct (collect_transition_spec cx r id st) as (ts & -> & _); simpl.
  destruct (is_latest (candidate cx)).
  - rewrite collect_current_acc.
    replace (is_ok (rmap _ _)) with (is_ok (collect_current_proposal [] cx (expiration r) id st))
      by (by destruct (collect_current_proposal _ _ _ _ _)).
    rewrite collect_current_fails. naive_solver.
  - rewrite collect_noncurrent_acc.
    replace (is_ok (rmap _ _)) with
      (is_ok (collect_noncurrent_proposal [] cx (noncurrent_version_expiration r) id st))
      by (by destruct (collect_noncurrent_proposal _ _ _ _ _)).
    rewrite collect_noncurrent_fails. naive_solver.
Qed.

(** ** Multipart uploads *)

Definition selects_upload (s : CanonicalRuleSelector) (key : string) : Prop :=
  match s with
  | Modern FAll => True
  | LegacyPrefix prefix | Modern (FPrefix prefix) => starts_with prefix key = true
  | _ => False
  end.

(** An enabled rule that selects the upload's key may abort it at [due]. *)
Inductive aborts (context : LifecycleEvaluationContext) (target : MultipartUploadTargetIdentity)
    (r : CanonicalLifecycleRule) (due : Z) : Prop :=
| abort_due a :
    status r = RuleEnabled -> abort_incomplete_multipart_upload r = Some a ->
    selects_upload (selector r) (mt_key target) ->
    due_after (mt_initiated_at target) (days_after_initiation a) due ->
    due <= database_now context -> aborts context target r due.

Definition abort_action (context : LifecycleEvaluationContext)
    (target : MultipartUploadTargetIdentity) (id : RuleIdentity) (due : Z) : NewLifecycleAction :=
  {| act_idempotency_key := EmptyString; act_bucket := mt_bucket target;
     act_config_revision := config_revision context; act_rule_identity := id;
     act_kind := AbortIncompleteMultipartUpload; act_target := TargetMultipart target;
     act_due_at := due |}.

Lemma evaluate_multipart_rule_acc context t acc e :
  evaluate_multipart_rule context t acc e = rmap (app acc) (evaluate_multipart_rule context t [] e).
Proof.
  destruct e as [i r]. unfold evaluate_multipart_rule.
  case_match; simpl; [by rewrite app_nil_r|].
  destruct (abort_incomplete_multipart_upload r) as [a|]; simpl; [|by rewrite app_nil_r].
  destruct (match selector r with LegacyPrefix _ => _ | Modern _ => _ end) as [m|]; simpl; [|done].
  destruct m; simpl; [|by rewrite app_nil_r].
  destruct (next_utc_midnight_after_full_days _ _); simpl; [|by rewrite app_nil_r].
  case_match; simpl; [by rewrite app_nil_r|].
  destruct (rule_identity _ _) as [[]|]; done.
Qed.

Lemma evaluate_multipart_rule_spec context t n r :
  Z.of_nat n <= u16_max -> wf_rule r ->
  exists ps, evaluate_multipart_rule context t [] (Z.of_nat n, r) = Ok ps /\
  forall p, p ∈ ps <-> exists id st due, rule_identity (rule_id r) (Z.of_nat n) = Ok (id, st) /\
    aborts context t r due /\
    p = {| action := abort_action context t id due; stable_rule_identity := st;
           effect_priority := 0 |}.
Proof.
  intros Hn Hr. unfold evaluate_multipart_rule.
  destruct (rule_identity_total (rule_id r) (Z.of_nat n)) as (id & st & Hid); [done|].
  assert (Hnone : (forall due, ~ aborts context t r due) -> forall p : LifecycleProposal,
    p ∈ [] <-> exists id st due, rule_identity (rule_id r) (Z.of_nat n) = Ok (id, st) /\
      aborts context t r due /\ p = {| action := abort_action context t id due;
                                      stable_rule_identity := st; effect_priority := 0 |}).
  { intros Hno p. rewrite elem_of_nil. naive_solver. }
  case_bool_decide as Hs; simpl; [|eexists; split; [done|]; apply Hnone; by inversion 1].
  destruct (abort_incomplete_multipart_upload r) as [a|] eqn:Ha;
    [|eexists; split; [done|]; apply Hnone; by inversion 1; congruence].
  assert (exists m, (match selector r with
      | Modern FAll => Ok true
      | LegacyPrefix prefix | Modern (FPrefix prefix) => Ok (starts_with prefix (mt_key t))
      | _ => Err (InvalidArgument "invalid multipart lifecycle selector")
      end) = Ok (E := AppError) m /\ (m = true <-> selects_upload (selector r) (mt_key t)))
    as (m & -> & Hm).
  { destruct Hr as (_ & _ & _ & _ & _ & Hab & _). destruct (Hab a Ha) as (_ & _ & Hsel).
    destruct (selector r) as [|[]]; try done; by eexists. }
  simpl. destruct m; simpl.
  2: { eexists; split; [done|]; apply Hnone. inversion 1. naive_solver. }
  destruct (next_utc_midnight_after_full_days _ _) as [due|] eqn:Hd.
  2: { eexists; split; [done|]; apply Hnone. inversion 1. congruence. }
  destruct (database_now context <? due) eqn:Hnow.
  { eexists; split; [done|]; apply Hnone. inversion 1. assert (due0 = due) by congruence. lia. }
  rewrite Hid. simpl. eexists; split; [done|]. intros p. rewrite list_elem_of_singleton. split.
  - intros ->. exists id, st, due. split_and!; [done| |done]. econstructor; eauto; [by apply Hm|lia].
  - intros (id' & st' & due' & [= <- <-] & [a' ? ? ? ?] & ->).
    assert (due' = due) as -> by congruence. done.
Qed.

Lemma wf_ordinal c n r :
  wf_configuration c -> rules c !! n = Some r -> Z.of_nat n <= u16_max /\ wf_rule r.
Proof.
  intros (_ & Hlen & _ & _ & Hr) Hn. rewrite Forall_forall in Hr.
  split; [|by eapply Hr, list_elem_of_lookup_2].
  apply lookup_lt_Some in Hn. unfold u16_max. lia.
Qed.

Lemma evaluate_multipart_rules_spec context t :
  wf_configuration (configuration context) ->
  exists ps,
    try_fold (evaluate_multipart_rule context t) [] (enumerate (rules (configuration context))) = Ok ps /\
    forall p, p ∈ ps <-> exists n r id st due, rules (configuration context) !! n = Some r /\
      rule_identity (rule_id r) (Z.of_nat n) = Ok (id, st) /\ aborts context t r due /\
      p = {| action := abort_action context t id due; stable_rule_identity := st;
             effect_priority := 0 |}.
Proof.
  intros Hwf. set (rs := rules (configuration context)).
  assert (Hone : forall n r, rs !! n = Some r -> exists ps,
    evaluate_multipart_rule context t [] (Z.of_nat n, r) = Ok ps /\ _)
    by (intros n r [Hn Hr]%(wf_ordinal _ _ _ Hwf); exact (evaluate_multipart_rule_spec context t n r Hn Hr)).
  rewrite (try_fold_collect _ (evaluate_multipart_rule_acc context t)).
  destruct (try_map (evaluate_multipart_rule context t []) (enumerate rs)) as [pss|e] eqn:Hm.
  2: { apply try_map_err in Hm as ([i r] & Hin & He). apply elem_of_enumerate in Hin as (n & -> & Hn).
       destruct (Hone n r Hn) as (ps & Hok & _). congruence. }
  eexists; split; [done|]. intros p. simpl. rewrite elem_of_concat_results by done. split.
  - intros ([i r] & Hin & ps & Hps & Hp). apply elem_of_enumerate in Hin as (n & -> & Hn).
    destruct (Hone n r Hn) as (ps' & Hok & Hel). assert (ps' = ps) as -> by congruence.
    apply Hel in Hp. naive_solver.
  - intros (n & r & id & st & due & Hn & Hid & Hab & ->).
    destruct (Hone n r Hn) as (ps & Hok & Hel). exists (Z.of_nat n, r). split.
    + apply elem_of_enumerate. eauto.
    + exists ps. split; [done|]. apply Hel. eauto 10.
Qed.

(** ** Order of the identities of rules without an id *)

Lemma digit_cmp a b :
  cmp (digit a) (digit b) = Z.compare (a mod 10) (b mod 10).
Proof.
  assert (Hd : forall z, N_of_ascii (digit z) = Z.to_N (48 + z mod 10)).
  { intros z. unfold digit. apply N_ascii_embedding.
    pose proof (Z.mod_pos_bound z 10 eq_refl). lia. }
  unfold cmp, ascii_ord, Ascii.compare. rewrite !Hd.
  pose proof (Z.mod_pos_bound a 10 eq_refl). pose proof (Z.mod_pos_bound b 10 eq_refl).
  rewrite Z2N.inj_compare by lia.
  apply Z.add_compare_mono_l.
Qed.

(** Zero padding makes the byte order of the texts the order of the numbers. *)
Lemma format_05_cmp i j :
  0 <= i < 100000 -> 0 <= j < 100000 -> cmp (format_05 i) (format_05 j) = Z.compare i j.
Proof.
  intros Hi Hj. symmetry.
  change (cmp (format_05 i) (format_05 j)) with (string_cmp (format_05 i) (format_05 j)).
  unfold format_05. cbn [string_cmp]. rewrite !digit_cmp.
  assert (Hdig : forall n, 0 <= n < 100000 -> n = 10000 * (n / 10000 mod 10)
    + 1000 * (n / 1000 mod 10) + 100 * (n / 100 mod 10) + 10 * (n / 10 mod 10) + n mod 10).
  { intros n Hn. Z.to_euclidean_division_equations. lia. }
  rewrite (Hdig i Hi), (Hdig j Hj) at 1. clear Hdig.
  pose proof (Z.mod_pos_bound (i / 10000) 10 eq_refl). pose proof (Z.mod_pos_bound (j / 10000) 10 eq_refl).
  pose proof (Z.mod_pos_bound (i / 1000) 10 eq_refl). pose proof (Z.mod_pos_bound (j / 1000) 10 eq_refl).
  pose proof (Z.mod_pos_bound (i / 100) 10 eq_refl). pose proof (Z.mod_pos_bound (j / 100) 10 eq_refl).
  pose proof (Z.mod_pos_bound (i / 10) 10 eq_refl). pose proof (Z.mod_pos_bound (j / 10) 10 eq_refl).
  pose proof (Z.mod_pos_bound i 10 eq_refl). pose proof (Z.mod_pos_bound j 10 eq_refl).
  repeat match goal with
  | |- context [Z.compare (?a mod 10) (?b mod 10)] =>
    destruct (Z.compare_spec (a mod 10) (b mod 10))
  end; first [apply Z.compare_eq_iff | apply Z.compare_lt_iff | apply Z.compare_gt_iff]; lia.
Qed.

Lemma cmp_app_prefix (p a b : string) : cmp (p +:+ a) (p +:+ b) = cmp a b.
Proof.
  induction p as [|x p IH]; [done|]. change (string_cmp (String x p +:+ a) (String x p +:+ b) = cmp a b).
  cbn. by rewrite cmp_refl.
Qed.

(** ** Properties *)

(** The place of a proposal in the order of the evaluator. *)
Definition rank (cx : VersionEvaluationContext) (kind : LifecycleActionKind) (due : Z) (st : string)
  : Z * Z * string := (priority_of (candidate cx) kind, due, st).

(** C34: for a version, the evaluator proposes an action that some enabled matching rule of the
    document is eligible to take, least by effect priority, then due time, then rule identity among
    all eligible actions of all rules; it proposes nothing exactly when no rule is eligible. *)
Theorem evaluate_candidate_winner context version o :
  ctx_candidate context = CandVersion version -> evaluate_candidate context = Ok o ->
  let cx := {| candidate := version; facts := context |} in
  match o with
  | Some a =>
    exists n r id st, rules (configuration context) !! n = Some r /\
      rule_identity (rule_id r) (Z.of_nat n) = Ok (id, st) /\
      eligible cx r (act_kind a) (act_due_at a) /\
      a = action (proposal cx id st (act_kind a) (act_due_at a)) /\
      forall m r' id' st' kind due, rules (configuration context) !! m = Some r' ->
        rule_identity (rule_id r') (Z.of_nat m) = Ok (id', st') -> eligible cx r' kind due ->
        ord_le (rank cx (act_kind a) (act_due_at a) st) (rank cx kind due st')
  | None =>
    forall m r' id' st' kind due, rules (configuration context) !! m = Some r' ->
      rule_identity (rule_id r') (Z.of_nat m) = Ok (id', st') -> ~ eligible cx r' kind due
  end.
Proof.
  intros Hc He cx. unfold evaluate_candidate in He. rewrite Hc in He. ok_inv He. simplify_eq.
  pose proof (evaluate_rules_spec _ _ _ E0) as Hps. unfold select_winner.
  destruct (head (sort_by (by_key proposal_sort_key) x)) as [p|] eqn:Hh; simpl.
  - apply sort_by_head in Hh as [Hin Hmin].
    apply Hps in Hin as (n & r & id & st & kind & due & Hn & Hid & Hel & ->); simpl in *.
    exists n, r, id, st. split_and!; try done.
    intros m r' id' st' k d Hm Hid' Hel'.
    apply (Hmin (proposal cx id' st' k d)), Hps. naive_solver.
  - apply sort_by_head_none in Hh as ->. intros m r' id' st' k d Hm Hid Hel.
    assert (Hin : proposal cx id' st' k d ∈ []) by (apply Hps; eauto 10).
    by apply elem_of_nil in Hin.
Qed.

(** rules without an id are ordered by their place in the document, so that of two such rules
    whose actions are equally urgent the first wins. *)
Theorem stable_identity_order i j id st id' st' :
  0 <= i -> 0 <= j -> rule_identity None i = Ok (id, st) -> rule_identity None j = Ok (id', st') ->
  cmp st st' = Z.compare i j.
Proof.
  unfold rule_identity, u16_max. intros Hi Hj Hr Hr'. ok_inv Hr. ok_inv Hr'. simplify_eq.
  etransitivity; [apply (cmp_app_prefix "ordinal:")|]. apply format_05_cmp; lia.
Qed.

(** C40: on a valid document the evaluation of a version fails exactly when an enabled matching rule
    expires it after a number of days whose end lies beyond the calendar. *)
Theorem evaluate_candidate_fails context version :
  wf_configuration (configuration context) -> 0 < config_revision context ->
  ctx_candidate context = CandVersion version ->
  is_ok (evaluate_candidate context) = false <->
  exists r, r ∈ rules (configuration context) /\
    overflows {| candidate := version; facts := context |} r.
Proof.
  intros Hwf Hrev Hc. unfold evaluate_candidate. rewrite Hc, (proj2 (Z.leb_gt _ _) Hrev). simpl.
  set (cx := {| candidate := version; facts := context |}).
  rewrite (try_fold_collect _ (evaluate_rule_acc cx)).
  destruct (try_map (evaluate_rule cx []) _) as [pss|e] eqn:Hm; simpl.
  - split; [done|]. intros (r & Hr & Ho). apply list_elem_of_lookup in Hr as [n Hn].
    destruct (wf_ordinal _ _ _ Hwf Hn) as [Hb _].
    apply (evaluate_rule_fails cx n r Hb) in Ho.
    destruct (try_map_elem _ _ _ (Z.of_nat n, r) Hm) as [ps Hps]; [apply elem_of_enumerate; eauto|].
    by rewrite Hps in Ho.
  - split; [intros _|done]. apply try_map_err in Hm as ([i r] & Hin & He).
    apply elem_of_enumerate in Hin as (n & -> & Hn). exists r. split; [by eapply list_elem_of_lookup_2|].
    destruct (wf_ordinal _ _ _ Hwf Hn) as [Hb _]. apply (evaluate_rule_fails cx n r Hb). by rewrite He.
Qed.

(** on a valid document the evaluation of a multipart upload never fails: it aborts the upload
    for the earliest due rule (then by identity), or not at all when no rule is due. *)
Theorem evaluate_multipart_total context t :
  wf_configuration (configuration context) -> 0 < config_revision context ->
  ctx_candidate context = CandMultipart t ->
  exists o, evaluate_candidate context = Ok o /\
  match o with
  | Some a =>
    exists n r id st, rules (configuration context) !! n = Some r /\
      rule_identity (rule_id r) (Z.of_nat n) = Ok (id, st) /\
      aborts context t r (act_due_at a) /\ a = abort_action context t id (act_due_at a) /\
      forall m r' id' st' due, rules (configuration context) !! m = Some r' ->
        rule_identity (rule_id r') (Z.of_nat m) = Ok (id', st') -> aborts context t r' due ->
        ord_le (act_due_at a, st) (due, st')
  | None => forall r due, r ∈ rules (configuration context) -> ~ aborts context t r due
  end.
Proof.
  intros Hwf Hrev Hc. unfold evaluate_candidate, evaluate_multipart.
  rewrite Hc, (proj2 (Z.leb_gt _ _) Hrev).
  destruct (evaluate_multipart_rules_spec context t Hwf) as (ps & -> & Hps). simpl.
  eexists; split; [done|].
  destruct (head (sort_by (by_key multipart_sort_key) ps)) as [p|] eqn:Hh; simpl.
  - apply sort_by_head in Hh as [Hin Hmin].
    apply Hps in Hin as (n & r & id & st & due & Hn & Hid & Hab & ->); simpl in *.
    exists n, r, id, st. split_and!; try done. intros m r' id' st' due' Hm Hid' Hab'.
    eapply (Hmin {| action := abort_action context t id' due'; stable_rule_identity := st';
                    effect_priority := 0 |}), Hps. naive_solver.
  - apply sort_by_head_none in Hh as ->. intros r due Hr Hab.
    apply list_elem_of_lookup in Hr as [n Hn]. destruct (wf_ordinal _ _ _ Hwf Hn) as [Hb _].
    destruct (rule_identity_total (rule_id r) (Z.of_nat n)) as (id & st & Hid); [done|].
    eapply elem_of_nil, Hps. eauto 10.
Qed.

Context `{!ChronoLaws}.

Lemma next_midnight_eq start days :
  representable start = true -> 0 <= days ->
  next_utc_midnight_after_full_days start days =
  let due := (aged start days / day_ns + 1) * day_ns in
  if due / day_ns <=? max_day then Ok due
  else Err (InvalidArgument "lifecycle due time is outside the UTC timestamp range").
Proof.
  intros Hr Hd. unfold next_utc_midnight_after_full_days, aged.
  rewrite checked_add_days_spec by done. unfold representable in *.
  assert (Hlb : min_day <= (start + days * day_ns) / day_ns).
  { rewrite Z.div_add by done. lia. }
  rewrite (proj2 (Z.leb_le _ _)) by done. simpl. rewrite Z.div_mul by done.
  destruct ((start + days * day_ns) / day_ns <=? max_day) eqn:E; simpl.
  - rewrite date_naive_spec, succ_opt_spec. destruct (_ + 1 <=? max_day); simpl; [|done].
    by rewrite and_midnight_spec.
  - by rewrite (proj2 (Z.leb_gt _ _)) by lia.
Qed.

(** the due time of an action after [days] full days is the first UTC midnight strictly after
    them, and there is one exactly when that midnight is on a day of the calendar. *)
Theorem next_utc_midnight_spec start days :
  representable start = true -> 0 <= days ->
  (forall m, next_utc_midnight_after_full_days start days = Ok m <->
     first_midnight_after (aged start days) m /\ m / day_ns <= max_day) /\
  (is_ok (next_utc_midnight_after_full_days start days) = false <->
     forall m, first_midnight_after (aged start days) m -> max_day < m / day_ns).
Proof.
  intros Hr Hd. rewrite next_midnight_eq by done. simpl.
  setoid_rewrite first_midnight_iff.
  destruct (Z.leb_spec ((aged start days / day_ns + 1) * day_ns / day_ns) max_day) as [Hle|Hgt]; simpl.
  - split; [intros m; split; [intros [= <-]; done | intros [-> _]; done]|].
    split; [done|]. intros Hm. specialize (Hm _ eq_refl). lia.
  - split; [intros m; split; [done|intros [-> ?]; lia]|]. split; [intros _ m ->; done|done].
Qed.
End eval.

(** ** Witnesses *)

Definition sample_version (latest : bool) : VersionLifecycleCandidate := {|
  target := {| vt_bucket := "b"; vt_key := "logs/a"; vt_version_row_id := "r1";
               vt_public_version_id := Opaque "v1"; vt_kind := KObject; vt_object_id := Some "o1";
               vt_sequence := 1 |};
  is_latest := latest; bucket_versioning_state := Enabled;
  primary_storage_class := Some Standard; hot_residency_verified := true; size := 100;
  lifecycle_age_started_at := 100 * day_ns + 5; became_noncurrent_at := None
|}%string.

Definition sample_rule (id : option string) (e : option CurrentExpiration)
    (t : option CurrentTransition) (a : option AbortIncompleteMultipartUploadAction)
  : CanonicalLifecycleRule :=
  {| rule_id := id; status := RuleEnabled; selector := Modern (FPrefix "logs/"); expiration := e;
     noncurrent_version_expiration := None; transition := t; noncurrent_version_transition := None;
     abort_incomplete_multipart_upload := a |}.

Definition sample_context (cand : LifecycleCandidate) (rs : list CanonicalLifecycleRule)
  : LifecycleEvaluationContext := {|
  ctx_candidate := cand; ctx_tags := []; public_version_count := 1; newer_noncurrent_count := 0;
  config_revision := 3; configuration := {| schema_version := 1; rules := rs |};
  database_now := 200 * day_ns
|}.

(** One rule expires after 30 days, one transitions after 60: the transition wins by priority. *)
Definition two_rules : LifecycleEvaluationContext :=
  sample_context (CandVersion (sample_version true))
    [ sample_rule None (Some (ExpDays 30)) None None;
      sample_rule (Some "ia"%string) None (Some (TransDays 60)) None ].

Definition two_rules_winner : NewLifecycleAction := {|
  act_idempotency_key := ""; act_bucket := "b"; act_config_revision := 3;
  act_rule_identity := RuleId "ia"; act_kind := TransitionCurrent;
  act_target := TargetVersion (target (sample_version true)); act_due_at := 161 * day_ns
|}%string.

Lemma evaluate_candidate_winner_witness :
  @evaluate_candidate proleptic two_rules = Ok (Some two_rules_winner) /\
  exists n r id st, rules (configuration two_rules) !! n = Some r /\
    rule_identity (rule_id r) (Z.of_nat n) = Ok (id, st) /\
    @eligible proleptic {| candidate := sample_version true; facts := two_rules |} r
      TransitionCurrent (161 * day_ns).
Proof.
  split; [vm_compute; reflexivity|].
  destruct (@evaluate_candidate_winner proleptic two_rules (sample_version true)
    (Some two_rules_winner)) as (n & r & id & st & Hn & Hi & He & _).
  - reflexivity.
  - vm_compute. reflexivity.
  - exists n, r, id, st. exact (conj Hn (conj Hi He)).
Defined.

Lemma stable_identity_order_witness :
  cmp "ordinal:00009"%string "ordinal:00010"%string = Lt.
Proof.
  apply (stable_identity_order 9 10 (RuleOrdinal 9) "ordinal:00009" (RuleOrdinal 10) "ordinal:00010");
    first [lia | vm_compute; reflexivity].
Defined.

(** The largest number of days an uploaded document can ask for. *)
Definition forever : LifecycleEvaluationContext :=
  sample_context (CandVersion (sample_version true))
    [ sample_rule None (Some (ExpDays i32_max)) None None ].

Lemma forever_wf : wf_configuration (configuration forever).
Proof. apply (@validate_configuration_iff proleptic proleptic_laws). vm_compute. reflexivity. Qed.

Lemma evaluate_candidate_fails_witness :
  is_ok (@evaluate_candidate proleptic forever) = false.
Proof.
  apply (@evaluate_candidate_fails proleptic forever (sample_version true)).
  - exact forever_wf.
  - reflexivity.
  - reflexivity.
  - exists (sample_rule None (Some (ExpDays i32_max)) None None). split; [left|].
    split; [vm_compute; reflexivity|]. left. split; [reflexivity|]. split; [left; reflexivity|].
    exists i32_max. split; [reflexivity|]. vm_compute. reflexivity.
Defined.

Definition sample_upload : MultipartUploadTargetIdentity := {|
  mt_bucket := "b"; mt_key := "logs/u"; mt_upload_id := "u1"; mt_initiated_at := 150 * day_ns
|}%string.

(** The rule that never comes due does not keep the other from aborting the upload. *)
Definition two_aborts : LifecycleEvaluationContext :=
  sample_context (CandMultipart sample_upload)
    [ sample_rule None None None (Some {| days_after_initiation := i32_max |});
      sample_rule None None None (Some {| days_after_initiation := 7 |}) ].

Lemma evaluate_multipart_total_witness :
  exists o, @evaluate_candidate proleptic two_aborts = Ok o /\
    act_due_at <$> o = Some (158 * day_ns).
Proof.
  destruct (@evaluate_multipart_total proleptic two_aborts sample_upload) as (o & Ho & _).
  - apply (@validate_configuration_iff proleptic proleptic_laws). vm_compute. reflexivity.
  - reflexivity.
  - reflexivity.
  - exists o. split; [exact Ho|]. vm_compute in Ho. injection Ho as <-. reflexivity.
Defined.

Lemma next_utc_midnight_spec_witness :
  @next_utc_midnight_after_full_days proleptic (100 * day_ns) 1 = Ok (102 * day_ns).
Proof.
  apply (@next_utc_midnight_spec proleptic proleptic_laws (100 * day_ns) 1).
  - vm_compute. reflexivity.
  - lia.
  - split; [|vm_compute; congruence]. apply first_midnight_iff. vm_compute. reflexivity.
Defined.
