(* ===== verification/Database.v ===== *)
(** * The database: tables, constraints and transactions

    The tables of [src/store/migrations/baseline/core.sql] and [lifecycle.sql] that hold buckets,
    objects, versions and residencies, with the row types of [src/store/entities].  A table is the
    list of its rows and a query is a filter.  A statement that would leave a row violating a
    [UNIQUE], [CHECK] or [FOREIGN KEY] constraint of the schema fails; a transaction threads the
    database through its statements and stops at the first error. *)

From Stdlib Require Import ZArith Lia.
From stdpp Require Import prelude strings list.
From S2P Require Import Prelude Errors.

#[local] Open Scope Z_scope.

(** ** Rows *)

Record BucketRow : Type := {
  b_name : string;
  b_created_at : Z;
  b_owner : option string;
  b_versioning_status : option string
}.

Record ObjectRow : Type := {
  o_id : string;
  o_bucket : string;
  o_key : string;
  o_cid : string;
  o_size : Z;
  o_content_type : option string;
  o_etag : string;
  o_metadata : option string;
  o_encrypted : bool;
  o_key_wrap : option string;
  o_sse_c_key_fingerprint : option string;
  o_multipart : bool;
  o_is_latest : bool;
  o_created_at : Z
}.

Record VersionRow : Type := {
  v_id : string;
  v_bucket : string;
  v_key : string;
  v_version_id : option string;
  v_kind : string;
  v_object_id : option string;
  v_sequence : Z;
  v_is_latest : bool;
  v_lifecycle_age_started_at : Z;
  v_became_noncurrent_at : option Z;
  v_created_at : Z;
  v_updated_at : Z
}.

Record PhysicalRow : Type := {
  p_tier : string;
  p_cid : string;
  p_node_identity : option string;
  p_verification_state : string;
  p_verification_receipt : option string;
  p_verified_at : option Z;
  p_created_at : Z;
  p_updated_at : Z
}.

Record ResidencyRow : Type := {
  r_version_row_id : string;
  r_object_id : string;
  r_primary_tier : string;
  r_storage_class : string;
  r_cid : string;
  r_revision : Z;
  r_created_at : Z;
  r_updated_at : Z
}.

Record ReferenceRow : Type := {
  ref_owner_kind : string;
  ref_owner_id : string;
  ref_reason : string;
  ref_version_row_id : string;
  ref_object_id : string;
  ref_tier : string;
  ref_cid : string;
  ref_created_at : Z
}.

#[export] Instance BucketRow_eq_dec : EqDecision BucketRow.
Proof. solve_decision. Defined.
#[export] Instance ObjectRow_eq_dec : EqDecision ObjectRow.
Proof. solve_decision. Defined.
#[export] Instance VersionRow_eq_dec : EqDecision VersionRow.
Proof. solve_decision. Defined.
#[export] Instance PhysicalRow_eq_dec : EqDecision PhysicalRow.
Proof. solve_decision. Defined.
#[export] Instance ResidencyRow_eq_dec : EqDecision ResidencyRow.
Proof. solve_decision. Defined.
#[export] Instance ReferenceRow_eq_dec : EqDecision ReferenceRow.
Proof. solve_decision. Defined.

Record Db : Type := {
  buckets : list BucketRow;
  objects : list ObjectRow;
  versions : list VersionRow;
  physicals : list PhysicalRow;
  residencies : list ResidencyRow;
  references : list ReferenceRow
}.

(** ** Constraints *)

(** A (partial) unique index: no two indexed rows share a key. *)
Definition unique {A K} (index : A -> option K) (rows : list A) : Prop := NoDup (omap index rows).

Definition o_latest_index (o : ObjectRow) : option (string * string) :=
  if o_is_latest o then Some (o_bucket o, o_key o) else None.

Definition v_latest_index (v : VersionRow) : option (string * string) :=
  if v_is_latest v then Some (v_bucket v, v_key v) else None.
Definition v_sequence_index (v : VersionRow) : option (string * string * Z) :=
  Some (v_bucket v, v_key v, v_sequence v).
Definition v_null_slot_index (v : VersionRow) : option (string * string) :=
  match v_version_id v with None => Some (v_bucket v, v_key v) | Some _ => None end.
Definition v_public_id_index (v : VersionRow) : option (string * string * string) :=
  match v_version_id v with Some id => Some (v_bucket v, v_key v, id) | None => None end.

Definition bucket_check (b : BucketRow) : Prop :=
  b_versioning_status b = None \/ b_versioning_status b = Some "Enabled"%string \/
  b_versioning_status b = Some "Suspended"%string.

Definition buckets_ok (db : Db) : Prop :=
  NoDup (map b_name (buckets db)) /\ Forall bucket_check (buckets db).

Definition objects_ok (db : Db) : Prop :=
  unique (fun o => Some (o_id o)) (objects db) /\
  unique o_latest_index (objects db) /\
  Forall (fun o => o_bucket o ∈ map b_name (buckets db)) (objects db).

Definition version_check (v : VersionRow) : Prop :=
  (v_kind v = "object"%string /\ is_Some (v_object_id v)) \/
  (v_kind v = "delete_marker"%string /\ v_object_id v = None).

Definition versions_ok (db : Db) : Prop :=
  unique (fun v => Some (v_id v)) (versions db) /\
  unique v_latest_index (versions db) /\
  unique v_sequence_index (versions db) /\
  unique v_null_slot_index (versions db) /\
  unique v_public_id_index (versions db) /\
  Forall version_check (versions db) /\
  Forall (fun v => v_bucket v ∈ map b_name (buckets db)) (versions db) /\
  Forall (fun v => match v_object_id v with
                   | Some id => id ∈ map o_id (objects db)
                   | None => True
                   end) (versions db).

Definition nonempty (s : string) : Prop := s <> EmptyString.
Definition some_nonempty (o : option string) : Prop :=
  match o with Some s => s <> EmptyString | None => False end.

(** The [CHECK]s of [physical_residencies]. *)
Definition physical_check (p : PhysicalRow) : Prop :=
  (p_tier p = "hot"%string \/ p_tier p = "cold"%string) /\
  nonempty (p_cid p) /\
  ((p_verification_state p = "verified"%string /\ some_nonempty (p_node_identity p) /\
    some_nonempty (p_verification_receipt p) /\ is_Some (p_verified_at p)) \/
   ((p_verification_state p = "pending"%string \/ p_verification_state p = "failed"%string) /\
    p_node_identity p = None /\ p_verification_receipt p = None /\ p_verified_at p = None)).

Definition physicals_ok (db : Db) : Prop :=
  unique (fun p => Some (p_tier p, p_cid p)) (physicals db) /\
  Forall physical_check (physicals db).

(** The composite keys other tables refer to. *)
Definition version_owners (db : Db) : list (string * string) :=
  omap (fun v => (fun o => (v_id v, o)) <$> v_object_id v) (versions db).
Definition object_contents (db : Db) : list (string * string) :=
  map (fun o => (o_id o, o_cid o)) (objects db).
Definition physical_places (db : Db) : list (string * string) :=
  map (fun p => (p_tier p, p_cid p)) (physicals db).

Definition residency_check (r : ResidencyRow) : Prop :=
  0 < r_revision r /\
  ((r_primary_tier r = "hot"%string /\ r_storage_class r = "STANDARD"%string) \/
   (r_primary_tier r = "cold"%string /\ r_storage_class r = "STANDARD_IA"%string)).

Definition residencies_ok (db : Db) : Prop :=
  unique (fun r => Some (r_version_row_id r)) (residencies db) /\
  Forall residency_check (residencies db) /\
  Forall (fun r => (r_version_row_id r, r_object_id r) ∈ version_owners db) (residencies db) /\
  Forall (fun r => (r_object_id r, r_cid r) ∈ object_contents db) (residencies db) /\
  Forall (fun r => (r_primary_tier r, r_cid r) ∈ physical_places db) (residencies db).

Definition reference_key (r : ReferenceRow) : string * string * string * string * string :=
  (ref_owner_kind r, ref_owner_id r, ref_reason r, ref_tier r, ref_cid r).

Definition reference_check (r : ReferenceRow) : Prop :=
  (ref_owner_kind r = "version"%string /\ ref_reason r = "retained_version"%string /\
   ref_owner_id r = ref_version_row_id r) \/
  (ref_owner_kind r = "transition"%string /\
   (ref_reason r = "transition_staging"%string \/ ref_reason r = "transition_cleanup_hold"%string) /\
   nonempty (ref_owner_id r)).

Definition references_ok (db : Db) : Prop :=
  unique (fun r => Some (reference_key r)) (references db) /\
  Forall reference_check (references db) /\
  Forall (fun r => (ref_version_row_id r, ref_object_id r) ∈ version_owners db) (references db) /\
  Forall (fun r => (ref_object_id r, ref_cid r) ∈ object_contents db) (references db) /\
  Forall (fun r => (ref_tier r, ref_cid r) ∈ physical_places db) (references db).

Definition constraints (db : Db) : Prop :=
  buckets_ok db /\ objects_ok db /\ versions_ok db /\ physicals_ok db /\
  residencies_ok db /\ references_ok db.

#[export] Instance some_nonempty_dec o : Decision (some_nonempty o).
Proof. destruct o; simpl; apply _. Defined.
#[export] Instance constraints_dec db : Decision (constraints db).
Proof.
  unfold constraints, buckets_ok, bucket_check, objects_ok, versions_ok, physicals_ok, residencies_ok, references_ok,
    version_check, physical_check, residency_check, reference_check, nonempty, unique.
  assert (forall v : VersionRow, Decision (match v_object_id v with
    | Some id => id ∈ map o_id (objects db) | None => True end))
    by (intros v; destruct (v_object_id v); apply _).
  assert (forall (A : Type) (o : option A), Decision (is_Some o)) by (intros; apply _).
  apply _.
Defined.

(** ** Transactions *)

Definition Tx (A : Type) : Type := Db -> AppResult (A * Db).

Definition tx_ret {A} (a : A) : Tx A := fun db => Ok (a, db).
Definition tx_err {A} (e : AppError) : Tx A := fun _ => Err e.
Definition tx_bind {A B} (c : Tx A) (k : A -> Tx B) : Tx B :=
  fun db => let? '(a, db') := c db in k a db'.
Definition lift {A} (r : AppResult A) : Tx A := fun db => let? a := r in Ok (a, db).
(** A query. *)
Definition reads {A} (f : Db -> A) : Tx A := fun db => Ok (f db, db).

(** [let x = c.await?; k] *)
Notation "'let!' x ':=' c 'in' k" := (tx_bind c (fun x => k))
  (at level 10, x name, c at level 100, k at level 200,
   format "'[v' 'let!'  x  ':='  c  'in' '/' k ']'") : rust_scope.
Notation "'let!' ' x ':=' c 'in' k" := (tx_bind c (fun x => k))
  (at level 10, x strict pattern, c at level 100, k at level 200) : rust_scope.
(** [if b { return Err(e); } k] *)
Notation "'fail_if' b 'with' e 'else' k" := (if b then tx_err e else k)
  (at level 10, b at level 100, e at level 100, k at level 200,
   format "'[v' 'fail_if'  b  'with'  e  'else' '/' k ']'") : rust_scope.

(** The driver's message is not modelled. *)
Definition constraint_failed : AppError := Database "constraint failed".

(** A statement: it takes effect when every constraint holds afterwards. *)
Definition exec (f : Db -> Db) : Tx unit :=
  fun db => if decide (constraints (f db)) then Ok (tt, f db) else Err constraint_failed.

Definition set_objects (os : list ObjectRow) (db : Db) : Db :=
  {| buckets := buckets db; objects := os; versions := versions db; physicals := physicals db;
     residencies := residencies db; references := references db |}.
Definition set_versions (vs : list VersionRow) (db : Db) : Db :=
  {| buckets := buckets db; objects := objects db; versions := vs; physicals := physicals db;
     residencies := residencies db; references := references db |}.
Definition set_buckets (bs : list BucketRow) (db : Db) : Db :=
  {| buckets := bs; objects := objects db; versions := versions db; physicals := physicals db;
     residencies := residencies db; references := references db |}.
Definition set_physicals (ps : list PhysicalRow) (db : Db) : Db :=
  {| buckets := buckets db; objects := objects db; versions := versions db; physicals := ps;
     residencies := residencies db; references := references db |}.
Definition set_residencies (rs : list ResidencyRow) (db : Db) : Db :=
  {| buckets := buckets db; objects := objects db; versions := versions db;
     physicals := physicals db; residencies := rs; references := references db |}.
Definition set_references (rs : list ReferenceRow) (db : Db) : Db :=
  {| buckets := buckets db; objects := objects db; versions := versions db;
     physicals := physicals db; residencies := residencies db; references := rs |}.

(** [UPDATE .. SET f WHERE P]: the new rows. *)
Definition update_where {A} (P : A -> Prop) `{forall a, Decision (P a)} (f : A -> A) (l : list A)
  : list A := map (fun a => if decide (P a) then f a else a) l.
(** [rows_affected] *)
Definition matching {A} (P : A -> Prop) `{forall a, Decision (P a)} (l : list A) : Z :=
  Z.of_nat (length (filter P l)).

(** [Entity::update_many().filter(P).exec(db)] *)
Definition update_objects (P : ObjectRow -> Prop) `{forall o, Decision (P o)}
    (f : ObjectRow -> ObjectRow) : Tx Z :=
  let! n := reads (fun db => matching P (objects db)) in
  let! _ := exec (fun db => set_objects (update_where P f (objects db)) db) in
  tx_ret n.
Definition update_versions (P : VersionRow -> Prop) `{forall v, Decision (P v)}
    (f : VersionRow -> VersionRow) : Tx Z :=
  let! n := reads (fun db => matching P (versions db)) in
  let! _ := exec (fun db => set_versions (update_where P f (versions db)) db) in
  tx_ret n.
Definition update_buckets (P : BucketRow -> Prop) `{forall b, Decision (P b)}
    (f : BucketRow -> BucketRow) : Tx Z :=
  let! n := reads (fun db => matching P (buckets db)) in
  let! _ := exec (fun db => set_buckets (update_where P f (buckets db)) db) in
  tx_ret n.
Definition update_physicals (P : PhysicalRow -> Prop) `{forall p, Decision (P p)}
    (f : PhysicalRow -> PhysicalRow) : Tx Z :=
  let! n := reads (fun db => matching P (physicals db)) in
  let! _ := exec (fun db => set_physicals (update_where P f (physicals db)) db) in
  tx_ret n.

Definition update_residencies (P : ResidencyRow -> Prop) `{forall r, Decision (P r)}
    (f : ResidencyRow -> ResidencyRow) : Tx Z :=
  let! n := reads (fun db => matching P (residencies db)) in
  let! _ := exec (fun db => set_residencies (update_where P f (residencies db)) db) in
  tx_ret n.

(** [DELETE FROM object_versions WHERE P]: [ON DELETE CASCADE] removes the residency and the
    references that the deleted rows own. *)
Definition delete_rows (P : VersionRow -> Prop) `{forall v, Decision (P v)} (db : Db) : Db :=
  let kept := filter (fun v => ~ P v) (versions db) in
  let owners := version_owners (set_versions kept db) in
  {| buckets := buckets db; objects := objects db; versions := kept; physicals := physicals db;
     residencies := filter (fun r => (r_version_row_id r, r_object_id r) ∈ owners) (residencies db);
     references :=
       filter (fun r => (ref_version_row_id r, ref_object_id r) ∈ owners) (references db) |}.
Definition delete_versions (P : VersionRow -> Prop) `{forall v, Decision (P v)} : Tx Z :=
  let! n := reads (fun db => matching P (versions db)) in
  let! _ := exec (delete_rows P) in
  tx_ret n.
Definition delete_references (P : ReferenceRow -> Prop) `{forall r, Decision (P r)} : Tx Z :=
  let! n := reads (fun db => matching P (references db)) in
  let! _ := exec (fun db => set_references (filter (fun r => ~ P r) (references db)) db) in
  tx_ret n.

(** [Entity::insert(row).exec(db)] *)
Definition insert_object (o : ObjectRow) : Tx unit :=
  exec (fun db => set_objects (objects db ++ [o]) db).
Definition insert_version (v : VersionRow) : Tx unit :=
  exec (fun db => set_versions (versions db ++ [v]) db).
Definition insert_residency (r : ResidencyRow) : Tx unit :=
  exec (fun db => set_residencies (residencies db ++ [r]) db).
(** [.on_conflict(columns(PRIMARY KEY).do_nothing())]: the rows inserted. *)
Definition insert_physical_or_nothing (p : PhysicalRow) : Tx Z :=
  let! present := reads (fun db => bool_decide ((p_tier p, p_cid p) ∈ physical_places db)) in
  if present : bool then tx_ret 0
  else let! _ := exec (fun db => set_physicals (physicals db ++ [p]) db) in tx_ret 1.
Definition insert_reference_or_nothing (r : ReferenceRow) : Tx Z :=
  let! present := reads (fun db => bool_decide (reference_key r ∈ map reference_key (references db))) in
  if present : bool then tx_ret 0
  else let! _ := exec (fun db => set_references (references db ++ [r]) db) in tx_ret 1.

(** [Entity::find_by_id(..).one(db)] *)
Definition find_object (id : string) (db : Db) : option ObjectRow :=
  head (filter (fun o => o_id o = id) (objects db)).
Definition find_version (id : string) (db : Db) : option VersionRow :=
  head (filter (fun v => v_id v = id) (versions db)).
Definition find_bucket (name : string) (db : Db) : option BucketRow :=
  head (filter (fun b => b_name b = name) (buckets db)).
Definition find_residency (id : string) (db : Db) : option ResidencyRow :=
  head (filter (fun r => r_version_row_id r = id) (residencies db)).
Definition find_physical (tier cid : string) (db : Db) : option PhysicalRow :=
  head (filter (fun p => p_tier p = tier /\ p_cid p = cid) (physicals db)).

(** ** Lemmas: transactions *)

Lemma tx_bind_ok {A B} (c : Tx A) (k : A -> Tx B) db b db' :
  tx_bind c k db = Ok (b, db') <-> exists a db1, c db = Ok (a, db1) /\ k a db1 = Ok (b, db').
Proof. unfold tx_bind. rewrite rbind_ok. split; [intros ([] & ?)|intros (? & ? & ?)]; naive_solver. Qed.

Lemma tx_bind_eq {A B} (c : Tx A) (k : A -> Tx B) db a db1 :
  c db = Ok (a, db1) -> tx_bind c k db = k a db1.
Proof. unfold tx_bind. by intros ->. Qed.

Lemma lift_eq {A} (x : AppResult A) a db : x = Ok a -> lift x db = Ok (a, db).
Proof. by intros ->. Qed.

Lemma lift_ok {A} (r : AppResult A) db a db' : lift r db = Ok (a, db') <-> r = Ok a /\ db' = db.
Proof. unfold lift. destruct r; simpl; naive_solver. Qed.

Lemma exec_ok f db : constraints (f db) -> exec f db = Ok (tt, f db).
Proof. intros. unfold exec. by destruct (decide _). Qed.

Lemma exec_inv f db u db' : exec f db = Ok (u, db') -> db' = f db /\ constraints db'.
Proof. unfold exec. destruct (decide _); naive_solver. Qed.

(** ** Lemmas: indexes *)

Section indexes.
Context {A K : Type} (index : A -> option K).

Lemma unique_inj l x y k :
  unique index l -> x ∈ l -> y ∈ l -> index x = Some k -> index y = Some k -> x = y.
Proof.
  unfold unique. induction l as [|a l IH]; [intros _ Hx; by apply elem_of_nil in Hx|].
  simpl. intros Hn Hx Hy Ex Ey.
  assert (Hin : forall z, z ∈ l -> index z = Some k -> k ∈ omap index l)
    by (intros z Hz Ez; apply list_elem_of_omap; eauto).
  apply elem_of_cons in Hx as [->|Hx], Hy as [->|Hy]; try done.
  - rewrite Ex in Hn. apply NoDup_cons in Hn as [Hn _]. by destruct Hn; eauto.
  - rewrite Ey in Hn. apply NoDup_cons in Hn as [Hn _]. by destruct Hn; eauto.
  - apply IH; try done. destruct (index a); [by apply NoDup_cons in Hn as [_ ?]|done].
Qed.

(** An update that keeps or drops the keys of the rows keeps the index unique. *)
Lemma unique_nodup l : (forall x, x ∈ l -> is_Some (index x)) -> unique index l -> NoDup l.
Proof.
  unfold unique. induction l as [|a l IH]; [constructor|]. csimpl. intros Hall Hn.
  destruct (Hall a) as [k Ek]; [left|]. rewrite Ek in Hn. apply NoDup_cons in Hn as [Ha Hn].
  constructor; [|apply IH; [intros; apply Hall; by right|done]].
  intros Hin. apply Ha, list_elem_of_omap. eauto.
Qed.

Lemma unique_map (f : A -> A) l :
  (forall x, x ∈ l -> index (f x) = index x \/ index (f x) = None) ->
  unique index l -> unique index (map f l).
Proof.
  unfold unique. induction l as [|a l IH]; simpl; [done|]. intros Hf Hn.
  assert (Hl : NoDup (omap index l)).
  { destruct (index a); [by apply NoDup_cons in Hn as [_ ?]|done]. }
  specialize (IH (fun x Hx => Hf x (list_elem_of_further _ _ _ Hx)) Hl).
  destruct (Hf a (list_elem_of_here _ _)) as [->| ->]; [|done].
  destruct (index a) as [k|]; [|done]. apply NoDup_cons in Hn as [Hn _]. apply NoDup_cons.
  split; [|done]. intros Hk. apply Hn. apply list_elem_of_omap in Hk as (y & Hy & Ey).
  apply list_elem_of_fmap in Hy as (x & -> & Hx). apply list_elem_of_omap. exists x. split; [done|].
  destruct (Hf x) as [E|E]; [by right|congruence..].
Qed.

Lemma unique_filter (P : A -> Prop) `{forall a, Decision (P a)} l :
  unique index l -> unique index (filter P l).
Proof.
  unfold unique. induction l as [|a l IH]; [done|]. rewrite filter_cons. simpl. intros Hn.
  assert (Hl : NoDup (omap index l)).
  { destruct (index a); [by apply NoDup_cons in Hn as [_ ?]|done]. }
  destruct (decide (P a)); [|by apply IH]. simpl. destruct (index a) as [k|]; [|by apply IH].
  apply NoDup_cons in Hn as [Hn _]. apply NoDup_cons. split; [|by apply IH].
  intros Hk. apply Hn. apply list_elem_of_omap in Hk as (y & Hy & Ey).
  apply list_elem_of_filter in Hy as [_ Hy]. apply list_elem_of_omap. eauto.
Qed.

Lemma unique_snoc l x :
  unique index l -> (forall k y, index x = Some k -> y ∈ l -> index y <> Some k) ->
  unique index (l ++ [x]).
Proof.
  unfold unique. rewrite omap_app. simpl. intros Hn Hx.
  destruct (index x) as [k|]; [|by rewrite app_nil_r].
  apply NoDup_app. split; [done|]. split; [|by apply NoDup_singleton].
  intros k' Hk' ->%list_elem_of_singleton. apply list_elem_of_omap in Hk' as (y & Hy & Ey).
  by eapply Hx.
Qed.

(** Rows that are told apart by another unique key. *)
Lemma unique_intro {I} (id : A -> I) l :
  unique (fun a => Some (id a)) l ->
  (forall x y k, x ∈ l -> y ∈ l -> index x = Some k -> index y = Some k -> id x = id y) ->
  unique index l.
Proof.
  unfold unique. induction l as [|a l IH]; csimpl; [intros; constructor|].
  intros [Hn Hl]%NoDup_cons Hk.
  assert (IH' : NoDup (omap index l)).
  { apply IH; [done|]. intros x y k Hx Hy. apply Hk; by right. }
  destruct (index a) as [k|] eqn:Ea; [|done]. apply NoDup_cons. split; [|done].
  intros Hin. apply list_elem_of_omap in Hin as (y & Hy & Ey). apply Hn. apply list_elem_of_omap.
  exists y. split; [done|]. f_equal. symmetry. apply (Hk a y k); [left|by right|done|done].
Qed.

(** Exactly one row satisfies a condition that fixes its key. *)
Lemma matching_exactly_one (P : A -> Prop) `{forall a, Decision (P a)} k x l :
  unique index l -> x ∈ l -> P x -> (forall y, y ∈ l -> P y -> index y = Some k) -> matching P l = 1.
Proof.
  intros Hu Hx HP Hk. unfold matching.
  assert (Hf : forall y, y ∈ filter P l -> index y = Some k).
  { intros y [HPy Hy]%list_elem_of_filter. auto. }
  assert (Hin : x ∈ filter P l) by (by apply list_elem_of_filter).
  pose proof (unique_filter P l Hu) as Hn. unfold unique in Hn.
  destruct (filter P l) as [|y [|z l']]; simpl in *; [by apply elem_of_nil in Hin|done|].
  rewrite (Hf y), (Hf z) in Hn by (repeat constructor).
  apply NoDup_cons in Hn as [Hn _]. destruct Hn. left.
Qed.

Lemma matching_zero (P : A -> Prop) `{forall a, Decision (P a)} l :
  (forall x, x ∈ l -> ~ P x) -> matching P l = 0.
Proof.
  intros Hn. unfold matching. destruct (filter P l) as [|x l'] eqn:E; [done|].
  assert (Hin : x ∈ filter P l) by (rewrite E; left).
  apply list_elem_of_filter in Hin as [??]. by destruct (Hn x).
Qed.

(** At most one row satisfies a condition that fixes its key. *)
Lemma matching_one (P : A -> Prop) `{forall a, Decision (P a)} k l :
  unique index l -> (forall x, x ∈ l -> P x -> index x = Some k) -> matching P l <= 1.
Proof.
  intros Hu Hk. unfold matching.
  assert (Hf : forall x, x ∈ filter P l -> index x = Some k).
  { intros x [HP Hx]%list_elem_of_filter. auto. }
  pose proof (unique_filter P l Hu) as Hn. unfold unique in Hn.
  destruct (filter P l) as [|x [|y l']]; simpl in *; [lia..|].
  rewrite (Hf x), (Hf y) in Hn by (repeat constructor).
  apply NoDup_cons in Hn as [Hn _]. destruct Hn. left.
Qed.
End indexes.

Lemma elem_of_update_where {A} (P : A -> Prop) `{forall a, Decision (P a)} f l x :
  x ∈ update_where P f l <-> exists y, y ∈ l /\ x = if decide (P y) then f y else y.
Proof. unfold update_where. rewrite list_elem_of_fmap. naive_solver. Qed.

Lemma filter_update_where {A} (P Q : A -> Prop) `{forall a, Decision (P a)} `{forall a, Decision (Q a)}
    f l :
  (forall a, P a -> Q (f a) <-> Q a) ->
  filter Q (update_where P f l) = update_where P f (filter Q l).
Proof.
  intros Hf. unfold update_where. induction l as [|a l IH]; simpl; [done|].
  rewrite !filter_cons, IH. destruct (decide (P a)) as [HP|HP]; [|by destruct (decide (Q a)); simpl; rewrite ?decide_False by done].
  destruct (decide (Q a)), (decide (Q (f a))); simpl; rewrite ?decide_True by done; try done;
    by destruct (Hf a HP); tauto.
Qed.

Lemma update_where_none {A} (P : A -> Prop) `{forall a, Decision (P a)} f l :
  (forall a, a ∈ l -> ~ P a) -> update_where P f l = l.
Proof.
  intros Hn. unfold update_where. induction l as [|a l IH]; simpl; [done|].
  rewrite decide_False by (apply Hn; left). f_equal. apply IH. intros b Hb. apply Hn. by right.
Qed.

(** ** Lemmas: what each kind of statement needs to satisfy the constraints *)

Lemma omap_update_where {A B} (P : A -> Prop) `{forall a, Decision (P a)} f (g : A -> option B) l :
  (forall a, g (f a) = g a) -> omap g (update_where P f l) = omap g l.
Proof.
  intros Hg. unfold update_where. induction l as [|a l IH]; csimpl; [done|].
  rewrite IH. by destruct (decide (P a)); rewrite ?Hg.
Qed.

Lemma map_update_where {A B} (P : A -> Prop) `{forall a, Decision (P a)} f (g : A -> B) l :
  (forall a, g (f a) = g a) -> map g (update_where P f l) = map g l.
Proof.
  intros Hg. unfold update_where. induction l as [|a l IH]; simpl; [done|].
  rewrite IH. by destruct (decide (P a)); rewrite ?Hg.
Qed.

Lemma Forall_update_where {A} (P : A -> Prop) `{forall a, Decision (P a)} f (Q : A -> Prop) l :
  (forall a, Q a -> Q (f a)) -> Forall Q l -> Forall Q (update_where P f l).
Proof.
  intros Hf Hl. unfold update_where. apply Forall_map. eapply Forall_impl; [exact Hl|].
  intros a Ha. simpl. destruct (decide (P a)); auto.
Qed.

Lemma unique_update_where {A K} (index : A -> option K) (P : A -> Prop) `{forall a, Decision (P a)} f l :
  (forall a, index (f a) = index a) -> unique index l -> unique index (update_where P f l).
Proof. intros Hi. unfold unique. by rewrite omap_update_where. Qed.

Lemma Forall_filter {A} (P : A -> Prop) `{forall a, Decision (P a)} (Q : A -> Prop) l :
  Forall Q l -> Forall Q (filter P l).
Proof. rewrite !Forall_forall. intros Hl x [_ Hx]%list_elem_of_filter. auto. Qed.

(** What an update of a version keeps. *)
Definition same_identity (v v' : VersionRow) : Prop :=
  v_id v = v_id v' /\ v_bucket v = v_bucket v' /\ v_key v = v_key v' /\
  v_version_id v = v_version_id v' /\ v_kind v = v_kind v' /\ v_object_id v = v_object_id v' /\
  v_sequence v = v_sequence v'.

Lemma update_versions_constraints db (P : VersionRow -> Prop) `{forall v, Decision (P v)} f :
  constraints db -> (forall v, same_identity (f v) v) ->
  unique v_latest_index (update_where P f (versions db)) ->
  constraints (set_versions (update_where P f (versions db)) db).
Proof.
  intros (Hb & Ho & (V1 & V2 & V3 & V4 & V5 & V6 & V7 & V8) & Hp & Hr & Hf) Hid Hl.
  assert (Hown : version_owners (set_versions (update_where P f (versions db)) db) = version_owners db).
  { apply omap_update_where. intros v. by destruct (Hid v) as (-> & _ & _ & _ & _ & -> & _). }
  split; [done|]. split; [done|]. split.
  - split_and!; try done; simpl.
    1-4: apply unique_update_where; [|done]; intros v; 
      unfold v_sequence_index, v_null_slot_index, v_public_id_index;
      destruct (Hid v) as (E1 & E2 & E3 & E4 & E5 & E6 & E7); by rewrite ?E1, ?E2, ?E3, ?E4, ?E7.
    all: apply Forall_update_where; [|done]; intros v;
      destruct (Hid v) as (E1 & E2 & E3 & E4 & E5 & E6 & E7); unfold version_check;
      by rewrite ?E2, ?E5, ?E6.
  - split; [done|]. unfold residencies_ok, references_ok. rewrite Hown. by split.
Qed.

Lemma delete_rows_constraints db (P : VersionRow -> Prop) `{forall v, Decision (P v)} :
  constraints db -> constraints (delete_rows P db).
Proof.
  intros (Hb & Ho & (V1 & V2 & V3 & V4 & V5 & V6 & V7 & V8) & Hp & (R1 & R2 & R3 & R4 & R5) &
    (F1 & F2 & F3 & F4 & F5)).
  split; [done|]. split; [done|]. split; [|split; [done|split]].
  - split_and!; simpl; try (by apply unique_filter); by apply Forall_filter.
  - split_and!; simpl; try (by apply unique_filter); try (by apply Forall_filter).
    apply Forall_forall. intros r Hr. by apply list_elem_of_filter in Hr as [? _].
  - split_and!; simpl; try (by apply unique_filter); try (by apply Forall_filter).
    apply Forall_forall. intros r Hr. by apply list_elem_of_filter in Hr as [? _].
Qed.

Lemma delete_references_constraints db (P : ReferenceRow -> Prop) `{forall r, Decision (P r)} :
  constraints db -> constraints (set_references (filter P (references db)) db).
Proof.
  intros (Hb & Ho & Hv & Hp & Hr & (F1 & F2 & F3 & F4 & F5)). do 5 (split; [done|]).
  split_and!; simpl; try (by apply unique_filter); by apply Forall_filter.
Qed.

Lemma insert_version_constraints db v :
  constraints db ->
  version_check v -> v_bucket v ∈ map b_name (buckets db) ->
  (forall id, v_object_id v = Some id -> id ∈ map o_id (objects db)) ->
  (forall w, w ∈ versions db -> v_id w <> v_id v) ->
  (forall w, w ∈ versions db -> v_bucket w = v_bucket v -> v_key w = v_key v ->
     v_sequence w <> v_sequence v /\ v_version_id w <> v_version_id v /\
     (v_is_latest v = true -> v_is_latest w = false)) ->
  constraints (set_versions (versions db ++ [v]) db).
Proof.
  intros (Hb & Ho & (V1 & V2 & V3 & V4 & V5 & V6 & V7 & V8) & Hp & (R1 & R2 & R3 & R4 & R5) &
    (F1 & F2 & F3 & F4 & F5)) Hc Hbk Hob Hid Hkey.
  assert (Hown : forall p, p ∈ version_owners db -> 
    p ∈ version_owners (set_versions (versions db ++ [v]) db)).
  { intros p. unfold version_owners; simpl. rewrite omap_app, elem_of_app. by left. }
  split; [done|]. split; [done|]. split; [|split; [done|split]].
  - split_and!; simpl; try apply Forall_app; try apply unique_snoc; try done.
    + intros k w [= <-] Hw [= E]. by apply (Hid w).
    + unfold v_latest_index. intros k w Ev Hw. destruct (v_is_latest v) eqn:El; [|done].
      destruct (v_is_latest w) eqn:Ew; [|done]. intros Ek. simplify_eq.
      destruct (Hkey w) as (_ & _ & Hl); congruence || (rewrite Hl in Ew; done).
    + intros k w [= <-] Hw [= E1 E2 E3]. by destruct (Hkey w) as (? & _).
    + unfold v_null_slot_index. intros k w Ev Hw. destruct (v_version_id v) eqn:Ei; [done|].
      destruct (v_version_id w) eqn:Ew; [done|]. intros Ek. simplify_eq.
      destruct (Hkey w) as (_ & Hn & _); congruence.
    + unfold v_public_id_index. intros k w Ev Hw. destruct (v_version_id v) eqn:Ei; [|done].
      destruct (v_version_id w) eqn:Ew; [|done]. intros Ek. simplify_eq.
      destruct (Hkey w) as (_ & Hn & _); congruence.
    + split; [done|]. by constructor.
    + split; [done|]. by constructor.
    + split; [done|]. constructor; [|done]. destruct (v_object_id v); auto.
  - split_and!; try done. simpl. eapply Forall_impl; [exact R3|]. intros r Hr. by apply Hown.
  - split_and!; try done. simpl. eapply Forall_impl; [exact F3|]. intros r Hr. by apply Hown.
Qed.

Lemma update_objects_constraints db (P : ObjectRow -> Prop) `{forall o, Decision (P o)} f :
  constraints db ->
  (forall o, o_id (f o) = o_id o /\ o_bucket (f o) = o_bucket o /\ o_cid (f o) = o_cid o) ->
  unique o_latest_index (update_where P f (objects db)) ->
  constraints (set_objects (update_where P f (objects db)) db).
Proof.
  intros (Hb & (O1 & O2 & O3) & (V1 & V2 & V3 & V4 & V5 & V6 & V7 & V8) & Hp & Hr & Hf) Hid Hl.
  assert (Hids : map o_id (update_where P f (objects db)) = map o_id (objects db))
    by (apply map_update_where; intros o; by destruct (Hid o)).
  assert (Hc : object_contents (set_objects (update_where P f (objects db)) db) = object_contents db)
    by (apply map_update_where; intros o; by destruct (Hid o) as (-> & _ & ->)).
  split; [done|]. split; [|split; [|split; [done|]]].
  - split_and!; simpl; [|done|].
    + apply unique_update_where; [|done]. intros o. by destruct (Hid o) as [-> _].
    + apply Forall_update_where; [|done]. intros o. by destruct (Hid o) as (_ & -> & _).
  - unfold versions_ok; simpl. rewrite Hids. done.
  - unfold residencies_ok, references_ok. rewrite Hc. done.
Qed.

Lemma insert_object_constraints db o :
  constraints db -> o_is_latest o = false -> o_bucket o ∈ map b_name (buckets db) ->
  o_id o ∉ map o_id (objects db) -> constraints (set_objects (objects db ++ [o]) db).
Proof.
  intros (Hb & (O1 & O2 & O3) & (V1 & V2 & V3 & V4 & V5 & V6 & V7 & V8) & Hp &
    (R1 & R2 & R3 & R4 & R5) & (F1 & F2 & F3 & F4 & F5)) Hl Hbk Hid.
  assert (Hids : forall i, i ∈ map o_id (objects db) -> i ∈ map o_id (objects db ++ [o]))
    by (intros i; rewrite map_app, elem_of_app; by left).
  assert (Hc : forall p, p ∈ object_contents db -> p ∈ object_contents (set_objects (objects db ++ [o]) db))
    by (intros p; unfold object_contents; simpl; rewrite map_app, elem_of_app; by left).
  split; [done|]. split; [|split; [|split; [done|split]]].
  - split_and!; simpl.
    + apply unique_snoc; [done|]. intros k y [= <-] Hy [= E]. apply Hid. rewrite <- E.
      by apply list_elem_of_fmap_2.
    + apply unique_snoc; [done|]. unfold o_latest_index at 1. by rewrite Hl.
    + apply Forall_app. split; [done|]. by constructor.
  - split_and!; try done. simpl. eapply Forall_impl; [exact V8|]. intros v.
    simpl. destruct (v_object_id v); [apply Hids|done].
  - split_and!; try done. eapply Forall_impl; [exact R4|]. intros r. apply Hc.
  - split_and!; try done. eapply Forall_impl; [exact F4|]. intros r. apply Hc.
Qed.

Lemma insert_physical_constraints db p :
  constraints db -> physical_check p -> (p_tier p, p_cid p) ∉ physical_places db ->
  constraints (set_physicals (physicals db ++ [p]) db).
Proof.
  intros (Hb & Ho & Hv & (P1 & P2) & (R1 & R2 & R3 & R4 & R5) & (F1 & F2 & F3 & F4 & F5)) Hc Hn.
  assert (Hpl : forall q, q ∈ physical_places db ->
    q ∈ physical_places (set_physicals (physicals db ++ [p]) db))
    by (intros q; unfold physical_places; simpl; rewrite map_app, elem_of_app; by left).
  do 3 (split; [done|]). split; [|split].
  - split; simpl.
    + apply unique_snoc; [done|]. intros k y [= <-] Hy [= E1 E2]. apply Hn. rewrite <- E1, <- E2.
      by apply (list_elem_of_fmap_2 (fun p => (p_tier p, p_cid p))).
    + apply Forall_app. split; [done|]. by constructor.
  - split_and!; try done. eapply Forall_impl; [exact R5|]. intros r. apply Hpl.
  - split_and!; try done. eapply Forall_impl; [exact F5|]. intros r. apply Hpl.
Qed.

Lemma update_physicals_constraints db (P : PhysicalRow -> Prop) `{forall p, Decision (P p)} f :
  constraints db ->
  (forall p, p_tier (f p) = p_tier p /\ p_cid (f p) = p_cid p) ->
  (forall p, physical_check p -> physical_check (f p)) ->
  constraints (set_physicals (update_where P f (physicals db)) db).
Proof.
  intros (Hb & Ho & Hv & (P1 & P2) & Hr & Hf) Hk Hc.
  assert (Hpl : physical_places (set_physicals (update_where P f (physicals db)) db) = physical_places db)
    by (apply map_update_where; intros p; by destruct (Hk p) as [-> ->]).
  do 3 (split; [done|]). split.
  - split; simpl; [|by apply Forall_update_where].
    apply unique_update_where; [|done]. intros p. by destruct (Hk p) as [-> ->].
  - unfold residencies_ok, references_ok. by rewrite Hpl.
Qed.

Lemma insert_residency_constraints db r :
  constraints db -> residency_check r ->
  (forall r', r' ∈ residencies db -> r_version_row_id r' <> r_version_row_id r) ->
  (r_version_row_id r, r_object_id r) ∈ version_owners db ->
  (r_object_id r, r_cid r) ∈ object_contents db ->
  (r_primary_tier r, r_cid r) ∈ physical_places db ->
  constraints (set_residencies (residencies db ++ [r]) db).
Proof.
  intros (Hb & Ho & Hv & Hp & (R1 & R2 & R3 & R4 & R5) & Hf) Hc Hn H1 H2 H3.
  do 4 (split; [done|]). split; [|done]. split_and!; simpl.
  - apply unique_snoc; [done|]. intros k y [= <-] Hy [= E]. by apply (Hn y).
  - apply Forall_app. split; [done|]. by constructor.
  - apply Forall_app. split; [done|]. by constructor.
  - apply Forall_app. split; [done|]. by constructor.
  - apply Forall_app. split; [done|]. by constructor.
Qed.

Lemma insert_reference_constraints db r :
  constraints db -> reference_check r -> reference_key r ∉ map reference_key (references db) ->
  (ref_version_row_id r, ref_object_id r) ∈ version_owners db ->
  (ref_object_id r, ref_cid r) ∈ object_contents db ->
  (ref_tier r, ref_cid r) ∈ physical_places db ->
  constraints (set_references (references db ++ [r]) db).
Proof.
  intros (Hb & Ho & Hv & Hp & Hr & (F1 & F2 & F3 & F4 & F5)) Hc Hn H1 H2 H3.
  do 5 (split; [done|]). split_and!; simpl.
  - apply unique_snoc; [done|]. intros k y Ek Hy E. apply Hn.
    replace (reference_key r) with (reference_key y) by congruence. by apply list_elem_of_fmap_2.
  - apply Forall_app. split; [done|]. by constructor.
  - apply Forall_app. split; [done|]. by constructor.
  - apply Forall_app. split; [done|]. by constructor.
  - apply Forall_app. split; [done|]. by constructor.
Qed.

(** ** Lemmas: rows by primary key *)

Lemma find_by_key {A K} (key : A -> K) `{EqDecision K} (l : list A) k x :
  unique (fun a => Some (key a)) l ->
  head (filter (fun a => key a = k) l) = Some x <-> x ∈ l /\ key x = k.
Proof.
  intros Hu. split; [apply (head_filter_elem (fun a => key a = k))|].
  intros [Hx Hk]. apply head_filter_one; [done..|].
  intros y Hy Ey. eapply (unique_inj _ _ _ _ k Hu); by rewrite ?Ey, ?Hk.
Qed.

Section by_primary_key.
Context (db : Db) (Hdb : constraints db).

Lemma find_object_ok id o : find_object id db = Some o <-> o ∈ objects db /\ o_id o = id.
Proof. apply find_by_key. by destruct Hdb as (_ & (? & _) & _). Qed.

Lemma find_version_ok id v : find_version id db = Some v <-> v ∈ versions db /\ v_id v = id.
Proof. apply find_by_key. by destruct Hdb as (_ & _ & (? & _) & _). Qed.

Lemma find_residency_ok id r :
  find_residency id db = Some r <-> r ∈ residencies db /\ r_version_row_id r = id.
Proof. apply find_by_key. by destruct Hdb as (_ & _ & _ & _ & (? & _) & _). Qed.

Lemma unique_bucket_names : unique (fun b => Some (b_name b)) (buckets db).
Proof.
  destruct Hdb as ((Hb & _) & _). unfold unique.
  assert (omap (fun a => Some (b_name a)) (buckets db) = map b_name (buckets db)) as ->; [|done].
  clear. induction (buckets db) as [|b bs IH]; csimpl; [done|]. by rewrite IH.
Qed.

Lemma find_bucket_ok name b : find_bucket name db = Some b <-> b ∈ buckets db /\ b_name b = name.
Proof. apply find_by_key, unique_bucket_names. Qed.

Lemma find_physical_ok tier cid p :
  find_physical tier cid db = Some p <-> p ∈ physicals db /\ p_tier p = tier /\ p_cid p = cid.
Proof.
  split; [apply (head_filter_elem (fun p => p_tier p = tier /\ p_cid p = cid))|].
  intros (Hp & Ht & Hc). apply head_filter_one; [done..|]. intros q Hq [Et Ec].
  destruct Hdb as (_ & _ & _ & (Hu & _) & _).
  apply (unique_inj _ _ q p (tier, cid) Hu); by rewrite ?Et, ?Ec, ?Ht, ?Hc.
Qed.

Lemma find_physical_some tier cid :
  (tier, cid) ∈ physical_places db -> exists p, find_physical tier cid db = Some p /\ p ∈ physicals db.
Proof.
  intros Hp. apply list_elem_of_fmap in Hp as (p & [= -> ->] & Hp).
  exists p. split; [|done]. by apply find_physical_ok.
Qed.

Lemma version_owner_iff id oid :
  (id, oid) ∈ version_owners db <->
  exists v, v ∈ versions db /\ v_id v = id /\ v_object_id v = Some oid.
Proof.
  unfold version_owners. rewrite list_elem_of_omap. split.
  - intros (v & Hv & E). destruct (v_object_id v) as [o|] eqn:Eo; simplify_eq/=. eauto.
  - intros (v & Hv & <- & E). exists v. by rewrite E.
Qed.
End by_primary_key.

(** ** Lemmas: statements that succeed *)

Section statements.
Context (db : Db).

Lemma update_objects_ok (P : ObjectRow -> Prop) `{forall o, Decision (P o)} f :
  constraints (set_objects (update_where P f (objects db)) db) ->
  update_objects P f db =
  Ok (matching P (objects db), set_objects (update_where P f (objects db)) db).
Proof. intros. unfold update_objects, tx_bind, reads. simpl. by rewrite exec_ok. Qed.

Lemma update_versions_ok (P : VersionRow -> Prop) `{forall v, Decision (P v)} f :
  constraints (set_versions (update_where P f (versions db)) db) ->
  update_versions P f db =
  Ok (matching P (versions db), set_versions (update_where P f (versions db)) db).
Proof. intros. unfold update_versions, tx_bind, reads. simpl. by rewrite exec_ok. Qed.

Lemma update_physicals_ok (P : PhysicalRow -> Prop) `{forall p, Decision (P p)} f :
  constraints (set_physicals (update_where P f (physicals db)) db) ->
  update_physicals P f db =
  Ok (matching P (physicals db), set_physicals (update_where P f (physicals db)) db).
Proof. intros. unfold update_physicals, tx_bind, reads. simpl. by rewrite exec_ok. Qed.

Lemma delete_versions_ok (P : VersionRow -> Prop) `{forall v, Decision (P v)} :
  constraints db -> delete_versions P db = Ok (matching P (versions db), delete_rows P db).
Proof.
  intros. unfold delete_versions, tx_bind, reads. simpl.
  by rewrite exec_ok by by apply delete_rows_constraints.
Qed.

Lemma delete_references_ok (P : ReferenceRow -> Prop) `{forall r, Decision (P r)} :
  constraints db ->
  delete_references P db =
  Ok (matching P (references db),
      set_references (filter (fun r => ~ P r) (references db)) db).
Proof.
  intros. unfold delete_references, tx_bind, reads. simpl.
  by rewrite exec_ok by by apply delete_references_constraints.
Qed.
End statements.
