(* ===== verification/ObjectStore.v ===== *)
(** * Buckets and objects ([src/store/bucket.rs], [src/store/object.rs])

    The versioning state of a bucket, the immutable object rows and the projection of the current
    object of a key. *)

From Stdlib Require Import ZArith Lia.
From stdpp Require Import prelude strings list.
From S2P Require Import Prelude Errors VersionModel Database.

#[local] Open Scope Z_scope.

(** ** Buckets *)

Definition bucket_get (name : string) : Tx BucketRow :=
  let! b := reads (find_bucket name) in
  lift (ok_or (NoSuchBucket name) b).

Definition bucket_exists (name : string) (db : Db) : bool := is_some (find_bucket name db).

(** Any constraint the insertion violates is reported as an existing bucket; [clock] is
    [Utc::now()]. *)
Definition bucket_create (clock : Z) (name : string) (owner : option string) : Tx unit :=
  let! present := reads (bucket_exists name) in
  fail_if present with BucketAlreadyExists name else
  fun db => map_err (fun _ => BucketAlreadyExists name)
    (exec (fun db => set_buckets (buckets db ++ [{| b_name := name; b_created_at := clock;
       b_owner := owner; b_versioning_status := None |}]) db) db).

Definition get_versioning_state (bucket_name : string) : Tx BucketVersioningState :=
  let! bucket := bucket_get bucket_name in
  lift (versioning_from_db_value (b_versioning_status bucket)).

(** On SQLite the bucket row is rewritten with its own values, on PostgreSQL it is locked. *)
Definition lock_bucket_row_for_ownership (bucket_name : string) : Tx unit :=
  let! updated := update_buckets (fun b => b_name b = bucket_name) (fun b => b) in
  if updated =? 1 then tx_ret tt else tx_err (NoSuchBucket bucket_name).

Definition lock_versioning_state (bucket_name : string) : Tx BucketVersioningState :=
  let! _ := lock_bucket_row_for_ownership bucket_name in
  get_versioning_state bucket_name.

Definition with_status (status : string) (b : BucketRow) : BucketRow :=
  {| b_name := b_name b; b_created_at := b_created_at b; b_owner := b_owner b;
     b_versioning_status := Some status |}.

Definition set_versioning_state (bucket_name : string) (state : BucketVersioningState) : Tx unit :=
  let! status := lift (ok_or (InvalidArgument "versioning status must be Enabled or Suspended")
                         (versioning_as_db_value state)) in
  let! current := lock_versioning_state bucket_name in
  if bool_decide (current = state) then tx_ret tt else
  let! updated := update_buckets (fun b => b_name b = bucket_name) (with_status status) in
  fail_if negb (updated =? 1) with NoSuchBucket bucket_name else
  tx_ret tt.

(** ** Objects *)

(** [LatestObjectRow] is an object row without its [is_latest] flag. *)
Record LatestObjectRow : Type := {
  lo_id : string;
  lo_bucket : string;
  lo_key : string;
  lo_cid : string;
  lo_size : Z;
  lo_content_type : option string;
  lo_etag : string;
  lo_metadata : option string;
  lo_encrypted : bool;
  lo_key_wrap : option string;
  lo_sse_c_key_fingerprint : option string;
  lo_multipart : bool;
  lo_created_at : Z
}.

Definition object_row (row : LatestObjectRow) (is_latest : bool) : ObjectRow :=
  {| o_id := lo_id row; o_bucket := lo_bucket row; o_key := lo_key row; o_cid := lo_cid row;
     o_size := lo_size row; o_content_type := lo_content_type row; o_etag := lo_etag row;
     o_metadata := lo_metadata row; o_encrypted := lo_encrypted row; o_key_wrap := lo_key_wrap row;
     o_sse_c_key_fingerprint := lo_sse_c_key_fingerprint row; o_multipart := lo_multipart row;
     o_is_latest := is_latest; o_created_at := lo_created_at row |}.

Definition o_set_latest (latest : bool) (o : ObjectRow) : ObjectRow :=
  {| o_id := o_id o; o_bucket := o_bucket o; o_key := o_key o; o_cid := o_cid o;
     o_size := o_size o; o_content_type := o_content_type o; o_etag := o_etag o;
     o_metadata := o_metadata o; o_encrypted := o_encrypted o; o_key_wrap := o_key_wrap o;
     o_sse_c_key_fingerprint := o_sse_c_key_fingerprint o; o_multipart := o_multipart o;
     o_is_latest := latest; o_created_at := o_created_at o |}.

(** [bucket = b AND key = k AND is_latest] *)
Definition o_current (b k : string) (o : ObjectRow) : Prop :=
  o_bucket o = b /\ o_key o = k /\ o_is_latest o = true.
#[export] Instance o_current_dec b k o : Decision (o_current b k o).
Proof. unfold o_current. apply _. Defined.

Definition get_by_id (object_id : string) : Tx ObjectRow :=
  let! o := reads (find_object object_id) in
  lift (ok_or (NoSuchKey object_id) o).

Definition get_latest (bucket key : string) : Tx ObjectRow :=
  let! o := reads (fun db => head (filter (o_current bucket key) (objects db))) in
  lift (ok_or (NoSuchKey (bucket +:+ "/" +:+ key)) o).

(** The error is a [DbErr::Custom], which [AppError::from] turns into a [Database] error. *)
Definition write_latest_in_transaction (row : LatestObjectRow) : Tx (option string) :=
  let! previous := reads (fun db =>
    head (filter (o_current (lo_bucket row) (lo_key row)) (objects db))) in
  let! updated := update_objects (o_current (lo_bucket row) (lo_key row)) (o_set_latest false) in
  fail_if negb (updated =? if is_some previous then 1 else 0)
    with Database "latest object changed during replacement" else
  let! _ := insert_object (object_row row true) in
  tx_ret (o_id <$> previous).

Definition insert_immutable_in_transaction (row : LatestObjectRow) : Tx ObjectRow :=
  let! _ := insert_object (object_row row false) in
  get_by_id (lo_id row).

(** The update only fills an empty fingerprint of an encrypted object with no wrapped key. *)
Definition claimable (object_id : string) (o : ObjectRow) : Prop :=
  o_id o = object_id /\ o_encrypted o = true /\ o_key_wrap o = None /\
  o_sse_c_key_fingerprint o = None.
#[export] Instance claimable_dec id o : Decision (claimable id o).
Proof. unfold claimable. apply _. Defined.

Definition o_set_fingerprint (fingerprint : string) (o : ObjectRow) : ObjectRow :=
  {| o_id := o_id o; o_bucket := o_bucket o; o_key := o_key o; o_cid := o_cid o;
     o_size := o_size o; o_content_type := o_content_type o; o_etag := o_etag o;
     o_metadata := o_metadata o; o_encrypted := o_encrypted o; o_key_wrap := o_key_wrap o;
     o_sse_c_key_fingerprint := Some fingerprint; o_multipart := o_multipart o;
     o_is_latest := o_is_latest o; o_created_at := o_created_at o |}.

Definition claim_sse_c_key_fingerprint (object_id candidate : string) : Tx ObjectRow :=
  let! _ := update_objects (claimable object_id) (o_set_fingerprint candidate) in
  get_by_id object_id.

Definition set_only_latest (bucket key : string) (object_id : option string) : Tx unit :=
  let! _ :=
    match object_id with
    | Some object_id =>
      let! selected := get_by_id object_id in
      fail_if negb (String.eqb (o_bucket selected) bucket) || negb (String.eqb (o_key selected) key)
        with InvalidArgument "selected object does not belong to the requested bucket/key" else
      tx_ret tt
    | None => tx_ret tt
    end in
  let! cleared := update_objects (o_current bucket key) (o_set_latest false) in
  fail_if 1 <? cleared with Internal "multiple current object projections for one key" else
  let! expected_current :=
    match object_id with
    | Some object_id =>
      let! updated := update_objects (fun o => o_id o = object_id /\ o_bucket o = bucket /\
                                               o_key o = key /\ o_is_latest o = false)
                        (o_set_latest true) in
      fail_if negb (updated =? 1)
        with Internal "selected object changed while rebuilding current projection" else
      tx_ret 1
    | None => tx_ret 0
    end in
  let! current_count := reads (fun db => matching (o_current bucket key) (objects db)) in
  fail_if negb (current_count =? expected_current)
    with Internal "current object projection verification failed" else
  tx_ret tt.

Definition delete_latest_if_present (bucket key : string) : Tx bool :=
  let! affected := update_objects (o_current bucket key) (o_set_latest false) in
  tx_ret (0 <? affected).

Definition delete_latest (bucket key : string) : Tx unit :=
  let! deleted := delete_latest_if_present bucket key in
  if deleted : bool then tx_ret tt else tx_err (NoSuchKey (bucket +:+ "/" +:+ key)).

(** ** The current-object projection of a key *)

(** The state [set_only_latest] leaves: exactly the selected object of the key is current. *)
Definition project_current (b k : string) (object_id : option string) (o : ObjectRow) : ObjectRow :=
  if decide (o_bucket o = b /\ o_key o = k)
  then o_set_latest (bool_decide (object_id = Some (o_id o))) o else o.
Definition projected (b k : string) (object_id : option string) (db : Db) : Db :=
  set_objects (map (project_current b k object_id) (objects db)) db.

Lemma o_set_latest_same o : o_set_latest (o_is_latest o) o = o.
Proof. by destruct o. Qed.

Lemma o_set_latest_twice x y o : o_set_latest x (o_set_latest y o) = o_set_latest x o.
Proof. done. Qed.

Lemma projected_eq b k object_id db :
  map (project_current b k object_id) (objects db) =
  match object_id with
  | Some id =>
    update_where (fun o => o_id o = id /\ o_bucket o = b /\ o_key o = k /\ o_is_latest o = false)
      (o_set_latest true) (update_where (o_current b k) (o_set_latest false) (objects db))
  | None => update_where (o_current b k) (o_set_latest false) (objects db)
  end.
Proof.
  assert (Hclear : forall o, (if decide (o_current b k o) then o_set_latest false o else o) =
    if decide (o_bucket o = b /\ o_key o = k) then o_set_latest false o else o).
  { intros o. destruct (decide (o_current b k o)) as [Hc|Hc].
    - rewrite decide_True; [done|]. unfold o_current in Hc. tauto.
    - case_decide as Hk; [|done]. destruct (o_is_latest o) eqn:E.
      + destruct Hc. unfold o_current. tauto.
      + by rewrite <- E, o_set_latest_same. }
  unfold update_where. destruct object_id as [id|]; [rewrite map_map|]; apply map_ext; intros o;
    rewrite Hclear; unfold project_current.
  - case_decide as Hk; simpl; [|rewrite decide_False; naive_solver].
    destruct (decide (o_id o = id)) as [<-|Hne].
    + rewrite decide_True by (simpl; tauto). by rewrite bool_decide_true.
    + rewrite decide_False by (simpl; tauto). rewrite bool_decide_false; [done|congruence].
  - case_decide; [|done]. by rewrite bool_decide_false.
Qed.

Section set_only_latest.
Context (db : Db) (b k : string) (Hdb : constraints db).

Lemma cleared_constraints :
  constraints (set_objects (update_where (o_current b k) (o_set_latest false) (objects db)) db).
Proof.
  apply update_objects_constraints; [done|done|].
  destruct Hdb as (_ & (_ & Hl & _) & _). apply unique_map; [|done].
  intros o _. case_decide; [by right|by left].
Qed.

Lemma current_index o : o_current b k o -> o_latest_index o = Some (b, k).
Proof. intros (<- & <- & E). unfold o_latest_index. by rewrite E. Qed.

Lemma project_current_id object_id o : o_id (project_current b k object_id o) = o_id o.
Proof. unfold project_current. by case_decide. Qed.

Lemma project_current_latest object_id o :
  o_latest_index (project_current b k object_id o) =
  if decide (o_bucket o = b /\ o_key o = k)
  then if bool_decide (object_id = Some (o_id o)) then Some (b, k) else None
  else o_latest_index o.
Proof.
  unfold project_current, o_latest_index. case_decide as Hk; [|done]. simpl.
  destruct Hk as [-> ->]. by case_bool_decide.
Qed.

Lemma projected_unique object_id :
  unique o_latest_index (map (project_current b k object_id) (objects db)).
Proof.
  destruct Hdb as (_ & (Hi & Hl & _) & _).
  apply (unique_intro _ o_id).
  - apply unique_map; [|done]. intros o _. left. unfold project_current. by case_decide.
  - intros x y kk Hx Hy Ex Ey.
    apply list_elem_of_fmap in Hx as (ox & -> & Hx), Hy as (oy & -> & Hy).
    rewrite project_current_latest in Ex, Ey.
    rewrite !project_current_id.
    assert (Hother : forall o, ~ (o_bucket o = b /\ o_key o = k) -> o_latest_index o <> Some (b, k))
      by (intros o Ho; unfold o_latest_index; destruct (o_is_latest o); naive_solver).
    destruct (decide (o_bucket ox = b /\ o_key ox = k)) as [Kx|Kx],
      (decide (o_bucket oy = b /\ o_key oy = k)) as [Ky|Ky].
    + repeat case_bool_decide; congruence.
    + case_bool_decide; [|done]. injection Ex as <-. by destruct (Hother oy Ky).
    + case_bool_decide; [|done]. injection Ey as <-. by destruct (Hother ox Kx).
    + f_equal. by eapply (unique_inj _ _ _ _ _ Hl).
Qed.

Lemma projected_constraints object_id : constraints (projected b k object_id db).
Proof.
  unfold projected.
  replace (map (project_current b k object_id) (objects db)) with
    (update_where (fun _ => True) (project_current b k object_id) (objects db))
    by (apply map_ext; intros; by rewrite decide_True).
  apply update_objects_constraints; [done| |].
  - intros o. unfold project_current. by case_decide.
  - replace (update_where (fun _ => True) (project_current b k object_id) (objects db)) with
      (map (project_current b k object_id) (objects db))
      by (apply map_ext; intros; by rewrite decide_True).
    apply projected_unique.
Qed.

(** [set_only_latest] succeeds when the selected object belongs to the key, and makes it the only
    current object of the key. *)
Lemma set_only_latest_spec object_id :
  (forall id, object_id = Some id ->
     exists o, o ∈ objects db /\ o_id o = id /\ o_bucket o = b /\ o_key o = k) ->
  set_only_latest b k object_id db = Ok (tt, projected b k object_id db).
Proof.
  intros Hsel. pose proof (projected_constraints object_id) as Hfinal. unfold projected in *.
  set (cleared := update_where (o_current b k) (o_set_latest false) (objects db)).
  assert (Hc : matching (o_current b k) (objects db) <= 1).
  { destruct Hdb as (_ & (_ & Hl & _) & _).
    eapply (matching_one _ _ _ _ Hl). intros o _. apply current_index. }
  assert (Hcl : forall o, o ∈ cleared -> o_bucket o = b -> o_key o = k -> o_is_latest o = false).
  { intros o Ho. apply elem_of_update_where in Ho as (o' & _ & ->). case_decide as Hn; [done|].
    destruct (o_is_latest o') eqn:E; [|done]. intros. destruct Hn. by split_and!. }
  pose proof (cleared_constraints) as Hcc. fold cleared in Hcc.
  unfold set_only_latest. destruct object_id as [id|].
  - destruct (Hsel id eq_refl) as (o & Ho & Eid & Eb & Ek).
    erewrite tx_bind_eq; [|unfold get_by_id, tx_bind, reads, lift; simpl;
      rewrite (proj2 (find_object_ok db Hdb id o)) by done; simpl;
      rewrite Eb, Ek, !String.eqb_refl; reflexivity].
    erewrite tx_bind_eq by (by apply update_objects_ok).
    rewrite (proj2 (Z.ltb_ge _ _)) by done.
    rewrite projected_eq in Hfinal |- *. fold cleared in Hfinal |- *.
    set (sel := fun o => o_id o = id /\ o_bucket o = b /\ o_key o = k /\ o_is_latest o = false) in *.
    assert (Hin : o_set_latest false o ∈ cleared).
    { apply elem_of_update_where. exists o. split; [done|]. case_decide as Hn; [done|].
      destruct (o_is_latest o) eqn:E; [destruct Hn; by split_and!|]. by rewrite <- E, o_set_latest_same. }
    assert (Hone : matching sel cleared = 1).
    { destruct Hcc as (_ & (Hi & _) & _).
      apply (matching_exactly_one _ _ id (o_set_latest false o) _ Hi); [done|by split_and!|].
      by intros y _ [-> _]. }
    erewrite tx_bind_eq.
    2: { erewrite tx_bind_eq by (apply (update_objects_ok (set_objects cleared db)); exact Hfinal).
         simpl. rewrite Hone. reflexivity. }
    unfold tx_bind, reads. simpl.
    rewrite (matching_exactly_one o_latest_index _ (b, k) (o_set_latest true (o_set_latest false o)));
      [done| | |by split_and!|by intros; apply current_index].
    + by destruct Hfinal as (_ & (_ & Hl & _) & _).
    + apply elem_of_update_where. eexists; split; [exact Hin|]. by rewrite decide_True by by split_and!.
  - erewrite tx_bind_eq by reflexivity.
    erewrite tx_bind_eq by (by apply update_objects_ok).
    rewrite (proj2 (Z.ltb_ge _ _)) by done. rewrite projected_eq. fold cleared.
    unfold tx_bind, reads. simpl. rewrite matching_zero; [done|].
    intros o Ho (Eb & Ek & El). by rewrite (Hcl o Ho Eb Ek) in El.
Qed.
End set_only_latest.

(** ** Claiming the SSE-C key fingerprint of an object *)

(** The fingerprint an object has after a claim. *)
Definition claimed_fingerprint (candidate : string) (o : ObjectRow) : option string :=
  match o_sse_c_key_fingerprint o with
  | Some f => Some f
  | None => if o_encrypted o && is_none (o_key_wrap o) then Some candidate else None
  end.

Definition after_claim (candidate : string) (o : ObjectRow) : ObjectRow :=
  if decide (claimable (o_id o) o) then o_set_fingerprint candidate o else o.

Definition claimed_db (id candidate : string) (db : Db) : Db :=
  set_objects (update_where (claimable id) (o_set_fingerprint candidate) (objects db)) db.

Lemma claim_run db o candidate :
  constraints db -> o ∈ objects db ->
  claim_sse_c_key_fingerprint (o_id o) candidate db =
    Ok (after_claim candidate o, claimed_db (o_id o) candidate db) /\
  constraints (claimed_db (o_id o) candidate db) /\
  after_claim candidate o ∈ objects (claimed_db (o_id o) candidate db).
Proof.
  intros Hc Ho.
  assert (Hc' : constraints (claimed_db (o_id o) candidate db)).
  { apply update_objects_constraints; [done..|]. apply unique_update_where; [done|]. by destruct Hc as (_ & (_ & ? & _) & _). }
  assert (Hin : after_claim candidate o ∈ objects (claimed_db (o_id o) candidate db)).
  { apply elem_of_update_where. by exists o. }
  split; [|done]. unfold claim_sse_c_key_fingerprint.
  erewrite tx_bind_eq by (by apply update_objects_ok). unfold get_by_id. erewrite tx_bind_eq by reflexivity.
  apply lift_eq. fold (claimed_db (o_id o) candidate db).
  rewrite (proj2 (find_object_ok _ Hc' (o_id o) (after_claim candidate o))); [done|].
  split; [done|]. unfold after_claim. by case_decide.
Qed.

(** A claim of an object that is not claimable changes nothing. *)
Lemma claim_settled db o candidate :
  constraints db -> o ∈ objects db -> ~ claimable (o_id o) o ->
  claim_sse_c_key_fingerprint (o_id o) candidate db = Ok (o, db).
Proof.
  intros Hc Ho Hn. destruct (claim_run db o candidate Hc Ho) as [-> _].
  unfold after_claim. rewrite decide_False by done. do 2 f_equal. unfold claimed_db.
  rewrite update_where_none; [by destruct db|]. intros x Hx Hcl. destruct Hc as (_ & (Hi & _) & _).
  assert (x = o) as ->; [|done]. destruct Hcl as [E _].
  by apply (unique_inj _ _ _ _ (o_id o) Hi); simpl; rewrite ?E.
Qed.

(** the first customer key used with a legacy SSE-C object is recorded and stays: a claim fills
    an empty fingerprint of an encrypted object that has no wrapped key, never changes one that is
    set, never gives one to an object that is not SSE-C, and returns the row as it then is, so that
    a later claim with another key sees the first one and changes nothing. *)
Theorem claim_first_writer_wins db o candidate :
  constraints db -> o ∈ objects db ->
  exists o' db',
    claim_sse_c_key_fingerprint (o_id o) candidate db = Ok (o', db') /\ constraints db' /\
    o_sse_c_key_fingerprint o' = claimed_fingerprint candidate o /\
    o_cid o' = o_cid o /\ o_id o' = o_id o /\
    forall second, claim_sse_c_key_fingerprint (o_id o) second db' = Ok (o', db').
Proof.
  intros Hc Ho. destruct (claim_run db o candidate Hc Ho) as (Hrun & Hc' & Hin).
  eexists _, _. split; [exact Hrun|]. split; [done|].
  assert (Hid : o_id (after_claim candidate o) = o_id o) by (unfold after_claim; by case_decide).
  split_and!; [|unfold after_claim; by case_decide|done|].
  - unfold after_claim, claimed_fingerprint. case_decide as Hcl.
    + destruct Hcl as (_ & -> & -> & ->). done.
    + destruct (o_sse_c_key_fingerprint o) eqn:Ef; [done|]. destruct (o_encrypted o) eqn:Ee, (o_key_wrap o) eqn:Ew; try done.
      destruct Hcl. by repeat split.
  - intros second. rewrite <- Hid at 1. apply claim_settled; [done..|]. rewrite Hid.
    unfold after_claim. case_decide as Hcl; [|done]. by intros (_ & _ & _ & ?).
Qed.
