(* ===== verification/ResidencyStore.v ===== *)
(** * Residency of content versions ([src/residency], [src/store/residency/references.rs])

    Which tier holds the bytes of a version, the references that keep a physical copy alive, and
    the read router that picks the Kubo client of a version from its residency. *)

From Stdlib Require Import ZArith Lia.
From stdpp Require Import prelude strings list.
From S2P Require Import Prelude Errors VersionModel Database ObjectStore.

#[local] Open Scope Z_scope.

(** ** Model *)

Inductive VerificationState : Type := VPending | VVerified | VFailed.
#[export] Instance VerificationState_eq_dec : EqDecision VerificationState.
Proof. solve_decision. Defined.

Definition verification_from_db_str (value : string) : AppResult VerificationState :=
  if String.eqb value "pending" then Ok VPending
  else if String.eqb value "verified" then Ok VVerified
  else if String.eqb value "failed" then Ok VFailed
  else Err (corrupt "unknown residency verification state").

Inductive PhysicalVerification : Type :=
| PhysPending
| PhysVerified (node_identity receipt : string).

Inductive ReferenceReason : Type := RetainedVersion | TransitionStaging | TransitionCleanupHold.
#[export] Instance ReferenceReason_eq_dec : EqDecision ReferenceReason.
Proof. solve_decision. Defined.

Definition reason_as_db_str (r : ReferenceReason) : string :=
  match r with
  | RetainedVersion => "retained_version"
  | TransitionStaging => "transition_staging"
  | TransitionCleanupHold => "transition_cleanup_hold"
  end.

Record VersionResidencyIdentity : Type := {
  vri_version_row_id : string;
  vri_object_id : string;
  vri_cid : string
}.

Record ResidencyLocation : Type := { loc_tier : KuboTier; loc_cid : string }.
#[export] Instance ResidencyLocation_eq_dec : EqDecision ResidencyLocation.
Proof. solve_decision. Defined.

Record PhysicalResidencySnapshot : Type := {
  ps_location : ResidencyLocation;
  ps_verification_state : VerificationState;
  ps_node_identity : option string;
  ps_verification_receipt : option string;
  ps_verified_at : option Z
}.

Record ResolvedVersionResidency : Type := {
  rvr_identity : VersionResidencyIdentity;
  rvr_primary : ResidencyLocation;
  rvr_storage_class : StorageClass;
  rvr_revision : Z;
  rvr_physical : PhysicalResidencySnapshot
}.

Definition OWNER_VERSION : string := "version".
Definition OWNER_TRANSITION : string := "transition".

(** ** Physical copies *)

Definition physical_snapshot (row : PhysicalRow) : AppResult PhysicalResidencySnapshot :=
  let? tier := tier_from_db_str (p_tier row) in
  let? verification_state := verification_from_db_str (p_verification_state row) in
  let valid_shape :=
    match verification_state with
    | VVerified =>
      is_some_and (fun value => negb (str_is_empty value)) (p_node_identity row)
      && is_some_and (fun value => negb (str_is_empty value)) (p_verification_receipt row)
      && is_some (p_verified_at row)
    | VPending | VFailed =>
      is_none (p_node_identity row) && is_none (p_verification_receipt row)
      && is_none (p_verified_at row)
    end in
  bail_if negb valid_shape with corrupt "invalid physical verification shape" else
  Ok {| ps_location := {| loc_tier := tier; loc_cid := p_cid row |};
        ps_verification_state := verification_state;
        ps_node_identity := p_node_identity row;
        ps_verification_receipt := p_verification_receipt row;
        ps_verified_at := p_verified_at row |}.

(** [tier = 'hot' AND cid = ? AND verification_state IN ('pending', 'failed')] *)
Definition unverified_hot (cid : string) (p : PhysicalRow) : Prop :=
  p_tier p = "hot"%string /\ p_cid p = cid /\
  (p_verification_state p = "pending"%string \/ p_verification_state p = "failed"%string).
#[export] Instance unverified_hot_dec cid p : Decision (unverified_hot cid p).
Proof. unfold unverified_hot. apply _. Defined.

Definition set_verified (node_identity receipt : string) (now : Z) (p : PhysicalRow) : PhysicalRow :=
  {| p_tier := p_tier p; p_cid := p_cid p; p_node_identity := Some node_identity;
     p_verification_state := "verified"; p_verification_receipt := Some receipt;
     p_verified_at := Some now; p_created_at := p_created_at p; p_updated_at := now |}.

Definition mark_physical_verified (cid node_identity receipt : string) (now : Z) : Tx unit :=
  let! updated := update_physicals (unverified_hot cid) (set_verified node_identity receipt now) in
  if updated =? 1 then tx_ret tt
  else tx_err (corrupt "hot physical verification compare-and-set failed").

Definition attach_physical_hot (cid : string) (verification : PhysicalVerification) (now : Z)
  : Tx unit :=
  let bad := InvalidArgument "verified residency requires node identity and receipt" in
  let! row := lift
    match verification with
    | PhysPending =>
      Ok {| p_tier := "hot"; p_cid := cid; p_node_identity := None;
            p_verification_state := "pending"; p_verification_receipt := None;
            p_verified_at := None; p_created_at := now; p_updated_at := now |}
    | PhysVerified node_identity receipt =>
      if negb (str_is_empty node_identity) && negb (str_is_empty receipt) then
        Ok {| p_tier := "hot"; p_cid := cid; p_node_identity := Some node_identity;
              p_verification_state := "verified"; p_verification_receipt := Some receipt;
              p_verified_at := Some now; p_created_at := now; p_updated_at := now |}
      else Err bad
    end in
  let! _ := insert_physical_or_nothing row in
  let! existing := reads (find_physical "hot" cid) in
  let! existing := lift (ok_or (corrupt "hot physical residency attach failed") existing) in
  match verification with
  | PhysPending => let! _ := lift (physical_snapshot existing) in tx_ret tt
  | PhysVerified node_identity receipt =>
    if String.eqb (p_verification_state existing) "verified"
       && bool_decide (p_node_identity existing = Some node_identity)
       && bool_decide (p_verification_receipt existing = Some receipt) then
      let! _ := lift (physical_snapshot existing) in tx_ret tt
    else if String.eqb (p_verification_state existing) "pending" then
      mark_physical_verified cid node_identity receipt now
    else tx_err (corrupt "conflicting hot physical verification receipt")
  end.

Definition apply_hot_publication_verification (cid : string) (verification : PhysicalVerification)
    (clock : Z) : Tx unit :=
  match verification with
  | PhysPending => tx_err (InvalidArgument "hot publication requires verified residency")
  | PhysVerified node_identity receipt =>
    fail_if str_is_empty node_identity || str_is_empty receipt
      with InvalidArgument "verified residency requires node identity and receipt" else
    let! existing := reads (find_physical "hot" cid) in
    let! existing := lift (ok_or (corrupt "hot publication frontier is missing") existing) in
    let! snapshot := lift (physical_snapshot existing) in
    match ps_verification_state snapshot with
    | VPending | VFailed => mark_physical_verified cid node_identity receipt clock
    | VVerified =>
      if bool_decide (ps_node_identity snapshot = Some node_identity)
         && bool_decide (ps_verification_receipt snapshot = Some receipt)
      then tx_ret tt
      else tx_err (corrupt "conflicting hot physical verification receipt")
    end
  end.

(** [cids.sort(); cids.dedup()] and one pending row per cid; the row locks and the maintenance
    checkpoints leave the tables unchanged. *)
Fixpoint dedup (l : list string) : list string :=
  match l with
  | x :: (y :: _) as l' => if String.eqb x y then dedup l' else x :: dedup l'
  | _ => l
  end.

Fixpoint attach_each (cids : list string) (now : Z) : Tx unit :=
  match cids with
  | [] => tx_ret tt
  | cid :: cids' => let! _ := attach_physical_hot cid PhysPending now in attach_each cids' now
  end.

Definition prepare_hot_publication_frontier (cids : list string) (clock : Z) : Tx unit :=
  attach_each (dedup (sort_by cmp cids)) clock.

(** ** Residency of a version *)

Definition validate_identity (identity : VersionResidencyIdentity) : AppResult unit :=
  bail_if str_is_empty (vri_version_row_id identity) || str_is_empty (vri_object_id identity)
          || str_is_empty (vri_cid identity)
    with InvalidArgument "residency identity fields must not be empty" else
  Ok tt.

Definition validate_existing_version_residency (existing : ResidencyRow)
    (identity : VersionResidencyIdentity) : AppResult unit :=
  if String.eqb (r_object_id existing) (vri_object_id identity)
     && String.eqb (r_cid existing) (vri_cid identity)
     && String.eqb (r_primary_tier existing) (tier_as_db_str Hot)
     && String.eqb (r_storage_class existing) (class_as_db_str Standard)
     && (0 <? r_revision existing)
  then Ok tt else Err (corrupt "conflicting version residency attach").

Definition lock_and_validate_version (identity : VersionResidencyIdentity)
  : Tx (VersionRow * ObjectRow) :=
  let! version := reads (find_version (vri_version_row_id identity)) in
  let! version := lift (ok_or (corrupt "residency owner version is missing") version) in
  fail_if negb (String.eqb (v_kind version) "object")
          || negb (bool_decide (v_object_id version = Some (vri_object_id identity)))
    with corrupt "delete marker or mismatched version cannot own residency" else
  let! object := reads (find_object (vri_object_id identity)) in
  let! object := lift (ok_or (corrupt "residency object is missing") object) in
  fail_if negb (String.eqb (o_cid object) (vri_cid identity))
          || negb (String.eqb (o_bucket object) (v_bucket version))
          || negb (String.eqb (o_key object) (v_key version))
    with corrupt "residency identity does not match immutable object metadata" else
  tx_ret (version, object).

Definition resolve_version_residency (version_row_id : string) : Tx ResolvedVersionResidency :=
  fail_if str_is_empty version_row_id with corrupt "empty version identity" else
  let! residency := reads (find_residency version_row_id) in
  let! residency := lift (ok_or (corrupt "content version has no residency") residency) in
  let! version := reads (find_version version_row_id) in
  let! version := lift (ok_or (corrupt "residency owner version is missing") version) in
  fail_if negb (String.eqb (v_kind version) "object")
          || negb (bool_decide (v_object_id version = Some (r_object_id residency)))
    with corrupt "residency owner is not the exact content version" else
  let! object := reads (find_object (r_object_id residency)) in
  let! object := lift (ok_or (corrupt "residency object is missing") object) in
  fail_if negb (String.eqb (o_cid object) (r_cid residency))
          || negb (String.eqb (o_bucket object) (v_bucket version))
          || negb (String.eqb (o_key object) (v_key version))
    with corrupt "residency identity does not match immutable object metadata" else
  let! tier := lift (tier_from_db_str (r_primary_tier residency)) in
  let! storage_class := lift (class_from_db_str (r_storage_class residency)) in
  fail_if negb (match tier, storage_class with
                | Hot, Standard | Cold, StandardIa => true
                | _, _ => false
                end) || (r_revision residency <=? 0)
    with corrupt "invalid primary residency" else
  let! physical := reads (find_physical (r_primary_tier residency) (r_cid residency)) in
  let! physical := lift (ok_or (corrupt "primary physical residency is missing") physical) in
  let! physical := lift (physical_snapshot physical) in
  tx_ret {| rvr_identity := {| vri_version_row_id := r_version_row_id residency;
                               vri_object_id := r_object_id residency; vri_cid := r_cid residency |};
            rvr_primary := {| loc_tier := tier; loc_cid := loc_cid (ps_location physical) |};
            rvr_storage_class := storage_class;
            rvr_revision := r_revision residency;
            rvr_physical := physical |}.

(** [clock] is the [database_now] of the call. *)
Definition attach_hot_in_transaction (identity : VersionResidencyIdentity)
    (verification : PhysicalVerification) (clock : Z) : Tx ResolvedVersionResidency :=
  let! _ := lift (validate_identity identity) in
  let! '(version, object) := lock_and_validate_version identity in
  let! _ := attach_physical_hot (vri_cid identity) verification clock in
  let! residency := reads (find_residency (vri_version_row_id identity)) in
  let! _ :=
    match residency with
    | Some existing => lift (validate_existing_version_residency existing identity)
    | None =>
      insert_residency {| r_version_row_id := v_id version; r_object_id := o_id object;
                          r_primary_tier := tier_as_db_str Hot;
                          r_storage_class := class_as_db_str Standard; r_cid := o_cid object;
                          r_revision := 1; r_created_at := clock; r_updated_at := clock |}
    end in
  let! _ := insert_reference_or_nothing
    {| ref_owner_kind := OWNER_VERSION; ref_owner_id := v_id version;
       ref_reason := reason_as_db_str RetainedVersion; ref_version_row_id := v_id version;
       ref_object_id := o_id object; ref_tier := tier_as_db_str Hot; ref_cid := o_cid object;
       ref_created_at := clock |} in
  resolve_version_residency (vri_version_row_id identity).

Definition retained_reference (version_row_id : string) (residency : ResidencyRow)
    (r : ReferenceRow) : Prop :=
  ref_owner_kind r = OWNER_VERSION /\ ref_owner_id r = version_row_id /\
  ref_reason r = reason_as_db_str RetainedVersion /\ ref_version_row_id r = version_row_id /\
  ref_object_id r = r_object_id residency /\ ref_tier r = r_primary_tier residency /\
  ref_cid r = r_cid residency.
#[export] Instance retained_reference_dec id residency r : Decision (retained_reference id residency r).
Proof. unfold retained_reference. apply _. Defined.

Definition release_version_reference_in_transaction (version_row_id : string) : Tx bool :=
  let! residency := reads (find_residency version_row_id) in
  let! residency := lift (ok_or (corrupt "cannot release a version with no residency") residency) in
  let! deleted := delete_references (retained_reference version_row_id residency) in
  tx_ret (deleted =? 1).

Definition is_transition_reason (reason : ReferenceReason) : bool :=
  match reason with TransitionStaging | TransitionCleanupHold => true | RetainedVersion => false end.

Definition attach_transition_hold_in_transaction (transition_id : string) (reason : ReferenceReason)
    (identity : VersionResidencyIdentity) (location : ResidencyLocation) (clock : Z) : Tx bool :=
  fail_if str_is_empty transition_id || negb (is_transition_reason reason)
    with InvalidArgument "invalid transition residency hold" else
  let! _ := lift (validate_identity identity) in
  let! _ := lock_and_validate_version identity in
  let! physical := reads (find_physical (tier_as_db_str (loc_tier location)) (loc_cid location)) in
  fail_if is_none physical with corrupt "transition hold physical residency is missing" else
  let! inserted := insert_reference_or_nothing
    {| ref_owner_kind := OWNER_TRANSITION; ref_owner_id := transition_id;
       ref_reason := reason_as_db_str reason; ref_version_row_id := vri_version_row_id identity;
       ref_object_id := vri_object_id identity; ref_tier := tier_as_db_str (loc_tier location);
       ref_cid := loc_cid location; ref_created_at := clock |} in
  tx_ret (inserted =? 1).

Definition transition_reference (transition_id : string) (reason : ReferenceReason)
    (location : ResidencyLocation) (r : ReferenceRow) : Prop :=
  ref_owner_kind r = OWNER_TRANSITION /\ ref_owner_id r = transition_id /\
  ref_reason r = reason_as_db_str reason /\ ref_tier r = tier_as_db_str (loc_tier location) /\
  ref_cid r = loc_cid location.
#[export] Instance transition_reference_dec id reason l r : Decision (transition_reference id reason l r).
Proof. unfold transition_reference. apply _. Defined.

Definition release_transition_hold_in_transaction (transition_id : string) (reason : ReferenceReason)
    (location : ResidencyLocation) : Tx bool :=
  fail_if str_is_empty transition_id || negb (is_transition_reason reason)
    with InvalidArgument "invalid transition residency hold" else
  let! deleted := delete_references (transition_reference transition_id reason location) in
  tx_ret (deleted =? 1).

Definition mark_hot_verified_in_transaction (identity : VersionResidencyIdentity)
    (node_identity receipt : string) (clock : Z) : Tx bool :=
  fail_if str_is_empty node_identity || str_is_empty receipt
    with InvalidArgument "verified residency requires node identity and receipt" else
  let! _ := lock_and_validate_version identity in
  let! residency := reads (find_residency (vri_version_row_id identity)) in
  let! residency := lift (ok_or (corrupt "verification owner has no residency") residency) in
  let! _ := lift (validate_existing_version_residency residency identity) in
  let! updated := update_physicals (unverified_hot (vri_cid identity))
                    (set_verified node_identity receipt clock) in
  if updated =? 1 then tx_ret true else
  let! existing := reads (find_physical "hot" (vri_cid identity)) in
  let! existing := lift (ok_or (corrupt "verification physical residency is missing") existing) in
  if String.eqb (p_verification_state existing) "verified"
     && bool_decide (p_node_identity existing = Some node_identity)
     && bool_decide (p_verification_receipt existing = Some receipt)
  then tx_ret false
  else tx_err (corrupt "conflicting physical verification receipt").

(** ** The read router *)

Section router.
(** A Kubo client, its restriction to local reads, the node identity it reports, and the parsers
    of receipts and content identifiers. *)
Context {Client Cid : Type} `{EqDecision Cid}.
Context (with_local_reads_only : Client -> Client) (local_node_identity : Client -> option string).
Context (parse_receipt : string -> option (string * string)) (parse_cid : string -> option Cid).

Record TierClients : Type := { hot : Client; cold : option Client }.

Definition client_for_tier (clients : TierClients) (tier : KuboTier) : AppResult Client :=
  match tier with
  | Hot => Ok (hot clients)
  | Cold => ok_or (Tier ColdNotConfigured) (cold clients)
  end.

(** A receipt is the pair of its [cid] and its [node_identity]. *)
Definition validate_cold_receipt (cid : string) (node_identity receipt : option string)
  : AppResult unit :=
  let? '(receipt_cid, receipt_node) :=
    ok_or (Tier LocalCopyIncomplete) (receipt ≫= parse_receipt) in
  let? cid := ok_or (Tier CidMismatch) (parse_cid cid) in
  bail_if negb (bool_decide (parse_cid receipt_cid = Some cid)) with Tier CidMismatch else
  bail_if negb (bool_decide (Some receipt_node = node_identity)) with Tier NodeIdentityMismatch else
  Ok tt.

Definition resolve_read_source (clients : TierClients) (residency : ResolvedVersionResidency)
  : AppResult Client :=
  let? client := client_for_tier clients (loc_tier (rvr_primary residency)) in
  bail_if negb (bool_decide (ps_location (rvr_physical residency) = rvr_primary residency))
          || negb (String.eqb (vri_cid (rvr_identity residency)) (loc_cid (rvr_primary residency)))
    with Tier CidMismatch else
  let? _ :=
    if bool_decide (loc_tier (rvr_primary residency) = Cold) then
      bail_if negb (bool_decide (ps_verification_state (rvr_physical residency) = VVerified))
        with Tier LocalCopyIncomplete else
      validate_cold_receipt (vri_cid (rvr_identity residency))
        (ps_node_identity (rvr_physical residency)) (ps_verification_receipt (rvr_physical residency))
    else Ok tt in
  let? _ :=
    if bool_decide (ps_verification_state (rvr_physical residency) = VVerified) then
      let? node := ok_or (Tier TierUnavailable) (local_node_identity client) in
      bail_if negb (bool_decide (Some node = ps_node_identity (rvr_physical residency)))
        with Tier NodeIdentityMismatch else Ok tt
    else Ok tt in
  Ok match loc_tier (rvr_primary residency) with
     | Cold => with_local_reads_only client
     | Hot => client
     end.
End router.

(** ** Attaching the hot residency of a new version *)

Lemma verification_from_pending : verification_from_db_str "pending" = Ok VPending.
Proof. done. Qed.

(** A row that satisfies the [CHECK]s of its table has a snapshot. *)
Lemma physical_snapshot_total p :
  physical_check p ->
  exists s tier, physical_snapshot p = Ok s /\ tier_from_db_str (p_tier p) = Ok tier /\
    ps_location s = {| loc_tier := tier; loc_cid := p_cid p |} /\
    verification_from_db_str (p_verification_state p) = Ok (ps_verification_state s).
Proof.
  intros (Ht & _ & Hs). unfold physical_snapshot.
  assert (exists tier, tier_from_db_str (p_tier p) = Ok tier) as (tier & Et)
    by (destruct Ht as [-> | ->]; eexists; reflexivity).
  rewrite Et. simpl.
  destruct Hs as [(-> & Hn & Hr & [at' Ha])|([-> | ->] & -> & -> & ->)]; simpl; [|by eexists _, _..].
  rewrite Ha. destruct (p_node_identity p) as [[|]|], (p_verification_receipt p) as [[|]|]; try done.
  by eexists _, _.
Qed.

Definition pending_hot (cid : string) (now : Z) : PhysicalRow :=
  {| p_tier := "hot"; p_cid := cid; p_node_identity := None; p_verification_state := "pending";
     p_verification_receipt := None; p_verified_at := None; p_created_at := now; p_updated_at := now |}.

Definition with_hot (cid : string) (now : Z) (db : Db) : Db :=
  if decide (("hot"%string, cid) ∈ physical_places db) then db
  else set_physicals (physicals db ++ [pending_hot cid now]) db.

Lemma with_hot_constraints cid now db :
  constraints db -> nonempty cid -> constraints (with_hot cid now db).
Proof.
  intros Hdb Hc. unfold with_hot. case_decide as Hin; [done|].
  apply insert_physical_constraints; [done| |done]. split; [by left|]. split; [done|]. right.
  split; [by left|done].
Qed.

Lemma with_hot_place cid now db : ("hot"%string, cid) ∈ physical_places (with_hot cid now db).
Proof.
  unfold with_hot. case_decide as Hin; [done|]. unfold physical_places. simpl.
  rewrite map_app, elem_of_app. right. left.
Qed.

Lemma with_hot_tables cid now db :
  let db' := with_hot cid now db in
  buckets db' = buckets db /\ objects db' = objects db /\ versions db' = versions db /\
  residencies db' = residencies db /\ references db' = references db.
Proof. unfold with_hot. by case_decide. Qed.

Lemma attach_physical_hot_pending cid now db :
  constraints db -> nonempty cid ->
  attach_physical_hot cid PhysPending now db = Ok (tt, with_hot cid now db).
Proof.
  intros Hdb Hc. pose proof (with_hot_constraints cid now db Hdb Hc) as Hdb'.
  unfold attach_physical_hot.
  erewrite tx_bind_eq by reflexivity.
  erewrite (tx_bind_eq _ _ db (if decide (("hot"%string, cid) ∈ physical_places db) then 0 else 1)
    (with_hot cid now db)).
  2: { unfold insert_physical_or_nothing, with_hot in *. unfold tx_bind, reads. simpl.
       rewrite bool_decide_decide. destruct (decide _); [reflexivity|].
       by rewrite exec_ok. }
  destruct (find_physical_some _ Hdb' "hot" cid (with_hot_place cid now db)) as (p & Hf & Hp).
  unfold tx_bind at 1, reads. simpl. rewrite Hf. unfold tx_bind, lift, tx_ret. simpl.
  destruct (physical_snapshot_total p) as (s & tier & -> & _); [|done].
  destruct Hdb' as (_ & _ & _ & (_ & Hck) & _). rewrite Forall_forall in Hck. auto.
Qed.

(** The rows [attach_hot_in_transaction] adds for version [v] with content [o]. *)
Definition hot_residency (v : VersionRow) (o : ObjectRow) (now : Z) : ResidencyRow :=
  {| r_version_row_id := v_id v; r_object_id := o_id o; r_primary_tier := "hot";
     r_storage_class := "STANDARD"; r_cid := o_cid o; r_revision := 1; r_created_at := now;
     r_updated_at := now |}.
Definition hot_reference (v : VersionRow) (o : ObjectRow) (now : Z) : ReferenceRow :=
  {| ref_owner_kind := "version"; ref_owner_id := v_id v; ref_reason := "retained_version";
     ref_version_row_id := v_id v; ref_object_id := o_id o; ref_tier := "hot"; ref_cid := o_cid o;
     ref_created_at := now |}.

Definition attached (v : VersionRow) (o : ObjectRow) (now : Z) (db : Db) : Db :=
  let db := with_hot (o_cid o) now db in
  let db := set_residencies (residencies db ++ [hot_residency v o now]) db in
  set_references (references db ++ [hot_reference v o now]) db.

Section attach.
Context (db : Db) (v : VersionRow) (o : ObjectRow) (now : Z).
Context (Hdb : constraints db) (Hv : v ∈ versions db) (Ho : o ∈ objects db).
Context (Hkind : v_kind v = "object"%string) (Hoid : v_object_id v = Some (o_id o)).
Context (Hb : o_bucket o = v_bucket v) (Hk : o_key o = v_key v).
Context (Nv : nonempty (v_id v)) (No : nonempty (o_id o)) (Nc : nonempty (o_cid o)).
Context (Hnew : forall r, r ∈ residencies db -> r_version_row_id r <> v_id v).
Context (Hnewref : forall r, r ∈ references db -> ref_version_row_id r <> v_id v).

Let db1 := with_hot (o_cid o) now db.
Let db2 := set_residencies (residencies db1 ++ [hot_residency v o now]) db1.
Let db3 := set_references (references db2 ++ [hot_reference v o now]) db2.

Lemma attach_owner : (v_id v, o_id o) ∈ version_owners db1.
Proof.
  unfold db1. apply version_owner_iff. exists v.
  destruct (with_hot_tables (o_cid o) now db) as (_ & _ & -> & _). done.
Qed.

Lemma attach_content : (o_id o, o_cid o) ∈ object_contents db1.
Proof.
  unfold object_contents, db1. destruct (with_hot_tables (o_cid o) now db) as (_ & -> & _).
  by apply (list_elem_of_fmap_2 (fun o => (o_id o, o_cid o))).
Qed.

Lemma attach_constraints1 : constraints db1.
Proof. by apply with_hot_constraints. Qed.

Lemma attach_constraints2 : constraints db2.
Proof.
  apply insert_residency_constraints; simpl.
  - exact attach_constraints1.
  - split; [done|]. by left.
  - intros r. unfold db1. destruct (with_hot_tables (o_cid o) now db) as (_ & _ & _ & -> & _). apply Hnew.
  - exact attach_owner.
  - exact attach_content.
  - apply with_hot_place.
Qed.

Lemma attach_new_reference : reference_key (hot_reference v o now) ∉ map reference_key (references db2).
Proof.
  intros (r & E & Hr)%list_elem_of_fmap.
  assert (Hr' : r ∈ references db).
  { unfold db2, db1 in Hr. simpl in Hr. by destruct (with_hot_tables (o_cid o) now db) as (_ & _ & _ & _ & <-). }
  destruct Hdb as (_ & _ & _ & _ & _ & (_ & Hc & _)). rewrite Forall_forall in Hc.
  unfold reference_key in E. simpl in E. injection E as E1 E2 E3 E4 E5.
  destruct (Hc r Hr') as [(_ & _ & Hown)|(Hk' & _)]; [|congruence].
  apply (Hnewref r Hr'). congruence.
Qed.

Lemma attach_constraints3 : constraints db3.
Proof.
  apply insert_reference_constraints; simpl.
  - exact attach_constraints2.
  - by left.
  - exact attach_new_reference.
  - exact attach_owner.
  - exact attach_content.
  - apply with_hot_place.
Qed.

Lemma attach_lock db' :
  constraints db' -> versions db' = versions db -> objects db' = objects db ->
  lock_and_validate_version
    {| vri_version_row_id := v_id v; vri_object_id := o_id o; vri_cid := o_cid o |} db' =
  Ok ((v, o), db').
Proof.
  intros Hdb' Ev Eo. unfold lock_and_validate_version, tx_bind, reads, lift, tx_ret. simpl.
  rewrite (proj2 (find_version_ok db' Hdb' (v_id v) v)) by (by rewrite Ev). simpl.
  rewrite Hkind, Hoid, bool_decide_true by done. simpl.
  rewrite (proj2 (find_object_ok db' Hdb' (o_id o) o)) by (by rewrite Eo). simpl.
  by rewrite Hb, Hk, !String.eqb_refl.
Qed.

Lemma attach_resolve : exists res, resolve_version_residency (v_id v) db3 = Ok (res, db3).
Proof.
  pose proof attach_constraints3 as H3.
  destruct (with_hot_tables (o_cid o) now db) as (_ & Eo & Ev & _ & _).
  assert (Hr : find_residency (v_id v) db3 = Some (hot_residency v o now)).
  { apply (find_residency_ok _ H3). split; [|done]. simpl. apply elem_of_app. right. left. }
  assert (Hf : find_version (v_id v) db3 = Some v)
    by (apply (find_version_ok _ H3); unfold db3, db2, db1; simpl; by rewrite Ev).
  assert (Hob : find_object (o_id o) db3 = Some o)
    by (apply (find_object_ok _ H3); unfold db3, db2, db1; simpl; by rewrite Eo).
  destruct (find_physical_some _ H3 "hot" (o_cid o)) as (p & Hp & Hin); [apply with_hot_place|].
  unfold resolve_version_residency, tx_bind, reads, lift, tx_ret.
  destruct (v_id v) as [|c s] eqn:Eid; [done|]. simpl. rewrite Hr. simpl. rewrite Hf. simpl.
  rewrite Hkind, Hoid, bool_decide_true by done. simpl. rewrite Hob. simpl.
  rewrite Hb, Hk, !String.eqb_refl. simpl. rewrite Hp. simpl.
  destruct (physical_snapshot_total p) as (s' & tier & -> & _); [|by eexists].
  destruct H3 as (_ & _ & _ & (_ & Hck) & _). rewrite Forall_forall in Hck. auto.
Qed.

(** Attaching the residency of a fresh content version succeeds and adds one residency and one
    retained-version reference, and a pending physical copy when there was none. *)
Lemma attach_hot_spec : exists res,
  attach_hot_in_transaction
    {| vri_version_row_id := v_id v; vri_object_id := o_id o; vri_cid := o_cid o |}
    PhysPending now db = Ok (res, attached v o now db).
Proof.
  destruct attach_resolve as [res Hres]. exists res. unfold attach_hot_in_transaction.
  erewrite tx_bind_eq.
  2: { unfold lift, validate_identity. simpl. unfold nonempty in *.
       destruct (v_id v), (o_id o), (o_cid o); done. }
  erewrite tx_bind_eq by (by apply attach_lock). cbn beta iota.
  erewrite tx_bind_eq by (by apply attach_physical_hot_pending).
  unfold tx_bind at 1, reads. simpl.
  assert (find_residency (v_id v) (with_hot (o_cid o) now db) = None) as ->.
  { apply head_filter_none. intros r Hr. apply Hnew.
    by destruct (with_hot_tables (o_cid o) now db) as (_ & _ & _ & <- & _). }
  erewrite tx_bind_eq by (apply exec_ok; exact attach_constraints2).
  erewrite tx_bind_eq.
  2: { unfold insert_reference_or_nothing, tx_bind, reads. simpl.
       rewrite (bool_decide_false _ attach_new_reference).
       rewrite exec_ok by exact attach_constraints3. reflexivity. }
  exact Hres.
Qed.
End attach.

(** ** The read router *)

Section router_lemmas.
Context {Client Cid : Type} `{EqDecision Cid}.
Context (with_local_reads_only : Client -> Client) (local_node_identity : Client -> option string).
Context (parse_receipt : string -> option (string * string)) (parse_cid : string -> option Cid).

Lemma validate_cold_receipt_ok cid node receipt :
  validate_cold_receipt parse_receipt parse_cid cid node receipt = Ok tt <->
  exists text receipt_cid receipt_node c, receipt = Some text /\ parse_receipt text = Some (receipt_cid, receipt_node) /\
    parse_cid cid = Some c /\ parse_cid receipt_cid = Some c /\ node = Some receipt_node.
Proof.
  unfold validate_cold_receipt. split.
  - intros Hv. ok_inv Hv. destruct x as [rc rn]. ok_inv Hv. guard_inv.
    apply bind_Some in E as (text & -> & Hp). by exists text, rc, rn, x.
  - intros (text & rc & rn & c & -> & Hp & Hc & Hr & ->). simpl. rewrite Hp. simpl. rewrite Hc. simpl.
    by rewrite !bool_decide_true by done.
Qed.

(** C37: the router reads a version from the node its residency names and from nowhere else.  A hot
    primary is read from the hot client.  A cold primary is read from the cold client restricted to
    local reads, and only if the physical copy of exactly that CID is verified and its receipt names
    the same CID and the node the client now reports; without a cold client the read fails, it never
    falls back to the hot one. *)
Theorem resolve_read_source_safe clients residency :
  (loc_tier (rvr_primary residency) = Cold -> cold clients = None ->
   resolve_read_source with_local_reads_only local_node_identity parse_receipt parse_cid clients residency =
     Err (Tier ColdNotConfigured)) /\
  forall client,
    resolve_read_source with_local_reads_only local_node_identity parse_receipt parse_cid clients residency = Ok client ->
    let physical := rvr_physical residency in
    ps_location physical = rvr_primary residency /\
    loc_cid (rvr_primary residency) = vri_cid (rvr_identity residency) /\
    match loc_tier (rvr_primary residency) with
    | Hot => client = hot clients /\
        (ps_verification_state physical = VVerified ->
         exists node, local_node_identity (hot clients) = Some node /\ ps_node_identity physical = Some node)
    | Cold => exists c text receipt_cid node cid, cold clients = Some c /\ client = with_local_reads_only c /\
        ps_verification_state physical = VVerified /\
        ps_verification_receipt physical = Some text /\ parse_receipt text = Some (receipt_cid, node) /\
        parse_cid (vri_cid (rvr_identity residency)) = Some cid /\ parse_cid receipt_cid = Some cid /\
        ps_node_identity physical = Some node /\ local_node_identity c = Some node
    end.
Proof.
  unfold resolve_read_source, client_for_tier. split; [intros Et Ec; by rewrite Et, Ec|]. intros client Hr. cbv zeta. ok_inv Hr. guard_inv.
  split; [done|]. split; [congruence|]. injection Hr as <-.
  destruct (loc_tier (rvr_primary residency)) eqn:Et; simpl in *.
  - injection E as <-. split; [done|]. intros Ev. rewrite bool_decide_true in E2 by done.
    ok_inv E2. guard_inv. eauto.
  - apply ok_or_ok in E. apply bail_ok in E1 as [Ev Hcold]. guard_inv. destruct x0.
    apply validate_cold_receipt_ok in Hcold as (text & rc & rn & c & ? & ? & ? & ? & En).
    rewrite bool_decide_true in E2 by done. ok_inv E2. guard_inv.
    exists x, text, rc, rn, c. split_and!; try done. congruence.
Qed.
End router_lemmas.

(** ** Verification of a hot copy *)

Section verification.
Context (db : Db) (cid node receipt : string) (clock : Z).
Context (Hdb : constraints db) (Hn : nonempty node) (Hr : nonempty receipt).

Definition verified_db : Db :=
  set_physicals (update_where (unverified_hot cid) (set_verified node receipt clock) (physicals db)) db.

Lemma verified_constraints : constraints verified_db.
Proof.
  apply update_physicals_constraints; [done..|]. intros p (Ht & Hc & _). split_and!; [done..|]. left.
  split_and!; [done| | |by eexists]; simpl; by unfold nonempty in *.
Qed.

Lemma mark_verified_run p :
  find_physical "hot" cid db = Some p -> unverified_hot cid p ->
  mark_physical_verified cid node receipt clock db = Ok (tt, verified_db) /\
  find_physical "hot" cid verified_db = Some (set_verified node receipt clock p).
Proof.
  intros Hp Hu. apply (find_physical_ok db Hdb) in Hp as (Hp & Et & Ec).
  unfold mark_physical_verified. erewrite tx_bind_eq by (by apply update_physicals_ok, verified_constraints).
  pose proof Hdb as (_ & _ & _ & (Hi & _) & _).
  rewrite (matching_exactly_one _ _ ("hot"%string, cid) p _ Hi); [|done|done|by intros y _ (-> & -> & _)].
  split; [done|]. apply (find_physical_ok verified_db verified_constraints). split; [|done].
  apply elem_of_update_where. exists p. split; [done|]. by rewrite decide_True.
Qed.

(** A verification of a copy that is already verified only compares. *)
Lemma apply_verification_settled p n r c node' receipt' :
  find_physical "hot" cid db = Some p -> p_verification_state p = "verified"%string ->
  p_node_identity p = Some n -> p_verification_receipt p = Some r ->
  nonempty node' -> nonempty receipt' ->
  apply_hot_publication_verification cid (PhysVerified node' receipt') c db =
    if bool_decide (node' = n /\ receipt' = r) then Ok (tt, db)
    else Err (corrupt "conflicting hot physical verification receipt").
Proof.
  intros Hp Es En Er Nn Nr. unfold apply_hot_publication_verification.
  destruct node' as [|a node'], receipt' as [|a' receipt']; try done. cbn [str_is_empty orb].
  erewrite tx_bind_eq by reflexivity. rewrite Hp. erewrite tx_bind_eq by (by apply lift_eq).
  apply (find_physical_ok db Hdb) in Hp as (Hp & _). pose proof Hdb as (_ & _ & _ & (_ & Hck) & _).
  rewrite Forall_forall in Hck. destruct (physical_snapshot_total p (Hck p Hp)) as (s & tier & Hs & _ & _ & Hv).
  erewrite tx_bind_eq by (apply lift_eq; exact Hs). rewrite Es in Hv. injection Hv as Hv. rewrite <- Hv.
  assert (ps_node_identity s = Some n /\ ps_verification_receipt s = Some r) as [-> ->].
  { unfold physical_snapshot in Hs. ok_inv Hs. injection Hs as <-. done. }
  repeat case_bool_decide; simpl; try done; naive_solver.
Qed.
End verification.

(** the receipt of a verified publication settles the hot copy of its CID.  An unverified copy
    becomes verified with exactly that node and receipt; applying the same receipt again, at any
    time, succeeds and changes nothing; any other receipt is refused; without a copy nothing is
    written. *)
Theorem hot_verification_settles db cid node receipt clock :
  constraints db -> nonempty node -> nonempty receipt ->
  match find_physical "hot" cid db with
  | None => exists e, apply_hot_publication_verification cid (PhysVerified node receipt) clock db = Err e
  | Some p =>
    p_verification_state p <> "verified"%string ->
    exists db', apply_hot_publication_verification cid (PhysVerified node receipt) clock db = Ok (tt, db') /\
      constraints db' /\ find_physical "hot" cid db' = Some (set_verified node receipt clock p) /\
      forall node' receipt' clock', nonempty node' -> nonempty receipt' ->
        apply_hot_publication_verification cid (PhysVerified node' receipt') clock' db' =
          if bool_decide (node' = node /\ receipt' = receipt) then Ok (tt, db')
          else Err (corrupt "conflicting hot physical verification receipt")
  end.
Proof.
  intros Hdb Hn Hr. destruct (find_physical "hot" cid db) as [p|] eqn:Hp.
  - intros Hs. pose proof (verified_constraints db cid node receipt clock Hdb Hn Hr) as Hc'.
    apply (find_physical_ok db Hdb) in Hp as Hpp. destruct Hpp as (Hin & Et & Ec).
    pose proof Hdb as (_ & _ & _ & (_ & Hck) & _). rewrite Forall_forall in Hck.
    assert (Hu : unverified_hot cid p).
    { destruct (Hck p Hin) as (_ & _ & [[? _]|[Hst _]]); [done|]. by repeat split. }
    destruct (mark_verified_run db cid node receipt clock Hdb Hn Hr p Hp Hu) as [Hrun Hfind].
    exists (verified_db db cid node receipt clock). split_and!; [|done|done|].
    + unfold apply_hot_publication_verification. destruct node as [|a node], receipt as [|a' receipt]; try done.
      cbn [str_is_empty orb]. erewrite tx_bind_eq by reflexivity. rewrite Hp.
      erewrite tx_bind_eq by (by apply lift_eq).
      destruct (physical_snapshot_total p (Hck p Hin)) as (s & tier & Hsn & _ & _ & Hv).
      erewrite tx_bind_eq by (apply lift_eq; exact Hsn).
      destruct (ps_verification_state s) eqn:Es; [exact Hrun| |exact Hrun].
      destruct Hu as (_ & _ & [E|E]); by rewrite E in Hv.
    + intros. by apply (apply_verification_settled _ cid Hc' (set_verified node receipt clock p)).
  - exists (corrupt "hot publication frontier is missing"). unfold apply_hot_publication_verification.
    destruct node as [|a node], receipt as [|a' receipt]; try done. cbn [str_is_empty orb].
    erewrite tx_bind_eq by reflexivity. by rewrite Hp.
Qed.
