(* ===== verification/VersionStore.v ===== *)
(** * The version index ([src/store/object_version.rs])

    Installing content versions and delete markers, deleting exact versions with promotion of the
    next one, resolving a selector, and the ordered scan behind version listings. *)

From Stdlib Require Import ZArith Lia.
From stdpp Require Import prelude strings list.
From S2P Require Import Prelude Errors VersionModel Database ObjectStore ResidencyStore.

#[local] Open Scope Z_scope.

Record ResolvedVersion : Type := {
  rv_id : string;
  rv_key : string;
  rv_public_version_id : string;
  rv_kind : VersionKind;
  rv_object : option ObjectRow;
  rv_is_latest : bool;
  rv_sequence : Z;
  rv_lifecycle_age_started_at : Z;
  rv_became_noncurrent_at : option Z;
  rv_created_at : Z
}.

Record VersionCursor : Type := {
  vc_key : string;
  vc_sequence : Z;
  vc_public_version_id : string
}.

Record DeleteVersionResult : Type := {
  dv_version_id : option string;
  dv_deleted_delete_marker : bool;
  dv_created_delete_marker : bool
}.

Inductive ExactCurrentMarkerDeleteResult : Type :=
| MarkerDeleted (r : DeleteVersionResult)
| AlreadySatisfied
| Stale.

Definition invalid_version_index : AppError := Internal "invalid object version index row".

Definition no_such_key (bucket_name key : string) : AppError :=
  NoSuchKey (bucket_name +:+ "/" +:+ key).

Definition no_such_version (bucket_name key : string) (version_id : PublicVersionId) : AppError :=
  NoSuchVersion bucket_name key (as_s3_str version_id).

(** [ResolvedVersion::new] *)
Definition resolved_new (id key public_version_id : string) (kind : VersionKind)
    (object : option ObjectRow) (is_latest : bool) (sequence lifecycle_age_started_at : Z)
    (became_noncurrent_at : option Z) (created_at : Z) : AppResult ResolvedVersion :=
  bail_if negb (Bool.eqb (bool_decide (kind = KObject)) (is_some object))
    with invalid_version_index else
  Ok {| rv_id := id; rv_key := key; rv_public_version_id := public_version_id; rv_kind := kind;
        rv_object := object; rv_is_latest := is_latest; rv_sequence := sequence;
        rv_lifecycle_age_started_at := lifecycle_age_started_at;
        rv_became_noncurrent_at := became_noncurrent_at; rv_created_at := created_at |}.

Definition version_kind (row : VersionRow) : AppResult VersionKind :=
  if String.eqb (v_kind row) "object" && is_some (v_object_id row) then Ok KObject
  else if String.eqb (v_kind row) "delete_marker" && is_none (v_object_id row) then Ok KDeleteMarker
  else Err invalid_version_index.

Section versions.
Context `{Uuid}.

Definition public_version_id (row : VersionRow) : AppResult PublicVersionId :=
  match v_version_id row with
  | None => Ok VNull
  | Some value => map_err (fun _ => invalid_version_index) (parse_s3 value)
  end.

Definition selector_db_value (selector : PublicVersionId) : AppResult (option string) :=
  match selector with
  | VNull => Ok None
  | Opaque value => let? parsed := parse_s3 value in Ok (Some (as_s3_str parsed))
  end.

(** [bucket = b AND key = k] *)
Definition of_key (b k : string) (v : VersionRow) : Prop := v_bucket v = b /\ v_key v = k.
#[export] Instance of_key_dec b k v : Decision (of_key b k v).
Proof. unfold of_key. apply _. Defined.
Definition current_of (b k : string) (v : VersionRow) : Prop :=
  of_key b k v /\ v_is_latest v = true.
#[export] Instance current_of_dec b k v : Decision (current_of b k v).
Proof. unfold current_of. apply _. Defined.
Definition with_version_id (b k : string) (id : option string) (v : VersionRow) : Prop :=
  of_key b k v /\ v_version_id v = id.
#[export] Instance with_version_id_dec b k id v : Decision (with_version_id b k id v).
Proof. unfold with_version_id. apply _. Defined.

Definition key_rows (b k : string) (db : Db) : list VersionRow := filter (of_key b k) (versions db).

(** Row locks leave the result of the query unchanged. *)
Definition one_version (bucket_name key : string) (selector : VersionSelector)
  : Tx (option VersionRow) :=
  match selector with
  | Current => reads (fun db => head (filter (current_of bucket_name key) (versions db)))
  | Exact public_version_id =>
    let! id := lift (selector_db_value public_version_id) in
    reads (fun db => head (filter (with_version_id bucket_name key id) (versions db)))
  end.

Definition resolved_from_row (row : VersionRow) (validate_current_projection : bool)
  : Tx ResolvedVersion :=
  let! kind := lift (version_kind row) in
  let! version_id := lift (let? id := public_version_id row in Ok (as_s3_str id)) in
  match kind with
  | KObject =>
    let! object_id := lift (ok_or invalid_version_index (v_object_id row)) in
    let! object := (fun db => map_err (fun _ => invalid_version_index) (get_by_id object_id db)) in
    fail_if negb (String.eqb (o_bucket object) (v_bucket row))
            || negb (String.eqb (o_key object) (v_key row)) with invalid_version_index else
    fail_if validate_current_projection && (negb (v_is_latest row) || negb (o_is_latest object))
      with invalid_version_index else
    lift (resolved_new (v_id row) (v_key row) version_id kind (Some object) (v_is_latest row)
            (v_sequence row) (v_lifecycle_age_started_at row) (v_became_noncurrent_at row)
            (v_created_at row))
  | KDeleteMarker =>
    let! _ :=
      if validate_current_projection then
        fail_if negb (v_is_latest row) with invalid_version_index else
        let! current_count := reads (fun db =>
          matching (o_current (v_bucket row) (v_key row)) (objects db)) in
        fail_if negb (current_count =? 0) with invalid_version_index else
        tx_ret tt
      else tx_ret tt in
    lift (resolved_new (v_id row) (v_key row) version_id kind None (v_is_latest row)
            (v_sequence row) (v_lifecycle_age_started_at row) (v_became_noncurrent_at row)
            (v_created_at row))
  end.

Definition resolve_with_lock (bucket_name key : string) (selector : VersionSelector)
    (locked lock_state : bool) : Tx ResolvedVersion :=
  let! state := if locked && lock_state then lock_versioning_state bucket_name
                else get_versioning_state bucket_name in
  if bool_decide (state = Unversioned) then
    match selector with
    | Current =>
      let! row := one_version bucket_name key selector in
      let! row := lift (ok_or (no_such_key bucket_name key) row) in
      resolved_from_row row true
    | Exact _ =>
      tx_err (InvalidArgument "version IDs are unavailable for an unversioned bucket")
    end
  else
    let! row := one_version bucket_name key selector in
    match selector, row with
    | Current, Some row => resolved_from_row row true
    | Current, None => tx_err (no_such_key bucket_name key)
    | Exact _, Some row => resolved_from_row row false
    | Exact version_id, None => tx_err (no_such_version bucket_name key version_id)
    end.

Definition resolve_version (bucket_name key : string) (selector : VersionSelector)
  : Tx ResolvedVersion := resolve_with_lock bucket_name key selector false false.

Definition lock_resolved_version (bucket_name key : string) (selector : VersionSelector)
  : Tx ResolvedVersion := resolve_with_lock bucket_name key selector true false.

Definition lock_current_row (bucket_name key : string) : Tx (option VersionRow) :=
  one_version bucket_name key Current.

Definition lock_indexed_version (bucket_name key : string) (version_id : PublicVersionId)
  : Tx (option (VersionRow * ResolvedVersion)) :=
  let! row := one_version bucket_name key (Exact version_id) in
  match row with
  | None => tx_ret None
  | Some row =>
    let! resolved := resolved_from_row row false in
    tx_ret (Some (row, resolved))
  end.

(** ** Installing a version *)

Definition allocate_next_sequence (bucket_name key : string) : Tx Z :=
  let! current_max := reads (fun db =>
    default 0 (head (sort_by (by_key reverse) (map v_sequence (key_rows bucket_name key db))))) in
  lift (ok_or (Internal "object version sequence overflow") (i64_checked_add current_max 1)).

Definition demote (now : Z) (v : VersionRow) : VersionRow :=
  {| v_id := v_id v; v_bucket := v_bucket v; v_key := v_key v; v_version_id := v_version_id v;
     v_kind := v_kind v; v_object_id := v_object_id v; v_sequence := v_sequence v;
     v_is_latest := false; v_lifecycle_age_started_at := v_lifecycle_age_started_at v;
     v_became_noncurrent_at := Some now; v_created_at := v_created_at v; v_updated_at := now |}.

Definition promote (now : Z) (v : VersionRow) : VersionRow :=
  {| v_id := v_id v; v_bucket := v_bucket v; v_key := v_key v; v_version_id := v_version_id v;
     v_kind := v_kind v; v_object_id := v_object_id v; v_sequence := v_sequence v;
     v_is_latest := true; v_lifecycle_age_started_at := v_lifecycle_age_started_at v;
     v_became_noncurrent_at := None; v_created_at := v_created_at v; v_updated_at := now |}.

Definition demote_current_version (bucket_name key : string) (now : Z) : Tx unit :=
  let! affected := update_versions (current_of bucket_name key) (demote now) in
  fail_if 1 <? affected with invalid_version_index else
  tx_ret tt.

Definition remove_null_slot (bucket_name key : string) : Tx unit :=
  let! selected := one_version bucket_name key (Exact VNull) in
  let! _ :=
    match selected with
    | Some selected =>
      let! kind := lift (version_kind selected) in
      if bool_decide (kind = KObject) then
        let! _ := release_version_reference_in_transaction (v_id selected) in tx_ret tt
      else tx_ret tt
    | None => tx_ret tt
    end in
  let! affected := delete_versions (with_version_id bucket_name key None) in
  fail_if 1 <? affected with invalid_version_index else
  tx_ret tt.

(** [row_uuid] is the [Uuid::new_v4()] of the call, [clock] its [database_now]. *)
Definition insert_version_row (row_uuid : string) (clock : Z) (bucket_name key : string)
    (version_id : PublicVersionId) (kind : VersionKind) (object_id : option string)
    (sequence now : Z) : Tx unit :=
  fail_if negb (Bool.eqb (bool_decide (kind = KObject)) (is_some object_id))
    with invalid_version_index else
  let! _ := insert_version
    {| v_id := row_uuid; v_bucket := bucket_name; v_key := key;
       v_version_id := version_as_db_value version_id;
       v_kind := match kind with KObject => "object" | KDeleteMarker => "delete_marker" end;
       v_object_id := object_id; v_sequence := sequence; v_is_latest := true;
       v_lifecycle_age_started_at := now; v_became_noncurrent_at := None; v_created_at := now;
       v_updated_at := now |} in
  match object_id with
  | Some object_id =>
    let! object := reads (find_object object_id) in
    let! object := lift (ok_or invalid_version_index object) in
    let! _ := attach_hot_in_transaction
      {| vri_version_row_id := row_uuid; vri_object_id := object_id; vri_cid := o_cid object |}
      PhysPending clock in
    tx_ret tt
  | None => tx_ret tt
  end.

(** [public_uuid] is the [Uuid::new_v4()] of the call. *)
Definition prepare_install (public_uuid : string) (state : BucketVersioningState)
    (bucket_name key : string) (now : Z) : Tx (Z * PublicVersionId) :=
  let! _ := lock_current_row bucket_name key in
  let! sequence := allocate_next_sequence bucket_name key in
  let! version_id :=
    match state with
    | Enabled =>
      let! _ := demote_current_version bucket_name key now in
      tx_ret (Opaque public_uuid)
    | Suspended | Unversioned =>
      let! _ := demote_current_version bucket_name key now in
      let! _ := remove_null_slot bucket_name key in
      tx_ret VNull
    end in
  tx_ret (sequence, version_id).

Definition install_content_version (public_uuid row_uuid : string) (clock : Z)
    (state : BucketVersioningState) (object : ObjectRow) (now : Z) : Tx string :=
  let! '(sequence, version_id) :=
    prepare_install public_uuid state (o_bucket object) (o_key object) now in
  let! _ := insert_version_row row_uuid clock (o_bucket object) (o_key object) version_id KObject
              (Some (o_id object)) sequence now in
  let! _ := set_only_latest (o_bucket object) (o_key object) (Some (o_id object)) in
  tx_ret (as_s3_str version_id).

Definition install_delete_marker (public_uuid row_uuid : string) (clock : Z)
    (state : BucketVersioningState) (bucket_name key : string) (now : Z) : Tx string :=
  let! '(sequence, version_id) := prepare_install public_uuid state bucket_name key now in
  let! _ := insert_version_row row_uuid clock bucket_name key version_id KDeleteMarker None
              sequence now in
  let! _ := set_only_latest bucket_name key None in
  tx_ret (as_s3_str version_id).

(** ** Deleting a version *)

Definition lock_version_by_id (id : string) : Tx (option VersionRow) := reads (find_version id).

(** The exact row the caller selected, still the current delete marker. *)
Definition same_marker (selected v : VersionRow) : Prop :=
  v_id v = v_id selected /\ v_bucket v = v_bucket selected /\ v_key v = v_key selected /\
  v_kind v = "delete_marker"%string /\ v_object_id v = None /\
  v_sequence v = v_sequence selected /\ v_is_latest v = true /\
  v_version_id v = v_version_id selected.
#[export] Instance same_marker_dec s v : Decision (same_marker s v).
Proof. unfold same_marker. apply _. Defined.

Definition delete_current_sole_marker (selected : VersionRow) : Tx ExactCurrentMarkerDeleteResult :=
  if negb (v_is_latest selected) then tx_ret Stale else
  let! kind := lift (version_kind selected) in
  if negb (bool_decide (kind = KDeleteMarker)) then tx_ret Stale else
  let! version_count := reads (fun db =>
    Z.of_nat (length (key_rows (v_bucket selected) (v_key selected) db))) in
  if negb (version_count =? 1) then tx_ret Stale else
  let! deleted := delete_versions (same_marker selected) in
  if deleted =? 1 then
    tx_ret (MarkerDeleted {| dv_version_id := Some (default NULL_VERSION_ID (v_version_id selected));
                             dv_deleted_delete_marker := true; dv_created_delete_marker := false |})
  else
    let! remaining := reads (fun db =>
      Z.of_nat (length (key_rows (v_bucket selected) (v_key selected) db))) in
    if remaining =? 0 then tx_ret AlreadySatisfied else tx_ret Stale.

(** [ORDER BY sequence DESC, version_id ASC] *)
Definition newest_key (v : VersionRow) : Reverse Z * option string :=
  (reverse (v_sequence v), v_version_id v).

Definition row_not_found (v : VersionRow) : AppError :=
  NoSuchVersion (v_bucket v) (v_key v) (default NULL_VERSION_ID (v_version_id v)).

Definition remove_and_promote (clock : Z) (selected : VersionRow) : Tx (option ResolvedVersion) :=
  let! locked := lock_version_by_id (v_id selected) in
  let! selected := lift (ok_or (row_not_found selected) locked) in
  let! kind := lift (version_kind selected) in
  let! _ :=
    if bool_decide (kind = KObject) then
      let! _ := release_version_reference_in_transaction (v_id selected) in tx_ret tt
    else tx_ret tt in
  let! deleted := delete_versions (fun v => v_id v = v_id selected) in
  fail_if negb (deleted =? 1) with row_not_found selected else
  if negb (v_is_latest selected) then tx_ret None else
  let b := v_bucket selected in
  let k := v_key selected in
  let! promoted := reads (fun db => head (sort_by (by_key newest_key) (key_rows b k db))) in
  match promoted with
  | None => let! _ := set_only_latest b k None in tx_ret None
  | Some promoted =>
    let now := clock in
    let! cleared := update_versions (current_of b k) (demote now) in
    fail_if 1 <? cleared with invalid_version_index else
    let! made_latest := update_versions
      (fun v => v_id v = v_id promoted /\ v_is_latest v = false) (promote now) in
    fail_if negb (made_latest =? 1) with invalid_version_index else
    let promoted := promote now promoted in
    let! kind := lift (version_kind promoted) in
    let! _ :=
      match kind with
      | KObject =>
        let! object_id := lift (ok_or invalid_version_index (v_object_id promoted)) in
        set_only_latest b k (Some object_id)
      | KDeleteMarker => set_only_latest b k None
      end in
    let! resolved := resolved_from_row promoted true in
    tx_ret (Some resolved)
  end.

(** ** Scanning *)

(** [column.starts_with(prefix)] is [column LIKE 'prefix%'], whose wildcards and case folding are
    the database's. *)
Context (key_like : string -> string -> bool).

Definition KEY_BOUNDARY_SEQUENCE : Z := i64_min.

Definition key_boundary_cursor (key : string) : VersionCursor :=
  {| vc_key := key; vc_sequence := KEY_BOUNDARY_SEQUENCE; vc_public_version_id := EmptyString |}.

Definition is_key_boundary (cursor : VersionCursor) : bool :=
  (vc_sequence cursor =? KEY_BOUNDARY_SEQUENCE) && str_is_empty (vc_public_version_id cursor).

Definition validate_version_cursor (bucket_name prefix : string)
    (key_marker version_id_marker : option string) : Tx (option VersionCursor) :=
  let! state := get_versioning_state bucket_name in
  match key_marker, version_id_marker with
  | None, None => tx_ret None
  | None, Some _ => tx_err (InvalidArgument "version-id-marker requires key-marker")
  | Some key, None => tx_ret (Some (key_boundary_cursor key))
  | Some key, Some version_id_marker =>
    fail_if bool_decide (state = Unversioned)
      with InvalidArgument "version cursor cannot address hidden unversioned rows" else
    fail_if negb (starts_with prefix key)
      with InvalidArgument "version cursor is outside the requested prefix" else
    let! id := lift (parse_s3 version_id_marker) in
    let! row := one_version bucket_name key (Exact id) in
    let! row := lift (ok_or (InvalidArgument "version cursor does not resolve to a visible version")
                        row) in
    let! parsed := lift (map_err
      (fun _ => InvalidArgument "version cursor is not a visible version") (public_version_id row)) in
    tx_ret (Some {| vc_key := v_key row; vc_sequence := v_sequence row;
                    vc_public_version_id := as_s3_str parsed |})
  end.

(** The condition that a row is at or after the cursor. [gte] on a [NULL] version id is not true. *)
Definition after_cursor (cursor : VersionCursor) : AppResult (VersionRow -> bool) :=
  if is_key_boundary cursor then Ok (fun v => lt_b (vc_key cursor) (v_key v)) else
  let? same_sequence :=
    if String.eqb (vc_public_version_id cursor) NULL_VERSION_ID
    then Ok (fun v => is_none (v_version_id v))
    else
      let? id := parse_s3 (vc_public_version_id cursor) in
      Ok (fun v => is_some_and (le_b (as_s3_str id)) (v_version_id v)) in
  Ok (fun v =>
        lt_b (vc_key cursor) (v_key v)
        || (String.eqb (v_key v) (vc_key cursor)
            && ((v_sequence v <? vc_sequence cursor)
                || ((v_sequence v =? vc_sequence cursor) && same_sequence v)))).

(** [ORDER BY key ASC, sequence DESC, version_id ASC] *)
Definition listing_key (v : VersionRow) : string * (Reverse Z * option string) :=
  (v_key v, newest_key v).

Fixpoint resolve_rows (rows : list VersionRow) : Tx (list ResolvedVersion) :=
  match rows with
  | [] => tx_ret []
  | row :: rows' =>
    let! v := resolved_from_row row false in
    let! vs := resolve_rows rows' in
    tx_ret (v :: vs)
  end.

Definition scan_rows (bucket_name prefix : string) (cursor : option VersionCursor) (limit : Z)
    (db : Db) : AppResult (list VersionRow) :=
  let candidates := filter (fun v => v_bucket v = bucket_name /\ key_like prefix (v_key v) = true)
                      (versions db) in
  let? in_range :=
    match cursor with
    | None => Ok (fun _ => true)
    | Some cursor => after_cursor cursor
    end in
  Ok (take (Z.to_nat limit)
        (sort_by (by_key listing_key) (filter (fun v => in_range v = true) candidates))).

Definition scan_versions (bucket_name prefix : string) (cursor : option VersionCursor) (limit : Z)
  : Tx (list ResolvedVersion) :=
  let! state := get_versioning_state bucket_name in
  if bool_decide (state = Unversioned) || (limit =? 0) then tx_ret [] else
  let! rows := (fun db => let? rows := scan_rows bucket_name prefix cursor limit db in Ok (rows, db)) in
  resolve_rows rows.
End versions.
