(* ===== verification/VersionSpec.v ===== *)
(** * The version index refines per-key version histories

    The abstract state of a key is its history: the list of its versions, newest first, each the
    public version id (none for the null version) with the object it holds (none for a delete
    marker).  [history] computes it from the tables and [Inv] is the invariant of the index.  The
    operations of [src/store/object_version.rs] keep the invariant and act on histories as
    [hist_install] and [hist_remove] say. *)

From Stdlib Require Import ZArith Lia.
From stdpp Require Import prelude strings list sorting.
From S2P Require Import Prelude Errors VersionModel Database ObjectStore ResidencyStore VersionStore.

#[local] Open Scope Z_scope.

(** ** Histories *)

Definition Entry : Type := option string * option string.
Definition entry_of (v : VersionRow) : Entry := (v_version_id v, v_object_id v).

Definition sorted_rows (b k : string) (db : Db) : list VersionRow :=
  sort_by (by_key newest_key) (key_rows b k db).
Definition history (b k : string) (db : Db) : list Entry := map entry_of (sorted_rows b k db).

(** A new version goes on top; without versioning it replaces the null version. *)
Definition hist_install (state : BucketVersioningState) (uuid : string) (object : option string)
    (h : list Entry) : list Entry :=
  match state with
  | Enabled => (Some uuid, object) :: h
  | Suspended | Unversioned => (None, object) :: filter (fun e => fst e <> None) h
  end.

Definition hist_remove (id : option string) (h : list Entry) : list Entry :=
  filter (fun e => fst e <> id) h.

(** ** The invariant *)

Section spec.
Context `{UuidLaws}.

Record Inv (db : Db) : Prop := {
  inv_constraints : constraints db;
  (** the newest version of a key is its current version *)
  inv_latest v : v ∈ versions db ->
    v_is_latest v = true <->
    forall w, w ∈ versions db -> of_key (v_bucket v) (v_key v) w -> v_sequence w <= v_sequence v;
  inv_noncurrent v : v ∈ versions db -> v_is_latest v = true <-> v_became_noncurrent_at v = None;
  inv_public v id : v ∈ versions db -> v_version_id v = Some id -> uuid_canonical id = Some id;
  inv_positive v : v ∈ versions db -> 0 < v_sequence v;
  inv_object v id : v ∈ versions db -> v_object_id v = Some id ->
    exists o, o ∈ objects db /\ o_id o = id /\ o_bucket o = v_bucket v /\ o_key o = v_key v;
  (** an object is projected as current exactly when the current version of its key holds it *)
  inv_projection o : o ∈ objects db ->
    o_is_latest o = true <->
    exists v, v ∈ versions db /\ v_is_latest v = true /\ v_object_id v = Some (o_id o);
  inv_residency v id : v ∈ versions db -> v_object_id v = Some id ->
    exists r, r ∈ residencies db /\ r_version_row_id r = v_id v
}.

Lemma elem_of_key_rows b k db v : v ∈ key_rows b k db <-> v ∈ versions db /\ of_key b k v.
Proof. unfold key_rows. rewrite list_elem_of_filter. tauto. Qed.

Lemma elem_of_sorted_rows b k db v : v ∈ sorted_rows b k db <-> v ∈ versions db /\ of_key b k v.
Proof. unfold sorted_rows. by rewrite elem_of_sort_by, elem_of_key_rows. Qed.

Lemma newest_key_lt v w : v_sequence w < v_sequence v -> cmp (newest_key v) (newest_key w) = Lt.
Proof.
  intros Hlt. unfold newest_key. rewrite prod_cmp; simpl.
  assert (cmp (reverse (v_sequence v)) (reverse (v_sequence w)) = Lt) as ->; [|done].
  unfold cmp, reverse_ord, cmp, z_ord. simpl. by apply Z.compare_lt_iff.
Qed.

Lemma newest_key_le v w : key_le newest_key v w -> v_sequence w <= v_sequence v.
Proof.
  unfold key_le, ord_le. intros Hle. destruct (Z.le_gt_cases (v_sequence w) (v_sequence v)); [done|].
  exfalso. apply Hle. apply cmp_gt_lt. apply newest_key_lt. lia.
Qed.

(** ** Demotion *)

Definition demote_in (b k : string) (now : Z) (v : VersionRow) : VersionRow :=
  if decide (current_of b k v) then demote now v else v.
Definition demoted (b k : string) (now : Z) (db : Db) : Db :=
  set_versions (map (demote_in b k now) (versions db)) db.

Lemma demote_same_identity now v : same_identity (demote now v) v.
Proof. by repeat split. Qed.
Lemma promote_same_identity now v : same_identity (promote now v) v.
Proof. by repeat split. Qed.

Lemma demote_in_identity b k now v : same_identity (demote_in b k now v) v.
Proof. unfold demote_in. case_decide; by repeat split. Qed.

Lemma demote_in_latest b k now v :
  v_is_latest (demote_in b k now v) = true <-> v_is_latest v = true /\ ~ of_key b k v.
Proof.
  unfold demote_in. case_decide as Hc; unfold current_of in Hc; simpl; [naive_solver|].
  split; [|tauto]. intros El. split; [done|]. tauto.
Qed.

Lemma demoted_constraints b k now db : constraints db -> constraints (demoted b k now db).
Proof.
  intros Hdb. apply update_versions_constraints; [done|by intros; apply demote_same_identity|].
  destruct Hdb as (_ & _ & (_ & Hl & _) & _). apply unique_map; [|done].
  intros v _. case_decide; [by right|by left].
Qed.

Lemma current_of_index b k v : current_of b k v -> v_latest_index v = Some (b, k).
Proof. intros [[<- <-] E]. unfold v_latest_index. by rewrite E. Qed.

Lemma matching_current b k db : constraints db -> matching (current_of b k) (versions db) <= 1.
Proof.
  intros (_ & _ & (_ & Hl & _) & _). eapply (matching_one _ _ _ _ Hl).
  intros v _. apply current_of_index.
Qed.

Lemma demote_current_version_spec b k now db :
  constraints db -> demote_current_version b k now db = Ok (tt, demoted b k now db).
Proof.
  intros Hdb. unfold demote_current_version.
  erewrite tx_bind_eq by (apply update_versions_ok; by apply demoted_constraints).
  by rewrite (proj2 (Z.ltb_ge _ _)) by by apply matching_current.
Qed.

(** ** Removal of one row *)

(** Deleting with the cascade makes the release of the row's own reference redundant. *)
Lemma release_then_delete (P : VersionRow -> Prop) `{forall v, Decision (P v)} db v residency :
  constraints db -> v ∈ versions db -> P v ->
  delete_rows P (set_references
    (filter (fun r => ~ retained_reference (v_id v) residency r) (references db)) db) =
  delete_rows P db.
Proof.
  intros Hdb Hv HP. unfold delete_rows. simpl. f_equal.
  change (version_owners (set_versions (filter (fun v => ~ P v) (versions db)) (set_references _ db)))
    with (version_owners (set_versions (filter (fun v => ~ P v) (versions db)) db)).
  rewrite list_filter_filter. apply list_filter_iff. intros r. split; [tauto|].
  intros Hown. split; [done|]. intros (_ & _ & _ & E & _).
  apply version_owner_iff in Hown as (w & Hw & Eid & _). simpl in Hw.
  apply list_elem_of_filter in Hw as [HPw Hw].
  assert (w = v) as ->; [|done].
  destruct Hdb as (_ & _ & (Hi & _) & _).
  apply (unique_inj _ _ _ _ (v_id v) Hi); simpl; congruence || done.
Qed.

Lemma version_kind_total v :
  version_check v ->
  version_kind v = Ok (match v_object_id v with Some _ => KObject | None => KDeleteMarker end).
Proof.
  unfold version_kind. intros [[-> [o ->]]|[-> ->]]; done.
Qed.

Lemma version_check_in db v : constraints db -> v ∈ versions db -> version_check v.
Proof.
  intros (_ & _ & (_ & _ & _ & _ & _ & Hc & _) & _) Hv. rewrite Forall_forall in Hc. auto.
Qed.

Definition residency_total (db : Db) : Prop :=
  forall v id, v ∈ versions db -> v_object_id v = Some id ->
    exists r, r ∈ residencies db /\ r_version_row_id r = v_id v.

(** The branch of the deletions that releases the reference of a content version. *)
Definition release_content (v : VersionRow) : Tx unit :=
  let! kind := lift (version_kind v) in
  if bool_decide (kind = KObject) then
    let! _ := release_version_reference_in_transaction (v_id v) in tx_ret tt
  else tx_ret tt.

Lemma release_content_spec db v (P : VersionRow -> Prop) `{forall v, Decision (P v)} :
  constraints db -> residency_total db -> v ∈ versions db -> P v ->
  exists db', release_content v db = Ok (tt, db') /\ constraints db' /\
    versions db' = versions db /\ delete_rows P db' = delete_rows P db.
Proof.
  intros Hdb Hres Hv HP. unfold release_content.
  pose proof (version_kind_total v (version_check_in _ _ Hdb Hv)) as Hk.
  erewrite tx_bind_eq by (apply lift_ok; by rewrite Hk).
  destruct (v_object_id v) as [id|] eqn:Eo; simpl; [|exists db; done].
  destruct (Hres v id Hv Eo) as (r & Hr & Er).
  unfold release_version_reference_in_transaction, tx_bind, reads, lift.
  rewrite (proj2 (find_residency_ok db Hdb (v_id v) r)) by done. simpl.
  rewrite delete_references_ok by done. simpl. eexists; split; [done|].
  split; [by apply delete_references_constraints|]. split; [done|]. by apply release_then_delete.
Qed.

Lemma null_slot_index b k v :
  with_version_id b k None v -> v_null_slot_index v = Some (b, k).
Proof. intros [[<- <-] E]. unfold v_null_slot_index. by rewrite E. Qed.

Lemma remove_null_slot_spec b k db :
  constraints db -> residency_total db ->
  remove_null_slot b k db = Ok (tt, delete_rows (with_version_id b k None) db).
Proof.
  intros Hdb Hres. unfold remove_null_slot. unfold tx_bind at 1, one_version, lift, reads. simpl.
  assert (Hone : matching (with_version_id b k None) (versions db) <= 1).
  { destruct Hdb as (_ & _ & (_ & _ & _ & Hn & _) & _).
    eapply (matching_one _ _ _ _ Hn). intros v _. apply null_slot_index. }
  assert (Hdel : forall db', constraints db' -> versions db' = versions db ->
    delete_rows (with_version_id b k None) db' = delete_rows (with_version_id b k None) db ->
    (let! affected := delete_versions (with_version_id b k None) in
     fail_if 1 <? affected with invalid_version_index else tx_ret tt) db' =
    Ok (tt, delete_rows (with_version_id b k None) db)).
  { intros db' Hdb' Ev Ed. erewrite tx_bind_eq by (by apply delete_versions_ok).
    rewrite Ev, (proj2 (Z.ltb_ge _ _)) by done. by rewrite Ed. }
  destruct (head (filter (with_version_id b k None) (versions db))) as [v|] eqn:Eh.
  - apply head_filter_elem in Eh as [Hv HP].
    destruct (release_content_spec db v (with_version_id b k None)) as (db' & Hr & ? & ? & ?); [done..|].
    unfold release_content in Hr. erewrite tx_bind_eq by exact Hr. by apply Hdel.
  - erewrite tx_bind_eq by reflexivity. by apply Hdel.
Qed.

(** ** The state before the new row is inserted *)

Definition dropped (state : BucketVersioningState) (b k : string) (v : VersionRow) : Prop :=
  state <> Enabled /\ with_version_id b k None v.
#[export] Instance dropped_dec state b k v : Decision (dropped state b k v).
Proof. unfold dropped. apply _. Defined.

Definition prepared (state : BucketVersioningState) (b k : string) (now : Z) (db : Db) : Db :=
  delete_rows (dropped state b k) (demoted b k now db).

Definition next_sequence (b k : string) (db : Db) : Z :=
  default 0 (head (sort_by (by_key reverse) (map v_sequence (key_rows b k db)))) + 1.

Lemma delete_rows_none (P : VersionRow -> Prop) `{forall v, Decision (P v)} db :
  constraints db -> (forall v, v ∈ versions db -> ~ P v) -> delete_rows P db = db.
Proof.
  intros (_ & _ & _ & _ & (_ & _ & R3 & _) & (_ & _ & F3 & _)) Hn.
  assert (Hid : forall A (Q : A -> Prop) (HQ : forall a, Decision (Q a)) l,
    Forall Q l -> filter Q l = l).
  { intros A Q HQ l Hl. induction Hl; [done|]. rewrite filter_cons, decide_True by done. by f_equal. }
  unfold delete_rows. destruct db as [bs os vs ps rs fs]; simpl in *.
  rewrite (Hid _ _ _ vs) by (by apply Forall_forall).
  by rewrite !Hid.
Qed.

Lemma delete_rows_iff (P Q : VersionRow -> Prop) `{forall v, Decision (P v)} `{forall v, Decision (Q v)} db :
  (forall v, P v <-> Q v) -> delete_rows P db = delete_rows Q db.
Proof.
  intros HPQ. unfold delete_rows.
  rewrite (list_filter_iff (fun v => ~ P v) (fun v => ~ Q v)); [done|]. intros v. by rewrite HPQ.
Qed.

Lemma demoted_residency_total b k now db : residency_total db -> residency_total (demoted b k now db).
Proof.
  intros Hres v id Hv Ho. simpl in *. apply list_elem_of_fmap in Hv as (w & -> & Hw).
  destruct (demote_in_identity b k now w) as (Ei & _ & _ & _ & _ & Eo & _).
  rewrite Ei. apply (Hres w id); congruence.
Qed.

Definition installed_id (state : BucketVersioningState) (uuid : string) : PublicVersionId :=
  match state with Enabled => Opaque uuid | Suspended | Unversioned => VNull end.

Lemma prepare_install_spec uuid state b k now db :
  constraints db -> residency_total db -> fits_i64 (next_sequence b k db) = true ->
  prepare_install uuid state b k now db =
  Ok ((next_sequence b k db, installed_id state uuid), prepared state b k now db).
Proof.
  intros Hdb Hres Hfit. unfold prepare_install. erewrite tx_bind_eq by reflexivity.
  erewrite tx_bind_eq.
  2: { unfold allocate_next_sequence. erewrite tx_bind_eq by reflexivity. apply lift_ok.
       split; [|reflexivity]. apply ok_or_ok. unfold i64_checked_add.
       unfold next_sequence in Hfit. by rewrite Hfit. }
  pose proof (demoted_constraints b k now db Hdb) as Hd. unfold prepared.
  destruct state; simpl.
  2: { erewrite tx_bind_eq; [|erewrite tx_bind_eq by (by apply demote_current_version_spec); reflexivity].
       rewrite delete_rows_none; [done|done|]. intros v _ [Hne _]. done. }
  all: erewrite tx_bind_eq;
    [|erewrite tx_bind_eq by (by apply demote_current_version_spec);
      erewrite tx_bind_eq by (apply remove_null_slot_spec; [done|by apply demoted_residency_total]);
      reflexivity].
  all: unfold tx_ret; do 2 f_equal; apply delete_rows_iff; unfold dropped; intros v; naive_solver.
Qed.

Lemma next_sequence_lt b k db v : v ∈ versions db -> of_key b k v -> v_sequence v < next_sequence b k db.
Proof.
  intros Hv Hk. unfold next_sequence.
  destruct (head _) as [m|] eqn:E; simpl.
  - apply sort_by_head in E as [_ Hmin].
    specialize (Hmin (v_sequence v)). unfold key_le, ord_le, cmp, reverse_ord, cmp, z_ord in Hmin.
    simpl in Hmin. rewrite Z.compare_gt_iff in Hmin.
    assert (Hin : v_sequence v ∈ map v_sequence (key_rows b k db))
      by (apply list_elem_of_fmap_2, elem_of_key_rows; done).
    specialize (Hmin Hin). lia.
  - apply sort_by_head_none in E. apply map_eq_nil in E.
    assert (Hin : v ∈ key_rows b k db) by (by apply elem_of_key_rows). rewrite E in Hin.
    by apply elem_of_nil in Hin.
Qed.

Lemma next_sequence_positive b k db :
  (forall v, v ∈ versions db -> 0 < v_sequence v) -> 0 < next_sequence b k db.
Proof.
  intros Hpos. unfold next_sequence. destruct (head _) as [m|] eqn:E; simpl; [|lia].
  apply sort_by_head in E as [Hm _]. apply list_elem_of_fmap in Hm as (v & -> & Hv).
  apply elem_of_key_rows in Hv as [Hv _]. specialize (Hpos v Hv). lia.
Qed.

(** ** Installing a version *)

Section install.
Context (db : Db) (state : BucketVersioningState) (b k : string) (now : Z).
Context (public_uuid row_uuid : string) (oid : option string).

(** The row [insert_version_row] adds. *)
Definition new_row : VersionRow := {|
  v_id := row_uuid; v_bucket := b; v_key := k;
  v_version_id := version_as_db_value (installed_id state public_uuid);
  v_kind := match oid with Some _ => "object" | None => "delete_marker" end;
  v_object_id := oid; v_sequence := next_sequence b k db; v_is_latest := true;
  v_lifecycle_age_started_at := now; v_became_noncurrent_at := None; v_created_at := now;
  v_updated_at := now |}.

Definition inserted : Db :=
  set_versions (versions (prepared state b k now db) ++ [new_row]) (prepared state b k now db).

(** Fresh identifiers, an existing bucket, and an object of the key for a content version. *)
Record Installable : Prop := {
  ins_inv : Inv db;
  ins_bucket : b ∈ map b_name (buckets db);
  ins_sequence : fits_i64 (next_sequence b k db) = true;
  ins_row : nonempty row_uuid /\ forall v, v ∈ versions db -> v_id v <> row_uuid;
  ins_public : uuid_canonical public_uuid = Some public_uuid /\
               forall v, v ∈ versions db -> v_version_id v <> Some public_uuid;
  ins_object id : oid = Some id ->
    exists o, o ∈ objects db /\ o_id o = id /\ o_bucket o = b /\ o_key o = k
}.

Context (I : Installable).

Lemma dropped_demote v : dropped state b k (demote_in b k now v) <-> dropped state b k v.
Proof.
  destruct (demote_in_identity b k now v) as (_ & E2 & E3 & E4 & _).
  unfold dropped, with_version_id, of_key. by rewrite E2, E3, E4.
Qed.

Lemma elem_of_prepared w :
  w ∈ versions (prepared state b k now db) <->
  exists v, v ∈ versions db /\ w = demote_in b k now v /\ ~ dropped state b k v.
Proof.
  unfold prepared. simpl. rewrite list_elem_of_filter, list_elem_of_fmap. split.
  - intros [Hd (v & -> & Hv)]. rewrite dropped_demote in Hd. eauto.
  - intros (v & Hv & -> & Hd). rewrite dropped_demote. eauto.
Qed.

Lemma elem_of_inserted w :
  w ∈ versions inserted <->
  w = new_row \/ exists v, v ∈ versions db /\ w = demote_in b k now v /\ ~ dropped state b k v.
Proof.
  unfold inserted. simpl. rewrite elem_of_app, list_elem_of_singleton, <- elem_of_prepared.
  unfold prepared. simpl. tauto.
Qed.

Lemma prepared_constraints : constraints (prepared state b k now db).
Proof. apply delete_rows_constraints, demoted_constraints, I. Qed.

Lemma new_row_check : version_check new_row.
Proof. unfold version_check, new_row. simpl. destruct oid; [left|right]; split; done. Qed.

Lemma inserted_constraints : constraints inserted.
Proof.
  apply insert_version_constraints; simpl.
  - exact prepared_constraints.
  - exact new_row_check.
  - apply I.
  - intros id Hid. destruct (ins_object I id Hid) as (o & Ho & <- & _). by apply list_elem_of_fmap_2.
  - intros w Hw. apply elem_of_prepared in Hw as (v & Hv & -> & _).
    destruct (demote_in_identity b k now v) as (-> & _). by apply I.
  - intros w Hw Eb Ek. apply elem_of_prepared in Hw as (v & Hv & -> & Hd).
    destruct (demote_in_identity b k now v) as (_ & E2 & E3 & E4 & _ & _ & E7).
    rewrite E2 in Eb. rewrite E3 in Ek. rewrite E4, E7.
    assert (Hk : of_key b k v) by done. split_and!.
    + pose proof (next_sequence_lt b k db v Hv Hk). lia.
    + destruct state eqn:Es; simpl; [|by apply I|].
      all: intros E; apply Hd; by repeat split.
    + intros _. destruct (v_is_latest (demote_in b k now v)) eqn:El; [|done].
      by apply demote_in_latest in El as [_ ?].
Qed.

Lemma other_key_row v : v ∈ versions db -> ~ of_key b k v -> v ∈ versions inserted.
Proof.
  intros Hv Hk. apply elem_of_inserted. right. exists v. split; [done|]. split.
  - unfold demote_in. rewrite decide_False; [done|]. by intros [? _].
  - by intros (_ & ? & _).
Qed.

(** The installed version is the newest of its key. *)
Lemma inserted_latest v : v ∈ versions inserted ->
  v_is_latest v = true <->
  forall w, w ∈ versions inserted -> of_key (v_bucket v) (v_key v) w -> v_sequence w <= v_sequence v.
Proof.
  intros Hv. apply elem_of_inserted in Hv as [->|(v0 & Hv & -> & Hd)].
  - split; [|done]. intros _ w Hw Hk. simpl in *.
    apply elem_of_inserted in Hw as [->|(w0 & Hw & -> & _)]; [done|].
    destruct (demote_in_identity b k now w0) as (_ & E2 & E3 & _ & _ & _ & E7).
    rewrite E7. unfold of_key in Hk. rewrite E2, E3 in Hk.
    pose proof (next_sequence_lt b k db w0 Hw Hk). lia.
  - rewrite demote_in_latest.
    destruct (demote_in_identity b k now v0) as (_ & E2 & E3 & _ & _ & _ & E7).
    rewrite E2, E3, E7. destruct (decide (of_key b k v0)) as [Hk|Hk].
    + split; [tauto|]. intros Hmax. exfalso.
      destruct Hk as [Eb Ek]. specialize (Hmax new_row).
      assert (new_row ∈ versions inserted) as Hn by (apply elem_of_inserted; by left).
      pose proof (next_sequence_lt b k db v0 Hv (conj Eb Ek)). specialize (Hmax Hn).
      simpl in Hmax. rewrite Eb, Ek in Hmax. specialize (Hmax (conj eq_refl eq_refl)). lia.
    + rewrite (inv_latest db (ins_inv I) v0 Hv). split.
      * intros [Hmax _] w Hw Hkw.
        apply elem_of_inserted in Hw as [->|(w0 & Hw & -> & _)]; [by destruct Hk, Hkw|].
        destruct (demote_in_identity b k now w0) as (_ & F2 & F3 & _ & _ & _ & F7).
        rewrite F7. apply Hmax; [done|]. unfold of_key in *. by rewrite F2, F3 in Hkw.
      * intros Hmax. split; [|done]. intros w Hw Hkw. apply Hmax; [|done].
        apply other_key_row; [done|]. intros [Eb Ek]. apply Hk. destruct Hkw as [Fb Fk].
        split; congruence.
Qed.

Lemma object_by_id o o' :
  o ∈ objects db -> o' ∈ objects db -> o_id o = o_id o' -> o = o'.
Proof.
  intros Ho Ho' E. destruct (inv_constraints db (ins_inv I)) as (_ & (Hi & _) & _).
  apply (unique_inj _ _ _ _ (o_id o) Hi); simpl; congruence.
Qed.

(** The object a version of the new index holds lives at the key of the version. *)
Lemma inserted_object v o :
  v ∈ versions inserted -> o ∈ objects db -> v_object_id v = Some (o_id o) ->
  o_bucket o = v_bucket v /\ o_key o = v_key v.
Proof.
  intros Hv Ho E. apply elem_of_inserted in Hv as [->|(v0 & Hv & -> & _)]; simpl in *.
  - destruct (ins_object I _ E) as (o' & Ho' & Eid & Eb & Ek).
    by rewrite (object_by_id o o').
  - destruct (demote_in_identity b k now v0) as (_ & E2 & E3 & _ & _ & E6 & _).
    rewrite E2, E3. rewrite E6 in E.
    destruct (inv_object db (ins_inv I) v0 _ Hv E) as (o' & Ho' & Eid & Eb & Ek).
    by rewrite (object_by_id o o').
Qed.

Lemma inserted_projection o : o ∈ map (project_current b k oid) (objects db) ->
  o_is_latest o = true <->
  exists v, v ∈ versions inserted /\ v_is_latest v = true /\ v_object_id v = Some (o_id o).
Proof.
  intros Ho. apply list_elem_of_fmap in Ho as (o0 & -> & Ho). rewrite project_current_id.
  unfold project_current. case_decide as Hk; simpl.
  - rewrite bool_decide_eq_true. split.
    + intros E. exists new_row. split; [apply elem_of_inserted; by left|done].
    + intros (v & Hv & El & Eo). destruct (inserted_object v o0 Hv Ho Eo) as [Fb Fk].
      apply elem_of_inserted in Hv as [->|(v0 & Hv & -> & _)]; [done|].
      apply demote_in_latest in El as [_ Hn]. destruct Hn.
      destruct (demote_in_identity b k now v0) as (_ & E2 & E3 & _).
      unfold of_key. rewrite <- E2, <- E3. destruct Hk. split; congruence.
  - rewrite (inv_projection db (ins_inv I) o0 Ho). split.
    + intros (v & Hv & El & Eo). exists v. split; [|done]. apply other_key_row; [done|].
      intros [Eb Ek]. apply Hk. destruct (inv_object db (ins_inv I) v _ Hv Eo) as (o' & Ho' & Eid & ? & ?).
      rewrite (object_by_id o0 o') by done. split; congruence.
    + intros (v & Hv & El & Eo). destruct (inserted_object v o0 Hv Ho Eo) as [Fb Fk].
      apply elem_of_inserted in Hv as [->|(v0 & Hv & -> & _)]; [by destruct Hk|].
      apply demote_in_latest in El as [El Hn]. exists v0. split; [done|]. split; [done|].
      by destruct (demote_in_identity b k now v0) as (_ & _ & _ & _ & _ & <- & _).
Qed.

(** Any state with the new index, the rebuilt projection and a residency for every content version
    satisfies the invariant. *)
Lemma installed_inv db' :
  constraints db' -> versions db' = versions inserted ->
  objects db' = map (project_current b k oid) (objects db) -> residency_total db' -> Inv db'.
Proof.
  intros Hc Ev Eo Hr. split; rewrite ?Ev, ?Eo; try done.
  - exact inserted_latest.
  - intros v Hv. apply elem_of_inserted in Hv as [->|(v0 & Hv & -> & _)]; [done|].
    unfold demote_in. case_decide; [done|]. by apply I.
  - intros v id Hv Eid. apply elem_of_inserted in Hv as [->|(v0 & Hv & -> & _)].
    + simpl in Eid. destruct state; simplify_eq/=; by apply I.
    + destruct (demote_in_identity b k now v0) as (_ & _ & _ & E4 & _). rewrite E4 in Eid.
      by apply (inv_public db (ins_inv I) v0).
  - intros v Hv. apply elem_of_inserted in Hv as [->|(v0 & Hv & -> & _)].
    + simpl. apply next_sequence_positive. intros w. apply I.
    + destruct (demote_in_identity b k now v0) as (_ & _ & _ & _ & _ & _ & ->). by apply I.
  - intros v id Hv Eid.
    assert (exists o, o ∈ objects db /\ o_id o = id) as (o & Ho & <-).
    { apply elem_of_inserted in Hv as [->|(v0 & Hv & -> & _)].
      - destruct (ins_object I id Eid) as (o & ? & ? & _). eauto.
      - destruct (demote_in_identity b k now v0) as (_ & _ & _ & _ & _ & E6 & _). rewrite E6 in Eid.
        destruct (inv_object db (ins_inv I) v0 id Hv Eid) as (o & ? & ? & _). eauto. }
    destruct (inserted_object v o Hv Ho Eid) as [Fb Fk].
    exists (project_current b k oid o). split; [by apply list_elem_of_fmap_2|].
    unfold project_current. case_decide; done.
  - exact inserted_projection.
  - intros v id. rewrite <- Ev. apply Hr.
Qed.

(** ** The history after an installation *)

Lemma inserted_rows :
  sorted_rows b k inserted =
  new_row :: filter (fun v => ~ dropped state b k v) (map (demote_in b k now) (sorted_rows b k db)).
Proof.
  unfold sorted_rows, key_rows, inserted. cbn [versions set_versions].
  rewrite filter_app, filter_cons, decide_True by done. rewrite filter_nil.
  rewrite sort_by_snoc_least.
  - f_equal. unfold prepared. cbn [versions delete_rows demoted set_versions].
    rewrite list_filter_filter_comm, sort_by_filter.
    f_equal. rewrite (filter_map_identity (demote_in b k now)), sort_by_map; [done| |].
    + intros v. unfold newest_key.
      by destruct (demote_in_identity b k now v) as (_ & _ & _ & -> & _ & _ & ->).
    + intros v. destruct (demote_in_identity b k now v) as (_ & E2 & E3 & _). unfold of_key.
      by rewrite E2, E3.
  - intros w Hw. apply list_elem_of_filter in Hw as [Hk Hw].
    apply newest_key_lt. simpl. apply list_elem_of_filter in Hw as [_ Hw].
    apply list_elem_of_fmap in Hw as (v & -> & Hv).
    destruct (demote_in_identity b k now v) as (_ & E2 & E3 & _ & _ & _ & E7).
    rewrite E7. unfold of_key in Hk. rewrite E2, E3 in Hk. by apply next_sequence_lt.
Qed.

Lemma inserted_history :
  history b k inserted = hist_install state public_uuid oid (history b k db).
Proof.
  unfold history. rewrite inserted_rows. simpl.
  assert (Hent : forall v, entry_of (demote_in b k now v) = entry_of v).
  { intros v. unfold entry_of. by destruct (demote_in_identity b k now v) as (_ & _ & _ & -> & _ & -> & _). }
  assert (Hof : forall v, v ∈ sorted_rows b k db -> of_key b k v)
    by (intros v; rewrite elem_of_sorted_rows; tauto).
  assert (Htail : map entry_of (filter (fun v => ~ dropped state b k v)
      (map (demote_in b k now) (sorted_rows b k db))) =
    match state with Enabled => map entry_of (sorted_rows b k db)
    | _ => filter (fun e => fst e <> None) (map entry_of (sorted_rows b k db)) end).
  { induction (sorted_rows b k db) as [|v vs IH]; simpl; [by destruct state|].
    specialize (IH (fun w Hw => Hof w (list_elem_of_further _ _ _ Hw))).
    specialize (Hof v (list_elem_of_here _ _)). rewrite filter_cons.
    assert (Hd : dropped state b k (demote_in b k now v) <-> state <> Enabled /\ v_version_id v = None)
      by (rewrite dropped_demote; unfold dropped, with_version_id; tauto).
    destruct (decide (~ dropped state b k (demote_in b k now v))) as [Hkeep|Hdrop].
    - csimpl. rewrite IH, Hent. destruct state; [|done|].
      all: rewrite filter_cons, decide_True; [done|]; simpl; intros E; apply Hkeep, Hd; done.
    - apply dec_stable in Hdrop. apply Hd in Hdrop as [Hne En]. rewrite IH.
      destruct state; [|done|]; by rewrite filter_cons, decide_False by (simpl; tauto). }
  rewrite Htail.
  change (entry_of new_row) with (version_as_db_value (installed_id state public_uuid), oid).
  by destruct state.
Qed.

Lemma inserted_other_history b' k' :
  (b', k') <> (b, k) -> history b' k' inserted = history b' k' db.
Proof.
  intros Hne. unfold history, sorted_rows, key_rows, inserted. simpl.
  rewrite filter_app, filter_cons, decide_False, filter_nil, app_nil_r by (unfold of_key; simpl; naive_solver).
  do 2 f_equal. induction (versions db) as [|v vs IH]; simpl; [done|].
  rewrite !filter_cons.
  destruct (demote_in_identity b k now v) as (_ & E2 & E3 & _).
  destruct (decide (of_key b' k' v)) as [Hk|Hk].
  - assert (Hn : ~ of_key b k v) by (intros [??]; destruct Hk; apply Hne; congruence).
    assert (demote_in b k now v = v) as ->
      by (unfold demote_in; rewrite decide_False; [done|by intros [? _]]).
    rewrite decide_True by (by intros (_ & ? & _)). rewrite filter_cons, decide_True by done.
    by rewrite IH.
  - destruct (decide (~ dropped _ _ _ _)); [|done]. rewrite filter_cons, decide_False; [done|].
    unfold of_key in *. by rewrite E2, E3.
Qed.

Lemma prepared_fresh w id : (w, id) ∈ version_owners (prepared state b k now db) -> w <> row_uuid.
Proof.
  intros Hw. apply version_owner_iff in Hw as (v & Hv & <- & _).
  apply elem_of_prepared in Hv as (v0 & Hv & -> & _).
  destruct (demote_in_identity b k now v0) as (-> & _). by apply I.
Qed.

(** Every kept content version still has its residency. *)
Lemma prepared_residency v id :
  v ∈ versions (prepared state b k now db) -> v_object_id v = Some id ->
  exists r, r ∈ residencies (prepared state b k now db) /\ r_version_row_id r = v_id v.
Proof.
  intros Hv Eid. pose proof Hv as Hkept. apply elem_of_prepared in Hv as (v0 & Hv & -> & Hd).
  destruct (demote_in_identity b k now v0) as (E1 & _ & _ & _ & _ & E6 & _). rewrite E6 in Eid.
  destruct (inv_residency db (ins_inv I) v0 id Hv Eid) as (r & Hr & Er).
  exists r. rewrite E1. split; [|done]. unfold prepared. simpl. apply list_elem_of_filter.
  split; [|done]. pose proof (inv_constraints db (ins_inv I)) as (_ & _ & (Hi & _) & _ & (_ & _ & R3 & _) & _).
  rewrite Forall_forall in R3. apply R3 in Hr. apply version_owner_iff in Hr as (v1 & Hv1 & Ev1 & Eo1).
  assert (v1 = v0) as -> by (apply (unique_inj _ _ _ _ (v_id v0) Hi); simpl; congruence).
  apply version_owner_iff. exists (demote_in b k now v0). split; [exact Hkept|].
  rewrite E1, E6. split; congruence.
Qed.

Lemma versions_inserted : versions inserted = versions (prepared state b k now db) ++ [new_row].
Proof. done. Qed.

(** Content versions other than the new row have their residency in any state that keeps it. *)
Lemma inserted_residency_total (rs : list ResidencyRow) :
  (forall r, r ∈ residencies (prepared state b k now db) -> r ∈ rs) ->
  (forall id, oid = Some id -> exists r, r ∈ rs /\ r_version_row_id r = row_uuid) ->
  forall v id, v ∈ versions inserted -> v_object_id v = Some id ->
    exists r, r ∈ rs /\ r_version_row_id r = v_id v.
Proof.
  intros Hkeep Hnew v id Hv Eid. rewrite versions_inserted, elem_of_app, list_elem_of_singleton in Hv.
  destruct Hv as [Hv| ->].
  - destruct (prepared_residency v id Hv Eid) as (r & Hr & Er). eauto.
  - simpl in Eid. by apply (Hnew id).
Qed.
End install.

Lemma projected_tables b k oid db :
  versions (projected b k oid db) = versions db /\ residencies (projected b k oid db) = residencies db.
Proof. done. Qed.

Lemma history_versions b k db db' : versions db = versions db' -> history b k db = history b k db'.
Proof. intros E. unfold history, sorted_rows, key_rows. by rewrite E. Qed.

(** ** The transaction that installs an object *)

Section content.
Context (db : Db) (state : BucketVersioningState) (o : ObjectRow) (now clock : Z).
Context (public_uuid row_uuid : string).
Context (I : Installable db (o_bucket o) (o_key o) public_uuid row_uuid (Some (o_id o))).
Context (Ho : o ∈ objects db) (No : nonempty (o_id o)) (Nc : nonempty (o_cid o)).

Let b := o_bucket o.
Let k := o_key o.
Let v := new_row db state b k now public_uuid row_uuid (Some (o_id o)).
Let ins := inserted db state b k now public_uuid row_uuid (Some (o_id o)).

Lemma content_row : v ∈ versions ins.
Proof. unfold ins. rewrite versions_inserted. apply elem_of_app. right. left. Qed.

Lemma content_fresh w id : (w, id) ∈ version_owners (prepared state b k now db) -> w <> row_uuid.
Proof. by apply (prepared_fresh db state b k now public_uuid row_uuid (Some (o_id o))). Qed.

Lemma content_new_residency r : r ∈ residencies ins -> r_version_row_id r <> v_id v.
Proof.
  pose proof (prepared_constraints db state b k now public_uuid row_uuid (Some (o_id o)) I)
    as (_ & _ & _ & _ & (_ & _ & R3 & _) & _).
  rewrite Forall_forall in R3. intros Hr. eapply content_fresh. by apply R3.
Qed.

Lemma content_new_reference r : r ∈ references ins -> ref_version_row_id r <> v_id v.
Proof.
  pose proof (prepared_constraints db state b k now public_uuid row_uuid (Some (o_id o)) I)
    as (_ & _ & _ & _ & _ & (_ & _ & F3 & _)).
  rewrite Forall_forall in F3. intros Hr. eapply content_fresh. by apply F3.
Qed.

Lemma content_constraints : constraints ins.
Proof. by apply inserted_constraints. Qed.

Lemma content_attached_constraints : constraints (attached v o clock ins).
Proof.
  apply attach_constraints3; try done.
  - exact content_constraints.
  - exact content_row.
  - exact content_new_residency.
  - exact content_new_reference.
Qed.

Lemma content_tables :
  versions (attached v o clock ins) = versions ins /\ objects (attached v o clock ins) = objects db /\
  forall r, r ∈ residencies (prepared state b k now db) \/ r = hot_residency v o clock ->
    r ∈ residencies (attached v o clock ins).
Proof.
  destruct (with_hot_tables (o_cid o) clock ins) as (_ & Eo & Ev & Er & _).
  unfold attached. simpl. rewrite Ev, Eo, Er. split_and!; [done..|]. intros r Hr.
  rewrite elem_of_app, list_elem_of_singleton. done.
Qed.

Lemma insert_content_row :
  insert_version_row row_uuid clock b k (installed_id state public_uuid) KObject (Some (o_id o))
    (next_sequence b k db) now (prepared state b k now db) = Ok (tt, attached v o clock ins).
Proof.
  unfold insert_version_row. cbn [is_some]. rewrite bool_decide_true by done. cbn [Bool.eqb negb].
  erewrite tx_bind_eq by (apply exec_ok; exact content_constraints).
  unfold tx_bind at 1, reads. cbn [rbind].
  change (set_versions _ (prepared state b k now db)) with ins.
  rewrite (proj2 (find_object_ok _ content_constraints (o_id o) o)) by done.
  destruct (attach_hot_spec ins v o clock) as [res Hatt]; try done.
  - exact content_constraints.
  - exact content_row.
  - by destruct (ins_row _ _ _ _ _ _ I).
  - exact content_new_residency.
  - exact content_new_reference.
  - erewrite tx_bind_eq by reflexivity. erewrite tx_bind_eq by exact Hatt. done.
Qed.

Lemma install_content_run :
  install_content_version public_uuid row_uuid clock state o now db =
  Ok (as_s3_str (installed_id state public_uuid), projected b k (Some (o_id o)) (attached v o clock ins)).
Proof.
  unfold install_content_version. fold b k.
  erewrite tx_bind_eq.
  2: { apply prepare_install_spec; [apply I| |apply I]. intros w id. by apply (inv_residency db (ins_inv _ _ _ _ _ _ I)). }
  cbn beta iota. erewrite tx_bind_eq by exact insert_content_row.
  erewrite tx_bind_eq; [done|]. apply set_only_latest_spec; [exact content_attached_constraints|].
  intros id [= <-]. exists o. destruct content_tables as (_ & -> & _). done.
Qed.

Lemma install_content_inv : Inv (projected b k (Some (o_id o)) (attached v o clock ins)).
Proof.
  destruct content_tables as (Ev & Eo & Hr).
  eapply (installed_inv db state b k now public_uuid row_uuid (Some (o_id o))); [done| | | |].
  - apply projected_constraints. exact content_attached_constraints.
  - exact Ev.
  - unfold projected. cbn [objects set_objects]. by rewrite Eo.
  - unfold residency_total. destruct (projected_tables b k (Some (o_id o)) (attached v o clock ins))
      as [-> ->]. rewrite Ev. eapply inserted_residency_total; [done| |].
    + intros r Hin. apply Hr. by left.
    + intros _ _. exists (hot_residency v o clock). split; [|done]. apply Hr. by right.
Qed.

Lemma content_buckets : buckets (projected b k (Some (o_id o)) (attached v o clock ins)) = buckets db.
Proof. unfold attached, with_hot. simpl. by case_decide. Qed.

Lemma content_history :
  let db' := projected b k (Some (o_id o)) (attached v o clock ins) in
  history b k db' = hist_install state public_uuid (Some (o_id o)) (history b k db) /\
  forall b' k', (b', k') <> (b, k) -> history b' k' db' = history b' k' db.
Proof.
  intros db'. destruct content_tables as [Ev _]. split.
  - rewrite <- (inserted_history db state _ _ now public_uuid row_uuid) by exact I. by apply history_versions.
  - intros b' k' Hne.
    rewrite <- (inserted_other_history db state _ _ now public_uuid row_uuid (Some (o_id o)) b' k' Hne).
    by apply history_versions.
Qed.
End content.

(** ** Properties of the installations *)

(** publishing an object installs it as the newest version of its key: in an Enabled bucket on
    top of the history under a new id, in a Suspended or Unversioned bucket as the null version,
    replacing the previous null version.  The operation succeeds, keeps the invariant of the index,
    and changes no other key. *)
Theorem install_content_refines db state o now clock public_uuid row_uuid :
  Installable db (o_bucket o) (o_key o) public_uuid row_uuid (Some (o_id o)) ->
  o ∈ objects db -> nonempty (o_id o) -> nonempty (o_cid o) ->
  exists db',
    install_content_version public_uuid row_uuid clock state o now db =
      Ok (as_s3_str (installed_id state public_uuid), db') /\
    Inv db' /\
    history (o_bucket o) (o_key o) db' =
      hist_install state public_uuid (Some (o_id o)) (history (o_bucket o) (o_key o) db) /\
    forall b' k', (b', k') <> (o_bucket o, o_key o) -> history b' k' db' = history b' k' db.
Proof.
  intros I Ho No Nc. eexists. split_and!.
  - by apply install_content_run.
  - by apply install_content_inv.
  - by apply content_history.
  - by apply content_history.
Qed.

(** The database a delete marker leaves. *)
Definition marked db state b k now public_uuid row_uuid : Db :=
  projected b k None (inserted db state b k now public_uuid row_uuid None).

Lemma install_delete_marker_run db state b k now clock public_uuid row_uuid :
  Installable db b k public_uuid row_uuid None ->
  install_delete_marker public_uuid row_uuid clock state b k now db =
    Ok (as_s3_str (installed_id state public_uuid), marked db state b k now public_uuid row_uuid) /\
  Inv (marked db state b k now public_uuid row_uuid).
Proof.
  intros I. unfold marked. set (ins := inserted db state b k now public_uuid row_uuid None).
  assert (Hc : constraints ins) by (by apply inserted_constraints). split.
  - unfold install_delete_marker. erewrite tx_bind_eq.
    2: { apply prepare_install_spec; [apply I| |apply I]. intros w id. by apply (inv_residency db (ins_inv _ _ _ _ _ _ I)). }
    cbn beta iota. erewrite (tx_bind_eq _ _ _ tt ins).
    2: { unfold insert_version_row. cbn [is_some]. rewrite bool_decide_false by done. cbn [Bool.eqb negb].
         by erewrite tx_bind_eq by (apply exec_ok; exact Hc). }
    by erewrite tx_bind_eq by (by apply set_only_latest_spec).
  - eapply (installed_inv db state b k now public_uuid row_uuid None); try done.
    + by apply projected_constraints.
    + intros w id. apply inserted_residency_total; done.
Qed.

(** a DELETE without a version id installs a delete marker as the newest version, with the same
    effect on the history, and leaves no object projected as current for the key. *)
Theorem install_delete_marker_refines db state b k now clock public_uuid row_uuid :
  Installable db b k public_uuid row_uuid None ->
  exists db',
    install_delete_marker public_uuid row_uuid clock state b k now db =
      Ok (as_s3_str (installed_id state public_uuid), db') /\
    Inv db' /\
    history b k db' = hist_install state public_uuid None (history b k db) /\
    (forall o, o ∈ objects db' -> o_bucket o = b -> o_key o = k -> o_is_latest o = false) /\
    forall b' k', (b', k') <> (b, k) -> history b' k' db' = history b' k' db.
Proof.
  intros I. destruct (install_delete_marker_run db state b k now clock public_uuid row_uuid I) as [Hrun Hinv].
  eexists. split_and!; [exact Hrun|exact Hinv|..].
  - rewrite <- (inserted_history db state _ _ now public_uuid row_uuid) by exact I.
    by apply history_versions.
  - intros o Ho Eb Ek. simpl in Ho. apply list_elem_of_fmap in Ho as (o' & -> & _).
    unfold project_current in *. case_decide as Hn; [done|]. destruct Hn. by split.
  - intros b' k' Hne.
    rewrite <- (inserted_other_history db state _ _ now public_uuid row_uuid None b' k' Hne).
    by apply history_versions.
Qed.

(** ** Deleting one version *)

Lemma newest_row b k db v :
  v ∈ versions db -> of_key b k v ->
  exists w, head (sorted_rows b k db) = Some w /\ w ∈ versions db /\ of_key b k w /\
    forall u, u ∈ versions db -> of_key b k u -> v_sequence u <= v_sequence w.
Proof.
  intros Hv Hk. destruct (head (sorted_rows b k db)) as [w|] eqn:E.
  - exists w. split; [done|]. unfold sorted_rows in E. apply sort_by_head in E as [Hw Hmin].
    apply elem_of_key_rows in Hw as [Hw Hkw]. split_and!; [done..|]. intros u Hu Hku.
    apply newest_key_le, Hmin. by apply elem_of_key_rows.
  - apply sort_by_head_none in E.
    assert (Hin : v ∈ key_rows b k db) by (by apply elem_of_key_rows). rewrite E in Hin.
    by apply elem_of_nil in Hin.
Qed.

Section remove.
Context (db : Db) (sel : VersionRow) (clock : Z).
Context (Hinv : Inv db) (Hsel : sel ∈ versions db).

Let b := v_bucket sel.
Let k := v_key sel.

Definition without : Db := delete_rows (fun v => v_id v = v_id sel) db.

Lemma same_row v w : v ∈ versions db -> w ∈ versions db -> v_id v = v_id w -> v = w.
Proof.
  intros Hv Hw E. destruct (inv_constraints db Hinv) as (_ & _ & (Hi & _) & _).
  apply (unique_inj _ _ _ _ (v_id v) Hi); simpl; congruence.
Qed.

Lemma elem_of_without v : v ∈ versions without <-> v ∈ versions db /\ v <> sel.
Proof.
  unfold without. simpl. rewrite list_elem_of_filter. split; [|naive_solver by eauto using same_row].
  intros [Hne Hv]. split; [done|]. by intros ->.
Qed.

Lemma without_constraints : constraints without.
Proof. apply delete_rows_constraints, Hinv. Qed.

Lemma without_residency v id :
  v ∈ versions without -> v_object_id v = Some id ->
  exists r, r ∈ residencies without /\ r_version_row_id r = v_id v.
Proof.
  intros Hv Eid. pose proof Hv as Hkept. apply elem_of_without in Hv as [Hv Hne].
  destruct (inv_residency db Hinv v id Hv Eid) as (r & Hr & Er). exists r. split; [|done].
  unfold without. simpl. apply list_elem_of_filter. split; [|done].
  destruct (inv_constraints db Hinv) as (_ & _ & _ & _ & (_ & _ & R3 & _) & _).
  rewrite Forall_forall in R3. apply R3 in Hr. apply version_owner_iff in Hr as (w & Hw & Ew & Eo).
  assert (w = v) as -> by (apply same_row; congruence).
  apply version_owner_iff. exists v. done.
Qed.

(** At most one row of a key is current. *)
Lemma latest_unique v w :
  v ∈ versions db -> w ∈ versions db -> of_key (v_bucket v) (v_key v) w ->
  v_is_latest v = true -> v_is_latest w = true -> v = w.
Proof.
  intros Hv Hw [Eb Ek] Lv Lw. destruct (inv_constraints db Hinv) as (_ & _ & (_ & Hl & _) & _).
  apply (unique_inj _ _ _ _ (v_bucket v, v_key v) Hl); [done..| |]; unfold v_latest_index.
  - by rewrite Lv.
  - by rewrite Lw, Eb, Ek.
Qed.

Lemma sequence_unique v w :
  v ∈ versions db -> w ∈ versions db -> of_key (v_bucket v) (v_key v) w ->
  v_sequence v = v_sequence w -> v = w.
Proof.
  intros Hv Hw [Eb Ek] Es. destruct (inv_constraints db Hinv) as (_ & _ & (_ & _ & Hs & _) & _).
  apply (unique_inj _ _ _ _ (v_bucket v, v_key v, v_sequence v) Hs); [done..|].
  unfold v_sequence_index. by rewrite Eb, Ek, Es.
Qed.

Lemma version_id_unique v :
  v ∈ versions db -> of_key b k v -> v_version_id v = v_version_id sel -> v = sel.
Proof.
  intros Hv [Eb Ek] Ei.
  destruct (inv_constraints db Hinv) as (_ & _ & (_ & _ & _ & Hn & Hp & _) & _).
  destruct (v_version_id sel) as [id|] eqn:Es.
  - apply (unique_inj _ _ _ _ (b, k, id) Hp); [done..| |]; unfold v_public_id_index.
    + by rewrite Ei, Eb, Ek.
    + by rewrite Es.
  - apply (unique_inj _ _ _ _ (b, k) Hn); [done..| |]; unfold v_null_slot_index.
    + by rewrite Ei, Eb, Ek.
    + by rewrite Es.
Qed.

Lemma without_history : history b k without = hist_remove (v_version_id sel) (history b k db).
Proof.
  unfold history, hist_remove, sorted_rows, key_rows, without.
  cbn [versions delete_rows]. rewrite list_filter_filter_comm, sort_by_filter.
  assert (Hof : forall v, v ∈ sort_by (by_key newest_key) (filter (of_key b k) (versions db)) ->
    v ∈ versions db /\ of_key b k v).
  { intros v. rewrite elem_of_sort_by, list_elem_of_filter. tauto. }
  induction (sort_by _ _) as [|v vs IH]; [done|].
  specialize (IH (fun w Hw => Hof w (list_elem_of_further _ _ _ Hw))).
  destruct (Hof v (list_elem_of_here _ _)) as [Hv Hk]. csimpl. rewrite !filter_cons. simpl.
  destruct (decide (v_id v = v_id sel)) as [E|E].
  - rewrite decide_False by tauto. rewrite (same_row v sel Hv Hsel E), decide_False by tauto. done.
  - rewrite decide_True by done. rewrite decide_True; [csimpl; by rewrite IH|].
    intros Ei. apply E. by rewrite (version_id_unique v Hv Hk Ei).
Qed.

Lemma without_other_history b' k' : (b', k') <> (b, k) -> history b' k' without = history b' k' db.
Proof.
  intros Hne. unfold history, sorted_rows, key_rows, without. cbn [versions delete_rows].
  rewrite list_filter_filter. do 2 f_equal. apply list_filter_ext_in. intros v Hv. split; [tauto|].
  intros [Eb Ek]. split; [done|]. intros E. rewrite (same_row v sel Hv Hsel E) in *.
  apply Hne. unfold b, k. congruence.
Qed.

(** Removing a version that is not current leaves the rest of the index as it is. *)
Lemma without_inv : v_is_latest sel = false -> Inv without.
Proof.
  intros Hl. split; try exact without_constraints.
  - intros v Hv. apply elem_of_without in Hv as [Hv Hne]. rewrite (inv_latest db Hinv v Hv). split.
    + intros Hmax w Hw. apply elem_of_without in Hw as [Hw _]. by apply Hmax.
    + intros Hmax w Hw Hk. destruct (decide (w = sel)) as [->|Hws].
      * destruct (newest_row (v_bucket v) (v_key v) db v Hv) as (n & _ & Hn & Hkn & Hnmax); [done|].
        assert (v_is_latest n = true) as Ln.
        { apply (inv_latest db Hinv n Hn). intros u Hu Hku. apply Hnmax; [done|].
          unfold of_key in *. destruct Hkn, Hku. split; congruence. }
        assert (v_sequence n <= v_sequence v).
        { apply Hmax; [|done]. apply elem_of_without. split; [done|]. intros ->. congruence. }
        specialize (Hnmax sel Hsel Hk). lia.
      * apply Hmax; [|done]. by apply elem_of_without.
  - intros v Hv. apply elem_of_without in Hv as [Hv _]. by apply Hinv.
  - intros v id Hv. apply elem_of_without in Hv as [Hv _]. by apply (inv_public db Hinv).
  - intros v Hv. apply elem_of_without in Hv as [Hv _]. by apply Hinv.
  - intros v id Hv. apply elem_of_without in Hv as [Hv _]. by apply (inv_object db Hinv).
  - intros o Ho. rewrite (inv_projection db Hinv o Ho). split.
    + intros (v & Hv & Lv & E). exists v. split; [|done]. apply elem_of_without. split; [done|].
      intros ->. congruence.
    + intros (v & Hv & Lv & E). apply elem_of_without in Hv as [Hv _]. eauto.
  - exact without_residency.
Qed.

(** ** Promotion of the next version *)

Definition next_current : option VersionRow := head (sorted_rows b k without).

Definition promote_row (v : VersionRow) : VersionRow :=
  if decide (next_current = Some v) then promote clock v else v.

Definition promoted_db : Db :=
  projected b k (next_current ≫= v_object_id) (set_versions (map promote_row (versions without)) without).

Lemma promote_row_identity v : same_identity (promote_row v) v.
Proof. unfold promote_row. case_decide; by repeat split. Qed.

Lemma next_current_some p :
  next_current = Some p ->
  p ∈ versions without /\ of_key b k p /\
  forall u, u ∈ versions without -> of_key b k u -> v_sequence u <= v_sequence p.
Proof.
  intros E. unfold next_current in E.
  assert (Hp : p ∈ sorted_rows b k without) by (by apply head_elem).
  apply elem_of_sorted_rows in Hp as [Hp Hk]. split; [done|]. split; [done|].
  destruct (newest_row b k without p Hp Hk) as (w & Ew & _ & _ & Hmax). 
  assert (w = p) as -> by congruence. done.
Qed.

Lemma next_current_none v : next_current = None -> v ∈ versions without -> ~ of_key b k v.
Proof.
  intros E Hv Hk. destruct (newest_row b k without v Hv Hk) as (w & Ew & _).
  unfold next_current in E. congruence.
Qed.

Context (Hlatest : v_is_latest sel = true).

Lemma without_none_latest v : v ∈ versions without -> of_key b k v -> v_is_latest v = false.
Proof.
  intros Hv Hk. apply elem_of_without in Hv as [Hv Hne].
  destruct (v_is_latest v) eqn:E; [|done]. destruct Hne. symmetry. by apply latest_unique.
Qed.

Lemma promote_row_latest v : v ∈ versions without ->
  v_is_latest (promote_row v) = true <->
  next_current = Some v \/ (~ of_key b k v /\ v_is_latest v = true).
Proof.
  intros Hv. unfold promote_row. case_decide as Hn; simpl; [tauto|]. split.
  - intros E. right. split; [|done]. intros Hk. rewrite without_none_latest in E by done. done.
  - tauto.
Qed.

Lemma promoted_constraints :
  constraints (set_versions (map promote_row (versions without)) without).
Proof.
  replace (map promote_row (versions without)) with
    (update_where (fun v => next_current = Some v) (promote clock) (versions without)) by done.
  apply update_versions_constraints; [exact without_constraints|by intros; apply promote_same_identity|].
  change (update_where _ _ _) with (map promote_row (versions without)).
  apply (unique_intro _ v_id).
  - apply unique_map; [|by destruct without_constraints as (_ & _ & (? & _) & _)].
    intros v _. left. f_equal. apply promote_row_identity.
  - intros x y kk Hx Hy Ex Ey. 
    apply list_elem_of_fmap in Hx as (v & -> & Hv), Hy as (w & -> & Hw).
    destruct (promote_row_identity v) as (-> & Ev2 & Ev3 & _).
    destruct (promote_row_identity w) as (-> & Ew2 & Ew3 & _).
    unfold v_latest_index in Ex, Ey. rewrite Ev2, Ev3 in Ex. rewrite Ew2, Ew3 in Ey.
    destruct (v_is_latest (promote_row v)) eqn:Lv; [|done].
    destruct (v_is_latest (promote_row w)) eqn:Lw; [|done].
    assert (of_key (v_bucket v) (v_key v) w) as [Eb Ek] by (split; congruence).
    apply promote_row_latest in Lv; [|done]. apply promote_row_latest in Lw; [|done].
    destruct Lv as [Nv|[Kv Lv]], Lw as [Nw|[Kw Lw]].
    + congruence.
    + apply next_current_some in Nv as (_ & [??] & _). destruct Kw. split; congruence.
    + apply next_current_some in Nw as (_ & [??] & _). destruct Kv. split; congruence.
    + apply elem_of_without in Hv as [Hv _], Hw as [Hw _].
      by rewrite (latest_unique v w Hv Hw (conj Eb Ek) Lv Lw).
Qed.

Lemma elem_of_promoted w :
  w ∈ versions promoted_db <-> exists v, v ∈ versions without /\ w = promote_row v.
Proof. unfold promoted_db. simpl. rewrite list_elem_of_fmap. naive_solver. Qed.

Lemma other_key_without v : v ∈ versions db -> ~ of_key b k v -> v ∈ versions without.
Proof.
  intros Hv Hk. apply elem_of_without. split; [done|]. intros ->. by apply Hk.
Qed.

Lemma promoted_latest w : w ∈ versions promoted_db ->
  v_is_latest w = true <->
  forall u, u ∈ versions promoted_db -> of_key (v_bucket w) (v_key w) u -> v_sequence u <= v_sequence w.
Proof.
  intros Hw. apply elem_of_promoted in Hw as (v & Hv & ->). rewrite promote_row_latest by done.
  destruct (promote_row_identity v) as (_ & -> & -> & _ & _ & _ & ->).
  transitivity (forall u, u ∈ versions without -> of_key (v_bucket v) (v_key v) u ->
    v_sequence u <= v_sequence v).
  2: { setoid_rewrite elem_of_promoted. split.
       - intros Hmax u (u0 & Hu & ->). destruct (promote_row_identity u0) as (_ & E2 & E3 & _ & _ & _ & E7).
         unfold of_key in *. rewrite E2, E3, E7. auto.
       - intros Hmax u Hu Hk. specialize (Hmax (promote_row u) (ex_intro _ u (conj Hu eq_refl))).
         destruct (promote_row_identity u) as (_ & E2 & E3 & _ & _ & _ & E7).
         unfold of_key in *. rewrite E2, E3, E7 in Hmax. auto. }
  destruct (decide (of_key b k v)) as [Hk|Hk].
  - pose proof Hk as [Eb Ek]. rewrite Eb, Ek. split.
    + intros [Hn|[? _]]; [|done]. by apply next_current_some in Hn as (_ & _ & ?).
    + intros Hmax. left. destruct (newest_row b k without v Hv Hk) as (p & Ep & Hp & Hkp & Hpmax).
      unfold next_current. rewrite Ep. f_equal.
      apply elem_of_without in Hp as [Hp' ?], Hv as [Hv' ?]. apply sequence_unique; [done..| |].
      * unfold of_key. destruct Hkp. split; congruence.
      * assert (v_sequence p <= v_sequence v) by (apply Hmax; [by apply elem_of_without|done]).
        assert (v_sequence v <= v_sequence p) by (apply Hpmax; [by apply elem_of_without|done]). lia.
  - apply elem_of_without in Hv as [Hv Hne]. rewrite (inv_latest db Hinv v Hv). split.
    + intros [Hn|[_ Hmax]]; [by apply next_current_some in Hn as (_ & ? & _)|].
      intros u Hu. apply elem_of_without in Hu as [Hu _]. by apply Hmax.
    + intros Hmax. right. split; [done|]. intros u Hu Hku. apply Hmax; [|done].
      apply other_key_without; [done|]. intros [??]. apply Hk. destruct Hku. split; congruence.
Qed.

Lemma object_of_row v o :
  v ∈ versions db -> o ∈ objects db -> v_object_id v = Some (o_id o) ->
  o_bucket o = v_bucket v /\ o_key o = v_key v.
Proof.
  intros Hv Ho E. destruct (inv_object db Hinv v _ Hv E) as (o' & Ho' & Eid & Eb & Ek).
  destruct (inv_constraints db Hinv) as (_ & (Hi & _) & _).
  assert (o = o') as -> by (apply (unique_inj _ _ _ _ (o_id o) Hi); simpl; congruence). done.
Qed.

Lemma promoted_projection o : o ∈ objects promoted_db ->
  o_is_latest o = true <->
  exists v, v ∈ versions promoted_db /\ v_is_latest v = true /\ v_object_id v = Some (o_id o).
Proof.
  intros Ho. unfold promoted_db in Ho. simpl in Ho. apply list_elem_of_fmap in Ho as (o0 & -> & Ho).
  rewrite project_current_id. setoid_rewrite elem_of_promoted. unfold project_current.
  case_decide as Hk; simpl.
  - rewrite bool_decide_eq_true. split.
    + intros E. destruct next_current as [p|] eqn:En; [|done]. simpl in E.
      apply next_current_some in En as Hp. destruct Hp as (Hp & _ & _).
      exists (promote_row p). split; [eauto|].
      rewrite promote_row_latest by done. split; [by left|].
      by destruct (promote_row_identity p) as (_ & _ & _ & _ & _ & -> & _).
    + intros (w & (v & Hv & ->) & Lw & Ew). apply promote_row_latest in Lw; [|done].
      destruct (promote_row_identity v) as (_ & _ & _ & _ & _ & E6 & _). rewrite E6 in Ew.
      destruct Lw as [->|[Hn _]]; [done|]. apply elem_of_without in Hv as [Hv _].
      destruct (object_of_row v o0 Hv Ho Ew). destruct Hn, Hk. split; congruence.
  - rewrite (inv_projection db Hinv o0 Ho). split.
    + intros (v & Hv & Lv & Ev). destruct (object_of_row v o0 Hv Ho Ev).
      assert (Hn : ~ of_key b k v) by (intros [??]; apply Hk; split; congruence).
      pose proof (other_key_without v Hv Hn) as Hw. exists (promote_row v). split; [eauto|].
      rewrite promote_row_latest by done. split; [by right|].
      by destruct (promote_row_identity v) as (_ & _ & _ & _ & _ & -> & _).
    + intros (w & (v & Hv & ->) & Lw & Ew). apply promote_row_latest in Lw; [|done].
      destruct (promote_row_identity v) as (_ & _ & _ & _ & _ & E6 & _). rewrite E6 in Ew.
      apply elem_of_without in Hv as [Hv' _]. destruct (object_of_row v o0 Hv' Ho Ew).
      destruct Lw as [Hn|[_ Lv]]; [|eauto]. apply next_current_some in Hn as (_ & [??] & _).
      destruct Hk. split; congruence.
Qed.

Lemma promoted_inv : Inv promoted_db.
Proof.
  split.
  - apply projected_constraints, promoted_constraints.
  - exact promoted_latest.
  - intros w Hw. apply elem_of_promoted in Hw as (v & Hv & ->). unfold promote_row.
    case_decide; [done|]. apply elem_of_without in Hv as [Hv _]. by apply Hinv.
  - intros w id Hw. apply elem_of_promoted in Hw as (v & Hv & ->).
    destruct (promote_row_identity v) as (_ & _ & _ & -> & _).
    apply elem_of_without in Hv as [Hv _]. by apply (inv_public db Hinv).
  - intros w Hw. apply elem_of_promoted in Hw as (v & Hv & ->).
    destruct (promote_row_identity v) as (_ & _ & _ & _ & _ & _ & ->).
    apply elem_of_without in Hv as [Hv _]. by apply Hinv.
  - intros w id Hw Eid. apply elem_of_promoted in Hw as (v & Hv & ->).
    destruct (promote_row_identity v) as (_ & E2 & E3 & _ & _ & E6 & _). rewrite E2, E3.
    rewrite E6 in Eid. apply elem_of_without in Hv as [Hv _].
    destruct (inv_object db Hinv v id Hv Eid) as (o & Ho & Ei & Eb & Ek).
    exists (project_current b k (next_current ≫= v_object_id) o).
    split; [unfold promoted_db; simpl; by apply list_elem_of_fmap_2|].
    unfold project_current. case_decide; done.
  - exact promoted_projection.
  - intros w id Hw Eid. apply elem_of_promoted in Hw as (v & Hv & ->).
    destruct (promote_row_identity v) as (E1 & _ & _ & _ & _ & E6 & _). rewrite E1. rewrite E6 in Eid.
    by apply (without_residency v id).
Qed.

Lemma promoted_history b' k' : history b' k' promoted_db = history b' k' without.
Proof.
  unfold history, sorted_rows, key_rows, promoted_db. cbn [versions projected set_objects set_versions].
  rewrite (filter_map_identity promote_row), sort_by_map, map_map.
  - apply map_ext. intros v. unfold entry_of.
    by destruct (promote_row_identity v) as (_ & _ & _ & -> & _ & -> & _).
  - intros v. unfold newest_key. by destruct (promote_row_identity v) as (_ & _ & _ & -> & _ & _ & ->).
  - intros v. destruct (promote_row_identity v) as (_ & E2 & E3 & _). unfold of_key. by rewrite E2, E3.
Qed.
End remove.

(** ** Resolving a row *)

(** What a row resolves to, given the object it holds. *)
Definition resolution (row : VersionRow) (o : option ObjectRow) : ResolvedVersion :=
  {| rv_id := v_id row; rv_key := v_key row;
     rv_public_version_id := default NULL_VERSION_ID (v_version_id row);
     rv_kind := match v_object_id row with Some _ => KObject | None => KDeleteMarker end;
     rv_object := o; rv_is_latest := v_is_latest row; rv_sequence := v_sequence row;
     rv_lifecycle_age_started_at := v_lifecycle_age_started_at row;
     rv_became_noncurrent_at := v_became_noncurrent_at row; rv_created_at := v_created_at row |}.

Definition holds_object (db : Db) (row : VersionRow) (o : option ObjectRow) : Prop :=
  match v_object_id row with
  | Some id => exists o', o = Some o' /\ o' ∈ objects db /\ o_id o' = id
  | None => o = None
  end.

Lemma public_version_id_ok db row :
  Inv db -> row ∈ versions db ->
  exists id, public_version_id row = Ok id /\ as_s3_str id = default NULL_VERSION_ID (v_version_id row).
Proof.
  intros Hinv Hrow. unfold public_version_id. destruct (v_version_id row) as [value|] eqn:E.
  - exists (Opaque value). split; [|done]. apply map_err_ok, parse_s3_ok. right. split; [done|].
    by apply (inv_public db Hinv row).
  - by exists VNull.
Qed.

Lemma resolved_from_row_spec db row validate :
  Inv db -> row ∈ versions db -> (validate = true -> v_is_latest row = true) ->
  exists o, resolved_from_row row validate db = Ok (resolution row o, db) /\ holds_object db row o.
Proof.
  intros Hinv Hrow Hval. pose proof (inv_constraints db Hinv) as Hc. unfold resolved_from_row, holds_object.
  erewrite tx_bind_eq by (apply lift_ok; by rewrite version_kind_total by by eapply version_check_in).
  destruct (public_version_id_ok db row Hinv Hrow) as (id & Hid & Es).
  erewrite tx_bind_eq by (apply lift_ok; by rewrite Hid). rewrite Es.
  destruct (v_object_id row) as [oid|] eqn:Eo.
  - destruct (inv_object db Hinv row oid Hrow Eo) as (o & Ho & Ei & Eb & Ek).
    exists (Some o). split; [|by exists o]. erewrite tx_bind_eq by (by apply lift_ok).
    erewrite (tx_bind_eq _ _ db o db).
    2: { unfold get_by_id, tx_bind, reads, lift. by rewrite (proj2 (find_object_ok db Hc oid o)). }
    rewrite Eb, Ek, !String.eqb_refl. cbn [negb orb].
    assert (validate && (negb (v_is_latest row) || negb (o_is_latest o)) = false) as ->.
    { destruct validate; [|done]. rewrite Hval by done. simpl. apply negb_false_iff.
      apply (inv_projection db Hinv o Ho). exists row. rewrite Ei. auto. }
    unfold lift, resolved_new, resolution. by rewrite Eo.
  - exists None. split; [|done]. erewrite (tx_bind_eq _ _ db tt db).
    2: { destruct validate; [|done]. rewrite Hval by done. cbn [negb].
         unfold tx_bind, reads. cbn [rbind]. rewrite matching_zero; [done|].
         intros o Ho (Eb & Ek & El). apply (inv_projection db Hinv o Ho) in El as (v & Hv & Lv & Ev).
         destruct (object_of_row db Hinv v o Hv Ho Ev) as [Fb Fk].
         assert (v = row) as -> by (apply (latest_unique db Hinv); [done..|split; congruence|done|by apply Hval]).
         congruence. }
    unfold lift, resolved_new, resolution. by rewrite Eo.
Qed.

(** ** The transaction that deletes a version *)

Definition kind_of (v : VersionRow) : VersionKind :=
  match v_object_id v with Some _ => KObject | None => KDeleteMarker end.

Lemma release_branch_spec db v :
  Inv db -> v ∈ versions db ->
  exists db', (if bool_decide (kind_of v = KObject) then
       let! _ := release_version_reference_in_transaction (v_id v) in tx_ret tt
     else tx_ret tt) db = Ok (tt, db') /\
    constraints db' /\ versions db' = versions db /\
    delete_rows (fun w => v_id w = v_id v) db' = delete_rows (fun w => v_id w = v_id v) db.
Proof.
  intros Hinv Hv. pose proof (inv_constraints db Hinv) as Hc.
  destruct (release_content_spec db v (fun w => v_id w = v_id v)) as (db' & Hr & ? & ? & ?); try done.
  { intros w id. by apply (inv_residency db Hinv). }
  exists db'. split; [|done]. unfold release_content in Hr.
  pose proof (version_kind_total v (version_check_in _ _ Hc Hv)) as Hk.
  unfold tx_bind at 1, lift in Hr. by rewrite Hk in Hr.
Qed.

Lemma matching_row db v :
  constraints db -> v ∈ versions db -> matching (fun w => v_id w = v_id v) (versions db) = 1.
Proof.
  intros (_ & _ & (Hi & _) & _) Hv.
  apply (matching_exactly_one (fun w => Some (v_id w)) _ (v_id v) v _ Hi); [done..|].
  by intros w _ ->.
Qed.

Definition after_remove (clock : Z) (sel : VersionRow) (db : Db) : Db :=
  if v_is_latest sel then promoted_db db sel clock else without db sel.

Section promote_run.
Context (db : Db) (sel : VersionRow) (clock : Z).
Context (Hinv : Inv db) (Hsel : sel ∈ versions db) (Hlatest : v_is_latest sel = true).
Let b := v_bucket sel.
Let k := v_key sel.
Let d := without db sel.

Lemma promote_clear :
  update_versions (current_of b k) (demote clock) d = Ok (0, d).
Proof.
  assert (Hn : forall v, v ∈ versions d -> ~ current_of b k v).
  { intros v Hv [Hk Hl]. by rewrite (without_none_latest db sel Hinv Hsel Hlatest v) in Hl. }
  assert (Hsame : set_versions (update_where (current_of b k) (demote clock) (versions d)) d = d)
    by (rewrite update_where_none by done; by destruct d).
  rewrite update_versions_ok; rewrite Hsame; [|by apply without_constraints].
  by rewrite matching_zero.
Qed.

Lemma promote_set p :
  next_current db sel = Some p ->
  update_versions (fun v => v_id v = v_id p /\ v_is_latest v = false) (promote clock) d =
  Ok (1, set_versions (map (promote_row db sel clock) (versions d)) d).
Proof.
  intros Hp. destruct (next_current_some db sel p Hp) as (Hin & Hk & _).
  pose proof (without_constraints db sel Hinv) as Hc.
  assert (Hsame : update_where (fun v => v_id v = v_id p /\ v_is_latest v = false) (promote clock)
    (versions d) = map (promote_row db sel clock) (versions d)).
  { unfold update_where. apply map_ext_in. intros v Hv%list_elem_of_In. unfold promote_row. rewrite Hp.
    destruct (decide (v_id v = v_id p)) as [E|E].
    - assert (v = p) as ->.
      { apply (elem_of_without db sel Hinv Hsel) in Hv as [??], Hin as [??]. by apply (same_row db Hinv). }
      rewrite decide_True, decide_True; [done..|]. split; [done|].
      by apply (without_none_latest db sel Hinv Hsel Hlatest).
    - rewrite decide_False, decide_False; [done|congruence|tauto]. }
  rewrite update_versions_ok; rewrite Hsame; [|by apply promoted_constraints].
  do 2 f_equal. destruct Hc as (_ & _ & (Hi & _) & _).
  eapply (matching_exactly_one _ _ (v_id p) p _ Hi); [done| |by intros v _ [-> _]].
  split; [done|]. by apply (without_none_latest db sel Hinv Hsel Hlatest).
Qed.

Lemma promote_project :
  set_only_latest b k (next_current db sel ≫= v_object_id)
    (set_versions (map (promote_row db sel clock) (versions d)) d) = Ok (tt, promoted_db db sel clock).
Proof.
  apply set_only_latest_spec; [by apply promoted_constraints|]. intros id Eid. simpl.
  destruct (next_current db sel) as [p|] eqn:Hp; [|done]. simpl in Eid.
  destruct (next_current_some db sel p Hp) as (Hin & [Eb Ek] & _).
  apply (elem_of_without db sel Hinv Hsel) in Hin as [Hin _].
  destruct (inv_object db Hinv p id Hin Eid) as (o & ? & ? & ? & ?). exists o. subst b k. split_and!; done || congruence.
Qed.

Lemma promote_none_versions :
  next_current db sel = None ->
  set_versions (map (promote_row db sel clock) (versions d)) d = d.
Proof.
  intros Hn. rewrite (map_ext_in _ id); [rewrite map_id; by destruct d|].
  intros v _. unfold promote_row. by rewrite Hn.
Qed.

Lemma promoted_head p :
  next_current db sel = Some p ->
  promote clock p ∈ versions (promoted_db db sel clock) /\
  head (sorted_rows b k (promoted_db db sel clock)) = Some (promote clock p).
Proof.
  intros Hp. destruct (next_current_some db sel p Hp) as (Hin & Hk & Hmax).
  assert (Hq : promote clock p ∈ versions (promoted_db db sel clock)).
  { apply elem_of_promoted. exists p. split; [done|]. unfold promote_row. by rewrite decide_True. }
  split; [done|].
  destruct (newest_row b k (promoted_db db sel clock) (promote clock p) Hq Hk) as (w & Ew & Hw & Hkw & Hle).
  rewrite Ew. f_equal.
  assert (v_is_latest w = true) as Hl.
  { apply (inv_latest _ (promoted_inv db sel clock Hinv Hsel Hlatest) w Hw). intros u Hu Hku. apply Hle; [done|].
    destruct Hku, Hkw. split; congruence. }
  apply (latest_unique _ (promoted_inv db sel clock Hinv Hsel Hlatest)); try done. subst b k. destruct Hk, Hkw; split; simpl; congruence.
Qed.
End promote_run.

Lemma remove_and_promote_run db clock sel :
  Inv db -> sel ∈ versions db ->
  exists promoted,
    remove_and_promote clock sel db = Ok (promoted, after_remove clock sel db) /\
    match promoted with
    | Some rv => v_is_latest sel = true /\
        exists p o, next_current db sel = Some p /\ rv = resolution (promote clock p) o /\
          holds_object (promoted_db db sel clock) (promote clock p) o
    | None => v_is_latest sel = true -> next_current db sel = None
    end.
Proof.
  intros Hinv Hsel. pose proof (inv_constraints db Hinv) as Hc.
  destruct (release_branch_spec db sel Hinv Hsel) as (db1 & Hrel & Hc1 & Ev1 & Ed1).
  unfold remove_and_promote, lock_version_by_id, after_remove.
  erewrite tx_bind_eq by done. erewrite tx_bind_eq.
  2: { apply lift_eq. by rewrite (proj2 (find_version_ok db Hc (v_id sel) sel)). }
  erewrite tx_bind_eq by (apply lift_eq, version_kind_total, (version_check_in db sel Hc Hsel)).
  rewrite (tx_bind_eq _ _ _ _ _ Hrel).
  rewrite (tx_bind_eq _ _ _ _ _ (delete_versions_ok _ _ Hc1)), Ev1, Ed1, matching_row by done.
  cbn [Z.eqb Pos.eqb negb]. destruct (v_is_latest sel) eqn:Hl; cbn [negb]; [|by exists None].
  fold (without db sel). erewrite tx_bind_eq by done.
  change (head _) with (next_current db sel). cbn beta.
  pose proof (promote_project db sel clock Hinv Hsel Hl) as Hset.
  destruct (next_current db sel) as [p|] eqn:Hp.
  - rewrite (tx_bind_eq _ _ _ _ _ (promote_clear db sel clock Hinv Hsel Hl)). cbn [Z.ltb Z.compare].
    rewrite (tx_bind_eq _ _ _ _ _ (promote_set db sel clock Hinv Hsel Hl p Hp)). cbn [Z.eqb Pos.eqb negb].
    destruct (promoted_head db sel clock Hinv Hsel Hl p Hp) as [Hq _].
    pose proof (promoted_inv db sel clock Hinv Hsel Hl) as Hpi.
    destruct (resolved_from_row_spec _ _ true Hpi Hq) as (o & Ho & Hh); [done|].
    exists (Some (resolution (promote clock p) o)). split; [|eauto 8].
    erewrite tx_bind_eq by (apply lift_eq, version_kind_total, (version_check_in _ _ (inv_constraints _ Hpi) Hq)).
    change (Some p ≫= v_object_id) with (v_object_id (promote clock p)) in Hset.
    erewrite (tx_bind_eq _ _ _ tt (promoted_db db sel clock)).
    2: { destruct (v_object_id (promote clock p)); [|exact Hset]. erewrite tx_bind_eq by (by apply lift_eq). exact Hset. }
    by rewrite (tx_bind_eq _ _ _ _ _ Ho).
  - exists None. split; [|done]. rewrite promote_none_versions in Hset by done.
    by rewrite (tx_bind_eq _ _ _ _ _ Hset).
Qed.

Lemma after_remove_spec db clock sel :
  Inv db -> sel ∈ versions db ->
  Inv (after_remove clock sel db) /\
  history (v_bucket sel) (v_key sel) (after_remove clock sel db) =
    hist_remove (v_version_id sel) (history (v_bucket sel) (v_key sel) db) /\
  forall b' k', (b', k') <> (v_bucket sel, v_key sel) ->
    history b' k' (after_remove clock sel db) = history b' k' db.
Proof.
  intros Hinv Hsel. unfold after_remove. destruct (v_is_latest sel) eqn:Hl.
  - split; [by apply promoted_inv|]. rewrite (promoted_history db sel clock).
    split; [by apply without_history|].
    intros b' k' Hne. rewrite (promoted_history db sel clock). by apply without_other_history.
  - split_and!; [by apply without_inv|by apply without_history|intros; by apply without_other_history].
Qed.

Lemma projected_none_same b k (d : Db) :
  head (filter (o_current b k) (objects d)) = None -> projected b k None d = d.
Proof.
  rewrite head_filter_none. intros Hn. unfold projected.
  rewrite (map_ext_in _ id); [rewrite map_id; by destruct d|]. intros o Ho%list_elem_of_In.
  unfold project_current. case_decide as Ek; [|done]. rewrite bool_decide_false by done.
  destruct (o_is_latest o) eqn:El; [|by rewrite <- El, o_set_latest_same].
  destruct (Hn o Ho). by destruct Ek.
Qed.

Lemma delete_rows_ext_in (P Q : VersionRow -> Prop) `{forall v, Decision (P v)} `{forall v, Decision (Q v)} db :
  (forall v, v ∈ versions db -> P v <-> Q v) -> delete_rows P db = delete_rows Q db.
Proof.
  intros HPQ. unfold delete_rows.
  rewrite (list_filter_ext_in (fun v => ~ P v) (fun v => ~ Q v)); [done|]. intros v Hv. by rewrite HPQ.
Qed.

(** deleting a version by id removes exactly that version from the history of its key.  When it
    was the current one the newest remaining version becomes current and is returned, and the
    object projection follows it.  The operation succeeds on every indexed version, keeps the
    invariant, and changes the history of no other key. *)
Theorem remove_and_promote_refines db clock sel :
  Inv db -> sel ∈ versions db ->
  exists promoted db',
    remove_and_promote clock sel db = Ok (promoted, db') /\
    Inv db' /\
    history (v_bucket sel) (v_key sel) db' =
      hist_remove (v_version_id sel) (history (v_bucket sel) (v_key sel) db) /\
    (forall b' k', (b', k') <> (v_bucket sel, v_key sel) -> history b' k' db' = history b' k' db) /\
    match promoted with
    | Some rv => v_is_latest sel = true /\ rv_is_latest rv = true /\
        exists p, head (sorted_rows (v_bucket sel) (v_key sel) db') = Some p /\
          exists o, rv = resolution p o /\ holds_object db' p o
    | None => v_is_latest sel = true -> history (v_bucket sel) (v_key sel) db' = []
    end.
Proof.
  intros Hinv Hsel. destruct (remove_and_promote_run db clock sel Hinv Hsel) as (promoted & Hrun & Hres).
  destruct (after_remove_spec db clock sel Hinv Hsel) as (Hinv' & Hh & Hother).
  exists promoted, (after_remove clock sel db). split_and!; [done..|]. unfold after_remove in *.
  destruct promoted as [rv|].
  - destruct Hres as (Hl & p & o & Hp & -> & Hhold). rewrite Hl in *. split_and!; [done..|].
    exists (promote clock p). split; [by apply promoted_head|eauto].
  - intros Hl. rewrite Hl in *. specialize (Hres eq_refl). rewrite (promoted_history db sel clock).
    unfold next_current in Hres. unfold history. by destruct (sorted_rows _ _ _).
Qed.
End spec.
