(* ===== verification/VersionReads.v ===== *)
(** * Reading the version index

    Resolution of a version selector ([resolve_version] of [src/store/object_version.rs]) against
    the abstract history of a key, the guarded deletion of an expired delete marker
    ([delete_current_sole_marker]), and the paging of [scan_versions]. *)

From Stdlib Require Import ZArith Lia.
From stdpp Require Import prelude strings list sorting.
From S2P Require Import Prelude Errors VersionModel Database ObjectStore ResidencyStore VersionStore VersionSpec.
Local Open Scope Z_scope.

(** ** Resolution on histories *)

(** The entry of a history a selector names. *)
Definition hist_resolve (selector : VersionSelector) (h : list Entry) : option Entry :=
  match selector with
  | Current => head h
  | Exact id => head (filter (fun e => e.1 = version_as_db_value id) h)
  end.

(** The error for a selector that names no entry. *)
Definition not_found (b k : string) (selector : VersionSelector) : AppError :=
  match selector with
  | Current => no_such_key b k
  | Exact id => no_such_version b k id
  end.

(** A resolved version shows an entry: its public id, and its object as the store holds it. *)
Definition shows (db : Db) (e : Entry) (rv : ResolvedVersion) : Prop :=
  rv_public_version_id rv = default NULL_VERSION_ID e.1 /\
  match e.2 with
  | Some id => rv_kind rv = KObject /\ exists o, rv_object rv = Some o /\ o ∈ objects db /\ o_id o = id
  | None => rv_kind rv = KDeleteMarker /\ rv_object rv = None
  end.

Section reads.
Context `{UuidLaws}.

(** The public ids a caller can hold: results of [parse_s3]. *)
Definition valid_selector (selector : VersionSelector) : Prop :=
  match selector with
  | Exact (Opaque id) => uuid_canonical id = Some id
  | _ => True
  end.

Lemma selector_db_value_valid id :
  valid_selector (Exact id) -> selector_db_value id = Ok (version_as_db_value id).
Proof.
  destruct id as [|id]; [done|]. simpl. intros Hid.
  by rewrite (proj2 (parse_s3_ok id (Opaque id))) by auto.
Qed.

Lemma resolution_shows db row o :
  holds_object db row o -> shows db (entry_of row) (resolution row o).
Proof.
  unfold holds_object, shows, entry_of, resolution. simpl. split; [done|].
  destruct (v_object_id row) as [id|]; [|done]. destruct H1 as (o' & -> & ? & ?). eauto.
Qed.

Lemma current_row b k db :
  Inv db -> head (filter (current_of b k) (versions db)) = head (sorted_rows b k db).
Proof.
  intros Hinv. destruct (head (sorted_rows b k db)) as [w|] eqn:E.
  - assert (Hw : w ∈ sorted_rows b k db) by (by apply head_elem).
    apply elem_of_sorted_rows in Hw as [Hw Hk].
    destruct (newest_row b k db w Hw Hk) as (w' & E' & _ & _ & Hmax).
    assert (w' = w) as -> by congruence. destruct Hk as [Eb Ek].
    assert (Hl : v_is_latest w = true).
    { apply (inv_latest db Hinv w Hw). by rewrite Eb, Ek. }
    apply head_filter_one; [done|by repeat split|].
    intros y Hy [[Yb Yk] Yl]. apply (latest_unique db Hinv); try done. split; congruence.
  - apply head_filter_none. intros v Hv [Hk _].
    destruct (newest_row b k db v Hv Hk) as (w & E' & _). congruence.
Qed.

Lemma exact_row b k id db :
  Inv db ->
  entry_of <$> head (filter (with_version_id b k id) (versions db)) =
  head (filter (fun e => e.1 = id) (history b k db)).
Proof.
  intros Hinv. destruct (head (filter _ (versions db))) as [v|] eqn:E; simpl.
  - apply head_filter_elem in E as [Hv [Hk Hid]]. symmetry. apply head_filter_one.
    + apply list_elem_of_fmap. exists v. split; [done|]. by apply elem_of_sorted_rows.
    + done.
    + intros e (w & -> & Hw)%list_elem_of_fmap Ew. apply elem_of_sorted_rows in Hw as [Hw [Wb Wk]].
      f_equal. destruct Hk. eapply (version_id_unique db v Hinv); try done; [split|]; simpl in *; congruence.
  - symmetry. apply head_filter_none. rewrite head_filter_none in E.
    intros e (w & -> & Hw)%list_elem_of_fmap Ew. apply elem_of_sorted_rows in Hw as [Hw Hk].
    by apply (E w Hw).
Qed.

Lemma one_version_spec b k selector db :
  Inv db -> valid_selector selector ->
  exists row, one_version b k selector db = Ok (row, db) /\
    entry_of <$> row = hist_resolve selector (history b k db) /\
    forall v, row = Some v -> v ∈ versions db /\ of_key b k v /\
      (selector = Current -> v_is_latest v = true).
Proof.
  intros Hinv Hval. destruct selector as [|id]; cbn [one_version hist_resolve].
  - eexists. split; [done|]. rewrite current_row by done. split.
    + unfold history. by destruct (sorted_rows b k db).
    + intros v Ev. rewrite <- current_row in Ev by done. apply head_filter_elem in Ev as [? [??]]. done.
  - erewrite tx_bind_eq by (by apply lift_eq, selector_db_value_valid).
    eexists. split; [done|]. split; [by apply exact_row|].
    intros v [? [??]]%head_filter_elem. done.
Qed.

(** C31: reading a key by selector agrees with its history: the current selector finds the newest
    entry, an exact id the entry with that id, each with its object; a delete marker is returned as
    such; a selector that names nothing gives NoSuchKey or NoSuchVersion, an exact id in an
    unversioned bucket an InvalidArgument; and nothing is written. *)
Theorem resolve_version_spec db b k selector state :
  Inv db -> get_versioning_state b db = Ok (state, db) -> valid_selector selector ->
  if bool_decide (state = Unversioned) && negb (match selector with Current => true | _ => false end)
  then exists m, resolve_version b k selector db = Err (InvalidArgument m)
  else match hist_resolve selector (history b k db) with
       | Some e => exists rv, resolve_version b k selector db = Ok (rv, db) /\
           shows db e rv /\ rv_key rv = k /\ (selector = Current -> rv_is_latest rv = true)
       | None => resolve_version b k selector db = Err (not_found b k selector)
       end.
Proof.
  intros Hinv Hstate Hval. unfold resolve_version, resolve_with_lock. cbn [andb].
  rewrite (tx_bind_eq _ _ _ _ _ Hstate).
  destruct (one_version_spec b k selector db Hinv Hval) as (row & Hrow & Eh & Hin).
  assert (Hres : forall v validate, row = Some v -> (validate = true -> selector = Current) ->
    exists rv, resolved_from_row v validate db = Ok (rv, db) /\ shows db (entry_of v) rv /\ rv_key rv = k /\
      (selector = Current -> rv_is_latest rv = true)).
  { intros v validate Ev Hvd. destruct (Hin v Ev) as (Hv & [_ Ek] & Hl).
    destruct (resolved_from_row_spec db v validate Hinv Hv) as (o & Ho & Hh); [auto|].
    eexists. split; [exact Ho|]. split; [by apply resolution_shows|done]. }
  destruct (bool_decide (state = Unversioned)), selector as [|id]; cbn [andb negb].
  2: by eexists.
  all: rewrite (tx_bind_eq _ _ _ _ _ Hrow), <- Eh; destruct row as [v|]; cbn [fmap option_fmap option_map];
    [|done].
  1: erewrite tx_bind_eq by (by apply lift_eq).
  all: by apply Hres.
Qed.

(** ** Expired delete markers *)

Lemma key_rows_one b k db :
  Z.of_nat (length (key_rows b k db)) = 1 -> exists v, key_rows b k db = [v] /\ v ∈ versions db /\ of_key b k v.
Proof.
  destruct (key_rows b k db) as [|v [|w l]] eqn:E; simpl; [lia| |lia]. intros _. exists v. split; [done|].
  apply elem_of_key_rows. rewrite E. left.
Qed.

(** The only row of a key is current, and removing a marker that is alone leaves nothing. *)
Lemma remove_sole_marker db v :
  Inv db -> v ∈ versions db -> v_object_id v = None -> key_rows (v_bucket v) (v_key v) db = [v] ->
  Inv (without db v) /\ history (v_bucket v) (v_key v) db = [(v_version_id v, None)] /\
  history (v_bucket v) (v_key v) (without db v) = [] /\
  forall b' k', (b', k') <> (v_bucket v, v_key v) -> history b' k' (without db v) = history b' k' db.
Proof.
  intros Hinv Hv Ho Hk.
  assert (Hh : history (v_bucket v) (v_key v) db = [(v_version_id v, None)]).
  { unfold history, sorted_rows. rewrite Hk. unfold entry_of. simpl. by rewrite Ho. }
  assert (Hl : v_is_latest v = true).
  { apply (inv_latest db Hinv v Hv). intros w Hw Kw.
    assert (Hin : w ∈ key_rows (v_bucket v) (v_key v) db) by (by apply elem_of_key_rows).
    rewrite Hk in Hin. apply list_elem_of_singleton in Hin as ->. lia. }
  assert (Hhist : history (v_bucket v) (v_key v) (without db v) = []).
  { rewrite without_history, Hh by done. unfold hist_remove. rewrite filter_cons_False; [done|]. simpl. tauto. }
  assert (Hn : next_current db v = None).
  { unfold next_current. unfold history in Hhist. by destruct (sorted_rows _ _ _). }
  assert (Hsame : promoted_db db v 0 = without db v).
  { unfold promoted_db. rewrite Hn, promote_none_versions by done. simpl. apply projected_none_same.
    apply head_filter_none. intros o Ho' (Eb & Ek & El). simpl in Ho'.
    apply (inv_projection db Hinv o Ho') in El as (w & Hw & _ & Ew).
    destruct (object_of_row db Hinv w o Hw Ho' Ew) as [Wb Wk].
    assert (Hin : w ∈ key_rows (v_bucket v) (v_key v) db) by (apply elem_of_key_rows; split; [done|split; congruence]).
    rewrite Hk in Hin. apply list_elem_of_singleton in Hin as ->. congruence. }
  split_and!; [|done|done|intros; by apply without_other_history].
  rewrite <- Hsame. by apply promoted_inv.
Qed.

(** the lifecycle removal of an expired delete marker deletes only what it selected: it succeeds
    on any snapshot of a version row, and unless the row is still, unchanged, the delete marker that
    is the one remaining version of its key it changes nothing; when it is, the key is left without
    versions, no other key changes and the invariant is kept. *)
Theorem delete_current_sole_marker_safe db selected :
  Inv db -> version_check selected ->
  exists r db', delete_current_sole_marker selected db = Ok (r, db') /\
    match r with
    | MarkerDeleted result =>
        dv_version_id result = Some (default NULL_VERSION_ID (v_version_id selected)) /\
        dv_deleted_delete_marker result = true /\
        history (v_bucket selected) (v_key selected) db = [(v_version_id selected, None)] /\
        history (v_bucket selected) (v_key selected) db' = [] /\ Inv db' /\
        forall b' k', (b', k') <> (v_bucket selected, v_key selected) -> history b' k' db' = history b' k' db
    | AlreadySatisfied | Stale => db' = db
    end.
Proof.
  intros Hinv Hck. pose proof (inv_constraints db Hinv) as Hc. unfold delete_current_sole_marker.
  destruct (negb (v_is_latest selected)); [by eexists _, _|].
  erewrite tx_bind_eq by (by apply lift_eq, version_kind_total).
  destruct (negb (bool_decide (_ = KDeleteMarker))); [by eexists _, _|].
  erewrite tx_bind_eq by reflexivity. cbn beta.
  destruct (Z.eqb_spec (Z.of_nat (length (key_rows (v_bucket selected) (v_key selected) db))) 1) as [E|];
    [|by eexists _, _]. cbn [negb].
  destruct (key_rows_one _ _ _ E) as (v & Hrows & Hv & [Vb Vk]).
  rewrite (tx_bind_eq _ _ _ _ _ (delete_versions_ok db (same_marker selected) Hc)).
  assert (Hmatch : forall w, w ∈ versions db -> same_marker selected w -> w = v).
  { intros w Hw (_ & Wb & Wk & _).
    assert (Hin : w ∈ key_rows (v_bucket selected) (v_key selected) db) by (by apply elem_of_key_rows).
    rewrite Hrows in Hin. by apply list_elem_of_singleton in Hin. }
  destruct (decide (same_marker selected v)) as [Hm|Hm].
  - assert (Hone : matching (same_marker selected) (versions db) = 1).
    { pose proof Hc as (_ & _ & (Hi & _) & _). apply (matching_exactly_one _ _ (v_id v) v _ Hi); [done..|].
      intros w Hw Hs. simpl. by rewrite (Hmatch w Hw Hs). }
    rewrite Hone. cbn [Z.eqb Pos.eqb]. eexists _, _. split; [done|]. cbn [dv_version_id dv_deleted_delete_marker].
    assert (delete_rows (same_marker selected) db = without db v) as ->.
    { apply delete_rows_ext_in. intros w Hw. split; [by intros ->%Hmatch|]. intros Ew.
      by rewrite (same_row db Hinv w v Hw Hv Ew). }
    destruct Hm as (_ & _ & _ & _ & Eo & _ & _ & Ei). rewrite <- Ei, <- Vb, <- Vk in *.
    destruct (remove_sole_marker db v Hinv Hv Eo Hrows) as (? & ? & ? & ?). by split_and!.
  - assert (Hnone : forall w, w ∈ versions db -> ~ same_marker selected w)
      by (intros w Hw Hs; rewrite (Hmatch w Hw Hs) in Hs; done).
    rewrite matching_zero, delete_rows_none by done. cbn [Z.eqb]. erewrite tx_bind_eq by reflexivity.
    rewrite Hrows. simpl. by eexists _, _.
Qed.

(** ** Paging through the versions of a bucket *)

Section scan.
Context (key_like : string -> string -> bool).

(** Every version row of the bucket under the prefix, in listing order. *)
Definition listing_rows (b prefix : string) (db : Db) : list VersionRow :=
  sort_by (by_key listing_key)
    (filter (fun v => v_bucket v = b /\ key_like prefix (v_key v) = true) (versions db)).

(** The cursor of a row, as a page reports it. *)
Definition cursor_of (v : VersionRow) : VersionCursor :=
  {| vc_key := v_key v; vc_sequence := v_sequence v;
     vc_public_version_id := default NULL_VERSION_ID (v_version_id v) |}.

Lemma elem_of_listing b prefix db v :
  v ∈ listing_rows b prefix db <-> v ∈ versions db /\ v_bucket v = b /\ key_like prefix (v_key v) = true.
Proof. unfold listing_rows. rewrite elem_of_sort_by, list_elem_of_filter. tauto. Qed.

Lemma scan_rows_filter b prefix cursor limit db P :
  match cursor with None => Ok (fun _ => true) | Some c => after_cursor c end = Ok P ->
  scan_rows key_like b prefix cursor limit db =
    Ok (take (Z.to_nat limit) (filter (fun v => P v = true) (listing_rows b prefix db))).
Proof.
  intros Hp. unfold scan_rows, listing_rows. rewrite Hp. simpl. by rewrite sort_by_filter.
Qed.

(** A row is in range of a cursor exactly when it is not before the row of the cursor. *)
Lemma after_cursor_row db w :
  Inv db -> w ∈ versions db ->
  exists P, after_cursor (cursor_of w) = Ok P /\
    forall v, v ∈ versions db -> v_bucket v = v_bucket w ->
      P v = true <-> key_le listing_key w v.
Proof.
  intros Hinv Hw. unfold after_cursor.
  assert (is_key_boundary (cursor_of w) = false) as ->.
  { unfold is_key_boundary. simpl. apply andb_false_iff. left. apply Z.eqb_neq.
    pose proof (inv_positive db Hinv w Hw). unfold KEY_BOUNDARY_SEQUENCE, i64_min. lia. }
  set (same := if String.eqb _ _ then _ else _).
  assert (exists S, same = Ok S /\ S w = true) as (S & -> & HS).
  { subst same. simpl. destruct (v_version_id w) as [id|] eqn:E; simpl.
    - pose proof (inv_public db Hinv w id Hw E) as Hid.
      destruct (String.eqb_spec id NULL_VERSION_ID) as [->|_]; [by rewrite uuid_canonical_null in Hid|].
      rewrite (proj2 (parse_s3_ok id (Opaque id))) by auto. eexists. split; [done|]. cbn beta. rewrite E.
      simpl. unfold le_b. by rewrite cmp_refl.
    - eexists. split; [done|]. cbn beta. by rewrite E. }
  simpl. eexists. split; [done|]. intros v Hv Eb. cbn beta.
  unfold key_le, ord_le, listing_key, newest_key. rewrite !prod_cmp. cbn [fst snd].
  rewrite orb_true_iff, andb_true_iff, orb_true_iff, andb_true_iff, lt_b_true, String.eqb_eq, Z.ltb_lt, Z.eqb_eq.
  destruct (cmp (v_key w) (v_key v)) eqn:Ek; cbn [then_with].
  - apply cmp_eq_iff in Ek. change (cmp (reverse (v_sequence w)) _) with (v_sequence v ?= v_sequence w).
    destruct (Z.compare_spec (v_sequence v) (v_sequence w)) as [E|E|E]; cbn [then_with].
    + assert (v = w) as -> by (by apply (sequence_unique db Hinv)).
      rewrite cmp_refl. split; [done|]. intros _. right. split; [done|]. by right.
    + split; [done|]. intros _. right. split; [done|]. by left.
    + split; [|done]. intros [?|[_ [?|[? _]]]]; [done|lia..].
  - split; [done|auto].
  - split; [|done]. intros [?|[E _]]; [done|]. rewrite E, cmp_refl in Ek. done.
Qed.

Lemma resolve_rows_spec db rows :
  Inv db -> (forall v, v ∈ rows -> v ∈ versions db) ->
  exists page, resolve_rows rows db = Ok (page, db) /\
    Forall2 (fun v rv => exists o, rv = resolution v o /\ holds_object db v o) rows page.
Proof.
  intros Hinv. induction rows as [|v rows IH]; intros Hin; [by exists []|]. cbn [resolve_rows].
  destruct (resolved_from_row_spec db v false Hinv) as (o & Ho & Hh); [apply Hin; left|done|].
  destruct IH as (page & Hpage & Hf); [intros; apply Hin; by right|].
  rewrite (tx_bind_eq _ _ _ _ _ Ho), (tx_bind_eq _ _ _ _ _ Hpage).
  eexists. split; [done|]. constructor; eauto.
Qed.

Lemma listing_sorted b prefix db : StronglySorted (key_le listing_key) (listing_rows b prefix db).
Proof. apply sort_by_sorted. Qed.

Lemma listing_nodup b prefix db : Inv db -> NoDup (listing_rows b prefix db).
Proof.
  intros Hinv. unfold listing_rows. rewrite sort_by_perm. apply NoDup_filter.
  destruct (inv_constraints db Hinv) as (_ & _ & (Hi & _) & _). by eapply unique_nodup.
Qed.

Lemma scan_rows_resume b prefix limit db before w rest :
  Inv db -> listing_rows b prefix db = before ++ w :: rest ->
  scan_rows key_like b prefix (Some (cursor_of w)) limit db = Ok (take (Z.to_nat limit) (w :: rest)).
Proof.
  intros Hinv El. assert (Hin : forall v, v ∈ before ++ w :: rest -> v ∈ versions db /\ v_bucket v = b).
  { intros v. rewrite <- El, elem_of_listing. tauto. }
  destruct (Hin w) as [Hw Eb]; [apply elem_of_app; right; left|].
  destruct (after_cursor_row db w Hinv Hw) as (P & HP & Hiff).
  rewrite (scan_rows_filter b prefix (Some (cursor_of w)) limit db P HP), El. do 2 f_equal.
  pose proof (listing_sorted b prefix db) as Hs. pose proof (listing_nodup b prefix db Hinv) as Hn.
  rewrite El in Hs, Hn. apply filter_suffix.
  - intros x Hx Hp. destruct (Hin x) as [Hx' Ex]; [apply elem_of_app; by left|].
    apply Hiff in Hp; [|done|congruence].
    assert (Hle : key_le listing_key x w) by (eapply StronglySorted_app_1_elem_of; [exact Hs|done|left]).
    pose proof (ord_le_antisym _ _ Hle Hp) as [= E1 E2 _].
    assert (x = w) as -> by (apply (sequence_unique db Hinv); try done; split; congruence).
    apply NoDup_app in Hn as (_ & Hd & _). apply (Hd w Hx). left.
  - intros x Hx. destruct (Hin x) as [Hx' Ex]; [apply elem_of_app; by right|].
    apply Hiff; [done|congruence|]. apply elem_of_cons in Hx as [->|Hx]; [apply ord_le_refl|].
    apply StronglySorted_app in Hs as (_ & _ & Hs). inversion Hs as [|? ? _ Hf]. rewrite Forall_forall in Hf. by apply Hf.
Qed.

Definition presents (db : Db) (v : VersionRow) (rv : ResolvedVersion) : Prop :=
  exists o, rv = resolution v o /\ holds_object db v o.

Lemma scan_versions_rows b prefix cursor limit db state rows :
  Inv db -> get_versioning_state b db = Ok (state, db) -> state <> Unversioned -> 0 < limit ->
  scan_rows key_like b prefix cursor limit db = Ok rows -> (forall v, v ∈ rows -> v ∈ versions db) ->
  exists page, scan_versions key_like b prefix cursor limit db = Ok (page, db) /\ Forall2 (presents db) rows page.
Proof.
  intros Hinv Hs Hne Hl Hrows Hin. unfold scan_versions. rewrite (tx_bind_eq _ _ _ _ _ Hs).
  rewrite bool_decide_false by done. rewrite (proj2 (Z.eqb_neq _ _)) by lia. cbn [orb].
  erewrite tx_bind_eq by (by rewrite Hrows). by apply resolve_rows_spec.
Qed.

Lemma one_version_of_row w id db :
  Inv db -> w ∈ versions db -> valid_selector (Exact id) -> version_as_db_value id = v_version_id w ->
  one_version (v_bucket w) (v_key w) (Exact id) db = Ok (Some w, db).
Proof.
  intros Hinv Hw Hval Hid. cbn [one_version].
  erewrite tx_bind_eq by (by apply lift_eq, selector_db_value_valid). unfold reads. do 2 f_equal. f_equal.
  apply head_filter_one; [done|by repeat split|]. intros y Hy [Ky Iy].
  apply (version_id_unique db w Hinv Hw); [done|done|congruence].
Qed.

(** The markers a page reports for a row are accepted as its cursor. *)
Lemma validate_cursor_of_row b prefix w db state :
  Inv db -> get_versioning_state b db = Ok (state, db) -> state <> Unversioned ->
  w ∈ versions db -> v_bucket w = b -> starts_with prefix (v_key w) = true ->
  validate_version_cursor b prefix (Some (v_key w)) (Some (vc_public_version_id (cursor_of w))) db =
    Ok (Some (cursor_of w), db).
Proof.
  intros Hinv Hs Hne Hw Eb Hp. unfold validate_version_cursor. rewrite (tx_bind_eq _ _ _ _ _ Hs).
  rewrite bool_decide_false, Hp by done. cbn [negb].
  destruct (public_version_id_ok db w Hinv Hw) as (id & Hid & Es).
  assert (Hparse : parse_s3 (vc_public_version_id (cursor_of w)) = Ok id /\ valid_selector (Exact id) /\
    version_as_db_value id = v_version_id w).
  { unfold public_version_id in Hid. simpl. destruct (v_version_id w) as [value|] eqn:Ev; simpl in *.
    - apply map_err_ok in Hid as Hid'. split; [done|]. apply parse_s3_ok in Hid' as [[-> ->]|[-> Hc]].
      + pose proof (inv_public db Hinv w _ Hw Ev) as Hu. by rewrite uuid_canonical_null in Hu.
      + done.
    - injection Hid as <-. done. }
  destruct Hparse as (Hparse & Hval & Hdb). erewrite tx_bind_eq by (by apply lift_eq). rewrite <- Eb.
  rewrite (tx_bind_eq _ _ _ _ _ (one_version_of_row w id db Hinv Hw Hval Hdb)).
  erewrite tx_bind_eq by (by apply lift_eq). erewrite tx_bind_eq by (apply lift_eq; by rewrite Hid).
  unfold cursor_of. simpl in Es. by rewrite Es.
Qed.

(** paging through the versions of a bucket neither repeats nor skips a row.  A scan returns, in
    listing order (key, then newest first), the first rows of the listing; the markers of any listed
    row are accepted as a cursor, and the scan from that cursor returns the listing from exactly that
    row on, each row with its public id and its object. *)
Theorem scan_versions_resumes b prefix limit db state :
  Inv db -> get_versioning_state b db = Ok (state, db) -> state <> Unversioned -> 0 < limit ->
  (exists page, scan_versions key_like b prefix None limit db = Ok (page, db) /\
     Forall2 (presents db) (take (Z.to_nat limit) (listing_rows b prefix db)) page) /\
  forall before w rest, listing_rows b prefix db = before ++ w :: rest ->
    starts_with prefix (v_key w) = true ->
    exists cursor page,
      validate_version_cursor b prefix (Some (v_key w)) (Some (default NULL_VERSION_ID (v_version_id w))) db =
        Ok (Some cursor, db) /\
      scan_versions key_like b prefix (Some cursor) limit db = Ok (page, db) /\
      Forall2 (presents db) (take (Z.to_nat limit) (w :: rest)) page.
Proof.
  intros Hinv Hs Hne Hl. split.
  - eapply scan_versions_rows; [done..| |].
    + rewrite (scan_rows_filter b prefix None limit db (fun _ => true) eq_refl). by rewrite filter_all.
    + intros v Hv. apply subseteq_take in Hv. by apply elem_of_listing in Hv as [? _].
  - intros before w rest El Hp.
    assert (Hin : forall v, v ∈ before ++ w :: rest -> v ∈ versions db /\ v_bucket v = b)
      by (intros v; rewrite <- El, elem_of_listing; tauto).
    destruct (Hin w) as [Hw Eb]; [apply elem_of_app; right; left|].
    exists (cursor_of w). 
    destruct (scan_versions_rows b prefix (Some (cursor_of w)) limit db state (take (Z.to_nat limit) (w :: rest)))
      as (page & Hpage & Hf); [done..|by eapply scan_rows_resume| |].
    + intros v Hv. apply subseteq_take in Hv. apply Hin, elem_of_app. by right.
    + exists page. split; [|done]. by eapply validate_cursor_of_row.
Qed.
End scan.
End reads.
