(* ===== verification/Publication.v ===== *)
(** * Publication and deletion transactions ([src/store/pinning/publication.rs])

    [write_object_version_and_update_lifecycle] publishes an object, [delete_version_attempt]
    deletes the current or an exact version according to the versioning state of the bucket.  Both
    also end the pin leases and the tags of the objects they displace and are guarded by a mutation
    ticket; these live in tables of their own and are used through the interface [Ownership]. *)

From Stdlib Require Import ZArith Lia.
From stdpp Require Import prelude strings list.
From S2P Require Import Prelude Errors VersionModel Database ObjectStore ResidencyStore VersionStore VersionSpec VersionReads.
Local Open Scope Z_scope.

(** ** The ownership interface *)

(** [verify_standard_mutation_guard] and [complete_standard_mutation_in_transaction] of
    [src/store/import/ownership.rs], [lock_publication_lifecycle_frontier] and
    [end_active_leases_for_object_core] of [src/store/pinning/leases.rs], and
    [replace_object_tags] with no tags of [src/store/pinning/tags.rs]. *)
Class Ownership := {
  verify_standard_mutation_guard : string -> string -> Tx unit;
  complete_standard_mutation : Z -> Tx unit;
  lock_publication_lifecycle_frontier : string -> Tx unit;
  end_active_leases_for_object : string -> Z -> Tx unit;
  clear_object_tags : string -> Tx unit
}.

(** The ticket is valid, and the operations only write tables of their own. *)
Class OwnershipGranted `{Ownership} := {
  granted_verify : forall b k db, verify_standard_mutation_guard b k db = Ok (tt, db);
  granted_complete : forall now db, complete_standard_mutation now db = Ok (tt, db);
  granted_frontier : forall id db, lock_publication_lifecycle_frontier id db = Ok (tt, db);
  granted_leases : forall id now db, end_active_leases_for_object id now db = Ok (tt, db);
  granted_tags : forall id db, clear_object_tags id db = Ok (tt, db)
}.

Section publication.
Context `{Uuid} `{Ownership}.

Definition lock_current_object_projection (bucket_name key : string) : Tx (option ObjectRow) :=
  reads (fun db => head (filter (o_current bucket_name key) (objects db))).

Definition lock_null_object_id (bucket_name key : string) : Tx (option string) :=
  let! row := reads (fun db => head (filter (with_version_id bucket_name key None) (versions db))) in
  tx_ret (row ≫= v_object_id).

Definition lock_object_by_id (object_id : string) : Tx ObjectRow :=
  let! object := reads (find_object object_id) in
  lift (ok_or (Internal "object version index references a missing internal object") object).

(** ** Publication *)

Record PublicationResult : Type := { pr_object_id : string; pr_version_id : option string }.

Definition with_created_at (now : Z) (row : LatestObjectRow) : LatestObjectRow :=
  {| lo_id := lo_id row; lo_bucket := lo_bucket row; lo_key := lo_key row; lo_cid := lo_cid row;
     lo_size := lo_size row; lo_content_type := lo_content_type row; lo_etag := lo_etag row;
     lo_metadata := lo_metadata row; lo_encrypted := lo_encrypted row; lo_key_wrap := lo_key_wrap row;
     lo_sse_c_key_fingerprint := lo_sse_c_key_fingerprint row; lo_multipart := lo_multipart row;
     lo_created_at := now |}.

(** [object] is the row of the published object; [public_uuid], [row_uuid] and [clock] are what the
    installation draws. *)
Definition write_object_version_and_update_lifecycle (public_uuid row_uuid : string) (clock : Z)
    (object : LatestObjectRow) (state : BucketVersioningState) (now : Z) : Tx PublicationResult :=
  fail_if lo_size object <? 0 with InvalidPinningRequest "logical object size cannot be negative" else
  let! displaced_object_id :=
    match state with
    | Unversioned =>
      let! current := lock_current_object_projection (lo_bucket object) (lo_key object) in
      tx_ret (o_id <$> current)
    | Enabled => tx_ret None
    | Suspended => lock_null_object_id (lo_bucket object) (lo_key object)
    end in
  let! inserted := insert_immutable_in_transaction (with_created_at now object) in
  let! _ :=
    match displaced_object_id with
    | Some displaced_object_id =>
      let! _ := end_active_leases_for_object displaced_object_id now in
      clear_object_tags displaced_object_id
    | None => tx_ret tt
    end in
  let! public_version_id := install_content_version public_uuid row_uuid clock state inserted now in
  tx_ret {| pr_object_id := lo_id object;
            pr_version_id := match state with
                             | Unversioned => None
                             | Enabled | Suspended => Some public_version_id
                             end |}.

(** ** Deletion *)

Definition release_object (object_id : string) (now : Z) : Tx unit :=
  let! _ := end_active_leases_for_object object_id now in
  clear_object_tags object_id.

Definition delete_unversioned_current_core (bucket key : string) (now : Z) : Tx DeleteVersionResult :=
  let! null_slot := lock_indexed_version bucket key VNull in
  let! current := lock_current_object_projection bucket key in
  fail_if match null_slot, current with
          | Some (row, _), Some current => negb (bool_decide (v_object_id row = Some (o_id current)))
          | _, _ => false
          end
    with Internal "unversioned null index does not match the current object projection" else
  let! _ :=
    match current with
    | Some current =>
      let! _ := lock_publication_lifecycle_frontier (o_id current) in
      let! _ := set_only_latest bucket key None in
      release_object (o_id current) now
    | None => tx_ret tt
    end in
  let! _ := remove_null_slot bucket key in
  tx_ret {| dv_version_id := None; dv_deleted_delete_marker := false; dv_created_delete_marker := false |}.

Definition delete_enabled_current_in_transaction (public_uuid row_uuid : string) (clock : Z)
    (bucket key : string) (now : Z) : Tx DeleteVersionResult :=
  let! version_id := install_delete_marker public_uuid row_uuid clock Enabled bucket key now in
  tx_ret {| dv_version_id := Some version_id; dv_deleted_delete_marker := false;
            dv_created_delete_marker := true |}.

(** The content of a version that a deletion is about to drop: it is locked, compared with what was
    resolved, and released. *)
Definition release_resolved (resolved : ResolvedVersion) (message : string) (now : Z) : Tx unit :=
  match rv_object resolved with
  | Some object =>
    let! locked := lock_object_by_id (o_id object) in
    fail_if negb (bool_decide (locked = object)) with Internal message else
    let! _ := lock_publication_lifecycle_frontier (o_id object) in
    release_object (o_id object) now
  | None => tx_ret tt
  end.

Definition delete_suspended_current_core (public_uuid row_uuid : string) (clock : Z)
    (bucket key : string) (now : Z) : Tx DeleteVersionResult :=
  let! null_slot := lock_indexed_version bucket key VNull in
  let! _ := allocate_next_sequence bucket key in
  let! _ := lock_current_object_projection bucket key in
  let! _ :=
    match null_slot with
    | Some (_, resolved) => release_resolved resolved "null version object changed during delete" now
    | None => tx_ret tt
    end in
  let! version_id := install_delete_marker public_uuid row_uuid clock Suspended bucket key now in
  tx_ret {| dv_version_id := Some version_id; dv_deleted_delete_marker := false;
            dv_created_delete_marker := true |}.

Definition delete_exact_core (clock : Z) (bucket key : string) (version_id : PublicVersionId) (now : Z)
  : Tx DeleteVersionResult :=
  let requested_version_id := as_s3_str version_id in
  let! selected := lock_indexed_version bucket key version_id in
  let! '(selected, resolved) := lift (ok_or (NoSuchVersion bucket key requested_version_id) selected) in
  let! _ := lock_current_object_projection bucket key in
  let! _ := release_resolved resolved "selected version object changed during delete" now in
  let deleted_delete_marker := bool_decide (rv_kind resolved = KDeleteMarker) in
  let! _ := remove_and_promote clock selected in
  tx_ret {| dv_version_id := Some requested_version_id;
            dv_deleted_delete_marker := deleted_delete_marker; dv_created_delete_marker := false |}.

(** The body of the transaction of [delete_version_attempt]. *)
Definition delete_version_attempt (public_uuid row_uuid : string) (clock : Z) (bucket key : string)
    (selector : VersionSelector) (now : Z) : Tx DeleteVersionResult :=
  let! _ := lock_bucket_row_for_ownership bucket in
  let! _ := verify_standard_mutation_guard bucket key in
  let! state := get_versioning_state bucket in
  fail_if bool_decide (state = Unversioned) && match selector with Exact _ => true | Current => false end
    with InvalidArgument "version IDs are unavailable for an unversioned bucket" else
  let! _ := lock_current_row bucket key in
  let! result :=
    match selector with
    | Current =>
      match state with
      | Unversioned => delete_unversioned_current_core bucket key now
      | Enabled => delete_enabled_current_in_transaction public_uuid row_uuid clock bucket key now
      | Suspended => delete_suspended_current_core public_uuid row_uuid clock bucket key now
      end
    | Exact version_id => delete_exact_core clock bucket key version_id now
    end in
  let! _ := complete_standard_mutation now in
  tx_ret result.
End publication.

(** ** Deletion on histories *)

(** What a deletion does to the history of its key. *)
Definition hist_delete (state : BucketVersioningState) (selector : VersionSelector) (uuid : string)
    (h : list Entry) : list Entry :=
  match selector, state with
  | Current, Unversioned => hist_remove None h
  | Current, _ => hist_install state uuid None h
  | Exact id, _ => hist_remove (version_as_db_value id) h
  end.

(** Versioning is never switched off again, so an unversioned bucket holds null versions only. *)
Definition null_only (db : Db) : Prop :=
  forall r v, r ∈ buckets db -> b_versioning_status r = None ->
    v ∈ versions db -> v_bucket v = b_name r -> v_version_id v = None.

Section deletion.
Context `{UuidLaws} `{OwnershipGranted}.

Lemma lock_bucket_ok b db :
  constraints db -> b ∈ map b_name (buckets db) -> lock_bucket_row_for_ownership b db = Ok (tt, db).
Proof.
  intros Hc Hb. unfold lock_bucket_row_for_ownership, update_buckets, tx_bind, reads. simpl.
  assert (Hsame : set_buckets (update_where (fun r => b_name r = b) (fun r => r) (buckets db)) db = db).
  { unfold update_where. rewrite (map_ext _ id) by (intros r; by destruct (decide _)). rewrite map_id. by destruct db. }
  rewrite exec_ok by (by rewrite Hsame). simpl. rewrite Hsame.
  apply list_elem_of_fmap in Hb as (r & -> & Hr).
  rewrite (matching_exactly_one (fun r => Some (b_name r)) _ (b_name r) r (buckets db)); [done| |done|done|].
  - by apply unique_bucket_names.
  - by intros y _ ->.
Qed.

Lemma versioning_state_bucket b state db :
  constraints db -> get_versioning_state b db = Ok (state, db) ->
  exists r, r ∈ buckets db /\ b_name r = b /\ versioning_from_db_value (b_versioning_status r) = Ok state.
Proof.
  intros Hc. unfold get_versioning_state, bucket_get, tx_bind, reads, lift. simpl.
  destruct (find_bucket b db) as [r|] eqn:E; simpl; [|done]. apply find_bucket_ok in E as [Hr <-]; [|done].
  intros Hs. ok_inv Hs. injection Hs as <-. eauto.
Qed.

(** A version found by its id, with its content. *)
Lemma lock_indexed_version_spec b k id db :
  Inv db -> valid_selector (Exact id) ->
  match hist_resolve (Exact id) (history b k db) with
  | None => lock_indexed_version b k id db = Ok (None, db)
  | Some e => exists row o, lock_indexed_version b k id db = Ok (Some (row, resolution row o), db) /\
      row ∈ versions db /\ of_key b k row /\ entry_of row = e /\ holds_object db row o
  end.
Proof.
  intros Hinv Hval. unfold lock_indexed_version.
  destruct (one_version_spec b k (Exact id) db Hinv Hval) as (row & Hrow & <- & Hin).
  rewrite (tx_bind_eq _ _ _ _ _ Hrow). destruct row as [row|]; [|done]. simpl.
  destruct (Hin row eq_refl) as (Hv & Hk & _).
  destruct (resolved_from_row_spec db row false Hinv Hv) as (o & Ho & Hh); [done|].
  rewrite (tx_bind_eq _ _ _ _ _ Ho). eauto 8.
Qed.

Lemma release_object_ok id now db : release_object id now db = Ok (tt, db).
Proof. unfold release_object. rewrite (tx_bind_eq _ _ _ _ _ (granted_leases id now db)). apply granted_tags. Qed.

Lemma release_resolved_ok db row o message now :
  constraints db -> holds_object db row o -> release_resolved (resolution row o) message now db = Ok (tt, db).
Proof.
  intros Hc Hh. unfold release_resolved, holds_object in *. cbn [resolution rv_object].
  destruct (v_object_id row) as [id|]; [|by subst o]. destruct Hh as (x & -> & Hx & <-).
  assert (Hl : lock_object_by_id (o_id x) db = Ok (x, db)).
  { unfold lock_object_by_id, tx_bind, reads, lift. simpl. by rewrite (proj2 (find_object_ok db Hc (o_id x) x)). }
  rewrite (tx_bind_eq _ _ _ _ _ Hl), bool_decide_true by done. cbn [negb].
  rewrite (tx_bind_eq _ _ _ _ _ (granted_frontier (o_id x) db)). apply release_object_ok.
Qed.

Definition delete_result (id : option string) (deleted_marker created_marker : bool) : DeleteVersionResult :=
  {| dv_version_id := id; dv_deleted_delete_marker := deleted_marker;
     dv_created_delete_marker := created_marker |}.

(** ** Exact deletion *)

Lemma delete_exact_spec clock b k id now db :
  Inv db -> valid_selector (Exact id) ->
  match hist_resolve (Exact id) (history b k db) with
  | None => delete_exact_core clock b k id now db = Err (NoSuchVersion b k (as_s3_str id))
  | Some e => exists sel, sel ∈ versions db /\ of_key b k sel /\ entry_of sel = e /\
      delete_exact_core clock b k id now db =
        Ok (delete_result (Some (as_s3_str id)) (bool_decide (e.2 = None)) false, after_remove clock sel db)
  end.
Proof.
  intros Hinv Hval. unfold delete_exact_core.
  pose proof (lock_indexed_version_spec b k id db Hinv Hval) as Hl.
  destruct (hist_resolve (Exact id) (history b k db)) as [e|]; [|by rewrite (tx_bind_eq _ _ _ _ _ Hl)].
  destruct Hl as (sel & o & Hl & Hv & Hk & He & Hh). exists sel. split_and!; [done..|].
  rewrite (tx_bind_eq _ _ _ _ _ Hl). erewrite tx_bind_eq by (by apply lift_eq). cbn beta iota.
  erewrite tx_bind_eq by reflexivity.
  rewrite (tx_bind_eq _ _ _ _ _ (release_resolved_ok db sel o _ now (inv_constraints db Hinv) Hh)).
  destruct (remove_and_promote_run db clock sel Hinv Hv) as (promoted & Hrun & _).
  rewrite (tx_bind_eq _ _ _ _ _ Hrun). unfold delete_result, tx_ret. do 3 f_equal. apply bool_decide_ext.
  rewrite <- He. simpl. destruct (v_object_id sel); by split.
Qed.

(** ** Deletion in an unversioned bucket *)

Section unversioned.
Context (db : Db) (b k : string) (now clock : Z).
Context (Hinv : Inv db) (Hnull : forall v, v ∈ versions db -> of_key b k v -> v_version_id v = None).

Lemma null_row_only v w : v ∈ versions db -> w ∈ versions db -> of_key b k v -> of_key b k w -> v = w.
Proof.
  intros Hv Hw Kv Kw. apply (version_id_unique db w Hinv Hw); [done| |].
  - destruct Kv, Kw. split; congruence.
  - by rewrite !Hnull.
Qed.

(** The current object of the key is the one of its only version. *)
Lemma current_object row :
  row ∈ versions db -> of_key b k row ->
  head (filter (o_current b k) (objects db)) = None /\ v_object_id row = None \/
  exists o, head (filter (o_current b k) (objects db)) = Some o /\ v_object_id row = Some (o_id o).
Proof.
  intros Hrow Kr. destruct (head (filter (o_current b k) (objects db))) as [o|] eqn:E.
  - right. exists o. split; [done|]. apply head_filter_elem in E as [Ho (Eb & Ek & El)].
    apply (inv_projection db Hinv o Ho) in El as (v & Hv & _ & Ev).
    destruct (object_of_row db Hinv v o Hv Ho Ev) as [Vb Vk].
    assert (row = v) as -> by (apply null_row_only; [done..|split; congruence]). done.
  - left. split; [done|]. destruct (v_object_id row) as [id|] eqn:Eo; [|done].
    destruct (inv_object db Hinv row id Hrow Eo) as (o & Ho & Ei & Ob & Ok').
    rewrite head_filter_none in E. destruct (E o Ho). destruct Kr as [Rb Rk]. split_and!; [congruence..|].
    apply (inv_projection db Hinv o Ho). exists row. split_and!; [done| |congruence].
    apply (inv_latest db Hinv row Hrow). intros w Hw Kw.
    assert (w = row) as -> by (apply null_row_only; [done..| |done]; destruct Kw; split; congruence). lia.
Qed.

Lemma no_row_no_object :
  (forall v, v ∈ versions db -> ~ of_key b k v) -> head (filter (o_current b k) (objects db)) = None.
Proof.
  intros Hn. apply head_filter_none. intros o Ho (Eb & Ek & El).
  apply (inv_projection db Hinv o Ho) in El as (v & Hv & _ & Ev).
  destruct (object_of_row db Hinv v o Hv Ho Ev) as [Vb Vk]. apply (Hn v Hv). split; congruence.
Qed.

Definition cleared : Db := projected b k None (delete_rows (with_version_id b k None) db).

Lemma delete_unversioned_run :
  delete_unversioned_current_core b k now db = Ok (delete_result None false false, cleared).
Proof.
  pose proof (inv_constraints db Hinv) as Hc. unfold delete_unversioned_current_core.
  assert (Hres : residency_total db) by (intros w id; by apply (inv_residency db Hinv)).
  pose proof (lock_indexed_version_spec b k VNull db Hinv I) as Hl.
  destruct (hist_resolve (Exact VNull) (history b k db)) as [e|] eqn:Eh.
  - destruct Hl as (row & o & Hl & Hv & Hk & He & Hh). rewrite (tx_bind_eq _ _ _ _ _ Hl).
    unfold lock_current_object_projection. erewrite tx_bind_eq by reflexivity. cbn beta iota.
    destruct (current_object row Hv Hk) as [[Ho En]|(o' & Ho & En)]; rewrite Ho.
    + erewrite tx_bind_eq by reflexivity. rewrite (tx_bind_eq _ _ _ _ _ (remove_null_slot_spec b k db Hc Hres)).
      unfold cleared. by rewrite projected_none_same.
    + rewrite bool_decide_true by done. cbn [negb].
      assert (Hset : (let! _ := lock_publication_lifecycle_frontier (o_id o') in
                      let! _ := set_only_latest b k None in release_object (o_id o') now) db =
                     Ok (tt, projected b k None db)).
      { rewrite (tx_bind_eq _ _ _ _ _ (granted_frontier (o_id o') db)).
        erewrite tx_bind_eq by (by apply set_only_latest_spec). apply release_object_ok. }
      rewrite (tx_bind_eq _ _ _ _ _ Hset). erewrite tx_bind_eq; [reflexivity|].
      apply remove_null_slot_spec; [by apply projected_constraints|exact Hres].
  - rewrite (tx_bind_eq _ _ _ _ _ Hl). unfold lock_current_object_projection.
    erewrite tx_bind_eq by reflexivity. cbn beta iota.
    assert (Hn : forall v, v ∈ versions db -> ~ of_key b k v).
    { intros v Hv Hk. simpl in Eh. rewrite head_filter_none in Eh.
      apply (Eh (entry_of v)); [|simpl; by apply Hnull]. apply list_elem_of_fmap_2. by apply elem_of_sorted_rows. }
    rewrite no_row_no_object by done. erewrite tx_bind_eq by reflexivity.
    rewrite (tx_bind_eq _ _ _ _ _ (remove_null_slot_spec b k db Hc Hres)).
    unfold cleared. rewrite projected_none_same; [done|]. by apply no_row_no_object.
Qed.

Lemma cleared_spec :
  Inv cleared /\ history b k cleared = hist_remove None (history b k db) /\
  forall b' k', (b', k') <> (b, k) -> history b' k' cleared = history b' k' db.
Proof.
  pose proof (inv_constraints db Hinv) as Hc.
  destruct (head (filter (of_key b k) (versions db))) as [row|] eqn:E.
  - apply head_filter_elem in E as [Hrow Kr]. destruct Kr as [Eb Ek] eqn:EK.
    assert (Hl : v_is_latest row = true).
    { apply (inv_latest db Hinv row Hrow). intros w Hw Kw.
      assert (w = row) as -> by (apply null_row_only; [done..| |done]; destruct Kw; split; congruence). lia. }
    assert (Hwo : delete_rows (with_version_id b k None) db = without db row).
    { apply delete_rows_ext_in. intros v Hv. split.
      - intros [Kv _]. f_equal. by apply null_row_only.
      - intros Ev. assert (v = row) as -> by (by apply (same_row db Hinv)). split; [done|by apply Hnull]. }
    assert (Hnx : next_current db row = None).
    { unfold next_current. destruct (head (sorted_rows _ _ _)) as [p|] eqn:Ep; [|done].
      apply head_elem, elem_of_sorted_rows in Ep as [Hp Kp]. apply (elem_of_without db row Hinv Hrow) in Hp as [Hp Hne].
      destruct Hne. apply null_row_only; [done..| |done]. destruct Kp. split; congruence. }
    assert (Hcl : cleared = promoted_db db row clock).
    { unfold cleared, promoted_db. rewrite Hnx, promote_none_versions, Hwo by done. by rewrite Eb, Ek. }
    rewrite Hcl. split; [by apply promoted_inv|].
    split; intros; rewrite promoted_history; rewrite <- Eb, <- Ek in *.
    + rewrite without_history by done. by rewrite Hnull.
    + by apply without_other_history.
  - rewrite head_filter_none in E.
    assert (cleared = db) as ->.
    { unfold cleared. rewrite delete_rows_none; [|done|intros v Hv [Kv _]; by apply (E v)].
      apply projected_none_same. by apply no_row_no_object. }
    split; [done|]. split; [|done]. unfold history.
    assert (sorted_rows b k db = []) as ->; [|done].
    apply elem_of_nil_inv. intros v [Hv Kv]%elem_of_sorted_rows. by apply (E v).
Qed.
End unversioned.

(** ** Deletion in a versioned bucket *)

Lemma allocate_ok b k db :
  fits_i64 (next_sequence b k db) = true -> allocate_next_sequence b k db = Ok (next_sequence b k db, db).
Proof.
  intros Hf. unfold allocate_next_sequence. erewrite tx_bind_eq by reflexivity. apply lift_eq.
  unfold next_sequence, i64_checked_add in *. by rewrite Hf.
Qed.

Lemma delete_suspended_run public_uuid row_uuid clock b k now db :
  Installable db b k public_uuid row_uuid None ->
  delete_suspended_current_core public_uuid row_uuid clock b k now db =
    Ok (delete_result (Some NULL_VERSION_ID) false true, marked db Suspended b k now public_uuid row_uuid).
Proof.
  intros Hi. pose proof (ins_inv _ _ _ _ _ _ Hi) as Hinv. unfold delete_suspended_current_core.
  destruct (install_delete_marker_run db Suspended b k now clock public_uuid row_uuid Hi) as [Hrun _].
  pose proof (lock_indexed_version_spec b k VNull db Hinv I) as Hl.
  destruct (hist_resolve (Exact VNull) (history b k db)) as [e|].
  - destruct Hl as (row & o & Hl & Hv & Hk & He & Hh). rewrite (tx_bind_eq _ _ _ _ _ Hl).
    rewrite (tx_bind_eq _ _ _ _ _ (allocate_ok b k db (ins_sequence _ _ _ _ _ _ Hi))).
    erewrite tx_bind_eq by reflexivity. cbn beta iota.
    rewrite (tx_bind_eq _ _ _ _ _ (release_resolved_ok db row o _ now (inv_constraints db Hinv) Hh)).
    by rewrite (tx_bind_eq _ _ _ _ _ Hrun).
  - rewrite (tx_bind_eq _ _ _ _ _ Hl).
    rewrite (tx_bind_eq _ _ _ _ _ (allocate_ok b k db (ins_sequence _ _ _ _ _ _ Hi))).
    erewrite tx_bind_eq by reflexivity. cbn beta iota. erewrite tx_bind_eq by reflexivity.
    by rewrite (tx_bind_eq _ _ _ _ _ Hrun).
Qed.

Lemma marked_history db state b k now public_uuid row_uuid :
  Installable db b k public_uuid row_uuid None ->
  history b k (marked db state b k now public_uuid row_uuid) =
    hist_install state public_uuid None (history b k db) /\
  forall b' k', (b', k') <> (b, k) ->
    history b' k' (marked db state b k now public_uuid row_uuid) = history b' k' db.
Proof.
  intros Hi. split.
  - rewrite <- (inserted_history db state _ _ now public_uuid row_uuid) by exact Hi. by apply history_versions.
  - intros b' k' Hne.
    rewrite <- (inserted_other_history db state _ _ now public_uuid row_uuid None b' k' Hne).
    by apply history_versions.
Qed.

(** What a deletion reports. *)
Definition deletion_result (state : BucketVersioningState) (selector : VersionSelector) (uuid : string)
    (h : list Entry) : DeleteVersionResult :=
  match selector, state with
  | Current, Unversioned => delete_result None false false
  | Current, _ => delete_result (Some (as_s3_str (installed_id state uuid))) false true
  | Exact id, _ =>
    delete_result (Some (as_s3_str id)) (bool_decide ((hist_resolve selector h ≫= snd) = None)) false
  end.

(** The dispatch of [delete_version_attempt] once the bucket is locked. *)
Lemma delete_version_attempt_locked public_uuid row_uuid clock b k selector now db state :
  constraints db -> get_versioning_state b db = Ok (state, db) ->
  delete_version_attempt public_uuid row_uuid clock b k selector now db =
  if bool_decide (state = Unversioned) && match selector with Exact _ => true | Current => false end
  then Err (InvalidArgument "version IDs are unavailable for an unversioned bucket")
  else let? '(r, db') :=
    match selector with
    | Current =>
      match state with
      | Unversioned => delete_unversioned_current_core b k now
      | Enabled => delete_enabled_current_in_transaction public_uuid row_uuid clock b k now
      | Suspended => delete_suspended_current_core public_uuid row_uuid clock b k now
      end
    | Exact version_id => delete_exact_core clock b k version_id now
    end db in Ok (r, db').
Proof.
  intros Hc Hs. destruct (versioning_state_bucket b state db Hc Hs) as (r & Hr & Eb & _).
  unfold delete_version_attempt. erewrite tx_bind_eq.
  2: { apply lock_bucket_ok; [done|]. rewrite <- Eb. by apply list_elem_of_fmap_2. }
  rewrite (tx_bind_eq _ _ _ _ _ (granted_verify b k db)), (tx_bind_eq _ _ _ _ _ Hs).
  destruct (bool_decide (state = Unversioned) && _); [done|].
  erewrite tx_bind_eq by reflexivity. set (core := match selector with Current => _ | Exact _ => _ end).
  unfold tx_bind at 1. destruct (core db) as [[res db']|e]; [|done]. simpl. by rewrite (tx_bind_eq _ _ _ _ _ (granted_complete now db')).
Qed.

Lemma after_remove_buckets clock sel db : buckets (after_remove clock sel db) = buckets db.
Proof. unfold after_remove. by destruct (v_is_latest sel). Qed.

Lemma delete_version_attempt_spec public_uuid row_uuid clock b k selector now db state :
  Inv db -> null_only db -> get_versioning_state b db = Ok (state, db) -> valid_selector selector ->
  Installable db b k public_uuid row_uuid None ->
  let h := history b k db in
  match selector, state, hist_resolve selector h with
  | Exact _, Unversioned, _ => exists m,
      delete_version_attempt public_uuid row_uuid clock b k selector now db = Err (InvalidArgument m)
  | Exact id, _, None =>
      delete_version_attempt public_uuid row_uuid clock b k selector now db =
        Err (NoSuchVersion b k (as_s3_str id))
  | _, _, _ => exists db',
      delete_version_attempt public_uuid row_uuid clock b k selector now db =
        Ok (deletion_result state selector public_uuid h, db') /\
      Inv db' /\ buckets db' = buckets db /\ history b k db' = hist_delete state selector public_uuid h /\
      forall b' k', (b', k') <> (b, k) -> history b' k' db' = history b' k' db
  end.
Proof.
  intros Hinv Hno Hs Hval Hi h. pose proof (inv_constraints db Hinv) as Hc.
  rewrite (delete_version_attempt_locked _ _ _ _ _ _ _ _ _ Hc Hs).
  destruct selector as [|id].
  - destruct state; cbn [bool_decide andb].
    all: rewrite andb_false_r; cbn [deletion_result hist_delete].
    + destruct (versioning_state_bucket b _ db Hc Hs) as (r & Hr & Eb & Est).
      assert (Hnull : forall v, v ∈ versions db -> of_key b k v -> v_version_id v = None).
      { intros v Hv [Vb _]. apply (Hno r v); try done; [|congruence].
        destruct (b_versioning_status r) as [s|]; [|done]. simpl in Est.
        destruct (String.eqb s "Enabled"); [done|]. by destruct (String.eqb s "Suspended"). }
      rewrite delete_unversioned_run by done. exists (cleared db b k). split; [done|].
      destruct (cleared_spec db b k clock Hinv Hnull) as [? ?]. done.
    + destruct (install_delete_marker_run db Enabled b k now clock public_uuid row_uuid Hi) as [Hrun Hinv'].
      unfold delete_enabled_current_in_transaction. rewrite (tx_bind_eq _ _ _ _ _ Hrun).
      eexists. split; [done|]. split; [done|]. split; [done|]. by apply marked_history.
    + rewrite (delete_suspended_run _ _ clock _ _ now _ Hi).
      destruct (install_delete_marker_run db Suspended b k now clock public_uuid row_uuid Hi) as [_ Hinv'].
      eexists. split; [done|]. split; [done|]. split; [done|]. by apply marked_history.
  - pose proof (delete_exact_spec clock b k id now db Hinv Hval) as Hd. cbn [deletion_result hist_delete].
    destruct state; [by eexists|..]; rewrite bool_decide_false by done; cbn [andb];
      destruct (hist_resolve (Exact id) h) as [e|] eqn:Er; subst h; rewrite Er in Hd; try by rewrite Hd.
    all: destruct Hd as (sel & Hsel & [Eb Ek] & <- & Hrun); rewrite Hrun; eexists; (split; [done|]).
    all: assert (Ev : v_version_id sel = version_as_db_value id)
      by (apply head_elem, list_elem_of_filter in Er as [? _]; done).
    all: destruct (after_remove_spec db clock sel Hinv Hsel) as (Hinv' & Hh & Hother).
    all: rewrite Eb, Ek, Ev in *; split_and!; auto using after_remove_buckets.
Qed.

(** C3: a DELETE request acts on the history of its key as S3 prescribes.  Without a version id it
    drops the object of an unversioned bucket, puts a delete marker with a new id on an Enabled one,
    and replaces the null version of a Suspended one by a null delete marker.  With a version id it
    removes exactly that version and says whether it was a delete marker, fails with NoSuchVersion
    when the key has no such version, and is refused in an unversioned bucket.  It keeps the
    invariant, and no other key changes. *)
Theorem delete_version_attempt_refines public_uuid row_uuid clock b k selector now db state :
  Inv db -> null_only db -> get_versioning_state b db = Ok (state, db) -> valid_selector selector ->
  Installable db b k public_uuid row_uuid None ->
  let h := history b k db in
  match selector, state, hist_resolve selector h with
  | Exact _, Unversioned, _ => exists m,
      delete_version_attempt public_uuid row_uuid clock b k selector now db = Err (InvalidArgument m)
  | Exact id, _, None =>
      delete_version_attempt public_uuid row_uuid clock b k selector now db =
        Err (NoSuchVersion b k (as_s3_str id))
  | _, _, _ => exists db',
      delete_version_attempt public_uuid row_uuid clock b k selector now db =
        Ok (deletion_result state selector public_uuid h, db') /\
      Inv db' /\ history b k db' = hist_delete state selector public_uuid h /\
      forall b' k', (b', k') <> (b, k) -> history b' k' db' = history b' k' db
  end.
Proof.
  intros Hinv Hno Hs Hval Hi h.
  pose proof (delete_version_attempt_spec public_uuid row_uuid clock b k selector now db state
    Hinv Hno Hs Hval Hi) as Hspec. fold h in Hspec. cbv zeta in Hspec.
  destruct selector as [|id], state; try done; try (destruct (hist_resolve (Exact id) h); [|done]);
    destruct Hspec as (db' & ? & ? & _ & ?); by exists db'.
Qed.

(** ** Publication *)

Section publish.
Context (db : Db) (row : LatestObjectRow) (public_uuid row_uuid : string).
Context (I : Installable db (lo_bucket row) (lo_key row) public_uuid row_uuid None).
Context (Hfresh : forall o, o ∈ objects db -> o_id o <> lo_id row).

Let o : ObjectRow := object_row row false.
Definition with_object : Db := set_objects (objects db ++ [object_row row false]) db.

Lemma with_object_constraints : constraints with_object.
Proof.
  apply insert_object_constraints; [apply I|done|apply I|].
  intros (o' & E & Ho')%list_elem_of_fmap. by apply (Hfresh o' Ho').
Qed.

Lemma with_object_inv : Inv with_object.
Proof.
  destruct (ins_inv _ _ _ _ _ _ I) as [Hc Q1 Q2 Q3 Q4 Hobj Hpr Hres]. constructor; try done.
  - apply with_object_constraints.
  - intros v id Hv Ev. destruct (Hobj v id Hv Ev) as (o' & ? & ?). exists o'.
    split; [apply elem_of_app; by left|done].
  - intros o' Ho'. simpl in Ho'. apply elem_of_app in Ho' as [Ho'|Ho']; [by apply Hpr|].
    apply list_elem_of_singleton in Ho' as ->. split; [done|]. intros (v & Hv & _ & Ev).
    destruct (Hobj v _ Hv Ev) as (o' & Ho' & E & _). by destruct (Hfresh o' Ho').
Qed.

Lemma with_object_installable :
  Installable with_object (lo_bucket row) (lo_key row) public_uuid row_uuid (Some (lo_id row)).
Proof.
  destruct I as [? Hb Hq Hr Hp _]. constructor; try done; [apply with_object_inv|].
  intros id [= <-]. exists (object_row row false). split; [|done]. apply elem_of_app. right. left.
Qed.

Lemma insert_immutable_ok : insert_immutable_in_transaction row db = Ok (object_row row false, with_object).
Proof.
  unfold insert_immutable_in_transaction.
  erewrite tx_bind_eq by (apply exec_ok; exact with_object_constraints).
  unfold get_by_id. erewrite tx_bind_eq by reflexivity. apply lift_eq.
  fold with_object. rewrite (proj2 (find_object_ok with_object with_object_constraints (lo_id row) (object_row row false))); [done|].
  split; [|done]. apply elem_of_app. right. left.
Qed.
End publish.

Lemma write_object_version_spec db row state now clock public_uuid row_uuid :
  Installable db (lo_bucket row) (lo_key row) public_uuid row_uuid None ->
  (forall o, o ∈ objects db -> o_id o <> lo_id row) ->
  nonempty (lo_id row) -> nonempty (lo_cid row) -> 0 <= lo_size row ->
  exists db',
    write_object_version_and_update_lifecycle public_uuid row_uuid clock row state now db =
      Ok ({| pr_object_id := lo_id row;
             pr_version_id := if bool_decide (state = Unversioned) then None
                              else Some (as_s3_str (installed_id state public_uuid)) |}, db') /\
    Inv db' /\ buckets db' = buckets db /\
    history (lo_bucket row) (lo_key row) db' =
      hist_install state public_uuid (Some (lo_id row)) (history (lo_bucket row) (lo_key row) db) /\
    (exists o, o ∈ objects db' /\ o_id o = lo_id row /\ o_cid o = lo_cid row /\ o_is_latest o = true) /\
    forall b' k', (b', k') <> (lo_bucket row, lo_key row) -> history b' k' db' = history b' k' db.
Proof.
  intros I Hf Ni Nc Hs. unfold write_object_version_and_update_lifecycle.
  rewrite (proj2 (Z.ltb_ge _ _)) by done.
  set (row' := with_created_at now row).
  pose proof (insert_immutable_ok db row' public_uuid row_uuid I Hf) as Hins.
  pose proof (with_object_installable db row' public_uuid row_uuid I Hf) as I'.
  assert (Ho : object_row row' false ∈ objects (with_object db row')) by (apply elem_of_app; right; left).
  pose proof (install_content_run (with_object db row') state (object_row row' false) now clock
    public_uuid row_uuid I' Ho Ni Nc) as Hrun.
  pose proof (install_content_inv (with_object db row') state (object_row row' false) now clock
    public_uuid row_uuid I' Ho Nc) as Hinv'.
  destruct (content_history (with_object db row') state (object_row row' false) now clock
    public_uuid row_uuid) as [Hh Hother].
  set (db' := projected _ _ _ _) in *. exists db'. split_and!; [| exact Hinv' | | exact Hh | | exact Hother].
  - set (displaced := match state with Unversioned => _ | Enabled => _ | Suspended => _ end).
    assert (exists d, displaced db = Ok (d, db)) as [d Hd] by (subst displaced; destruct state; by eexists).
    rewrite (tx_bind_eq _ _ _ _ _ Hd), (tx_bind_eq _ _ _ _ _ Hins).
    erewrite (tx_bind_eq _ _ _ tt); [|destruct d; [apply release_object_ok|done]].
    rewrite (tx_bind_eq _ _ _ _ _ Hrun). by destruct state.
  - exact (content_buckets (with_object db row') state (object_row row' false) now clock public_uuid row_uuid).
  - exists (o_set_latest true (object_row row' false)). split; [|done].
    apply list_elem_of_fmap. exists (object_row row' false). split.
    + unfold project_current. rewrite decide_True, bool_decide_true by done. done.
    + by destruct (content_tables (with_object db row') state (object_row row' false) now clock public_uuid row_uuid) as (_ & -> & _).
Qed.

(** C4: a publication stores the object under a new object row and installs it as the newest version
    of its key, displacing the null version in a Suspended or Unversioned bucket; it reports a
    version id exactly in a versioned bucket; it keeps the invariant, and no other key changes. *)
Theorem write_object_version_refines db row state now clock public_uuid row_uuid :
  Installable db (lo_bucket row) (lo_key row) public_uuid row_uuid None ->
  (forall o, o ∈ objects db -> o_id o <> lo_id row) ->
  nonempty (lo_id row) -> nonempty (lo_cid row) -> 0 <= lo_size row ->
  exists db',
    write_object_version_and_update_lifecycle public_uuid row_uuid clock row state now db =
      Ok ({| pr_object_id := lo_id row;
             pr_version_id := if bool_decide (state = Unversioned) then None
                              else Some (as_s3_str (installed_id state public_uuid)) |}, db') /\
    Inv db' /\
    history (lo_bucket row) (lo_key row) db' =
      hist_install state public_uuid (Some (lo_id row)) (history (lo_bucket row) (lo_key row) db) /\
    (exists o, o ∈ objects db' /\ o_id o = lo_id row /\ o_cid o = lo_cid row /\ o_is_latest o = true) /\
    forall b' k', (b', k') <> (lo_bucket row, lo_key row) -> history b' k' db' = history b' k' db.
Proof.
  intros I Hf Ni Nc Hs.
  destruct (write_object_version_spec db row state now clock public_uuid row_uuid I Hf Ni Nc Hs)
    as (db' & ? & ? & _ & ?). by exists db'.
Qed.
End deletion.
