(* ===== verification/VersionSystem.v ===== *)
(** * Runs of the version store

    The transactions of the store as steps of a transition system: bucket creation, a change of the
    versioning state, a publication and a deletion.  The invariant of the version index holds in
    every reachable database. *)

From Stdlib Require Import ZArith Lia.
From stdpp Require Import prelude strings list.
From S2P Require Import Prelude Errors VersionModel Database ObjectStore ResidencyStore VersionStore VersionSpec VersionReads Publication.
Local Open Scope Z_scope.

Definition empty_db : Db :=
  {| buckets := []; objects := []; versions := []; physicals := []; residencies := []; references := [] |}.

Section system.
Context `{UuidLaws} `{OwnershipGranted}.

(** The transaction of a PUT: the bucket row is locked and its state read before the write. *)
Definition publish (public_uuid row_uuid : string) (clock now : Z) (row : LatestObjectRow)
  : Tx PublicationResult :=
  let! state := lock_versioning_state (lo_bucket row) in
  write_object_version_and_update_lifecycle public_uuid row_uuid clock row state now.

(** Identifiers drawn by [Uuid::new_v4] are canonical and not in use, and the sequence of the key
    is not exhausted. *)
Record Fresh (public_uuid row_uuid b k : string) (db : Db) : Prop := {
  fresh_canonical : uuid_canonical public_uuid = Some public_uuid;
  fresh_nonempty : nonempty row_uuid;
  fresh_unused v : v ∈ versions db -> v_id v <> row_uuid /\ v_version_id v <> Some public_uuid;
  fresh_sequence : fits_i64 (next_sequence b k db) = true
}.

Inductive step (db : Db) : Db -> Prop :=
| step_create_bucket clock name owner db' : bucket_create clock name owner db = Ok (tt, db') -> step db db'
| step_set_versioning b state db' : set_versioning_state b state db = Ok (tt, db') -> step db db'
| step_publish public_uuid row_uuid clock now row r db' :
    Fresh public_uuid row_uuid (lo_bucket row) (lo_key row) db ->
    (forall o, o ∈ objects db -> o_id o <> lo_id row) -> nonempty (lo_id row) -> nonempty (lo_cid row) ->
    publish public_uuid row_uuid clock now row db = Ok (r, db') -> step db db'
| step_delete public_uuid row_uuid clock now b k selector r db' :
    Fresh public_uuid row_uuid b k db -> valid_selector selector ->
    delete_version_attempt public_uuid row_uuid clock b k selector now db = Ok (r, db') -> step db db'
| step_sole_marker selected r db' :
    selected ∈ versions db -> delete_current_sole_marker selected db = Ok (r, db') -> step db db'.

Inductive reachable : Db -> Prop :=
| reachable_empty : reachable empty_db
| reachable_step db db' : reachable db -> step db db' -> reachable db'.

Definition Safe (db : Db) : Prop := Inv db /\ null_only db.

(** ** The empty database *)

Lemma empty_constraints : constraints empty_db.
Proof. apply (bool_decide_unpack _). by vm_compute. Qed.

Lemma empty_safe : Safe empty_db.
Proof.
  split; [constructor; [apply empty_constraints|..]|]; simpl.
  all: try (intros v; intros; by apply elem_of_nil in H3 || (exfalso; set_solver)).
  all: intros; exfalso; set_solver.
Qed.

(** ** Buckets *)

Lemma inv_set_buckets db bs :
  Inv db -> constraints (set_buckets bs db) -> Inv (set_buckets bs db).
Proof. intros [] Hc. by constructor. Qed.

Lemma null_only_history db :
  null_only db <-> forall r k e, r ∈ buckets db -> b_versioning_status r = None ->
    e ∈ history (b_name r) k db -> e.1 = None.
Proof.
  split.
  - intros Hn r k e Hr Es (v & -> & [Hv [Eb _]]%elem_of_sorted_rows)%list_elem_of_fmap. by apply (Hn r v).
  - intros Hh r v Hr Es Hv Eb. apply (Hh r (v_key v) (entry_of v)); [done..|].
    apply list_elem_of_fmap_2, elem_of_sorted_rows. by split.
Qed.

Lemma create_bucket_safe clock name owner db db' :
  Safe db -> bucket_create clock name owner db = Ok (tt, db') -> Safe db'.
Proof.
  intros [Hinv Hn] Hrun. pose proof (inv_constraints db Hinv) as Hc.
  unfold bucket_create, tx_bind, reads in Hrun. simpl in Hrun.
  destruct (bucket_exists name db) eqn:E; [done|]. apply map_err_ok, exec_inv in Hrun as [-> Hc'].
  split; [by apply inv_set_buckets|]. intros r v Hr Es Hv Eb. simpl in Hr.
  apply elem_of_app in Hr as [Hr|Hr]; [by apply (Hn r v)|]. apply list_elem_of_singleton in Hr as ->. simpl in *.
  unfold bucket_exists in E. exfalso.
  assert (Hb : v_bucket v ∈ map b_name (buckets db)).
  { destruct Hc as (_ & _ & (_ & _ & _ & _ & _ & _ & Hf & _) & _). rewrite Forall_forall in Hf. by apply Hf. }
  apply list_elem_of_fmap in Hb as (r & Er & Hr).
  rewrite (proj2 (find_bucket_ok db Hc name r)) in E; [done|]. split; [done|congruence].
Qed.

Lemma lock_versioning_inv b db state db' :
  lock_versioning_state b db = Ok (state, db') -> db' = db /\ get_versioning_state b db = Ok (state, db).
Proof.
  unfold lock_versioning_state, lock_bucket_row_for_ownership, update_buckets. intros Hrun.
  apply tx_bind_ok in Hrun as ([] & d & Hl & Hg). apply tx_bind_ok in Hl as (n & d1 & Hu & Hl).
  apply tx_bind_ok in Hu as (m & d2 & [= <- <-] & Hu). apply tx_bind_ok in Hu as ([] & d3 & He & [= <- <-]).
  apply exec_inv in He as [-> _].
  assert (Hsame : set_buckets (update_where (fun r => b_name r = b) (fun r => r) (buckets db)) db = db).
  { unfold update_where. rewrite (map_ext _ id) by (intros r; by destruct (decide _)). rewrite map_id. by destruct db. }
  rewrite Hsame in *. destruct (_ =? 1); [|done]. injection Hl as <-.
  assert (db' = db) as ->; [|done].
  unfold get_versioning_state, bucket_get, tx_bind, reads, lift in Hg. simpl in Hg.
  destruct (find_bucket b db); simpl in Hg; [|done]. by ok_inv Hg; injection Hg as _ <-.
Qed.

Lemma set_versioning_safe b state db db' :
  Safe db -> set_versioning_state b state db = Ok (tt, db') -> Safe db'.
Proof.
  intros [Hinv Hn] Hrun. unfold set_versioning_state in Hrun.
  apply tx_bind_ok in Hrun as (status & d & Hl & Hrun). apply lift_ok in Hl as [Est ->].
  apply tx_bind_ok in Hrun as (current & d & [-> _]%lock_versioning_inv & Hrun).
  destruct (bool_decide (current = state)); [by injection Hrun as <-|].
  apply tx_bind_ok in Hrun as (n & d & Hu & Hrun). unfold update_buckets in Hu.
  apply tx_bind_ok in Hu as (m & d2 & [= <- <-] & Hu). apply tx_bind_ok in Hu as ([] & d3 & He & [= <- <-]).
  apply exec_inv in He as [-> Hc']. destruct (negb _); [done|]. injection Hrun as <-.
  split; [by apply inv_set_buckets|]. intros r v Hr Es Hv Eb. simpl in Hr. unfold update_where in Hr.
  apply list_elem_of_fmap in Hr as (r0 & -> & Hr0). destruct (decide (b_name r0 = b)); [done|]. by apply (Hn r0 v).
Qed.

(** ** Publication and deletion *)

Lemma fresh_installable public_uuid row_uuid b k db :
  Inv db -> Fresh public_uuid row_uuid b k db -> b ∈ map b_name (buckets db) ->
  Installable db b k public_uuid row_uuid None.
Proof.
  intros Hinv [Hp Hn Hu Hs] Hb. constructor; try done.
  - split; [done|]. intros v Hv. by apply Hu.
  - split; [done|]. intros v Hv. by apply Hu.
Qed.

(** A key of an unversioned bucket keeps its null versions only. *)
Lemma null_only_change db db' b k state h' :
  constraints db -> null_only db -> buckets db' = buckets db ->
  get_versioning_state b db = Ok (state, db) ->
  history b k db' = h' ->
  (state = Unversioned -> (forall e, e ∈ history b k db -> e.1 = None) -> forall e, e ∈ h' -> e.1 = None) ->
  (forall b' k', (b', k') <> (b, k) -> history b' k' db' = history b' k' db) ->
  null_only db'.
Proof.
  intros Hc Hn Eb Hs Hh Hnull Hother. rewrite null_only_history in *. intros r k' e. rewrite Eb. intros Hr Es He.
  destruct (decide ((b_name r, k') = (b, k))) as [[= Er ->]|Hne]; [|rewrite Hother in He by done; by apply (Hn r k')].
  rewrite Er, Hh in He. apply Hnull; [|intros e' He'; rewrite <- Er in He'; by apply (Hn r k)|done].
  destruct (versioning_state_bucket b state db Hc Hs) as (r' & Hr' & Er' & Est).
  assert (r' = r) as ->.
  { apply (unique_inj _ _ _ _ b (unique_bucket_names db Hc)); simpl; congruence. }
  rewrite Es in Est. by injection Est.
Qed.

Lemma bucket_of_state b state db :
  constraints db -> get_versioning_state b db = Ok (state, db) -> b ∈ map b_name (buckets db).
Proof.
  intros Hc Hs. destruct (versioning_state_bucket b state db Hc Hs) as (r & Hr & <- & _). by apply list_elem_of_fmap_2.
Qed.

Lemma publish_safe public_uuid row_uuid clock now row r db db' :
  Safe db -> Fresh public_uuid row_uuid (lo_bucket row) (lo_key row) db ->
  (forall o, o ∈ objects db -> o_id o <> lo_id row) -> nonempty (lo_id row) -> nonempty (lo_cid row) ->
  publish public_uuid row_uuid clock now row db = Ok (r, db') -> Safe db'.
Proof.
  intros [Hinv Hn] Hf Ho Ni Nc Hrun. pose proof (inv_constraints db Hinv) as Hc. unfold publish in Hrun.
  apply tx_bind_ok in Hrun as (state & d & [-> Hs]%lock_versioning_inv & Hrun).
  assert (0 <= lo_size row) as Hz.
  { unfold write_object_version_and_update_lifecycle in Hrun. destruct (Z.ltb_spec (lo_size row) 0); [done|lia]. }
  pose proof (fresh_installable _ _ _ _ db Hinv Hf (bucket_of_state _ _ _ Hc Hs)) as I.
  destruct (write_object_version_spec db row state now clock public_uuid row_uuid I Ho Ni Nc Hz)
    as (d & Hrun' & Hinv' & Hb & Hh & _ & Hother).
  rewrite Hrun' in Hrun. injection Hrun as _ <-. split; [done|].
  apply (null_only_change db d _ _ state _ Hc Hn Hb Hs Hh); [|done]. intros -> Hnull e He. simpl in He.
  apply elem_of_cons in He as [->|He]; [done|]. apply list_elem_of_filter in He as [_ He]. auto.
Qed.

Lemma delete_safe public_uuid row_uuid clock now b k selector r db db' :
  Safe db -> Fresh public_uuid row_uuid b k db -> valid_selector selector ->
  delete_version_attempt public_uuid row_uuid clock b k selector now db = Ok (r, db') -> Safe db'.
Proof.
  intros [Hinv Hn] Hf Hval Hrun. pose proof (inv_constraints db Hinv) as Hc.
  assert (exists state, get_versioning_state b db = Ok (state, db)) as [state Hs].
  { unfold delete_version_attempt in Hrun. apply tx_bind_ok in Hrun as ([] & d & Hl & Hrun).
    apply tx_bind_ok in Hrun as ([] & d1 & Hv & Hrun). rewrite granted_verify in Hv. injection Hv as <-.
    apply tx_bind_ok in Hrun as (state & d2 & Hs & _).
    destruct (lock_versioning_inv b db state d2) as [-> ?]; [|eauto].
    unfold lock_versioning_state. by rewrite (tx_bind_eq _ _ _ _ _ Hl). }
  pose proof (fresh_installable _ _ _ _ db Hinv Hf (bucket_of_state _ _ _ Hc Hs)) as I.
  pose proof (delete_version_attempt_spec public_uuid row_uuid clock b k selector now db state Hinv Hn Hs Hval I) as Hspec.
  cbv zeta in Hspec. rewrite Hrun in Hspec.
  assert (Inv db' /\ buckets db' = buckets db /\
    history b k db' = hist_delete state selector public_uuid (history b k db) /\
    forall b' k', (b', k') <> (b, k) -> history b' k' db' = history b' k' db) as (Hinv' & Hb & Hh & Hother).
  { destruct selector as [|id], state; try (destruct (hist_resolve (Exact id) _));
      try discriminate; destruct Hspec as [d E]; try discriminate; destruct E as [[= _ ->] ?]; done. }
  split; [done|]. apply (null_only_change db db' b k state _ Hc Hn Hb Hs Hh); [|done].
  intros -> Hnull e He. destruct selector; simpl in He; apply list_elem_of_filter in He as [_ He]; auto.
Qed.

Lemma sole_marker_rows selected db r db' :
  constraints db -> delete_current_sole_marker selected db = Ok (r, db') ->
  buckets db' = buckets db /\ forall v, v ∈ versions db' -> v ∈ versions db.
Proof.
  intros Hc. unfold delete_current_sole_marker. destruct (negb _); [by intros [= _ <-]|].
  intros (kind & d & [_ ->]%lift_ok & E)%tx_bind_ok. destruct (negb _); [by injection E as _ <-|].
  apply tx_bind_ok in E as (n & d & [= _ <-] & E). destruct (negb _); [by injection E as _ <-|].
  rewrite (tx_bind_eq _ _ _ _ _ (delete_versions_ok db (same_marker selected) Hc)) in E.
  assert (db' = delete_rows (same_marker selected) db) as ->.
  { destruct (_ =? 1); [by injection E|]. apply tx_bind_ok in E as (m & d & [= _ <-] & E).
    by destruct (_ =? 0); injection E. }
  split; [done|]. intros v Hv. simpl in Hv. by apply list_elem_of_filter in Hv as [_ Hv].
Qed.

Lemma sole_marker_safe selected r db db' :
  Safe db -> selected ∈ versions db -> delete_current_sole_marker selected db = Ok (r, db') -> Safe db'.
Proof.
  intros [Hinv Hn] Hin E. pose proof (inv_constraints db Hinv) as Hc.
  destruct (sole_marker_rows _ _ _ _ Hc E) as [Eb Hv]. split.
  - assert (version_check selected) as Hck.
    { destruct Hc as (_ & _ & (_ & _ & _ & _ & _ & Hck & _) & _). rewrite Forall_forall in Hck. by apply Hck. }
    destruct (delete_current_sole_marker_safe db selected Hinv Hck) as (r' & d & E' & Hr). rewrite E in E'. injection E' as <- <-.
    destruct r; [apply Hr|by subst..].
  - intros b v Hb Es Hin' Evb. apply (Hn b v); [by rewrite <- Eb|done|by apply Hv|done].
Qed.

Lemma step_safe db db' : Safe db -> step db db' -> Safe db'.
Proof. intros Hs []; eauto using create_bucket_safe, set_versioning_safe, publish_safe, delete_safe, sole_marker_safe. Qed.

(** C5: in every database the transactions can reach from an empty one, in any order and with any
    outcome, the version index is sound: one current version per key, which is the newest and whose
    object is the one projected as current, every content version backed by its object and a
    residency, and only null versions in a bucket that was never versioned. *)
Theorem reachable_safe db : reachable db -> Inv db /\ null_only db.
Proof.
  induction 1 as [|db db' _ IH Hstep]; [apply empty_safe|]. by apply (step_safe db).
Qed.
End system.
