(* ===== verification/StorageClasses.v ===== *)
(** * Storage classes of listed objects ([src/s3/ops/storage_class.rs])

    The batched lookup of the storage class of every object of a listing from the version index,
    the residencies and the physical copies, in one read snapshot. *)

From Stdlib Require Import ZArith Lia.
From stdpp Require Import prelude strings list gmap.
From S2P Require Import Prelude Errors VersionModel Database ObjectStore ResidencyStore.

#[local] Open Scope Z_scope.

Definition LOOKUP_CHUNK_SIZE : nat := 250.

(** [slice::chunks] *)
Fixpoint chunks_fuel {A} (fuel n : nat) (l : list A) : list (list A) :=
  match fuel, l with
  | S fuel, _ :: _ => take n l :: chunks_fuel fuel n (drop n l)
  | _, _ => []
  end.
Definition chunks {A} (n : nat) (l : list A) : list (list A) := chunks_fuel (length l) n l.

Record ObjectIdentity : Type := { oi_id : string; oi_bucket : string; oi_key : string; oi_cid : string }.
#[export] Instance ObjectIdentity_eq_dec : EqDecision ObjectIdentity.
Proof. solve_decision. Defined.

Definition object_identity (o : ObjectRow) : ObjectIdentity :=
  {| oi_id := o_id o; oi_bucket := o_bucket o; oi_key := o_key o; oi_cid := o_cid o |}.

(** [HashMap::insert], which returns the value it replaces. *)
Definition insert_unless {K V} `{Countable K} (clash : V -> bool) (message : string) (k : K) (v : V)
    (m : gmap K V) : AppResult (gmap K V) :=
  bail_if is_some_and clash (m !! k) with corrupt message else
  Ok (<[k := v]> m).

Definition select_objects (objects : list ObjectIdentity) : AppResult (gmap string ObjectIdentity) :=
  try_fold (fun selected object =>
    insert_unless (fun existing => negb (bool_decide (existing = object)))
      "conflicting selected immutable objects" (oi_id object) object selected) ∅ objects.

Definition sorted_keys {V} (m : gmap string V) : list string := sort_by cmp (map_to_list m).*1.

(** One row of the version query. *)
Definition collect_version (selected : gmap string ObjectIdentity)
    (acc : gmap string VersionRow * gmap string string) (version : VersionRow)
  : AppResult (gmap string VersionRow * gmap string string) :=
  let '(versions_by_object, object_by_version) := acc in
  let? object_id := ok_or (corrupt "content version has no immutable object") (v_object_id version) in
  let? object := ok_or (corrupt "version owner is not a selected immutable object")
                   (selected !! object_id) in
  bail_if negb (String.eqb (v_kind version) "object")
          || negb (String.eqb (v_bucket version) (oi_bucket object))
          || negb (String.eqb (v_key version) (oi_key object))
    with corrupt "version owner does not match immutable object metadata" else
  let? versions_by_object := insert_unless (fun _ => true)
    "immutable object has multiple content versions" object_id version versions_by_object in
  Ok (versions_by_object, <[v_id version := object_id]> object_by_version).

Definition merge_residencies (target : gmap string ResidencyRow) (rows : list ResidencyRow)
  : AppResult (gmap string ResidencyRow) :=
  try_fold (fun target residency =>
    insert_unless (fun existing => negb (bool_decide (existing = residency)))
      "residency changed during immutable lookup" (r_version_row_id residency) residency target)
    target rows.

Definition collect_residency (selected : gmap string ObjectIdentity)
    (object_by_version : gmap string string) (acc : gmap string ResidencyRow) (residency : ResidencyRow)
  : AppResult (gmap string ResidencyRow) :=
  let? version_object_id := ok_or (corrupt "residency owner version is missing")
                              (object_by_version !! r_version_row_id residency) in
  bail_if negb (String.eqb version_object_id (r_object_id residency))
          || is_none (selected !! r_object_id residency)
    with corrupt "residency owner is not the exact content version" else
  insert_unless (fun _ => true) "immutable object has multiple residencies"
    (r_object_id residency) residency acc.

Definition collect_physical (acc : gmap (string * string) PhysicalRow) (physical : PhysicalRow)
  : AppResult (gmap (string * string) PhysicalRow) :=
  insert_unless (fun _ => true) "duplicate physical residency" (p_tier physical, p_cid physical)
    physical acc.

(** ** What the collected maps hold *)

(** The map holds exactly the rows of the list, under their keys. *)
Definition Collected {K V} `{Countable K} (key : V -> K) (m : gmap K V) (l : list V) : Prop :=
  (forall v, v ∈ l -> m !! key v = Some v) /\ (forall k v, m !! k = Some v -> v ∈ l /\ key v = k).

Lemma collected_nil {K V} `{Countable K} (key : V -> K) : Collected key ∅ [].
Proof. split; [by intros v ?%elem_of_nil|]. intros k v. by rewrite lookup_empty. Qed.

Lemma insert_unless_collected {K V} `{Countable K} (key : V -> K) clash message v m m' l :
  Collected key m l -> insert_unless clash message (key v) v m = Ok m' ->
  (forall e, clash e = false -> e = v) -> Collected key m' (l ++ [v]).
Proof.
  intros [H1 H2] Hi Hc. unfold insert_unless in Hi.
  assert (Hm : (m !! key v = None \/ m !! key v = Some v) /\ m' = <[key v := v]> m).
  { destruct (m !! key v) as [e|]; simpl in Hi; [|by injection Hi as <-; auto].
    destruct (clash e) eqn:E; [done|]. injection Hi as <-. rewrite (Hc e E). auto. }
  destruct Hm as [Hm ->]. split.
  - intros w. rewrite elem_of_app, list_elem_of_singleton. intros [Hw| ->]; [|by rewrite lookup_insert_eq].
    destruct (decide (key w = key v)) as [E|E]; [|rewrite lookup_insert_ne by done; auto].
    rewrite <- E, lookup_insert_eq. rewrite <- E, (H1 w Hw) in Hm. destruct Hm; [done|congruence].
  - intros k w. destruct (decide (key v = k)) as [<-|E].
    + rewrite lookup_insert_eq. intros [= <-]. split; [apply elem_of_app; right; left|done].
    + rewrite lookup_insert_ne by done. intros [??]%H2. split; [apply elem_of_app; by left|done].
Qed.

Lemma clash_differs {V} `{EqDecision V} (v e : V) : negb (bool_decide (e = v)) = false -> e = v.
Proof. intros H%negb_false_iff%bool_decide_eq_true. done. Qed.

Lemma select_objects_collected objs selected :
  select_objects objs = Ok selected -> Collected oi_id selected objs.
Proof.
  apply (try_fold_ind (fun l m => Collected oi_id m l)); [apply collected_nil|].
  intros l o m m' Hm Hi. eapply insert_unless_collected; eauto using clash_differs.
Qed.

Lemma merge_residencies_collected m l rows m' :
  Collected r_version_row_id m l -> merge_residencies m rows = Ok m' ->
  Collected r_version_row_id m' (l ++ rows).
Proof.
  intros Hm. apply (try_fold_ind (fun rows m => Collected r_version_row_id m (l ++ rows))).
  - by rewrite app_nil_r.
  - intros rows' r m1 m2 H1 Hi. rewrite app_assoc. eapply insert_unless_collected; eauto using clash_differs.
Qed.

Lemma merge_all_collected m l batches m' :
  Collected r_version_row_id m l -> try_fold merge_residencies m batches = Ok m' ->
  Collected r_version_row_id m' (l ++ concat batches).
Proof.
  intros Hm. apply (try_fold_ind (fun bs m => Collected r_version_row_id m (l ++ concat bs))).
  - simpl. by rewrite app_nil_r.
  - intros bs rows m1 m2 H1 Hi. rewrite concat_app. simpl. rewrite app_nil_r, app_assoc.
    by eapply merge_residencies_collected.
Qed.

Lemma collect_residency_collected selected obv rows m :
  try_fold (collect_residency selected obv) ∅ rows = Ok m ->
  Collected r_object_id m rows /\
  forall r, r ∈ rows -> obv !! r_version_row_id r = Some (r_object_id r).
Proof.
  apply (try_fold_ind (fun rows m => Collected r_object_id m rows /\
    forall r, r ∈ rows -> obv !! r_version_row_id r = Some (r_object_id r))).
  - split; [apply collected_nil|by intros r ?%elem_of_nil].
  - intros l r m1 m2 [H1 H2] Hr. unfold collect_residency in Hr. ok_inv Hr. split.
    + by eapply insert_unless_collected.
    + intros r'. rewrite elem_of_app, list_elem_of_singleton. intros [?| ->]; [auto|].
      guard_inv. congruence.
Qed.

Lemma collect_version_collected selected rows vb obv :
  try_fold (collect_version selected) (∅, ∅) rows = Ok (vb, obv) ->
  (forall v, v ∈ rows -> exists id, v_object_id v = Some id /\ vb !! id = Some v) /\
  (forall id v, vb !! id = Some v -> v ∈ rows /\ v_object_id v = Some id) /\
  (forall vid id, obv !! vid = Some id -> exists v, v ∈ rows /\ v_object_id v = Some id).
Proof.
  intros Hf. revert Hf.
  apply (try_fold_ind (fun rows acc =>
    (forall v, v ∈ rows -> exists id, v_object_id v = Some id /\ acc.1 !! id = Some v) /\
    (forall id v, acc.1 !! id = Some v -> v ∈ rows /\ v_object_id v = Some id) /\
    (forall vid id, acc.2 !! vid = Some id -> exists v, v ∈ rows /\ v_object_id v = Some id))).
  { split_and!; [by intros v ?%elem_of_nil|intros id v; simpl; by rewrite lookup_empty..]. }
  intros l v [vb1 obv1] [vb2 obv2] (H1 & H2 & H3) Hr. unfold collect_version in Hr. ok_inv Hr.
  injection Hr as <- <-. unfold insert_unless in E2. simpl in *.
  destruct (vb1 !! x) as [e|] eqn:Ex; [done|]. simpl in E2. injection E2 as <-. split_and!.
  - intros w. rewrite elem_of_app, list_elem_of_singleton. intros [Hw| ->].
    + destruct (H1 w Hw) as (id & ? & Hid). exists id. split; [done|]. rewrite lookup_insert_ne; congruence.
    + exists x. by rewrite lookup_insert_eq.
  - intros id w. destruct (decide (x = id)) as [<-|Hne].
    + rewrite lookup_insert_eq. intros [= <-]. split; [apply elem_of_app; right; left|done].
    + rewrite lookup_insert_ne by done. intros [??]%H2. split; [apply elem_of_app; by left|done].
  - intros vid id. rewrite lookup_insert_Some. intros [[<- <-]|[_ (w & ? & ?)%H3]].
    + exists v. split; [apply elem_of_app; right; left|done].
    + exists w. split; [apply elem_of_app; by left|done].
Qed.

Lemma collect_physical_collected rows m :
  try_fold collect_physical ∅ rows = Ok m -> Collected (fun p => (p_tier p, p_cid p)) m rows.
Proof.
  apply (try_fold_ind (fun rows m => Collected (fun p => (p_tier p, p_cid p)) m rows)); [apply collected_nil|].
  intros l p m1 m2 Hm Hi. by eapply (insert_unless_collected (fun p => (p_tier p, p_cid p))) in Hi.
Qed.

Lemma concat_chunks {A} n (l : list A) : (0 < n)%nat -> concat (chunks n l) = l.
Proof.
  intros Hn. unfold chunks. remember (length l) as fuel eqn:E. assert (length l <= fuel)%nat as Hf by lia. clear E.
  revert l Hf. induction fuel as [|fuel IH]; intros [|a l] Hf; [done|simpl in *; lia|done|].
  cbn [chunks_fuel concat]. rewrite IH; [apply take_drop|]. rewrite length_drop. simpl in *. lia.
Qed.

(** The rows of the chunked queries are the rows of one query. *)
Lemma elem_of_chunked {A B} (rows : list A) (ks : list B) (P : list B -> A -> Prop)
    `{forall c a, Decision (P c a)} a :
  a ∈ concat (map (fun chunk => filter (P chunk) rows) (chunks LOOKUP_CHUNK_SIZE ks)) <->
  a ∈ rows /\ exists chunk, chunk ∈ chunks LOOKUP_CHUNK_SIZE ks /\ P chunk a.
Proof.
  rewrite list_elem_of_In, in_concat. setoid_rewrite <- list_elem_of_In. setoid_rewrite list_elem_of_fmap. split.
  - intros (l & (chunk & -> & Hc) & Ha). apply list_elem_of_filter in Ha as [??]. eauto.
  - intros (Ha & chunk & Hc & HP). eexists. split; [eauto|]. by apply list_elem_of_filter.
Qed.

Section classes.
Context {Cid : Type} `{EqDecision Cid}.
Context (parse_receipt : string -> option (string * string)) (parse_cid : string -> option Cid).

Definition validate_physical (physical : PhysicalRow) (tier : KuboTier) : AppResult unit :=
  let? physical_tier := tier_from_db_str (p_tier physical) in
  bail_if negb (bool_decide (physical_tier = tier)) with corrupt "physical residency tier mismatch" else
  let? verification := verification_from_db_str (p_verification_state physical) in
  let valid_shape :=
    match verification with
    | VVerified =>
      is_some_and (fun value => negb (str_is_empty value)) (p_node_identity physical)
      && is_some_and (fun value => negb (str_is_empty value)) (p_verification_receipt physical)
      && is_some (p_verified_at physical)
    | VPending | VFailed =>
      is_none (p_node_identity physical) && is_none (p_verification_receipt physical)
      && is_none (p_verified_at physical)
    end in
  bail_if negb valid_shape with corrupt "invalid physical verification shape" else
  bail_if bool_decide (tier = Cold) && negb (bool_decide (verification = VVerified))
    with corrupt "cold physical residency is not verified" else
  if bool_decide (tier = Cold) then
    validate_cold_receipt parse_receipt parse_cid (p_cid physical) (p_node_identity physical)
      (p_verification_receipt physical)
  else Ok tt.

(** The class of one selected object from the collected rows. *)
Definition class_of (selected : gmap string ObjectIdentity)
    (versions_by_object : gmap string VersionRow) (residencies_by_object : gmap string ResidencyRow)
    (physical_by_location : gmap (string * string) PhysicalRow) (object_id : string)
  : AppResult StorageClass :=
  match versions_by_object !! object_id with
  | None => Ok Standard
  | Some version =>
    match residencies_by_object !! object_id with
    | None => Ok Standard
    | Some residency =>
      let? object := ok_or (Internal "selected object is missing") (selected !! object_id) in
      bail_if negb (String.eqb (r_version_row_id residency) (v_id version))
              || negb (String.eqb (r_object_id residency) (oi_id object))
              || negb (bool_decide (v_object_id version = Some (oi_id object)))
              || negb (String.eqb (r_cid residency) (oi_cid object))
              || negb (String.eqb (v_bucket version) (oi_bucket object))
              || negb (String.eqb (v_key version) (oi_key object))
        with corrupt "residency identity does not match immutable object metadata" else
      let? tier := tier_from_db_str (r_primary_tier residency) in
      let? storage_class := class_from_db_str (r_storage_class residency) in
      bail_if (r_revision residency <=? 0)
              || negb (match tier, storage_class with
                       | Hot, Standard | Cold, StandardIa => true
                       | _, _ => false
                       end)
        with corrupt "invalid primary residency" else
      let? physical := ok_or (corrupt "primary physical residency is missing")
                         (physical_by_location !! (r_primary_tier residency, r_cid residency)) in
      let? _ := validate_physical physical tier in
      Ok storage_class
    end
  end.

Definition classes_in_snapshot (objects : list ObjectIdentity) (db : Db)
  : AppResult (gmap string StorageClass) :=
  let? selected := select_objects objects in
  let object_ids := sorted_keys selected in
  let? '(versions_by_object, object_by_version) :=
    try_fold (collect_version selected) (∅, ∅)
      (concat (map (fun chunk => filter (fun v => v_object_id v ∈ map Some chunk) (versions db))
                 (chunks LOOKUP_CHUNK_SIZE object_ids))) in
  let? residencies_by_version := try_fold merge_residencies ∅
    (map (fun chunk => filter (fun r => r_object_id r ∈ chunk) (residencies db))
       (chunks LOOKUP_CHUNK_SIZE object_ids)) in
  let version_ids := sorted_keys object_by_version in
  let? residencies_by_version := try_fold merge_residencies residencies_by_version
    (map (fun chunk => filter (fun r => r_version_row_id r ∈ chunk) (residencies db))
       (chunks LOOKUP_CHUNK_SIZE version_ids)) in
  let? residencies_by_object :=
    try_fold (collect_residency selected object_by_version) ∅ (map_to_list residencies_by_version).*2 in
  let residency_cids := dedup (sort_by cmp (r_cid <$> (map_to_list residencies_by_object).*2)) in
  let? physical_by_location := try_fold collect_physical ∅
    (concat (map (fun chunk => filter (fun p => p_cid p ∈ chunk) (physicals db))
               (chunks LOOKUP_CHUNK_SIZE residency_cids))) in
  try_fold (fun classes object_id =>
    let? class := class_of selected versions_by_object residencies_by_object physical_by_location
                    object_id in
    Ok (<[object_id := class]> classes)) ∅ object_ids.

(** [classes_for_objects] opens the snapshot itself. *)
Definition classes_for_objects (objects : list ObjectRow) (db : Db)
  : AppResult (gmap string StorageClass) :=
  match objects with
  | [] => Ok ∅
  | _ => classes_in_snapshot (map object_identity objects) db
  end.

Lemma elem_of_sorted_keys {V} (m : gmap string V) k : k ∈ sorted_keys m <-> is_Some (m !! k).
Proof.
  unfold sorted_keys. rewrite elem_of_sort_by, list_elem_of_fmap. split.
  - intros ((k' & v) & -> & Hkv%elem_of_map_to_list). simpl. eauto.
  - intros [v Hv]. exists (k, v). split; [done|]. by apply elem_of_map_to_list.
Qed.

Lemma class_fold_lookup (f : string -> AppResult StorageClass) ids classes :
  try_fold (fun classes id => let? class := f id in Ok (<[id := class]> classes)) (∅ : gmap string StorageClass) ids
    = Ok classes ->
  (forall id, is_Some (classes !! id) <-> id ∈ ids) /\ forall id class, classes !! id = Some class -> f id = Ok class.
Proof.
  apply (try_fold_ind (fun ids (classes : gmap string StorageClass) =>
    (forall id, is_Some (classes !! id) <-> id ∈ ids) /\ forall id class, classes !! id = Some class -> f id = Ok class)).
  - split; [|intros id class; by rewrite lookup_empty]. intros id. rewrite lookup_empty, elem_of_nil.
    split; [by intros [? ?]|done].
  - intros l id m m' [H1 H2] Hf. ok_inv Hf. injection Hf as <-. split.
    + intros id'. rewrite elem_of_app, list_elem_of_singleton, <- H1. destruct (decide (id = id')) as [<-|Hne].
      * rewrite lookup_insert_eq. split; [auto|eauto].
      * rewrite lookup_insert_ne by done. split; [auto|intros [?| ->]; done].
    + intros id' class. rewrite lookup_insert_Some. intros [[<- <-]|[_ ?]]; [done|auto].
Qed.

Lemma verification_from_verified s : verification_from_db_str s = Ok VVerified -> s = "verified"%string.
Proof.
  unfold verification_from_db_str. destruct (String.eqb_spec s "pending") as [->|]; [done|].
  destruct (String.eqb_spec s "verified") as [->|]; [done|]. by destruct (String.eqb s "failed").
Qed.

Lemma validate_physical_ok p tier :
  validate_physical p tier = Ok tt ->
  tier_from_db_str (p_tier p) = Ok tier /\
  (tier = Cold -> p_verification_state p = "verified"%string /\
     validate_cold_receipt parse_receipt parse_cid (p_cid p) (p_node_identity p) (p_verification_receipt p) = Ok tt).
Proof.
  unfold validate_physical. intros Hv. ok_inv Hv. guard_inv. subst. split; [done|]. intros ->.
  rewrite !bool_decide_true in * by done. cbn [andb] in *. guard_inv. subst. split; [|done].
  by apply verification_from_verified.
Qed.

(** A residency the lookup uses fixes the class, and a cold one is backed by a verified copy. *)
Lemma class_of_residency selected vb rb pl id v r class :
  vb !! id = Some v -> rb !! id = Some r -> class_of selected vb rb pl id = Ok class ->
  exists tier p, tier_from_db_str (r_primary_tier r) = Ok tier /\
    class_from_db_str (r_storage_class r) = Ok class /\ (class = StandardIa <-> tier = Cold) /\
    pl !! (r_primary_tier r, r_cid r) = Some p /\ validate_physical p tier = Ok tt /\
    r_version_row_id r = v_id v.
Proof.
  intros Hv Hr Hc. unfold class_of in Hc. rewrite Hv, Hr in Hc. ok_inv Hc. destruct x3. injection Hc as <-.
  guard_inv. eexists _, _. split_and!; [done..| |done|done|done].
  by destruct x0, x1.
Qed.

Lemma elem_of_chunk {A} (ks : list A) k :
  k ∈ ks <-> exists chunk, chunk ∈ chunks LOOKUP_CHUNK_SIZE ks /\ k ∈ chunk.
Proof.
  rewrite <- (concat_chunks LOOKUP_CHUNK_SIZE ks) at 1 by (unfold LOOKUP_CHUNK_SIZE; lia).
  rewrite list_elem_of_In, in_concat. setoid_rewrite <- list_elem_of_In. done.
Qed.

Lemma in_second_pass {A} (l1 l2 : list A) x : x ∈ l1 -> x ∈ l1 ++ l2.
Proof. intros. apply elem_of_app. by left. Qed.

(** Every object asked for, and no other, has a class. *)
Lemma classes_in_snapshot_dom objs db classes :
  classes_in_snapshot objs db = Ok classes ->
  forall id, is_Some (classes !! id) <-> exists o, o ∈ objs /\ oi_id o = id.
Proof.
  unfold classes_in_snapshot. intros Hc. ok_inv Hc. apply select_objects_collected in E as [Hs1 Hs2].
  destruct x0 as [vb obv]. ok_inv Hc. apply class_fold_lookup in Hc as [Hd _].
  intros id. rewrite Hd, elem_of_sorted_keys. split; [intros [o Ho]; eauto|]. intros (o & Ho & <-). eauto.
Qed.

(** the classes of a listing agree with the database: every listed object gets a class, an object
    with a residency exactly the class recorded there, and STANDARD_IA is reported only for a cold
    residency backed by a verified physical copy with a receipt for its CID and node. *)
Theorem classes_in_snapshot_sound objs db classes :
  classes_in_snapshot objs db = Ok classes ->
  (forall id, is_Some (classes !! id) <-> exists o, o ∈ objs /\ oi_id o = id) /\
  forall id class r, classes !! id = Some class -> r ∈ residencies db -> r_object_id r = id ->
    exists tier p, tier_from_db_str (r_primary_tier r) = Ok tier /\
      class_from_db_str (r_storage_class r) = Ok class /\ (class = StandardIa <-> tier = Cold) /\
      p ∈ physicals db /\ p_tier p = r_primary_tier r /\ p_cid p = r_cid r /\
      (tier = Cold -> p_verification_state p = "verified"%string /\
         validate_cold_receipt parse_receipt parse_cid (p_cid p) (p_node_identity p)
           (p_verification_receipt p) = Ok tt).
Proof.
  intros Hc. split; [by eapply classes_in_snapshot_dom|].
  unfold classes_in_snapshot in Hc. ok_inv Hc. rename x into selected.
  apply select_objects_collected in E as [Hs1 Hs2].
  destruct x0 as [vb obv]. ok_inv Hc. rename x into rbv1, x0 into rbv, x1 into rb, x2 into pl.
  apply collect_version_collected in E0 as (Hv1 & Hv2 & Hv3).
  apply (merge_all_collected _ [] _ _ (collected_nil _)) in E.
  apply (merge_all_collected _ _ _ _ E) in E1 as [Hr1 _].
  apply collect_residency_collected in E2 as [[Hb1 _] Hb2].
  apply collect_physical_collected in E3 as [_ Hp2].
  apply class_fold_lookup in Hc as [Hd Hf].
  intros id class r Hcl Hr Er.
  assert (Hid : id ∈ sorted_keys selected) by (apply Hd; eauto).
  assert (Hrb : r ∈ (map_to_list rbv).*2).
  { apply list_elem_of_fmap. exists (r_version_row_id r, r). split; [done|]. apply elem_of_map_to_list, Hr1.
    apply in_second_pass, elem_of_chunked. split; [done|]. rewrite Er. by apply elem_of_chunk. }
  pose proof (Hb1 r Hrb) as Hrid. rewrite Er in Hrid.
  destruct (Hv3 _ _ (Hb2 r Hrb)) as (v & Hv & Ev). rewrite Er in Ev.
  destruct (Hv1 v Hv) as (id' & Ev' & Hvb). assert (id' = id) as -> by congruence.
  destruct (class_of_residency _ _ _ _ _ _ _ _ Hvb Hrid (Hf id class Hcl))
    as (tier & p & Ht & Hcls & Hiff & Hpl & Hval & _).
  apply Hp2 in Hpl as [Hin [= Et Ec]]. apply elem_of_chunked in Hin as [Hin _].
  apply validate_physical_ok in Hval as [_ Hval]. exists tier, p. done.
Qed.
End classes.
