(* ===== verification/Listing.v ===== *)
(** * Listing the objects of a bucket ([src/s3/ops/object.rs], [src/store/object.rs])

    The query [list], the page builder with its common prefixes, the batched paging loop of
    [build_listing_page], and the projection of listing fields.  The keys of a bucket are ordered by
    their bytes (the [BINARY] collation of SQLite). *)

From Stdlib Require Import ZArith Lia Ascii.
From stdpp Require Import prelude strings list gmap sorting.
From S2P Require Import Prelude Errors VersionModel Database ObjectStore StorageClasses.

#[local] Open Scope Z_scope.

(** ** Fields *)

Definition normalized_max_keys (value : option Z) : Z := Z.max 1 (Z.min 1000 (default 1000 value)).

Definition common_prefix_for_key (key prefix : string) (delimiter : option string) : option string :=
  delimiter ← delimiter;
  if str_is_empty delimiter then None else
  rest ← strip_prefix prefix key;
  index ← str_find delimiter rest;
  Some (prefix +:+ str_take (index + String.length delimiter) rest).

Definition is_ascii_alphanumeric (c : ascii) : bool :=
  let n := N_of_ascii c in
  ((48 <=? n) && (n <=? 57) || (65 <=? n) && (n <=? 90) || (97 <=? n) && (n <=? 122))%N.

Definition hex_digit (n : N) : ascii :=
  if (n <? 10)%N then ascii_of_N (48 + n) else ascii_of_N (55 + n).

Definition unreserved (c : ascii) : bool :=
  is_ascii_alphanumeric c || existsb (Ascii.eqb c) ["-"; "."; "_"; "~"]%char.

Fixpoint rfc3986_url_encode (value : string) : string :=
  match value with
  | EmptyString => EmptyString
  | String c rest =>
    if unreserved c then String c (rfc3986_url_encode rest)
    else let n := N_of_ascii c in
         String "%"%char (String (hex_digit (N.shiftr n 4)) (String (hex_digit (N.land n 15))
           (rfc3986_url_encode rest)))
  end.

Definition project_listing_field (value : string) (url_encode : bool) : string :=
  if url_encode then rfc3986_url_encode value else value.

(** ** The query *)

Record ListingObject : Type := {
  l_id : string;
  l_bucket : string;
  l_key : string;
  l_cid : string;
  l_size : Z;
  l_etag : string;
  l_created_at : Z
}.
#[export] Instance ListingObject_eq_dec : EqDecision ListingObject.
Proof. solve_decision. Defined.

Definition listing_object (o : ObjectRow) : ListingObject :=
  {| l_id := o_id o; l_bucket := o_bucket o; l_key := o_key o; l_cid := o_cid o; l_size := o_size o;
     l_etag := o_etag o; l_created_at := o_created_at o |}.

Section listing.
(** [column.starts_with(prefix)] is [column LIKE 'prefix%'], whose wildcards and case folding are
    the database's. *)
Context (key_like : string -> string -> bool).

Definition listed (bucket : string) (prefix continuation_token : option string) (o : ObjectRow) : Prop :=
  o_bucket o = bucket /\ o_is_latest o = true /\
  is_none_or (fun pfx => key_like pfx (o_key o)) prefix = true /\
  is_none_or (fun token => str_is_empty token || lt_b token (o_key o)) continuation_token = true.
#[export] Instance listed_dec bucket prefix token o : Decision (listed bucket prefix token o).
Proof. unfold listed. apply _. Defined.

Definition object_list (bucket : string) (prefix continuation_token : option string) (max_keys : Z)
    (db : Db) : list ListingObject :=
  take (Z.to_nat max_keys)
    (listing_object <$> sort_by (by_key o_key) (filter (listed bucket prefix continuation_token) (objects db))).

(** ** The page builder *)

Inductive ListingEntry : Type :=
| EObject (row : ListingObject)
| ECommonPrefix (prefix continuation_key : string).

Record ListingPage : Type := {
  lp_entries : list ListingEntry;
  lp_is_truncated : bool;
  lp_next_cursor : option string
}.

Inductive PushListEntryResult : Type := Continue | PageComplete.

Record ListingPageBuilder : Type := {
  lb_prefix : string;
  lb_delimiter : option string;
  lb_max_keys : Z;
  lb_entries : list ListingEntry;
  lb_common_prefix_positions : gmap string nat;
  lb_last_consumed_key : option string;
  lb_is_truncated : bool
}.

Definition builder_new (prefix : string) (delimiter : option string) (max_keys : Z)
  : ListingPageBuilder :=
  {| lb_prefix := prefix; lb_delimiter := delimiter; lb_max_keys := max_keys; lb_entries := [];
     lb_common_prefix_positions := ∅; lb_last_consumed_key := None; lb_is_truncated := false |}.

Definition consumed (b : ListingPageBuilder) (entries : list ListingEntry) (positions : gmap string nat)
    (key : string) : ListingPageBuilder :=
  {| lb_prefix := lb_prefix b; lb_delimiter := lb_delimiter b; lb_max_keys := lb_max_keys b;
     lb_entries := entries; lb_common_prefix_positions := positions;
     lb_last_consumed_key := Some key; lb_is_truncated := lb_is_truncated b |}.

Definition truncated (b : ListingPageBuilder) : ListingPageBuilder :=
  {| lb_prefix := lb_prefix b; lb_delimiter := lb_delimiter b; lb_max_keys := lb_max_keys b;
     lb_entries := lb_entries b; lb_common_prefix_positions := lb_common_prefix_positions b;
     lb_last_consumed_key := lb_last_consumed_key b; lb_is_truncated := true |}.

Definition page_full (b : ListingPageBuilder) : bool :=
  lb_max_keys b <=? Z.of_nat (length (lb_entries b)).

(** [None] is the panic of an index out of range. *)
Definition push_row (b : ListingPageBuilder) (row : ListingObject)
  : option (ListingPageBuilder * PushListEntryResult) :=
  let key := l_key row in
  match common_prefix_for_key key (lb_prefix b) (lb_delimiter b) with
  | Some common_prefix =>
    match lb_common_prefix_positions b !! common_prefix with
    | Some position =>
      entry ← lb_entries b !! position;
      let entries :=
        match entry with
        | ECommonPrefix prefix _ => <[position := ECommonPrefix prefix key]> (lb_entries b)
        | EObject _ => lb_entries b
        end in
      Some (consumed b entries (lb_common_prefix_positions b) key, Continue)
    | None =>
      if page_full b then Some (truncated b, PageComplete) else
      let position := length (lb_entries b) in
      Some (consumed b (lb_entries b ++ [ECommonPrefix common_prefix key])
              (<[common_prefix := position]> (lb_common_prefix_positions b)) key, Continue)
    end
  | None =>
    if page_full b then Some (truncated b, PageComplete) else
    Some (consumed b (lb_entries b ++ [EObject row]) (lb_common_prefix_positions b) key, Continue)
  end.

Definition finish (b : ListingPageBuilder) : ListingPage :=
  {| lp_entries := lb_entries b; lp_is_truncated := lb_is_truncated b;
     lp_next_cursor := if lb_is_truncated b then lb_last_consumed_key b else None |}.

(** The loop over the rows of one batch: the builder, whether the page is complete, and the
    cursor after the last row that was pushed. *)
Fixpoint push_rows (b : ListingPageBuilder) (cursor : option string) (rows : list ListingObject)
  : option (ListingPageBuilder * PushListEntryResult * option string) :=
  match rows with
  | [] => Some (b, Continue, cursor)
  | row :: rows' =>
    '(b, pushed) ← push_row b row;
    match pushed with
    | PageComplete => Some (b, PageComplete, cursor)
    | Continue => push_rows b (Some (l_key row)) rows'
    end
  end.

(** ** The paging loop *)

Record ListingRequest : Type := {
  lr_bucket : string;
  lr_prefix : string;
  lr_delimiter : option string;
  lr_cursor : option string;
  lr_max_keys : Z
}.

Inductive ListingFault : Type := Failed (e : AppError) | Panicked | OutOfFuel.

Definition nonempty_filter (o : option string) : option string :=
  value ← o; if str_is_empty value then None else Some value.

Fixpoint paging_loop (fuel : nat) (bucket : string) (prefix_filter : option string) (batch_limit : Z)
    (cursor : option string) (b : ListingPageBuilder) (db : Db)
  : result ListingFault ListingPageBuilder :=
  match fuel with
  | O => Err OutOfFuel
  | S fuel =>
    let rows := object_list bucket prefix_filter cursor batch_limit db in
    let exhausted := Z.of_nat (length rows) <? batch_limit in
    let? '(b, pushed, cursor) := ok_or Panicked (push_rows b cursor rows) in
    match pushed with
    | PageComplete => Ok b
    | Continue =>
      if exhausted : bool then Ok b
      else paging_loop fuel bucket prefix_filter batch_limit cursor b db
    end
  end.

Definition build_listing_page (fuel : nat) (request : ListingRequest) (db : Db)
  : result ListingFault ListingPage :=
  bail_if negb (bucket_exists (lr_bucket request) db) with Failed (NoSuchBucket (lr_bucket request)) else
  let cursor := nonempty_filter (lr_cursor request) in
  let prefix_filter := if str_is_empty (lr_prefix request) then None else Some (lr_prefix request) in
  let delimiter := nonempty_filter (lr_delimiter request) in
  let batch_limit :=
    if is_some delimiter then Z.max (lr_max_keys request + 1) 1000 else lr_max_keys request + 1 in
  let? b := paging_loop fuel (lr_bucket request) prefix_filter batch_limit cursor
              (builder_new (lr_prefix request) delimiter (lr_max_keys request)) db in
  Ok (finish b).

(** ** The responses *)

Record ContentDto : Type := {
  dto_key : string;
  dto_size : Z;
  dto_etag : string;
  dto_last_modified : Z;
  dto_storage_class : string
}.

Definition content_dto (row : ListingObject) (class : StorageClass) (url_encode : bool) : ContentDto :=
  {| dto_key := project_listing_field (l_key row) url_encode; dto_size := l_size row;
     dto_etag := l_etag row; dto_last_modified := l_created_at row;
     dto_storage_class := class_as_db_str class |}.

Definition listing_identity (row : ListingObject) : ObjectIdentity :=
  {| oi_id := l_id row; oi_bucket := l_bucket row; oi_key := l_key row; oi_cid := l_cid row |}.

Definition entry_object (e : ListingEntry) : option ListingObject :=
  match e with EObject row => Some row | ECommonPrefix _ _ => None end.

(** [classes[&model.id]] panics on a missing key. *)
Definition push_dto (classes : gmap string StorageClass) (url_encode : bool)
    (acc : list ContentDto * list string) (entry : ListingEntry)
  : result ListingFault (list ContentDto * list string) :=
  let '(contents, common_prefixes) := acc in
  match entry with
  | EObject row =>
    let? class := ok_or Panicked (classes !! l_id row) in
    Ok (contents ++ [content_dto row class url_encode], common_prefixes)
  | ECommonPrefix prefix _ =>
    Ok (contents, common_prefixes ++ [project_listing_field prefix url_encode])
  end.

Section responses.
Context {Cid : Type} `{EqDecision Cid}.
Context (parse_receipt : string -> option (string * string)) (parse_cid : string -> option Cid).

Definition listing_dtos (entries : list ListingEntry) (url_encode : bool) (db : Db)
  : result ListingFault (list ContentDto * list string) :=
  let objects := map listing_identity (omap entry_object entries) in
  let? classes := map_err Failed (classes_in_snapshot parse_receipt parse_cid objects db) in
  try_fold (push_dto classes url_encode) ([], []) entries.

Definition listing_page_in_snapshot (fuel : nat) (request : ListingRequest) (url_encode : bool) (db : Db)
  : result ListingFault (ListingPage * list ContentDto * list string) :=
  let? page := build_listing_page fuel request db in
  let? '(contents, prefixes) := listing_dtos (lp_entries page) url_encode db in
  Ok (page, contents, prefixes).

Record ListObjectsV2Input : Type := {
  in_bucket : string;
  in_prefix : option string;
  in_delimiter : option string;
  in_url_encoding : bool;
  in_start_after : option string;
  in_continuation_token : option string;
  in_max_keys : option Z
}.

Record ListObjectsV2Output : Type := {
  out_contents : list ContentDto;
  out_common_prefixes : option (list string);
  out_is_truncated : bool;
  out_continuation_token : option string;
  out_next_continuation_token : option string;
  out_key_count : Z;
  out_max_keys : Z;
  out_name : string;
  out_prefix : string;
  out_delimiter : option string;
  out_start_after : option string
}.

Definition project_optional_listing_field (value : option string) (url_encode : bool) : option string :=
  (fun value => project_listing_field value url_encode) <$> value.

Definition v2_cursor (input : ListObjectsV2Input) : option string :=
  match nonempty_filter (in_continuation_token input) with
  | Some token => Some token
  | None => nonempty_filter (in_start_after input)
  end.

Definition list_objects_v2 (fuel : nat) (input : ListObjectsV2Input) (db : Db)
  : result ListingFault ListObjectsV2Output :=
  let url_encode := in_url_encoding input in
  let max_keys := normalized_max_keys (in_max_keys input) in
  let request := {| lr_bucket := in_bucket input; lr_prefix := default EmptyString (in_prefix input);
                    lr_delimiter := in_delimiter input; lr_cursor := v2_cursor input;
                    lr_max_keys := max_keys |} in
  let? '(page, contents, common_prefixes) := listing_page_in_snapshot fuel request url_encode db in
  Ok {| out_contents := contents;
        out_common_prefixes := match common_prefixes with [] => None | _ => Some common_prefixes end;
        out_is_truncated := lp_is_truncated page;
        out_continuation_token := in_continuation_token input;
        out_next_continuation_token := lp_next_cursor page;
        out_key_count := as_i32 (Z.of_nat (length (lp_entries page)));
        out_max_keys := as_i32 max_keys;
        out_name := in_bucket input;
        out_prefix := project_listing_field (default EmptyString (in_prefix input)) url_encode;
        out_delimiter := project_optional_listing_field (in_delimiter input) url_encode;
        out_start_after := project_optional_listing_field (in_start_after input) url_encode |}.

(** [list_objects], whose marker is the cursor and whose next marker is projected. *)
Definition list_objects (fuel : nat) (bucket : string) (prefix delimiter marker : option string)
    (url_encoding : bool) (max_keys : option Z) (db : Db)
  : result ListingFault (list ContentDto * option (list string) * bool * option string) :=
  let max_keys := normalized_max_keys max_keys in
  let request := {| lr_bucket := bucket; lr_prefix := default EmptyString prefix;
                    lr_delimiter := delimiter; lr_cursor := marker; lr_max_keys := max_keys |} in
  let? '(page, contents, common_prefixes) := listing_page_in_snapshot fuel request url_encoding db in
  let next_marker := if lp_is_truncated page then lp_next_cursor page else None in
  Ok (contents, match common_prefixes with [] => None | _ => Some common_prefixes end,
      lp_is_truncated page, project_optional_listing_field next_marker url_encoding).
End responses.

(** ** Common prefixes *)

Lemma common_prefix_Some key prefix d c :
  common_prefix_for_key key prefix d = Some c <->
  exists delim rest i, d = Some delim /\ str_is_empty delim = false /\ key = prefix +:+ rest /\
    str_find delim rest = Some i /\ c = prefix +:+ str_take (i + String.length delim) rest.
Proof.
  unfold common_prefix_for_key. split.
  - intros (delim & -> & Hd)%bind_Some. destruct (str_is_empty delim) eqn:E; [done|].
    apply bind_Some in Hd as (rest & Hr%strip_prefix_Some & (i & Hi & [= <-])%bind_Some). eauto 10.
  - intros (delim & rest & i & -> & E & Hk & Hi & ->). simpl. rewrite E.
    apply strip_prefix_Some in Hk as ->. simpl. by rewrite Hi.
Qed.

Lemma common_prefix_starts key prefix d c :
  common_prefix_for_key key prefix d = Some c -> starts_with c key = true.
Proof.
  intros (delim & rest & i & -> & _ & -> & Hi & ->)%common_prefix_Some. apply starts_with_iff.
  exists (str_drop (i + String.length delim) rest). by rewrite str_app_assoc, str_take_drop.
Qed.

(** Every key under a common prefix has that common prefix. *)
Lemma common_prefix_stable key key' prefix d c :
  common_prefix_for_key key prefix d = Some c -> starts_with c key' = true ->
  common_prefix_for_key key' prefix d = Some c.
Proof.
  intros (delim & rest & i & -> & E & -> & Hi & ->)%common_prefix_Some (r & ->)%starts_with_iff.
  apply common_prefix_Some. exists delim, (str_take (i + String.length delim) rest +:+ r), i.
  split_and!; [done..|by rewrite str_app_assoc|by apply str_find_take|].
  pose proof (str_find_bound _ _ _ Hi) as Hb.
  rewrite str_take_app by (rewrite str_take_length by done; lia).
  rewrite <- (str_take_length (i + String.length delim) rest) at 2 by done. by rewrite str_take_all.
Qed.

Lemma starts_with_between c x y z :
  ord_le x y -> ord_le y z -> starts_with c x = true -> starts_with c z = true -> starts_with c y = true.
Proof.
  unfold starts_with. revert x y z. induction c as [|a c IH]; intros x y z Hxy Hyz; [done|].
  destruct x as [|a1 x], z as [|a2 z]; simpl; try done.
  destruct (ascii_dec a a1) as [<-|]; [|done]. destruct (ascii_dec a a2) as [<-|]; [|done].
  destruct y as [|b y]; [by destruct Hxy|]. unfold ord_le, cmp, string_ord in *. simpl in *.
  destruct (ascii_dec a b) as [<-|Hne].
  - change (Ascii.compare a a) with (cmp a a) in *. rewrite cmp_refl in Hxy, Hyz. by apply (IH x y z).
  - change (Ascii.compare a b) with (cmp a b) in Hxy. change (Ascii.compare b a) with (cmp b a) in Hyz.
    rewrite cmp_antisym in Hyz. destruct (cmp a b) eqn:E; simpl in *; [|done..].
    by apply cmp_eq_iff in E.
Qed.

Lemma common_prefix_between x y z prefix d c :
  ord_le x y -> ord_le y z ->
  common_prefix_for_key x prefix d = Some c -> common_prefix_for_key z prefix d = Some c ->
  common_prefix_for_key y prefix d = Some c.
Proof.
  intros Hxy Hyz Hx Hz. eapply common_prefix_stable; [exact Hx|].
  eapply starts_with_between; eauto using common_prefix_starts.
Qed.

(** ** What a listing shows *)

Section entries.
Context (prefix : string) (delimiter : option string).

Definition slot (row : ListingObject) : option string :=
  common_prefix_for_key (l_key row) prefix delimiter.

Definition entry_prefix (e : ListingEntry) : option string :=
  match e with EObject _ => None | ECommonPrefix p _ => Some p end.

Definition touch (c key : string) (e : ListingEntry) : ListingEntry :=
  if bool_decide (entry_prefix e = Some c) then ECommonPrefix c key else e.

(** A row either joins the entry of its common prefix or becomes an entry of its own. *)
Definition joins (entries : list ListingEntry) (row : ListingObject) : bool :=
  match slot row with
  | Some c => bool_decide (Some c ∈ map entry_prefix entries)
  | None => false
  end.

Definition new_entry (row : ListingObject) : ListingEntry :=
  match slot row with Some c => ECommonPrefix c (l_key row) | None => EObject row end.

Definition add_row (entries : list ListingEntry) (row : ListingObject) : list ListingEntry :=
  if joins entries row then map (touch (default EmptyString (slot row)) (l_key row)) entries
  else entries ++ [new_entry row].

(** The entries of a list of rows, without a limit. *)
Definition listed_entries (rows : list ListingObject) : list ListingEntry := fold_left add_row rows [].

Lemma touch_prefix c key e : entry_prefix (touch c key e) = entry_prefix e.
Proof. unfold touch. case_bool_decide as E; [by rewrite E|done]. Qed.

Lemma map_touch_prefix c key entries :
  map entry_prefix (map (touch c key) entries) = map entry_prefix entries.
Proof. rewrite map_map. apply map_ext. intros e. apply touch_prefix. Qed.

Lemma new_entry_prefix row : entry_prefix (new_entry row) = slot row.
Proof. unfold new_entry. by destruct (slot row). Qed.

Lemma add_row_prefixes entries row :
  map entry_prefix (add_row entries row) =
  map entry_prefix entries ++ (if joins entries row then [] else [slot row]).
Proof.
  unfold add_row. destruct (joins entries row).
  - by rewrite map_touch_prefix, app_nil_r.
  - by rewrite map_app, <- new_entry_prefix.
Qed.

Lemma elem_of_prefixes rows entries c :
  Some c ∈ map entry_prefix (fold_left add_row rows entries) <->
  Some c ∈ map entry_prefix entries \/ exists row, row ∈ rows /\ slot row = Some c.
Proof.
  revert entries. induction rows as [|r rows IH]; intros entries; simpl.
  - split; [auto|]. intros [?|(row & Hr & _)]; [done|by apply elem_of_nil in Hr].
  - rewrite IH, add_row_prefixes, elem_of_app. setoid_rewrite elem_of_cons.
    assert (Some c ∈ (if joins entries r then [] else [slot r]) ->
            slot r = Some c) as H1.
    { destruct (joins entries r); [by intros ?%elem_of_nil|]. by intros ?%list_elem_of_singleton. }
    assert (slot r = Some c -> Some c ∈ map entry_prefix entries \/
            Some c ∈ (if joins entries r then [] else [slot r])) as H2.
    { intros E. unfold joins. rewrite E. case_bool_decide; [by left|]. right. by apply list_elem_of_singleton. }
    split; [|intros [?|(row & [->|?] & ?)]]; [|tauto|destruct H2; auto|right; eauto].
    intros [[?|?]|(row & ? & ?)]; [auto|right; exists r; auto|right; eauto].
Qed.

Lemma touch_other c key entries :
  Some c ∉ map entry_prefix entries -> map (touch c key) entries = entries.
Proof.
  intros Hn. rewrite (map_ext_in _ id); [apply map_id|]. intros e He%list_elem_of_In. unfold touch.
  case_bool_decide as E; [|done]. destruct Hn. apply list_elem_of_fmap. eauto.
Qed.

Lemma add_row_app E1 E2 row :
  (forall c, slot row = Some c -> Some c ∉ map entry_prefix E1) ->
  add_row (E1 ++ E2) row = E1 ++ add_row E2 row.
Proof.
  intros Hn. unfold add_row.
  assert (joins (E1 ++ E2) row = joins E2 row) as ->.
  { unfold joins. destruct (slot row) as [c|] eqn:E; [|done]. apply bool_decide_ext.
    rewrite map_app, elem_of_app. specialize (Hn c eq_refl). tauto. }
  destruct (joins E2 row) eqn:J; [|by rewrite app_assoc]. rewrite map_app. f_equal.
  unfold joins in J. destruct (slot row) as [c|]; [|done]. by apply touch_other, Hn.
Qed.

(** Rows that share no common prefix with earlier rows are listed separately. *)
Lemma fold_add_row_app rows E1 E2 :
  (forall row c, row ∈ rows -> slot row = Some c -> Some c ∉ map entry_prefix E1) ->
  fold_left add_row rows (E1 ++ E2) = E1 ++ fold_left add_row rows E2.
Proof.
  revert E2. induction rows as [|r rows IH]; intros E2 Hn; simpl; [done|].
  rewrite add_row_app by (intros c; apply Hn; left). apply IH. intros row c Hr. apply Hn. by right.
Qed.

Lemma listed_entries_app l1 l2 :
  (forall r1 r2 c, r1 ∈ l1 -> r2 ∈ l2 -> slot r1 = Some c -> slot r2 <> Some c) ->
  listed_entries (l1 ++ l2) = listed_entries l1 ++ listed_entries l2.
Proof.
  intros Hd. unfold listed_entries. rewrite fold_left_app.
  rewrite <- (app_nil_r (fold_left add_row l1 [])) at 1. apply fold_add_row_app.
  intros row c Hr Es [Hin|(r1 & Hr1 & Es1)]%elem_of_prefixes; [by apply elem_of_nil in Hin|].
  by apply (Hd r1 row c).
Qed.
End entries.

(** ** The builder *)

(** The positions index exactly the common-prefix entries. *)
Definition indexes (positions : gmap string nat) (entries : list ListingEntry) : Prop :=
  forall c i, positions !! c = Some i <-> map entry_prefix entries !! i = Some (Some c).

Definition indexed (b : ListingPageBuilder) : Prop := indexes (lb_common_prefix_positions b) (lb_entries b).

Definition refuses (b : ListingPageBuilder) (row : ListingObject) : bool :=
  page_full b && negb (joins (lb_prefix b) (lb_delimiter b) (lb_entries b) row).

Lemma indexes_lookup positions entries c :
  indexes positions entries -> is_Some (positions !! c) <-> Some c ∈ map entry_prefix entries.
Proof.
  intros Hi. rewrite list_elem_of_lookup. split; intros [i Hl]; exists i; by apply Hi.
Qed.

Lemma indexes_snoc positions entries e :
  indexes positions entries ->
  (forall c, entry_prefix e = Some c -> Some c ∉ map entry_prefix entries) ->
  indexes (match entry_prefix e with Some c => <[c := length entries]> positions | None => positions end)
    (entries ++ [e]).
Proof.
  intros Hi Hn c i. rewrite map_app. cbn [map]. rewrite lookup_snoc_Some, length_map.
  assert (Hlt : positions !! c = Some i <-> (i < length entries)%nat /\ map entry_prefix entries !! i = Some (Some c)).
  { rewrite (Hi c i). split; [|tauto]. intros Hl. split; [|done]. apply lookup_lt_Some in Hl. by rewrite length_map in Hl. }
  rewrite <- Hlt. destruct (entry_prefix e) as [c'|]; [|naive_solver].
  destruct (decide (c = c')) as [->|Hne].
  - rewrite lookup_insert_eq. split; [intros [= <-]; auto|]. intros [Hl|[-> _]]; [|done].
    destruct (Hn c'); [done|]. apply (indexes_lookup _ _ _ Hi). eauto.
  - rewrite lookup_insert_ne by done. split; [auto|]. intros [?|[_ [= ?]]]; [done|congruence].
Qed.

Lemma touch_insert c key entries i p k :
  (forall j, map entry_prefix entries !! j = Some (Some c) -> j = i) ->
  entries !! i = Some (ECommonPrefix p k) -> p = c ->
  <[i := ECommonPrefix p key]> entries = map (touch c key) entries.
Proof.
  intros Hu Hi ->. apply list_eq. intros j. change (map (touch c key) entries) with (touch c key <$> entries).
  rewrite list_lookup_fmap. destruct (decide (j = i)) as [->|Hne].
  - rewrite list_lookup_insert_eq by (by eapply lookup_lt_Some). rewrite Hi. unfold touch. simpl.
    by rewrite bool_decide_true.
  - rewrite list_lookup_insert_ne by done. destruct (entries !! j) as [e|] eqn:Ej; [|done]. simpl. f_equal.
    unfold touch. case_bool_decide as E; [|done]. destruct Hne. apply Hu.
    change (map entry_prefix entries) with (entry_prefix <$> entries). by rewrite list_lookup_fmap, Ej, <- E.
Qed.

Lemma push_row_spec b row :
  indexed b ->
  if refuses b row then push_row b row = Some (truncated b, PageComplete)
  else exists positions,
    push_row b row = Some (consumed b (add_row (lb_prefix b) (lb_delimiter b) (lb_entries b) row) positions
                             (l_key row), Continue) /\
    indexes positions (add_row (lb_prefix b) (lb_delimiter b) (lb_entries b) row).
Proof.
  intros Hi. unfold indexed in Hi. unfold refuses, push_row, add_row, joins, new_entry, slot.
  destruct (common_prefix_for_key (l_key row) (lb_prefix b) (lb_delimiter b)) as [c|].
  - pose proof (indexes_lookup _ _ c Hi) as Hc.
    destruct (lb_common_prefix_positions b !! c) as [i|] eqn:Ei.
    + rewrite bool_decide_true by (apply Hc; eauto). rewrite andb_false_r.
      pose proof (proj1 (Hi c i) Ei) as Hl. change (map entry_prefix ?l) with (entry_prefix <$> l) in Hl.
      rewrite list_lookup_fmap in Hl. apply fmap_Some in Hl as (e & He & Ep). rewrite He. simpl.
      destruct e as [|p k]; [done|]. injection Ep as <-.
      rewrite (touch_insert c (l_key row) _ i c k); [|by intros j Hj%Hi; congruence|done..].
      eexists. split; [done|]. intros c' j. by rewrite map_touch_prefix.
    + rewrite bool_decide_false by (intros [? Hs]%Hc; done). rewrite andb_true_r.
      destruct (page_full b); [done|]. eexists. split; [done|].
      apply (indexes_snoc _ _ (ECommonPrefix c (l_key row)) Hi). intros c' [= <-] [? Hs]%Hc. done.
  - rewrite andb_true_r. destruct (page_full b); [done|]. eexists. split; [done|].
    by apply (indexes_snoc _ _ (EObject row) Hi).
Qed.

Definition last_key (start : option string) (rows : list ListingObject) : option string :=
  fold_left (fun _ row => Some (l_key row)) rows start.

Lemma last_key_snoc start rows row : last_key start (rows ++ [row]) = Some (l_key row).
Proof. unfold last_key. by rewrite fold_left_app. Qed.

Lemma add_row_length p d entries row :
  length (add_row p d entries row) = (length entries + if joins p d entries row then 0 else 1)%nat.
Proof.
  unfold add_row. destruct (joins p d entries row); [rewrite length_map|rewrite length_app]; simpl; lia.
Qed.

(** What pushing rows leaves: the rows [l1] that were taken, the rows [l2] that were not. *)
Record Pushed (b : ListingPageBuilder) (l1 l2 : list ListingObject) (b' : ListingPageBuilder) : Prop := {
  pushed_indexed : indexed b';
  pushed_fields : lb_prefix b' = lb_prefix b /\ lb_delimiter b' = lb_delimiter b /\ lb_max_keys b' = lb_max_keys b;
  pushed_entries : lb_entries b' = fold_left (add_row (lb_prefix b) (lb_delimiter b)) l1 (lb_entries b);
  pushed_last : lb_last_consumed_key b' = last_key (lb_last_consumed_key b) l1;
  pushed_bound : Z.of_nat (length (lb_entries b)) <= lb_max_keys b ->
    Z.of_nat (length (lb_entries b')) <= lb_max_keys b;
  pushed_truncated : lb_is_truncated b' = match l2 with [] => lb_is_truncated b | _ => true end;
  pushed_refused r l : l2 = r :: l ->
    lb_max_keys b <= Z.of_nat (length (lb_entries b')) /\
    joins (lb_prefix b) (lb_delimiter b) (lb_entries b') r = false
}.

Lemma push_rows_spec b cursor rows :
  indexed b ->
  exists l1 l2 b', rows = l1 ++ l2 /\ Pushed b l1 l2 b' /\
    push_rows b cursor rows =
      Some (b', match l2 with [] => Continue | _ => PageComplete end, last_key cursor l1).
Proof.
  revert b cursor. induction rows as [|r rows IH]; intros b cursor Hi.
  { exists [], [], b. split; [done|]. split; [by constructor|done]. }
  cbn [push_rows]. pose proof (push_row_spec b r Hi) as Hr. destruct (refuses b r) eqn:E.
  - exists [], (r :: rows), (truncated b). rewrite Hr. split; [done|]. split; [|done].
    apply andb_true_iff in E as [Hfull%Z.leb_le Hj%negb_true_iff]. constructor; try done.
    by intros r' l [= <- _].
  - destruct Hr as (positions & -> & Hpos). cbn [mbind option_bind].
    set (b1 := consumed _ _ _ _). destruct (IH b1 (Some (l_key r)) Hpos) as (l1 & l2 & b' & -> & P & Hrun).
    exists (r :: l1), l2, b'. split; [done|]. split; [|exact Hrun]. destruct P as [P1 P2 P3 P4 P5 P6 P7].
    constructor; try done. intros Hle. apply P5. simpl. rewrite add_row_length.
    destruct (joins _ _ _ r) eqn:J; [lia|]. unfold refuses in E. rewrite J, andb_true_r in E.
    apply Z.leb_gt in E. lia.
Qed.

Lemma push_rows_app b cursor l1 l2 :
  push_rows b cursor (l1 ++ l2) =
  match push_rows b cursor l1 with
  | Some (b', Continue, cursor') => push_rows b' cursor' l2
  | other => other
  end.
Proof.
  revert b cursor. induction l1 as [|r l1 IH]; intros b cursor; simpl; [done|].
  destruct (push_row b r) as [[b' []]|]; simpl; [apply IH|done..].
Qed.

Lemma push_rows_cursor b cursor rows b' cursor' :
  push_rows b cursor rows = Some (b', Continue, cursor') -> cursor' = last_key cursor rows.
Proof.
  revert b cursor. induction rows as [|r rows IH]; intros b cursor; simpl; [by intros [= _ <-]|].
  destruct (push_row b r) as [[b1 []]|]; simpl; [apply IH|done..].
Qed.

(** ** Paging *)

Section paging.
Context (db : Db) (Hc : constraints db) (Hkeys : forall o, o ∈ objects db -> nonempty (o_key o)).
Context (bucket : string) (prefix_filter : option string).

(** All current objects of the bucket after a cursor, by key. *)
Definition all_rows (cursor : option string) : list ListingObject :=
  listing_object <$> sort_by (by_key o_key) (filter (listed bucket prefix_filter cursor) (objects db)).

Definition after (cursor : option string) (key : string) : bool :=
  is_none_or (fun token => str_is_empty token || lt_b token key) cursor.

Lemma fmap_filter_key (P : string -> bool) (l : list ObjectRow) :
  listing_object <$> filter (fun o => P (o_key o) = true) l =
  filter (fun r => P (l_key r) = true) (listing_object <$> l).
Proof.
  induction l as [|o l IH]; [done|]. rewrite filter_cons, fmap_cons, filter_cons.
  change (l_key (listing_object o)) with (o_key o).
  case_decide; [rewrite fmap_cons; f_equal|]; apply IH.
Qed.

Lemma all_rows_after cursor :
  all_rows cursor = filter (fun r => after cursor (l_key r) = true) (all_rows None).
Proof.
  unfold all_rows. rewrite <- fmap_filter_key. f_equal. rewrite <- sort_by_filter, list_filter_filter.
  f_equal. apply list_filter_iff. intros o. unfold listed, after. simpl. tauto.
Qed.

Lemma all_rows_sorted cursor : StronglySorted (fun x y => cmp (l_key x) (l_key y) = Lt) (all_rows cursor).
Proof.
  unfold all_rows. set (l := filter _ _).
  assert (Hn : NoDup (o_key <$> sort_by (by_key o_key) l)).
  { rewrite sort_by_perm. subst l. destruct Hc as (_ & (_ & Hl & _) & _). revert Hl. unfold unique.
    generalize (objects db). intros os. induction os as [|o os IH]; [constructor|]. csimpl. intros Hl.
    assert (Hos : NoDup (omap o_latest_index os)).
    { destruct (o_latest_index o); [by apply NoDup_cons in Hl as [_ ?]|done]. }
    rewrite filter_cons. case_decide as Hd; [|auto]. rewrite fmap_cons. constructor; [|auto].
    destruct Hd as (Eb & El & _). unfold o_latest_index in Hl at 1. rewrite El in Hl.
    apply NoDup_cons in Hl as [Hnot _]. intros (o' & Ek & [(Eb' & El' & _) Ho']%list_elem_of_filter)%list_elem_of_fmap.
    apply Hnot, list_elem_of_omap. exists o'. split; [done|]. unfold o_latest_index. rewrite El'. congruence. }
  pose proof (sort_by_sorted o_key l) as Hs. revert Hn Hs. generalize (sort_by (by_key o_key) l) as rows.
  induction rows as [|o rows IH]; intros Hn Hs; [constructor|]. rewrite fmap_cons in *.
  apply NoDup_cons in Hn as [Ho Hn]. inversion Hs as [|? ? Hs' Hf]; subst. constructor; [auto|].
  apply Forall_fmap, Forall_forall. intros o' Ho'. rewrite Forall_forall in Hf. simpl.
  pose proof (proj1 (ord_le_lt_eq _ _) (Hf o' Ho')) as [?|E]; [done|]. destruct Ho.
  apply list_elem_of_fmap. eauto.
Qed.

Lemma all_rows_key cursor r : r ∈ all_rows cursor -> nonempty (l_key r) /\ after cursor (l_key r) = true.
Proof.
  unfold all_rows. rewrite list_elem_of_fmap. intros (o & -> & Ho). apply elem_of_sort_by, list_elem_of_filter in Ho.
  destruct Ho as [(_ & _ & _ & ?) Ho]. split; [by apply Hkeys|done].
Qed.

Lemma all_rows_resume cursor l1 l2 :
  all_rows cursor = l1 ++ l2 -> all_rows (last_key cursor l1) = l2.
Proof.
  destruct l1 as [|r l1 _] using rev_ind; intros E; [done|]. rewrite last_key_snoc.
  assert (Hr : r ∈ all_rows cursor) by (rewrite E; apply elem_of_app; left; apply elem_of_app; right; left).
  pose proof (all_rows_key cursor r Hr) as [Hne Hafter].
  assert (Hlt : forall x, after (Some (l_key r)) x = true <-> cmp (l_key r) x = Lt).
  { intros x. unfold after. simpl. destruct (l_key r) as [|a k]; [done|]. simpl.
    unfold lt_b. by destruct (cmp (String a k) x). }
  assert (all_rows (Some (l_key r)) =
    filter (fun x => after (Some (l_key r)) (l_key x) = true) (all_rows cursor)) as ->.
  { rewrite (all_rows_after cursor), list_filter_filter, all_rows_after. apply list_filter_iff. intros x.
    split; [|tauto]. intros Hx. split; [done|]. apply Hlt in Hx. revert Hafter. unfold after, is_none_or.
    destruct cursor as [token|]; [|done]. destruct (str_is_empty token); [done|]. simpl. rewrite !lt_b_true.
    intros Ht. by eapply cmp_trans. }
  pose proof (all_rows_sorted cursor) as Hs. rewrite E in *. apply filter_suffix.
  - intros x Hx Hx'%Hlt. rewrite elem_of_app, list_elem_of_singleton in Hx. destruct Hx as [Hx| ->].
    + rewrite <- app_assoc in Hs.
      pose proof (StronglySorted_app_1_elem_of _ _ _ x r Hs Hx ltac:(left)) as Hxr. simpl in Hxr.
      rewrite cmp_antisym, Hxr in Hx'. done.
    + by rewrite cmp_refl in Hx'.
  - intros x Hx. apply Hlt. eapply (StronglySorted_app_1_elem_of _ _ _ r x Hs); [|done].
    apply elem_of_app. right. left.
Qed.

(** The batches of the loop feed the builder every row after the cursor, in order. *)
Lemma paging_loop_spec fuel batch_limit cursor b :
  (length (all_rows cursor) < fuel)%nat -> 1 <= batch_limit ->
  paging_loop fuel bucket prefix_filter batch_limit cursor b db =
  let? '(b, _, _) := ok_or Panicked (push_rows b cursor (all_rows cursor)) in Ok b.
Proof.
  revert cursor b. induction fuel as [|fuel IH]; intros cursor b Hf Hb; [lia|]. cbn [paging_loop].
  change (object_list bucket prefix_filter cursor batch_limit db) with
    (take (Z.to_nat batch_limit) (all_rows cursor)).
  set (n := Z.to_nat batch_limit). set (A := all_rows cursor) in *.
  destruct (Z.ltb_spec (Z.of_nat (length (take n A))) batch_limit) as [Hlt|Hge]; rewrite length_take in *.
  - rewrite take_ge by (subst n; lia). by destruct (push_rows b cursor A) as [[[b' []] c']|].
  - rewrite <- (take_drop n A) at 2. rewrite push_rows_app.
    destruct (push_rows b cursor (take n A)) as [[[b' []] c']|] eqn:Ep; simpl; [|done..].
    apply push_rows_cursor in Ep as ->.
    assert (all_rows (last_key cursor (take n A)) = drop n A) as Hres
      by (apply all_rows_resume; by rewrite take_drop).
    rewrite IH; [by rewrite Hres| |done]. rewrite Hres, length_drop. subst n. lia.
Qed.
End paging.

(** ** Pages *)

(** The page of a list of rows, built in one pass: the specification of the batched loop *)
Definition fold_listing_rows (rows : list ListingObject) (prefix : string) (delimiter : option string)
    (max_keys : Z) : option ListingPage :=
  '(b, _, _) ← push_rows (builder_new prefix delimiter max_keys) None rows;
  Some (finish b).

Definition request_rows (db : Db) (request : ListingRequest) : list ListingObject :=
  all_rows db (lr_bucket request)
    (if str_is_empty (lr_prefix request) then None else Some (lr_prefix request))
    (nonempty_filter (lr_cursor request)).

Definition request_entries (request : ListingRequest) (rows : list ListingObject) : list ListingEntry :=
  listed_entries (lr_prefix request) (nonempty_filter (lr_delimiter request)) rows.

Lemma push_rows_any_cursor b c1 c2 rows :
  (push_rows b c1 rows ≫= fun '(b, _, _) => Some b) = (push_rows b c2 rows ≫= fun '(b, _, _) => Some b).
Proof.
  revert b c1 c2. induction rows as [|r rows IH]; intros b c1 c2; simpl; [done|].
  destruct (push_row b r) as [[b' []]|]; simpl; [apply IH|done..].
Qed.

Lemma new_indexed p d m : indexed (builder_new p d m).
Proof. intros c i. simpl. rewrite lookup_empty. by destruct i. Qed.

Lemma fold_listing_rows_spec rows p d m :
  0 <= m ->
  exists page l1 l2, fold_listing_rows rows p d m = Some page /\ rows = l1 ++ l2 /\
    lp_entries page = listed_entries p d l1 /\ Z.of_nat (length (lp_entries page)) <= m /\
    lp_is_truncated page = negb (bool_decide (l2 = [])) /\
    lp_next_cursor page = (if bool_decide (l2 = []) then None else last_key None l1) /\
    forall r l, l2 = r :: l -> m <= Z.of_nat (length (lp_entries page)) /\ joins p d (lp_entries page) r = false.
Proof.
  intros Hm. unfold fold_listing_rows.
  destruct (push_rows_spec (builder_new p d m) None rows (new_indexed p d m)) as (l1 & l2 & b & -> & P & ->).
  destruct P as [_ _ P3 P4 P5 P6 P7]. exists (finish b), l1, l2. simpl. rewrite P3, P4, P6 in *. simpl in *.
  split_and!; try done; [by apply P5|destruct l2; [by rewrite bool_decide_true|by rewrite bool_decide_false]..].
Qed.

Lemma build_listing_page_fold fuel request db :
  constraints db -> (forall o, o ∈ objects db -> nonempty (o_key o)) ->
  bucket_exists (lr_bucket request) db = true -> 0 <= lr_max_keys request ->
  (length (request_rows db request) < fuel)%nat ->
  build_listing_page fuel request db =
  ok_or Panicked (fold_listing_rows (request_rows db request) (lr_prefix request)
                    (nonempty_filter (lr_delimiter request)) (lr_max_keys request)).
Proof.
  intros Hc Hk Hb Hm Hf. unfold build_listing_page. rewrite Hb. cbn [negb].
  rewrite paging_loop_spec; [|done..|destruct (is_some _); lia].
  fold (request_rows db request). unfold fold_listing_rows.
  pose proof (push_rows_any_cursor (builder_new (lr_prefix request) (nonempty_filter (lr_delimiter request))
    (lr_max_keys request)) (nonempty_filter (lr_cursor request)) None (request_rows db request)) as E.
  destruct (push_rows _ (nonempty_filter (lr_cursor request)) _) as [[[b r] c]|],
    (push_rows _ None _) as [[[b' r'] c']|]; simpl in *; congruence.
Qed.

Definition with_cursor (request : ListingRequest) (cursor : option string) : ListingRequest :=
  {| lr_bucket := lr_bucket request; lr_prefix := lr_prefix request; lr_delimiter := lr_delimiter request;
     lr_cursor := cursor; lr_max_keys := lr_max_keys request |}.

(** A client that follows the cursors of truncated pages. *)
Fixpoint list_all (pages fuel : nat) (request : ListingRequest) (db : Db)
  : result ListingFault (list ListingEntry) :=
  match pages with
  | O => Err OutOfFuel
  | S pages =>
    let? page := build_listing_page fuel request db in
    if lp_is_truncated page then
      let? rest := list_all pages fuel (with_cursor request (lp_next_cursor page)) db in
      Ok (lp_entries page ++ rest)
    else Ok (lp_entries page)
  end.

(** Once a row opens a new entry, no later row belongs to an earlier common prefix. *)
Lemma sorted_slots_disjoint p d l1 r l2 :
  StronglySorted (fun x y => cmp (l_key x) (l_key y) = Lt) (l1 ++ r :: l2) ->
  joins p d (listed_entries p d l1) r = false ->
  listed_entries p d (l1 ++ r :: l2) = listed_entries p d l1 ++ listed_entries p d (r :: l2).
Proof.
  intros Hs Hj. apply listed_entries_app. intros r1 r2 c Hr1 Hr2 E1 E2.
  assert (Hlt : cmp (l_key r1) (l_key r) = Lt)
    by (apply (StronglySorted_app_1_elem_of _ _ _ r1 r Hs Hr1); left).
  assert (Hle : ord_le (l_key r) (l_key r2)).
  { apply elem_of_cons in Hr2 as [->|Hr2]; [apply ord_le_refl|]. apply ord_le_lt_eq. left.
    apply StronglySorted_app in Hs as (_ & _ & Hs). apply StronglySorted_cons in Hs as [Hf _].
    rewrite Forall_forall in Hf. by apply Hf. }
  assert (Hr : slot p d r = Some c).
  { apply (common_prefix_between (l_key r1) _ (l_key r2)); [|done..]. unfold ord_le. by rewrite Hlt. }
  unfold joins in Hj. rewrite Hr in Hj. apply bool_decide_eq_false in Hj. apply Hj, elem_of_prefixes. eauto.
Qed.

(** Where the next page starts: at the first row this page did not take. *)
Lemma next_page_rows db request l1 r l2 :
  constraints db -> (forall o, o ∈ objects db -> nonempty (o_key o)) ->
  request_rows db request = l1 ++ r :: l2 -> l1 <> [] ->
  request_rows db (with_cursor request (last_key None l1)) = r :: l2.
Proof.
  intros Hc Hk E Hne. destruct l1 as [|x l1 _] using rev_ind; [done|].
  unfold request_rows in *. cbn [with_cursor lr_bucket lr_prefix lr_cursor]. rewrite last_key_snoc.
  assert (nonempty_filter (Some (l_key x)) = Some (l_key x)) as ->.
  { assert (Hx : nonempty (l_key x)).
    { eapply all_rows_key; [exact Hk|]. rewrite E. apply elem_of_app. left. apply elem_of_app. right. left. }
    simpl. by destruct (l_key x). }
  rewrite <- (last_key_snoc (nonempty_filter (lr_cursor request)) l1 x). by apply all_rows_resume.
Qed.

(** a page of a bucket listing is what one pass over all current objects after the cursor
    gives, whatever the batch size of its queries: it never panics and the loop ends; it holds at
    most [max_keys] entries, in key order, each common prefix once; when it is not truncated it
    shows every row, and when it is, the cursor is the last row it shows. *)
Theorem build_listing_page_spec fuel request db :
  constraints db -> (forall o, o ∈ objects db -> nonempty (o_key o)) ->
  bucket_exists (lr_bucket request) db = true -> 1 <= lr_max_keys request ->
  (length (request_rows db request) < fuel)%nat ->
  exists page shown rest,
    build_listing_page fuel request db = Ok page /\
    request_rows db request = shown ++ rest /\
    lp_entries page = request_entries request shown /\
    Z.of_nat (length (lp_entries page)) <= lr_max_keys request /\
    lp_is_truncated page = negb (bool_decide (rest = [])) /\
    lp_next_cursor page = (if bool_decide (rest = []) then None else l_key <$> last shown).
Proof.
  intros Hc Hk Hb Hm Hf. rewrite build_listing_page_fold by (done || lia).
  destruct (fold_listing_rows_spec (request_rows db request) (lr_prefix request)
    (nonempty_filter (lr_delimiter request)) (lr_max_keys request)) as (page & l1 & l2 & -> & E & Ee & Hle & Ht & Hn & _);
    [lia|].
  exists page, l1, l2. split_and!; try done. rewrite Hn. case_bool_decide; [done|].
  destruct l1 as [|x l1 _] using rev_ind; [done|]. by rewrite last_key_snoc, last_snoc.
Qed.

(** C23: paging is complete: a client that follows the cursors of truncated pages receives, in
    finitely many pages, exactly the entries of the whole listing, none twice and none skipped, for
    every page size and every delimiter. *)
Theorem list_all_complete pages fuel request db :
  constraints db -> (forall o, o ∈ objects db -> nonempty (o_key o)) ->
  bucket_exists (lr_bucket request) db = true -> 1 <= lr_max_keys request ->
  (length (request_rows db request) < fuel)%nat -> (length (request_rows db request) < pages)%nat ->
  list_all pages fuel request db = Ok (request_entries request (request_rows db request)).
Proof.
  intros Hc Hk. revert request. induction pages as [|pages IH]; intros request Hb Hm Hf Hp; [lia|].
  cbn [list_all]. rewrite build_listing_page_fold by (done || lia).
  destruct (fold_listing_rows_spec (request_rows db request) (lr_prefix request)
    (nonempty_filter (lr_delimiter request)) (lr_max_keys request))
    as (page & l1 & l2 & -> & E & Ee & _ & Ht & Hn & Hr); [lia|].
  simpl. rewrite Ht, Hn, Ee. destruct l2 as [|r l2].
  { rewrite bool_decide_true by done. by rewrite E, app_nil_r. }
  rewrite bool_decide_false by done. cbn [negb]. destruct (Hr r l2 eq_refl) as [Hfull Hj].
  assert (l1 <> []) as Hne.
  { intros ->. rewrite Ee in Hfull. simpl in Hfull. lia. }
  pose proof (next_page_rows db request l1 r l2 Hc Hk E Hne) as Hnext.
  rewrite E, length_app in Hf, Hp. destruct l1 as [|x l1]; [done|]. simpl in Hf, Hp.
  rewrite IH; [|done|done|rewrite Hnext; simpl; lia..]. cbn [rbind]. f_equal. rewrite Hnext, E. symmetry.
  rewrite Ee in Hj. apply sorted_slots_disjoint; [|done]. rewrite <- E. by apply all_rows_sorted.
Qed.

(** ** Responses *)

Section response_lemmas.
Context {Cid : Type} `{EqDecision Cid}.
Context (parse_receipt : string -> option (string * string)) (parse_cid : string -> option Cid).

(** The entries split into contents and common prefixes, in order. *)
Lemma push_dtos_ok classes url_encode entries contents prefixes :
  (forall row, EObject row ∈ entries -> is_Some (classes !! l_id row)) ->
  exists dtos,
    try_fold (push_dto classes url_encode) (contents, prefixes) entries =
      Ok (contents ++ dtos, prefixes ++ ((fun p => project_listing_field p url_encode) <$> omap entry_prefix entries)) /\
    dto_key <$> dtos = (fun row => project_listing_field (l_key row) url_encode) <$> omap entry_object entries.
Proof.
  revert contents prefixes. induction entries as [|[row|p k] entries IH]; intros contents prefixes Hcl.
  - exists []. split; [|done]. simpl. by rewrite !app_nil_r.
  - destruct (Hcl row) as [class Hclass]; [left|]. cbn [try_fold push_dto]. rewrite Hclass. cbn [ok_or rbind].
    destruct (IH (contents ++ [content_dto row class url_encode]) prefixes) as (dtos & -> & Hd); [intros; apply Hcl; by right|].
    exists (content_dto row class url_encode :: dtos). rewrite <- app_assoc. split; [done|]. csimpl. by rewrite Hd.
  - cbn [try_fold push_dto rbind].
    destruct (IH contents (prefixes ++ [project_listing_field p url_encode])) as (dtos & -> & Hd); [intros; apply Hcl; by right|].
    exists dtos. rewrite <- app_assoc. done.
Qed.

Lemma entries_split (entries : list ListingEntry) :
  length entries = (length (omap entry_object entries) + length (omap entry_prefix entries))%nat.
Proof. induction entries as [|[] entries IH]; csimpl; lia. Qed.

Lemma listing_dtos_ok entries url_encode db :
  match listing_dtos parse_receipt parse_cid entries url_encode db with
  | Ok (contents, prefixes) =>
    dto_key <$> contents = (fun row => project_listing_field (l_key row) url_encode) <$> omap entry_object entries /\
    prefixes = (fun p => project_listing_field p url_encode) <$> omap entry_prefix entries
  | Err f => exists e, f = Failed e /\
      classes_in_snapshot parse_receipt parse_cid (map listing_identity (omap entry_object entries)) db = Err e
  end.
Proof.
  unfold listing_dtos. destruct (classes_in_snapshot _ _ _ _) as [classes|e] eqn:E; [|simpl; eauto].
  pose proof (classes_in_snapshot_dom _ _ _ _ _ E) as Hdom. simpl.
  destruct (push_dtos_ok classes url_encode entries [] []) as (dtos & -> & Hd); [|done].
  intros row Hrow. apply Hdom. exists (listing_identity row). split; [|done]. apply list_elem_of_fmap_2.
  apply list_elem_of_omap. eauto.
Qed.

Definition v2_request (input : ListObjectsV2Input) : ListingRequest :=
  {| lr_bucket := in_bucket input; lr_prefix := default EmptyString (in_prefix input);
     lr_delimiter := in_delimiter input; lr_cursor := v2_cursor input;
     lr_max_keys := normalized_max_keys (in_max_keys input) |}.

Lemma normalized_max_keys_range value : 1 <= normalized_max_keys value <= 1000.
Proof. unfold normalized_max_keys. lia. Qed.

(** a ListObjectsV2 request never panics and always ends.  Its response shows the first
    rows after the continuation token (or, without one, after start-after): the keys of [contents]
    and the common prefixes are those of the entries of these rows, [key_count] counts both and is
    at most [max_keys], which is clamped to 1..1000; the response is truncated exactly when rows are
    left, and then carries a token.  The only failure is that of the storage class lookup. *)
Theorem list_objects_v2_response fuel input db :
  constraints db -> (forall o, o ∈ objects db -> nonempty (o_key o)) ->
  bucket_exists (in_bucket input) db = true ->
  (length (request_rows db (v2_request input)) < fuel)%nat ->
  match list_objects_v2 parse_receipt parse_cid fuel input db with
  | Ok out => exists shown rest, request_rows db (v2_request input) = shown ++ rest /\
      let entries := request_entries (v2_request input) shown in
      dto_key <$> out_contents out =
        (fun row => project_listing_field (l_key row) (in_url_encoding input)) <$> omap entry_object entries /\
      default [] (out_common_prefixes out) =
        (fun p => project_listing_field p (in_url_encoding input)) <$> omap entry_prefix entries /\
      out_key_count out = Z.of_nat (length (out_contents out) + length (default [] (out_common_prefixes out))) /\
      0 <= out_key_count out <= out_max_keys out /\ 1 <= out_max_keys out <= 1000 /\
      (out_is_truncated out = true <-> rest <> []) /\
      (out_is_truncated out = true <-> is_Some (out_next_continuation_token out))
  | Err f => exists e objs, f = Failed e /\ classes_in_snapshot parse_receipt parse_cid objs db = Err e
  end.
Proof.
  intros Hc Hk Hb Hf. unfold list_objects_v2. fold (v2_request input).
  pose proof (normalized_max_keys_range (in_max_keys input)) as Hm.
  unfold listing_page_in_snapshot. rewrite build_listing_page_fold by (done || simpl; lia).
  destruct (fold_listing_rows_spec (request_rows db (v2_request input)) (lr_prefix (v2_request input))
    (nonempty_filter (lr_delimiter (v2_request input))) (lr_max_keys (v2_request input)))
    as (page & l1 & l2 & -> & E & Ee & Hle & Ht & Hn & Hr); [simpl; lia|]. cbn [ok_or rbind].
  pose proof (listing_dtos_ok (lp_entries page) (in_url_encoding input) db) as Hd.
  destruct (listing_dtos _ _ _ _ _) as [[contents prefixes]|f]; [|destruct Hd as (e & -> & ?); cbn [rbind]; eauto].
  destruct Hd as [Hcont Hpref]. cbn [rbind]. exists l1, l2. split; [done|].
  cbn [out_contents out_common_prefixes out_key_count out_max_keys out_is_truncated out_next_continuation_token].
  fold (request_entries (v2_request input) l1) in Ee. rewrite <- Ee.
  assert (Hdef : default [] match prefixes with [] => None | _ => Some prefixes end = prefixes) by (by destruct prefixes).
  rewrite Hdef. split; [done|]. split; [done|].
  assert (Hlen : length (lp_entries page) = (length contents + length prefixes)%nat).
  { rewrite entries_split, Hpref, length_fmap, <- (length_fmap dto_key contents), Hcont, length_fmap. done. }
  simpl in Hle. unfold as_i32. rewrite Hlen in *. rewrite !Z.mod_small by lia.
  split; [lia|]. split; [lia|]. split; [lia|]. rewrite Ht, Hn. case_bool_decide as El; subst.
  - split; [done|]. split; [done|by intros [? ?]].
  - split; [done|]. split; [|done]. intros _. destruct l2 as [|r l2]; [done|].
    destruct (Hr r l2 eq_refl) as [Hfull _]. simpl in Hfull. destruct l1 as [|x l1 _] using rev_ind.
    + rewrite <- Hlen, Ee in Hfull. unfold request_entries, listed_entries in Hfull. simpl in Hfull. lia.
    + rewrite last_key_snoc. eauto.
Qed.
End response_lemmas.
End listing.

(** ** URL encoding *)

Definition hex_value (c : ascii) : option N :=
  let n := N_of_ascii c in
  if ((48 <=? n) && (n <=? 57))%N then Some (n - 48)%N
  else if ((65 <=? n) && (n <=? 70))%N then Some (n - 55)%N
  else None.

(** The percent-decoding of RFC 3986. *)
Fixpoint percent_decode (s : string) : option string :=
  match s with
  | EmptyString => Some EmptyString
  | String "%" (String h (String l rest)) =>
    high ← hex_value h; low ← hex_value l; rest ← percent_decode rest;
    Some (String (ascii_of_N (16 * high + low)) rest)
  | String "%" _ => None
  | String c rest => String c <$> percent_decode rest
  end.

Lemma percent_decode_char c rest :
  percent_decode (rfc3986_url_encode (String c EmptyString) +:+ rest) = String c <$> percent_decode rest.
Proof. destruct c as [[] [] [] [] [] [] [] []]; simpl; by destruct (percent_decode rest). Qed.

Definition url_safe (s : string) : bool := string_forallb (fun c => unreserved c || Ascii.eqb c "%"%char) s.

Lemma url_safe_char c : url_safe (rfc3986_url_encode (String c EmptyString)) = true.
Proof. by destruct c as [[] [] [] [] [] [] [] []]. Qed.

Lemma url_safe_app s t : url_safe (s +:+ t) = url_safe s && url_safe t.
Proof. unfold url_safe. induction s as [|c s IH]; [done|]. cbn [String.append string_forallb]. by rewrite IH, andb_assoc. Qed.

Lemma url_encode_cons c value :
  rfc3986_url_encode (String c value) = rfc3986_url_encode (String c EmptyString) +:+ rfc3986_url_encode value.
Proof. simpl. by destruct (unreserved c). Qed.

(** an encoded listing field decodes to the field, so no two keys are shown alike, and it
    consists of unreserved characters and percent signs only. *)
Theorem url_encode_roundtrip value :
  percent_decode (project_listing_field value true) = Some value /\
  url_safe (project_listing_field value true) = true.
Proof.
  unfold project_listing_field. induction value as [|c value [IH1 IH2]]; [done|]. rewrite url_encode_cons. split.
  - by rewrite percent_decode_char, IH1.
  - by rewrite url_safe_app, url_safe_char, IH2.
Qed.

(** ** Wildcards in a prefix *)

(** with the documented meaning of [_] in a LIKE pattern, a listing with the prefix [a_] returns
    the key [ab], which does not start with that prefix. *)
Theorem object_list_prefix_wildcard (key_like : string -> string -> bool) db bucket o :
  (forall p c s, key_like (p +:+ "_") (p +:+ String c s) = true) ->
  objects db = [o] -> o_bucket o = bucket -> o_is_latest o = true -> o_key o = "ab"%string ->
  object_list key_like bucket (Some "a_"%string) None 10 db = [listing_object o] /\
  starts_with "a_" (l_key (listing_object o)) = false.
Proof.
  intros Hlike Ho Hb Hl Hk. split; [|simpl; by rewrite Hk].
  unfold object_list. rewrite Ho, filter_cons_True; [done|]. unfold listed. simpl. rewrite Hk.
  split_and!; [done|done| |done]. apply (Hlike "a" "b"%char EmptyString).
Qed.
