(* ===== verification/Transaction.v ===== *)
(** * Transactions over a store of tables

    A transaction threads the store through its statements and stops at the first error, which
    rolls everything back.  A statement that would violate a constraint of the schema fails.  The
    loops that read a table in pages of bounded size, following the largest key seen, are compared
    here with one pass over all the rows. *)

From Stdlib Require Import ZArith Lia.
From stdpp Require Import base list strings sorting gmap.
From S2P Require Import Prelude Errors Database.

#[local] Open Scope Z_scope.

Definition Txn (S A : Type) : Type := S -> AppResult (A * S).

Section transactions.
Context {S : Type}.

Definition t_ret {A} (a : A) : Txn S A := fun s => Ok (a, s).
Definition t_err {A} (e : AppError) : Txn S A := fun _ => Err e.
Definition t_bind {A B} (c : Txn S A) (k : A -> Txn S B) : Txn S B :=
  fun s => let? '(a, s') := c s in k a s'.
Definition t_lift {A} (r : AppResult A) : Txn S A := fun s => let? a := r in Ok (a, s).
Definition t_reads {A} (f : S -> A) : Txn S A := fun s => Ok (f s, s).
(** [opt.ok_or_else(e)?] *)
Definition t_some {A} (e : AppError) (o : option A) : Txn S A := t_lift (ok_or e o).
(** A writing statement, under the constraints of the schema. *)
Definition t_exec (constraints : S -> Prop) `{forall s, Decision (constraints s)} (f : S -> S) : Txn S unit :=
  fun s => if decide (constraints (f s)) then Ok (tt, f s) else Err constraint_failed.
(** [for x in l { f(x)?; }] *)
Fixpoint t_each {A} (f : A -> Txn S unit) (l : list A) : Txn S unit :=
  match l with
  | [] => t_ret tt
  | x :: l => t_bind (f x) (fun _ => t_each f l)
  end.
(** [for x in l { out.push(f(x)?); }] *)
Fixpoint t_map {A B} (f : A -> Txn S B) (l : list A) : Txn S (list B) :=
  match l with
  | [] => t_ret []
  | x :: l => t_bind (f x) (fun y => t_bind (t_map f l) (fun ys => t_ret (y :: ys)))
  end.
End transactions.

Notation "'let*' x ':=' c 'in' k" := (t_bind c (fun x => k))
  (at level 10, x name, c at level 100, k at level 200,
   format "'[v' 'let*'  x  ':='  c  'in' '/' k ']'") : rust_scope.
Notation "'let*' ' x ':=' c 'in' k" := (t_bind c (fun x => k))
  (at level 10, x strict pattern, c at level 100, k at level 200) : rust_scope.
Notation "'stop_if' b 'with' e 'else' k" := (if b then t_err e else k)
  (at level 10, b at level 100, e at level 100, k at level 200,
   format "'[v' 'stop_if'  b  'with'  e  'else' '/' k ']'") : rust_scope.

(** [Duration::seconds], in microseconds *)
Definition seconds (n : Z) : Z := n * 1000000.

(** ** Successful runs *)

Section success.
Context {S : Type}.

Lemma t_bind_ok {A B} (c : Txn S A) (k : A -> Txn S B) s b s' :
  t_bind c k s = Ok (b, s') <-> exists a s1, c s = Ok (a, s1) /\ k a s1 = Ok (b, s').
Proof. unfold t_bind. rewrite rbind_ok. split; [intros ([] & ?)|intros (? & ? & ?)]; naive_solver. Qed.

Lemma t_lift_ok {A} (r : AppResult A) (s : S) a s' : t_lift r s = Ok (a, s') <-> r = Ok a /\ s' = s.
Proof. unfold t_lift. destruct r; simpl; naive_solver. Qed.

Lemma t_some_ok {A} e (o : option A) (s : S) a s' : t_some e o s = Ok (a, s') <-> o = Some a /\ s' = s.
Proof. unfold t_some. by rewrite t_lift_ok, ok_or_ok. Qed.

Lemma t_exec_ok (constraints : S -> Prop) `{forall s, Decision (constraints s)} f s u s' :
  t_exec constraints f s = Ok (u, s') <-> s' = f s /\ constraints s'.
Proof. unfold t_exec. destruct (decide _); [destruct u|]; naive_solver. Qed.

Lemma t_reads_ok {A} (f : S -> A) s a s' : t_reads f s = Ok (a, s') <-> a = f s /\ s' = s.
Proof. unfold t_reads. naive_solver. Qed.

Lemma t_ret_ok {A} (a : A) (s : S) b s' : t_ret a s = Ok (b, s') <-> b = a /\ s' = s.
Proof. unfold t_ret. naive_solver. Qed.

Lemma stop_ok {A} (b : bool) e (k : Txn S A) s a s' :
  (stop_if b with e else k)%rust s = Ok (a, s') <-> b = false /\ k s = Ok (a, s').
Proof. destruct b; simpl; naive_solver. Qed.

Lemma t_each_app {A} (f : A -> Txn S unit) l1 l2 s :
  t_each f (l1 ++ l2) s = t_bind (t_each f l1) (fun _ => t_each f l2) s.
Proof.
  revert s. induction l1 as [|x l1 IH]; intros s; simpl; [done|]. unfold t_bind in *.
  destruct (f x s) as [[[] s1]|e]; cbn [rbind]; [apply IH|done].
Qed.
End success.

(** [t_inv H] turns [H : c s = Ok (v, s')] into the facts of the successful path. *)
Ltac t_inv H :=
  lazymatch type of H with
  | t_bind _ _ _ = Ok _ =>
    let a := fresh "a" in let d := fresh "d" in let E := fresh "E" in
    apply t_bind_ok in H; destruct H as (a & d & E & H); t_inv E; t_inv H
  | t_reads _ _ = Ok _ => apply t_reads_ok in H; destruct H as [? ?]; subst
  | t_ret _ _ = Ok _ => apply t_ret_ok in H; destruct H as [? ?]; subst
  | t_lift _ _ = Ok _ => apply t_lift_ok in H; destruct H as [H ?]; subst
  | t_some _ _ _ = Ok _ => apply t_some_ok in H; destruct H as [H ?]; subst
  | t_exec _ _ _ = Ok _ => apply t_exec_ok in H; destruct H as [? H]; subst
  | t_err _ _ = Ok _ => discriminate H
  | (if _ then t_err _ else _) _ = Ok _ =>
    let G := fresh "G" in apply stop_ok in H; destruct H as [G H]; t_inv H
  | _ => idtac
  end.

(** ** Reading a table in pages *)

Section strict.
Context {A K : Type} `{RustOrdLaws K} (key : A -> K).

Definition key_lt (a b : A) : Prop := cmp (key a) (key b) = Lt.

Lemma key_lt_irrefl a : ~ key_lt a a.
Proof. unfold key_lt. by rewrite cmp_refl. Qed.

Lemma sort_by_strict l : NoDup (key <$> l) -> StronglySorted key_lt (sort_by (by_key key) l).
Proof.
  intros Hn. assert (NoDup (key <$> sort_by (by_key key) l)) as Hn' by (by rewrite sort_by_perm).
  pose proof (sort_by_sorted key l) as Hs. revert Hn' Hs. clear Hn.
  induction (sort_by (by_key key) l) as [|x s IH]; intros Hn Hs; [constructor|].
  rewrite fmap_cons in Hn. apply NoDup_cons in Hn as [Hx Hn]. apply StronglySorted_inv in Hs as [Hs Hf].
  constructor; [by apply IH|]. rewrite Forall_forall in Hf |- *. intros y Hy.
  destruct (proj1 (ord_le_lt_eq _ _) (Hf y Hy)) as [Hlt|Heq]; [done|].
  contradict Hx. rewrite Heq. by apply list_elem_of_fmap_2.
Qed.

(** A strictly sorted list is determined by its elements. *)
Lemma strictly_sorted_ext l1 l2 :
  StronglySorted key_lt l1 -> StronglySorted key_lt l2 -> (forall x, x ∈ l1 <-> x ∈ l2) -> l1 = l2.
Proof.
  intros H1 H2 Hx. apply (StronglySorted_unique_strong key_lt); [|done|done|].
  - intros x y _ _ Hxy Hyx. unfold key_lt in *. apply cmp_gt_lt in Hyx. congruence.
  - apply NoDup_Permutation; [| |done]; eapply StronglySorted_NoDup; try done; apply key_lt_irrefl.
Qed.
End strict.

(** [SELECT .. WHERE p ORDER BY primary key] *)
Definition table_rows {K V} `{Countable K} `{RustOrd K} (P : K * V -> Prop) `{forall kv, Decision (P kv)}
    (m : gmap K V) : list (K * V) :=
  sort_by (by_key fst) (filter P (map_to_list m)).

Section rows.
Context {K V : Type} `{Countable K} `{RustOrdLaws K} (P : K * V -> Prop) `{forall kv, Decision (P kv)}.

Lemma table_rows_sorted (m : gmap K V) : StronglySorted (key_lt fst) (table_rows P m).
Proof.
  apply sort_by_strict. eapply sublist_NoDup; [apply (NoDup_fst_map_to_list m)|].
  apply fmap_sublist, sublist_filter.
Qed.

Lemma elem_of_table_rows (m : gmap K V) kv : kv ∈ table_rows P m <-> m !! kv.1 = Some kv.2 /\ P kv.
Proof.
  unfold table_rows. rewrite elem_of_sort_by, list_elem_of_filter, elem_of_map_to_list'. tauto.
Qed.
End rows.

Section keyset.
Context {S K R : Type} `{RustOrdLaws K}.
(** The matching rows of a state in key order, and the part of them that one query returns. *)
Variables (key : R -> K) (rows : S -> list R) (page : list R -> list R).

Definition beyond (after : option K) (r : R) : bool := is_none_or (fun a => lt_b a (key r)) after.
Definition rows_after (after : option K) (s : S) : list R := filter (fun r => beyond after r = true) (rows s).

(** [loop { let rows = query(after)?; if rows.is_empty() { break; } for row in rows { step(row)?; }
    after = last key; }], and the number of rows it handled. *)
Fixpoint keyset_loop (step : R -> Txn S unit) (fuel : nat) (after : option K) : Txn S nat :=
  match fuel with
  | O => t_err (Internal "out of fuel"%string)
  | Datatypes.S fuel =>
    let* p := t_reads (fun s => page (rows_after after s)) in
    match last p with
    | None => t_ret 0%nat
    | Some r =>
      let* _ := t_each step p in
      let* count := keyset_loop step fuel (Some (key r)) in
      t_ret (length p + count)%nat
    end
  end.

(** The same loop that leaves with [true] at the first page that has a row with [f]. *)
Fixpoint keyset_exists (f : R -> bool) (fuel : nat) (after : option K) (s : S) : bool :=
  match fuel with
  | O => false
  | Datatypes.S fuel =>
    let p := page (rows_after after s) in
    match last p with
    | None => false
    | Some r => existsb f p || keyset_exists f fuel (Some (key r)) s
    end
  end.

(** The same loop that collects the pages. *)
Fixpoint keyset_collect (fuel : nat) (after : option K) (s : S) : list R :=
  match fuel with
  | O => []
  | Datatypes.S fuel =>
    let p := page (rows_after after s) in
    match last p with
    | None => []
    | Some r => p ++ keyset_collect fuel (Some (key r)) s
    end
  end.

Context (page_prefix : forall l, exists l', l = page l ++ l')
  (page_nonempty : forall l, l <> [] -> page l <> [])
  (rows_sorted : forall s, StronglySorted (key_lt key) (rows s)).

Lemma beyond_trans a k r : ord_le a k -> beyond (Some k) r = true -> beyond (Some a) r = true.
Proof.
  unfold beyond. simpl. rewrite !lt_b_true. intros [Hlt| ->]%ord_le_lt_eq Hk; [by eapply cmp_trans|done].
Qed.

(** Rows beyond a larger key are rows beyond a smaller one. *)
Lemma rows_after_narrow a k (l : list R) :
  ord_le a k -> filter (fun r => beyond (Some k) r = true) (filter (fun r => beyond (Some a) r = true) l)
  = filter (fun r => beyond (Some k) r = true) l.
Proof.
  intros Hle. apply list_filter_filter_l. intros r. by apply beyond_trans.
Qed.

(** After a page, the rows that are left are those beyond its last key. *)
Lemma rows_after_page after s p r l :
  rows_after after s = p ++ l -> last p = Some r -> rows_after (Some (key r)) s = l.
Proof.
  intros E [q ->]%last_Some. rewrite <- app_assoc in E. simpl in E.
  assert (StronglySorted (key_lt key) (q ++ r :: l)) as Hs.
  { rewrite <- E. unfold rows_after. apply StronglySorted_filter, rows_sorted. }
  assert (rows_after (Some (key r)) s = filter (fun x => beyond (Some (key r)) x = true) (rows_after after s)) as ->.
  { unfold rows_after. destruct after as [a|]; [|by rewrite (filter_all (fun x => beyond None x = true))].
    symmetry. apply rows_after_narrow. assert (r ∈ rows_after (Some a) s) as Hr by (rewrite E; set_solver).
    unfold rows_after in Hr. apply list_elem_of_filter in Hr as [Hr _].
    unfold beyond in Hr. simpl in Hr. apply lt_b_true in Hr. unfold ord_le. congruence. }
  rewrite E, filter_app, filter_cons_False, filter_nothing, filter_all; [done| | |].
  - intros x Hx. unfold beyond. simpl. apply lt_b_true. apply StronglySorted_app in Hs as (_ & _ & Hs).
    apply StronglySorted_cons in Hs as [Hf _]. rewrite Forall_forall in Hf. by apply Hf.
  - intros x Hx. unfold beyond. simpl. unfold lt_b.
    pose proof (StronglySorted_app_1_elem_of _ _ _ x r Hs Hx ltac:(left)) as Hlt. simpl in Hlt.
    apply cmp_gt_lt in Hlt. by rewrite Hlt.
  - unfold beyond. simpl. unfold lt_b. by rewrite cmp_refl.
Qed.

Lemma page_cases l : l = [] /\ last (page l) = None \/ exists r l', last (page l) = Some r /\ l = page l ++ l'.
Proof.
  destruct (page_prefix l) as [l' E]. destruct (last (page l)) as [r|] eqn:El; [right; by exists r, l'|left].
  apply last_None in El. split; [|done]. destruct l as [|x l]; [done|]. by apply page_nonempty in El.
Qed.

Lemma keyset_collect_spec fuel after s :
  (length (rows_after after s) < fuel)%nat -> keyset_collect fuel after s = rows_after after s.
Proof.
  revert after. induction fuel as [|fuel IH]; intros after Hf; [lia|]. simpl.
  destruct (page_cases (rows_after after s)) as [[E ->]|(r & l' & El & E)]; [done|]. rewrite El.
  pose proof (rows_after_page _ _ _ _ _ E El) as Hn. rewrite IH; [by rewrite Hn|]. rewrite Hn.
  rewrite E in Hf. rewrite length_app in Hf. apply last_Some in El as [q Eq]. rewrite Eq, length_app in Hf.
  simpl in Hf. lia.
Qed.

Lemma keyset_exists_spec f fuel after s :
  (length (rows_after after s) < fuel)%nat -> keyset_exists f fuel after s = existsb f (rows_after after s).
Proof.
  revert after. induction fuel as [|fuel IH]; intros after Hf; [lia|]. simpl.
  destruct (page_cases (rows_after after s)) as [[E ->]|(r & l' & El & E)]; [by rewrite E|]. rewrite El.
  pose proof (rows_after_page _ _ _ _ _ E El) as Hn. rewrite IH, Hn; [by rewrite E at 2; rewrite existsb_app|].
  rewrite Hn. rewrite E in Hf. rewrite length_app in Hf. apply last_Some in El as [q Eq].
  rewrite Eq, length_app in Hf. simpl in Hf. lia.
Qed.

Section writing.
Variable step : R -> Txn S unit.
(** A step leaves the rows beyond its own alone. *)
Hypothesis step_local : forall r s s', step r s = Ok (tt, s') -> r ∈ rows s ->
  rows_after (Some (key r)) s' = rows_after (Some (key r)) s.

Lemma rows_after_each p k s s' :
  t_each step p s = Ok (tt, s') -> StronglySorted (key_lt key) p ->
  (forall r, r ∈ p -> (r ∈ rows s) /\ ord_le (key r) k) ->
  rows_after (Some k) s' = rows_after (Some k) s.
Proof.
  revert s. induction p as [|r p IH]; intros s E Hs Hin; [by injection E as ->|].
  simpl in E. apply t_bind_ok in E as ([] & s1 & E1 & E). apply StronglySorted_cons in Hs as [Hf Hs].
  destruct (Hin r) as [Hr Hk]; [left|]. pose proof (step_local _ _ _ E1 Hr) as Hloc.
  rewrite (IH s1 E Hs).
  - unfold rows_after in *. by rewrite <- (rows_after_narrow (key r) k), Hloc, rows_after_narrow.
  - intros x Hx. destruct (Hin x) as [Hxr Hxk]; [by right|]. split; [|done].
    rewrite Forall_forall in Hf. specialize (Hf x Hx).
    assert (x ∈ rows_after (Some (key r)) s1) as Hx1.
    { rewrite Hloc. apply list_elem_of_filter. split; [by apply lt_b_true|done]. }
    by apply list_elem_of_filter in Hx1 as [_ ?].
Qed.

(** A row is still there, unchanged, when its turn comes. *)
Lemma t_each_rows (Q : relation S) `{!PreOrder Q} p s s' :
  (forall r s1 s2, r ∈ rows s1 -> step r s1 = Ok (tt, s2) -> Q s1 s2) ->
  StronglySorted (key_lt key) p -> (forall r, r ∈ p -> r ∈ rows s) -> t_each step p s = Ok (tt, s') -> Q s s'.
Proof.
  intros Hstep. revert s. induction p as [|r p IH]; intros s Hs Hin E; simpl in E; [by injection E as <-|].
  apply t_bind_ok in E as ([] & s1 & E1 & E). apply StronglySorted_cons in Hs as [Hf Hs].
  transitivity s1; [eapply Hstep; [apply Hin; left|done]|]. apply IH; [done| |done].
  intros x Hx. rewrite Forall_forall in Hf. specialize (Hf x Hx).
  assert (x ∈ rows_after (Some (key r)) s1) as Hx1.
  { rewrite (step_local _ _ _ E1) by (apply Hin; left).
    apply list_elem_of_filter. split; [by apply lt_b_true|]. apply Hin. by right. }
  by apply list_elem_of_filter in Hx1 as [_ ?].
Qed.

(** The paged loop handles every row once, in order. *)
Lemma keyset_loop_spec fuel after s :
  (length (rows_after after s) < fuel)%nat ->
  keyset_loop step fuel after s
  = t_bind (t_each step (rows_after after s)) (fun _ => t_ret (length (rows_after after s))) s.
Proof.
  revert after s. induction fuel as [|fuel IH]; intros after s Hf; [lia|]. simpl.
  unfold t_bind at 1, t_reads. cbn [rbind].
  destruct (page_cases (rows_after after s)) as [[E ->]|(r & l' & El & E)]; [by rewrite E|]. rewrite El.
  unfold t_bind at 3. rewrite E at 2. rewrite t_each_app. unfold t_bind.
  destruct (t_each step (page (rows_after after s)) s) as [[[] s']|e] eqn:Ep; cbn [rbind]; [|done].
  assert (rows_after (Some (key r)) s' = l') as Hn.
  { rewrite <- (rows_after_page _ _ _ _ _ E El).
    assert (StronglySorted (key_lt key) (page (rows_after after s) ++ l')) as Hs.
    { rewrite <- E. unfold rows_after. apply StronglySorted_filter, rows_sorted. }
    eapply rows_after_each; [exact Ep|by apply StronglySorted_app in Hs as (_ & ? & _)|].
    intros x Hx. split.
    - assert (x ∈ rows_after after s) as Hxa by (rewrite E; set_solver). 
      by apply list_elem_of_filter in Hxa as [_ ?].
    - apply last_Some in El as [q Eq]. rewrite Eq in Hx, Hs. apply ord_le_lt_eq.
      apply elem_of_app in Hx as [Hx| ->%list_elem_of_singleton]; [left|by right].
      rewrite <- app_assoc in Hs. apply (StronglySorted_app_1_elem_of _ _ _ x r Hs Hx). left. }
  rewrite IH; last first.
  { rewrite Hn. rewrite E in Hf. rewrite length_app in Hf.
    apply last_Some in El as [q Eq]. rewrite Eq, length_app in Hf. simpl in Hf. lia. }
  rewrite Hn. unfold t_bind. destruct (t_each step l' s') as [[[] s2]|e]; cbn [rbind]; [|done].
  unfold t_ret. cbn [rbind]. by rewrite E at 2; rewrite length_app.
Qed.

Lemma keyset_loop_rows (Q : relation S) `{!PreOrder Q} fuel after s n s' :
  (forall r s1 s2, r ∈ rows s1 -> step r s1 = Ok (tt, s2) -> Q s1 s2) ->
  (length (rows_after after s) < fuel)%nat -> keyset_loop step fuel after s = Ok (n, s') -> Q s s'.
Proof.
  intros Hstep Hf E. rewrite keyset_loop_spec in E by done. apply t_bind_ok in E as ([] & s1 & E & [_ ->]%t_ret_ok).
  eapply t_each_rows; [done..| | |done].
  - apply StronglySorted_filter, rows_sorted.
  - by intros r [_ Hr]%list_elem_of_filter.
Qed.
End writing.
End keyset.

(** ** Relations that every step respects *)

(** [m] only makes changes that [R] allows. *)
Definition t_keeps {S A} (R : relation S) (m : Txn S A) : Prop := forall s a s', m s = Ok (a, s') -> R s s'.

Create HintDb keeps.

Section keeps.
Context {S : Type} (R : relation S) `{!PreOrder R}.

Lemma keeps_ret {A} (a : A) : t_keeps R (t_ret a).
Proof. intros s b s' E. t_inv E. done. Qed.
Lemma keeps_err {A} e : t_keeps R (t_err (A := A) e).
Proof. done. Qed.
Lemma keeps_lift {A} (r : AppResult A) : t_keeps R (t_lift r).
Proof. intros s b s' E. t_inv E. done. Qed.
Lemma keeps_some {A} e (o : option A) : t_keeps R (t_some e o).
Proof. intros s b s' E. t_inv E. done. Qed.
Lemma keeps_reads {A} (f : S -> A) : t_keeps R (t_reads f).
Proof. intros s b s' E. t_inv E. done. Qed.

Lemma keeps_bind {A B} (m : Txn S A) (k : A -> Txn S B) :
  t_keeps R m -> (forall a, t_keeps R (k a)) -> t_keeps R (t_bind m k).
Proof.
  intros Hm Hk s b s' (a & s1 & E1 & E)%t_bind_ok. transitivity s1; [by eapply Hm|by eapply Hk].
Qed.

(** A continuation may rely on what was just read. *)
Lemma keeps_bind_read {A B} (f : S -> A) (k : A -> Txn S B) :
  (forall s b s', k (f s) s = Ok (b, s') -> R s s') -> t_keeps R (t_bind (t_reads f) k).
Proof. intros Hk s b s' (a & s1 & [-> ->]%t_reads_ok & E)%t_bind_ok. by eapply Hk. Qed.

Lemma keeps_each {A} (f : A -> Txn S unit) l : (forall x, t_keeps R (f x)) -> t_keeps R (t_each f l).
Proof.
  intros Hf. induction l as [|x l IH]; simpl; [apply keeps_ret|]. by apply keeps_bind.
Qed.

Lemma keeps_map {A B} (f : A -> Txn S B) l : (forall x, t_keeps R (f x)) -> t_keeps R (t_map f l).
Proof.
  intros Hf. induction l as [|x l IH]; simpl; [apply keeps_ret|]. apply keeps_bind; [done|]. intros y.
  apply keeps_bind; [done|]. intros ys. apply keeps_ret.
Qed.

Lemma keeps_keyset {K A} `{RustOrd K} (key : A -> K) rows page step fuel after :
  (forall x, t_keeps R (step x)) -> t_keeps R (keyset_loop key rows page step fuel after).
Proof.
  intros Hs. revert after. induction fuel as [|fuel IH]; intros after; [done|]. simpl.
  apply keeps_bind; [apply keeps_reads|]. intros p. destruct (last p); [|apply keeps_ret].
  apply keeps_bind; [by apply keeps_each|]. intros _. apply keeps_bind; [done|]. intros n. apply keeps_ret.
Qed.
End keeps.

#[export] Hint Resolve keeps_ret keeps_err keeps_lift keeps_some keeps_reads keeps_each keeps_map keeps_keyset : keeps.

(** Walk through a transaction, leaving the statements that the hints do not know. *)
Ltac t_keep :=
  repeat first [progress intros | match goal with
    | |- t_keeps _ (t_bind _ _) => apply keeps_bind; [apply _| |]
    | |- t_keeps _ (if ?b then _ else _) => destruct b eqn:?
    | |- t_keeps _ (match ?x with _ => _ end) => destruct x eqn:?
    | |- t_keeps _ (from_option _ _ ?x) => destruct x eqn:?; cbn [from_option]
    | |- t_keeps _ _ => solve [eauto 3 with keeps typeclass_instances]
    end].
