(* ===== verification/ImportDb.v ===== *)
(** * Imports: tables and constraints ([src/import/model.rs], [src/store/migrations/baseline/import.sql])

    Import jobs, the destinations they and ordinary writers compete for, the prefix claims and
    targets of the jobs and the leases of ordinary mutations.  A table is a finite map from its
    primary key to the other columns.  The frozen request of a job ([import_job_requests]) is its
    decompression prefix: the other columns of that table are never read by the operations
    modelled here.  Timestamps count microseconds. *)

From Stdlib Require Import ZArith Lia Ascii.
From Stdlib Require String.
From stdpp Require Import base list strings gmap.
From S2P Require Import Prelude Errors Database Transaction.

#[local] Open Scope string_scope.
#[local] Open Scope list_scope.
#[local] Open Scope Z_scope.

(** ** [src/import/model.rs] *)

Inductive ImportState : Type := ISQueued | ISRunning | ISCompleted | ISFailed | ISSuperseded.

Definition ImportState_as_str (s : ImportState) : string :=
  match s with
  | ISQueued => "queued" | ISRunning => "running" | ISCompleted => "completed"
  | ISFailed => "failed" | ISSuperseded => "superseded"
  end.

Inductive ImportPhase : Type :=
| PhQueued | PhDiscoveringProviders | PhPinningLocal | PhDownloading | PhAddingToIpfs | PhInspecting
| PhDecompressing | PhPublishing.

Definition ImportPhase_as_str (p : ImportPhase) : string :=
  match p with
  | PhQueued => "queued" | PhDiscoveringProviders => "discovering_providers"
  | PhPinningLocal => "pinning_local" | PhDownloading => "downloading"
  | PhAddingToIpfs => "adding_to_ipfs" | PhInspecting => "inspecting"
  | PhDecompressing => "decompressing" | PhPublishing => "publishing"
  end.

Record ImportClaim : Type := {
  ic_job_id : string; ic_worker_id : string; ic_attempt : Z; ic_claim_epoch : Z; ic_locked_until : Z }.

(** [ImportFailure]: the text of its code, and its message. *)
Record ImportFailure : Type := { if_code : string; if_message : string }.

Record ImportProgress : Type := {
  ip_providers_observed : Z; ip_pin_nodes_processed : Z; ip_pin_bytes_processed : Z;
  ip_downloaded_bytes : Z; ip_download_total : option Z; ip_ipfs_add_bytes : Z;
  ip_logical_size : option Z; ip_entries_processed : Z; ip_entries_succeeded : Z;
  ip_entries_failed : Z; ip_decompressed_bytes : Z }.

(** ** Rows *)

(** The counters of a job are columns of its row. *)
Record ImportJob : Type := {
  ij_bucket : string; ij_key : string; ij_source_type : string; ij_request_fingerprint : string;
  ij_client_token : option string; ij_decompress_prefix : option string;
  ij_state : string; ij_phase : string; ij_attempts : Z; ij_next_attempt_at : Z;
  ij_locked_by : option string; ij_locked_until : option Z; ij_claim_epoch : Z;
  ij_progress : ImportProgress; ij_final_cid : option string; ij_failure_code : option string;
  ij_failure_message : option string; ij_created_at : Z; ij_updated_at : Z;
  ij_completed_at : option Z }.

Record Destination : Type := {
  de_generation : Z; de_owner_job_id : option string; de_mutation_id : option string;
  de_mutation_prefix : option string; de_updated_at : Z }.

Record JobTarget : Type := { jt_expected_generation : Z; jt_kind : string }.

Record MutationLeaseRow : Type := { ml_mutation_id : string; ml_generation : Z; ml_lease_until : Z }.

(** Primary keys: bucket and key; job, bucket and prefix; job, bucket and key. *)
Abbreviation DestKey := (string * string)%type.
Abbreviation ClaimKey := (string * string * string)%type.
Abbreviation TargetKey := (string * string * string)%type.

Record ImportDb : Type := {
  im_buckets : gset string;
  im_jobs : gmap string ImportJob;
  im_dests : gmap DestKey Destination;
  im_claims : gmap ClaimKey Z;
  im_targets : gmap TargetKey JobTarget;
  im_leases : gmap DestKey MutationLeaseRow }.

Definition set_im_buckets f (db : ImportDb) : ImportDb :=
  {| im_buckets := f (im_buckets db); im_jobs := im_jobs db; im_dests := im_dests db;
     im_claims := im_claims db; im_targets := im_targets db; im_leases := im_leases db |}.
Definition set_jobs f (db : ImportDb) : ImportDb :=
  {| im_buckets := im_buckets db; im_jobs := f (im_jobs db); im_dests := im_dests db;
     im_claims := im_claims db; im_targets := im_targets db; im_leases := im_leases db |}.
Definition set_dests f (db : ImportDb) : ImportDb :=
  {| im_buckets := im_buckets db; im_jobs := im_jobs db; im_dests := f (im_dests db);
     im_claims := im_claims db; im_targets := im_targets db; im_leases := im_leases db |}.
Definition set_claims f (db : ImportDb) : ImportDb :=
  {| im_buckets := im_buckets db; im_jobs := im_jobs db; im_dests := im_dests db;
     im_claims := f (im_claims db); im_targets := im_targets db; im_leases := im_leases db |}.
Definition set_targets f (db : ImportDb) : ImportDb :=
  {| im_buckets := im_buckets db; im_jobs := im_jobs db; im_dests := im_dests db;
     im_claims := im_claims db; im_targets := f (im_targets db); im_leases := im_leases db |}.
Definition set_leases f (db : ImportDb) : ImportDb :=
  {| im_buckets := im_buckets db; im_jobs := im_jobs db; im_dests := im_dests db;
     im_claims := im_claims db; im_targets := im_targets db; im_leases := f (im_leases db) |}.

(** ** Constraints *)

Definition nonneg_or_null (o : option Z) : Prop := match o with Some z => 0 <= z | None => True end.
#[export] Instance nonneg_or_null_dec o : Decision (nonneg_or_null o).
Proof. destruct o; simpl; apply _. Defined.

Definition progress_check (p : ImportProgress) : Prop :=
  Forall (fun z => 0 <= z)
    [ip_providers_observed p; ip_pin_nodes_processed p; ip_pin_bytes_processed p; ip_downloaded_bytes p;
     ip_ipfs_add_bytes p; ip_entries_processed p; ip_entries_succeeded p; ip_entries_failed p;
     ip_decompressed_bytes p]
  /\ nonneg_or_null (ip_download_total p) /\ nonneg_or_null (ip_logical_size p).

(** The [CHECK]s of [import_jobs] *)
Definition import_job_check (j : ImportJob) : Prop :=
  (ij_source_type j ∈ ["cid"; "url"])
  /\ (ij_state j ∈ ["queued"; "running"; "completed"; "failed"; "superseded"])
  /\ (ij_phase j ∈ ["queued"; "discovering_providers"; "pinning_local"; "downloading"; "adding_to_ipfs";
                    "inspecting"; "decompressing"; "publishing"])
  /\ 0 <= ij_attempts j /\ 0 <= ij_claim_epoch j /\ progress_check (ij_progress j).

Definition same_client_token (j j' : ImportJob) : Prop :=
  ij_bucket j = ij_bucket j' /\ ij_key j = ij_key j' /\ is_Some (ij_client_token j)
  /\ ij_client_token j = ij_client_token j'.

(** The [CHECK]s, foreign keys and unique indexes of the tables. *)
Definition import_constraints (db : ImportDb) : Prop :=
  map_Forall (fun _ => import_job_check) (im_jobs db)
  /\ map_Forall (fun i j => map_Forall (fun i' j' => same_client_token j j' -> i = i') (im_jobs db)) (im_jobs db)
  /\ map_Forall (fun (k : DestKey) d => (k.1 ∈ im_buckets db) /\ 1 <= de_generation d
       /\ from_option (fun j => is_Some (im_jobs db !! j)) True (de_owner_job_id d)) (im_dests db)
  /\ map_Forall (fun (k : ClaimKey) order => is_Some (im_jobs db !! k.1.1) /\ (k.1.2 ∈ im_buckets db) /\ 0 <= order)
       (im_claims db)
  /\ map_Forall (fun (k : TargetKey) t => is_Some (im_jobs db !! k.1.1) /\ (k.1.2 ∈ im_buckets db)
       /\ 1 <= jt_expected_generation t /\ (jt_kind t ∈ ["archive"; "extracted"])) (im_targets db)
  /\ map_Forall (fun k _ => is_Some (im_dests db !! k)) (im_leases db).

#[export] Instance progress_check_dec p : Decision (progress_check p).
Proof. unfold progress_check. apply _. Defined.
#[export] Instance import_job_check_dec j : Decision (import_job_check j).
Proof. unfold import_job_check. apply _. Defined.
#[export] Instance same_client_token_dec j j' : Decision (same_client_token j j').
Proof. unfold same_client_token. apply _. Defined.
#[export] Instance from_option_dec {A} (P : A -> Prop) `{forall a, Decision (P a)} (o : option A) :
  Decision (from_option P True o).
Proof. destruct o; simpl; apply _. Defined.
#[export] Instance import_constraints_dec db : Decision (import_constraints db).
Proof. unfold import_constraints. apply _. Defined.

(** ** Statements *)

Abbreviation ITx := (Txn ImportDb).
Abbreviation i_exec := (t_exec import_constraints).

Definition job_row (id : string) : ITx (option ImportJob) := t_reads (fun db => im_jobs db !! id).

(** [find_by_id((bucket, key))]; the row lock of PostgreSQL orders transactions. *)
Definition find_destination_for_update (bucket key : string) : ITx (option Destination) :=
  t_reads (fun db => im_dests db !! (bucket, key)).

(** [UPDATE .. WHERE primary key AND p], and whether a row was affected. *)
Definition update_job (id : string) (p : ImportJob -> bool) (f : ImportJob -> ImportJob) : ITx bool :=
  let* row := job_row id in
  match row with
  | Some j => if p j then let* _ := i_exec (set_jobs <[id := f j]>) in t_ret true else t_ret false
  | None => t_ret false
  end.
Definition update_dest (k : DestKey) (p : Destination -> bool) (f : Destination -> Destination) : ITx bool :=
  let* row := t_reads (fun db => im_dests db !! k) in
  match row with
  | Some d => if p d then let* _ := i_exec (set_dests <[k := f d]>) in t_ret true else t_ret false
  | None => t_ret false
  end.
Definition update_lease (k : DestKey) (p : MutationLeaseRow -> bool) (f : MutationLeaseRow -> MutationLeaseRow) :
    ITx bool :=
  let* row := t_reads (fun db => im_leases db !! k) in
  match row with
  | Some l => if p l then let* _ := i_exec (set_leases <[k := f l]>) in t_ret true else t_ret false
  | None => t_ret false
  end.

(** [INSERT]; a row with the same primary key is a violation. *)
Definition insert_row {A} (present : ImportDb -> option A) (f : ImportDb -> ImportDb) : ITx unit :=
  let* clash := t_reads (fun db => is_some (present db)) in
  stop_if clash with constraint_failed else
  i_exec f.

(** The states in which a job still works. *)
Definition active_state (state : string) : bool := String.eqb state "queued" || String.eqb state "running".
Definition job_active (db : ImportDb) (id : string) : bool :=
  is_some_and (fun j => active_state (ij_state j)) (im_jobs db !! id).

(** [BTreeSet] and [ORDER BY] on strings *)
Definition sorted_ids (l : list string) : list string := sort_by (by_key id) l.
(** [SELECT DISTINCT .. ORDER BY] *)
Definition distinct_ids (l : list string) : list string := sorted_ids (elements (list_to_set l : gset string)).

Definition OWNERSHIP_BATCH_SIZE : nat := 128.
