(* ===== verification/ImportJobs.v ===== *)
(** * Import jobs ([src/store/import/jobs.rs])

    The queue of background imports: a job is inserted [queued], claimed by workers under a lease
    and an epoch that grows with every claim, reports progress, and is retried or ends.  [now] is
    the application's clock and [clk] the database's. *)

From Stdlib Require Import ZArith Lia Ascii.
From Stdlib Require String.
From stdpp Require Import base list strings gmap.
From S2P Require Import Prelude Errors Database Transaction ImportDb.

#[local] Open Scope string_scope.
#[local] Open Scope list_scope.
#[local] Open Scope Z_scope.

(** ** Columns of a job *)

Definition with_state (state : string) (j : ImportJob) : ImportJob :=
  {| ij_bucket := ij_bucket j; ij_key := ij_key j; ij_source_type := ij_source_type j;
     ij_request_fingerprint := ij_request_fingerprint j; ij_client_token := ij_client_token j;
     ij_decompress_prefix := ij_decompress_prefix j; ij_state := state; ij_phase := ij_phase j;
     ij_attempts := ij_attempts j; ij_next_attempt_at := ij_next_attempt_at j;
     ij_locked_by := ij_locked_by j; ij_locked_until := ij_locked_until j;
     ij_claim_epoch := ij_claim_epoch j; ij_progress := ij_progress j; ij_final_cid := ij_final_cid j;
     ij_failure_code := ij_failure_code j; ij_failure_message := ij_failure_message j;
     ij_created_at := ij_created_at j; ij_updated_at := ij_updated_at j;
     ij_completed_at := ij_completed_at j |}.
Definition with_phase (phase : string) (j : ImportJob) : ImportJob :=
  {| ij_bucket := ij_bucket j; ij_key := ij_key j; ij_source_type := ij_source_type j;
     ij_request_fingerprint := ij_request_fingerprint j; ij_client_token := ij_client_token j;
     ij_decompress_prefix := ij_decompress_prefix j; ij_state := ij_state j; ij_phase := phase;
     ij_attempts := ij_attempts j; ij_next_attempt_at := ij_next_attempt_at j;
     ij_locked_by := ij_locked_by j; ij_locked_until := ij_locked_until j;
     ij_claim_epoch := ij_claim_epoch j; ij_progress := ij_progress j; ij_final_cid := ij_final_cid j;
     ij_failure_code := ij_failure_code j; ij_failure_message := ij_failure_message j;
     ij_created_at := ij_created_at j; ij_updated_at := ij_updated_at j;
     ij_completed_at := ij_completed_at j |}.
Definition with_schedule (attempts next_attempt_at epoch : Z) (j : ImportJob) : ImportJob :=
  {| ij_bucket := ij_bucket j; ij_key := ij_key j; ij_source_type := ij_source_type j;
     ij_request_fingerprint := ij_request_fingerprint j; ij_client_token := ij_client_token j;
     ij_decompress_prefix := ij_decompress_prefix j; ij_state := ij_state j; ij_phase := ij_phase j;
     ij_attempts := attempts; ij_next_attempt_at := next_attempt_at;
     ij_locked_by := ij_locked_by j; ij_locked_until := ij_locked_until j;
     ij_claim_epoch := epoch; ij_progress := ij_progress j; ij_final_cid := ij_final_cid j;
     ij_failure_code := ij_failure_code j; ij_failure_message := ij_failure_message j;
     ij_created_at := ij_created_at j; ij_updated_at := ij_updated_at j;
     ij_completed_at := ij_completed_at j |}.
Definition with_lock (locked_by : option string) (locked_until : option Z) (updated_at : Z) (j : ImportJob) :
    ImportJob :=
  {| ij_bucket := ij_bucket j; ij_key := ij_key j; ij_source_type := ij_source_type j;
     ij_request_fingerprint := ij_request_fingerprint j; ij_client_token := ij_client_token j;
     ij_decompress_prefix := ij_decompress_prefix j; ij_state := ij_state j; ij_phase := ij_phase j;
     ij_attempts := ij_attempts j; ij_next_attempt_at := ij_next_attempt_at j;
     ij_locked_by := locked_by; ij_locked_until := locked_until;
     ij_claim_epoch := ij_claim_epoch j; ij_progress := ij_progress j; ij_final_cid := ij_final_cid j;
     ij_failure_code := ij_failure_code j; ij_failure_message := ij_failure_message j;
     ij_created_at := ij_created_at j; ij_updated_at := updated_at;
     ij_completed_at := ij_completed_at j |}.
Definition with_progress (progress : ImportProgress) (j : ImportJob) : ImportJob :=
  {| ij_bucket := ij_bucket j; ij_key := ij_key j; ij_source_type := ij_source_type j;
     ij_request_fingerprint := ij_request_fingerprint j; ij_client_token := ij_client_token j;
     ij_decompress_prefix := ij_decompress_prefix j; ij_state := ij_state j; ij_phase := ij_phase j;
     ij_attempts := ij_attempts j; ij_next_attempt_at := ij_next_attempt_at j;
     ij_locked_by := ij_locked_by j; ij_locked_until := ij_locked_until j;
     ij_claim_epoch := ij_claim_epoch j; ij_progress := progress; ij_final_cid := ij_final_cid j;
     ij_failure_code := ij_failure_code j; ij_failure_message := ij_failure_message j;
     ij_created_at := ij_created_at j; ij_updated_at := ij_updated_at j;
     ij_completed_at := ij_completed_at j |}.
Definition with_outcome (final_cid failure_code failure_message : option string) (completed_at : option Z)
    (j : ImportJob) : ImportJob :=
  {| ij_bucket := ij_bucket j; ij_key := ij_key j; ij_source_type := ij_source_type j;
     ij_request_fingerprint := ij_request_fingerprint j; ij_client_token := ij_client_token j;
     ij_decompress_prefix := ij_decompress_prefix j; ij_state := ij_state j; ij_phase := ij_phase j;
     ij_attempts := ij_attempts j; ij_next_attempt_at := ij_next_attempt_at j;
     ij_locked_by := ij_locked_by j; ij_locked_until := ij_locked_until j;
     ij_claim_epoch := ij_claim_epoch j; ij_progress := ij_progress j; ij_final_cid := final_cid;
     ij_failure_code := failure_code; ij_failure_message := failure_message;
     ij_created_at := ij_created_at j; ij_updated_at := ij_updated_at j;
     ij_completed_at := completed_at |}.

(** [downloaded_bytes = 0, download_total = NULL, ipfs_add_bytes = 0] *)
Definition transfer_reset (p : ImportProgress) : ImportProgress :=
  {| ip_providers_observed := ip_providers_observed p; ip_pin_nodes_processed := ip_pin_nodes_processed p;
     ip_pin_bytes_processed := ip_pin_bytes_processed p; ip_downloaded_bytes := 0; ip_download_total := None;
     ip_ipfs_add_bytes := 0; ip_logical_size := ip_logical_size p;
     ip_entries_processed := ip_entries_processed p; ip_entries_succeeded := ip_entries_succeeded p;
     ip_entries_failed := ip_entries_failed p; ip_decompressed_bytes := ip_decompressed_bytes p |}.
Definition with_logical_size (size : option Z) (p : ImportProgress) : ImportProgress :=
  {| ip_providers_observed := ip_providers_observed p; ip_pin_nodes_processed := ip_pin_nodes_processed p;
     ip_pin_bytes_processed := ip_pin_bytes_processed p; ip_downloaded_bytes := ip_downloaded_bytes p;
     ip_download_total := ip_download_total p; ip_ipfs_add_bytes := ip_ipfs_add_bytes p;
     ip_logical_size := size; ip_entries_processed := ip_entries_processed p;
     ip_entries_succeeded := ip_entries_succeeded p; ip_entries_failed := ip_entries_failed p;
     ip_decompressed_bytes := ip_decompressed_bytes p |}.
Definition no_progress : ImportProgress :=
  {| ip_providers_observed := 0; ip_pin_nodes_processed := 0; ip_pin_bytes_processed := 0;
     ip_downloaded_bytes := 0; ip_download_total := None; ip_ipfs_add_bytes := 0; ip_logical_size := None;
     ip_entries_processed := 0; ip_entries_succeeded := 0; ip_entries_failed := 0;
     ip_decompressed_bytes := 0 |}.

(** ** Submission *)

Inductive ImportSource : Type := SrcCid (value : string) | SrcUrl (value : string).

(** [NewImportJob]; the metadata, tags and decisions only reach the frozen request. *)
Record NewImportJob : Type := {
  nj_id : string; nj_bucket : string; nj_key : string; nj_source : ImportSource;
  nj_request_fingerprint : string; nj_client_token : option string;
  nj_decompress_prefix : option string }.

Inductive SubmitImportOutcome : Type :=
| Created (id : string) (job : ImportJob)
| Replayed (id : string) (job : ImportJob).

(** What this store calls elsewhere: the check of the decisions, captures and JSON of a request, the
    byte budget of the rows read back, and the admission lock of the management layer.  Any
    functions will do. *)
Class ImportWorld : Type := {
  freeze_request : NewImportJob -> AppResult unit;
  cid_valid : string -> bool;
  payloads_fit : ImportDb -> list string -> bool;
  lock_intake : NewImportJob -> AppResult unit }.

Section jobs.
Context `{ImportWorld}.

Definition load_payloads (ids : list string) : ITx unit :=
  let* fit := t_reads (fun db => payloads_fit db ids) in
  stop_if negb fit with Database "import request exceeds the resident budget" else
  t_ret tt.

(** The columns are a unique index. *)
Definition find_idempotent (bucket key token : string) : ITx (option (string * ImportJob)) :=
  let* found := t_reads (fun db => head (map_to_list (filter (fun ij : string * ImportJob =>
    ij_bucket ij.2 = bucket /\ ij_key ij.2 = key /\ ij_client_token ij.2 = Some token) (im_jobs db)))) in
  match found with
  | Some (id, job) =>
    stop_if 65536 <? str_len id with Database "unexpected null" else
    let* _ := load_payloads [id] in
    t_ret (Some (id, job))
  | None => t_ret None
  end.

Definition canonical_source (source : ImportSource) : AppResult string :=
  match source with
  | SrcCid value => if cid_valid value then Ok "cid" else Err InvalidImportRequest
  | SrcUrl _ => Ok "url"
  end.

Definition queued_job (request : NewImportJob) (source_type : string) (now : Z) : ImportJob :=
  {| ij_bucket := nj_bucket request; ij_key := nj_key request; ij_source_type := source_type;
     ij_request_fingerprint := nj_request_fingerprint request; ij_client_token := nj_client_token request;
     ij_decompress_prefix := nj_decompress_prefix request; ij_state := "queued"; ij_phase := "queued";
     ij_attempts := 0; ij_next_attempt_at := now; ij_locked_by := None; ij_locked_until := None;
     ij_claim_epoch := 0; ij_progress := no_progress; ij_final_cid := None; ij_failure_code := None;
     ij_failure_message := None; ij_created_at := now; ij_updated_at := now; ij_completed_at := None |}.

Definition insert_queued (request : NewImportJob) (now : Z) : ITx ImportJob :=
  let* _ := t_lift (freeze_request request) in
  let* source_type := t_lift (canonical_source (nj_source request)) in
  let job := queued_job request source_type now in
  let* _ := insert_row (fun db => im_jobs db !! nj_id request) (set_jobs <[nj_id request := job]>) in
  let* _ := load_payloads [nj_id request] in
  t_ret job.

(** ** Claims *)

(** [due_claim_condition] *)
Definition due_claim (now : Z) (j : ImportJob) : bool :=
  String.eqb (ij_state j) "queued" && (ij_next_attempt_at j <=? now)
    && is_none (ij_locked_by j) && is_none (ij_locked_until j)
  || String.eqb (ij_state j) "running" && is_some_and (fun until => until <=? now) (ij_locked_until j).

(** [active_claim_condition], [active_claim_filter] and [active_guard_filter] *)
Definition active_claim (worker_id : string) (claim_epoch clk : Z) (j : ImportJob) : bool :=
  bool_decide (ij_locked_by j = Some worker_id) && (ij_claim_epoch j =? claim_epoch)
  && String.eqb (ij_state j) "running" && is_some_and (fun until => clk <? until) (ij_locked_until j).

Definition claimed_job (worker_id : string) (now lease_until : Z) (j : ImportJob) : ImportJob :=
  with_state "running" (with_lock (Some worker_id) (Some lease_until) now
    (with_schedule (ij_attempts j + 1) (ij_next_attempt_at j) (ij_claim_epoch j + 1)
      (with_progress (if String.eqb (ij_source_type j) "url" then transfer_reset (ij_progress j) else ij_progress j) j))).

Definition claim_candidate (worker_id : string) (now lease_until : Z) (id : string) : ITx bool :=
  update_job id (fun j => due_claim now j && (ij_attempts j <? i32_max) && (ij_claim_epoch j <? i64_max))
    (claimed_job worker_id now lease_until).

(** The candidates in due order. *)
Definition due_order (ij : string * ImportJob) : Z * (Z * string) :=
  (ij_next_attempt_at ij.2, (ij_created_at ij.2, ij.1)).
Definition claim_candidates (now limit : Z) (db : ImportDb) : list string :=
  take (Z.to_nat (Z.min limit 256))
    (fst <$> sort_by (by_key due_order) (filter (fun ij => due_claim now ij.2 = true) (map_to_list (im_jobs db)))).

Definition claim_due (worker_id : string) (now lease_until limit : Z) : ITx (list ImportClaim) :=
  if limit =? 0 then t_ret []
  else
    stop_if lease_until <=? now with Internal "import claim lease must expire in the future" else
    let* candidates := t_reads (claim_candidates now limit) in
    stop_if existsb (fun id => 1024 <? str_len id) candidates with Database "unexpected null" else
    let* flags := t_map (fun id => let* ok := claim_candidate worker_id now lease_until id in t_ret (id, ok))
                    (sorted_ids candidates) in
    let claimed := filter (fun id => (id, true) ∈ flags) candidates in
    let* _ := load_payloads claimed in
    t_map (fun id =>
      let* row := job_row id in
      let* job := t_some (Database "claimed import job disappeared") row in
      t_ret {| ic_job_id := id; ic_worker_id := worker_id; ic_attempt := ij_attempts job;
               ic_claim_epoch := ij_claim_epoch job; ic_locked_until := lease_until |}) claimed.

Definition renew_job_claim (job_id worker_id : string) (claim_epoch now lease_until clk : Z) : ITx bool :=
  if lease_until <=? now then t_ret false
  else update_job job_id (fun j => active_claim worker_id claim_epoch clk j && (clk <? lease_until))
         (fun j => with_lock (ij_locked_by j) (Some lease_until) now j).

Definition require_active_claim (updated : bool) : ITx unit :=
  stop_if negb updated with StaleImportOwnership else t_ret tt.

Definition update_phase (job_id worker_id : string) (claim_epoch : Z) (state : ImportState)
    (phase : ImportPhase) (now clk : Z) : ITx unit :=
  match state with
  | ISRunning =>
    let* updated := update_job job_id (active_claim worker_id claim_epoch clk)
      (fun j => with_state "running" (with_phase (ImportPhase_as_str phase)
        (with_lock (ij_locked_by j) (ij_locked_until j) now j))) in
    require_active_claim updated
  | _ => t_err (Internal "import phase updates require a running state")
  end.

(** ** Progress *)

Definition u64_to_i64 (value : Z) : AppResult Z :=
  if value <=? i64_max then Ok value else Err (Internal "import progress exceeds database range").
Definition u32_to_i32 (value : Z) : AppResult Z :=
  if value <=? i32_max then Ok value else Err (Internal "import attempt exceeds database range").

Definition monotonic_counter (column candidate : Z) : Z := if candidate <? column then column else candidate.
Definition monotonic_optional (column candidate : option Z) : option Z :=
  match candidate with
  | None => column
  | Some c => match column with
              | None => Some c
              | Some x => if x <? c then Some c else Some x
              end
  end.

Definition checked_progress (p : ImportProgress) : AppResult ImportProgress :=
  let? pin_nodes := u64_to_i64 (ip_pin_nodes_processed p) in
  let? pin_bytes := u64_to_i64 (ip_pin_bytes_processed p) in
  let? downloaded := u64_to_i64 (ip_downloaded_bytes p) in
  let? added := u64_to_i64 (ip_ipfs_add_bytes p) in
  let? processed := u64_to_i64 (ip_entries_processed p) in
  let? succeeded := u64_to_i64 (ip_entries_succeeded p) in
  let? failed := u64_to_i64 (ip_entries_failed p) in
  let? decompressed := u64_to_i64 (ip_decompressed_bytes p) in
  let? download_total := try_option u64_to_i64 (ip_download_total p) in
  let? logical_size := try_option u64_to_i64 (ip_logical_size p) in
  Ok {| ip_providers_observed := ip_providers_observed p; ip_pin_nodes_processed := pin_nodes;
        ip_pin_bytes_processed := pin_bytes; ip_downloaded_bytes := downloaded;
        ip_download_total := download_total; ip_ipfs_add_bytes := added; ip_logical_size := logical_size;
        ip_entries_processed := processed; ip_entries_succeeded := succeeded; ip_entries_failed := failed;
        ip_decompressed_bytes := decompressed |}.

Definition merged_progress (p q : ImportProgress) : ImportProgress :=
  {| ip_providers_observed := monotonic_counter (ip_providers_observed p) (ip_providers_observed q);
     ip_pin_nodes_processed := monotonic_counter (ip_pin_nodes_processed p) (ip_pin_nodes_processed q);
     ip_pin_bytes_processed := monotonic_counter (ip_pin_bytes_processed p) (ip_pin_bytes_processed q);
     ip_downloaded_bytes := monotonic_counter (ip_downloaded_bytes p) (ip_downloaded_bytes q);
     ip_download_total := monotonic_optional (ip_download_total p) (ip_download_total q);
     ip_ipfs_add_bytes := monotonic_counter (ip_ipfs_add_bytes p) (ip_ipfs_add_bytes q);
     ip_logical_size := monotonic_optional (ip_logical_size p) (ip_logical_size q);
     ip_entries_processed := monotonic_counter (ip_entries_processed p) (ip_entries_processed q);
     ip_entries_succeeded := monotonic_counter (ip_entries_succeeded p) (ip_entries_succeeded q);
     ip_entries_failed := monotonic_counter (ip_entries_failed p) (ip_entries_failed q);
     ip_decompressed_bytes := monotonic_counter (ip_decompressed_bytes p) (ip_decompressed_bytes q) |}.

Definition update_progress (job_id worker_id : string) (claim_epoch attempt : Z) (progress : ImportProgress)
    (now clk : Z) : ITx unit :=
  let* attempt := t_lift (u32_to_i32 attempt) in
  let* progress := t_lift (checked_progress progress) in
  let* updated := update_job job_id
    (fun j => active_claim worker_id claim_epoch clk j && (ij_attempts j =? attempt))
    (fun j => with_progress (merged_progress (ij_progress j) progress)
                (with_lock (ij_locked_by j) (ij_locked_until j) now j)) in
  require_active_claim updated.

Definition retry_job (job_id worker_id : string) (claim_epoch attempt next_attempt_at : Z)
    (failure : ImportFailure) (now clk : Z) : ITx unit :=
  let* attempt := t_lift (u32_to_i32 attempt) in
  let* updated := update_job job_id
    (fun j => active_claim worker_id claim_epoch clk j && (ij_attempts j =? attempt))
    (fun j => with_state "queued" (with_phase "queued" (with_lock None None now
      (with_schedule (ij_attempts j) next_attempt_at (ij_claim_epoch j)
        (with_progress (transfer_reset (ij_progress j))
          (with_outcome (ij_final_cid j) (Some (if_code failure)) (Some (if_message failure))
            (ij_completed_at j) j)))))) in
  require_active_claim updated.

(** Old terminal jobs; their children cascade and destinations they own lose their owner. *)
Definition expired_terminal (cutoff : Z) (j : ImportJob) : bool :=
  bool_decide (ij_state j ∈ ["completed"; "failed"; "superseded"])
  && is_some_and (fun at_ => at_ <? cutoff) (ij_completed_at j).

Definition remove_jobs (gone : string -> bool) (db : ImportDb) : ImportDb :=
  {| im_buckets := im_buckets db;
     im_jobs := filter (fun ij => gone ij.1 = false) (im_jobs db);
     im_dests := (fun d => {| de_generation := de_generation d;
                              de_owner_job_id := de_owner_job_id d ≫= (fun j => if gone j then None else Some j);
                              de_mutation_id := de_mutation_id d; de_mutation_prefix := de_mutation_prefix d;
                              de_updated_at := de_updated_at d |}) <$> im_dests db;
     im_claims := filter (fun kc : ClaimKey * Z => gone kc.1.1.1 = false) (im_claims db);
     im_targets := filter (fun kt : TargetKey * JobTarget => gone kt.1.1.1 = false) (im_targets db);
     im_leases := im_leases db |}.

Definition delete_terminal_before (cutoff : Z) : ITx Z :=
  let* gone := t_reads (fun db id => is_some_and (expired_terminal cutoff) (im_jobs db !! id)) in
  let* count := t_reads (fun db => Z.of_nat (size (filter (fun ij : string * ImportJob => gone ij.1 = true) (im_jobs db)))) in
  let* _ := i_exec (remove_jobs gone) in
  t_ret count.
End jobs.
