(* ===== verification/Ownership.v ===== *)
(** * Ownership of keys ([src/store/import/ownership.rs], [ownership/mutation_lease.rs])

    Imports and ordinary mutations compete for the keys of a bucket.  An import owns exact
    destinations and literal prefixes through its job; an ordinary mutation (or a lifecycle action,
    or a ZIP extraction) holds a token on one destination, possibly with a prefix, under a lease.  A
    new admission supersedes the imports and clears the tokens it overlaps, in one transaction under
    the bucket's lock, and bumps the generation of the destination.

    [now] is the application's clock, [clk] a reading of the database's; an operation that reads it
    more than once takes one argument per reading.  Transactions that the database aborts for a
    conflict are retried by the source; here a transaction is its last attempt. *)

From Stdlib Require Import ZArith Lia Ascii.
From Stdlib Require String.
From stdpp Require Import base list strings pretty gmap.
From S2P Require Import Prelude Errors Database Transaction ImportDb ImportJobs.

#[local] Open Scope string_scope.
#[local] Open Scope list_scope.
#[local] Open Scope Z_scope.

Definition STANDARD_MUTATION_LEASE_SECONDS : Z := 120.
Definition KIND_ARCHIVE : string := "archive".
Definition KIND_EXTRACTED : string := "extracted".

Record ExpectedImportTarget : Type := { et_bucket : string; et_key : string; et_generation : Z }.

Record ImportPublicationGuard : Type := {
  pg_job_id : string; pg_worker_id : string; pg_claim_epoch : Z; pg_targets : list ExpectedImportTarget }.

Record StandardMutationGuard : Type := {
  mg_bucket : string; mg_key : string; mg_mutation_id : string; mg_expected_generation : Z;
  mg_mutation_prefix : option string }.

Definition lock_bucket_for_ownership (bucket : string) : ITx unit :=
  let* known := t_reads (fun db => bool_decide (bucket ∈ im_buckets db)) in
  stop_if negb known with NoSuchBucket bucket else
  t_ret tt.

(** ** Columns of a destination *)

Definition with_owner (owner : option string) (now : Z) (d : Destination) : Destination :=
  {| de_generation := de_generation d; de_owner_job_id := owner; de_mutation_id := de_mutation_id d;
     de_mutation_prefix := de_mutation_prefix d; de_updated_at := now |}.
Definition with_generation (generation : Z) (d : Destination) : Destination :=
  {| de_generation := generation; de_owner_job_id := de_owner_job_id d; de_mutation_id := de_mutation_id d;
     de_mutation_prefix := de_mutation_prefix d; de_updated_at := de_updated_at d |}.
Definition with_token (token prefix : option string) (now : Z) (d : Destination) : Destination :=
  {| de_generation := de_generation d; de_owner_job_id := de_owner_job_id d; de_mutation_id := token;
     de_mutation_prefix := prefix; de_updated_at := now |}.

Definition next_generation (d : Destination) : AppResult Z :=
  ok_or (Internal "import destination generation exhausted") (i64_checked_add (de_generation d) 1).

(** ** [ownership/job_queries.rs] *)

(** A column longer than 64 KiB is read as [NULL], which does not decode. *)
Definition find_job_for_update (job_id : string) : ITx (option ImportJob) :=
  let* row := job_row job_id in
  stop_if is_some_and (fun j => existsb (fun s => 65536 <? str_len s) [ij_bucket j; ij_key j; ij_state j]) row
  with Database "unexpected null" else
  t_ret row.

Definition job_prefix (job_id : string) : ITx (option string) :=
  let* row := job_row job_id in
  let* j := t_some StaleImportOwnership row in
  t_ret (ij_decompress_prefix j).

(** [job_queries::active] with [active_claim_filter] or [active_guard_filter] *)
Definition verify_active (job_id worker_id : string) (claim_epoch : Z) (bucket : string) (clk : Z) : ITx unit :=
  let* row := job_row job_id in
  stop_if negb (is_some_and (fun j => active_claim worker_id claim_epoch clk j && String.eqb (ij_bucket j) bucket) row)
  with StaleImportOwnership else
  t_ret tt.
Definition verify_active_claim (claim : ImportClaim) (bucket : string) (clk : Z) : ITx unit :=
  verify_active (ic_job_id claim) (ic_worker_id claim) (ic_claim_epoch claim) bucket clk.

(** ** Releasing a job *)

(** The destinations of a job, in key order. *)
Definition owned_rows (job_id : string) (db : ImportDb) : list (DestKey * Destination) :=
  table_rows (fun kd => de_owner_job_id kd.2 = Some job_id) (im_dests db).

Definition release_destination (job_id : string) (invalidation_prefix : option (string * string)) (now : Z)
    (kd : DestKey * Destination) : ITx unit :=
  let '(k, destination) := kd in
  let* bump := t_lift (if is_some_and (fun bp => String.eqb k.1 bp.1 && starts_with bp.2 k.2) invalidation_prefix
                       then rmap Some (next_generation destination) else Ok None) in
  let* _ := update_dest k (fun d => bool_decide (de_owner_job_id d = Some job_id))
              (fun d => with_owner None now (from_option with_generation (fun d => d) bump d)) in
  t_ret tt.

Definition release_job_ownership_with_invalidation (job_id : string)
    (invalidation_prefix : option (string * string)) (now : Z) : ITx unit :=
  let* fuel := t_reads (fun db => S (length (owned_rows job_id db))) in
  let* _ := keyset_loop fst (owned_rows job_id) (take OWNERSHIP_BATCH_SIZE)
              (release_destination job_id invalidation_prefix now) fuel None in
  let* _ := i_exec (set_claims (filter (fun kc => kc.1.1.1 <> job_id))) in
  i_exec (set_targets (filter (fun kt => kt.1.1.1 <> job_id))).

Definition release_job_ownership (job_id : string) (now : Z) : ITx unit :=
  release_job_ownership_with_invalidation job_id None now.

Definition superseded_job (now : Z) (j : ImportJob) : ImportJob :=
  with_state "superseded" (with_lock None None now
    (with_outcome (ij_final_cid j) (ij_failure_code j) (ij_failure_message j) (Some now) j)).

Definition supersede_job_with_destination_invalidation (job_id : string)
    (invalidation_prefix : option (string * string)) (now : Z) : ITx unit :=
  let* row := find_job_for_update job_id in
  let* job := t_some NoSuchImportJob row in
  if negb (active_state (ij_state job)) then t_ret tt
  else
    let* updated := update_job job_id (fun j => active_state (ij_state j)) (superseded_job now) in
    stop_if negb updated with StaleImportOwnership else
    release_job_ownership_with_invalidation job_id invalidation_prefix now.

Definition supersede_job (job_id : string) (now : Z) : ITx unit :=
  supersede_job_with_destination_invalidation job_id None now.

(** ** Conflicting imports *)

Definition prefixes_overlap (left right : string) : bool := starts_with right left || starts_with left right.

(** [SELECT DISTINCT job_id .. WHERE job_id > after AND job_id <> excluding ORDER BY job_id LIMIT] *)
Definition owner_ids (ids : list string) (after excluding : option string) : list string :=
  take OWNERSHIP_BATCH_SIZE (filter (fun j => is_none_or (fun a => lt_b a j) after = true /\ excluding <> Some j)
    (distinct_ids ids)).

(** The active jobs with a claim in [bucket] whose prefix satisfies [p]. *)
Definition claim_jobs (bucket : string) (p : string -> bool) (db : ImportDb) : list string :=
  omap (fun kc : ClaimKey * Z =>
    if bool_decide (kc.1.1.2 = bucket) && job_active db kc.1.1.1 && p kc.1.2 then Some kc.1.1.1 else None)
    (map_to_list (im_claims db)).

Definition prefix_owner_jobs_for_key (bucket key : string) (after excluding : option string) (db : ImportDb) :
    list string :=
  owner_ids (claim_jobs bucket (fun prefix => starts_with prefix key) db) after excluding.

Definition prefix_owner_jobs_for_prefix (bucket prefix : string) (after excluding : option string)
    (db : ImportDb) : list string :=
  owner_ids (claim_jobs bucket (fun claimed => starts_with claimed prefix || starts_with prefix claimed) db)
    after excluding.

(** The active owners of destinations under [prefix]. *)
Definition dest_jobs (bucket prefix : string) (db : ImportDb) : list string :=
  omap (fun kd : DestKey * Destination =>
    job ← de_owner_job_id kd.2;
    if bool_decide (kd.1.1 = bucket) && job_active db job && starts_with prefix kd.1.2 then Some job else None)
    (map_to_list (im_dests db)).

Definition destination_owner_jobs_for_prefix (bucket prefix : string) (after excluding : option string)
    (db : ImportDb) : list string :=
  owner_ids (dest_jobs bucket prefix db) after excluding.

(** [BTreeMap<String, bool>], the list of its entries in key order:
    [entry(k).and_modify(|f| *f |= flag).or_insert(flag)] *)
Fixpoint flag_insert (entry : string * bool) (m : list (string * bool)) : list (string * bool) :=
  match m with
  | [] => [entry]
  | (k, flag) :: m' =>
    match cmp entry.1 k with
    | Lt => entry :: m
    | Eq => (k, flag || entry.2) :: m'
    | Gt => (k, flag) :: flag_insert entry m'
    end
  end.

Definition insert_conflicting_job (after excluding : option string) (conflicting : list (string * bool))
    (entry : string * bool) : list (string * bool) :=
  if bool_decide (excluding = Some entry.1) || is_some_and (fun a => le_b entry.1 a) after then conflicting
  else
    let conflicting := flag_insert entry conflicting in
    if (OWNERSHIP_BATCH_SIZE <? length conflicting)%nat then removelast conflicting else conflicting.

(** The insertions of one round of the loop, in order. *)
Definition conflict_candidates (bucket : string) (exact_targets : list (string * option string))
    (mutation_prefix excluding after : option string) (db : ImportDb) : list (string * bool) :=
  (exact_targets ≫= fun ko =>
     ((fun j => (j, false)) <$> prefix_owner_jobs_for_key bucket ko.1 after excluding db)
     ++ from_option (fun owner => [(owner, false)]) [] ko.2)
  ++ from_option (fun prefix =>
       ((fun j => (j, true)) <$> prefix_owner_jobs_for_prefix bucket prefix after excluding db)
       ++ ((fun j => (j, true)) <$> destination_owner_jobs_for_prefix bucket prefix after excluding db))
       [] mutation_prefix.

Definition supersede_conflict (bucket : string) (mutation_prefix : option string) (now : Z)
    (entry : string * bool) : ITx unit :=
  let '(job_id, invalidate) := entry in
  let* invalidation := t_lift (
    if invalidate : bool then
      let? prefix := ok_or (Internal "prefix ownership conflict is missing its literal prefix") mutation_prefix in
      Ok (Some (bucket, prefix))
    else Ok None) in
  supersede_job_with_destination_invalidation job_id invalidation now.

Fixpoint supersede_loop (fuel : nat) (bucket : string) (exact_targets : list (string * option string))
    (mutation_prefix excluding : option string) (now : Z) (after : option string) : ITx unit :=
  match fuel with
  | O => t_err (Internal "out of fuel")
  | S fuel =>
    let* conflicting := t_reads (fun db => foldl (insert_conflicting_job after excluding) []
      (conflict_candidates bucket exact_targets mutation_prefix excluding after db)) in
    match last conflicting with
    | None => t_ret tt
    | Some (last_job_id, _) =>
      let* _ := t_each (supersede_conflict bucket mutation_prefix now) conflicting in
      supersede_loop fuel bucket exact_targets mutation_prefix excluding now (Some last_job_id)
    end
  end.

(** Every job that can conflict is a row or an exact owner, so this fuel is enough. *)
Definition supersede_conflicts_in_order (bucket : string) (exact_targets : list (string * option string))
    (mutation_prefix excluding : option string) (now : Z) : ITx unit :=
  let* fuel := t_reads (fun db => S (size (im_jobs db) + length exact_targets)) in
  supersede_loop fuel bucket exact_targets mutation_prefix excluding now None.

(** ** Tokens of ordinary mutations *)

(** The destinations of a bucket with a token, in key order. *)
Definition token_rows (bucket : string) (db : ImportDb) : list (DestKey * Destination) :=
  table_rows (fun kd => kd.1.1 = bucket /\ is_Some (de_mutation_id kd.2)) (im_dests db).

Definition token_overlaps (exact_keys : gset string) (mutation_prefix : option string)
    (kd : DestKey * Destination) : bool :=
  existsb (fun key => String.eqb kd.1.2 key
                      || is_some_and (fun prefix => starts_with prefix key) (de_mutation_prefix kd.2))
    (elements exact_keys)
  || is_some_and (fun prefix => starts_with prefix kd.1.2
                      || is_some_and (fun active => prefixes_overlap active prefix) (de_mutation_prefix kd.2))
       mutation_prefix.

Definition invalidate_token (bucket : string) (exact_keys : gset string) (mutation_prefix : option string)
    (now : Z) (kd : DestKey * Destination) : ITx unit :=
  if negb (token_overlaps exact_keys mutation_prefix kd) then t_ret tt
  else
    let* mutation_id := t_some (Internal "active standard mutation has no token") (de_mutation_id kd.2) in
    let* cleared := update_dest (bucket, kd.1.2) (fun d => bool_decide (de_mutation_id d = Some mutation_id))
                      (with_token None None now) in
    stop_if negb cleared with Database "stale standard mutation invalidation compare-and-set" else
    t_ret tt.

Definition invalidate_standard_mutations_in_order (bucket : string) (exact_keys : gset string)
    (mutation_prefix : option string) (now : Z) : ITx unit :=
  let* fuel := t_reads (fun db => S (length (token_rows bucket db))) in
  let* _ := keyset_loop fst (token_rows bucket) (take OWNERSHIP_BATCH_SIZE)
              (invalidate_token bucket exact_keys mutation_prefix now) fuel None in
  t_ret tt.

(** The tokens with a prefix. *)
Definition prefix_token_rows (bucket : string) (db : ImportDb) : list (DestKey * Destination) :=
  table_rows (fun kd => kd.1.1 = bucket /\ is_Some (de_mutation_id kd.2) /\ is_Some (de_mutation_prefix kd.2))
    (im_dests db).

Definition has_overlapping_standard_prefix_mutation (bucket key : string) : ITx bool :=
  t_reads (fun db => keyset_exists fst (prefix_token_rows bucket) (take OWNERSHIP_BATCH_SIZE)
    (fun kd => is_some_and (fun prefix => starts_with prefix key) (de_mutation_prefix kd.2))
    (S (length (prefix_token_rows bucket db))) None db).

Definition upsert_destination_owner (existing : option Destination) (bucket key : string)
    (owner : option string) (now : Z) : ITx Z :=
  match existing with
  | Some destination =>
    let* next := t_lift (next_generation destination) in
    let* _ := update_dest (bucket, key) (fun _ => true)
                (fun d => with_token None None now (with_owner owner now (with_generation next d))) in
    t_ret next
  | None =>
    let* _ := insert_row (fun db => im_dests db !! (bucket, key))
      (set_dests <[(bucket, key) := {| de_generation := 1; de_owner_job_id := owner; de_mutation_id := None;
                                       de_mutation_prefix := None; de_updated_at := now |}]>) in
    t_ret 1
  end.

Definition upsert_standard_mutation (existing : option Destination) (bucket key mutation_id : string)
    (mutation_prefix : option string) (now clk : Z) : ITx StandardMutationGuard :=
  let* generation :=
    match existing with
    | Some destination =>
      let* next := t_lift (next_generation destination) in
      let* updated := update_dest (bucket, key) (fun d => de_generation d =? de_generation destination)
        (fun d => with_token (Some mutation_id) mutation_prefix now (with_owner None now (with_generation next d))) in
      stop_if negb updated with Database "stale standard mutation admission compare-and-set" else
      t_ret next
    | None =>
      let* _ := insert_row (fun db => im_dests db !! (bucket, key))
        (set_dests <[(bucket, key) :=
           {| de_generation := 1; de_owner_job_id := None; de_mutation_id := Some mutation_id;
              de_mutation_prefix := mutation_prefix; de_updated_at := now |}]>) in
      t_ret 1
    end in
  let* _ := i_exec (set_leases <[(bucket, key) :=
    {| ml_mutation_id := mutation_id; ml_generation := generation;
       ml_lease_until := clk + seconds STANDARD_MUTATION_LEASE_SECONDS |}]>) in
  t_ret {| mg_bucket := bucket; mg_key := key; mg_mutation_id := mutation_id;
           mg_expected_generation := generation; mg_mutation_prefix := mutation_prefix |}.

(** ** Leases *)

(** [mutation_lease_identity] *)
Definition lease_identity (g : StandardMutationGuard) (l : MutationLeaseRow) : bool :=
  String.eqb (ml_mutation_id l) (mg_mutation_id g) && (ml_generation l =? mg_expected_generation g).
Definition guard_key (g : StandardMutationGuard) : DestKey := (mg_bucket g, mg_key g).

Definition verify_mutation_lease (g : StandardMutationGuard) (clk : Z) : ITx unit :=
  let* row := t_reads (fun db => im_leases db !! guard_key g) in
  stop_if negb (is_some_and (fun l => lease_identity g l && (clk <? ml_lease_until l)) row)
  with StaleContentMutation else
  t_ret tt.

Definition verify_standard_mutation_guard (g : StandardMutationGuard) (archive_bucket archive_key : string)
    (entry_keys : list string) (clk : Z) : ITx unit :=
  stop_if negb (String.eqb (mg_bucket g) archive_bucket) || negb (String.eqb (mg_key g) archive_key)
          || (mg_expected_generation g <? 1) with StaleContentMutation else
  stop_if match mg_mutation_prefix g with
          | Some prefix => negb (forallb (starts_with prefix) entry_keys)
          | None => negb (bool_decide (entry_keys = []))
          end with StaleContentMutation else
  let* row := find_destination_for_update archive_bucket archive_key in
  let* destination := t_some StaleContentMutation row in
  stop_if negb (de_generation destination =? mg_expected_generation g)
          || is_some (de_owner_job_id destination)
          || negb (bool_decide (de_mutation_id destination = Some (mg_mutation_id g)))
          || negb (bool_decide (de_mutation_prefix destination = mg_mutation_prefix g))
  with StaleContentMutation else
  verify_mutation_lease g clk.

(** [UPDATE standard_mutation_leases SET lease_until WHERE identity AND active] *)
Definition extend_lease (g : StandardMutationGuard) (c1 c2 : Z) : ITx unit :=
  let* updated := update_lease (guard_key g) (fun l => lease_identity g l && (c2 <? ml_lease_until l))
    (fun l => {| ml_mutation_id := ml_mutation_id l; ml_generation := ml_generation l;
                 ml_lease_until := c1 + seconds STANDARD_MUTATION_LEASE_SECONDS |}) in
  stop_if negb updated with StaleContentMutation else
  t_ret tt.

Definition renew_standard_mutation_in_transaction (g : StandardMutationGuard) (c0 c1 c2 : Z) : ITx unit :=
  let* _ := verify_standard_mutation_guard g (mg_bucket g) (mg_key g) [] c0 in
  extend_lease g c1 c2.

Definition renew_standard_mutation (g : StandardMutationGuard) (c0 c1 c2 : Z) : ITx unit :=
  let* _ := lock_bucket_for_ownership (mg_bucket g) in
  renew_standard_mutation_in_transaction g c0 c1 c2.

Definition active_destination_lease (k : DestKey) (clk : Z) (db : ImportDb) (d : Destination) : bool :=
  is_some_and (fun l => bool_decide (de_mutation_id d = Some (ml_mutation_id l))
                        && (ml_generation l =? de_generation d) && (clk <? ml_lease_until l))
    (im_leases db !! k).

Definition clear_standard_mutation_in_transaction (g : StandardMutationGuard) (now : Z)
    (require_active : option Z) : ITx bool :=
  let* live := t_reads (fun db d => is_none_or (fun clk => active_destination_lease (guard_key g) clk db d)
                                      require_active) in
  let* cleared := update_dest (guard_key g)
    (fun d => (de_generation d =? mg_expected_generation g) && is_none (de_owner_job_id d)
              && bool_decide (de_mutation_id d = Some (mg_mutation_id g)) && live d)
    (with_token None None now) in
  let* _ := i_exec (set_leases (filter (fun kl => ~ (kl.1 = guard_key g /\ lease_identity g kl.2 = true)))) in
  t_ret cleared.

Definition complete_standard_mutation_in_transaction (g : StandardMutationGuard) (now c1 c2 : Z) : ITx unit :=
  let* _ := verify_mutation_lease g c1 in
  let* cleared := clear_standard_mutation_in_transaction g now (Some c2) in
  stop_if negb cleared with StaleContentMutation else
  t_ret tt.

Definition release_standard_mutation_in_transaction (g : StandardMutationGuard) (now : Z) : ITx bool :=
  clear_standard_mutation_in_transaction g now None.

Definition release_standard_mutation (g : StandardMutationGuard) (clk : Z) : ITx bool :=
  let* _ := lock_bucket_for_ownership (mg_bucket g) in
  release_standard_mutation_in_transaction g clk.

(** The expired leases of a bucket, in key order. *)
Definition expired_leases (bucket : string) (clk : Z) (db : ImportDb) : list (DestKey * MutationLeaseRow) :=
  table_rows (fun kl => kl.1.1 = bucket /\ ml_lease_until kl.2 <= clk) (im_leases db).

Definition release_expired (clk : Z) (kl : DestKey * MutationLeaseRow) : ITx unit :=
  let* _ := release_standard_mutation_in_transaction
    {| mg_bucket := kl.1.1; mg_key := kl.1.2; mg_mutation_id := ml_mutation_id kl.2;
       mg_expected_generation := ml_generation kl.2; mg_mutation_prefix := None |} clk in
  t_ret tt.

(** Round [i] reads the clock for its query and for its updates. *)
Fixpoint recover_loop (fuel : nat) (bucket : string) (clock : nat -> Z) (i : nat) : ITx unit :=
  match fuel with
  | O => t_err (Internal "out of fuel")
  | S fuel =>
    let* leases := t_reads (fun db => take OWNERSHIP_BATCH_SIZE (expired_leases bucket (clock (2 * i)%nat) db)) in
    match leases with
    | [] => t_ret tt
    | _ =>
      let* _ := t_each (release_expired (clock (2 * i + 1)%nat)) leases in
      recover_loop fuel bucket clock (S i)
    end
  end.

(** Every round deletes a lease of the bucket, so this fuel is enough. *)
Definition recover_expired_mutations_in_transaction (bucket : string) (clock : nat -> Z) : ITx unit :=
  let* fuel := t_reads (fun db => S (size (im_leases db))) in
  recover_loop fuel bucket clock 0.

(** ** Admission of ordinary mutations *)

Definition sorted_keys (keys : gset string) : list string := sorted_ids (elements keys).

(** [clk key] is the clock when the lease of [key] is written. *)
Definition admit_content_mutations_in_transaction (bucket : string) (keys : gset string)
    (mutation_ids : gmap string string) (excluding : option string) (now : Z) (clk : string -> Z) :
    ITx (list StandardMutationGuard) :=
  let* exact_targets := t_map (fun key =>
    let* destination := find_destination_for_update bucket key in
    t_ret (key, destination ≫= de_owner_job_id)) (sorted_keys keys) in
  let* _ := supersede_conflicts_in_order bucket exact_targets None excluding now in
  let* _ := invalidate_standard_mutations_in_order bucket keys None now in
  t_map (fun key =>
    let* destination := find_destination_for_update bucket key in
    let* mutation_id := t_some (Internal "content admission is missing a mutation token") (mutation_ids !! key) in
    upsert_standard_mutation destination bucket key mutation_id None now (clk key)) (sorted_keys keys).

Definition admit_content_mutations (bucket : string) (keys : list string) (mutation_ids : gmap string string)
    (excluding : option string) (now : Z) (clk : string -> Z) : ITx (list StandardMutationGuard) :=
  let* _ := lock_bucket_for_ownership bucket in
  admit_content_mutations_in_transaction bucket (list_to_set keys) mutation_ids excluding now clk.

(** [guards.pop()] *)
Definition admit_content_mutation (bucket key mutation_id : string) (excluding : option string)
    (now : Z) (clk : string -> Z) : ITx StandardMutationGuard :=
  let* guards := admit_content_mutations bucket [key] {[key := mutation_id]} excluding now clk in
  t_some (Internal "content admission returned no mutation guard") (last guards).

Definition admit_prefix_mutation (bucket prefix : string) (now : Z) : ITx unit :=
  let* _ := lock_bucket_for_ownership bucket in
  let* _ := supersede_conflicts_in_order bucket [] (Some prefix) None now in
  invalidate_standard_mutations_in_order bucket ∅ (Some prefix) now.

Definition admit_content_and_prefix_mutation (bucket key prefix mutation_id : string) (now clk : Z) :
    ITx StandardMutationGuard :=
  let* _ := lock_bucket_for_ownership bucket in
  let* destination := find_destination_for_update bucket key in
  let* _ := supersede_conflicts_in_order bucket [(key, destination ≫= de_owner_job_id)] (Some prefix) None now in
  let* _ := invalidate_standard_mutations_in_order bucket {[key]} (Some prefix) now in
  let* destination := find_destination_for_update bucket key in
  upsert_standard_mutation destination bucket key mutation_id (Some prefix) now clk.

(** *** Lifecycle actions *)

Definition lifecycle_token (action_id : string) (claim_epoch : Z) : string :=
  "lifecycle:" +:+ action_id +:+ ":" +:+ pretty claim_epoch.

Definition lifecycle_mutation_epoch (token action_id : string) : option Z :=
  rest ← strip_prefix "lifecycle:" token;
  rest ← strip_prefix action_id rest;
  digits ← strip_prefix ":" rest;
  parse_i64 digits.

Definition invalid_lifecycle_owner (action_id : string) (claim_epoch : Z) : bool :=
  str_is_empty action_id || str_contains ":" action_id || (claim_epoch <=? 0).

Definition try_admit_lifecycle_mutation (bucket key action_id : string) (claim_epoch now : Z)
    (clock : nat -> Z) (clk : Z) : ITx (option StandardMutationGuard) :=
  stop_if invalid_lifecycle_owner action_id claim_epoch with Internal "invalid lifecycle mutation owner" else
  let mutation_id := lifecycle_token action_id claim_epoch in
  let* _ := lock_bucket_for_ownership bucket in
  let* _ := recover_expired_mutations_in_transaction bucket clock in
  let* destination := find_destination_for_update bucket key in
  let* prefix_jobs := t_reads (prefix_owner_jobs_for_key bucket key None None) in
  let* overlap := has_overlapping_standard_prefix_mutation bucket key in
  if is_some_and (fun d => is_some (de_owner_job_id d)) destination
     || negb (bool_decide (prefix_jobs = [])) || overlap
  then t_ret None
  else
    match destination ≫= (fun d => active ← de_mutation_id d; Some (d, active)) with
    | Some (d, active_mutation_id) =>
      if String.eqb active_mutation_id mutation_id then
        if is_some (de_mutation_prefix d) then t_ret None
        else t_ret (Some {| mg_bucket := bucket; mg_key := key; mg_mutation_id := mutation_id;
                            mg_expected_generation := de_generation d; mg_mutation_prefix := None |})
      else if negb (is_some_and (fun epoch => (0 <? epoch) && (epoch <? claim_epoch))
                      (lifecycle_mutation_epoch active_mutation_id action_id))
              || is_some (de_mutation_prefix d)
      then t_ret None
      else
        let* guard := upsert_standard_mutation destination bucket key mutation_id None now clk in
        t_ret (Some guard)
    | None =>
      let* guard := upsert_standard_mutation destination bucket key mutation_id None now clk in
      t_ret (Some guard)
    end.

Definition clear_lifecycle_mutation_if_owned (bucket key action_id : string) (claim_epoch now : Z) : ITx bool :=
  stop_if invalid_lifecycle_owner action_id claim_epoch with Internal "invalid lifecycle mutation owner" else
  let* destination := find_destination_for_update bucket key in
  match destination ≫= (fun d => active ← de_mutation_id d; Some (d, active)) with
  | None => t_ret false
  | Some (d, active_mutation_id) =>
    if negb (is_none (de_mutation_prefix d)
             && is_some_and (fun epoch => (0 <? epoch) && (epoch <=? claim_epoch))
                  (lifecycle_mutation_epoch active_mutation_id action_id))
    then t_ret false
    else
      let* cleared := update_dest (bucket, key) (fun d => bool_decide (de_mutation_id d = Some active_mutation_id))
                        (with_token None None now) in
      stop_if negb cleared with Database "stale lifecycle mutation cleanup compare-and-set" else
      t_ret true
  end.

Definition renew_lifecycle_mutation_in_transaction (bucket key action_id : string) (claim_epoch c1 c2 : Z) :
    ITx unit :=
  let* _ := lock_bucket_for_ownership bucket in
  let token := lifecycle_token action_id claim_epoch in
  let* destination := find_destination_for_update bucket key in
  match destination with
  | None => t_ret tt
  | Some d =>
    if negb (bool_decide (de_mutation_id d = Some token)) then t_ret tt
    else extend_lease {| mg_bucket := bucket; mg_key := key; mg_mutation_id := token;
                         mg_expected_generation := de_generation d;
                         mg_mutation_prefix := de_mutation_prefix d |} c1 c2
  end.

(** *** ZIP outputs *)

(** The jobs that admitting the outputs would supersede. *)
Definition output_jobs (bucket : string) (keys : gset string) (db : ImportDb) : list string :=
  sorted_keys keys ≫= fun key =>
    from_option (fun d => from_option (fun owner => [owner]) [] (de_owner_job_id d)) [] (im_dests db !! (bucket, key))
    ++ keyset_collect id (fun db => distinct_ids (claim_jobs bucket (fun p => starts_with p key) db))
         (take OWNERSHIP_BATCH_SIZE) (S (size (im_jobs db))) None db.

Definition revokes_source (bucket source_key : string) (source_owner : option string) (job_id : string) :
    ITx unit :=
  stop_if bool_decide (source_owner = Some job_id) with StaleContentMutation else
  let* job := find_job_for_update job_id in
  stop_if is_some_and (fun j => String.eqb (ij_bucket j) bucket && String.eqb (ij_key j) source_key
                                && active_state (ij_state j)) job with StaleContentMutation else
  let* target := t_reads (fun db => is_some (im_targets db !! (job_id, bucket, source_key))) in
  stop_if target with StaleContentMutation else
  let* covered := t_reads (fun db => existsb (fun kc : ClaimKey * Z =>
    bool_decide (kc.1.1 = (job_id, bucket)) && starts_with kc.1.2 source_key) (map_to_list (im_claims db))) in
  stop_if covered with StaleContentMutation else
  t_ret tt.

Definition check_zip_outputs_do_not_revoke_source (bucket source_key : string) (keys : gset string) : ITx unit :=
  let* source := find_destination_for_update bucket source_key in
  let* affected := t_reads (fun db => sorted_keys (list_to_set (output_jobs bucket keys db))) in
  let* _ := t_each (revokes_source bucket source_key (source ≫= de_owner_job_id)) affected in
  let* revoked := t_reads (fun db =>
    keyset_exists fst (token_rows bucket) (take OWNERSHIP_BATCH_SIZE)
      (fun kd => token_overlaps keys None kd
                 && (String.eqb kd.1.2 source_key
                     || is_some_and (fun prefix => starts_with prefix source_key) (de_mutation_prefix kd.2)))
      (S (length (token_rows bucket db))) None db) in
  stop_if revoked with StaleContentMutation else
  t_ret tt.

Definition admit_zip_outputs_without_source_in_transaction (bucket source_key : string) (keys : gset string)
    (mutation_ids : gmap string string) (now : Z) (clk : string -> Z) : ITx (list StandardMutationGuard) :=
  stop_if bool_decide (source_key ∈ keys) || negb (size keys =? size mutation_ids)%nat
          || existsb (fun key => is_none_or str_is_empty (mutation_ids !! key)) (elements keys)
  with StaleContentMutation else
  let* _ := check_zip_outputs_do_not_revoke_source bucket source_key keys in
  admit_content_mutations_in_transaction bucket keys mutation_ids None now clk.

Definition admit_zip_v2_source_in_transaction (bucket source_key : string) (output_keys : gset string)
    (mutation_id : string) (now : Z) (clk : string -> Z) : ITx StandardMutationGuard :=
  stop_if str_is_empty source_key || str_is_empty mutation_id || bool_decide (source_key ∈ output_keys)
  with StaleContentMutation else
  let* _ := check_zip_outputs_do_not_revoke_source bucket source_key output_keys in
  let* guards := admit_content_mutations_in_transaction bucket {[source_key]} {[source_key := mutation_id]} None now clk in
  t_some StaleContentMutation (last guards).

(** [rotate_guard] of [src/store/zip/execution.rs] on these tables: the same authority under a new
    token. *)
Definition rotate_guard (old : StandardMutationGuard) (new_token : string) (now c1 : Z) : ITx StandardMutationGuard :=
  let* destination := update_dest (guard_key old)
    (fun d => bool_decide (de_mutation_id d = Some (mg_mutation_id old))
              && (de_generation d =? mg_expected_generation old) && is_none (de_mutation_prefix d))
    (fun d => with_token (Some new_token) (de_mutation_prefix d) now d) in
  stop_if negb destination with StaleContentMutation else
  let* lease := update_lease (guard_key old) (fun l => lease_identity old l && (c1 <? ml_lease_until l))
    (fun l => {| ml_mutation_id := new_token; ml_generation := ml_generation l;
                 ml_lease_until := now + seconds STANDARD_MUTATION_LEASE_SECONDS |}) in
  stop_if negb lease with StaleContentMutation else
  t_ret {| mg_bucket := mg_bucket old; mg_key := mg_key old; mg_mutation_id := new_token;
           mg_expected_generation := mg_expected_generation old; mg_mutation_prefix := mg_mutation_prefix old |}.

(** The whole output set, under exact guards. *)
Definition verify_zip_output_guards_in_transaction (bucket source_key : string) (keys : list string)
    (guards : list StandardMutationGuard) (clk : Z) : ITx unit :=
  let expected : gset string := list_to_set keys in
  stop_if negb (size expected =? length keys)%nat || negb (size expected =? length guards)%nat
          || bool_decide (source_key ∈ keys)
          || existsb (fun g => negb (String.eqb (mg_bucket g) bucket) || String.eqb (mg_key g) source_key
                               || is_some (mg_mutation_prefix g) || negb (bool_decide (mg_key g ∈ expected))) guards
          || negb (size (list_to_set (mg_key <$> guards) : gset string) =? length guards)%nat
  with StaleContentMutation else
  t_each (fun g => verify_standard_mutation_guard g bucket (mg_key g) [] clk) guards.

Definition renew_zip_output_guards_in_transaction (bucket source_key : string) (keys : list string)
    (guards : list StandardMutationGuard) (c0 c1 c2 : Z) : ITx unit :=
  let* _ := verify_zip_output_guards_in_transaction bucket source_key keys guards c0 in
  t_each (fun g => extend_lease g c1 c2) guards.

Definition complete_zip_output_guards_in_transaction (bucket source_key : string) (keys : list string)
    (guards : list StandardMutationGuard) (now c0 c1 c2 : Z) : ITx unit :=
  let* _ := verify_zip_output_guards_in_transaction bucket source_key keys guards c0 in
  t_each (fun g => complete_standard_mutation_in_transaction g now c1 c2) guards.

(** ** Imports *)

Section imports.
Context `{ImportWorld}.

Definition insert_target (job_id bucket key : string) (expected_generation : Z) (kind : string) : ITx unit :=
  insert_row (fun db => im_targets db !! (job_id, bucket, key))
    (set_targets <[(job_id, bucket, key) :=
       {| jt_expected_generation := expected_generation; jt_kind := kind |}]>).

Definition claim_primary_destination (job_id bucket key : string) (now : Z) : ITx Z :=
  let* previous := find_destination_for_update bucket key in
  let* _ := supersede_conflicts_in_order bucket [(key, previous ≫= de_owner_job_id)] None (Some job_id) now in
  let* _ := invalidate_standard_mutations_in_order bucket {[key]} None now in
  upsert_destination_owner previous bucket key (Some job_id) now.

(** [SELECT MAX(claim_order)] *)
Definition max_claim_order (bucket : string) (db : ImportDb) : option Z :=
  foldr (fun kc acc => if bool_decide (kc.1.1.2 = bucket) then Some (from_option (Z.max kc.2) kc.2 acc) else acc)
    None (map_to_list (im_claims db)).
Definition next_prefix_claim_order (bucket : string) : ITx Z :=
  t_reads (fun db => from_option (fun m => Z.min i64_max (m + 1)) 0 (max_claim_order bucket db)).

Definition install_prefix_claim (job_id bucket prefix : string) (now : Z) : ITx unit :=
  let* claim_order := next_prefix_claim_order bucket in
  let* _ := supersede_conflicts_in_order bucket [] (Some prefix) (Some job_id) now in
  let* _ := invalidate_standard_mutations_in_order bucket ∅ (Some prefix) now in
  let* existing := t_reads (fun db => is_some (im_claims db !! (job_id, bucket, prefix))) in
  if existing : bool then t_ret tt
  else i_exec (set_claims <[(job_id, bucket, prefix) := claim_order]>).

Definition submit_decided_in_transaction (request : NewImportJob) (now : Z) : ITx SubmitImportOutcome :=
  let* existing :=
    match nj_client_token request with
    | Some token => find_idempotent (nj_bucket request) (nj_key request) token
    | None => t_ret None
    end in
  match existing with
  | Some (id, job) =>
    if String.eqb (ij_request_fingerprint job) (nj_request_fingerprint request)
    then t_ret (Replayed id job) else t_err ImportIdempotencyConflict
  | None =>
    let* job := insert_queued request now in
    let* generation := claim_primary_destination (nj_id request) (nj_bucket request) (nj_key request) now in
    let* _ := insert_target (nj_id request) (nj_bucket request) (nj_key request) generation KIND_ARCHIVE in
    let* _ := from_option (fun prefix => install_prefix_claim (nj_id request) (nj_bucket request) prefix now)
                (t_ret tt) (nj_decompress_prefix request) in
    let* _ := t_lift (lock_intake request) in
    t_ret (Created (nj_id request) job)
  end.

(** [submit_with_decision] *)
Definition submit (request : NewImportJob) (now : Z) : ITx SubmitImportOutcome :=
  let* _ := lock_bucket_for_ownership (nj_bucket request) in
  submit_decided_in_transaction request now.

Definition preflight_idempotent_submission (bucket key token fingerprint : string) :
    ITx (option (string * ImportJob)) :=
  let* _ := lock_bucket_for_ownership bucket in
  let* existing := find_idempotent bucket key token in
  match existing with
  | Some (id, job) =>
    if String.eqb (ij_request_fingerprint job) fingerprint then t_ret (Some (id, job))
    else t_err ImportIdempotencyConflict
  | None => t_ret None
  end.

Definition verify_extraction_claim (claim : ImportClaim) (bucket key : string) (clk : Z) : ITx unit :=
  let* _ := verify_active_claim claim bucket clk in
  let* prefix := job_prefix (ic_job_id claim) in
  match prefix with
  | None => t_ret tt
  | Some prefix =>
    stop_if negb (starts_with prefix key) with StaleImportOwnership else
    let* held := t_reads (fun db => is_some (im_claims db !! (ic_job_id claim, bucket, prefix))) in
    stop_if negb held with StaleImportOwnership else
    t_ret tt
  end.

Definition verify_decompression_attempt (claim : ImportClaim) (bucket : string) (clk : Z) : ITx unit :=
  let* _ := verify_active_claim claim bucket clk in
  let* prefix := job_prefix (ic_job_id claim) in
  let* prefix := t_some StaleImportOwnership prefix in
  let* held := t_reads (fun db => is_some (im_claims db !! (ic_job_id claim, bucket, prefix))) in
  stop_if negb held with StaleImportOwnership else
  t_ret tt.

(** [destination.generation == generation && destination.owner_job_id == job_id] *)
Definition owned_at (job_id : string) (generation : Z) (destination : option Destination) : bool :=
  is_some_and (fun d => (de_generation d =? generation) && bool_decide (de_owner_job_id d = Some job_id)) destination.

Definition claim_extracted_target (claim : ImportClaim) (bucket key : string) (now clk : Z) : ITx Z :=
  let* _ := lock_bucket_for_ownership bucket in
  let* _ := verify_extraction_claim claim bucket key clk in
  let* existing := t_reads (fun db => im_targets db !! (ic_job_id claim, bucket, key)) in
  match existing with
  | Some target =>
    let* destination := find_destination_for_update bucket key in
    if String.eqb (jt_kind target) KIND_EXTRACTED
       && owned_at (ic_job_id claim) (jt_expected_generation target) destination
    then t_ret (jt_expected_generation target)
    else t_err StaleImportOwnership
  | None =>
    let* generation := claim_primary_destination (ic_job_id claim) bucket key now in
    let* _ := insert_target (ic_job_id claim) bucket key generation KIND_EXTRACTED in
    t_ret generation
  end.

(** [UPDATE import_destinations SET owner_job_id = NULL WHERE .. generation AND owner_job_id] *)
Definition release_owned (job_id bucket key : string) (generation now : Z) : ITx unit :=
  let* updated := update_dest (bucket, key)
    (fun d => (de_generation d =? generation) && bool_decide (de_owner_job_id d = Some job_id))
    (with_owner None now) in
  stop_if negb updated with StaleImportOwnership else
  t_ret tt.

Definition release_extracted_target (claim : ImportClaim) (bucket key : string) (generation now clk : Z) :
    ITx unit :=
  let* _ := lock_bucket_for_ownership bucket in
  let* _ := verify_extraction_claim claim bucket key clk in
  let* target := t_reads (fun db => im_targets db !! (ic_job_id claim, bucket, key)) in
  stop_if negb (is_some_and (fun t => (jt_expected_generation t =? generation) && String.eqb (jt_kind t) KIND_EXTRACTED)
                  target) with StaleImportOwnership else
  let* destination := find_destination_for_update bucket key in
  stop_if negb (owned_at (ic_job_id claim) generation destination) with StaleImportOwnership else
  let* _ := i_exec (set_targets (delete (ic_job_id claim, bucket, key))) in
  release_owned (ic_job_id claim) bucket key generation now.

(** The extracted targets of a job in a bucket, in key order. *)
Definition extracted_rows (job_id bucket : string) (db : ImportDb) : list (TargetKey * JobTarget) :=
  table_rows (fun kt => kt.1.1 = (job_id, bucket) /\ jt_kind kt.2 = KIND_EXTRACTED) (im_targets db).

Definition reset_target (job_id bucket : string) (now : Z) (kt : TargetKey * JobTarget) : ITx unit :=
  let key := kt.1.2 in
  let generation := jt_expected_generation kt.2 in
  let* destination := find_destination_for_update bucket key in
  stop_if negb (owned_at job_id generation destination) with StaleImportOwnership else
  let* _ := release_owned job_id bucket key generation now in
  let* row := t_reads (fun db => im_targets db !! (job_id, bucket, key)) in
  stop_if negb (is_some_and (fun t => String.eqb (jt_kind t) KIND_EXTRACTED && (jt_expected_generation t =? generation)) row)
  with StaleImportOwnership else
  i_exec (set_targets (delete (job_id, bucket, key))).

(** One transaction of [reset_extracted_targets_for_attempt], which runs it until it returns 0. *)
Definition reset_extracted_target_batch (claim : ImportClaim) (bucket : string) (now c0 c1 : Z) : ITx nat :=
  let* _ := lock_bucket_for_ownership bucket in
  let* _ := verify_decompression_attempt claim bucket c0 in
  let* targets := t_reads (fun db => take OWNERSHIP_BATCH_SIZE (extracted_rows (ic_job_id claim) bucket db)) in
  let* _ := t_each (reset_target (ic_job_id claim) bucket now) targets in
  let* _ := verify_decompression_attempt claim bucket c1 in
  t_ret (length targets).

(** ** The end of a job *)

(** The ids of a page fit a byte budget, but the first id is always taken. *)
Fixpoint within_budget (total : Z) (ids : list string) : list string :=
  match ids with
  | [] => []
  | id :: ids =>
    let total := total + str_len id + 32 in
    if total <=? 1048576 then id :: within_budget total ids else []
  end.
Definition active_ids_page (ids : list string) : list string :=
  match take OWNERSHIP_BATCH_SIZE ids with
  | [] => []
  | id :: rest => id :: within_budget (str_len id + 32) rest
  end.
Definition active_ids (bucket : string) (db : ImportDb) : list string :=
  sorted_ids (fst <$> filter (fun ij : string * ImportJob => ij_bucket ij.2 = bucket /\ active_state (ij_state ij.2) = true)
                (map_to_list (im_jobs db))).

Definition supersede_bucket (bucket : string) (now : Z) : ITx Z :=
  let* fuel := t_reads (fun db => S (size (im_jobs db))) in
  let* count := keyset_loop id (active_ids bucket) active_ids_page
    (fun job_id => stop_if 65536 <? str_len job_id with Database "unexpected null" else supersede_job job_id now)
    fuel None in
  t_ret (Z.min u64_max (Z.of_nat count)).

Definition failed_job (failure : ImportFailure) (now : Z) (j : ImportJob) : ImportJob :=
  with_state "failed" (with_lock None None now
    (with_outcome (ij_final_cid j) (Some (if_code failure)) (Some (if_message failure)) (Some now) j)).

Definition fail_claimed (claim : ImportClaim) (bucket : string) (failure : ImportFailure) (now c0 c1 : Z) :
    ITx unit :=
  let* _ := lock_bucket_for_ownership bucket in
  let* _ := verify_active_claim claim bucket c0 in
  let* updated := update_job (ic_job_id claim) (active_claim (ic_worker_id claim) (ic_claim_epoch claim) c1)
                    (failed_job failure now) in
  stop_if negb updated with StaleImportOwnership else
  release_job_ownership (ic_job_id claim) now.

Definition target_map (targets : list ExpectedImportTarget) (archive_bucket : string) :
    AppResult (gmap DestKey Z) :=
  try_fold (fun output target =>
    bail_if negb (String.eqb (et_bucket target) archive_bucket) || (et_generation target <? 1)
    with StaleImportOwnership else
    bail_if is_some_and (fun previous => negb (previous =? et_generation target))
              (output !! (et_bucket target, et_key target)) with StaleImportOwnership else
    Ok (<[(et_bucket target, et_key target) := et_generation target]> output)) ∅ targets.

Definition publication_target_set (targets : list DestKey) (archive_bucket : string) : AppResult (gset DestKey) :=
  bail_if existsb (fun t => negb (String.eqb t.1 archive_bucket)) targets with StaleImportOwnership else
  Ok (list_to_set targets).

Definition durable_targets (job_id : string) (db : ImportDb) : gmap DestKey Z :=
  list_to_map (omap (fun kt : TargetKey * JobTarget =>
    if bool_decide (kt.1.1.1 = job_id) then Some ((kt.1.1.2, kt.1.2), jt_expected_generation kt.2) else None)
    (map_to_list (im_targets db))).

Definition verify_publication_guard (guard : ImportPublicationGuard) (archive_bucket : string)
    (publication_targets : list DestKey) (clk : Z) : ITx unit :=
  let* expected := t_lift (target_map (pg_targets guard) archive_bucket) in
  let* publication := t_lift (publication_target_set publication_targets archive_bucket) in
  stop_if negb (bool_decide (dom expected = publication)) with StaleImportOwnership else
  let* _ := t_each (fun kg : DestKey * Z =>
    let* row := find_destination_for_update kg.1.1 kg.1.2 in
    let* destination := t_some StaleImportOwnership row in
    stop_if negb (bool_decide (de_owner_job_id destination = Some (pg_job_id guard)))
            || negb (de_generation destination =? kg.2) with StaleImportOwnership else
    t_ret tt) (sort_by (by_key fst) (map_to_list expected)) in
  let* _ := verify_active (pg_job_id guard) (pg_worker_id guard) (pg_claim_epoch guard) archive_bucket clk in
  let* durable := t_reads (durable_targets (pg_job_id guard)) in
  stop_if negb (bool_decide (durable = expected)) with StaleImportOwnership else
  t_ret tt.

Definition completed_job (final_cid : string) (logical_size now : Z) (j : ImportJob) : ImportJob :=
  with_state "completed" (with_lock None None now
    (with_progress (with_logical_size (Some logical_size) (ij_progress j))
      (with_outcome (Some final_cid) None None (Some now) j))).

Definition complete_publication_in_transaction (guard : ImportPublicationGuard) (final_cid : string)
    (logical_size now clk : Z) : ITx unit :=
  stop_if logical_size <? 0 with StaleImportOwnership else
  let* updated := update_job (pg_job_id guard) (active_claim (pg_worker_id guard) (pg_claim_epoch guard) clk)
                    (completed_job final_cid logical_size now) in
  stop_if negb updated with StaleImportOwnership else
  release_job_ownership (pg_job_id guard) now.
End imports.

(** ** Buckets *)

(** [INSERT INTO buckets] and [DELETE FROM buckets] with its cascades *)
Definition create_bucket_row (bucket : string) : ITx unit := i_exec (set_im_buckets (union {[bucket]})).
Definition without_bucket_imports (bucket : string) (db : ImportDb) : ImportDb :=
  {| im_buckets := im_buckets db ∖ {[bucket]}; im_jobs := im_jobs db;
     im_dests := filter (fun kd => kd.1.1 <> bucket) (im_dests db);
     im_claims := filter (fun kc : ClaimKey * Z => kc.1.1.2 <> bucket) (im_claims db);
     im_targets := filter (fun kt : TargetKey * JobTarget => kt.1.1.2 <> bucket) (im_targets db);
     im_leases := filter (fun kl => kl.1.1 <> bucket) (im_leases db) |}.
Definition delete_bucket_row (bucket : string) : ITx unit := i_exec (without_bucket_imports bucket).

(** [bucket::delete] of [src/store/bucket.rs] on the tables of imports: [occupied] tells whether the bucket
    still has uploads, objects, versions or unfinished tier transitions, which are in other tables.  The
    whole transaction is in [BucketDelete]. *)
Definition delete_bucket_imports (bucket : string) (occupied : bool) (now : Z) : ITx unit :=
  let* _ := lock_bucket_for_ownership bucket in
  let* busy := t_reads (fun db => negb (bool_decide (active_ids bucket db = []))) in
  stop_if busy || occupied with BucketNotEmpty bucket else
  let* _ := supersede_bucket bucket now in
  let* known := t_reads (fun db => bool_decide (bucket ∈ im_buckets db)) in
  stop_if negb known with NoSuchBucket bucket else
  delete_bucket_row bucket.
