(* ===== verification/OwnershipLoops.v ===== *)
(** * The paged loops of the ownership store

    The conflicting jobs are gathered from several queries, each limited to one page, into a map that
    keeps only the smallest ids; the tokens are read page by page.  Both loops handle exactly the
    rows that one unlimited query would return, in order. *)

From Stdlib Require Import ZArith Lia Ascii.
From stdpp Require Import base list strings sorting pretty gmap relations.
From S2P Require Import Prelude Errors Database Transaction ImportDb ImportJobs Ownership.

#[local] Open Scope string_scope.
#[local] Open Scope list_scope.
#[local] Open Scope Z_scope.

(** ** Pages *)

Lemma batch_prefix {A} (l : list A) : exists l', l = take OWNERSHIP_BATCH_SIZE l ++ l'.
Proof. exists (drop OWNERSHIP_BATCH_SIZE l). by rewrite take_drop. Qed.

Lemma batch_nonempty {A} (l : list A) : l <> [] -> take OWNERSHIP_BATCH_SIZE l <> [].
Proof. by destruct l. Qed.

(** A change of one row leaves the rows beyond it alone. *)
Lemma table_rows_local {K V} `{Countable K} `{RustOrdLaws K} (P : K * V -> Prop) `{forall kv, Decision (P kv)}
    (k : K) (m m' : gmap K V) :
  (forall k', k' <> k -> m' !! k' = m !! k') ->
  filter (fun r => beyond fst (Some k) r = true) (table_rows P m')
  = filter (fun r => beyond fst (Some k) r = true) (table_rows P m).
Proof.
  intros Hk. apply (strictly_sorted_ext fst).
  1,2: apply StronglySorted_filter, table_rows_sorted.
  intros [k' v]. rewrite !list_elem_of_filter, !elem_of_table_rows. simpl.
  destruct (decide (k' = k)) as [->|Hne]; [|by rewrite Hk].
  unfold beyond. simpl. rewrite lt_b_true, cmp_refl. intuition discriminate.
Qed.

(** ** Statements *)

Lemma update_dest_ok k p f db b db' :
  update_dest k p f db = Ok (b, db') <->
  (exists d, im_dests db !! k = Some d /\ p d = true /\ b = true /\ db' = set_dests <[k := f d]> db
     /\ import_constraints db')
  \/ (from_option p false (im_dests db !! k) = false /\ b = false /\ db' = db).
Proof.
  unfold update_dest. rewrite t_bind_ok. split.
  - intros (o & s & E & E'). t_inv E. destruct (im_dests db !! k) as [d|]; [|t_inv E'; by right].
    destruct (p d) eqn:Hp; t_inv E'; [left; eauto 10|right; simpl; auto].
  - intros [(d & Hd & Hp & -> & -> & Hc)|(Hp & -> & ->)].
    + eexists _, db. split; [done|]. rewrite Hd, Hp. apply t_bind_ok. eexists tt, _.
      split; [by apply t_exec_ok|done].
    + eexists _, db. split; [done|]. destruct (im_dests db !! k) as [d|]; [|done]. simpl in Hp. by rewrite Hp.
Qed.

Lemma update_job_ok id p f db b db' :
  update_job id p f db = Ok (b, db') <->
  (exists j, im_jobs db !! id = Some j /\ p j = true /\ b = true /\ db' = set_jobs <[id := f j]> db
     /\ import_constraints db')
  \/ (from_option p false (im_jobs db !! id) = false /\ b = false /\ db' = db).
Proof.
  unfold update_job, job_row. rewrite t_bind_ok. split.
  - intros (o & s & E & E'). t_inv E. destruct (im_jobs db !! id) as [d|]; [|t_inv E'; by right].
    destruct (p d) eqn:Hp; t_inv E'; [left; eauto 10|right; simpl; auto].
  - intros [(d & Hd & Hp & -> & -> & Hc)|(Hp & -> & ->)].
    + eexists _, db. split; [done|]. rewrite Hd, Hp. apply t_bind_ok. eexists tt, _.
      split; [by apply t_exec_ok|done].
    + eexists _, db. split; [done|]. destruct (im_jobs db !! id) as [d|]; [|done]. simpl in Hp. by rewrite Hp.
Qed.

Lemma update_lease_ok k p f db b db' :
  update_lease k p f db = Ok (b, db') <->
  (exists l, im_leases db !! k = Some l /\ p l = true /\ b = true /\ db' = set_leases <[k := f l]> db
     /\ import_constraints db')
  \/ (from_option p false (im_leases db !! k) = false /\ b = false /\ db' = db).
Proof.
  unfold update_lease. rewrite t_bind_ok. split.
  - intros (o & s & E & E'). t_inv E. destruct (im_leases db !! k) as [d|]; [|t_inv E'; by right].
    destruct (p d) eqn:Hp; t_inv E'; [left; eauto 10|right; simpl; auto].
  - intros [(d & Hd & Hp & -> & -> & Hc)|(Hp & -> & ->)].
    + eexists _, db. split; [done|]. rewrite Hd, Hp. apply t_bind_ok. eexists tt, _.
      split; [by apply t_exec_ok|done].
    + eexists _, db. split; [done|]. destruct (im_leases db !! k) as [d|]; [|done]. simpl in Hp. by rewrite Hp.
Qed.

Lemma insert_row_ok {A} (present : ImportDb -> option A) f db u db' :
  insert_row present f db = Ok (u, db') -> present db = None /\ db' = f db /\ import_constraints db'.
Proof. unfold insert_row. intros E. t_inv E. by destruct (present db). Qed.

(** ** Tokens *)

Definition same_tables_but_dests (db db' : ImportDb) : Prop :=
  db' = set_dests (fun _ => im_dests db') db.

(** What a step may do to a destination: nothing, or clear its token. *)
Definition token_cleared (now : Z) (d d' : Destination) : Prop := d' = d \/ d' = with_token None None now d.

Lemma invalidate_token_ok b keys pre now kd db u db' :
  invalidate_token b keys pre now kd db = Ok (u, db') -> kd.1.1 = b ->
  (token_overlaps keys pre kd = false /\ db' = db)
  \/ (token_overlaps keys pre kd = true /\ exists d, im_dests db !! kd.1 = Some d
      /\ db' = set_dests <[kd.1 := with_token None None now d]> db /\ import_constraints db').
Proof.
  unfold invalidate_token. intros E <-. destruct (token_overlaps keys pre kd) eqn:Ho; simpl in E; t_inv E; [|by left].
  right. split; [done|].
  match goal with Hu : update_dest _ _ _ _ = Ok _ |- _ => apply update_dest_ok in Hu end.
  destruct kd as [[b' k] d0]. simpl in *.
  match goal with Hu : _ \/ _ |- _ => destruct Hu as [(d1 & Hd & _ & -> & -> & Hc)|(_ & -> & _)] end;
    [eauto|discriminate].
Qed.

Lemma invalidate_loop b keys pre now db :
  invalidate_standard_mutations_in_order b keys pre now db
  = t_bind (t_each (invalidate_token b keys pre now) (token_rows b db)) (fun _ => t_ret tt) db.
Proof.
  unfold invalidate_standard_mutations_in_order, t_bind, t_reads. cbn [rbind].
  rewrite (keyset_loop_spec fst (token_rows b) (take OWNERSHIP_BATCH_SIZE)).
  - unfold rows_after, t_bind. rewrite filter_all by done. by destruct (t_each _ _ db) as [[[] ?]|].
  - apply batch_prefix.
  - apply batch_nonempty.
  - intros s. apply table_rows_sorted.
  - intros kd s s' E Hin. apply elem_of_table_rows in Hin as (_ & Hb & _).
    apply invalidate_token_ok in E; [|done]. destruct E as [(_ & ->)|(_ & d & _ & -> & _)]; [done|].
    apply table_rows_local. intros k' Hne. simpl. by rewrite lookup_insert_ne.
  - unfold rows_after. rewrite filter_all by done. lia.
Qed.

(** ** The map of conflicting jobs *)

Section flags.
#[local] Abbreviation sorted_flags := (StronglySorted (key_lt fst)).

Lemma flag_insert_cons e m :
  sorted_flags m -> (forall x, x ∈ m -> cmp e.1 x.1 = Lt) -> flag_insert e m = e :: m.
Proof. destruct m as [|[k f] m]; [done|]. intros _ Hx. specialize (Hx (k, f) ltac:(left)). simpl in *. by rewrite Hx. Qed.

Lemma flag_insert_key e m x : x ∈ flag_insert e m -> x.1 = e.1 \/ x ∈ m.
Proof.
  induction m as [|[k f] m IH]; simpl; [set_solver|].
  destruct (cmp e.1 k) eqn:E; rewrite elem_of_cons.
  - apply cmp_eq_iff in E as <-. intros [->|]; [by left|right; by right].
  - intros [->|]; [by left|by right].
  - intros [->|[?|?]%IH]; [right; left|by left|right; by right].
Qed.

Lemma flag_insert_sorted e m : sorted_flags m -> sorted_flags (flag_insert e m).
Proof.
  induction 1 as [|[k f] m Hm IH Hf]; simpl; [repeat constructor|].
  rewrite Forall_forall in Hf. destruct (cmp e.1 k) eqn:E.
  - constructor; [done|]. by apply Forall_forall.
  - constructor; [by constructor; [|apply Forall_forall]|]. constructor; [done|]. apply Forall_forall.
    intros x Hx. specialize (Hf x Hx). unfold key_lt in *. simpl in *. by eapply cmp_trans.
  - constructor; [done|]. apply Forall_forall. intros x [Hx|Hx]%flag_insert_key; [|by apply Hf].
    unfold key_lt. simpl. rewrite Hx. by apply cmp_gt_lt.
Qed.

Lemma flag_insert_keys e m j : j ∈ (flag_insert e m).*1 <-> j = e.1 \/ j ∈ m.*1.
Proof.
  induction m as [|[k f] m IH]; simpl; [set_solver|].
  destruct (cmp e.1 k) eqn:E; simpl; rewrite ?elem_of_cons; [apply cmp_eq_iff in E as ->; tauto|done|].
  rewrite IH. tauto.
Qed.

Lemma flag_insert_true e m j : (j, true) ∈ flag_insert e m <-> e = (j, true) \/ (j, true) ∈ m.
Proof.
  destruct e as [i c]. induction m as [|[k f] m IH]; simpl; [set_solver|].
  destruct (cmp i k) eqn:E; rewrite ?elem_of_cons; [apply cmp_eq_iff in E as ->|intuition congruence|].
  - destruct f, c; simpl; intuition congruence.
  - rewrite IH. tauto.
Qed.

(** The map after a list of insertions. *)
Definition flags_from (m l : list (string * bool)) : list (string * bool) := foldl (fun m e => flag_insert e m) m l.

Lemma flags_from_sorted m l : sorted_flags m -> sorted_flags (flags_from m l).
Proof. revert m. induction l as [|e l IH]; intros m Hm; [done|]. by apply IH, flag_insert_sorted. Qed.

Lemma flags_from_keys m l j : j ∈ (flags_from m l).*1 <-> j ∈ m.*1 \/ j ∈ l.*1.
Proof.
  revert m. induction l as [|e l IH]; intros m; simpl; [set_solver|].
  rewrite IH, flag_insert_keys, elem_of_cons. tauto.
Qed.

Lemma flags_from_true m l j : (j, true) ∈ flags_from m l <-> (j, true) ∈ m \/ (j, true) ∈ l.
Proof.
  revert m. induction l as [|e l IH]; intros m; simpl; [set_solver|].
  rewrite IH, flag_insert_true, elem_of_cons. intuition congruence.
Qed.

Lemma sorted_flags_functional (m : list (string * bool)) j f g : sorted_flags m -> (j, f) ∈ m -> (j, g) ∈ m -> f = g.
Proof.
  induction 1 as [|[k h] m Hm IH Hf]; [set_solver|]. rewrite Forall_forall in Hf.
  assert (forall x, (k, x) ∉ m) as Hk.
  { intros x Hx. specialize (Hf _ Hx). unfold key_lt in Hf. simpl in Hf. by rewrite cmp_refl in Hf. }
  intros [E1|H1]%elem_of_cons [E2|H2]%elem_of_cons.
  - congruence.
  - injection E1 as -> ->. by apply Hk in H2.
  - injection E2 as -> ->. by apply Hk in H1.
  - by apply IH.
Qed.

(** The entries: the inserted keys, flagged when one of the insertions was. *)
Lemma elem_of_flags l j f :
  (j, f) ∈ flags_from [] l <-> (j ∈ l.*1) /\ f = bool_decide ((j, true) ∈ l).
Proof.
  assert (sorted_flags (flags_from [] l)) as Hs by (apply flags_from_sorted; constructor).
  split.
  - intros Hin. split.
    + pose proof (list_elem_of_fmap_2 fst _ _ Hin) as Hk. apply flags_from_keys in Hk. set_solver.
    + case_bool_decide as Ht.
      * eapply sorted_flags_functional; [done..|]. apply flags_from_true. by right.
      * destruct f; [|done]. apply flags_from_true in Hin. set_solver.
  - intros [Hk ->]. case_bool_decide as Ht; [apply flags_from_true; by right|].
    assert (j ∈ (flags_from [] l).*1) as Hj by (apply flags_from_keys; by right).
    apply list_elem_of_fmap in Hj as ([k [|]] & -> & Hin); [|done].
    apply flags_from_true in Hin. set_solver.
Qed.

(** *** The map keeps the smallest keys *)

Lemma flag_insert_take n e m : take n (flag_insert e (take n m)) = take n (flag_insert e m).
Proof.
  revert n. induction m as [|[k f] m IH]; intros [|n]; [done..|]. simpl.
  destruct (cmp e.1 k); simpl; [by rewrite take_idemp| |by rewrite IH].
  destruct n; [done|]. simpl. by rewrite take_take, Nat.min_l by lia.
Qed.

Lemma flags_from_take n m1 m2 l : take n m1 = take n m2 -> take n (flags_from m1 l) = take n (flags_from m2 l).
Proof.
  revert m1 m2. induction l as [|e l IH]; intros m1 m2 Hm; [done|]. simpl. apply IH.
  by rewrite <- (flag_insert_take n e m1), Hm, flag_insert_take.
Qed.

Lemma length_flag_insert e m : (length m <= length (flag_insert e m) <= S (length m))%nat.
Proof. induction m as [|[k f] m IH]; simpl; [lia|]. destruct (cmp e.1 k); simpl; lia. Qed.

Lemma flag_insert_filter (p : string -> bool) e m :
  sorted_flags m ->
  filter (fun x => p x.1 = true) (flag_insert e m)
  = if p e.1 then flag_insert e (filter (fun x => p x.1 = true) m) else filter (fun x => p x.1 = true) m.
Proof.
  destruct e as [i c]. induction 1 as [|[k f] m Hm IH Hf]; simpl.
  { rewrite filter_cons. simpl. by destruct (p i). }
  assert (cmp i k = Lt -> p i = true -> flag_insert (i, c) (filter (fun x => p x.1 = true) ((k, f) :: m))
    = (i, c) :: filter (fun x => p x.1 = true) ((k, f) :: m)) as Hcons.
  { intros Hik _. apply flag_insert_cons; [apply StronglySorted_filter; by constructor|].
    intros x [_ [->|Hx]%elem_of_cons]%list_elem_of_filter; [done|]. rewrite Forall_forall in Hf.
    specialize (Hf _ Hx). unfold key_lt in Hf. simpl in *. by eapply cmp_trans. }
  simpl in IH. destruct (cmp i k) eqn:E.
  - apply cmp_eq_iff in E as ->. rewrite !filter_cons. simpl. destruct (p k) eqn:Hp; simpl; [|done].
    by rewrite cmp_refl.
  - rewrite filter_cons at 1. simpl. destruct (p i) eqn:Hp; simpl; [|done]. by rewrite Hcons.
  - rewrite !(filter_cons _ (k, f)). simpl. rewrite IH. destruct (p k) eqn:Hk, (p i) eqn:Hi; simpl; rewrite ?E; done.
Qed.

Lemma flags_filter (p : string -> bool) l :
  filter (fun x => p x.1 = true) (flags_from [] l) = flags_from [] (filter (fun x => p x.1 = true) l).
Proof.
  assert (forall m, sorted_flags m -> filter (fun x => p x.1 = true) (flags_from m l)
    = flags_from (filter (fun x => p x.1 = true) m) (filter (fun x => p x.1 = true) l)) as H; [|by apply H; constructor].
  induction l as [|e l IH]; intros m Hm; [done|]. simpl. rewrite IH by (by apply flag_insert_sorted).
  rewrite flag_insert_filter, filter_cons by done. by destruct (p e.1).
Qed.

(** Entries beyond the first [n] keys do not change them. *)
Definition below (j : string) (m : list (string * bool)) : list (string * bool) :=
  filter (fun x => lt_b x.1 j = true) m.

Lemma below_none j m : (forall x, x ∈ m -> cmp x.1 j <> Lt) -> below j m = [].
Proof. intros Hx. apply filter_nothing. intros x Hin. rewrite lt_b_true. by apply Hx. Qed.

Lemma flag_insert_beyond n e m :
  sorted_flags m -> (n <= length (below e.1 m))%nat -> take n (flag_insert e m) = take n m.
Proof.
  intros Hs. revert n. induction Hs as [|[k f] m Hm IH Hf]; intros n Hn; simpl in *.
  { by replace n with 0%nat by lia. }
  rewrite Forall_forall in Hf. unfold key_lt in Hf. simpl in Hf. destruct (cmp e.1 k) eqn:E.
  - apply cmp_eq_iff in E as <-. rewrite below_none in Hn; [by replace n with 0%nat by (simpl in Hn; lia)|].
    intros x [->|Hx]%elem_of_cons; simpl; [by rewrite cmp_refl|]. specialize (Hf x Hx).
    apply cmp_gt_lt in Hf. congruence.
  - rewrite below_none in Hn; [by replace n with 0%nat by (simpl in Hn; lia)|].
    intros x Hx. assert (cmp e.1 x.1 = Lt) as Hlt.
    { apply elem_of_cons in Hx as [->|Hx]; [done|]. eapply cmp_trans; [done|by apply Hf]. }
    apply cmp_gt_lt in Hlt. congruence.
  - apply cmp_gt_lt in E. unfold below in Hn. rewrite filter_cons_True in Hn by (by apply lt_b_true).
    destruct n; [done|]. simpl in *. f_equal. apply IH. unfold below. lia.
Qed.

Lemma flags_from_beyond n m l :
  sorted_flags m -> (forall e, e ∈ l -> (n <= length (below e.1 m))%nat) -> take n (flags_from m l) = take n m.
Proof.
  revert m. induction l as [|e l IH]; intros m Hs Hl; [done|]. simpl. rewrite IH.
  - apply flag_insert_beyond; [done|]. apply Hl. left.
  - by apply flag_insert_sorted.
  - intros x Hx. etransitivity; [apply Hl; by right|]. unfold below.
    rewrite (flag_insert_filter (fun k => lt_b k x.1)) by done. destruct (lt_b e.1 x.1); [|done].
    apply length_flag_insert.
Qed.

(** The first [n] keys do not depend on what a sorted query returns beyond its first [n] rows. *)
Lemma flags_from_query n m c q :
  sorted_flags m -> StronglySorted (key_lt (fun j : string => j)) q ->
  take n (flags_from m ((fun j => (j, c)) <$> q)) = take n (flags_from m ((fun j => (j, c)) <$> take n q)).
Proof.
  intros Hm Hq. rewrite <- (take_drop n q) at 1. unfold flags_from. rewrite fmap_app, foldl_app.
  apply flags_from_beyond; [by apply flags_from_sorted|].
  intros e (j & -> & Hj)%list_elem_of_fmap. simpl.
  rewrite <- (take_drop n q) in Hq.
  assert (length (take n q) = n) as Hlen.
  { rewrite length_take. assert (drop n q <> []) as Hd by (intros E; rewrite E in Hj; set_solver).
    destruct (decide (length q < n)%nat); [|lia]. rewrite drop_ge in Hd by lia. done. }
  rewrite <- Hlen at 1. rewrite <- (length_fmap fst (below _ _)). apply submseteq_length, NoDup_submseteq.
  - eapply StronglySorted_NoDup; [apply key_lt_irrefl|]. by apply StronglySorted_app in Hq as (_ & Hq & _).
  - intros i Hi.
    pose proof (StronglySorted_app_1_elem_of _ _ _ _ _ Hq Hi Hj) as Hij.
    assert (i ∈ (flags_from m ((fun j => (j, c)) <$> take n q)).*1) as ([i' f] & -> & Hin)%list_elem_of_fmap.
    { apply flags_from_keys. right. rewrite <- list_fmap_compose. apply list_elem_of_fmap. by exists i. }
    apply (list_elem_of_fmap_2 fst _ (i', f)). apply list_elem_of_filter. split; [by apply lt_b_true|done].
Qed.
End flags.

(** ** The pages of conflicting jobs *)

Lemma distinct_ids_sorted l : StronglySorted (key_lt (fun j : string => j)) (distinct_ids l).
Proof. apply (sort_by_strict id). rewrite list_fmap_id. apply NoDup_elements. Qed.

Lemma elem_of_distinct_ids l j : j ∈ distinct_ids l <-> j ∈ l.
Proof. unfold distinct_ids, sorted_ids. rewrite elem_of_sort_by. set_solver. Qed.

(** The insertions of all rounds: the queries without limit, cursor or excluded job. *)
Definition all_candidates (bucket : string) (exact_targets : list (string * option string))
    (mutation_prefix : option string) (db : ImportDb) : list (string * bool) :=
  (exact_targets ≫= fun ko =>
     ((fun j => (j, false)) <$> distinct_ids (claim_jobs bucket (fun prefix => starts_with prefix ko.1) db))
     ++ from_option (fun owner => [(owner, false)]) [] ko.2)
  ++ from_option (fun prefix =>
       ((fun j => (j, true)) <$> distinct_ids (claim_jobs bucket
          (fun claimed => starts_with claimed prefix || starts_with prefix claimed) db))
       ++ ((fun j => (j, true)) <$> distinct_ids (dest_jobs bucket prefix db)))
       [] mutation_prefix.

(** The conflicting jobs, and whether a prefix brought them in. *)
Definition conflict_rows (bucket : string) (exact_targets : list (string * option string))
    (mutation_prefix excluding : option string) (db : ImportDb) : list (string * bool) :=
  flags_from [] (filter (fun e => negb (bool_decide (excluding = Some e.1)) = true)
    (all_candidates bucket exact_targets mutation_prefix db)).

Lemma conflict_rows_sorted b exact pre excluding db :
  StronglySorted (key_lt fst) (conflict_rows b exact pre excluding db).
Proof. apply flags_from_sorted. constructor. Qed.

Lemma elem_of_conflict_rows b exact pre excluding db j f :
  (j, f) ∈ conflict_rows b exact pre excluding db <->
  excluding <> Some j /\ (j ∈ (all_candidates b exact pre db).*1)
  /\ f = bool_decide ((j, true) ∈ all_candidates b exact pre db).
Proof.
  unfold conflict_rows. rewrite elem_of_flags.
  assert (forall g, (j, g) ∈ filter (fun e => negb (bool_decide (excluding = Some e.1)) = true)
    (all_candidates b exact pre db) <-> excluding <> Some j /\ (j, g) ∈ all_candidates b exact pre db) as Hf.
  { intros g. rewrite list_elem_of_filter. simpl. by rewrite negb_true_iff, bool_decide_eq_false. }
  assert (forall l : list (string * bool), j ∈ l.*1 <-> exists g, (j, g) ∈ l) as Hfst.
  { intros l. rewrite list_elem_of_fmap. split; [intros ([] & -> & ?); eauto|intros [g ?]; by exists (j, g)]. }
  rewrite !Hfst. split.
  - intros [(g & [He Hg]%Hf) ->]. split_and!; [done|eauto|]. apply bool_decide_ext. rewrite Hf. tauto.
  - intros (He & [g Hg] & ->). split; [exists g; by apply Hf|]. apply bool_decide_ext. rewrite Hf. tauto.
Qed.

Section page.
Variables after excluding : option string.

(** The entries that a round inserts. *)
Definition admitted_id (j : string) : bool :=
  is_none_or (fun a => lt_b a j) after && negb (bool_decide (excluding = Some j)).
#[local] Abbreviation admitted := (filter (fun e : string * bool => admitted_id e.1 = true)).
#[local] Abbreviation N := OWNERSHIP_BATCH_SIZE.

Lemma conflict_fold l m :
  foldl (insert_conflicting_job after excluding) (take N m) l = take N (flags_from m (admitted l)).
Proof.
  revert m. induction l as [|e l IH]; intros m; [done|]. simpl.
  assert (insert_conflicting_job after excluding (take N m) e
    = take N (if admitted_id e.1 then flag_insert e m else m)) as ->.
  { unfold insert_conflicting_job, admitted_id.
    assert (is_some_and (fun a => le_b e.1 a) after = negb (is_none_or (fun a => lt_b a e.1) after)) as ->.
    { destruct after as [a|]; [|done]. simpl. unfold le_b, lt_b. rewrite (cmp_antisym a e.1).
      by destruct (cmp a e.1). }
    destruct (bool_decide _), (is_none_or _ _); simpl; try done. rewrite <- flag_insert_take.
    destruct (Nat.ltb_spec N (length (flag_insert e (take N m)))) as [Hl|Hl]; [|symmetry; by apply take_ge].
    rewrite removelast_firstn_len. pose proof (length_flag_insert e (take N m)). rewrite length_take in *.
    f_equal. lia. }
  rewrite IH, filter_cons. by destruct (admitted_id e.1).
Qed.

Definition same_page (m1 m2 : list (string * bool)) : Prop :=
  StronglySorted (key_lt fst) m1 /\ StronglySorted (key_lt fst) m2 /\ take N m1 = take N m2.

Lemma same_page_insert m1 m2 l : same_page m1 m2 -> same_page (flags_from m1 l) (flags_from m2 l).
Proof.
  intros (H1 & H2 & E). split_and!; [by apply flags_from_sorted..|]. by apply flags_from_take.
Qed.

Lemma admitted_query (c : bool) (l : list string) :
  admitted ((fun j => (j, c)) <$> l) = (fun j => (j, c)) <$> filter (fun j => admitted_id j = true) l.
Proof. induction l as [|j l IH]; [done|]. rewrite fmap_cons, !filter_cons, IH. simpl. by destruct (admitted_id j). Qed.

Lemma same_page_query m1 m2 c ids :
  same_page m1 m2 ->
  same_page (flags_from m1 (admitted ((fun j => (j, c)) <$> owner_ids ids after excluding)))
    (flags_from m2 (admitted ((fun j => (j, c)) <$> distinct_ids ids))).
Proof.
  intros (H1 & H2 & E). rewrite !admitted_query. split_and!; [by apply flags_from_sorted..|].
  assert (owner_ids ids after excluding = take N (filter (fun j => admitted_id j = true) (distinct_ids ids))) as ->.
  { unfold owner_ids. f_equal. apply list_filter_iff. intros j. unfold admitted_id.
    by rewrite andb_true_iff, negb_true_iff, bool_decide_eq_false. }
  rewrite filter_all.
  - rewrite (flags_from_take _ _ _ _ E). symmetry. apply flags_from_query; [done|].
    apply StronglySorted_filter, distinct_ids_sorted.
  - intros j Hj. apply elem_of_take in Hj as (i & Hj & _). apply list_elem_of_lookup_2 in Hj.
    by apply list_elem_of_filter in Hj as [? _].
Qed.

Lemma flags_from_app m l1 l2 : flags_from m (l1 ++ l2) = flags_from (flags_from m l1) l2.
Proof. apply foldl_app. Qed.

Lemma same_page_candidates b exact pre db m1 m2 :
  same_page m1 m2 ->
  same_page (flags_from m1 (admitted (conflict_candidates b exact pre excluding after db)))
    (flags_from m2 (admitted (all_candidates b exact pre db))).
Proof.
  unfold conflict_candidates, all_candidates. rewrite !filter_app, !flags_from_app. revert m1 m2.
  induction exact as [|[k o] exact IH]; intros m1 m2 Hm.
  - simpl. destruct pre as [pre|]; [|done]. simpl. rewrite !filter_app, !flags_from_app.
    by apply same_page_query, same_page_query.
  - cbn [mbind list_bind]. rewrite !filter_app, !flags_from_app. apply IH.
    by apply same_page_insert, same_page_query.
Qed.

(** One round sees the first page of the conflicting jobs beyond its cursor. *)
Lemma conflict_page b exact pre db :
  foldl (insert_conflicting_job after excluding) [] (conflict_candidates b exact pre excluding after db)
  = take N (rows_after fst (conflict_rows b exact pre excluding) after db).
Proof.
  rewrite (conflict_fold _ []). destruct (same_page_candidates b exact pre db [] []) as (_ & _ & ->);
    [split_and!; [constructor..|done]|]. f_equal.
  unfold rows_after, conflict_rows, beyond.
  rewrite (flags_filter (fun j => is_none_or (fun a => lt_b a j) after)), list_filter_filter. f_equal.
  apply list_filter_iff. intros e. unfold admitted_id. by rewrite andb_true_iff.
Qed.
End page.

(** ** Superseding a job *)

(** What ending job [j] may change: its own row, its destinations, which lose their owner, and its
    claims and targets. *)
Definition owner_released (j : string) (d d' : Destination) : Prop :=
  de_owner_job_id d = Some j /\ de_owner_job_id d' = None /\ de_generation d <= de_generation d'
  /\ de_mutation_id d' = de_mutation_id d /\ de_mutation_prefix d' = de_mutation_prefix d.

Record released (j : string) (db db' : ImportDb) : Prop := {
  rl_jobs : forall i, i <> j -> im_jobs db' !! i = im_jobs db !! i;
  rl_active : job_active db' j = true -> job_active db j = true;
  rl_dests : forall k, im_dests db' !! k = im_dests db !! k
    \/ exists d d', im_dests db !! k = Some d /\ im_dests db' !! k = Some d' /\ owner_released j d d';
  rl_claims : forall c, c.1.1 <> j -> im_claims db' !! c = im_claims db !! c;
  rl_fewer_claims : forall c, is_Some (im_claims db' !! c) -> is_Some (im_claims db !! c);
  rl_leases : im_leases db' = im_leases db }.

#[export] Instance released_preorder j : PreOrder (released j).
Proof.
  split; [intros db; split; auto|]. intros db1 db2 db3 [J1 A1 D1 C1 F1 L1] [J2 A2 D2 C2 F2 L2]. split; auto.
  - intros i Hi. by rewrite J2, J1.
  - intros k. destruct (D2 k) as [E2|(d & d' & Hd & Hd' & R)].
    + rewrite E2. apply D1.
    + right. exists d, d'. destruct (D1 k) as [E1|(e & e' & He & He' & R1)]; [by rewrite <- E1|].
      rewrite Hd in He'. injection He' as ->. unfold owner_released in *. intuition congruence.
  - intros c Hc. by rewrite C2, C1.
  - congruence.
Qed.

Lemma next_generation_ok d g : next_generation d = Ok g -> g = de_generation d + 1.
Proof. unfold next_generation, i64_checked_add. destruct (fits_i64 _); simpl; congruence. Qed.

Lemma release_destination_ok j inv now kd db u db' :
  release_destination j inv now kd db = Ok (u, db') ->
  db' = db \/ exists d d', im_dests db !! kd.1 = Some d /\ (kd.2 = d -> owner_released j d d')
    /\ db' = set_dests <[kd.1 := d']> db /\ import_constraints db'.
Proof.
  unfold release_destination. destruct kd as [k d0]. simpl. intros E.
  apply t_bind_ok in E as (bump & s1 & [Eb ->]%t_lift_ok & E). t_inv E.
  match goal with Hu : update_dest _ _ _ _ = Ok _ |- _ => apply update_dest_ok in Hu end.
  match goal with Hu : _ \/ _ |- _ => destruct Hu as [(d1 & Hd & Ho & -> & -> & Hc)|(_ & -> & ->)] end; [|by left].
  right. apply bool_decide_eq_true in Ho. eexists d1, _. split_and!; [done| |done|done].
  intros ->. unfold owner_released. destruct bump as [g|]; simpl; [|split_and!; done || lia].
  destruct (is_some_and _ _); [|done]. destruct (next_generation d1) as [g'|] eqn:Eg; [|done].
  injection Eb as ->. apply next_generation_ok in Eg. split_and!; done || lia.
Qed.

(** The relations that keep the constraints. *)
Definition safely (R : relation ImportDb) : relation ImportDb :=
  fun db db' => R db db' /\ (import_constraints db -> import_constraints db').

#[export] Instance safely_preorder R `{!PreOrder R} : PreOrder (safely R).
Proof.
  split; [by split|]. intros db1 db2 db3 [H1 C1] [H2 C2]. split; [by transitivity db2|auto].
Qed.

Lemma release_ok j inv now db u db' :
  release_job_ownership_with_invalidation j inv now db = Ok (u, db') -> safely (released j) db db'.
Proof.
  unfold release_job_ownership_with_invalidation. intros E.
  apply t_bind_ok in E as (fuel & s0 & [-> ->]%t_reads_ok & E). apply t_bind_ok in E as (n & s1 & E1 & E). t_inv E.
  transitivity s1.
  - eapply (keyset_loop_rows fst (owned_rows j)) with (Q := safely (released j)); [..|exact E1].
    + apply batch_prefix.
    + apply batch_nonempty.
    + intros s. apply table_rows_sorted.
    + intros kd s s' Es _. apply release_destination_ok in Es as [->|(d & d' & _ & _ & -> & _)]; [done|].
      apply table_rows_local. intros k' Hne. simpl. by rewrite lookup_insert_ne.
    + apply _.
    + intros kd s s' [Hk _]%elem_of_table_rows Es.
      apply release_destination_ok in Es as [->|(d & d' & Hd & R & -> & Hc)]; [done|].
      split; [|done]. split; try done. intros k. simpl. destruct (decide (k = kd.1)) as [->|Hne].
      * right. exists d, d'. split_and!; [done|by rewrite lookup_insert_eq|]. apply R. congruence.
      * left. by rewrite lookup_insert_ne.
    + unfold rows_after. rewrite filter_all by done. lia.
  - split; [|done]. split; simpl; try done; auto.
    + intros c Hc. rewrite map_lookup_filter. destruct (im_claims s1 !! c); simpl; [|done].
      by rewrite option_guard_True.
    + intros c [z Hz]. apply map_lookup_filter_Some in Hz as [? _]. eauto.
Qed.

Lemma supersede_ok j inv now db u db' :
  supersede_job_with_destination_invalidation j inv now db = Ok (u, db') ->
  safely (released j) db db' /\ job_active db' j = false.
Proof.
  unfold supersede_job_with_destination_invalidation. intros E. apply t_bind_ok in E as (row & s0 & E0 & E).
  assert (row = im_jobs db !! j /\ s0 = db) as [-> ->] by (unfold find_job_for_update, job_row in E0; by t_inv E0).
  apply t_bind_ok in E as (job & s0 & [Hj ->]%t_some_ok & E).
  destruct (active_state (ij_state job)) eqn:Ha; simpl in E.
  - apply t_bind_ok in E as (updated & s1 & Eu & E). t_inv E. apply release_ok in E.
    apply update_job_ok in Eu as [(job1 & Hj1 & _ & -> & -> & Hc)|(_ & -> & _)]; [|done].
    assert (safely (released j) db (set_jobs <[j:=superseded_job now job1]> db)) as Hs.
    { split; [|done]. split; simpl; auto.
      - intros i Hi. by rewrite lookup_insert_ne.
      - unfold job_active. simpl. rewrite lookup_insert_eq. done. }
    split; [by etransitivity|]. destruct E as [[_ Hact _ _ _ _] _].
    destruct (job_active db' j); [|done]. specialize (Hact eq_refl). unfold job_active in Hact. simpl in Hact.
    rewrite lookup_insert_eq in Hact. done.
  - t_inv E. split; [done|]. unfold job_active. by rewrite Hj.
Qed.

Lemma supersede_conflict_ok b pre now jf db u db' :
  supersede_conflict b pre now jf db = Ok (u, db') ->
  safely (released jf.1) db db' /\ job_active db' jf.1 = false.
Proof.
  unfold supersede_conflict. destruct jf as [j f]. intros E. t_inv E. by eapply supersede_ok.
Qed.

(** ** All the conflicting jobs are superseded *)

Lemma elem_of_claim_jobs b p db j :
  j ∈ claim_jobs b p db <->
  job_active db j = true /\ exists c, is_Some (im_claims db !! (j, b, c)) /\ p c = true.
Proof.
  unfold claim_jobs. rewrite list_elem_of_omap. split.
  - intros ([[[i b'] c] z] & Hin & E). apply elem_of_map_to_list in Hin. simpl in E.
    destruct (bool_decide_reflect (b' = b)) as [->|]; [|done]. simpl in E.
    destruct (job_active db i) eqn:Ha, (p c) eqn:Hp; try done. injection E as <-. eauto.
  - intros (Ha & c & [z Hz] & Hp). exists (j, b, c, z). split; [by apply elem_of_map_to_list|]. simpl.
    by rewrite bool_decide_true, Ha, Hp by done.
Qed.

Lemma elem_of_dest_jobs b pre db j :
  j ∈ dest_jobs b pre db <->
  job_active db j = true
  /\ exists k d, im_dests db !! (b, k) = Some d /\ de_owner_job_id d = Some j /\ starts_with pre k = true.
Proof.
  unfold dest_jobs. rewrite list_elem_of_omap. split.
  - intros ([[b' k] d] & Hin & E). apply elem_of_map_to_list in Hin. simpl in E.
    destruct (de_owner_job_id d) as [i|] eqn:Ho; [|done]. simpl in E.
    destruct (bool_decide_reflect (b' = b)) as [->|]; [|done]. simpl in E.
    destruct (job_active db i) eqn:Ha, (starts_with pre k) eqn:Hp; try done. injection E as <-. eauto 10.
  - intros (Ha & k & d & Hd & Ho & Hp). exists ((b, k), d). split; [by apply elem_of_map_to_list|]. simpl.
    rewrite Ho. simpl. by rewrite bool_decide_true, Ha, Hp by done.
Qed.

Lemma elem_of_all_candidates b exact pre db j f :
  (j, f) ∈ all_candidates b exact pre db <->
  (f = false /\ exists k o, ((k, o) ∈ exact)
     /\ ((j ∈ claim_jobs b (fun p => starts_with p k) db) \/ o = Some j))
  \/ (f = true /\ exists p, pre = Some p
     /\ ((j ∈ claim_jobs b (fun c => starts_with c p || starts_with p c) db) \/ j ∈ dest_jobs b p db)).
Proof.
  assert (forall (c : bool) l, (j, f) ∈ ((fun i => (i, c)) <$> distinct_ids l) <-> f = c /\ j ∈ l) as Hq.
  { intros c l. rewrite list_elem_of_fmap. setoid_rewrite elem_of_distinct_ids. naive_solver. }
  unfold all_candidates. rewrite elem_of_app, list_elem_of_bind. f_equiv.
  - split.
    + intros ([k o] & [[-> Hc]%Hq|Hin]%elem_of_app & Hko); simpl in *; [split; [done|]; exists k, o; auto|].
      destruct o as [i|]; simpl in Hin; [|by apply not_elem_of_nil in Hin].
      apply list_elem_of_singleton in Hin as [= -> ->]. split; [done|]. exists k, (Some i). auto.
    + intros (-> & k & o & Hko & Hor). exists (k, o). split; [|done]. rewrite elem_of_app, Hq.
      destruct Hor as [Hc| ->]; [by left|right]. simpl. by apply list_elem_of_singleton.
  - destruct pre as [p|]; simpl; [|split; [by intros ?%not_elem_of_nil|naive_solver]].
    rewrite elem_of_app, !Hq. naive_solver.
Qed.

(** Ending [j] does not make another job conflict, or stop conflicting. *)
Lemma released_active j db db' i : released j db db' -> i <> j -> job_active db' i = job_active db i.
Proof. intros [J _ _ _ _ _] Hi. unfold job_active. by rewrite J. Qed.

Lemma released_candidates j b exact pre db db' i f :
  released j db db' -> i <> j ->
  (i, f) ∈ all_candidates b exact pre db' <-> (i, f) ∈ all_candidates b exact pre db.
Proof.
  intros R Hi. pose proof (released_active _ _ _ _ R Hi) as Ha. destruct R as [_ _ D C _ _].
  assert (forall p, i ∈ claim_jobs b p db' <-> i ∈ claim_jobs b p db) as Hc.
  { intros p. rewrite !elem_of_claim_jobs, Ha. f_equiv. f_equiv. intros c. by rewrite C. }
  assert (forall p, i ∈ dest_jobs b p db' <-> i ∈ dest_jobs b p db) as Hd.
  { intros p. rewrite !elem_of_dest_jobs, Ha. f_equiv. f_equiv. intros k.
    destruct (D (b, k)) as [->|(d & d' & -> & -> & Ho & Ho' & _)]; [done|]. split; intros (e & [= <-] & He & _); congruence. }
  rewrite !elem_of_all_candidates. setoid_rewrite Hc. setoid_rewrite Hd. done.
Qed.

Lemma length_omap_le {A B} (f : A -> option B) (l : list A) : (length (omap f l) <= length l)%nat.
Proof. induction l as [|x l IH]; [done|]. csimpl. destruct (f x); csimpl; lia. Qed.

Section supersede.
Variables (b : string) (exact : list (string * option string)) (pre excluding : option string) (now : Z).
#[local] Abbreviation rows := (conflict_rows b exact pre excluding).

Lemma supersede_local jf s s' :
  supersede_conflict b pre now jf s = Ok (tt, s') -> rows_after fst rows (Some jf.1) s' = rows_after fst rows (Some jf.1) s.
Proof.
  intros [[R _] _]%supersede_conflict_ok. apply (strictly_sorted_ext fst).
  1,2: apply StronglySorted_filter, conflict_rows_sorted.
  intros [i f]. unfold rows_after. rewrite !list_elem_of_filter, !elem_of_conflict_rows. unfold beyond. simpl.
  rewrite lt_b_true. destruct (decide (i = jf.1)) as [->|Hi]; [rewrite cmp_refl; intuition discriminate|].
  assert (forall g, (i, g) ∈ all_candidates b exact pre s' <-> (i, g) ∈ all_candidates b exact pre s) as Hg.
  { intros g. by eapply released_candidates. }
  rewrite (bool_decide_ext _ _ (Hg true)), !list_elem_of_fmap. do 2 f_equiv. f_equiv.
  split; intros ([i' g] & -> & Hin); exists (i', g); split; try done; by apply Hg.
Qed.

Lemma conflict_rows_length s : (length (rows s) <= size (im_jobs s) + length exact)%nat.
Proof.
  assert (forall j, job_active s j = true -> j ∈ elements (dom (im_jobs s))) as Hdom.
  { intros j Hj. apply elem_of_elements, elem_of_dom. unfold job_active in Hj. destruct (im_jobs s !! j); [eauto|done]. }
  pose proof (length_omap_le snd exact) as Ho.
  rewrite <- (length_fmap fst (rows s)).
  transitivity (length (elements (dom (im_jobs s)) ++ omap snd exact)).
  - apply submseteq_length, NoDup_submseteq.
    + apply (StronglySorted_NoDup (key_lt (fun j : string => j))); [apply key_lt_irrefl|].
      eapply StronglySorted_fmap; [|apply conflict_rows_sorted]. done.
    + intros i ([i' f] & -> & (_ & ([j g] & Ej & Hc)%list_elem_of_fmap & _)%elem_of_conflict_rows)%list_elem_of_fmap.
      simpl in Ej |- *. subst i'. apply elem_of_app. apply elem_of_all_candidates in Hc as [(_ & k & o & Hko & [[Ha _]%elem_of_claim_jobs| ->])|
        (_ & p & _ & [[Ha _]%elem_of_claim_jobs|[Ha _]%elem_of_dest_jobs])]; auto.
      right. apply list_elem_of_omap. by exists (k, Some j).
  - rewrite length_app, <- size_dom. unfold size, set_size. simpl. lia.
Qed.

Lemma supersede_loop_keyset fuel after s :
  supersede_loop fuel b exact pre excluding now after s
  = t_bind (keyset_loop fst rows (take OWNERSHIP_BATCH_SIZE) (supersede_conflict b pre now) fuel after)
      (fun _ => t_ret tt) s.
Proof.
  revert after s. induction fuel as [|fuel IH]; intros after s; [done|]. cbn [supersede_loop keyset_loop].
  unfold t_bind, t_reads. cbn [rbind]. rewrite conflict_page.
  destruct (last (take _ _)) as [[j f]|]; [|done].
  destruct (t_each _ _ s) as [[[] s1]|e]; cbn [rbind]; [|done]. rewrite IH. unfold t_bind. simpl.
  by destruct (keyset_loop _ _ _ _ _ _ s1) as [[n s2]|e].
Qed.

(** The pages, each gathered from truncated queries, amount to one pass over all the conflicting jobs
    in the order of their ids. *)
Lemma supersede_conflicts_pass s :
  supersede_conflicts_in_order b exact pre excluding now s = t_each (supersede_conflict b pre now) (rows s) s.
Proof.
  unfold supersede_conflicts_in_order. unfold t_bind at 1, t_reads. cbn [rbind].
  rewrite supersede_loop_keyset. unfold t_bind at 1. rewrite (keyset_loop_spec fst rows).
  - unfold rows_after, t_bind. rewrite filter_all by done. by destruct (t_each _ _ s) as [[[] ?]|].
  - apply batch_prefix.
  - apply batch_nonempty.
  - apply conflict_rows_sorted.
  - intros jf s1 s2 E _. by apply supersede_local.
  - unfold rows_after. rewrite filter_all by done. pose proof (conflict_rows_length s). lia.
Qed.
End supersede.

(** C26: The superseding loop, whose pages merge several truncated queries into a bounded map, ends every
    conflicting job exactly once, in the order of their ids, as one pass over one unlimited query
    would.  The conflicting jobs, other than the excluded one, are the owners read with the exact
    keys, the active jobs with a claim on a prefix of an exact key, and, for a prefix, the active jobs
    with a comparable claim or with a destination under it. *)
Theorem superseded_in_one_pass b exact pre excluding now s :
  supersede_conflicts_in_order b exact pre excluding now s
    = t_each (supersede_conflict b pre now) (conflict_rows b exact pre excluding s) s
  /\ StronglySorted (key_lt fst) (conflict_rows b exact pre excluding s)
  /\ forall j, (exists f, (j, f) ∈ conflict_rows b exact pre excluding s) <->
       excluding <> Some j
       /\ ((exists k o, ((k, o) ∈ exact)
              /\ (o = Some j \/ job_active s j = true
                                /\ exists c, is_Some (im_claims s !! (j, b, c)) /\ starts_with c k = true))
           \/ exists p, pre = Some p /\ job_active s j = true
              /\ ((exists c, is_Some (im_claims s !! (j, b, c)) /\ starts_with c p || starts_with p c = true)
                  \/ exists k d, im_dests s !! (b, k) = Some d /\ de_owner_job_id d = Some j /\ starts_with p k = true)).
Proof.
  split; [apply supersede_conflicts_pass|]. split; [apply conflict_rows_sorted|]. intros j.
  setoid_rewrite elem_of_conflict_rows. setoid_rewrite list_elem_of_fmap. split.
  - intros (f & He & ([j' g] & -> & Hc) & _). split; [done|]. apply elem_of_all_candidates in Hc.
    setoid_rewrite elem_of_claim_jobs in Hc. setoid_rewrite elem_of_dest_jobs in Hc. simpl in *. naive_solver.
  - intros [He Hc]. eexists. split; [done|]. split; [|reflexivity].
    assert (exists g, (j, g) ∈ all_candidates b exact pre s) as [g Hg]; [|by exists (j, g)].
    setoid_rewrite elem_of_all_candidates. setoid_rewrite elem_of_claim_jobs. setoid_rewrite elem_of_dest_jobs.
    destruct Hc as [Hc|Hc]; [exists false; left|exists true; right]; naive_solver.
Qed.

(** ** Recovery of expired leases *)

Lemma constraints_dest k d d' db :
  import_constraints db -> im_dests db !! k = Some d -> de_generation d <= de_generation d' ->
  de_owner_job_id d' = de_owner_job_id d -> import_constraints (set_dests <[k := d']> db).
Proof.
  intros (CJ & CT & CD & CC & CG & CL) Hd Hg Ho. unfold import_constraints. simpl. split_and!; try done.
  - apply map_Forall_insert_2; [|done]. destruct (CD k d Hd) as (Hb & H1 & Hj). rewrite Ho. split_and!; [done|lia|done].
  - intros k' l Hl. destruct (decide (k' = k)) as [->|Hne]; [rewrite lookup_insert_eq; eauto|].
    rewrite lookup_insert_ne by done. by eapply CL.
Qed.

Lemma constraints_leases (P : DestKey * MutationLeaseRow -> Prop) `{forall kl, Decision (P kl)} db :
  import_constraints db -> import_constraints (set_leases (filter P) db).
Proof.
  intros (CJ & CT & CD & CC & CG & CL). unfold import_constraints. simpl. split_and!; try done.
  intros k l [Hl _]%map_lookup_filter_Some. by eapply CL.
Qed.

Lemma delete_lease (g : StandardMutationGuard) (l : MutationLeaseRow) (m : gmap DestKey MutationLeaseRow) :
  m !! guard_key g = Some l -> lease_identity g l = true ->
  filter (fun kl => ~ (kl.1 = guard_key g /\ lease_identity g kl.2 = true)) m = delete (guard_key g) m.
Proof.
  intros Hl Hi. apply map_eq. intros k. rewrite map_lookup_filter. destruct (decide (k = guard_key g)) as [->|Hne].
  - rewrite lookup_delete_eq, Hl. simpl. by rewrite option_guard_False by (simpl; tauto).
  - rewrite lookup_delete_ne by done. destruct (m !! k) as [l'|]; [|done]. simpl.
    by rewrite option_guard_True by (simpl; tauto).
Qed.

(** Clearing the token of a destination cannot fail. *)
Lemma clear_token_total k p now db :
  import_constraints db ->
  exists r db', update_dest k p (with_token None None now) db = Ok (r, db') /\ import_constraints db'
    /\ im_leases db' = im_leases db /\ forall k', k' <> k -> im_dests db' !! k' = im_dests db !! k'.
Proof.
  intros C. destruct (from_option p false (im_dests db !! k)) eqn:Hp.
  2: { exists false, db. split; [|done]. apply update_dest_ok. by right. }
  destruct (im_dests db !! k) as [d|] eqn:Hd; [|done]. simpl in Hp.
  assert (import_constraints (set_dests <[k := with_token None None now d]> db)) as C1 by (by apply (constraints_dest _ d)).
  exists true, (set_dests <[k := with_token None None now d]> db).
  split; [apply update_dest_ok; left; exists d; by split_and!|]. split_and!; [done..|].
  intros k' Hk'. simpl. by rewrite lookup_insert_ne.
Qed.

(** Releasing an expired lease cannot fail: it removes the lease and at most clears a token. *)
Lemma release_expired_total clk kl db :
  import_constraints db -> im_leases db !! kl.1 = Some kl.2 ->
  exists db', release_expired clk kl db = Ok (tt, db') /\ import_constraints db'
    /\ im_leases db' = delete kl.1 (im_leases db)
    /\ forall k, k <> kl.1 -> im_dests db' !! k = im_dests db !! k.
Proof.
  intros C Hl. unfold release_expired, release_standard_mutation_in_transaction, clear_standard_mutation_in_transaction.
  set (g := {| mg_bucket := _ |}). assert (guard_key g = kl.1) as Hk by (by destruct kl as [[]]).
  rewrite <- Hk in *. unfold t_bind, t_reads. cbn [rbind].
  match goal with |- context [update_dest _ ?p _ _] => destruct (clear_token_total (guard_key g) p clk db C)
    as (r & db1 & -> & C1 & L1 & D1) end. cbn [rbind].
  assert (lease_identity g kl.2 = true) as Hi.
  { unfold lease_identity. simpl. by rewrite String.eqb_refl, Z.eqb_refl. }
  pose proof (delete_lease g kl.2 (im_leases db1)) as Hdel. rewrite L1 in Hdel. specialize (Hdel Hl Hi).
  unfold t_exec. rewrite decide_True by (by apply constraints_leases). eexists. split; [reflexivity|].
  split; [by apply constraints_leases|]. split; [simpl; by rewrite L1|done].
Qed.

Lemma release_expired_each clk p db :
  import_constraints db -> NoDup p.*1 -> (forall kl, kl ∈ p -> im_leases db !! kl.1 = Some kl.2) ->
  exists db', t_each (release_expired clk) p db = Ok (tt, db') /\ import_constraints db'
    /\ forall k, im_leases db' !! k = (if decide (k ∈ p.*1) then None else im_leases db !! k)
        /\ (k ∉ p.*1 -> im_dests db' !! k = im_dests db !! k).
Proof.
  revert db. induction p as [|kl p IH]; intros db C Hn Hin.
  { exists db. split; [done|]. split; [done|]. intros k. by destruct (decide _) as [?%not_elem_of_nil|]. }
  rewrite fmap_cons in Hn. apply NoDup_cons in Hn as [Hk Hn].
  destruct (release_expired_total clk kl db C) as (db1 & E1 & C1 & L1 & D1); [apply Hin; left|].
  destruct (IH db1 C1 Hn) as (db2 & E2 & C2 & H2).
  { intros kl' Hkl'. rewrite L1, lookup_delete_ne; [apply Hin; by right|]. intros E. apply Hk. rewrite E.
    by apply list_elem_of_fmap_2. }
  exists db2. split; [simpl; unfold t_bind; by rewrite E1|]. split; [done|]. intros k. destruct (H2 k) as [HL HD].
  rewrite HL, L1, fmap_cons. split.
  - destruct (decide (k ∈ p.*1)) as [Hp|Hp], (decide (k ∈ kl.1 :: p.*1)) as [Hc|Hc]; try done.
    + exfalso. apply Hc. by right.
    + apply elem_of_cons in Hc as [->|]; [by rewrite lookup_delete_eq|done].
    + apply not_elem_of_cons in Hc as [Hne _]. by rewrite lookup_delete_ne.
  - intros [Hne Hp]%not_elem_of_cons. by rewrite HD, D1.
Qed.

Lemma recover_loop_total b clock fuel i db :
  import_constraints db -> (size (im_leases db) < fuel)%nat ->
  exists db' n, recover_loop fuel b clock i db = Ok (tt, db') /\ import_constraints db'
    /\ (n <= size (im_leases db))%nat /\ expired_leases b (clock (2 * (i + n))%nat) db' = []
    /\ forall k l, im_leases db !! k = Some l -> (k.1 = b -> forall m, clock m < ml_lease_until l) ->
         im_leases db' !! k = Some l /\ im_dests db' !! k = im_dests db !! k.
Proof.
  revert i db. induction fuel as [|fuel IH]; intros i db C Hf; [lia|]. cbn [recover_loop].
  set (p := take OWNERSHIP_BATCH_SIZE (expired_leases b (clock (2 * i)%nat) db)).
  destruct (decide (p = [])) as [Hp|Hp].
  { exists db, 0%nat. unfold t_bind, t_reads. cbn [rbind]. fold p. rewrite Hp, Nat.add_0_r.
    split_and!; [done|done|lia| |done]. unfold p in Hp. by destruct (expired_leases b _ db). }
  assert (forall kl, kl ∈ p -> kl ∈ expired_leases b (clock (2 * i)%nat) db) as Hsub.
  { intros kl (m & Hm & _)%elem_of_take. by eapply list_elem_of_lookup_2. }
  assert (NoDup p.*1) as Hn.
  { eapply sublist_NoDup; [|apply fmap_sublist, sublist_take].
    apply (StronglySorted_NoDup (key_lt (fun k : DestKey => k))); [apply key_lt_irrefl|].
    by eapply StronglySorted_fmap; [|apply table_rows_sorted]. }
  destruct (release_expired_each (clock (2 * i + 1)%nat) p db C Hn) as (db1 & E1 & C1 & H1).
  { by intros kl [? _]%Hsub%elem_of_table_rows. }
  assert (size (im_leases db1) < size (im_leases db))%nat as Hsz.
  { apply map_subset_size. destruct p as [|kl p']; [done|]. apply map_subset_alt. split.
    - apply map_subseteq_spec. intros k l. destruct (H1 k) as [-> _]. by destruct (decide _).
    - exists kl.1. destruct (H1 kl.1) as [-> _]. rewrite decide_True by left. split; [done|].
      pose proof (Hsub kl ltac:(left)) as [Hl _]%elem_of_table_rows. by rewrite Hl. }
  destruct (IH (S i) db1 C1) as (db2 & n & E2 & C2 & Hle & Hex & Hkeep); [lia|].
  exists db2, (S n). split.
  { unfold t_bind, t_reads. cbn [rbind]. fold p. destruct p; [done|]. by rewrite E1. }
  replace (i + S n)%nat with (S i + n)%nat by lia. split_and!; [done|lia|done|].
  intros k l Hl Hlive. assert (k ∉ p.*1) as Hk.
  { intros ([k' l'] & -> & Hin)%list_elem_of_fmap. apply Hsub, elem_of_table_rows in Hin as (Hl' & Hb & Hu). simpl in *.
    rewrite Hl in Hl'. injection Hl' as <-. specialize (Hlive Hb (2 * i)%nat). simpl in Hlive. lia. }
  destruct (H1 k) as [HL HD]. rewrite decide_False in HL by done. rewrite <- (HD Hk). apply Hkeep; [by rewrite HL|done].
Qed.

(** C27: Recovering the expired leases of a bucket always ends, without failing, after at most one round
    per lease: the last query of the clock then finds none of them expired, and a lease of another
    bucket, or that no reading of the clock found expired, is left alone with its token. *)
Theorem recovery_terminates b clock db :
  import_constraints db ->
  exists db' n, recover_expired_mutations_in_transaction b clock db = Ok (tt, db')
    /\ (n <= size (im_leases db))%nat /\ expired_leases b (clock (2 * n)%nat) db' = []
    /\ forall k l, im_leases db !! k = Some l -> (k.1 = b -> forall m, clock m < ml_lease_until l) ->
         im_leases db' !! k = Some l /\ im_dests db' !! k = im_dests db !! k.
Proof.
  intros C. destruct (recover_loop_total b clock (S (size (im_leases db))) 0 db C) as (db' & n & E & _ & Hn & Hx & Hk); [lia|].
  exists db', n. split; [|done]. unfold recover_expired_mutations_in_transaction. unfold t_bind, t_reads. cbn [rbind]. by rewrite E.
Qed.
