(* ===== verification/OwnershipChanges.v ===== *)
(** * Changes of the ownership tables

    Every transaction of the ownership store is a sequence of small changes: some only take
    authority away, the others hand it out on a region that nobody else may write.  This file
    defines who may write a key, the changes, what they preserve, and shows that the operations that
    renew, release, retry, complete or clean up only take authority away. *)

From Stdlib Require Import ZArith Lia Ascii.
From stdpp Require Import base list strings sorting pretty gmap relations.
From S2P Require Import Prelude Errors Database Transaction ImportDb ImportJobs Ownership OwnershipLoops.

#[local] Open Scope string_scope.
#[local] Open Scope list_scope.
#[local] Open Scope Z_scope.

(** ** Who may write a key *)

(** An import job, or the holder of the token on a destination. *)
Inductive Writer : Type := Import (job : string) | Token (bucket key : string).

Definition token_covers (key : string) (d : Destination) (x : string) : Prop :=
  is_Some (de_mutation_id d) /\ (x = key \/ exists p, de_mutation_prefix d = Some p /\ starts_with p x = true).

Definition covers (db : ImportDb) (w : Writer) (b x : string) : Prop :=
  match w with
  | Import j =>
    job_active db j = true
    /\ ((exists d, im_dests db !! (b, x) = Some d /\ de_owner_job_id d = Some j)
        \/ exists p, is_Some (im_claims db !! (j, b, p)) /\ starts_with p x = true)
  | Token b' k => b' = b /\ exists d, im_dests db !! (b, k) = Some d /\ token_covers k d x
  end.

Definition single_writer (db : ImportDb) : Prop :=
  forall b x w1 w2, covers db w1 b x -> covers db w2 b x -> w1 = w2.

(** A destination has an owner or a token. *)
Definition owner_or_token (db : ImportDb) : Prop :=
  map_Forall (fun _ d => de_owner_job_id d = None \/ de_mutation_id d = None) (im_dests db).

(** ** Changes *)

Definition weaker_dest (d d' : Destination) : Prop :=
  de_generation d <= de_generation d'
  /\ (de_owner_job_id d' = None \/ de_owner_job_id d' = de_owner_job_id d)
  /\ (de_mutation_id d' = None
      \/ de_mutation_id d' = de_mutation_id d /\ de_mutation_prefix d' = de_mutation_prefix d).

(** A lease keeps its identity, and is extended only while it is active. *)
Definition weaker_lease (lo : Z) (l l' : MutationLeaseRow) : Prop :=
  ml_mutation_id l' = ml_mutation_id l /\ ml_generation l' = ml_generation l
  /\ (ml_lease_until l' = ml_lease_until l \/ lo < ml_lease_until l).

(** Nobody gains authority. *)
Record shrinks (lo : Z) (db db' : ImportDb) : Prop := {
  sh_active : forall j, job_active db' j = true -> job_active db j = true;
  sh_dests : forall k d', im_dests db' !! k = Some d' -> exists d, im_dests db !! k = Some d /\ weaker_dest d d';
  sh_keeps : forall k, is_Some (im_dests db !! k) -> is_Some (im_dests db' !! k);
  sh_claims : forall c, is_Some (im_claims db' !! c) -> is_Some (im_claims db !! c);
  sh_leases : forall k l', im_leases db' !! k = Some l' ->
    exists l, im_leases db !! k = Some l /\ weaker_lease lo l l' }.

#[export] Instance weaker_dest_preorder : PreOrder weaker_dest.
Proof.
  split; [intros d; unfold weaker_dest; intuition lia|].
  intros d1 d2 d3 (G1 & O1 & M1) (G2 & O2 & M2). unfold weaker_dest. split_and!; [lia|intuition congruence..].
Qed.

#[export] Instance weaker_lease_preorder lo : PreOrder (weaker_lease lo).
Proof.
  split; [intros l; unfold weaker_lease; auto|].
  intros l1 l2 l3 (I1 & G1 & U1) (I2 & G2 & U2). unfold weaker_lease. split_and!; [congruence..|].
  destruct U1, U2; lia.
Qed.

#[export] Instance shrinks_preorder lo : PreOrder (shrinks lo).
Proof.
  split; [intros db; split; eauto; [intros k d' H; exists d'; by split|intros k l' H; exists l'; by split]|].
  intros db1 db2 db3 [A1 D1 K1 C1 L1] [A2 D2 K2 C2 L2]. split; auto.
  - intros k d3 (d2 & (d1 & ? & ?)%D1 & ?)%D2. exists d1. split; [done|by etransitivity].
  - intros k l3 (l2 & (l1 & ? & ?)%L1 & ?)%L2. exists l1. split; [done|by etransitivity].
Qed.

Lemma shrinks_covers lo db db' w b x : shrinks lo db db' -> covers db' w b x -> covers db w b x.
Proof.
  intros [A D _ C _]. destruct w as [j|b' k]; simpl.
  - intros [Ha [(d' & (d & Hd & _ & [Ho|Ho] & _)%D & Hj)|(p & Hp & Hs)]]; [congruence|..]; (split; [by apply A|]).
    + left. exists d. split; [done|congruence].
    + right. exists p. split; [by apply C|done].
  - intros (-> & d' & (d & Hd & _ & _ & [Hm|[Hm Hp]])%D & [[t Ht] Hc]); [congruence|].
    split; [done|]. exists d. split; [done|]. unfold token_covers. rewrite <- Hm, <- Hp. eauto.
Qed.

(** *** Grants *)

Definition fresher (d' : Destination) (o : option Destination) : Prop :=
  match o with Some d => de_generation d < de_generation d' | None => True end.

(** The changes of a transaction whose readings of the clock are at or after [lo], that issues the
    tokens [rotated] for existing guards and drops the buckets [dropped]. *)
Inductive own_change (lo : Z) (rotated dropped : list string) (db : ImportDb) : ImportDb -> Prop :=
| oc_shrinks db' : shrinks lo db db' -> own_change lo rotated dropped db db'
| oc_job id job :
    im_jobs db !! id = None ->
    (forall k d, im_dests db !! k = Some d -> de_owner_job_id d <> Some id) ->
    (forall c, is_Some (im_claims db !! c) -> c.1.1 <> id) ->
    own_change lo rotated dropped db (set_jobs <[id := job]> db)
| oc_own j b k d' :
    fresher d' (im_dests db !! (b, k)) -> de_owner_job_id d' = Some j -> de_mutation_id d' = None ->
    (forall w, covers db w b k -> w = Import j) ->
    own_change lo rotated dropped db (set_dests <[(b, k) := d']> db)
| oc_token b k d' l :
    fresher d' (im_dests db !! (b, k)) -> de_owner_job_id d' = None ->
    (forall x w, token_covers k d' x -> covers db w b x -> w = Token b k) ->
    own_change lo rotated dropped db (set_leases <[(b, k) := l]> (set_dests <[(b, k) := d']> db))
| oc_claim j b p order :
    (forall x w, starts_with p x = true -> covers db w b x -> w = Import j) ->
    own_change lo rotated dropped db (set_claims <[(j, b, p) := order]> db)
| oc_rotate k d d' l :
    im_dests db !! k = Some d -> is_Some (de_mutation_id d) -> de_generation d' = de_generation d ->
    de_owner_job_id d' = de_owner_job_id d -> de_mutation_prefix d' = de_mutation_prefix d ->
    (exists token, token ∈ rotated /\ de_mutation_id d' = Some token) ->
    own_change lo rotated dropped db (set_leases <[k := l]> (set_dests <[k := d']> db))
| oc_drop db' b :
    b ∈ dropped ->
    (forall j, job_active db' j = job_active db j) ->
    (forall k, im_dests db' !! k = if decide (k.1 = b) then None else im_dests db !! k) ->
    (forall c, is_Some (im_claims db' !! c) -> is_Some (im_claims db !! c)) ->
    (forall k, k.1 <> b -> im_leases db' !! k = im_leases db !! k) ->
    own_change lo rotated dropped db db'.

(** A change that only adds a region to one writer, when nobody else writes there, keeps one writer
    per key. *)
Lemma grant_single_writer w (region : string -> string -> Prop) db db' :
  single_writer db ->
  (forall w' b x, covers db' w' b x -> covers db w' b x \/ w' = w /\ region b x) ->
  (forall w' b x, region b x -> covers db w' b x -> w' = w) ->
  single_writer db'.
Proof.
  intros Hs Hg Hr b x w1 w2 [H1|[-> R1]]%Hg [H2|[-> R2]]%Hg; eauto. symmetry. eauto.
Qed.

Lemma fewer_single_writer db db' :
  single_writer db -> (forall w b x, covers db' w b x -> covers db w b x) -> single_writer db'.
Proof. intros Hs Hc b x w1 w2 H1%Hc H2%Hc. eauto. Qed.

Lemma oc_job_covers db id job w b x :
  (forall k d, im_dests db !! k = Some d -> de_owner_job_id d <> Some id) ->
  (forall c, is_Some (im_claims db !! c) -> c.1.1 <> id) ->
  covers (set_jobs <[id := job]> db) w b x -> covers db w b x.
Proof.
  intros Hd Hc. destruct w as [j|b' k]; simpl; [|done]. intros [Ha Hj].
  assert (j <> id) as Hne.
  { destruct Hj as [(d & H & Ho)|(p & H & _)]; [intros ->; by eapply Hd|by apply Hc in H]. }
  split; [|done]. unfold job_active in *. simpl in Ha. by rewrite lookup_insert_ne in Ha.
Qed.

Lemma oc_own_covers db j b k d' w b' x :
  de_owner_job_id d' = Some j -> de_mutation_id d' = None ->
  covers (set_dests <[(b, k) := d']> db) w b' x ->
  covers db w b' x \/ w = Import j /\ b' = b /\ x = k.
Proof.
  intros Ho Hm. destruct w as [i|b1 k1]; simpl.
  - intros [Ha [(d & Hd & Hi)|Hc]]; [|left; split; [done|by right]].
    destruct (decide ((b', x) = (b, k))) as [E|Hne]; [right|left].
    + rewrite E, lookup_insert_eq in Hd. injection Hd as <-. split_and!; congruence.
    + rewrite lookup_insert_ne in Hd by congruence. split; [done|left; eauto].
  - intros (-> & d & Hd & [t Ht] & Hx). left. split; [done|]. destruct (decide ((b', k1) = (b, k))) as [E|Hne].
    + rewrite E, lookup_insert_eq in Hd. injection Hd as <-. congruence.
    + rewrite lookup_insert_ne in Hd by congruence. exists d. split; [done|]. split; eauto.
Qed.

Lemma oc_token_covers db b k d' l w b' x :
  (de_owner_job_id d' = None \/ exists d, im_dests db !! (b, k) = Some d /\ de_owner_job_id d' = de_owner_job_id d) ->
  covers (set_leases <[(b, k) := l]> (set_dests <[(b, k) := d']> db)) w b' x ->
  covers db w b' x \/ w = Token b k /\ b' = b /\ token_covers k d' x.
Proof.
  intros Ho. destruct w as [i|b1 k1]; simpl.
  - intros [Ha [(d & Hd & Hi)|Hc]]; left; (split; [done|]); [left|by right].
    destruct (decide ((b', x) = (b, k))) as [E|Hne].
    + rewrite E in *. rewrite lookup_insert_eq in Hd. injection Hd as <-.
      destruct Ho as [Ho|(d & Hd & Ho)]; [congruence|]. exists d. split; [done|congruence].
    + rewrite lookup_insert_ne in Hd by congruence. eauto.
  - intros (-> & d & Hd & Hx). destruct (decide ((b', k1) = (b, k))) as [[= -> ->]|Hne].
    + rewrite lookup_insert_eq in Hd. injection Hd as <-. by right.
    + rewrite lookup_insert_ne in Hd by congruence. left. eauto.
Qed.

Lemma oc_claim_covers db j b p order w b' x :
  covers (set_claims <[(j, b, p) := order]> db) w b' x ->
  covers db w b' x \/ w = Import j /\ b' = b /\ starts_with p x = true.
Proof.
  destruct w as [i|b1 k1]; simpl; [|by left]. intros [Ha [Hd|(q & Hq & Hx)]]; [left; by split; [|left]|].
  destruct (decide ((i, b', q) = (j, b, p))) as [[= -> -> ->]|Hne]; [by right|].
  rewrite lookup_insert_ne in Hq by congruence. left. split; [done|]. right. eauto.
Qed.

Section invariants.
Context {lo : Z} {rotated dropped : list string}.
#[local] Abbreviation change := (own_change lo rotated dropped).

Lemma change_single_writer db db' : change db db' -> single_writer db -> single_writer db'.
Proof.
  destruct 1 as [db' Hs|id job _ Hd Hc|j b k d' _ Ho Hm Hw|b k d' l _ Ho Hw|j b p order Hw
                |[b k] d d' l Hd Ht _ Ho Hp [t [_ Ht']]|db' b _ Ha Hd Hc _]; intros Hone.
  - eapply fewer_single_writer; [done|]. intros w b x. by eapply shrinks_covers.
  - eapply fewer_single_writer; [done|]. intros w b x. by apply oc_job_covers.
  - apply (grant_single_writer (Import j) (fun b' x => b' = b /\ x = k) db); [done|..].
    + intros w b' x. by apply oc_own_covers.
    + intros w b' x [-> ->]. apply Hw.
  - apply (grant_single_writer (Token b k) (fun b' x => b' = b /\ token_covers k d' x) db); [done|..].
    + intros w b' x. apply oc_token_covers. by left.
    + intros w b' x [-> Hx]. by apply Hw.
  - apply (grant_single_writer (Import j) (fun b' x => b' = b /\ starts_with p x = true) db); [done|..].
    + intros w b' x. by apply oc_claim_covers.
    + intros w b' x [-> Hx]. by apply Hw.
  - eapply fewer_single_writer; [done|]. intros w b' x Hx.
    apply oc_token_covers in Hx as [Hx|(-> & -> & [_ Hx])]; [done| |right; eauto].
    split; [done|]. exists d. split; [done|]. split; [done|]. by rewrite Hp in Hx.
  - eapply fewer_single_writer; [done|]. assert (forall k d, im_dests db' !! k = Some d -> im_dests db !! k = Some d) as Hd'.
    { intros k d. rewrite Hd. by destruct (decide _). }
    intros [j|b1 k] b' x; simpl.
    + rewrite Ha. intros [Hj [(d & ?%Hd' & ?)|(p & ?%Hc & ?)]]; eauto 10.
    + intros (-> & d & ?%Hd' & ?). eauto.
Qed.

Lemma change_owner_or_token db db' : change db db' -> owner_or_token db -> owner_or_token db'.
Proof.
  unfold owner_or_token.
  destruct 1 as [db' [_ D _ _ _]|id job _ _ _|j b k d' _ Ho Hm _|b k d' l _ Ho _|j b p order _
                |k d d' l Hd [t0 Ht] _ Ho _ _|db' b _ _ Hd _ _]; intros Hone; simpl; try done.
  - intros k d' (d & Hd & _ & Ho & Hm)%D. specialize (Hone k d Hd). simpl in Hone. intuition congruence.
  - apply map_Forall_insert_2; [by right|done].
  - apply map_Forall_insert_2; [by left|done].
  - apply map_Forall_insert_2; [|done]. left. specialize (Hone k d Hd). simpl in Hone. intuition congruence.
  - intros k d. rewrite Hd. destruct (decide _); [done|]. apply Hone.
Qed.

(** ** Guards that have lapsed *)

Definition lease_live (g : StandardMutationGuard) (clk : Z) (db : ImportDb) : Prop :=
  exists l, im_leases db !! guard_key g = Some l /\ lease_identity g l = true /\ clk < ml_lease_until l.

(** The destination has moved past the guard, or has its generation without its token, prefix or
    lease. *)
Definition lapsed (g : StandardMutationGuard) (clk : Z) (db : ImportDb) : Prop :=
  exists d, im_dests db !! guard_key g = Some d
    /\ (mg_expected_generation g < de_generation d
        \/ mg_expected_generation g = de_generation d
           /\ (de_mutation_id d <> Some (mg_mutation_id g) \/ de_mutation_prefix d <> mg_mutation_prefix g
               \/ ~ lease_live g clk db)).

Lemma shrinks_lapsed g db db' : shrinks lo db db' -> lapsed g lo db -> lapsed g lo db'.
Proof.
  intros [_ D K _ L] (d & Hd & Hg). destruct (K (guard_key g)) as [d' Hd']; [eauto|].
  destruct (D _ _ Hd') as (d0 & Hd0 & Hgen & _ & Hm). rewrite Hd in Hd0. injection Hd0 as <-.
  exists d'. split; [done|].
  destruct (decide (mg_expected_generation g < de_generation d')) as [|Hge]; [by left|right].
  destruct Hg as [?|[Eg Hg]]; [lia|]. split; [lia|].
  destruct Hm as [Hm|[Hm Hp]]; [left; congruence|]. rewrite Hm, Hp.
  destruct Hg as [?|[?|Hl]]; [by left|by right; left|right; right].
  intros (l' & (l & Hl' & Hi & Hgl & Hu)%L & Hid & Hlive). apply Hl. exists l. split; [done|].
  unfold lease_identity in *. rewrite <- Hi, <- Hgl. split; [done|lia].
Qed.

(** A change of another destination and its lease. *)
Lemma lapsed_frame g clk db db' :
  im_dests db' !! guard_key g = im_dests db !! guard_key g ->
  im_leases db' !! guard_key g = im_leases db !! guard_key g -> lapsed g clk db -> lapsed g clk db'.
Proof. intros Hd Hl. unfold lapsed, lease_live. by rewrite Hd, Hl. Qed.

Lemma fresher_lapsed g clk k d' db db' :
  im_dests db' = <[k := d']> (im_dests db) -> fresher d' (im_dests db !! k) ->
  (forall k', k' <> k -> im_leases db' !! k' = im_leases db !! k') -> lapsed g clk db -> lapsed g clk db'.
Proof.
  intros Hd Hf Hl Hg. destruct (decide (guard_key g = k)) as [<-|Hne].
  - destruct Hg as (d & Hd0 & Hg). rewrite Hd0 in Hf. simpl in Hf. exists d'. rewrite Hd, lookup_insert_eq.
    split; [done|]. left. destruct Hg as [|[]]; lia.
  - revert Hg. apply lapsed_frame; [by rewrite Hd, lookup_insert_ne|by apply Hl].
Qed.

Lemma change_lapsed g db db' :
  change db db' -> mg_mutation_id g ∉ rotated -> mg_bucket g ∉ dropped -> lapsed g lo db -> lapsed g lo db'.
Proof.
  intros Hc Hr Hb. destruct Hc as [db' Hs|id job _ _ _|j b k d' Hf _ _ _|b k d' l Hf _ _|j b p order _
                |k d d' l Hd _ Hgen _ _ [t [Hin Ht']]|db' b Hin _ Hd _ Hl].
  - by apply shrinks_lapsed.
  - by apply lapsed_frame.
  - by eapply fresher_lapsed.
  - eapply fresher_lapsed; [done..|]. intros k' Hk'. simpl. by rewrite lookup_insert_ne.
  - by apply lapsed_frame.
  - destruct (decide (guard_key g = k)) as [<-|Hne].
    + intros (d0 & Hd0 & Hg). rewrite Hd in Hd0. injection Hd0 as <-. exists d'. simpl. rewrite lookup_insert_eq.
      split; [done|]. rewrite Hgen. destruct Hg as [?|[? _]]; [by left|right]. split; [done|left].
      rewrite Ht'. intros [= ->]. done.
    + apply lapsed_frame; simpl; by rewrite lookup_insert_ne.
  - assert ((guard_key g).1 <> b) as Hne by (simpl; congruence).
    apply lapsed_frame; [|by apply Hl]. rewrite Hd. by destruct (decide _).
Qed.
End invariants.

(** ** Statements and operations that only take authority away *)

Lemma weaker_with_owner_none now d : weaker_dest d (with_owner None now d).
Proof. unfold weaker_dest. simpl. split_and!; [lia|by left|by right]. Qed.
Lemma weaker_with_token_none now d : weaker_dest d (with_token None None now d).
Proof. unfold weaker_dest. simpl. split_and!; [lia|by right|by left]. Qed.
#[export] Hint Resolve weaker_with_owner_none weaker_with_token_none : keeps.

Section weaker.
Context (lo : Z).
#[local] Abbreviation weaker := (safely (shrinks lo)).

(** One table at a time. *)
Lemma shrinks_dests f db :
  (forall k d', f (im_dests db) !! k = Some d' -> exists d, im_dests db !! k = Some d /\ weaker_dest d d') ->
  (forall k, is_Some (im_dests db !! k) -> is_Some (f (im_dests db) !! k)) -> shrinks lo db (set_dests f db).
Proof. intros Hd Hk. split; simpl; eauto. intros k l H. by exists l. Qed.

Lemma shrinks_jobs f db :
  (forall j, job_active (set_jobs f db) j = true -> job_active db j = true) -> shrinks lo db (set_jobs f db).
Proof. intros Ha. split; simpl; eauto; [intros k d H; by exists d|intros k l H; by exists l]. Qed.

Lemma shrinks_claims f db :
  (forall c, is_Some (f (im_claims db) !! c) -> is_Some (im_claims db !! c)) -> shrinks lo db (set_claims f db).
Proof. intros Hc. split; simpl; eauto; [intros k d H; by exists d|intros k l H; by exists l]. Qed.

Lemma shrinks_targets f db : shrinks lo db (set_targets f db).
Proof. split; simpl; eauto; [intros k d H; by exists d|intros k l H; by exists l]. Qed.

Lemma shrinks_leases f db :
  (forall k l', f (im_leases db) !! k = Some l' -> exists l, im_leases db !! k = Some l /\ weaker_lease lo l l') ->
  shrinks lo db (set_leases f db).
Proof. intros Hl. split; simpl; eauto. intros k d H. by exists d. Qed.

Lemma released_shrinks j db db' : released j db db' -> shrinks lo db db'.
Proof.
  intros [J A D C F L]. split; auto.
  - intros i. destruct (decide (i = j)) as [->|Hi]; [done|]. unfold job_active. by rewrite J.
  - intros k d' Hd'. destruct (D k) as [E|(d & e & Hd & He & Ho & Ho' & Hg & Hm & Hp)].
    + exists d'. rewrite <- E. by split.
    + exists d. split; [done|]. rewrite Hd' in He. injection He as <-. unfold weaker_dest. auto.
  - intros k Hk. destruct (D k) as [->|(d & e & Hd & -> & _)]; eauto.
  - intros k l' Hl. exists l'. by rewrite <- L.
Qed.

Lemma keeps_update_dest k p f :
  (forall d, p d = true -> weaker_dest d (f d)) -> t_keeps weaker (update_dest k p f).
Proof.
  intros Hf db r db' [(d & Hd & Hp & _ & -> & Hc)|(_ & _ & ->)]%update_dest_ok; [|done].
  split; [|done]. apply shrinks_dests.
  - intros k' d'. destruct (decide (k' = k)) as [->|Hne]; [|rewrite lookup_insert_ne by done; by exists d'].
    rewrite lookup_insert_eq. intros [= <-]. eauto.
  - intros k' Hk. destruct (decide (k' = k)) as [->|Hne]; [rewrite lookup_insert_eq; eauto|by rewrite lookup_insert_ne].
Qed.

Lemma keeps_update_job id p f :
  (forall j, p j = true -> active_state (ij_state (f j)) = true -> active_state (ij_state j) = true) ->
  t_keeps weaker (update_job id p f).
Proof.
  intros Hf db r db' [(j & Hj & Hp & _ & -> & Hc)|(_ & _ & ->)]%update_job_ok; [|done].
  split; [|done]. apply shrinks_jobs. intros i. unfold job_active. simpl. destruct (decide (i = id)) as [->|Hne].
  - rewrite lookup_insert_eq, Hj. simpl. auto.
  - by rewrite lookup_insert_ne.
Qed.

Lemma keeps_update_lease k p f :
  (forall l, p l = true -> weaker_lease lo l (f l)) -> t_keeps weaker (update_lease k p f).
Proof.
  intros Hf db r db' [(l & Hl & Hp & _ & -> & Hc)|(_ & _ & ->)]%update_lease_ok; [|done].
  split; [|done]. apply shrinks_leases. intros k' l'. destruct (decide (k' = k)) as [->|Hne].
  - rewrite lookup_insert_eq. intros [= <-]. eauto.
  - rewrite lookup_insert_ne by done. by exists l'.
Qed.

Lemma keeps_exec f : (forall db, shrinks lo db (f db)) -> t_keeps weaker (i_exec f).
Proof. intros Hf db u db' [-> Hc]%t_exec_ok. by split. Qed.

Lemma keeps_filter_leases (P : DestKey * MutationLeaseRow -> Prop) `{forall kl, Decision (P kl)} :
  t_keeps weaker (i_exec (set_leases (filter P))).
Proof.
  apply keeps_exec. intros db. apply shrinks_leases. intros k l [? _]%map_lookup_filter_Some. by exists l.
Qed.

Lemma keeps_targets f : t_keeps weaker (i_exec (set_targets f)).
Proof. apply keeps_exec. intros db. apply shrinks_targets. Qed.

Lemma keeps_insert_target j b k g kind : t_keeps weaker (insert_target j b k g kind).
Proof. unfold insert_target, insert_row. t_keep. apply keeps_targets. Qed.

Lemma keeps_release j inv now : t_keeps weaker (release_job_ownership_with_invalidation j inv now).
Proof. intros db u db' [R C]%release_ok. split; [by eapply released_shrinks|done]. Qed.

Lemma keeps_supersede j inv now : t_keeps weaker (supersede_job_with_destination_invalidation j inv now).
Proof. intros db u db' [[R C] _]%supersede_ok. split; [by eapply released_shrinks|done]. Qed.

Lemma keeps_conflict b pre now jf : t_keeps weaker (supersede_conflict b pre now jf).
Proof. intros db u db' [[R C] _]%supersede_conflict_ok. split; [by eapply released_shrinks|done]. Qed.

Lemma keeps_conflicts b exact pre excluding now : t_keeps weaker (supersede_conflicts_in_order b exact pre excluding now).
Proof.
  intros db u db'. rewrite supersede_conflicts_pass. apply (keeps_each weaker). intros jf. apply keeps_conflict.
Qed.
End weaker.

#[export] Hint Resolve keeps_filter_leases keeps_targets keeps_insert_target keeps_release keeps_supersede
  keeps_conflict keeps_conflicts : keeps.
#[export] Hint Extern 3 (t_keeps _ (update_dest _ _ _)) => apply keeps_update_dest; intros : keeps.
#[export] Hint Extern 3 (t_keeps _ (update_job _ _ _)) => apply keeps_update_job; intros : keeps.
#[export] Hint Extern 3 (t_keeps _ (update_lease _ _ _)) => apply keeps_update_lease; intros : keeps.

Section taking.
Context (lo : Z).
#[local] Abbreviation weaker := (safely (shrinks lo)).

Lemma keeps_invalidate b keys pre now : t_keeps weaker (invalidate_standard_mutations_in_order b keys pre now).
Proof.
  unfold invalidate_standard_mutations_in_order. t_keep. apply keeps_keyset; [apply _|]. intros kd.
  unfold invalidate_token. t_keep.
Qed.

Lemma keeps_lock b : t_keeps weaker (lock_bucket_for_ownership b).
Proof. unfold lock_bucket_for_ownership. t_keep. Qed.
#[local] Hint Resolve keeps_lock : keeps.

(** *** Tokens and leases *)

Lemma keeps_clear g now o : t_keeps weaker (clear_standard_mutation_in_transaction g now o).
Proof. unfold clear_standard_mutation_in_transaction. t_keep. Qed.
#[local] Hint Resolve keeps_clear : keeps.

Lemma keeps_verify_lease g clk : t_keeps weaker (verify_mutation_lease g clk).
Proof. unfold verify_mutation_lease. t_keep. Qed.
#[local] Hint Resolve keeps_verify_lease : keeps.

Lemma keeps_verify_guard g b k entries clk : t_keeps weaker (verify_standard_mutation_guard g b k entries clk).
Proof. unfold verify_standard_mutation_guard, find_destination_for_update. t_keep. Qed.
#[local] Hint Resolve keeps_verify_guard : keeps.

Lemma keeps_complete g now c1 c2 : t_keeps weaker (complete_standard_mutation_in_transaction g now c1 c2).
Proof. unfold complete_standard_mutation_in_transaction. t_keep. Qed.
#[local] Hint Resolve keeps_complete : keeps.

Lemma keeps_release_mutation g clk : t_keeps weaker (release_standard_mutation g clk).
Proof. unfold release_standard_mutation, release_standard_mutation_in_transaction. t_keep. Qed.

Lemma keeps_recover b clock : t_keeps weaker (recover_expired_mutations_in_transaction b clock).
Proof.
  unfold recover_expired_mutations_in_transaction. t_keep.
  match goal with |- t_keeps _ (recover_loop ?n _ _ ?i) => generalize n as fuel, i end.
  induction fuel as [|fuel IH]; intros i; simpl; t_keep.
  apply keeps_each; [apply _|]. intros kl. unfold release_expired, release_standard_mutation_in_transaction. t_keep.
Qed.

Lemma keeps_extend g c1 c2 : lo <= c2 -> t_keeps weaker (extend_lease g c1 c2).
Proof.
  intros Hc. unfold extend_lease. t_keep. apply keeps_update_lease. intros l [_ Hl%Z.ltb_lt]%andb_true_iff.
  unfold weaker_lease. simpl. split_and!; [done..|right; lia].
Qed.

Lemma keeps_renew g c0 c1 c2 : lo <= c2 -> t_keeps weaker (renew_standard_mutation g c0 c1 c2).
Proof.
  intros Hc. pose proof (keeps_extend g c1 c2 Hc). unfold renew_standard_mutation, renew_standard_mutation_in_transaction.
  t_keep.
Qed.

Lemma keeps_clear_lifecycle b k action epoch now :
  t_keeps weaker (clear_lifecycle_mutation_if_owned b k action epoch now).
Proof. unfold clear_lifecycle_mutation_if_owned, find_destination_for_update. t_keep. Qed.

Lemma keeps_renew_lifecycle b k action epoch c1 c2 :
  lo <= c2 -> t_keeps weaker (renew_lifecycle_mutation_in_transaction b k action epoch c1 c2).
Proof.
  intros Hc. pose proof (fun g => keeps_extend g c1 c2 Hc).
  unfold renew_lifecycle_mutation_in_transaction, find_destination_for_update. t_keep.
Qed.

Lemma keeps_verify_zip b source keys guards clk :
  t_keeps weaker (verify_zip_output_guards_in_transaction b source keys guards clk).
Proof. unfold verify_zip_output_guards_in_transaction. t_keep. Qed.
#[local] Hint Resolve keeps_verify_zip : keeps.

Lemma keeps_renew_zip b source keys guards c0 c1 c2 :
  lo <= c2 -> t_keeps weaker (renew_zip_output_guards_in_transaction b source keys guards c0 c1 c2).
Proof.
  intros Hc. pose proof (fun g => keeps_extend g c1 c2 Hc).
  unfold renew_zip_output_guards_in_transaction. t_keep.
Qed.

Lemma keeps_complete_zip b source keys guards now c0 c1 c2 :
  t_keeps weaker (complete_zip_output_guards_in_transaction b source keys guards now c0 c1 c2).
Proof. unfold complete_zip_output_guards_in_transaction. t_keep. Qed.

Lemma keeps_check_outputs b source keys : t_keeps weaker (check_zip_outputs_do_not_revoke_source b source keys).
Proof.
  unfold check_zip_outputs_do_not_revoke_source, find_destination_for_update. t_keep. apply keeps_each; [apply _|].
  intros j. unfold revokes_source, find_job_for_update, job_row. t_keep.
Qed.

(** *** Jobs *)

Lemma active_claim_active w e clk j : active_claim w e clk j = true -> active_state (ij_state j) = true.
Proof.
  unfold active_claim, active_state. rewrite !andb_true_iff. intros [[_ ->] _]. apply orb_true_r.
Qed.

Lemma due_claim_active now j : due_claim now j = true -> active_state (ij_state j) = true.
Proof.
  unfold due_claim, active_state. rewrite orb_true_iff, !andb_true_iff, orb_true_iff. tauto.
Qed.

Context `{ImportWorld}.

Lemma keeps_payloads ids : t_keeps weaker (load_payloads ids).
Proof. unfold load_payloads. t_keep. Qed.
#[local] Hint Resolve keeps_payloads : keeps.

Lemma keeps_claim_due worker now until limit : t_keeps weaker (claim_due worker now until limit).
Proof.
  unfold claim_due, job_row. t_keep; apply keeps_map; try apply _; intros id; t_keep.
  apply keeps_update_job. intros j [[Hd _]%andb_true_iff _]%andb_true_iff _. by eapply due_claim_active.
Qed.

Lemma keeps_claimed id p f worker epoch clk :
  (forall j, p j = true -> active_claim worker epoch clk j = true) -> t_keeps weaker (update_job id p f).
Proof. intros Hp. apply keeps_update_job. intros j Hj _. by eapply active_claim_active, Hp. Qed.

Lemma keeps_renew_claim id worker epoch now until clk : t_keeps weaker (renew_job_claim id worker epoch now until clk).
Proof. unfold renew_job_claim. t_keep. Qed.

Lemma keeps_phase id worker epoch state phase now clk : t_keeps weaker (update_phase id worker epoch state phase now clk).
Proof.
  unfold update_phase, require_active_claim. t_keep. by apply (keeps_claimed _ _ _ worker epoch clk).
Qed.

Lemma keeps_progress id worker epoch attempt progress now clk :
  t_keeps weaker (update_progress id worker epoch attempt progress now clk).
Proof.
  unfold update_progress, require_active_claim. t_keep.
Qed.

Lemma keeps_retry id worker epoch attempt next failure now clk :
  t_keeps weaker (retry_job id worker epoch attempt next failure now clk).
Proof.
  unfold retry_job, require_active_claim. t_keep. apply (keeps_claimed _ _ _ worker epoch clk).
  by intros j [? _]%andb_true_iff.
Qed.

Lemma keeps_delete_terminal cutoff : t_keeps weaker (delete_terminal_before cutoff).
Proof.
  unfold delete_terminal_before. t_keep. apply keeps_exec. intros db. split; simpl.
  - intros j. unfold job_active. simpl. rewrite map_lookup_filter. destruct (im_jobs db !! j); [|done]. simpl.
    by case_guard.
  - intros k d'. rewrite lookup_fmap. destruct (im_dests db !! k) as [d|]; [|done]. intros [= <-].
    exists d. split; [done|]. unfold weaker_dest. simpl. split_and!; [lia| |by right].
    destruct (de_owner_job_id d) as [j|]; [|by right]. simpl. destruct (a j); auto.
  - intros k. rewrite lookup_fmap. by intros [d ->].
  - intros c [z Hz]. apply map_lookup_filter_Some in Hz as [? _]. eauto.
  - intros k l Hl. by exists l.
Qed.

Lemma keeps_verify_active id worker epoch b clk : t_keeps weaker (verify_active id worker epoch b clk).
Proof. unfold verify_active, job_row. t_keep. Qed.
#[local] Hint Resolve keeps_verify_active : keeps.

Lemma keeps_verify_extraction claim b k clk : t_keeps weaker (verify_extraction_claim claim b k clk).
Proof. unfold verify_extraction_claim, verify_active_claim, job_prefix, job_row. t_keep. Qed.
#[local] Hint Resolve keeps_verify_extraction : keeps.

Lemma keeps_release_owned j b k gen now : t_keeps weaker (release_owned j b k gen now).
Proof. unfold release_owned. t_keep. Qed.
#[local] Hint Resolve keeps_release_owned : keeps.

Lemma keeps_release_extracted claim b k gen now clk : t_keeps weaker (release_extracted_target claim b k gen now clk).
Proof. unfold release_extracted_target, find_destination_for_update. t_keep. Qed.

Lemma keeps_reset claim b now c0 c1 : t_keeps weaker (reset_extracted_target_batch claim b now c0 c1).
Proof.
  unfold reset_extracted_target_batch, verify_decompression_attempt, verify_active_claim, job_prefix, job_row. t_keep.
  apply keeps_each; [apply _|]. intros kt. unfold reset_target, find_destination_for_update. t_keep.
Qed.

Lemma keeps_fail claim b failure now c0 c1 : t_keeps weaker (fail_claimed claim b failure now c0 c1).
Proof.
  unfold fail_claimed, verify_active_claim, release_job_ownership. t_keep.
  by apply (keeps_claimed _ _ _ (ic_worker_id claim) (ic_claim_epoch claim) c1).
Qed.

Lemma keeps_complete_publication guard cid size now clk :
  t_keeps weaker (complete_publication_in_transaction guard cid size now clk).
Proof.
  unfold complete_publication_in_transaction, release_job_ownership. t_keep.
  by apply (keeps_claimed _ _ _ (pg_worker_id guard) (pg_claim_epoch guard) clk).
Qed.

Lemma keeps_verify_publication guard b targets clk : t_keeps weaker (verify_publication_guard guard b targets clk).
Proof.
  unfold verify_publication_guard. t_keep. apply keeps_each; [apply _|]. intros kg.
  unfold find_destination_for_update. t_keep.
Qed.

Lemma keeps_supersede_bucket b now : t_keeps weaker (supersede_bucket b now).
Proof.
  unfold supersede_bucket, supersede_job. t_keep. apply keeps_keyset; [apply _|]. intros id. t_keep.
Qed.
End taking.

#[export] Hint Resolve keeps_invalidate keeps_lock keeps_clear keeps_verify_lease keeps_verify_guard keeps_complete
  keeps_release_mutation keeps_recover keeps_clear_lifecycle keeps_verify_zip keeps_complete_zip keeps_check_outputs
  keeps_payloads keeps_claim_due keeps_renew_claim keeps_phase keeps_progress keeps_retry keeps_delete_terminal
  keeps_verify_active keeps_verify_extraction keeps_release_extracted keeps_reset keeps_fail
  keeps_complete_publication keeps_verify_publication keeps_supersede_bucket : keeps.
