(* ===== verification/OwnershipSystem.v ===== *)
(** * Histories of the ownership store

    An admission first supersedes the imports and clears the tokens of its region, so that it is
    handed out free.  Along any history a key then has at most one writer, and an authority that was
    lost stays lost. *)

From Stdlib Require Import ZArith Lia Ascii.
From stdpp Require Import base list strings sorting pretty gmap relations.
From S2P Require Import Prelude Errors Database Transaction ImportDb ImportJobs Ownership OwnershipLoops.
From S2P Require Import OwnershipChanges.

#[local] Open Scope string_scope.
#[local] Open Scope list_scope.
#[local] Open Scope Z_scope.

(** ** Freeing a region *)

Definition region (keys : gset string) (pre : option string) (x : string) : Prop :=
  (x ∈ keys) \/ exists p, pre = Some p /\ starts_with p x = true.

(** Only the excluded job may still write in the region. *)
Definition free (db : ImportDb) (b : string) (keys : gset string) (pre excluding : option string) : Prop :=
  forall x w, region keys pre x -> covers db w b x -> exists j, excluding = Some j /\ w = Import j.

Lemma starts_with_comparable p q x :
  starts_with p x = true -> starts_with q x = true -> starts_with p q || starts_with q p = true.
Proof.
  intros Hp (r & ->)%starts_with_iff. apply orb_true_iff.
  destruct (le_dec (String.length p) (String.length q)) as [Hl|Hl].
  - left. by rewrite starts_with_app_long in Hp.
  - right. apply starts_with_iff in Hp as (r' & E). rewrite <- (starts_with_app_long q p r') by lia.
    rewrite <- E. apply starts_with_app.
Qed.

Section freeing.
Context (lo : Z).
#[local] Abbreviation weaker := (safely (shrinks lo)).

Lemma shrinks_inactive db db' j : shrinks lo db db' -> job_active db j = false -> job_active db' j = false.
Proof. intros [A _ _ _ _] Hj. destruct (job_active db' j) eqn:E; [|done]. apply A in E. congruence. Qed.

Lemma superseded_inactive b pre now l db u db' j f :
  t_each (supersede_conflict b pre now) l db = Ok (u, db') -> (j, f) ∈ l -> job_active db' j = false.
Proof.
  revert db. induction l as [|jf l IH]; intros db E Hin; [by apply not_elem_of_nil in Hin|].
  simpl in E. apply t_bind_ok in E as ([] & db1 & E1 & E). apply elem_of_cons in Hin as [<-|Hin]; [|by eapply IH].
  apply supersede_conflict_ok in E1 as [_ Hj]. simpl in Hj.
  assert (t_keeps weaker (t_each (supersede_conflict b pre now) l)) as K by (apply keeps_each; [apply _|]; auto with keeps).
  apply K in E as [Hs _]. by eapply shrinks_inactive.
Qed.

Lemma import_conflicts db b exact keys pre j x :
  (forall k, k ∈ keys -> (k, im_dests db !! (b, k) ≫= de_owner_job_id) ∈ exact) ->
  region keys pre x -> covers db (Import j) b x -> j ∈ (all_candidates b exact pre db).*1.
Proof.
  intros Hex Hx [Ha Hj]. apply list_elem_of_fmap.
  assert (forall f, (j, f) ∈ all_candidates b exact pre db -> exists y, j = y.1 /\ y ∈ all_candidates b exact pre db)
    as Hc by (intros f Hf; by exists (j, f)).
  destruct Hx as [Hk|(q & -> & Hq)]; [apply (Hc false)|apply (Hc true)]; apply elem_of_all_candidates; [left|right];
    (split; [done|]).
  - exists x, (im_dests db !! (b, x) ≫= de_owner_job_id). split; [by apply Hex|].
    destruct Hj as [(d & -> & Ho)|(p & Hp & Hs)]; [by right|left]. apply elem_of_claim_jobs. eauto.
  - exists q. split; [done|]. destruct Hj as [(d & Hd & Ho)|(p & Hp & Hs)].
    + right. apply elem_of_dest_jobs. eauto 10.
    + left. apply elem_of_claim_jobs. split; [done|]. exists p. split; [done|]. by eapply starts_with_comparable.
Qed.

Lemma supersede_frees b exact keys pre excluding now db u db' j x :
  supersede_conflicts_in_order b exact pre excluding now db = Ok (u, db') ->
  (forall k, k ∈ keys -> (k, im_dests db !! (b, k) ≫= de_owner_job_id) ∈ exact) ->
  region keys pre x -> covers db' (Import j) b x -> excluding = Some j.
Proof.
  intros E Hex Hx Hc. destruct (keeps_conflicts lo _ _ _ _ _ _ _ _ E) as [Hs _].
  rewrite supersede_conflicts_pass in E. destruct (decide (excluding = Some j)) as [|Hne]; [done|exfalso].
  pose proof (shrinks_covers _ _ _ _ _ _ Hs Hc) as Hc0.
  assert (job_active db' j = false) as Hj; [|destruct Hc; congruence].
  eapply superseded_inactive; [exact E|]. apply elem_of_conflict_rows. split; [done|]. split; [|done].
  by eapply import_conflicts.
Qed.

Lemma cleared_tokens b keys pre now l db u db' kd d' :
  t_each (invalidate_token b keys pre now) l db = Ok (u, db') -> (forall x, x ∈ l -> x.1.1 = b) ->
  kd ∈ l -> token_overlaps keys pre kd = true -> im_dests db' !! kd.1 = Some d' -> de_mutation_id d' = None.
Proof.
  revert db. induction l as [|x l IH]; intros db E Hb Hin Ho Hd; [by apply not_elem_of_nil in Hin|].
  simpl in E. apply t_bind_ok in E as ([] & db1 & E1 & E). apply elem_of_cons in Hin as [<-|Hin].
  - apply invalidate_token_ok in E1; [|apply Hb; left]. destruct E1 as [(? & _)|(_ & d & _ & -> & _)]; [congruence|].
    assert (t_keeps weaker (t_each (invalidate_token b keys pre now) l)) as K.
    { apply keeps_each; [apply _|]. intros y. unfold invalidate_token. t_keep. }
    apply K in E as [[_ D _ _ _] _]. apply D in Hd as (d1 & Hd1 & _ & _ & [Hm|[Hm _]]); [done|].
    simpl in Hd1. rewrite lookup_insert_eq in Hd1. injection Hd1 as <-. by rewrite Hm.
  - eapply IH; eauto. intros y Hy. apply Hb. by right.
Qed.

Lemma token_overlaps_region b keys pre k d x :
  region keys pre x -> token_covers k d x -> token_overlaps keys pre ((b, k), d) = true.
Proof.
  intros Hx [_ Hk]. unfold token_overlaps. simpl. apply orb_true_iff. destruct Hx as [Hx|(q & -> & Hq)]; [left|right].
  - apply existsb_exists. exists x. rewrite <- list_elem_of_In, elem_of_elements. split; [done|]. apply orb_true_iff.
    destruct Hk as [->|(p & -> & Hp)]; [left; apply String.eqb_refl|by right].
  - simpl. destruct Hk as [->|(p & -> & Hp)]; [by rewrite Hq|]. simpl. unfold prefixes_overlap.
    rewrite (starts_with_comparable q p x) by done. apply orb_true_r.
Qed.

Lemma invalidate_frees b keys pre now db u db' b' k x :
  invalidate_standard_mutations_in_order b keys pre now db = Ok (u, db') ->
  region keys pre x -> ~ covers db' (Token b' k) b x.
Proof.
  intros E Hx (-> & d' & Hd' & [t Ht] & Hk). destruct (keeps_invalidate lo _ _ _ _ _ _ _ E) as [[_ D _ _ _] _].
  destruct (D _ _ Hd') as (d & Hd & _ & _ & [?|[Hm Hp]]); [congruence|].
  rewrite invalidate_loop in E. apply t_bind_ok in E as ([] & db1 & E & [_ ->]%t_ret_ok).
  assert (de_mutation_id d' = None); [|congruence].
  eapply (cleared_tokens _ _ _ _ _ _ _ _ ((b, k), d)); [exact E| | | |exact Hd'].
  - by intros y (_ & ? & _)%elem_of_table_rows.
  - apply elem_of_table_rows. split; [done|]. simpl. rewrite <- Hm. eauto.
  - eapply token_overlaps_region; [done|]. split; [rewrite <- Hm; eauto|]. by rewrite <- Hp.
Qed.

(** The two passes that open an admission. *)
Lemma clearing_frees b exact keys pre excluding now db u db1 u' db' :
  (forall k, k ∈ keys -> (k, im_dests db !! (b, k) ≫= de_owner_job_id) ∈ exact) ->
  supersede_conflicts_in_order b exact pre excluding now db = Ok (u, db1) ->
  invalidate_standard_mutations_in_order b keys pre now db1 = Ok (u', db') ->
  free db' b keys pre excluding.
Proof.
  intros Hex E1 E2 x [j|b' k] Hx Hc; [|by eapply invalidate_frees in Hc].
  destruct (keeps_invalidate lo _ _ _ _ _ _ _ E2) as [Hs _]. exists j. split; [|done].
  eapply supersede_frees; eauto using shrinks_covers.
Qed.
End freeing.

(** *** Superseding for exact keys keeps the generations *)

Definition same_generations (db db' : ImportDb) : Prop :=
  forall k, de_generation <$> im_dests db' !! k = de_generation <$> im_dests db !! k.

#[export] Instance same_generations_preorder : PreOrder same_generations.
Proof. split; [done|]. intros db1 db2 db3 H1 H2 k. by rewrite H2. Qed.

Lemma keeps_generations_dest k p f :
  (forall d, de_generation (f d) = de_generation d) -> t_keeps same_generations (update_dest k p f).
Proof.
  intros Hf db r db' [(d & Hd & _ & _ & -> & _)|(_ & _ & ->)]%update_dest_ok; [|done]. intros k'. simpl.
  destruct (decide (k' = k)) as [->|Hne]; [|by rewrite lookup_insert_ne].
  rewrite lookup_insert_eq, Hd. simpl. by rewrite Hf.
Qed.

Lemma keeps_generations_exec f : (forall db, im_dests (f db) = im_dests db) -> t_keeps same_generations (i_exec f).
Proof. intros Hf db u db' [-> _]%t_exec_ok k. by rewrite Hf. Qed.

Lemma keeps_generations_job id p f : t_keeps same_generations (update_job id p f).
Proof. intros db r db' [(j & _ & _ & _ & -> & _)|(_ & _ & ->)]%update_job_ok k; done. Qed.

Lemma keeps_generations_invalidate b keys pre now :
  t_keeps same_generations (invalidate_standard_mutations_in_order b keys pre now).
Proof.
  unfold invalidate_standard_mutations_in_order. t_keep. apply keeps_keyset; [apply _|]. intros kd.
  unfold invalidate_token. t_keep. by apply keeps_generations_dest.
Qed.

Lemma keeps_generations_supersede j now : t_keeps same_generations (supersede_job_with_destination_invalidation j None now).
Proof.
  unfold supersede_job_with_destination_invalidation, find_job_for_update, job_row. t_keep.
  - apply keeps_generations_job.
  - unfold release_job_ownership_with_invalidation. t_keep; [|by apply keeps_generations_exec..].
    apply keeps_keyset; [apply _|]. intros [k d] db u db' E. unfold release_destination in E. simpl in E.
    apply t_bind_ok in E as (bump & db1 & [[= <-] ->]%t_lift_ok & E).
    apply t_bind_ok in E as (r & db2 & E & [_ ->]%t_ret_ok). by eapply keeps_generations_dest in E.
Qed.

Lemma keeps_generations_conflicts b exact excluding now :
  t_keeps same_generations (supersede_conflicts_in_order b exact None excluding now).
Proof.
  intros db u db'. rewrite supersede_conflicts_pass. apply (keeps_each same_generations).
  intros [j f] s a s' E. unfold supersede_conflict in E. apply t_bind_ok in E as (inv & s1 & [Hi ->]%t_lift_ok & E).
  destruct f; [done|]. injection Hi as <-. by eapply keeps_generations_supersede.
Qed.

(** ** Admissions and claims *)

Section granting.
Context (lo : Z) (rotated dropped : list string).
#[local] Abbreviation change := (own_change lo rotated dropped).
#[local] Abbreviation weaker := (safely (shrinks lo)).

(** A transaction from a consistent database is a sequence of changes. *)
Definition evolves (db db' : ImportDb) : Prop := import_constraints db -> rtc change db db' /\ import_constraints db'.

#[export] Instance evolves_preorder : PreOrder evolves.
Proof.
  split; [intros db H; by split|]. intros db1 db2 db3 H1 H2 [R1 C1]%H1.
  destruct (H2 C1) as [R2 C2]. split; [by etransitivity|done].
Qed.

Lemma weaker_evolves db db' : weaker db db' -> evolves db db'.
Proof. intros [Hs Hc] C. split; [by apply rtc_once, oc_shrinks|auto]. Qed.

Lemma keeps_weaker {A} (m : ITx A) : t_keeps weaker m -> t_keeps evolves m.
Proof. intros Hm db a db' E. by eapply weaker_evolves, Hm. Qed.

Lemma change_evolves db db' : change db db' -> import_constraints db' -> evolves db db'.
Proof. intros Hc C _. split; [by apply rtc_once|done]. Qed.

Lemma fresher_next d d' g db k :
  next_generation d = Ok g -> de_generation d' = g ->
  (forall d0, im_dests db !! k = Some d0 -> de_generation d0 <= de_generation d) -> fresher d' (im_dests db !! k).
Proof.
  intros Hg%next_generation_ok Hd H. destruct (im_dests db !! k) as [d0|]; simpl; [|done].
  specialize (H d0 eq_refl). lia.
Qed.

(** *** Tokens *)

Lemma upsert_token_ok b k id pre now clk db g db' :
  upsert_standard_mutation (im_dests db !! (b, k)) b k id pre now clk db = Ok (g, db') ->
  import_constraints db' /\ exists d' l,
    db' = set_leases <[(b, k) := l]> (set_dests <[(b, k) := d']> db)
    /\ fresher d' (im_dests db !! (b, k)) /\ de_owner_job_id d' = None
    /\ de_mutation_id d' = Some id /\ de_mutation_prefix d' = pre /\ de_generation d' = mg_expected_generation g
    /\ ml_mutation_id l = id /\ ml_generation l = mg_expected_generation g
    /\ ml_lease_until l = clk + seconds STANDARD_MUTATION_LEASE_SECONDS
    /\ guard_key g = (b, k) /\ mg_mutation_id g = id /\ mg_mutation_prefix g = pre.
Proof.
  unfold upsert_standard_mutation. intros E. apply t_bind_ok in E as (gen & db1 & E1 & E). t_inv E.
  match goal with H : import_constraints _ |- _ => split; [exact H|] end.
  destruct (im_dests db !! (b, k)) as [d|] eqn:Hd.
  - apply t_bind_ok in E1 as (next & db2 & [Hn ->]%t_lift_ok & E1). apply t_bind_ok in E1 as (r & db2 & E2 & E1).
    t_inv E1. apply update_dest_ok in E2 as [(d0 & Hd0 & _ & -> & -> & _)|(_ & -> & _)]; [|done].
    rewrite Hd in Hd0. injection Hd0 as <-. eexists _, _. split; [reflexivity|]. split_and!; try done. simpl.
    apply next_generation_ok in Hn. lia.
  - apply t_bind_ok in E1 as ([] & db2 & (_ & -> & _)%insert_row_ok & E1). t_inv E1.
    eexists _, _. split; [reflexivity|]. split_and!; done.
Qed.

Lemma upsert_token_evolves b k id pre now clk db g db' :
  upsert_standard_mutation (im_dests db !! (b, k)) b k id pre now clk db = Ok (g, db') ->
  (forall x w, (x = k \/ exists p, pre = Some p /\ starts_with p x = true) -> covers db w b x -> w = Token b k) ->
  evolves db db'.
Proof.
  intros (C & d' & l & -> & Hf & Ho & Ht & Hp & _)%upsert_token_ok Hw. apply change_evolves; [|done].
  apply oc_token; [done..|]. intros x w [_ Hx] Hc. rewrite Hp in Hx. by eapply Hw.
Qed.

Lemma admit_keys_evolves b keys (ids : gmap string string) now clk db gs db' :
  t_map (fun key =>
    let* destination := find_destination_for_update b key in
    let* mutation_id := t_some (Internal "content admission is missing a mutation token") (ids !! key) in
    upsert_standard_mutation destination b key mutation_id None now (clk key)) keys db = Ok (gs, db') ->
  NoDup keys -> (forall x w, x ∈ keys -> ~ covers db w b x) -> evolves db db'.
Proof.
  revert db gs. induction keys as [|k keys IH]; intros db gs E Hn Hf; simpl in E; [by t_inv E|].
  apply t_bind_ok in E as (g & db1 & E1 & E). apply t_bind_ok in E as (gs' & db2 & E2 & [_ ->]%t_ret_ok).
  apply t_bind_ok in E1 as (d & db3 & [-> ->]%t_reads_ok & E1).
  apply t_bind_ok in E1 as (id & db3 & [_ ->]%t_some_ok & E1). apply NoDup_cons in Hn as [Hk Hn].
  transitivity db1.
  - eapply upsert_token_evolves; [exact E1|]. intros x w [->|(p & ? & _)] Hc; [|done]. by apply Hf in Hc; [|left].
  - eapply IH; [done..|]. intros x w Hx Hc. apply upsert_token_ok in E1 as (_ & d' & l & -> & _ & Ho & _ & Hp & _).
    apply oc_token_covers in Hc as [Hc|(_ & _ & _ & [->|(p & Ep & _)])]; [|done|congruence|by left].
    apply Hf in Hc; [done|by right].
Qed.

Lemma t_map_reads {A B C} (f : A -> ImportDb -> B) (h : A -> B -> C) l db ys db' :
  t_map (fun x => t_bind (t_reads (f x)) (fun y => t_ret (h x y))) l db = Ok (ys, db') ->
  ys = (fun x => h x (f x db)) <$> l /\ db' = db.
Proof.
  revert ys db'. induction l as [|x l IH]; intros ys db' E; simpl in E; [by t_inv E|].
  apply t_bind_ok in E as (y & db1 & E1 & E). t_inv E1. apply t_bind_ok in E as (ys' & db1 & [-> ->]%IH & E). by t_inv E.
Qed.

Lemma elem_of_keys_in_order keys k : k ∈ sorted_keys keys <-> k ∈ keys.
Proof. unfold sorted_keys, sorted_ids. by rewrite elem_of_sort_by, elem_of_elements. Qed.

Lemma sorted_keys_nodup keys : NoDup (sorted_keys keys).
Proof. unfold sorted_keys, sorted_ids. rewrite sort_by_perm. apply NoDup_elements. Qed.

Lemma admit_evolves b keys ids now clk : t_keeps evolves (admit_content_mutations_in_transaction b keys ids None now clk).
Proof.
  intros db gs db' E. unfold admit_content_mutations_in_transaction in E.
  apply t_bind_ok in E as (exact & db1 & E1 & E). unfold find_destination_for_update in E1 at 1.
  apply (t_map_reads (fun key db => im_dests db !! (b, key)) (fun key destination => (key, destination ≫= de_owner_job_id)))
    in E1 as [-> ->].
  apply t_bind_ok in E as (u1 & db1 & E1 & E). apply t_bind_ok in E as (u2 & db2 & E2 & E).
  transitivity db2; [apply weaker_evolves; transitivity db1; [by eapply keeps_conflicts|by eapply keeps_invalidate]|].
  eapply admit_keys_evolves; [exact E|apply sorted_keys_nodup|]. intros x w Hx Hc.
  apply elem_of_keys_in_order in Hx.
  assert (free db2 b keys None None) as Hf.
  { eapply (clearing_frees lo); [|exact E1|exact E2].
    intros k Hk. apply list_elem_of_fmap. exists k. by rewrite elem_of_keys_in_order. }
  by destruct (Hf x w) as (j & ? & _); [left|..].
Qed.

Lemma admit_both_evolves b k pre id now clk : t_keeps evolves (admit_content_and_prefix_mutation b k pre id now clk).
Proof.
  intros db g db' E. unfold admit_content_and_prefix_mutation in E.
  apply t_bind_ok in E as (u0 & db0 & E0 & E). apply t_bind_ok in E as (o & db0' & [-> ->]%t_reads_ok & E).
  apply t_bind_ok in E as (u1 & db1 & E1 & E). apply t_bind_ok in E as (u2 & db2 & E2 & E).
  apply t_bind_ok in E as (o & db2' & [-> ->]%t_reads_ok & E).
  transitivity db2.
  { apply weaker_evolves. transitivity db0; [by eapply keeps_lock|].
    transitivity db1; [by eapply keeps_conflicts|by eapply keeps_invalidate]. }
  eapply upsert_token_evolves; [exact E|]. intros x w Hx Hc.
  assert (free db2 b {[k]} (Some pre) None) as Hf.
  { eapply (clearing_frees lo); [|exact E1|exact E2]. intros k' ->%elem_of_singleton. by left. }
  destruct (Hf x w) as (j & ? & _); [|done..]. destruct Hx as [->|Hx]; [left; set_solver|by right].
Qed.

(** *** Imports *)

Context `{ImportWorld}.

Lemma claim_primary_evolves j b k now : t_keeps evolves (claim_primary_destination j b k now).
Proof.
  intros db g db' E. unfold claim_primary_destination in E. apply t_bind_ok in E as (o & db0 & [-> ->]%t_reads_ok & E).
  apply t_bind_ok in E as (u1 & db1 & E1 & E). apply t_bind_ok in E as (u2 & db2 & E2 & E).
  transitivity db2; [apply weaker_evolves; transitivity db1; [by eapply keeps_conflicts|by eapply keeps_invalidate]|].
  assert (free db2 b {[k]} None (Some j)) as Hf.
  { eapply (clearing_frees lo); [|exact E1|exact E2]. intros k' ->%elem_of_singleton. by left. }
  assert (forall w, covers db2 w b k -> w = Import j) as Hw.
  { intros w Hc. destruct (Hf k w) as (i & [= <-] & ->); [left; set_solver|done|done]. }
  assert (same_generations db db2) as Hg.
  { transitivity db1; [by eapply keeps_generations_conflicts|by eapply keeps_generations_invalidate]. }
  specialize (Hg (b, k)). unfold upsert_destination_owner in E. destruct (im_dests db !! (b, k)) as [d|] eqn:Hd.
  - apply t_bind_ok in E as (next & db3 & [Hn ->]%t_lift_ok & E). apply t_bind_ok in E as (r & db3 & E3 & [_ ->]%t_ret_ok).
    apply update_dest_ok in E3 as [(d0 & Hd0 & _ & _ & -> & C)|(_ & _ & ->)]; [|done]. apply change_evolves; [|done].
    eapply oc_own; [|done..]. eapply fresher_next; [done..|]. intros d1 Hd1. rewrite Hd1 in Hg. simpl in Hg.
    injection Hg as ->. done.
  - apply t_bind_ok in E as ([] & db3 & (Hno & -> & C)%insert_row_ok & [_ ->]%t_ret_ok). apply change_evolves; [|done].
    eapply oc_own; [|done..]. by rewrite Hno.
Qed.

Lemma install_prefix_evolves j b pre now : t_keeps evolves (install_prefix_claim j b pre now).
Proof.
  intros db g db' E. unfold install_prefix_claim in E. apply t_bind_ok in E as (o & db0 & E0 & E).
  assert (db0 = db) as -> by (unfold next_prefix_claim_order in E0; by t_inv E0).
  apply t_bind_ok in E as (u1 & db1 & E1 & E). apply t_bind_ok in E as (u2 & db2 & E2 & E).
  apply t_bind_ok in E as (held & db3 & [-> ->]%t_reads_ok & E).
  transitivity db2; [apply weaker_evolves; transitivity db1; [by eapply keeps_conflicts|by eapply keeps_invalidate]|].
  destruct (is_some _); t_inv E; [done|]. apply change_evolves; [|done]. apply oc_claim. intros x w Hx Hc.
  assert (free db2 b ∅ (Some pre) (Some j)) as Hf by (eapply (clearing_frees lo); [|exact E1|exact E2]; set_solver).
  destruct (Hf x w) as (i & [= <-] & ->); [right; eauto|done|done].
Qed.

Lemma insert_queued_evolves request now : t_keeps evolves (insert_queued request now).
Proof.
  intros db j db' E C0. unfold insert_queued in E. t_inv E.
  match goal with H : insert_row _ _ _ = Ok _ |- _ => apply insert_row_ok in H as (Hno & -> & C) end.
  match goal with H : load_payloads _ _ = Ok _ |- _ => apply (keeps_payloads lo) in H; apply weaker_evolves in H end.
  match goal with H : evolves _ _ |- _ => destruct (H C) as [Hr C'] end. split; [|done].
  eapply rtc_l; [|exact Hr]. apply oc_job; [done|..].
  - intros k d Hd Ho. destruct C0 as (_ & _ & HD & _). specialize (HD k d Hd) as (_ & _ & HJ). rewrite Ho in HJ. simpl in HJ.
    destruct HJ. congruence.
  - intros c [z Hz] Hc. destruct C0 as (_ & _ & _ & HC & _). specialize (HC c z Hz) as ([? HJ] & _). congruence.
Qed.

#[local] Hint Resolve keeps_weaker admit_evolves claim_primary_evolves install_prefix_evolves insert_queued_evolves : keeps.
#[local] Ltac evolve := t_keep; eauto 6 with keeps typeclass_instances.

Lemma find_idempotent_evolves b k token : t_keeps evolves (find_idempotent b k token).
Proof. unfold find_idempotent. evolve. Qed.
#[local] Hint Resolve find_idempotent_evolves : keeps.

Lemma submit_evolves request now : t_keeps evolves (submit request now).
Proof. unfold submit, submit_decided_in_transaction. evolve. Qed.

Lemma claim_extracted_evolves claim b k now clk : t_keeps evolves (claim_extracted_target claim b k now clk).
Proof. unfold claim_extracted_target, find_destination_for_update. evolve. Qed.

(** *** Lifecycle actions *)

Lemma prefix_jobs_none b k db j p :
  prefix_owner_jobs_for_key b k None None db = [] -> job_active db j = true ->
  is_Some (im_claims db !! (j, b, p)) -> starts_with p k = false.
Proof.
  intros E Ha Hp. destruct (starts_with p k) eqn:Hs; [|done]. exfalso.
  assert (j ∈ claim_jobs b (fun p => starts_with p k) db) as Hin by (apply elem_of_claim_jobs; eauto).
  unfold prefix_owner_jobs_for_key, owner_ids in E. rewrite filter_all in E by (intros i _; by split).
  apply elem_of_distinct_ids in Hin. destruct (distinct_ids _) as [|i l]; [by apply not_elem_of_nil in Hin|done].
Qed.

Lemma prefix_overlap_spec b k db u db' :
  has_overlapping_standard_prefix_mutation b k db = Ok (u, db') ->
  db' = db /\ (u = false -> forall k' d p, im_dests db !! (b, k') = Some d -> is_Some (de_mutation_id d) ->
    de_mutation_prefix d = Some p -> starts_with p k = false).
Proof.
  unfold has_overlapping_standard_prefix_mutation. intros [-> ->]%t_reads_ok. split; [done|].
  rewrite (keyset_exists_spec fst (prefix_token_rows b)).
  2: apply batch_prefix.
  2: apply batch_nonempty.
  2: intros s; apply table_rows_sorted.
  2: unfold rows_after; rewrite filter_all by done; lia.
  unfold rows_after. rewrite filter_all by done. intros He k' d p Hd Ht Hp.
  destruct (starts_with p k) eqn:Hs; [|done]. rewrite <- He. symmetry. apply existsb_exists. exists ((b, k'), d).
  rewrite <- list_elem_of_In. unfold prefix_token_rows. rewrite elem_of_table_rows. simpl. rewrite Hp. eauto 10.
Qed.

Lemma lifecycle_evolves b k action epoch now clock clk :
  t_keeps evolves (try_admit_lifecycle_mutation b k action epoch now clock clk).
Proof.
  intros db g db' E. unfold try_admit_lifecycle_mutation in E. apply stop_ok in E as [_ E].
  apply t_bind_ok in E as (u0 & db0 & E0 & E). apply t_bind_ok in E as (u1 & db1 & E1 & E).
  transitivity db1; [apply weaker_evolves; transitivity db0; [by eapply keeps_lock|by eapply keeps_recover]|].
  apply t_bind_ok in E as (o & db2 & [-> ->]%t_reads_ok & E). apply t_bind_ok in E as (js & db2 & [-> ->]%t_reads_ok & E).
  apply t_bind_ok in E as (overlap & db2 & [-> Hov]%prefix_overlap_spec & E).
  destruct (_ || _) eqn:Hb; [by t_inv E|]. apply orb_false_iff in Hb as [[Ho Hj]%orb_false_iff ->].
  apply negb_false_iff, bool_decide_eq_true in Hj. specialize (Hov eq_refl).
  assert (forall x w, (x = k \/ exists p, None = Some p /\ starts_with p x = true) -> covers db1 w b x -> w = Token b k) as Hw.
  { intros x w [->|(p & ? & _)] Hc; [|done]. destruct w as [j|b' k']; simpl in Hc.
    - destruct Hc as [Ha [(d & Hd & Hd')|(p & Hp & Hs)]]; [rewrite Hd in Ho; simpl in Ho; by rewrite Hd' in Ho|].
      eapply prefix_jobs_none in Hj; [|done..]. congruence.
    - destruct Hc as (-> & d & Hd & Ht & [->|(p & Hp & Hs)]); [done|]. erewrite Hov in Hs by done. done. }
  repeat first [ progress t_inv E | match type of E with (match ?x with _ => _ end) _ = _ => destruct x end ]; try done.
  all: by eapply upsert_token_evolves.
Qed.

(** *** ZIP extraction *)

Lemma zip_outputs_evolves b source keys ids now clk :
  t_keeps evolves (admit_zip_outputs_without_source_in_transaction b source keys ids now clk).
Proof. unfold admit_zip_outputs_without_source_in_transaction. evolve. Qed.

Lemma zip_source_evolves b source outputs id now clk :
  t_keeps evolves (admit_zip_v2_source_in_transaction b source outputs id now clk).
Proof. unfold admit_zip_v2_source_in_transaction. evolve. Qed.

Lemma rotate_evolves g token now c1 : token ∈ rotated -> t_keeps evolves (rotate_guard g token now c1).
Proof.
  intros Hin db g' db' E. unfold rotate_guard in E. t_inv E.
  repeat match goal with H : _ = Ok _ |- _ => apply update_dest_ok in H || apply update_lease_ok in H end.
  repeat match goal with H : _ \/ _ |- _ => destruct H as [(? & ? & ? & -> & -> & ?)|(_ & -> & _)]; [|done] end.
  apply change_evolves; [|done].
  match goal with H : im_dests db !! _ = Some ?d |- _ =>
    apply (oc_rotate _ _ _ _ _ d); [done| |done..|eauto] end.
  match goal with H : _ && _ && _ = true |- _ => apply andb_true_iff in H as [[H _]%andb_true_iff _];
    apply bool_decide_eq_true in H as ->; eauto end.
Qed.

(** *** Buckets *)

Lemma create_bucket_evolves b : t_keeps evolves (create_bucket_row b).
Proof.
  apply keeps_weaker, keeps_exec. intros db. split; simpl; eauto; [intros k d H0; by exists d|intros k l H0; by exists l].
Qed.

Lemma delete_bucket_evolves b occupied now : b ∈ dropped -> t_keeps evolves (delete_bucket_imports b occupied now).
Proof.
  intros Hb. unfold delete_bucket_imports. evolve. intros db u db' [-> C]%t_exec_ok. apply change_evolves; [|done].
  apply (oc_drop _ _ _ _ _ b); [done|done|..]; simpl.
  - intros k. rewrite map_lookup_filter. destruct (im_dests db !! k) as [d|]; simpl; [|by destruct (decide _)].
    destruct (decide (k.1 = b)) as [->|Hne]; [by rewrite option_guard_False by tauto|by rewrite option_guard_True].
  - intros c [z Hz]. apply map_lookup_filter_Some in Hz as [? _]. eauto.
  - intros k Hk. rewrite map_lookup_filter. destruct (im_leases db !! k); simpl; [by rewrite option_guard_True|done].
Qed.
End granting.

(** ** Histories *)

Section histories.
Context `{ImportWorld}.

(** The transactions that touch the ownership tables.  Every caller in the program admits ordinary
    mutations without an excluded job. *)
Inductive OwnOp : Type :=
| OpSubmit (request : NewImportJob) (now : Z)
| OpClaimDue (worker : string) (now lease_until limit : Z)
| OpRenewClaim (job_id worker : string) (epoch now lease_until clk : Z)
| OpPhase (job_id worker : string) (epoch : Z) (state : ImportState) (phase : ImportPhase) (now clk : Z)
| OpProgress (job_id worker : string) (epoch attempt : Z) (progress : ImportProgress) (now clk : Z)
| OpRetry (job_id worker : string) (epoch attempt next : Z) (failure : ImportFailure) (now clk : Z)
| OpDeleteTerminal (cutoff : Z)
| OpClaimExtracted (claim : ImportClaim) (bucket key : string) (now clk : Z)
| OpReleaseExtracted (claim : ImportClaim) (bucket key : string) (generation now clk : Z)
| OpResetBatch (claim : ImportClaim) (bucket : string) (now c0 c1 : Z)
| OpFail (claim : ImportClaim) (bucket : string) (failure : ImportFailure) (now c0 c1 : Z)
| OpPublish (guard : ImportPublicationGuard) (bucket : string) (targets : list DestKey) (final_cid : string)
    (logical_size now c0 c1 : Z)
| OpAdmit (bucket : string) (keys : list string) (ids : gmap string string) (now : Z) (clk : string -> Z)
| OpAdmitOne (bucket key id : string) (now : Z) (clk : string -> Z)
| OpAdmitPrefix (bucket prefix : string) (now : Z)
| OpAdmitBoth (bucket key prefix id : string) (now clk : Z)
| OpAdmitLifecycle (bucket key action : string) (epoch now : Z) (clock : nat -> Z) (clk : Z)
| OpClearLifecycle (bucket key action : string) (epoch now : Z)
| OpRenewLifecycle (bucket key action : string) (epoch c1 c2 : Z)
| OpRenew (guard : StandardMutationGuard) (c0 c1 c2 : Z)
| OpComplete (guard : StandardMutationGuard) (entries : list string) (now c0 c1 c2 : Z)
| OpRelease (guard : StandardMutationGuard) (clk : Z)
| OpRecover (bucket : string) (clock : nat -> Z)
| OpZipOutputs (bucket source : string) (keys : gset string) (ids : gmap string string) (now : Z) (clk : string -> Z)
| OpZipSource (bucket source : string) (outputs : gset string) (id : string) (now : Z) (clk : string -> Z)
| OpRotate (guard : StandardMutationGuard) (token : string) (now c1 : Z)
| OpZipRenew (bucket source : string) (keys : list string) (guards : list StandardMutationGuard) (c0 c1 c2 : Z)
| OpZipComplete (bucket source : string) (keys : list string) (guards : list StandardMutationGuard) (now c0 c1 c2 : Z)
| OpCreateBucket (bucket : string)
| OpDeleteBucket (bucket : string) (occupied : bool) (now : Z).

Definition void {A} (m : ITx A) : ITx unit := let* _ := m in t_ret tt.

Definition run_op (op : OwnOp) : ITx unit :=
  match op with
  | OpSubmit request now => void (submit request now)
  | OpClaimDue worker now lease_until limit => void (claim_due worker now lease_until limit)
  | OpRenewClaim id worker epoch now lease_until clk => void (renew_job_claim id worker epoch now lease_until clk)
  | OpPhase id worker epoch state phase now clk => update_phase id worker epoch state phase now clk
  | OpProgress id worker epoch attempt progress now clk => update_progress id worker epoch attempt progress now clk
  | OpRetry id worker epoch attempt next failure now clk => retry_job id worker epoch attempt next failure now clk
  | OpDeleteTerminal cutoff => void (delete_terminal_before cutoff)
  | OpClaimExtracted claim b k now clk => void (claim_extracted_target claim b k now clk)
  | OpReleaseExtracted claim b k generation now clk => release_extracted_target claim b k generation now clk
  | OpResetBatch claim b now c0 c1 => void (reset_extracted_target_batch claim b now c0 c1)
  | OpFail claim b failure now c0 c1 => fail_claimed claim b failure now c0 c1
  | OpPublish guard b targets cid size now c0 c1 =>
    let* _ := lock_bucket_for_ownership b in
    let* _ := verify_publication_guard guard b targets c0 in
    complete_publication_in_transaction guard cid size now c1
  | OpAdmit b keys ids now clk => void (admit_content_mutations b keys ids None now clk)
  | OpAdmitOne b k id now clk => void (admit_content_mutation b k id None now clk)
  | OpAdmitPrefix b prefix now => admit_prefix_mutation b prefix now
  | OpAdmitBoth b k prefix id now clk => void (admit_content_and_prefix_mutation b k prefix id now clk)
  | OpAdmitLifecycle b k action epoch now clock clk =>
    void (try_admit_lifecycle_mutation b k action epoch now clock clk)
  | OpClearLifecycle b k action epoch now => void (clear_lifecycle_mutation_if_owned b k action epoch now)
  | OpRenewLifecycle b k action epoch c1 c2 => renew_lifecycle_mutation_in_transaction b k action epoch c1 c2
  | OpRenew g c0 c1 c2 => renew_standard_mutation g c0 c1 c2
  | OpComplete g entries now c0 c1 c2 =>
    let* _ := lock_bucket_for_ownership (mg_bucket g) in
    let* _ := verify_standard_mutation_guard g (mg_bucket g) (mg_key g) entries c0 in
    complete_standard_mutation_in_transaction g now c1 c2
  | OpRelease g clk => void (release_standard_mutation g clk)
  | OpRecover b clock => recover_expired_mutations_in_transaction b clock
  | OpZipOutputs b source keys ids now clk =>
    void (admit_zip_outputs_without_source_in_transaction b source keys ids now clk)
  | OpZipSource b source outputs id now clk => void (admit_zip_v2_source_in_transaction b source outputs id now clk)
  | OpRotate g token now c1 => void (rotate_guard g token now c1)
  | OpZipRenew b source keys guards c0 c1 c2 => renew_zip_output_guards_in_transaction b source keys guards c0 c1 c2
  | OpZipComplete b source keys guards now c0 c1 c2 =>
    complete_zip_output_guards_in_transaction b source keys guards now c0 c1 c2
  | OpCreateBucket b => create_bucket_row b
  | OpDeleteBucket b occupied now => delete_bucket_imports b occupied now
  end.

(** A transaction that fails changes nothing. *)
Definition own_apply (db : ImportDb) (op : OwnOp) : ImportDb :=
  match run_op op db with Ok (_, db') => db' | Err _ => db end.
Definition own_run (ops : list OwnOp) (db : ImportDb) : ImportDb := foldl own_apply db ops.

Definition empty_db : ImportDb :=
  {| im_buckets := ∅; im_jobs := ∅; im_dests := ∅; im_claims := ∅; im_targets := ∅; im_leases := ∅ |}.

(** The readings of the clock that extend a lease. *)
Definition op_reads_from (lo : Z) (op : OwnOp) : Prop :=
  match op with
  | OpRenewLifecycle _ _ _ _ c1 c2 => lo <= c1 /\ lo <= c2
  | OpRenew _ c0 c1 c2 | OpZipRenew _ _ _ _ c0 c1 c2 => lo <= c0 /\ lo <= c1 /\ lo <= c2
  | _ => True
  end.
Definition op_rotates (op : OwnOp) : list string := match op with OpRotate _ token _ _ => [token] | _ => [] end.
Definition op_drops (op : OwnOp) : list string := match op with OpDeleteBucket b _ _ => [b] | _ => [] end.

#[local] Hint Resolve keeps_weaker admit_evolves admit_both_evolves submit_evolves claim_extracted_evolves lifecycle_evolves
  zip_outputs_evolves zip_source_evolves create_bucket_evolves keeps_renew keeps_renew_lifecycle keeps_renew_zip : keeps.

Lemma run_op_evolves lo op :
  op_reads_from lo op -> t_keeps (evolves lo (op_rotates op) (op_drops op)) (run_op op).
Proof.
  intros Hlo. destruct op; simpl in *; destruct_and?; unfold void, admit_content_mutation, admit_content_mutations,
    admit_prefix_mutation; t_keep; eauto 6 with keeps typeclass_instances.
  - apply rotate_evolves. by left.
  - apply delete_bucket_evolves. by left.
Qed.

(** What one operation preserves. *)
Record own_inv (db : ImportDb) : Prop := {
  oi_constraints : import_constraints db;
  oi_single : single_writer db;
  oi_exclusive : owner_or_token db }.

Lemma rtc_preserves {S} (R : relation S) (P : S -> Prop) s s' :
  (forall s s', R s s' -> P s -> P s') -> rtc R s s' -> P s -> P s'.
Proof. intros HR. induction 1; eauto. Qed.

Lemma own_apply_changes lo op db :
  op_reads_from lo op -> import_constraints db ->
  rtc (own_change lo (op_rotates op) (op_drops op)) db (own_apply db op) /\ import_constraints (own_apply db op).
Proof.
  intros Hlo C. unfold own_apply. destruct (run_op op db) as [[u db']|e] eqn:E; [|done].
  by eapply run_op_evolves in E; [apply E|].
Qed.

Lemma op_reads_some op : exists lo, op_reads_from lo op.
Proof.
  destruct op; simpl; try (by exists 0); [exists (Z.min c1 c2)|exists (Z.min c0 (Z.min c1 c2))..]; lia.
Qed.

Lemma own_apply_inv op db : own_inv db -> own_inv (own_apply db op).
Proof.
  intros [C S O]. destruct (op_reads_some op) as [lo Hlo]. destruct (own_apply_changes lo op db Hlo C) as [R C'].
  split; [done|..]; [revert R S|revert R O]; apply rtc_preserves; eauto using change_single_writer, change_owner_or_token.
Qed.

Lemma own_run_app l1 l2 db : own_run (l1 ++ l2) db = own_run l2 (own_run l1 db).
Proof. apply foldl_app. Qed.

Lemma own_run_inv_from ops db : own_inv db -> own_inv (own_run ops db).
Proof. revert db. induction ops as [|op ops IH]; intros db Hi; [done|]. by apply IH, own_apply_inv. Qed.

Lemma own_run_inv ops : own_inv (own_run ops empty_db).
Proof.
  apply own_run_inv_from. split.
  - split_and!; by apply map_Forall_empty.
  - intros b x [j|b' k] w2; simpl; [intros [? _]; done|]. intros (_ & d & Hd & _). done.
  - by apply map_Forall_empty.
Qed.

Lemma own_run_lapsed lo ops db g :
  import_constraints db -> Forall (op_reads_from lo) ops ->
  Forall (fun op => (mg_mutation_id g ∉ op_rotates op) /\ mg_bucket g ∉ op_drops op) ops ->
  lapsed g lo db -> lapsed g lo (own_run ops db).
Proof.
  intros C Hlo. revert db C. induction Hlo as [|op ops Hop Hlo IH]; intros db C Hg Hl; [done|].
  apply Forall_cons in Hg as [[Hr Hd] Hg]. destruct (own_apply_changes lo op db Hop C) as [R C'].
  apply (IH _ C' Hg). revert R Hl. apply rtc_preserves. intros s s' Hc. by apply (change_lapsed (rotated := op_rotates op) (dropped := op_drops op)).
Qed.

(** ** Guards *)

(** The part of the verification that does not read the database. *)
Definition guard_fits (g : StandardMutationGuard) (entries : list string) : bool :=
  (1 <=? mg_expected_generation g)
  && match mg_mutation_prefix g with
     | Some prefix => forallb (starts_with prefix) entries
     | None => bool_decide (entries = [])
     end.

(** The part that does. *)
Definition dest_matches (g : StandardMutationGuard) (d : Destination) : bool :=
  (de_generation d =? mg_expected_generation g) && is_none (de_owner_job_id d)
  && bool_decide (de_mutation_id d = Some (mg_mutation_id g))
  && bool_decide (de_mutation_prefix d = mg_mutation_prefix g).
Definition guard_holds (g : StandardMutationGuard) (entries : list string) (clk : Z) (db : ImportDb) : bool :=
  guard_fits g entries && is_some_and (dest_matches g) (im_dests db !! guard_key g)
  && is_some_and (fun l => lease_identity g l && (clk <? ml_lease_until l)) (im_leases db !! guard_key g).

Lemma verify_guard_eq g entries clk db :
  verify_standard_mutation_guard g (mg_bucket g) (mg_key g) entries clk db
  = if guard_holds g entries clk db then Ok (tt, db) else Err StaleContentMutation.
Proof.
  unfold verify_standard_mutation_guard, verify_mutation_lease, find_destination_for_update, guard_holds, guard_fits,
    guard_key, t_bind, t_reads. cbn [rbind]. rewrite !String.eqb_refl, Z.ltb_antisym. cbn [negb orb].
  destruct (1 <=? mg_expected_generation g); cbn [negb orb andb]; [|done].
  destruct (mg_mutation_prefix g) as [p|] eqn:Ep;
    [destruct (forallb _ entries)|destruct (bool_decide (entries = []))]; cbn [negb andb]; try done.
  all: cbn [rbind]; destruct (im_dests db !! (mg_bucket g, mg_key g)) as [d|]; simpl; [|done]; unfold dest_matches;
    rewrite Ep; destruct (de_generation d =? _), (de_owner_job_id d), (bool_decide (de_mutation_id d = _)),
      (bool_decide (de_mutation_prefix d = _)); simpl; try done; unfold t_reads; cbn [rbind]; by destruct (is_some_and _ _).
Qed.

Lemma guard_holds_spec g entries clk db :
  guard_holds g entries clk db = true <->
  guard_fits g entries = true
  /\ (exists d, im_dests db !! guard_key g = Some d /\ de_generation d = mg_expected_generation g
        /\ de_owner_job_id d = None /\ de_mutation_id d = Some (mg_mutation_id g)
        /\ de_mutation_prefix d = mg_mutation_prefix g)
  /\ lease_live g clk db.
Proof.
  unfold guard_holds, lease_live, dest_matches. rewrite !andb_true_iff, <- Logic.and_assoc. f_equiv; [f_equiv|].
  - destruct (im_dests db !! guard_key g) as [d|]; simpl; [|naive_solver].
    rewrite !andb_true_iff, Z.eqb_eq, !bool_decide_eq_true. destruct (de_owner_job_id d) eqn:Eo; simpl; [naive_solver|].
    split; [intros [[[? _] ?] ?]; eauto 10|]. intros (d' & [= <-] & ? & ? & ? & ?). auto.
  - destruct (im_leases db !! guard_key g) as [l|]; simpl; [|naive_solver].
    rewrite andb_true_iff, Z.ltb_lt. naive_solver.
Qed.

(** A guard that the store handed out: its destination has reached its generation. *)
Definition issued (g : StandardMutationGuard) (db : ImportDb) : Prop :=
  exists d, im_dests db !! guard_key g = Some d /\ mg_expected_generation g <= de_generation d.

Lemma guard_fails_lapsed g entries clk db :
  issued g db -> owner_or_token db -> guard_fits g entries = true -> guard_holds g entries clk db = false ->
  lapsed g clk db.
Proof.
  intros (d & Hd & Hg) Ho Hf Hh. exists d. split; [done|].
  destruct (decide (mg_expected_generation g < de_generation d)) as [|Hn]; [by left|right]. split; [lia|].
  destruct (decide (de_mutation_id d = Some (mg_mutation_id g))) as [Ht|]; [|by left].
  destruct (decide (de_mutation_prefix d = mg_mutation_prefix g)) as [Hp|]; [|by right; left]. right; right.
  intros Hl. apply not_true_iff_false in Hh. apply Hh, guard_holds_spec. split; [done|]. split; [|done].
  exists d. specialize (Ho _ _ Hd). simpl in Ho. split_and!; [done|lia|intuition congruence|done..].
Qed.

Lemma lapsed_fails g entries clk clk' db : lapsed g clk db -> clk <= clk' -> guard_holds g entries clk' db = false.
Proof.
  intros (d & Hd & Hg) Hle. apply not_true_iff_false. intros (_ & (d' & Hd' & Hgen & _ & Ht & Hp) & (l & Hl & Hi & Hu))%guard_holds_spec.
  rewrite Hd in Hd'. injection Hd' as <-. destruct Hg as [?|[_ [?|[?|Hn]]]]; [lia|done|done|].
  apply Hn. exists l. split_and!; [done|done|lia].
Qed.

(** C1: Whatever sequence of submissions, claims, admissions, renewals, releases, rotations,
    publications, recoveries and bucket operations ran, no key of a bucket has two writers: an active
    import that owns the key or a prefix of it, and the holder of a mutation token on the key or a
    prefix of it, are never distinct. *)
Theorem one_writer_per_key ops : single_writer (own_run ops empty_db).
Proof. apply own_run_inv. Qed.

(** C24: When the guard of an ordinary mutation passes verification, its token is the only writer of
    its key and of every entry key published with it. *)
Theorem token_guard_only_writer ops g entries clk u db' x w :
  verify_standard_mutation_guard g (mg_bucket g) (mg_key g) entries clk (own_run ops empty_db) = Ok (u, db') ->
  x ∈ mg_key g :: entries -> covers (own_run ops empty_db) w (mg_bucket g) x ->
  w = Token (mg_bucket g) (mg_key g).
Proof.
  intros E Hx Hc. rewrite verify_guard_eq in E. destruct (guard_holds _ _ _ _) eqn:Eh; [|done].
  apply guard_holds_spec in Eh as (Hf & (d & Hd & _ & _ & Ht & Hp) & _).
  eapply (oi_single _ (own_run_inv ops)); [exact Hc|]. split; [done|]. exists d. split; [done|]. split; [rewrite Ht; eauto|].
  apply elem_of_cons in Hx as [->|Hx]; [by left|right]. apply andb_true_iff in Hf as [_ Hf]. rewrite Hp.
  destruct (mg_mutation_prefix g) as [p|]; [|apply bool_decide_eq_true in Hf; subst; by apply not_elem_of_nil in Hx].
  exists p. split; [done|]. rewrite forallb_forall in Hf. apply Hf. by apply list_elem_of_In.
Qed.

(** C2: A guard that the store issued and that fails verification once never passes again, whatever
    operations run from then on (with readings of the clock that are not earlier), unless its bucket
    is deleted or its own token is issued again by a rotation. *)
Theorem stale_guard_stays_stale ops ops' g entries clk clk' e :
  issued g (own_run ops empty_db) ->
  verify_standard_mutation_guard g (mg_bucket g) (mg_key g) entries clk (own_run ops empty_db) = Err e ->
  Forall (op_reads_from clk) ops' ->
  Forall (fun op => (mg_mutation_id g ∉ op_rotates op) /\ mg_bucket g ∉ op_drops op) ops' ->
  clk <= clk' ->
  verify_standard_mutation_guard g (mg_bucket g) (mg_key g) entries clk' (own_run ops' (own_run ops empty_db))
  = Err StaleContentMutation.
Proof.
  intros Hi E Hlo Hg Hle. destruct (own_run_inv ops) as [C S O]. rewrite verify_guard_eq in *.
  destruct (guard_holds g entries clk _) eqn:Eh; [done|]. destruct (guard_fits g entries) eqn:Ef.
  - erewrite lapsed_fails; [done| |exact Hle]. apply own_run_lapsed; [done..|]. by eapply guard_fails_lapsed.
  - unfold guard_holds at 1. by rewrite Ef.
Qed.

(** A verification that reads every element of a list passes for each of them. *)
Lemma t_each_checks {A} (f : A -> ITx unit) l db u db' :
  (forall x s v s', x ∈ l -> f x s = Ok (v, s') -> s' = s) -> t_each f l db = Ok (u, db') ->
  db' = db /\ forall x, x ∈ l -> exists v, f x db = Ok (v, db).
Proof.
  intros Hf. induction l as [|x l IH]; simpl; intros E; [t_inv E; split; [done|]; by intros x ?%not_elem_of_nil|].
  apply t_bind_ok in E as (v & s1 & E1 & E). pose proof (Hf x _ _ _ ltac:(left) E1) as ->.
  destruct IH as [-> IH]; [intros y; intros; eapply Hf; [by right|done]|done|]. split; [done|].
  intros y [->|Hy]%elem_of_cons; eauto.
Qed.

Lemma publication_guard_owns guard b targets clk db u db' k :
  verify_publication_guard guard b targets clk db = Ok (u, db') -> k ∈ targets ->
  job_active db (pg_job_id guard) = true
  /\ exists d, im_dests db !! k = Some d /\ de_owner_job_id d = Some (pg_job_id guard).
Proof.
  intros E Hk. unfold verify_publication_guard in E.
  apply t_bind_ok in E as (expected & s1 & [_ ->]%t_lift_ok & E). apply t_bind_ok in E as (pub & s1 & [Hp ->]%t_lift_ok & E).
  apply stop_ok in E as [Hdom E]. apply negb_false_iff, bool_decide_eq_true in Hdom.
  apply t_bind_ok in E as (v & s1 & E1 & E). apply t_bind_ok in E as (v' & s2 & E2 & _).
  apply t_each_checks in E1 as [-> Hall].
  2: { intros kg s r s' _ Es. unfold find_destination_for_update in Es. by t_inv Es. }
  split.
  - unfold verify_active, job_row in E2. t_inv E2. unfold job_active. destruct (im_jobs db !! pg_job_id guard) as [j|]; [|done].
    simpl in *. match goal with G : _ = false |- _ => apply negb_false_iff, andb_true_iff in G as [G _] end.
    by eapply active_claim_active.
  - assert (k ∈ dom expected) as [g Hg]%elem_of_dom.
    { rewrite Hdom. unfold publication_target_set in Hp. destruct (existsb _ targets); [done|]. injection Hp as <-.
      by apply elem_of_list_to_set. }
    destruct (Hall (k, g)) as [r Er]; [by apply elem_of_sort_by, elem_of_map_to_list|]. simpl in Er.
    unfold find_destination_for_update in Er. t_inv Er. rewrite <- surjective_pairing in *.
    match goal with E : im_dests db !! k = Some ?d, G : _ || _ = false |- _ =>
      exists d; split; [done|]; apply orb_false_iff in G as [G _]; by apply negb_false_iff, bool_decide_eq_true in G end.
Qed.

(** C25: When the guard of an import passes verification for a publication, its job is the only writer
    of every published key. *)
Theorem publication_guard_only_writer ops guard b targets clk u db' k w :
  verify_publication_guard guard b targets clk (own_run ops empty_db) = Ok (u, db') ->
  k ∈ targets -> covers (own_run ops empty_db) w k.1 k.2 -> w = Import (pg_job_id guard).
Proof.
  intros E Hk Hc. destruct (publication_guard_owns _ _ _ _ _ _ _ _ E Hk) as [Ha (d & Hd & Ho)].
  eapply (oi_single _ (own_run_inv ops)); [exact Hc|]. split; [done|]. left. exists d. by destruct k.
Qed.

(** *** Admissions hand out guards that hold *)

Lemma upsert_holds b k id pre now clk db g db' entries c :
  upsert_standard_mutation (im_dests db !! (b, k)) b k id pre now clk db = Ok (g, db') ->
  match pre with Some p => forallb (starts_with p) entries = true | None => entries = [] end ->
  c < clk + seconds STANDARD_MUTATION_LEASE_SECONDS -> guard_holds g entries c db' = true.
Proof.
  intros (C & d' & l & -> & _ & Ho & Ht & Hp & Hg & Hl & Hlg & Hu & Hk & Hid & Hpre)%upsert_token_ok He Hc.
  destruct C as (_ & _ & HD & _).
  assert (1 <= de_generation d') as H1 by (apply (HD (b, k)); simpl; by rewrite lookup_insert_eq).
  apply guard_holds_spec. rewrite Hk. unfold lease_live, guard_fits, lease_identity. simpl.
  rewrite Hk, !lookup_insert_eq, Hpre. split_and!.
  - apply andb_true_iff. split; [apply Z.leb_le; lia|]. destruct pre; [done|by apply bool_decide_eq_true].
  - exists d'. split_and!; congruence.
  - exists l. split_and!; [done| |lia]. apply andb_true_iff. split; [apply String.eqb_eq; congruence|apply Z.eqb_eq; lia].
Qed.

Lemma guard_holds_frame g entries c db db' :
  im_dests db' !! guard_key g = im_dests db !! guard_key g ->
  im_leases db' !! guard_key g = im_leases db !! guard_key g ->
  guard_holds g entries c db' = guard_holds g entries c db.
Proof. intros Hd Hl. unfold guard_holds. by rewrite Hd, Hl. Qed.

Lemma admitted_keys b keys (ids : gmap string string) now clk db gs db' :
  t_map (fun key =>
    let* destination := find_destination_for_update b key in
    let* mutation_id := t_some (Internal "content admission is missing a mutation token") (ids !! key) in
    upsert_standard_mutation destination b key mutation_id None now (clk key)) keys db = Ok (gs, db') ->
  NoDup keys ->
  mg_key <$> gs = keys
  /\ (forall g, g ∈ gs -> mg_bucket g = b /\ ids !! mg_key g = Some (mg_mutation_id g)
       /\ forall c, c < clk (mg_key g) + seconds STANDARD_MUTATION_LEASE_SECONDS -> guard_holds g [] c db' = true)
  /\ (forall k, k.2 ∉ keys -> im_dests db' !! k = im_dests db !! k /\ im_leases db' !! k = im_leases db !! k).
Proof.
  revert db gs. induction keys as [|k keys IH]; intros db gs E Hn; simpl in E.
  { t_inv E. split_and!; [done|by intros g ?%not_elem_of_nil|done]. }
  apply t_bind_ok in E as (g & db1 & E1 & E). apply t_bind_ok in E as (gs' & db2 & E2 & [-> ->]%t_ret_ok).
  apply t_bind_ok in E1 as (d & db3 & [-> ->]%t_reads_ok & E1).
  apply t_bind_ok in E1 as (id & db3 & [Hid ->]%t_some_ok & E1). apply NoDup_cons in Hn as [Hk Hn].
  destruct (IH _ _ E2 Hn) as (Hkeys & Hgs & Hrest).
  pose proof E1 as (_ & d' & l & -> & _ & _ & _ & _ & _ & _ & _ & _ & [= Hb Hk'] & Ht & _)%upsert_token_ok.
  split_and!.
  - by rewrite fmap_cons, Hk', Hkeys.
  - intros g' [->|Hg']%elem_of_cons; [|by apply Hgs]. rewrite Hk'. split_and!; [done|congruence|]. intros c Hc.
    destruct (Hrest (guard_key g)) as [Hd Hl]; [simpl; congruence|].
    rewrite (guard_holds_frame _ _ _ _ _ Hd Hl). by eapply upsert_holds.
  - intros k0 [Hne Hk0]%not_elem_of_cons. destruct (Hrest k0 Hk0) as [-> ->]. simpl.
    assert (k0 <> (b, k)) by (intros ->; done). by rewrite !lookup_insert_ne.
Qed.

(** A content admission returns one guard per key, in key order, with the token chosen for it; each
    passes verification until its lease of two minutes runs out. *)
Theorem admitted_guards_hold b keys ids now clk db gs db' :
  admit_content_mutations b keys ids None now clk db = Ok (gs, db') ->
  mg_key <$> gs = sorted_keys (list_to_set keys)
  /\ forall g, g ∈ gs -> mg_bucket g = b /\ ids !! mg_key g = Some (mg_mutation_id g)
       /\ forall c, c < clk (mg_key g) + seconds STANDARD_MUTATION_LEASE_SECONDS ->
            verify_standard_mutation_guard g b (mg_key g) [] c db' = Ok (tt, db').
Proof.
  intros E. unfold admit_content_mutations, admit_content_mutations_in_transaction in E.
  apply t_bind_ok in E as (u & s0 & _ & E). apply t_bind_ok in E as (ex & s1 & _ & E).
  apply t_bind_ok in E as (u1 & s2 & _ & E). apply t_bind_ok in E as (u2 & s3 & _ & E).
  apply admitted_keys in E as (Hk & Hg & _); [|apply sorted_keys_nodup]. split; [done|].
  intros g Hin. destruct (Hg g Hin) as (Hb & Hi & Hc). split_and!; [done..|]. intros c Hlt. rewrite <- Hb at 1.
  by rewrite verify_guard_eq, Hc.
Qed.
End histories.
