(* ===== verification/ZipEntries.v ===== *)
(** * ZIP entries: names, final manifest ([src/zip/sanitize.rs], [src/zip/batch.rs])

    The translation of archive entry names to object keys, and the manifest of an extraction: one
    durable path per published object and per failure.  [option] results model the panics of
    [expect] and of indexing; the theorems show that they do not happen. *)

From Stdlib Require Import ZArith Lia Ascii.
From Stdlib Require String.
From stdpp Require Import base list strings pretty sorting gmap.
From S2P Require Import Prelude Bytes Errors.

#[local] Open Scope string_scope.
#[local] Open Scope list_scope.
#[local] Open Scope Z_scope.

(** ** [src/zip/sanitize.rs] *)

Inductive SanitizedEntry : Type :=
| File (key : string)
| Directory.

Definition is_ascii_alphabetic (c : ascii) : bool :=
  let n := N_of_ascii c in
  ((65 <=? n) && (n <=? 90) || (97 <=? n) && (n <=? 122))%N.

Definition has_windows_drive (value : string) : bool :=
  match value with
  | String a (String b _) => is_ascii_alphabetic a && bool_decide (b = ":"%char)
  | _ => false
  end.

Definition validation_error (value : string) (parameter : bool) : AppError :=
  if parameter then InvalidZipParameter value else ZipSlip value.

Definition validate_segments (value : string) (parameter : bool) : result AppError unit :=
  bail_if str_contains "\" value || starts_with "/" value || has_windows_drive value
  with validation_error value parameter else
  try_each (fun segment =>
    bail_if String.eqb segment "." || String.eqb segment ".."
    with validation_error value parameter else
    Ok tt) (split "/" value).

Definition normalize_target_prefix (prefix : string) : result AppError string :=
  if str_is_empty prefix then Ok "" else
  let? _ := validate_segments prefix true in
  let trimmed := trim_matches "/" prefix in
  bail_if str_is_empty trimmed with InvalidZipParameter prefix else
  Ok (trimmed +:+ "/").

Definition sanitize_entry (name target_prefix : string) : result AppError SanitizedEntry :=
  bail_if str_is_empty name with InvalidZipEntry "empty entry name" else
  let? _ := validate_segments name false in
  let is_directory := ends_with "/" name in
  let trimmed := trim_matches "/" name in
  bail_if str_is_empty trimmed with InvalidZipEntry name else
  bail_if 1024 <? u64_saturating_add (str_len target_prefix) (str_len trimmed)
  with InvalidZipEntry "final object key exceeds 1024 UTF-8 bytes" else
  if is_directory then Ok Directory else
  let key := target_prefix +:+ trimmed in
  bail_if negb (str_is_empty target_prefix) && negb (starts_with target_prefix key)
  with ZipSlip name else
  Ok (File key).

(** ** [src/zip/batch.rs] *)

Record ExtractedEntry : Type := { ee_key : string; ee_cid : string; ee_size : Z }.
Record ExtractFailure : Type := { ef_entry_name : string; ef_code : string; ef_message : string }.

Record ManifestFile : Type :=
  { mf_relative_path : string; mf_object_key : string; mf_cid : string; mf_size : Z }.
Record ManifestFailure : Type := { mx_path : string; mx_code : string }.
Record FinalZipManifest : Type :=
  { fm_successful : list ManifestFile;
    fm_failed : list ManifestFailure;
    fm_root_error : option string }.
Record DirectoryFile : Type := { df_path : string; df_cid : string }.

(** [store::zip::ManifestItem] *)
Inductive ManifestItem : Type :=
| Success (path object_key cid : string) (size : Z)
| Failure (path code : string).

Definition item_path (item : ManifestItem) : string :=
  match item with Success path _ _ _ | Failure path _ => path end.

Definition directory_files (m : FinalZipManifest) : list DirectoryFile :=
  if is_some (fm_root_error m) then []
  else (fun file => {| df_path := mf_relative_path file; df_cid := mf_cid file |}) <$> fm_successful m.

Definition manifest_items (m : FinalZipManifest) : list ManifestItem :=
  ((fun file => Success (mf_relative_path file) (mf_object_key file) (mf_cid file) (mf_size file))
    <$> fm_successful m)
  ++ ((fun failure => Failure (mx_path failure) (mx_code failure)) <$> fm_failed m).

Definition valid_relative_path (path : string) : bool :=
  negb (str_is_empty path)
  && negb (starts_with "/" path)
  && negb (str_contains "\" path)
  && negb (any_control path)
  && forallb (fun segment => negb (str_is_empty segment)
                && negb (String.eqb segment ".") && negb (String.eqb segment ".."))
       (split "/" path).

Definition safe_failure_code (code : string) : string :=
  if String.eqb code "EntryReadFailed" then "entry_read_failed"
  else if String.eqb code "EntryUploadFailed" then "entry_upload_failed"
  else "entry_failed".

(** [s.match_indices(c)], as the text before each match. *)
Fixpoint before_matches (c : ascii) (s : string) : list string :=
  match s with
  | EmptyString => []
  | String a s' => (if ascii_dec a c then [EmptyString] else []) ++ (String a <$> before_matches c s')
  end.

Definition has_file_directory_conflict (files : list ManifestFile) : bool :=
  let paths : gset string := list_to_set (mf_relative_path <$> files) in
  existsb (fun file =>
    existsb (fun directory => bool_decide (directory ∈ paths))
      (before_matches "/" (mf_relative_path file))) files.

Definition MAX_METADATA_RECORDS : Z := 10000.

Definition invalid_manifest : FinalZipManifest :=
  {| fm_successful := []; fm_failed := []; fm_root_error := Some "invalid_manifest" |}.

(** The first loop; [Err] is its early return. *)
Definition scan_entry (target_prefix : string) (acc : bool * gmap string Z) (ie : Z * ExtractedEntry) :
    result FinalZipManifest (bool * gmap string Z) :=
  let '(invalid_root_path, winners) := acc in
  let '(index, entry) := ie in
  let invalid_root_path :=
    invalid_root_path
    || is_none_or (fun path => negb (valid_relative_path path)) (strip_prefix target_prefix (ee_key entry)) in
  bail_if (1024 <? str_len (ee_key entry)) || str_is_empty (ee_cid entry)
          || (4096 <? str_len (ee_cid entry)) || (ee_size entry <? 0)
  with invalid_manifest else
  Ok (invalid_root_path, <[ee_key entry := index]> winners).

(** [key.strip_prefix(target_prefix).filter(valid_relative_path)] *)
Definition valid_path_of (target_prefix key : string) : option string :=
  strip_prefix target_prefix key ≫= fun path => if valid_relative_path path then Some path else None.

Definition first_segment (path : string) : option string := head (split "/" path).

(** The names tried for a reserved first segment. *)
Definition namespace_candidates (base : string) (taken : nat) : list string :=
  (fun n : nat => if decide (n = 0%nat) then base else base +:+ "-" +:+ pretty n) <$> seq 0 (taken + 2).

Definition final_zip_manifest (entries : list ExtractedEntry) (failures : list ExtractFailure)
    (target_prefix : string) : option FinalZipManifest :=
  let over_limit :=
    MAX_METADATA_RECORDS
      <? u64_saturating_add (Z.of_nat (length entries)) (Z.of_nat (length failures)) in
  match try_fold (scan_entry target_prefix) (false, ∅) (enumerate entries) with
  | Err returned => Some returned
  | Ok (invalid_root_path, winners) =>
    let final_winners := sort_by (by_key snd) (map_to_list winners) in
    let first_segments : gset string :=
      list_to_set (omap (fun ki => valid_path_of target_prefix ki.1 ≫= first_segment) final_winners) in
    let taken := size first_segments in
    invalid_namespace ←
      List.find (fun candidate => negb (bool_decide (candidate ∈ first_segments)))
        (namespace_candidates "invalid" taken);
    successful ←
      mapM (fun ki : string * Z =>
        entry ← entries !! Z.to_nat ki.2;
        Some {| mf_relative_path :=
                  default (invalid_namespace +:+ "/" +:+ pretty ki.2) (valid_path_of target_prefix ki.1);
                mf_object_key := ee_key entry; mf_cid := ee_cid entry; mf_size := ee_size entry |})
        final_winners;
    failure_namespace ←
      List.find (fun candidate => negb (String.eqb candidate invalid_namespace)
                   && negb (bool_decide (candidate ∈ first_segments)))
        (namespace_candidates "failed" taken);
    let failed :=
      (fun ix : Z * ExtractFailure =>
        {| mx_path := failure_namespace +:+ "/" +:+ pretty ix.1;
           mx_code := safe_failure_code (ef_code ix.2) |}) <$> enumerate failures in
    let root_error :=
      if invalid_root_path || over_limit then Some "invalid_manifest"
      else if has_file_directory_conflict successful then Some "path_conflict" else None in
    Some {| fm_successful := successful; fm_failed := failed; fm_root_error := root_error |}
  end.

(** ** Entry names *)

(** A name that stays below the place it is appended to. *)
Definition escape_free (s : string) : Prop :=
  str_contains "\" s = false /\ starts_with "/" s = false /\ has_windows_drive s = false
  /\ Forall (fun w => w <> "." /\ w <> "..") (split "/" s).

Lemma validate_segments_ok value parameter :
  validate_segments value parameter = Ok tt <-> escape_free value.
Proof.
  unfold validate_segments, escape_free.
  destruct (str_contains _ value); simpl; [intuition discriminate|].
  destruct (starts_with _ value); simpl; [intuition discriminate|].
  destruct (has_windows_drive value); [intuition discriminate|].
  rewrite try_each_ok, !Forall_forall.
  assert (forall w, (bail_if String.eqb w "." || String.eqb w ".."
                     with validation_error value parameter else Ok tt) = Ok tt
                    <-> w <> "." /\ w <> "..") as E.
  { intros w. destruct (String.eqb_spec w "."), (String.eqb_spec w ".."); simpl; naive_solver. }
  setoid_rewrite E. tauto.
Qed.

Lemma trim_start_id c s : starts_with (String c "") s = false -> trim_start c s = s.
Proof.
  destruct s as [|a s]; simpl; [done|]. unfold starts_with. simpl.
  destruct (ascii_dec c a), (ascii_dec a c); simpl; congruence.
Qed.

Lemma ends_with_char c s :
  ends_with (String c "") s = true <-> exists t, s = t +:+ String c "".
Proof.
  unfold ends_with. change (String.length (String c "")) with 1%nat.
  induction s as [|a s IH].
  { split; [done|]. intros [[] E]; discriminate. }
  destruct s as [|b s].
  - simpl. destruct (Ascii.eqb_spec a c) as [->|E].
    + split; [|done]. intros _. by exists "".
    + split; [done|]. intros [[|x [|y t]] E']; simpl in *; congruence.
  - change (String.length (String a (String b s))) with (S (String.length (String b s))).
    replace (S (String.length (String b s)) - 1)%nat with (S (String.length (String b s) - 1))
      by (simpl; lia).
    change (str_drop (S ?n) (String a ?r)) with (str_drop n r).
    replace (1 <=? S (String.length (String b s)))%nat with (1 <=? String.length (String b s))%nat
      by reflexivity.
    rewrite IH. split.
    + intros [t ->]. by exists (String a t).
    + intros [[|x t] E]; simpl in E; [congruence|]. exists t. by injection E.
Qed.

Lemma trim_end_prefix c s :
  trim_end c s = s \/ exists u, s = trim_end c s +:+ String c u.
Proof.
  induction s as [|a s IH]; simpl; [by left|].
  destruct (trim_end c s) as [|b t] eqn:E.
  - destruct (ascii_dec a c) as [->|Hne]; [right; by exists s|].
    destruct IH as [<-|[u ->]]; [by left|right; by exists u].
  - destruct IH as [<-|[u ->]]; [by left|right; by exists u].
Qed.

Lemma trim_end_id c s : ends_with (String c "") s = false -> trim_end c s = s.
Proof.
  induction s as [|a s IH]; simpl trim_end; [done|]. intros Hs.
  destruct s as [|b s].
  - simpl. destruct (ascii_dec a c) as [->|]; [|done].
    exfalso. apply not_true_iff_false in Hs. apply Hs, ends_with_char. by exists "".
  - rewrite IH; [done|]. apply not_true_iff_false. rewrite ends_with_char. intros [t E].
    apply not_true_iff_false in Hs. apply Hs, ends_with_char. exists (String a t). simpl. by rewrite E.
Qed.

Lemma starts_with_app_char c t u :
  t <> "" -> starts_with (String c "") (t +:+ u) = starts_with (String c "") t.
Proof. destruct t as [|a t]; [done|]. intros _. unfold starts_with. simpl. by destruct (ascii_dec c a). Qed.

Lemma has_windows_drive_app t u : t <> "" -> has_windows_drive (t +:+ String "/" u) = has_windows_drive t.
Proof.
  destruct t as [|a [|b t]]; [done| |done]. intros _. simpl. by rewrite andb_false_r.
Qed.

Lemma escape_free_prefix t u : t <> "" -> escape_free (t +:+ String "/" u) -> escape_free t.
Proof.
  intros Hne (Hb & Hs & Hw & Hf). rewrite str_contains_app in Hb. rewrite split_app_sep in Hf.
  apply orb_false_iff in Hb as [Hb _]. apply Forall_app in Hf as [Hf _].
  rewrite starts_with_app_char in Hs by done. rewrite has_windows_drive_app in Hw by done. done.
Qed.

Lemma escape_free_app t n : t <> "" -> escape_free t -> escape_free n -> escape_free (t +:+ String "/" n).
Proof.
  intros Hne (Hb & Hs & Hw & Hf) (Hb' & _ & _ & Hf'). unfold escape_free.
  rewrite str_contains_app, split_app_sep, starts_with_app_char, has_windows_drive_app, Forall_app by done.
  simpl. by rewrite Hb, Hb'.
Qed.

Lemma normalize_target_prefix_ok p prefix :
  normalize_target_prefix p = Ok prefix ->
  prefix = "" \/ exists t, prefix = t +:+ "/" /\ t <> "" /\ escape_free t.
Proof.
  unfold normalize_target_prefix. destruct (str_is_empty p) eqn:Ep; [intros [= <-]; by left|].
  intros E. apply rbind_ok in E as ([] & Hv%validate_segments_ok & E).
  apply bail_ok in E as [Hne [= <-]]. right. exists (trim_matches "/" p).
  assert (trim_matches "/" p <> "") as Hne' by (by destruct (trim_matches "/" p)).
  split; [done|]. split; [done|]. unfold trim_matches in *.
  rewrite trim_start_id in * by apply Hv.
  destruct (trim_end_prefix "/" p) as [->|[u E]]; [done|].
  apply escape_free_prefix with u; [done|]. by rewrite <- E.
Qed.

Lemma sanitize_entry_file name prefix key :
  sanitize_entry name prefix = Ok (File key) <->
  key = prefix +:+ name /\ name <> "" /\ ends_with "/" name = false /\ escape_free name
  /\ str_len key <= 1024.
Proof.
  unfold sanitize_entry. destruct (str_is_empty name) eqn:En.
  { destruct name; naive_solver. }
  destruct (validate_segments name false) as [[]|e] eqn:Ev; simpl; last first.
  { split; [done|]. intros (_ & _ & _ & Hf & _). apply (validate_segments_ok name false) in Hf. congruence. }
  apply validate_segments_ok in Ev. unfold trim_matches. rewrite trim_start_id by apply Ev.
  destruct (ends_with "/" name) eqn:Ee.
  { split; [|naive_solver]. intros E. crunch. }
  rewrite trim_end_id, En by done. rewrite starts_with_app, andb_false_r.
  pose proof (str_len_nonneg prefix). pose proof (str_len_nonneg name).
  unfold u64_saturating_add. destruct (Z.ltb_spec 1024 (Z.min u64_max (str_len prefix + str_len name))) as [L|L].
  - split; [done|]. intros (-> & _ & _ & _ & Hl). rewrite str_len_app in Hl. unfold u64_max in L. lia.
  - split.
    + intros [= <-]. rewrite str_len_app. repeat split; try apply Ev; try done;
        [by destruct name|]. unfold u64_max in L. lia.
    + by intros (-> & _).
Qed.

(** under a normalised target prefix, an entry name is accepted as a file exactly when it is
    not empty, does not end in a slash, has no backslash, leading slash, drive letter or dot
    segment, and the key has at most 1024 bytes; the key is then the prefix followed by the name,
    and as a whole it has none of these escapes either. *)
Theorem sanitize_entry_safe p prefix name key :
  normalize_target_prefix p = Ok prefix ->
  (sanitize_entry name prefix = Ok (File key) <->
   key = prefix +:+ name /\ name <> "" /\ ends_with "/" name = false /\ escape_free name
   /\ str_len key <= 1024)
  /\ (sanitize_entry name prefix = Ok (File key) -> escape_free key).
Proof.
  intros Hp. split; [apply sanitize_entry_file|].
  intros (-> & _ & _ & Hf & _)%sanitize_entry_file.
  destruct (normalize_target_prefix_ok _ _ Hp) as [->|(t & -> & Hne & Ht)]; [done|].
  rewrite str_app_assoc. by apply escape_free_app.
Qed.

Lemma sanitize_entry_safe_witness :
  sanitize_entry "a/..b/c.txt" "out/" = Ok (File "out/a/..b/c.txt")
  /\ escape_free "out/a/..b/c.txt".
Proof.
  destruct (sanitize_entry_safe "out" "out/" "a/..b/c.txt" "out/a/..b/c.txt" eq_refl) as [_ H].
  split; [reflexivity|]. apply H. reflexivity.
Defined.

(** ** The reserved namespaces *)

Lemma pretty_N_go_contains c n s :
  (forall d, (d < 10)%N -> pretty_N_char d <> c) ->
  str_contains c (pretty_N_go n s) = str_contains c s.
Proof.
  intros Hc. revert s. induction (N.lt_wf_0 n) as [n _ IH]; intros s.
  assert (n = 0 \/ 0 < n)%N as [->|Hn] by lia; [by rewrite pretty_N_go_0|].
  rewrite pretty_N_go_step by done. rewrite IH by (apply N.div_lt; lia). simpl.
  destruct (ascii_dec _ c) as [E|]; [|done]. destruct (Hc (n mod 10)%N); [|done]. by apply N.mod_lt.
Qed.

Lemma pretty_N_char_not_slash d : pretty_N_char d <> "/"%char.
Proof. unfold pretty_N_char. by repeat case_match. Qed.

Lemma pretty_nat_no_slash (n : nat) : str_contains "/" (pretty n) = false.
Proof.
  unfold pretty, pretty_nat, pretty, pretty_N. case_decide; [done|].
  rewrite pretty_N_go_contains; [done|]. intros d _. apply pretty_N_char_not_slash.
Qed.

Lemma candidate_no_slash base taken c :
  str_contains "/" base = false -> c ∈ namespace_candidates base taken -> str_contains "/" c = false.
Proof.
  intros Hb (n & -> & _)%list_elem_of_fmap. case_decide; [done|].
  by rewrite !str_contains_app, Hb, pretty_nat_no_slash.
Qed.

Lemma candidates_distinct base taken : NoDup (namespace_candidates base taken).
Proof.
  apply NoDup_fmap_2_strong; [|apply NoDup_seq]. intros n m _ _.
  assert (forall k : nat, base <> base +:+ "-" +:+ pretty k) as Hne.
  { intros k E%(f_equal String.length). rewrite str_length_app in E. simpl in E. lia. }
  repeat case_decide; intros E; [congruence|by apply Hne in E|symmetry in E; by apply Hne in E|].
  apply str_app_inj_l in E. injection E as E. by apply (inj pretty) in E.
Qed.

(** A search over more distinct names than are taken succeeds. *)
Lemma find_fresh (f : string -> bool) (taken : gset string) l :
  NoDup l -> (size taken < length l)%nat -> (forall c, f c = false -> c ∈ taken) ->
  exists c, List.find f l = Some c.
Proof.
  intros Hl Hs Hf. destruct (List.find f l) as [c|] eqn:E; [by exists c|]. exfalso.
  assert ((list_to_set l : gset string) ⊆ taken) as Hsub.
  { intros c Hc%elem_of_list_to_set. apply Hf. apply (List.find_none _ _ E). by apply list_elem_of_In. }
  apply subseteq_size in Hsub. rewrite size_list_to_set in Hsub by done. lia.
Qed.

Lemma find_namespace base (f : string -> bool) (taken : gset string) k :
  (size taken < k + 2)%nat -> (forall c, f c = false -> c ∈ taken) -> str_contains "/" base = false ->
  exists c, List.find f (namespace_candidates base k) = Some c /\ f c = true
            /\ str_contains "/" c = false /\ (c ∈ namespace_candidates base k).
Proof.
  intros Hs Hf Hb.
  destruct (find_fresh f taken (namespace_candidates base k)) as [c E]; [apply candidates_distinct| |done|].
  { unfold namespace_candidates. by rewrite length_fmap, length_seq. }
  exists c. pose proof (List.find_some _ _ E) as [Hin ?].
  apply list_elem_of_In in Hin. split_and!; [done..| |done]. by eapply candidate_no_slash.
Qed.

(** ** The winners *)

Definition entry_accepted (e : ExtractedEntry) : bool :=
  negb ((1024 <? str_len (ee_key e)) || str_is_empty (ee_cid e)
        || (4096 <? str_len (ee_cid e)) || (ee_size e <? 0)).

Definition winners_of (w : gmap string Z) (l : list (Z * ExtractedEntry)) : gmap string Z :=
  foldl (fun w ie => <[ee_key ie.2 := ie.1]> w) w l.

Lemma scan_entries prefix b w l :
  try_fold (scan_entry prefix) (b, w) l
  = if forallb (fun ie => entry_accepted ie.2) l
    then Ok (b || existsb (fun ie => is_none (valid_path_of prefix (ee_key ie.2))) l, winners_of w l)
    else Err invalid_manifest.
Proof.
  revert b w. induction l as [|[i e] l IH]; intros b w; simpl; [by rewrite orb_false_r|].
  unfold entry_accepted at 1. destruct (_ || _) eqn:E; simpl; [done|]. rewrite IH.
  destruct (forallb _ l); [|done]. do 2 f_equal. rewrite <- orb_assoc. do 2 f_equal.
  unfold valid_path_of. destruct (strip_prefix prefix (ee_key e)) as [path|]; [|done]. simpl.
  by destruct (valid_relative_path path).
Qed.

(** An index wins a key when it is the last one that has it. *)
Lemma winners_lookup entries k i :
  winners_of ∅ (enumerate entries) !! k = Some i <->
  exists before e after, entries = before ++ e :: after /\ i = Z.of_nat (length before)
    /\ ee_key e = k /\ (k ∉ ee_key <$> after).
Proof.
  induction entries as [|e entries IH] using rev_ind.
  { split; [done|]. intros ([] & ? & ? & ? & _); discriminate. }
  rewrite enumerate_snoc. unfold winners_of. rewrite foldl_app. simpl.
  fold (winners_of ∅ (enumerate entries)).
  destruct (decide (ee_key e = k)) as [<-|Hk].
  - rewrite lookup_insert_eq. split.
    + intros [= <-]. exists entries, e, []. repeat split; try done. apply not_elem_of_nil.
    + intros (before & e' & after & E & -> & Hk & Hn).
      destruct after as [|x after] using rev_ind.
      * apply app_inj_tail in E as [-> ->]. done.
      * rewrite app_comm_cons, app_assoc in E. apply app_inj_tail in E as [_ ->].
        destruct Hn. rewrite fmap_app. apply elem_of_app. right. by apply list_elem_of_singleton.
  - rewrite lookup_insert_ne, IH by done. split.
    + intros (before & e' & after & -> & -> & Hk' & Hn). exists before, e', (after ++ [e]).
      rewrite <- app_assoc. repeat split; try done. rewrite fmap_app, elem_of_app.
      intros [?|E%list_elem_of_singleton]; [done|by apply Hk].
    + intros (before & e' & after & E & -> & Hk' & Hn). destruct after as [|x after _] using rev_ind.
      * apply app_inj_tail in E as [_ ->]. done.
      * rewrite app_comm_cons, app_assoc in E. apply app_inj_tail in E as [-> ->].
        exists before, e', after. repeat split; try done.
        rewrite fmap_app, not_elem_of_app in Hn. apply Hn.
Qed.

(** The reference: an entry is published when no later one has its key. *)
Fixpoint last_occurrences (l : list ExtractedEntry) : list ExtractedEntry :=
  match l with
  | [] => []
  | e :: r => if decide (ee_key e ∈ ee_key <$> r) then last_occurrences r else e :: last_occurrences r
  end.

Definition wins (entries : list ExtractedEntry) (ie : Z * ExtractedEntry) : Prop :=
  winners_of ∅ (enumerate entries) !! ee_key ie.2 = Some ie.1.
#[export] Instance wins_dec entries ie : Decision (wins entries ie).
Proof. unfold wins. apply _. Defined.

Definition winning (entries : list ExtractedEntry) : list (Z * ExtractedEntry) :=
  filter (wins entries) (enumerate entries).

Lemma winning_suffix before l :
  (filter (wins (before ++ l)) (imap (fun i e => (Z.of_nat (length before + i), e)) l)).*2
  = last_occurrences l.
Proof.
  revert before. induction l as [|e l IH]; intros before; [done|].
  simpl. rewrite Nat.add_0_r.
  specialize (IH (before ++ [e])). rewrite <- app_assoc, length_app in IH. simpl in IH.
  assert (imap ((fun i e => (Z.of_nat (length before + i), e)) ∘ S) l
          = imap (fun i e => (Z.of_nat (length before + 1 + i), e)) l) as ->.
  { apply imap_ext. intros i x _. simpl. do 2 f_equal. lia. }
  rewrite filter_cons.
  assert (wins (before ++ e :: l) (Z.of_nat (length before), e) <-> ee_key e ∉ ee_key <$> l) as Hw.
  { unfold wins. simpl. rewrite winners_lookup. split.
    - intros (b' & e' & a' & E & Hl & Hk & Hn). apply Nat2Z.inj in Hl.
      apply app_inj_1 in E as [-> [= -> ->]]; [|done]. done.
    - intros Hn. by exists before, e, l. }
  repeat case_decide; csimpl; rewrite ?IH; tauto.
Qed.

Lemma winning_last entries : (winning entries).*2 = last_occurrences entries.
Proof. apply (winning_suffix [] entries). Qed.

Lemma winning_elem entries i e :
  (i, e) ∈ winning entries ->
  exists n, i = Z.of_nat n /\ entries !! n = Some e /\ wins entries (i, e).
Proof.
  intros [Hw (n & -> & He)%elem_of_enumerate]%list_elem_of_filter. by exists n.
Qed.

Lemma winning_sorted entries : StronglySorted (fun a b => a.1 < b.1) (winning entries).
Proof. apply StronglySorted_filter, enumerate_sorted. Qed.

Lemma winning_nodup entries : NoDup (winning entries).
Proof.
  eapply StronglySorted_NoDup; [|apply winning_sorted]. intros [i e]. simpl. lia.
Qed.

(** Sorting the winners by index gives the winning entries in archive order. *)
Lemma final_winners_winning entries :
  sort_by (by_key snd) (map_to_list (winners_of ∅ (enumerate entries)))
  = (fun ie => (ee_key ie.2, ie.1)) <$> winning entries.
Proof.
  apply (StronglySorted_unique_strong (key_le snd)).
  - intros [k i] [k' i'] Hx ([j e] & [= -> ->] & Hw)%list_elem_of_fmap H1 H2. simpl in *.
    assert (i = j) as -> by (by apply (ord_le_antisym (A := Z))).
    apply elem_of_sort_by, elem_of_map_to_list, winners_lookup in Hx
      as (b & e1 & a & E & Hj & Hk & _).
    apply winning_elem in Hw as (n & -> & He & _). apply Nat2Z.inj in Hj as ->.
    subst entries. rewrite list_lookup_middle in He by done. by simplify_eq.
  - apply sort_by_sorted.
  - eapply StronglySorted_fmap; [|apply winning_sorted].
    intros x y Hxy. change ((x.1 ?= y.1) <> Gt). by rewrite Hxy.
  - rewrite sort_by_perm. apply NoDup_Permutation.
    + apply NoDup_map_to_list.
    + apply NoDup_fmap_2_strong; [|apply winning_nodup].
      intros [i e] [j e'] (n & -> & He & _)%winning_elem (m & -> & He' & _)%winning_elem [= _ E].
      apply Nat2Z.inj in E as ->. by simplify_eq.
    + intros [k i]. rewrite elem_of_map_to_list, list_elem_of_fmap. split.
      * intros Hk. pose proof Hk as (b & e & a & -> & -> & <- & _)%winners_lookup.
        exists (Z.of_nat (length b), e). split; [done|]. apply list_elem_of_filter. split; [done|].
        apply elem_of_enumerate. exists (length b). by rewrite list_lookup_middle.
      * intros ([j e] & [= -> ->] & (n & -> & _ & Hw)%winning_elem). done.
Qed.

(** ** The manifest *)

Definition manifest_file (namespace prefix : string) (ie : Z * ExtractedEntry) : ManifestFile :=
  {| mf_relative_path := default (namespace +:+ "/" +:+ pretty ie.1) (valid_path_of prefix (ee_key ie.2));
     mf_object_key := ee_key ie.2; mf_cid := ee_cid ie.2; mf_size := ee_size ie.2 |}.
Definition manifest_failure (namespace : string) (ix : Z * ExtractFailure) : ManifestFailure :=
  {| mx_path := namespace +:+ "/" +:+ pretty ix.1; mx_code := safe_failure_code (ef_code ix.2) |}.
Definition taken_segments (prefix : string) (entries : list ExtractedEntry) : gset string :=
  list_to_set (omap (fun ie => valid_path_of prefix (ee_key ie.2) ≫= first_segment) (winning entries)).
Definition over_limit (entries : list ExtractedEntry) (failures : list ExtractFailure) : bool :=
  MAX_METADATA_RECORDS
    <? u64_saturating_add (Z.of_nat (length entries)) (Z.of_nat (length failures)).

Lemma mapM_Some_fmap {A B C} (f : B -> option C) (h : A -> B) (g : A -> C) (l : list A) :
  (forall a, a ∈ l -> f (h a) = Some (g a)) -> mapM f (h <$> l) = Some (g <$> l).
Proof.
  intros Hf. apply mapM_Some, Forall2_fmap, Forall_Forall2_diag, Forall_forall. exact Hf.
Qed.

Lemma list_omap_fmap {A B C} (f : B -> option C) (g : A -> B) (l : list A) :
  omap f (g <$> l) = omap (fun a => f (g a)) l.
Proof. induction l as [|a l IH]; csimpl; [done|]. by rewrite IH. Qed.

(** Both searches for a namespace succeed, so the manifest is always built. *)
Lemma final_zip_manifest_run entries failures prefix :
  forallb entry_accepted entries = true ->
  exists ns fs,
    (ns ∉ taken_segments prefix entries) /\ (fs ∉ taken_segments prefix entries) /\ fs <> ns
    /\ str_contains "/" ns = false /\ str_contains "/" fs = false
    /\ (ns ∈ namespace_candidates "invalid" (size (taken_segments prefix entries)))
    /\ (fs ∈ namespace_candidates "failed" (size (taken_segments prefix entries)))
    /\ final_zip_manifest entries failures prefix
       = Some {| fm_successful := manifest_file ns prefix <$> winning entries;
                 fm_failed := manifest_failure fs <$> enumerate failures;
                 fm_root_error :=
                   if existsb (fun e => is_none (valid_path_of prefix (ee_key e))) entries
                      || over_limit entries failures then Some "invalid_manifest"
                   else if has_file_directory_conflict (manifest_file ns prefix <$> winning entries)
                        then Some "path_conflict" else None |}.
Proof.
  intros Hok. unfold final_zip_manifest.
  rewrite scan_entries, (forallb_enumerate entry_accepted), Hok, final_winners_winning, list_omap_fmap. simpl.
  change (omap _ (winning entries)) with
    (omap (fun ie => valid_path_of prefix (ee_key ie.2) ≫= first_segment) (winning entries)).
  fold (taken_segments prefix entries). set (T := taken_segments prefix entries).
  destruct (find_namespace "invalid" (fun c => negb (bool_decide (c ∈ T))) T (size T))
    as (ns & -> & Hns & Hns' & Hcand); [lia| |done|].
  { intros c Hc. apply negb_false_iff in Hc. by apply bool_decide_eq_true in Hc. }
  apply negb_true_iff, bool_decide_eq_false in Hns. simpl.
  erewrite (mapM_Some_fmap _ _ (manifest_file ns prefix)); last first.
  { intros [i e] (n & -> & He & _)%winning_elem. simpl. by rewrite Nat2Z.id, He. }
  destruct (find_namespace "failed"
    (fun c => negb (String.eqb c ns) && negb (bool_decide (c ∈ T))) (T ∪ {[ns]}) (size T))
    as (fs & -> & Hfs & Hfs' & Hcand'); [| |done|].
  { rewrite size_union, size_singleton by set_solver. lia. }
  { intros c. destruct (String.eqb_spec c ns) as [->|]; [set_solver|]. simpl.
    intros Hc%negb_false_iff%bool_decide_eq_true. set_solver. }
  apply andb_true_iff in Hfs as [Hne%negb_true_iff Hf%negb_true_iff%bool_decide_eq_false].
  exists ns, fs. repeat split; try done; [by apply String.eqb_neq|].
  by rewrite <- (existsb_enumerate (fun e => is_none (valid_path_of prefix (ee_key e)))).
Qed.

Lemma final_zip_manifest_rejected entries failures prefix :
  forallb entry_accepted entries = false ->
  final_zip_manifest entries failures prefix = Some invalid_manifest.
Proof.
  intros Hok. unfold final_zip_manifest.
  by rewrite scan_entries, (forallb_enumerate entry_accepted), Hok.
Qed.

Lemma valid_path_of_Some prefix key path :
  valid_path_of prefix key = Some path <-> key = prefix +:+ path /\ valid_relative_path path = true.
Proof.
  unfold valid_path_of. rewrite bind_Some. setoid_rewrite strip_prefix_Some.
  split.
  - intros (p & -> & Hp). destruct (valid_relative_path p) eqn:E; by simplify_eq.
  - intros [-> Hp]. exists path. by rewrite Hp.
Qed.

(** A synthetic path starts with its namespace, and a real one with a taken segment. *)
Lemma first_segment_namespace ns rest :
  str_contains "/" ns = false -> first_segment (ns +:+ "/" +:+ rest) = Some ns.
Proof.
  intros Hns. unfold first_segment. change (ns +:+ "/" +:+ rest) with (ns +:+ String "/" rest).
  by rewrite split_app_sep, split_no_contains.
Qed.

Lemma winning_path prefix ns entries ie :
  ie ∈ winning entries ->
  str_contains "/" ns = false ->
  exists s, first_segment (mf_relative_path (manifest_file ns prefix ie)) = Some s
    /\ (valid_path_of prefix (ee_key ie.2) = None /\ s = ns
        \/ is_Some (valid_path_of prefix (ee_key ie.2)) /\ s ∈ taken_segments prefix entries).
Proof.
  intros Hin Hns. simpl. destruct (valid_path_of prefix (ee_key ie.2)) as [p|] eqn:E; simpl.
  - destruct (first_segment p) as [s|] eqn:Ep.
    + exists s. split; [done|]. right. split; [done|]. apply elem_of_list_to_set, list_elem_of_omap.
      exists ie. split; [done|]. by rewrite E.
    + unfold first_segment in Ep. destruct (split "/" p) eqn:Es; [|done]. by apply split_not_nil in Es.
  - exists ns. split; [by apply first_segment_namespace|]. by left.
Qed.

Lemma winning_paths_distinct prefix ns entries :
  (ns ∉ taken_segments prefix entries) -> str_contains "/" ns = false ->
  NoDup (mf_relative_path <$> (manifest_file ns prefix <$> winning entries)).
Proof.
  intros Hns Hslash. rewrite <- list_fmap_compose. apply NoDup_fmap_2_strong; [|apply winning_nodup].
  intros [i e] [j e'] Hi Hj E.
  destruct (winning_path prefix ns _ _ Hi Hslash) as (s & Es & Hs).
  destruct (winning_path prefix ns _ _ Hj Hslash) as (s' & Es' & Hs').
  simpl in *. rewrite E in Es. rewrite Es' in Es. injection Es as ->.
  apply winning_elem in Hi as (n & -> & He & Hw), Hj as (m & -> & He' & Hw').
  destruct (valid_path_of prefix (ee_key e)) as [p|] eqn:Ep,
    (valid_path_of prefix (ee_key e')) as [p'|] eqn:Ep'; simpl in *;
    destruct Hs as [[? ?]|[[? ?] ?]], Hs' as [[? ?]|[[? ?] ?]]; simplify_eq; try done.
  apply valid_path_of_Some in Ep as [Ek _], Ep' as [Ek' _].
  unfold wins in *. simpl in *. rewrite Ek, Ek' in *. by simplify_eq.
Qed.

Lemma failure_paths_distinct fs failures :
  NoDup (mx_path <$> (manifest_failure fs <$> enumerate failures)).
Proof.
  rewrite <- list_fmap_compose. apply NoDup_fmap_2_strong.
  - intros [i x] [j y] (n & -> & Hx)%elem_of_enumerate (m & -> & Hy)%elem_of_enumerate E.
    simpl in E. apply str_app_inj_l in E. by simplify_eq.
  - eapply StronglySorted_NoDup; [|apply enumerate_sorted]. intros [i x]. simpl. lia.
Qed.

Lemma before_matches_elem c s d : d ∈ before_matches c s <-> exists rest, s = d +:+ String c rest.
Proof.
  revert d. induction s as [|a s IH]; intros d; simpl.
  { rewrite elem_of_nil. split; [done|]. intros [r E]. by destruct d. }
  rewrite elem_of_app, list_elem_of_fmap. setoid_rewrite IH. split.
  - intros [Hd|(d' & -> & r & ->)]; [|by exists r].
    destruct (ascii_dec a c) as [->|]; [|by apply elem_of_nil in Hd].
    apply list_elem_of_singleton in Hd as ->. by exists s.
  - intros [r E]. destruct d as [|b d]; simpl in E; injection E as -> ->.
    + left. destruct (ascii_dec c c); [|done]. by apply list_elem_of_singleton.
    + right. exists d. split; [done|]. by exists r.
Qed.

(** No path of a file is a directory of another file. *)
Definition no_file_is_directory (files : list ManifestFile) : Prop :=
  forall f g rest, f ∈ files -> g ∈ files -> mf_relative_path g <> mf_relative_path f +:+ "/" +:+ rest.

Lemma has_file_directory_conflict_false files :
  has_file_directory_conflict files = false <-> no_file_is_directory files.
Proof.
  unfold has_file_directory_conflict, no_file_is_directory.
  rewrite <- not_true_iff_false, existsb_exists.
  setoid_rewrite existsb_exists. setoid_rewrite <- list_elem_of_In.
  setoid_rewrite bool_decide_eq_true. setoid_rewrite elem_of_list_to_set.
  setoid_rewrite list_elem_of_fmap. setoid_rewrite before_matches_elem.
  split.
  - intros Hno f g rest Hf Hg E. apply Hno. exists g. split; [done|].
    exists (mf_relative_path f). split; [by exists rest|]. by exists f.
  - intros Hno (g & Hg & d & [rest E] & f & -> & Hf). exact (Hno f g rest Hf Hg E).
Qed.

(** the manifest of an extraction is always built (neither namespace search runs out of names
    and no index is out of range).  When every entry is within the limits its files are, in
    archive order, the last successful entry of each object key, with its content identifier and
    size, and every failure is kept under a fixed code; otherwise the manifest is empty and
    marked invalid. *)
Theorem final_zip_manifest_last_wins entries failures prefix :
  exists m, final_zip_manifest entries failures prefix = Some m
    /\ if forallb entry_accepted entries then
         (fun f => (mf_object_key f, mf_cid f, mf_size f)) <$> fm_successful m
         = (fun e => (ee_key e, ee_cid e, ee_size e)) <$> last_occurrences entries
         /\ mx_code <$> fm_failed m = (fun x => safe_failure_code (ef_code x)) <$> failures
       else m = invalid_manifest.
Proof.
  destruct (forallb entry_accepted entries) eqn:Hok.
  - destruct (final_zip_manifest_run entries failures prefix Hok) as (ns & fs & _ & _ & _ & _ & _ & _ & _ & ->).
    eexists. split; [done|]. simpl. rewrite <- winning_last, <- !list_fmap_compose. split; [done|].
    unfold enumerate. rewrite fmap_imap, <- (imap_const _ failures). by apply imap_ext.
  - eexists. split; [by apply final_zip_manifest_rejected|done].
Qed.

Lemma manifest_items_nodup entries failures prefix m :
  final_zip_manifest entries failures prefix = Some m ->
  NoDup (item_path <$> manifest_items m).
Proof.
  intros Hm. destruct (forallb entry_accepted entries) eqn:Hok; last first.
  { rewrite final_zip_manifest_rejected in Hm by done. injection Hm as <-. constructor. }
  destruct (final_zip_manifest_run entries failures prefix Hok)
    as (ns & fs & Hns & Hfs & Hne & Hns' & Hfs' & _ & _ & E). rewrite E in Hm. injection Hm as <-.
  unfold manifest_items. rewrite fmap_app, <- !list_fmap_compose. simpl.
  apply NoDup_app. split; [|split].
  - exact (winning_paths_distinct prefix ns entries Hns Hns').
  - intros x (f & -> & (ie & -> & Hw)%list_elem_of_fmap)%list_elem_of_fmap
      (g & E' & (ix & -> & _)%list_elem_of_fmap)%list_elem_of_fmap. simpl in E'.
    destruct (winning_path prefix ns _ _ Hw Hns') as (s & Es & Hs). simpl in Es.
    rewrite E' in Es. change (String "/" (pretty ix.1)) with ("/" +:+ pretty ix.1) in Es.
    rewrite first_segment_namespace in Es by done. injection Es as <-. naive_solver.
  - exact (failure_paths_distinct fs failures).
Qed.

(** every item of a manifest, published object or failure, has its own path: paths of keys
    under the prefix and the synthetic paths of other keys and of failures never collide. *)
Theorem manifest_paths_distinct entries failures prefix m :
  final_zip_manifest entries failures prefix = Some m ->
  NoDup (item_path <$> manifest_items m).
Proof. apply manifest_items_nodup. Qed.

(** a manifest names a directory root exactly when every entry is within the limits, there are
    at most 10000 records, every key is the prefix followed by a valid relative path, and no file
    is a directory of another; its directory files are then the published keys without the
    prefix. *)
Theorem manifest_root_spec entries failures prefix m :
  final_zip_manifest entries failures prefix = Some m ->
  (fm_root_error m = None <->
   forallb entry_accepted entries = true
   /\ over_limit entries failures = false
   /\ Forall (fun e => is_Some (valid_path_of prefix (ee_key e))) entries
   /\ no_file_is_directory (fm_successful m))
  /\ (fm_root_error m = None ->
      Forall (fun f => mf_object_key f = prefix +:+ mf_relative_path f
                       /\ valid_relative_path (mf_relative_path f) = true) (fm_successful m)
      /\ df_path <$> directory_files m = mf_relative_path <$> fm_successful m).
Proof.
  intros Hm. destruct (forallb entry_accepted entries) eqn:Hok; last first.
  { rewrite final_zip_manifest_rejected in Hm by done. injection Hm as <-. simpl. intuition discriminate. }
  destruct (final_zip_manifest_run entries failures prefix Hok) as (ns & fs & _ & _ & _ & _ & _ & _ & _ & E).
  rewrite E in Hm. injection Hm as <-. simpl.
  assert (existsb (fun e => is_none (valid_path_of prefix (ee_key e))) entries = false
          <-> Forall (fun e => is_Some (valid_path_of prefix (ee_key e))) entries) as Hall.
  { rewrite <- not_true_iff_false, existsb_exists, Forall_forall. setoid_rewrite <- list_elem_of_In.
    setoid_rewrite <- is_none_false. split.
    - intros Hno e He. apply not_true_iff_false. intros Hn. apply Hno. by exists e.
    - intros Hall (e & He & Hn). apply Hall in He. congruence. }
  rewrite <- has_file_directory_conflict_false, <- Hall.
  destruct (existsb _ entries) eqn:Ex, (over_limit entries failures); simpl; try (intuition discriminate).
  destruct (has_file_directory_conflict _); [intuition discriminate|].
  split; [done|]. intros _. split; [|unfold directory_files; simpl; by rewrite <- !list_fmap_compose].
  apply Forall_fmap, Forall_forall. intros [i e] (n & -> & He & _)%winning_elem. simpl.
  apply proj1 in Hall. specialize (Hall eq_refl). rewrite Forall_forall in Hall.
  destruct (Hall e) as [p Hp]; [by eapply list_elem_of_lookup_2|].
  rewrite Hp. by apply valid_path_of_Some in Hp.
Qed.

(** ** Every path of a manifest can be stored *)

(** The characters of synthetic paths. *)
Definition plain_char (c : ascii) : bool :=
  let n := N_of_ascii c in ((97 <=? n) && (n <=? 122) || (48 <=? n) && (n <=? 57) || (n =? 45))%N.
Definition plain (s : string) : bool := string_forallb plain_char s.

Lemma plain_app a b : plain (a +:+ b) = plain a && plain b.
Proof.
  unfold plain. induction a as [|c a IH]; [done|].
  change (plain_char c && string_forallb plain_char (a +:+ b)
          = plain_char c && string_forallb plain_char a && string_forallb plain_char b).
  by rewrite IH, andb_assoc.
Qed.

Lemma plain_no_char c s : plain_char c = false -> plain s = true -> str_contains c s = false.
Proof.
  intros Hc. induction s as [|a s IH]; [done|].
  change (plain (String a s)) with (plain_char a && plain s). intros [Ha Hs]%andb_true_iff. simpl.
  destruct (ascii_dec a c); [congruence|auto].
Qed.

Lemma plain_no_control s t : plain s = true -> any_control (s +:+ t) = any_control t.
Proof.
  induction s as [|c s IH]; [done|]. change (plain (String c s)) with (plain_char c && plain s).
  intros [Hc Hs]%andb_true_iff. change (String c s +:+ t) with (String c (s +:+ t)). simpl any_control.
  rewrite IH by done. assert (45 <= N_of_ascii c <= 122)%N as Hr.
  { unfold plain_char in Hc. apply orb_true_iff in Hc as [[Hc|Hc]%orb_true_iff|Hc%N.eqb_eq]; [| |lia];
      apply andb_true_iff in Hc as [?%N.leb_le ?%N.leb_le]; lia. }
  replace (N_of_ascii c <? 32)%N with false by (symmetry; apply N.ltb_ge; lia).
  replace (N_of_ascii c =? 127)%N with false by (symmetry; apply N.eqb_neq; lia).
  replace (N_of_ascii c =? 194)%N with false by (symmetry; apply N.eqb_neq; lia). done.
Qed.

Lemma pretty_N_char_plain d : plain_char (pretty_N_char d) = true.
Proof. unfold pretty_N_char. by repeat case_match. Qed.

Lemma pretty_N_plain (n : N) : plain (pretty n) = true.
Proof. apply pretty_N_forallb, pretty_N_char_plain. Qed.

(** A number below [10 ^ (d + 1)] has at most [d + 1] digits. *)
Lemma pretty_N_go_length d n s :
  (n < 10 ^ N.of_nat d)%N -> (String.length (pretty_N_go n s) <= d + String.length s)%nat.
Proof.
  revert n s. induction d as [|d IH]; intros n s Hn.
  { simpl in Hn. assert (n = 0)%N as -> by lia. by rewrite pretty_N_go_0. }
  assert (n = 0 \/ 0 < n)%N as [->|Hp] by lia; [rewrite pretty_N_go_0; lia|].
  rewrite pretty_N_go_step by done. etrans; [apply IH|simpl; lia].
  apply N.Div0.div_lt_upper_bound. rewrite Nat2N.inj_succ, N.pow_succ_r' in Hn. lia.
Qed.

Lemma pretty_N_length d (n : N) :
  (0 < d)%nat -> (n < 10 ^ N.of_nat d)%N -> (0 < String.length (pretty n) <= d)%nat.
Proof.
  intros Hd Hn. unfold pretty, pretty_N. case_decide as H0; [simpl; lia|].
  split; [|pose proof (pretty_N_go_length d n "" Hn) as Hl; simpl in Hl; lia].
  rewrite pretty_N_go_step by lia.
  assert (forall m s, (String.length s <= String.length (pretty_N_go m s))%nat) as Hge.
  { intros m. induction (N.lt_wf_0 m) as [m _ IH]; intros s.
    assert (m = 0 \/ 0 < m)%N as [->|Hm] by lia; [by rewrite pretty_N_go_0|].
    rewrite pretty_N_go_step by done. etrans; [|apply IH; apply N.div_lt; lia]. simpl. lia. }
  pose proof (Hge (n `div` 10)%N (String (pretty_N_char (n `mod` 10)) "")) as Hl. simpl in Hl. lia.
Qed.

Lemma pretty_Z_of_nat (n : nat) : pretty (Z.of_nat n) = pretty (N.of_nat n).
Proof. by destruct n. Qed.

Lemma synthetic_path_valid ns n :
  plain ns = true -> ns <> "" -> valid_relative_path (ns +:+ "/" +:+ pretty (Z.of_nat n)) = true.
Proof.
  intros Hns Hne. rewrite pretty_Z_of_nat. pose proof (pretty_N_plain (N.of_nat n)) as Hp.
  assert (pretty (N.of_nat n) <> "") as Hpe.
  { intros E. destruct (pretty_N_length (S n) (N.of_nat n)) as [Hl _]; [lia| |].
    - pose proof (N.pow_gt_lin_r 10 (N.of_nat (S n))). lia.
    - rewrite E in Hl. simpl in Hl. lia. }
  set (d := pretty (N.of_nat n)) in *. unfold valid_relative_path.
  change (ns +:+ "/" +:+ d) with (ns +:+ String "/" d).
  rewrite str_contains_app, plain_no_control, split_app_sep, starts_with_app_char by done. simpl.
  rewrite !(plain_no_char "\") by done. rewrite <- (str_app_nil_r d) at 2. rewrite plain_no_control by done.
  rewrite !split_no_contains by (by apply plain_no_char). simpl.
  assert (forall s, plain s = true -> s <> "" ->
    negb (str_is_empty s) && negb (String.eqb s ".") && negb (String.eqb s "..") = true) as Hseg.
  { intros s Hs Hse. destruct (String.eqb_spec s "."); [by subst|]. destruct (String.eqb_spec s ".."); [by subst|].
    by destruct s. }
  rewrite !Hseg by done.
  replace (starts_with "/" ns) with false; [by destruct ns|].
  destruct ns as [|a ns]; [done|]. unfold starts_with. cbn [strip_prefix].
  destruct (ascii_dec "/" a) as [<-|]; [discriminate Hns|done].
Qed.

Lemma candidate_plain base taken c :
  plain base = true -> base <> "" -> c ∈ namespace_candidates base taken -> plain c = true /\ c <> "".
Proof.
  intros Hb Hne (n & -> & _)%list_elem_of_fmap. case_decide; [done|]. split; [|by destruct base].
  rewrite !plain_app, Hb. simpl. apply pretty_N_plain.
Qed.

Lemma candidate_length base taken c :
  Z.of_nat taken < 2 ^ 64 -> c ∈ namespace_candidates base taken ->
  (String.length c <= String.length base + 21)%nat.
Proof.
  intros Ht (n & -> & Hn%elem_of_seq)%list_elem_of_fmap. case_decide; [lia|].
  rewrite !str_length_app. change (pretty n) with (pretty (N.of_nat n)).
  destruct (pretty_N_length 20 (N.of_nat n)) as [_ Hl]; [lia| |simpl; lia].
  change (10 ^ N.of_nat 20)%N with 100000000000000000000%N. lia.
Qed.

Lemma synthetic_length ns n :
  Z.of_nat n < 2 ^ 64 -> (String.length ns <= 28)%nat ->
  (String.length (ns +:+ "/" +:+ pretty (Z.of_nat n)) <= 49)%nat.
Proof.
  intros Hn Hl. rewrite !str_length_app, pretty_Z_of_nat. simpl.
  destruct (pretty_N_length 20 (N.of_nat n)) as [_ Hp]; [lia| |lia].
  change (10 ^ N.of_nat 20)%N with 100000000000000000000%N. lia.
Qed.

(** What the store asks of an item before it writes a row for it. *)
Definition item_storable (item : ManifestItem) : Prop :=
  valid_relative_path (item_path item) = true /\ str_len (item_path item) <= 1024
  /\ match item with
     | Success _ object_key cid size =>
       object_key <> "" /\ str_len object_key <= 1024 /\ cid <> "" /\ str_len cid <= 4096 /\ 0 <= size
     | Failure _ code => code ∈ ["entry_read_failed"; "entry_upload_failed"; "entry_failed"]
     end.

Lemma synthetic_storable base taken ns n :
  plain base = true -> base <> "" -> (String.length base <= 7)%nat ->
  ns ∈ namespace_candidates base taken -> Z.of_nat taken < 2 ^ 63 -> Z.of_nat n < 2 ^ 64 ->
  valid_relative_path (ns +:+ "/" +:+ pretty (Z.of_nat n)) = true
  /\ str_len (ns +:+ "/" +:+ pretty (Z.of_nat n)) <= 1024.
Proof.
  intros Hb Hne Hl Hc Ht Hn. destruct (candidate_plain _ _ _ Hb Hne Hc) as [Hp Hns].
  split; [by apply synthetic_path_valid|]. apply candidate_length in Hc; [|lia].
  pose proof (synthetic_length ns n Hn). unfold str_len. lia.
Qed.

Lemma taken_segments_size prefix entries : (size (taken_segments prefix entries) <= length entries)%nat.
Proof.
  unfold taken_segments.
  assert (forall l : list string, size (list_to_set l : gset string) <= length l)%nat as Hs.
  { induction l as [|x l IH]; [done|]. rewrite list_to_set_cons. cbn [length].
    assert (size ({[x]} ∪ list_to_set l : gset string) <= S (size (list_to_set l : gset string)))%nat; [|lia].
    destruct (decide (x ∈ (list_to_set l : gset string))) as [Hx|Hx].
    - replace ({[x]} ∪ list_to_set l) with (list_to_set l : gset string) by set_solver. lia.
    - rewrite size_union, size_singleton by set_solver. lia. }
  etrans; [apply Hs|]. assert (length (winning entries) <= length entries)%nat as Hw.
  { unfold winning. etrans; [apply length_filter|]. unfold enumerate. by rewrite length_imap. }
  etrans; [|exact Hw]. clear Hw Hs. induction (winning entries) as [|ie l IH]; csimpl; [done|].
  destruct (valid_path_of _ _ ≫= _); simpl; lia.
Qed.

Lemma strip_prefix_shorter p s t : strip_prefix p s = Some t -> str_len t <= str_len s.
Proof. intros ->%strip_prefix_Some. rewrite str_len_app. pose proof (str_len_nonneg p). lia. Qed.

(** Every item of a manifest can be stored. *)
Lemma manifest_items_storable entries failures prefix m :
  final_zip_manifest entries failures prefix = Some m ->
  Forall (fun e => ee_key e <> "") entries ->
  Z.of_nat (length entries) < 2 ^ 63 -> Z.of_nat (length failures) < 2 ^ 63 ->
  Forall item_storable (manifest_items m).
Proof.
  intros Hm Hk Hle Hlf. destruct (forallb entry_accepted entries) eqn:Hok; last first.
  { rewrite final_zip_manifest_rejected in Hm by done. injection Hm as <-. constructor. }
  destruct (final_zip_manifest_run entries failures prefix Hok)
    as (ns & fs & _ & _ & _ & _ & _ & Hns & Hfs & E). rewrite E in Hm. injection Hm as <-.
  pose proof (taken_segments_size prefix entries) as Hsz.
  unfold manifest_items. apply Forall_app. split; apply Forall_fmap, Forall_fmap, Forall_forall; simpl.
  - intros [i e] (n & -> & He & _)%winning_elem. unfold item_storable. simpl.
    assert (n < length entries)%nat by (by eapply lookup_lt_Some).
    rewrite Forall_lookup in Hk. specialize (Hk _ _ He).
    rewrite forallb_forall in Hok. specialize (Hok e). unfold entry_accepted in Hok.
    rewrite <- list_elem_of_In in Hok. specialize (Hok ltac:(by eapply list_elem_of_lookup_2)).
    apply negb_true_iff in Hok. guard_inv. apply Logic.and_assoc. split; [|split_and!; [done|lia|by intros Ec; rewrite Ec in *|lia|lia]].
    destruct (valid_path_of prefix (ee_key e)) as [p|] eqn:Hp; simpl.
    + unfold valid_path_of in Hp. destruct (strip_prefix prefix (ee_key e)) as [q|] eqn:Hq; [|done]. simpl in Hp.
      destruct (valid_relative_path q) eqn:Hv; [|done]. injection Hp as ->.
      apply strip_prefix_shorter in Hq. split; [done|lia].
    + apply (synthetic_storable "invalid" (size (taken_segments prefix entries))); try done; simpl; lia.
  - intros [i x] (n & -> & Hx)%elem_of_enumerate. unfold item_storable. simpl.
    assert (n < length failures)%nat by (by eapply lookup_lt_Some). apply Logic.and_assoc. split.
    + apply (synthetic_storable "failed" (size (taken_segments prefix entries))); try done; simpl; lia.
    + unfold safe_failure_code. repeat case_match; set_solver.
Qed.

(** ** A sample archive *)

Definition sample_entry (key cid : string) (size : Z) : ExtractedEntry :=
  {| ee_key := key; ee_cid := cid; ee_size := size |}.
Definition sample_failure : ExtractFailure :=
  {| ef_entry_name := "broken"; ef_code := "EntryReadFailed"; ef_message := "truncated" |}.

(** A key occurs twice, a key has an empty segment, and a real path uses the reserved name. *)
Lemma manifest_paths_distinct_witness :
  NoDup ["invalid/3"; "b"; "invalid-1/3"; "failed/0"].
Proof.
  eassert (final_zip_manifest
    [sample_entry "out/b" "c1" 1; sample_entry "out/invalid/3" "c2" 2;
     sample_entry "out/b" "c3" 3; sample_entry "out/a//c" "c4" 4]
    [sample_failure] "out/" = Some _) as E by (vm_compute; reflexivity).
  exact (manifest_paths_distinct _ _ _ _ E).
Defined.

Lemma manifest_root_spec_witness :
  df_path <$> directory_files
    {| fm_successful := [{| mf_relative_path := "a/b"; mf_object_key := "out/a/b"; mf_cid := "c1"; mf_size := 1 |}];
       fm_failed := []; fm_root_error := None |} = ["a/b"].
Proof.
  refine (proj2 (proj2 (manifest_root_spec [sample_entry "out/a/b" "c1" 1] [] "out/" _ _) _)).
  - vm_compute. reflexivity.
  - reflexivity.
Defined.
