(* ===== verification/ZipInput.v ===== *)
(** * ZIP input: byte budget and local headers ([src/zip/input_budget.rs],
    [src/zip/local_header.rs])

    The stream that bounds the raw bytes of an archive, over an arbitrary source stream, and the
    probe that records each local file header and data descriptor as the reader consumes it.
    Locks and atomics hold plain values here: every operation runs under the probe's mutex, and
    the counters have one writer. *)

From Stdlib Require Import ZArith Lia Strings.Byte.
From stdpp Require Import base list option.
From S2P Require Import Prelude Bytes.

#[local] Open Scope Z_scope.

(** [std::task::Poll] *)
Inductive Poll (A : Type) : Type :=
| Pending
| Ready (a : A).
Arguments Pending {A}.
Arguments Ready {A} a.

(** ** [ZipInputBudget] *)

Inductive ZipInputError (E : Type) : Type :=
| Upstream (error : E)
| LimitExceeded.
Arguments Upstream {E} error.
Arguments LimitExceeded {E}.

Record InputState : Type := { is_total : Z; is_clean_eof : bool; is_limit_exceeded : bool }.

Record ZipInputBudget (S : Type) : Type :=
  { zb_source : S; zb_max_bytes : Z; zb_state : InputState; zb_terminated : bool }.
Arguments zb_source {S} _.
Arguments zb_max_bytes {S} _.
Arguments zb_state {S} _.
Arguments zb_terminated {S} _.

Section budget.
(** The wrapped stream: one [poll_next] of it. *)
Context {S E : Type} (poll_source : S -> S * Poll (option (result E (list byte)))).

Definition budget_new (source : S) (max_bytes : Z) : ZipInputBudget S :=
  {| zb_source := source; zb_max_bytes := max_bytes;
     zb_state := {| is_total := 0; is_clean_eof := false; is_limit_exceeded := false |};
     zb_terminated := false |}.

Definition poll_next (this : ZipInputBudget S) :
    ZipInputBudget S * Poll (option (result (ZipInputError E) (list byte))) :=
  if zb_terminated this then (this, Ready None) else
  let '(source, polled) := poll_source (zb_source this) in
  let st := zb_state this in
  let with_ (st : InputState) (terminated : bool) :=
    {| zb_source := source; zb_max_bytes := zb_max_bytes this; zb_state := st; zb_terminated := terminated |} in
  match polled with
  | Pending => (with_ st false, Pending)
  | Ready None =>
    (with_ {| is_total := is_total st; is_clean_eof := true; is_limit_exceeded := is_limit_exceeded st |} true,
     Ready None)
  | Ready (Some (Err error)) => (with_ st true, Ready (Some (Err (Upstream error))))
  | Ready (Some (Ok bytes)) =>
    match u64_checked_add (is_total st) (Z.of_nat (length bytes)) with
    | Some next =>
      if next <=? zb_max_bytes this then
        (with_ {| is_total := next; is_clean_eof := is_clean_eof st; is_limit_exceeded := is_limit_exceeded st |} false,
         Ready (Some (Ok bytes)))
      else
        (with_ {| is_total := is_total st; is_clean_eof := is_clean_eof st; is_limit_exceeded := true |} true,
         Ready (Some (Err LimitExceeded)))
    | None =>
      (with_ {| is_total := is_total st; is_clean_eof := is_clean_eof st; is_limit_exceeded := true |} true,
       Ready (Some (Err LimitExceeded)))
    end
  end.

(** [n] polls by the consumer. *)
Fixpoint poll_many (n : nat) (this : ZipInputBudget S) :
    ZipInputBudget S * list (Poll (option (result (ZipInputError E) (list byte)))) :=
  match n with
  | O => (this, [])
  | Datatypes.S n =>
    let '(this, out) := poll_next this in
    let '(this, outs) := poll_many n this in
    (this, out :: outs)
  end.

(** What the source alone delivers in [n] polls. *)
Fixpoint source_polls (n : nat) (s : S) : list (Poll (option (result E (list byte)))) :=
  match n with
  | O => []
  | Datatypes.S n => let '(s, out) := poll_source s in out :: source_polls n s
  end.

(** The chunks among polled items. *)
Definition chunks_of {F} (outs : list (Poll (option (result F (list byte))))) : list (list byte) :=
  omap (fun out => match out with Ready (Some (Ok bytes)) => Some bytes | _ => None end) outs.
Definition errors_of {F} (outs : list (Poll (option (result F (list byte))))) : list F :=
  omap (fun out => match out with Ready (Some (Err e)) => Some e | _ => None end) outs.

(** The size of the chunks together. *)
Definition total_len (chunks : list (list byte)) : Z := Z.of_nat (length (concat chunks)).
End budget.

(** ** [LocalHeaderProbe] *)

Definition LOCAL_HEADER_LEN : nat := 30.
Definition LOCAL_HEADER_SIGNATURE : list byte := [x50; x4b; x03; x04].
(** [0x0807_4b50_u32.to_le_bytes()] *)
Definition DESCRIPTOR_SIGNATURE : list byte := [x50; x4b; x07; x08].

Definition MAX_ARCHIVE_ENTRIES : Z := 10000.
Definition MAX_ARCHIVE_METADATA_BYTES : Z := 64 * 1024 * 1024.

Record LocalHeaderMeta : Type := { lh_general_purpose_flags : Z; lh_compression_method : Z }.

Definition uses_descriptor (m : LocalHeaderMeta) : bool :=
  negb (Z.land (lh_general_purpose_flags m) (Z.shiftl 1 3) =? 0).

Record ProbeState : Type :=
  { ps_armed : bool; ps_header : list byte; ps_descriptor : bool; ps_position : Z;
    ps_entries_left : Z; ps_metadata_left : Z; ps_prefix_bytes : Z; ps_limit_exceeded : bool }.

Definition probe_new : ProbeState :=
  {| ps_armed := false; ps_header := []; ps_descriptor := false; ps_position := 0;
     ps_entries_left := MAX_ARCHIVE_ENTRIES; ps_metadata_left := MAX_ARCHIVE_METADATA_BYTES;
     ps_prefix_bytes := 0; ps_limit_exceeded := false |}.

Definition set_budget (entries metadata prefix_bytes : Z) (s : ProbeState) : ProbeState :=
  {| ps_armed := ps_armed s; ps_header := ps_header s; ps_descriptor := ps_descriptor s;
     ps_position := ps_position s; ps_entries_left := entries; ps_metadata_left := metadata;
     ps_prefix_bytes := prefix_bytes; ps_limit_exceeded := ps_limit_exceeded s |}.

Definition probe_arm (descriptor : bool) (s : ProbeState) : ProbeState :=
  {| ps_armed := true; ps_header := []; ps_descriptor := descriptor; ps_position := ps_position s;
     ps_entries_left := ps_entries_left s; ps_metadata_left := ps_metadata_left s;
     ps_prefix_bytes := ps_prefix_bytes s; ps_limit_exceeded := ps_limit_exceeded s |}.
Definition begin_header : ProbeState -> ProbeState := probe_arm false.
Definition begin_descriptor : ProbeState -> ProbeState := probe_arm true.

Definition probe_disarm (s : ProbeState) : ProbeState :=
  {| ps_armed := false; ps_header := ps_header s; ps_descriptor := ps_descriptor s;
     ps_position := ps_position s; ps_entries_left := ps_entries_left s;
     ps_metadata_left := ps_metadata_left s; ps_prefix_bytes := ps_prefix_bytes s;
     ps_limit_exceeded := ps_limit_exceeded s |}.

(** Little-endian fields; the callers have checked the length. *)
Definition byte_at (bytes : list byte) (i : nat) : Z := from_option b2z 0 (bytes !! i).
Definition u16_at (bytes : list byte) (offset : nat) : Z :=
  byte_at bytes offset + 2 ^ 8 * byte_at bytes (offset + 1).
Definition u32_at (bytes : list byte) (offset : nat) : Z :=
  u16_at bytes offset + 2 ^ 16 * u16_at bytes (offset + 2).

Definition slice_starts_with (p bytes : list byte) : bool := bool_decide (take (length p) bytes = p).

Definition descriptor_matches (crc compressed size : Z) (s : ProbeState) : ProbeState * bool :=
  let bytes := ps_header s in
  let bytes := if slice_starts_with DESCRIPTOR_SIGNATURE bytes then drop 4 bytes else bytes in
  (probe_disarm s,
   (length bytes =? 12)%nat && (u32_at bytes 0 =? crc) && (u32_at bytes 4 =? compressed)
   && (u32_at bytes 8 =? size)).

Inductive HeaderError : Type := HeaderTooShort | HeaderBadSignature.

Definition probe_take (s : ProbeState) : ProbeState * result HeaderError LocalHeaderMeta :=
  let header := ps_header s in
  (probe_disarm s,
   bail_if negb (length header =? LOCAL_HEADER_LEN)%nat with HeaderTooShort else
   bail_if negb (bool_decide (take 4 header = LOCAL_HEADER_SIGNATURE)) with HeaderBadSignature else
   Ok {| lh_general_purpose_flags := u16_at header 6; lh_compression_method := u16_at header 8 |}).

(** The bytes reserved for an entry whose name and extra field have these sizes. *)
Definition header_charge (header : list byte) (prefix_bytes : Z) : Z :=
  u64_saturating_add 4096 (u64_saturating_mul 8 (u16_at header 26 + u16_at header 28 + prefix_bytes)).

Inductive BudgetError : Type := BudgetExceeded.

(** [observe_consumed]; on an error the state is updated as well. *)
Definition observe_consumed (bytes : list byte) (s : ProbeState) : ProbeState * result BudgetError unit :=
  let position := ps_position s + Z.of_nat (length bytes) in
  let with_ header entries metadata exceeded :=
    {| ps_armed := ps_armed s; ps_header := header; ps_descriptor := ps_descriptor s;
       ps_position := position; ps_entries_left := entries; ps_metadata_left := metadata;
       ps_prefix_bytes := ps_prefix_bytes s; ps_limit_exceeded := exceeded |} in
  let wanted := if ps_descriptor s then 16%nat else LOCAL_HEADER_LEN in
  if negb (ps_armed s) || (length (ps_header s) =? wanted)%nat then
    (with_ (ps_header s) (ps_entries_left s) (ps_metadata_left s) (ps_limit_exceeded s), Ok tt) else
  let n := Nat.min (length bytes) (wanted - length (ps_header s)) in
  let header := ps_header s ++ take n bytes in
  if negb (ps_descriptor s) && (length header =? LOCAL_HEADER_LEN)%nat
     && bool_decide (take 4 header = LOCAL_HEADER_SIGNATURE) then
    let charge := header_charge header (ps_prefix_bytes s) in
    if (ps_entries_left s =? 0) || (ps_metadata_left s <? charge) then
      (with_ header (ps_entries_left s) (ps_metadata_left s) true, Err BudgetExceeded)
    else
      (with_ header (ps_entries_left s - 1) (ps_metadata_left s - charge) (ps_limit_exceeded s), Ok tt)
  else (with_ header (ps_entries_left s) (ps_metadata_left s) (ps_limit_exceeded s), Ok tt).

(** [AsyncBufRead::consume] *)
Definition probe_consume (amount : Z) (s : ProbeState) : ProbeState :=
  {| ps_armed := ps_armed s; ps_header := ps_header s; ps_descriptor := ps_descriptor s;
     ps_position := ps_position s + amount; ps_entries_left := ps_entries_left s;
     ps_metadata_left := ps_metadata_left s; ps_prefix_bytes := ps_prefix_bytes s;
     ps_limit_exceeded := ps_limit_exceeded s |}.

(** The number of bytes one read may fill while a header is recorded. *)
Definition read_cap (remaining : nat) (s : ProbeState) : nat :=
  if ps_armed s && negb (ps_descriptor s) && (length (ps_header s) <? LOCAL_HEADER_LEN)%nat
  then Nat.min remaining (LOCAL_HEADER_LEN - length (ps_header s)) else remaining.

(** ** The byte budget *)

(** How a consumer's polls can end, given the source's polls [src] that were used: the stream is
    still open, or it ended cleanly, or with the source's error, or with the first chunk that does
    not fit. *)
Inductive budget_outcome {E} (max used : Z) (src : list (Poll (option (result E (list byte))))) :
    list (list byte) -> list (ZipInputError E) -> bool -> bool -> bool -> Prop :=
| outcome_open :
    errors_of src = [] -> (Ready None ∉ src) ->
    budget_outcome max used src (chunks_of src) [] false false false
| outcome_eof before :
    errors_of src = [] -> src = before ++ [Ready None] ->
    budget_outcome max used src (chunks_of src) [] true true false
| outcome_error e :
    errors_of src = [e] ->
    budget_outcome max used src (chunks_of src) [Upstream e] true false false
| outcome_limit kept chunk :
    errors_of src = [] -> chunks_of src = kept ++ [chunk] -> max < used + total_len (kept ++ [chunk]) ->
    budget_outcome max used src kept [LimitExceeded] true false true.

Lemma total_len_cons c cs : total_len (c :: cs) = Z.of_nat (length c) + total_len cs.
Proof. unfold total_len. simpl. rewrite length_app. lia. Qed.

Lemma total_len_nonneg cs : 0 <= total_len cs.
Proof. unfold total_len. lia. Qed.

Section budget_proofs.
Context {S E : Type} (poll_source : S -> S * Poll (option (result E (list byte)))).

Lemma poll_many_terminated n (b : ZipInputBudget S) :
  zb_terminated b = true -> poll_many poll_source n b = (b, replicate n (Ready None)).
Proof.
  intros Hb. induction n as [|n IH]; simpl; [done|]. unfold poll_next. rewrite Hb. by rewrite IH.
Qed.

(** Once the stream has ended only [None] follows. *)
Lemma ended_polls {F} n (out : Poll (option (result F (list byte)))) :
  chunks_of (out :: replicate n (Ready None)) = chunks_of [out]
  /\ errors_of (out :: replicate n (Ready None)) = errors_of [out].
Proof.
  assert (chunks_of (F := F) (replicate n (Ready None)) = []) as Hc by (induction n as [|m IH]; [done|exact IH]).
  assert (errors_of (F := F) (replicate n (Ready None)) = []) as He by (clear Hc; induction n as [|m IH]; [done|exact IH]).
  unfold chunks_of, errors_of in *. csimpl. rewrite Hc, He. done.
Qed.

(** A poll that is pending or delivers a chunk that fits leaves the rest to the remaining polls. *)
Lemma budget_outcome_cons max used (p : Poll (option (result E (list byte)))) src kept errs t c l :
  match p with Pending | Ready (Some (Ok _)) => True | _ => False end ->
  budget_outcome max (used + total_len (chunks_of [p])) src kept errs t c l ->
  budget_outcome max used (p :: src) (chunks_of [p] ++ kept) errs t c l.
Proof.
  intros Hp Ho.
  assert (errors_of (p :: src) = errors_of src) as He by (by destruct p as [|[[]|]]).
  assert (chunks_of (p :: src) = chunks_of [p] ++ chunks_of src) as Hc by (by destruct p as [|[[]|]]).
  inversion Ho as [H1 H2|before H1 H2|e H1|kept' chunk H1 H2 H3]; subst.
  - rewrite <- Hc. constructor; [by rewrite He|].
    intros [<-|?]%elem_of_cons; [done|]. by apply H2.
  - rewrite <- Hc. apply outcome_eof with (p :: before); [by rewrite He|done].
  - rewrite <- Hc. constructor. by rewrite He.
  - econstructor; [by rewrite He|by rewrite Hc, H2, app_assoc|].
    revert H3. unfold total_len. rewrite !concat_app, !length_app. lia.
Qed.

#[local] Ltac stop_here :=
  rewrite poll_many_terminated by done; intros [= <- <-];
  match goal with |- context [chunks_of (?o :: replicate ?n (Ready None))] =>
    destruct (ended_polls n o) as [-> ->] end;
  simpl; split; [change (total_len []) with 0; lia|]; split; [lia|];
  exists 1%nat; split; [lia|]; match goal with H : forall k, source_polls _ (Datatypes.S k) _ = _ |- _ => rewrite H end;
  simpl; repeat match goal with H : _ = false |- _ => rewrite H end.

Lemma poll_many_spec n (b b' : ZipInputBudget S) outs :
  zb_terminated b = false -> is_clean_eof (zb_state b) = false -> is_limit_exceeded (zb_state b) = false ->
  0 <= is_total (zb_state b) <= zb_max_bytes b -> zb_max_bytes b <= u64_max ->
  poll_many poll_source n b = (b', outs) ->
  is_total (zb_state b') = is_total (zb_state b) + total_len (chunks_of outs)
  /\ is_total (zb_state b') <= zb_max_bytes b
  /\ exists k, (k <= n)%nat
     /\ budget_outcome (zb_max_bytes b) (is_total (zb_state b)) (source_polls poll_source k (zb_source b))
          (chunks_of outs) (errors_of outs) (zb_terminated b')
          (is_clean_eof (zb_state b')) (is_limit_exceeded (zb_state b')).
Proof.
  revert b b' outs. induction n as [|n IH]; intros b b' outs Ht Hc Hl Htot Hmax; simpl.
  { intros [= <- <-]. rewrite Ht, Hc, Hl. split; [unfold total_len; simpl; lia|]. split; [lia|].
    exists 0%nat. split; [done|]. simpl. apply (outcome_open _ _ []); [done|]. apply not_elem_of_nil. }
  unfold poll_next at 1. rewrite Ht.
  destruct (poll_source (zb_source b)) as [s p] eqn:Ep.
  assert (forall k, source_polls poll_source (Datatypes.S k) (zb_source b) = p :: source_polls poll_source k s) as Esrc
    by (intros k; simpl; by rewrite Ep).
  destruct p as [|[[bytes|e]|]].
  - (* pending *)
    destruct (poll_many _ n _) as [b1 outs1] eqn:Em. intros [= <- <-].
    apply IH in Em as (E1 & E2 & k & Hk & Ho); try done. split; [done|]. split; [done|].
    exists (Datatypes.S k). split; [lia|]. rewrite Esrc. apply (budget_outcome_cons _ _ Pending); [done|].
    by rewrite Z.add_0_r.
  - (* a chunk *)
    unfold u64_checked_add, fits_u64.
    assert (total_len [bytes] = Z.of_nat (length bytes)) as Hlen
      by (rewrite total_len_cons; change (total_len []) with 0; lia).
    destruct (_ && _) eqn:Efit; [destruct (Z.leb_spec (is_total (zb_state b) + Z.of_nat (length bytes)) (zb_max_bytes b)) as [L|L]|].
    + destruct (poll_many _ n _) as [b1 outs1] eqn:Em. intros [= <- <-].
      apply IH in Em as (E1 & E2 & k & Hk & Ho); try done; [|simpl; lia].
      change (chunks_of (Ready (Some (Ok bytes)) :: outs1)) with (bytes :: chunks_of outs1).
      simpl in E1, E2. rewrite total_len_cons. split; [lia|]. split; [lia|].
      exists (Datatypes.S k). split; [lia|]. rewrite Esrc.
      apply (budget_outcome_cons _ _ (Ready (Some (Ok bytes)))); [done|].
      change (chunks_of [Ready (Some (Ok bytes))]) with [bytes]. by rewrite Hlen.
    + stop_here. apply (outcome_limit _ _ _ [] bytes); [done..|]. simpl. lia.
    + apply andb_false_iff in Efit as [Efit%Z.leb_gt|Efit%Z.leb_gt]; [lia|].
      stop_here. apply (outcome_limit _ _ _ [] bytes); [done..|]. simpl. lia.
  - (* an error *)
    stop_here. by apply (outcome_error _ _ [Ready (Some (Err e))]).
  - (* the end *)
    stop_here. by apply (outcome_eof _ _ [Ready None] []).
Qed.

(** whatever the source stream delivers and however often it is polled, the bytes forwarded are
    counted exactly and never exceed the limit.  What is forwarded is what the source delivered up
    to one of its polls, unchanged and in order: all of it while the stream is open, after a clean
    end (the only case in which the clean-end flag is set) and before a source error, and all but
    the last chunk when that chunk would exceed the limit (the only case in which the limit flag is
    set). *)
Theorem input_budget_bounds n source max_bytes (b : ZipInputBudget S) outs :
  is_u64 max_bytes ->
  poll_many poll_source n (budget_new source max_bytes) = (b, outs) ->
  is_total (zb_state b) = total_len (chunks_of outs)
  /\ is_total (zb_state b) <= max_bytes
  /\ exists k, (k <= n)%nat
     /\ budget_outcome max_bytes 0 (source_polls poll_source k source)
          (chunks_of outs) (errors_of outs) (zb_terminated b)
          (is_clean_eof (zb_state b)) (is_limit_exceeded (zb_state b)).
Proof.
  intros [Hlo Hhi] Hrun. by apply poll_many_spec in Hrun.
Qed.
End budget_proofs.

(** A source given by the list of what its polls return, ended by [None]. *)
Definition list_source {E} (l : list (Poll (option (result E (list byte))))) :
    list (Poll (option (result E (list byte)))) * Poll (option (result E (list byte))) :=
  match l with [] => ([], Ready None) | p :: l => (l, p) end.

(** Two bytes fit in a limit of three, the next two do not. *)
Lemma input_budget_bounds_witness :
  exists k, (k <= 4)%nat
    /\ budget_outcome (E := unit) 3 0
         (source_polls list_source k [Ready (Some (Ok [x00; x01])); Pending; Ready (Some (Ok [x02; x03]))])
         [[x00; x01]] [LimitExceeded] true false true.
Proof.
  refine (proj2 (proj2 (input_budget_bounds (E := unit) list_source 4
    [Ready (Some (Ok [x00; x01])); Pending; Ready (Some (Ok [x02; x03]))] 3 _ _ _ eq_refl))).
  unfold is_u64, u64_max. lia.
Defined.

(** ** Local headers *)

(** A sequence of reads, which stops at the first error. *)
Fixpoint observe_all (chunks : list (list byte)) (s : ProbeState) : ProbeState * result BudgetError unit :=
  match chunks with
  | [] => (s, Ok tt)
  | c :: cs =>
    match observe_consumed c s with
    | (s', Ok _) => observe_all cs s'
    | (s', Err e) => (s', Err e)
    end
  end.

Definition wanted (s : ProbeState) : nat := if ps_descriptor s then 16%nat else LOCAL_HEADER_LEN.

(** The recorded bytes never exceed the record. *)
Definition probe_wf (s : ProbeState) : Prop := (length (ps_header s) <= wanted s)%nat.

Lemma observe_wf bytes s : probe_wf s -> probe_wf (observe_consumed bytes s).1.
Proof.
  unfold probe_wf, observe_consumed, wanted. intros Hs.
  repeat case_match; simpl in *; try done; rewrite length_app, length_take; lia.
Qed.

(** What is recorded after reading [bytes], and whether that completes a local header. *)
Definition recorded (s : ProbeState) (bytes : list byte) : list byte :=
  if ps_armed s then take (wanted s) (ps_header s ++ bytes) else ps_header s.
Definition completes (s : ProbeState) (header : list byte) : bool :=
  ps_armed s && negb (ps_descriptor s) && (length (ps_header s) <? LOCAL_HEADER_LEN)%nat
  && (length header =? LOCAL_HEADER_LEN)%nat && bool_decide (take 4 header = LOCAL_HEADER_SIGNATURE).
Definition affordable (s : ProbeState) (header : list byte) : bool :=
  negb ((ps_entries_left s =? 0) || (ps_metadata_left s <? header_charge header (ps_prefix_bytes s))).
Definition after_read (s : ProbeState) (bytes : list byte) (entries metadata : Z) (exceeded : bool) : ProbeState :=
  {| ps_armed := ps_armed s; ps_header := recorded s bytes; ps_descriptor := ps_descriptor s;
     ps_position := ps_position s + Z.of_nat (length bytes); ps_entries_left := entries;
     ps_metadata_left := metadata; ps_prefix_bytes := ps_prefix_bytes s; ps_limit_exceeded := exceeded |}.

Lemma observe_eq bytes s :
  probe_wf s ->
  observe_consumed bytes s =
  if completes s (recorded s bytes) then
    if affordable s (recorded s bytes) then
      (after_read s bytes (ps_entries_left s - 1)
         (ps_metadata_left s - header_charge (recorded s bytes) (ps_prefix_bytes s)) (ps_limit_exceeded s), Ok tt)
    else (after_read s bytes (ps_entries_left s) (ps_metadata_left s) true, Err BudgetExceeded)
  else (after_read s bytes (ps_entries_left s) (ps_metadata_left s) (ps_limit_exceeded s), Ok tt).
Proof.
  unfold probe_wf, observe_consumed, completes, affordable, after_read, recorded. intros Hwf.
  fold (wanted s). destruct (ps_armed s); simpl; [|done].
  destruct (Nat.eqb_spec (length (ps_header s)) (wanted s)) as [Ew|Ew].
  { rewrite take_app_length' by done. unfold wanted in Ew. destruct (ps_descriptor s); simpl; [done|].
    rewrite Ew. by rewrite Nat.ltb_irrefl. }
  assert (ps_header s ++ take (length bytes `min` (wanted s - length (ps_header s))) bytes
          = take (wanted s) (ps_header s ++ bytes)) as ->.
  { rewrite take_app, (take_ge (ps_header s)) by lia. f_equal.
    destruct (Nat.min_spec (length bytes) (wanted s - length (ps_header s))) as [[? ->]|[? ->]]; [|done].
    by rewrite !take_ge by lia. }
  unfold wanted in *. destruct (ps_descriptor s); simpl; [done|].
  destruct (Nat.ltb_spec (length (ps_header s)) LOCAL_HEADER_LEN); [|lia]. simpl.
  destruct (Nat.eqb _ _ && _); [|done]. by destruct (_ || _).
Qed.

Lemma take_take_app {A} n (l k : list A) : take n (take n l ++ k) = take n (l ++ k).
Proof. revert l. induction n as [|n IH]; intros [|x l]; simpl; [done..|]. by rewrite IH. Qed.

Lemma recorded_app a b s entries metadata exceeded :
  recorded (after_read s a entries metadata exceeded) b = recorded s (a ++ b).
Proof.
  unfold recorded. simpl. unfold recorded. destruct (ps_armed s); [|done].
  by rewrite app_assoc, take_take_app.
Qed.

Lemma after_read_app a b s e m x e' m' x' :
  after_read (after_read s a e m x) b e' m' x' = after_read s (a ++ b) e' m' x'.
Proof.
  unfold after_read at 1 3. simpl. rewrite recorded_app, length_app. f_equal. lia.
Qed.

Lemma recorded_full a b s :
  probe_wf s -> (wanted s <= length (recorded s a))%nat -> recorded s (a ++ b) = recorded s a.
Proof.
  unfold recorded. destruct (ps_armed s); [|done]. intros Hwf Hl. rewrite length_take in Hl.
  rewrite app_assoc. apply take_app_le. lia.
Qed.

(** A header is completed by one of two reads exactly when it is by both as one. *)
Lemma completes_app a b s e m x :
  probe_wf s ->
  completes s (recorded s (a ++ b))
  = completes s (recorded s a) || completes (after_read s a e m x) (recorded s (a ++ b))
  /\ (completes s (recorded s a) = true ->
      recorded s (a ++ b) = recorded s a
      /\ completes (after_read s a e m x) (recorded s (a ++ b)) = false).
Proof.
  intros Hwf. pose proof (recorded_full a b s Hwf) as Hfull. unfold wanted in Hfull.
  assert ((length (recorded s a) <? LOCAL_HEADER_LEN)%nat = true ->
          (length (ps_header s) <? LOCAL_HEADER_LEN)%nat = true) as Hlt.
  { rewrite !Nat.ltb_lt. unfold recorded. destruct (ps_armed s); [|done].
    rewrite length_take, length_app. unfold probe_wf, wanted, LOCAL_HEADER_LEN in *. destruct (ps_descriptor s); lia. }
  unfold completes. simpl. destruct (ps_armed s), (ps_descriptor s); simpl; [done| |done|done].
  destruct (Nat.ltb_spec (length (recorded s a)) LOCAL_HEADER_LEN) as [L|L].
  - rewrite Hlt by done. destruct (Nat.eqb_spec (length (recorded s a)) LOCAL_HEADER_LEN); [lia|]. done.
  - rewrite Hfull by done. simpl. rewrite orb_false_r. done.
Qed.

(** Cutting a read in two makes no difference to what is recorded and charged. *)
Lemma observe_app a b s s1 :
  probe_wf s -> observe_consumed a s = (s1, Ok tt) ->
  observe_consumed b s1 = observe_consumed (a ++ b) s.
Proof.
  intros Hwf Ha. assert (probe_wf s1) as Hwf1.
  { pose proof (observe_wf a s Hwf) as H. by rewrite Ha in H. }
  rewrite observe_eq in Ha by done. rewrite !observe_eq by done.
  destruct (completes s (recorded s a)) eqn:Ec; [destruct (affordable s (recorded s a)) eqn:Ea; [|done]|];
    injection Ha as <-; rewrite recorded_app, !after_read_app;
    match goal with |- context [after_read s a ?e ?m ?x] =>
      destruct (completes_app a b s e m x Hwf) as [-> Hc] end; rewrite Ec; simpl.
  - destruct (Hc Ec) as [-> ->]. by rewrite Ea.
  - done.
Qed.

Lemma observe_app_err a b s s1 e :
  probe_wf s -> observe_consumed a s = (s1, Err e) ->
  (observe_consumed (a ++ b) s).2 = Err e /\ ps_limit_exceeded s1 = true
  /\ ps_entries_left s1 = ps_entries_left s /\ ps_metadata_left s1 = ps_metadata_left s.
Proof.
  intros Hwf. rewrite !observe_eq by done.
  destruct (completes s (recorded s a)) eqn:Ec; [destruct (affordable s (recorded s a)) eqn:Ea; [done|]|done].
  intros [= <- <-]. destruct (completes_app a b s 0 0 false Hwf) as [-> Hc]. rewrite Ec. simpl.
  destruct (Hc Ec) as [-> _]. by rewrite Ea.
Qed.

Lemma observe_all_concat chunks s s' :
  probe_wf s -> observe_all chunks s = (s', Ok tt) ->
  chunks = [] \/ observe_consumed (concat chunks) s = (s', Ok tt).
Proof.
  revert s. induction chunks as [|c chunks IH]; intros s Hwf; simpl; [by left|].
  destruct (observe_consumed c s) as [s1 [[]|e]] eqn:Ec; [|done]. intros Hr. right.
  pose proof (observe_wf c s Hwf) as Hwf1. rewrite Ec in Hwf1. simpl in Hwf1.
  destruct (IH s1 Hwf1 Hr) as [->|Hc].
  - simpl in Hr. injection Hr as <-. by rewrite app_nil_r.
  - by rewrite <- (observe_app c (concat chunks) s s1).
Qed.

Lemma observe_all_err chunks s s' e :
  probe_wf s -> observe_all chunks s = (s', Err e) ->
  (observe_consumed (concat chunks) s).2 = Err e /\ ps_limit_exceeded s' = true.
Proof.
  revert s. induction chunks as [|c chunks IH]; intros s Hwf; simpl; [done|].
  destruct (observe_consumed c s) as [s1 [[]|e']] eqn:Ec.
  - intros Hr. pose proof (observe_wf c s Hwf) as Hwf1. rewrite Ec in Hwf1. simpl in Hwf1.
    rewrite <- (observe_app c (concat chunks) s s1) by done. by apply IH.
  - intros [= <- <-]. destruct (observe_app_err c (concat chunks) s s1 e' Hwf Ec) as (H1 & H2 & _). done.
Qed.

Definition is_local_header (header : list byte) : bool :=
  (length header =? LOCAL_HEADER_LEN)%nat && bool_decide (take 4 header = LOCAL_HEADER_SIGNATURE).

Lemma begin_observe bytes s :
  let header := take LOCAL_HEADER_LEN bytes in
  observe_consumed bytes (begin_header s) =
  if is_local_header header then
    if affordable s header then
      (after_read (begin_header s) bytes (ps_entries_left s - 1)
         (ps_metadata_left s - header_charge header (ps_prefix_bytes s)) (ps_limit_exceeded s), Ok tt)
    else (after_read (begin_header s) bytes (ps_entries_left s) (ps_metadata_left s) true, Err BudgetExceeded)
  else (after_read (begin_header s) bytes (ps_entries_left s) (ps_metadata_left s) (ps_limit_exceeded s), Ok tt).
Proof.
  rewrite observe_eq by (unfold probe_wf, wanted; simpl; lia). reflexivity.
Qed.

Lemma probe_take_spec bytes s :
  ps_header s = take LOCAL_HEADER_LEN bytes ->
  (probe_take s).2
  = if is_local_header (take LOCAL_HEADER_LEN bytes) then
      Ok {| lh_general_purpose_flags := u16_at bytes 6; lh_compression_method := u16_at bytes 8 |}
    else if (length bytes <? LOCAL_HEADER_LEN)%nat then Err HeaderTooShort else Err HeaderBadSignature.
Proof.
  intros Hh. unfold probe_take, is_local_header. rewrite Hh.
  assert (forall i, (i < LOCAL_HEADER_LEN)%nat -> byte_at (take LOCAL_HEADER_LEN bytes) i = byte_at bytes i) as Hb.
  { intros i Hi. unfold byte_at. by rewrite lookup_take_lt. }
  unfold u16_at. rewrite !Hb by (unfold LOCAL_HEADER_LEN; lia). cbn [snd].
  rewrite length_take. destruct (Nat.ltb_spec (length bytes) LOCAL_HEADER_LEN).
  - rewrite Nat.min_r by lia. by destruct (Nat.eqb_spec (length bytes) LOCAL_HEADER_LEN); [lia|].
  - rewrite Nat.min_l, Nat.eqb_refl by lia. cbn [negb andb]. by destruct (bool_decide _).
Qed.

(** a local header is recorded the same way however the reads cut it.  If the reads after
    [begin] succeed, the header is the first 30 bytes read, the position has advanced by all of
    them, and an entry and its metadata charge have been taken from the budgets exactly once, and
    only for a complete header with the signature, without going below zero; [take] decodes these
    30 bytes.  The reads fail only when a complete header with the signature does not fit the
    budgets, and then the limit flag is set. *)
Theorem local_header_capture chunks s s' r :
  0 <= ps_entries_left s -> 0 <= ps_metadata_left s -> chunks <> [] ->
  observe_all chunks (begin_header s) = (s', r) ->
  let bytes := concat chunks in
  let header := take LOCAL_HEADER_LEN bytes in
  let complete := is_local_header header in
  let charge := header_charge header (ps_prefix_bytes s) in
  match r with
  | Ok _ =>
    ps_position s' = ps_position s + Z.of_nat (length bytes)
    /\ ps_entries_left s' = ps_entries_left s - (if complete then 1 else 0)
    /\ ps_metadata_left s' = ps_metadata_left s - (if complete then charge else 0)
    /\ 0 <= ps_entries_left s' /\ 0 <= ps_metadata_left s'
    /\ (probe_take s').2
       = (if complete then
            Ok {| lh_general_purpose_flags := u16_at bytes 6; lh_compression_method := u16_at bytes 8 |}
          else if (length bytes <? LOCAL_HEADER_LEN)%nat then Err HeaderTooShort else Err HeaderBadSignature)
  | Err _ =>
    complete = true /\ (ps_entries_left s = 0 \/ ps_metadata_left s < charge)
    /\ ps_limit_exceeded s' = true
  end.
Proof.
  intros He Hm Hne Hr. cbv zeta.
  assert (probe_wf (begin_header s)) as Hwf by (unfold probe_wf, wanted; simpl; lia).
  destruct r as [[]|[]].
  - destruct (observe_all_concat _ _ _ Hwf Hr) as [?|Ho]; [done|]. rewrite begin_observe in Ho.
    assert (ps_header s' = take LOCAL_HEADER_LEN (concat chunks)) as Hh
      by (repeat case_match; by simplify_eq).
    rewrite (probe_take_spec (concat chunks)) by done. unfold affordable in Ho.
    destruct (is_local_header _); [destruct (_ || _) eqn:Ea; [done|]|]; injection Ho as <-; simpl.
    + apply orb_false_iff in Ea as [Ea%Z.eqb_neq Ea'%Z.ltb_ge]. repeat split; try done; lia.
    + repeat split; try done; lia.
  - destruct (observe_all_err _ _ _ _ Hwf Hr) as [Ho Hx]. rewrite begin_observe in Ho. unfold affordable in Ho.
    destruct (is_local_header _); [|done]. split; [done|]. split; [|done].
    destruct (Z.eqb_spec (ps_entries_left s) 0); [by left|]. simpl in Ho.
    destruct (Z.ltb_spec (ps_metadata_left s) (header_charge (take LOCAL_HEADER_LEN (concat chunks)) (ps_prefix_bytes s)));
      [by right|done].
Qed.

(** A header of a deflated entry with a descriptor, read in two pieces. *)
Definition sample_header : list byte :=
  [x50; x4b; x03; x04; x14; x00; x08; x00; x08; x00] ++ replicate 16 x00 ++ [x05; x00; x00; x00].

Lemma local_header_capture_witness :
  (probe_take (observe_all [take 7 sample_header; drop 7 sample_header] (begin_header probe_new)).1).2
  = Ok {| lh_general_purpose_flags := 8; lh_compression_method := 8 |}.
Proof.
  destruct (observe_all [take 7 sample_header; drop 7 sample_header] (begin_header probe_new))
    as [s' r] eqn:E.
  assert (r = Ok tt) as -> by (vm_compute in E; congruence).
  destruct (fun He Hm Hn => local_header_capture _ _ _ _ He Hm Hn E)
    as (_ & _ & _ & _ & _ & H); [vm_compute; discriminate..|].
  cbn [fst]. rewrite H. vm_compute. reflexivity.
Defined.
