(* ===== verification/ZipBatch.v ===== *)
(** * ZIP batches: manifests, root claims and publication ([src/store/zip])

    The durable state of a ZIP extraction: the batch row, its manifest, the fenced attempts to build
    its directory root and the candidate roots they produced ([batch.rs], [manifest.rs],
    [root.rs], [publication.rs], [recovery.rs]).  A table is a finite map from its primary key to
    the other columns; a statement that would violate a constraint of
    [src/store/migrations/baseline/zip.sql] fails.  The database clock is an argument of the
    operations that read it, one argument per reading; the application clock, which only fills
    [created_at] and [updated_at], is read once per operation.  Timestamps count microseconds. *)

From Stdlib Require Import ZArith Lia Ascii.
From Stdlib Require String.
From stdpp Require Import base list strings gmap.
From S2P Require Import Prelude Bytes Errors Database Transaction ZipEntries StorageClasses.

#[local] Open Scope string_scope.
#[local] Open Scope list_scope.
#[local] Open Scope Z_scope.

(** ** Rows *)

Record ZipBatch : Type := {
  zb_owner : string; zb_source : string; zb_token : string; zb_fingerprint : string;
  zb_bucket : string; zb_archive_key : string; zb_input_identity : string;
  zb_captured_options : string; zb_state : string; zb_manifest_prepared : bool;
  zb_source_published : bool; zb_terminal_result : option string; zb_root_status : string;
  zb_root_error_code : option string; zb_root_cid : option string; zb_root_revision : Z;
  zb_root_epoch : Z; zb_created_at : Z; zb_updated_at : Z }.

Record ZipManifestEntry : Type := {
  ze_object_key : option string; ze_cid : option string; ze_size : option Z;
  ze_version_row_id : option string; ze_error_code : option string; ze_created_at : Z }.

Record ZipRootBuild : Type := {
  zr_worker : string; zr_lease_until : Z; zr_status : string; zr_error_code : option string;
  zr_created_at : Z; zr_updated_at : Z }.

Record ZipRootReference : Type := {
  zf_state : string; zf_verification_receipt : option string; zf_logical_released_at : option Z;
  zf_created_at : Z; zf_updated_at : Z }.

(** Primary keys: batch and path; batch, revision and epoch; these and node, tier and CID. *)
Abbreviation EntryKey := (string * string)%type.
Abbreviation BuildKey := (string * Z * Z)%type.
Abbreviation RefKey := (string * Z * Z * string * string * string)%type.

Record ZipDb : Type := {
  zip_batches : gmap string ZipBatch;
  zip_entries : gmap EntryKey ZipManifestEntry;
  zip_builds : gmap BuildKey ZipRootBuild;
  zip_refs : gmap RefKey ZipRootReference;
  zip_objects : Db }.

Definition set_batches f (db : ZipDb) : ZipDb :=
  {| zip_batches := f (zip_batches db); zip_entries := zip_entries db; zip_builds := zip_builds db;
     zip_refs := zip_refs db; zip_objects := zip_objects db |}.
Definition set_entries f (db : ZipDb) : ZipDb :=
  {| zip_batches := zip_batches db; zip_entries := f (zip_entries db); zip_builds := zip_builds db;
     zip_refs := zip_refs db; zip_objects := zip_objects db |}.
Definition set_builds f (db : ZipDb) : ZipDb :=
  {| zip_batches := zip_batches db; zip_entries := zip_entries db; zip_builds := f (zip_builds db);
     zip_refs := zip_refs db; zip_objects := zip_objects db |}.
Definition set_refs f (db : ZipDb) : ZipDb :=
  {| zip_batches := zip_batches db; zip_entries := zip_entries db; zip_builds := zip_builds db;
     zip_refs := f (zip_refs db); zip_objects := zip_objects db |}.

(** ** Constraints *)

Definition some_string (o : option string) : Prop :=
  match o with Some s => s <> "" | None => False end.
Definition none_or_nonempty (o : option string) : Prop :=
  match o with Some s => s <> "" | None => True end.

(** [ck_zip_batch_*] *)
Definition zip_batch_check (id : string) (b : ZipBatch) : Prop :=
  Forall (fun s => s <> "")
    [id; zb_owner b; zb_token b; zb_fingerprint b; zb_bucket b; zb_archive_key b; zb_input_identity b;
     zb_captured_options b]
  /\ (zb_source b ∈ ["direct"; "mpu"; "import"])
  /\ (zb_state b ∈ ["open"; "published"])
  /\ 0 <= zb_root_revision b /\ 0 <= zb_root_epoch b
  /\ (zb_state b = "open" /\ zb_terminal_result b = None
      \/ zb_state b = "published" /\ is_Some (zb_terminal_result b))
  /\ ((zb_root_status b ∈ ["complete"; "partial"]) /\ some_string (zb_root_cid b) /\ zb_root_error_code b = None
      \/ zb_root_status b = "failed" /\ zb_root_cid b = None /\ some_string (zb_root_error_code b)
      \/ (zb_root_status b ∈ ["pending"; "disabled"; "empty"]) /\ zb_root_cid b = None
         /\ zb_root_error_code b = None).

(** [ck_zip_manifest_*] *)
Definition zip_entry_check (k : EntryKey) (e : ZipManifestEntry) : Prop :=
  k.2 <> ""
  /\ (some_string (ze_object_key e) /\ some_string (ze_cid e) /\ from_option (fun n => 0 <= n) False (ze_size e)
      /\ ze_error_code e = None
      \/ ze_object_key e = None /\ ze_cid e = None /\ ze_size e = None /\ ze_version_row_id e = None
         /\ some_string (ze_error_code e))
  /\ none_or_nonempty (ze_version_row_id e).

(** [ck_zip_build_*] *)
Definition zip_build_check (k : BuildKey) (r : ZipRootBuild) : Prop :=
  0 < k.1.2 /\ 0 < k.2 /\ zr_worker r <> ""
  /\ (zr_status r ∈ ["intent"; "reconciling"; "invoked"; "unknown"; "verified"; "failed"])
  /\ (zr_status r = "failed" /\ some_string (zr_error_code r)
      \/ zr_status r <> "failed" /\ zr_error_code r = None).

Definition ref_build (k : RefKey) : BuildKey := k.1.1.1.
Definition ref_batch (k : RefKey) : string := k.1.1.1.1.1.
Definition ref_node (k : RefKey) : string := k.1.1.2.
Definition ref_tier_of (k : RefKey) : string := k.1.2.
Definition ref_cid_of (k : RefKey) : string := k.2.

(** [ck_zip_root_*] *)
Definition zip_ref_check (k : RefKey) (f : ZipRootReference) : Prop :=
  ref_node k <> "" /\ ref_cid_of k <> "" /\ (ref_tier_of k ∈ ["hot"; "cold"])
  /\ (zf_state f ∈ ["retained"; "adopted"])
  /\ none_or_nonempty (zf_verification_receipt f)
  /\ (zf_state f = "retained" \/ is_Some (zf_verification_receipt f)).

(** The [CHECK]s, foreign keys and unique indexes of the four tables. *)
Definition zip_constraints (db : ZipDb) : Prop :=
  map_Forall zip_batch_check (zip_batches db)
  /\ map_Forall (fun i b => map_Forall (fun i' b' =>
       zb_owner b = zb_owner b' -> zb_source b = zb_source b' -> zb_token b = zb_token b' -> i = i')
       (zip_batches db)) (zip_batches db)
  /\ map_Forall zip_entry_check (zip_entries db)
  /\ map_Forall (fun (k : EntryKey) _ => is_Some (zip_batches db !! k.1)) (zip_entries db)
  /\ map_Forall (fun k e => map_Forall (fun k' e' =>
       is_Some (ze_version_row_id e) -> ze_version_row_id e = ze_version_row_id e' -> k = k')
       (zip_entries db)) (zip_entries db)
  /\ map_Forall zip_build_check (zip_builds db)
  /\ map_Forall (fun (k : BuildKey) _ => is_Some (zip_batches db !! k.1.1)) (zip_builds db)
  /\ map_Forall zip_ref_check (zip_refs db)
  /\ map_Forall (fun k _ => is_Some (zip_builds db !! ref_build k)) (zip_refs db)
  /\ map_Forall (fun k f => map_Forall (fun k' f' =>
       zf_state f = "adopted" -> zf_state f' = "adopted" -> ref_batch k = ref_batch k' -> k = k')
       (zip_refs db)) (zip_refs db).

#[export] Instance some_string_dec o : Decision (some_string o).
Proof. destruct o; simpl; apply _. Defined.
#[export] Instance none_or_nonempty_dec o : Decision (none_or_nonempty o).
Proof. destruct o; simpl; apply _. Defined.
#[export] Instance zip_batch_check_dec id b : Decision (zip_batch_check id b).
Proof. unfold zip_batch_check. apply _. Defined.
#[export] Instance zip_entry_check_dec k e : Decision (zip_entry_check k e).
Proof. unfold zip_entry_check. destruct (ze_size e); simpl; apply _. Defined.
#[export] Instance zip_build_check_dec k r : Decision (zip_build_check k r).
Proof. unfold zip_build_check. apply _. Defined.
#[export] Instance zip_ref_check_dec k f : Decision (zip_ref_check k f).
Proof. unfold zip_ref_check. apply _. Defined.
#[export] Instance zip_constraints_dec db : Decision (zip_constraints db).
Proof. unfold zip_constraints. apply _. Defined.

(** ** Transactions *)

Abbreviation ZTx := (Txn ZipDb).
Abbreviation z_exec := (t_exec zip_constraints).

#[local] Open Scope rust_scope.

Definition zip_stale : AppError := Internal "stale ZIP batch ownership or root claim".
Definition zip_invalid : AppError := InvalidZipParameter "invalid ZIP batch data".

Abbreviation z_some := (t_some zip_stale).

(** ** [src/store/zip/mod.rs] *)

Definition safe_code (code : string) : bool :=
  negb (str_is_empty code) && (str_len code <=? 64)
  && string_forallb (fun c => let n := Ascii.N_of_ascii c in (97 <=? n)%N && (n <=? 122)%N || (n =? 95)%N) code.

Definition required (value : string) : bool := negb (str_is_empty value) && (str_len value <=? 4096).

(** Both backends: the SQLite statement that takes the write lock fails the same way. *)
Definition lock_batch (id : string) : ZTx ZipBatch :=
  let* row := t_reads (fun db => zip_batches db !! id) in z_some row.

Definition locked_open_batch (id : string) : ZTx ZipBatch :=
  let* batch := lock_batch id in
  stop_if negb (String.eqb (zb_state batch) "open") with zip_stale else
  t_ret batch.

(** What this store calls in other modules: JSON, the admission lock of the management layer, the
    bindings of multipart archives and of root retries to their original requests, and the
    rewriting of a stored result.  Any function will do. *)
Class ZipWorld : Type := {
  json_valid : string -> bool;
  lock_encoded_zip_intake : string -> AppResult unit;
  verify_mpu_archive : ZipDb -> string -> ZipBatch -> string -> bool -> AppResult unit;
  verify_root_retry_binding : ZipDb -> string -> ZipBatch -> AppResult unit;
  terminal_with_root : string -> string -> option string -> option string -> AppResult string }.

Section operations.
Context `{ZipWorld}.

(** ** [src/store/zip/batch.rs] *)

Record BatchAdmission : Type := {
  ba_id : string; ba_owner : string; ba_source : string; ba_token : string; ba_fingerprint : string;
  ba_bucket : string; ba_archive_key : string; ba_input_identity : string; ba_captured_options : string }.

Definition validate_admission (r : BatchAdmission) : AppResult unit :=
  bail_if negb (forallb required [ba_id r; ba_owner r; ba_token r; ba_fingerprint r; ba_bucket r;
                                  ba_archive_key r; ba_input_identity r])
          || str_is_empty (ba_captured_options r) || (65536 <? str_len (ba_captured_options r))
          || negb (json_valid (ba_captured_options r))
          || negb (bool_decide (ba_source r ∈ ["direct"; "mpu"; "import"]))
  with zip_invalid else
  Ok tt.

Definition same_intent (r : BatchAdmission) (b : ZipBatch) : Prop :=
  zb_owner b = ba_owner r /\ zb_source b = ba_source r /\ zb_token b = ba_token r.
#[export] Instance same_intent_dec r b : Decision (same_intent r b).
Proof. unfold same_intent. apply _. Defined.

(** [.filter(owner).filter(source).filter(token).one(tx)]; the columns are a unique index. *)
Definition find_intent (r : BatchAdmission) (db : ZipDb) : option (string * ZipBatch) :=
  head (map_to_list (filter (fun ib => same_intent r ib.2) (zip_batches db))).

Definition new_batch (r : BatchAdmission) (utc : Z) : ZipBatch :=
  {| zb_owner := ba_owner r; zb_source := ba_source r; zb_token := ba_token r;
     zb_fingerprint := ba_fingerprint r; zb_bucket := ba_bucket r; zb_archive_key := ba_archive_key r;
     zb_input_identity := ba_input_identity r; zb_captured_options := ba_captured_options r;
     zb_state := "open"; zb_manifest_prepared := false; zb_source_published := false;
     zb_terminal_result := None; zb_root_status := "pending"; zb_root_error_code := None;
     zb_root_cid := None; zb_root_revision := 0; zb_root_epoch := 0; zb_created_at := utc;
     zb_updated_at := utc |}.

Definition token_conflict : AppError := InvalidZipParameter "ZIP idempotency token conflict".

Definition insert_or_find (r : BatchAdmission) (exact_mirror : bool) (utc : Z) : ZTx (string * ZipBatch) :=
  let* known := t_reads (find_intent r) in
  let* _ := t_lift (if is_none known then lock_encoded_zip_intake (ba_captured_options r) else Ok tt) in
  let* present := t_reads (find_intent r) in
  let* _ :=
    (if is_some present then t_ret tt
     else let* clash := t_reads (fun db => is_some (zip_batches db !! ba_id r)) in
          stop_if clash with constraint_failed else
          z_exec (set_batches <[ba_id r := new_batch r utc]>)) in
  let* found := t_reads (find_intent r) in
  let* '(id, b) := t_lift (ok_or (Internal "ZIP batch admission lost its identity") found) in
  stop_if negb (String.eqb (zb_fingerprint b) (ba_fingerprint r))
          || negb (String.eqb (zb_bucket b) (ba_bucket r))
          || negb (String.eqb (zb_archive_key b) (ba_archive_key r))
          || negb (String.eqb (zb_input_identity b) (ba_input_identity r)) with token_conflict else
  stop_if exact_mirror
          && (negb (String.eqb id (ba_id r)) || negb (String.eqb (zb_state b) "open")
              || zb_source_published b || is_some (zb_terminal_result b)
              || negb (String.eqb (zb_root_status b) "pending")
              || negb (zb_root_revision b =? 0) || negb (zb_root_epoch b =? 0)) with token_conflict else
  t_ret (id, b).

(** [admit]; the bucket's ownership lock orders admissions and has no effect on these tables. *)
Definition admit_batch (r : BatchAdmission) (utc : Z) : ZTx (string * ZipBatch) :=
  let* _ := t_lift (validate_admission r) in
  insert_or_find r false utc.

Definition admit_legacy_core (r : BatchAdmission) (utc : Z) : ZTx (string * ZipBatch) :=
  let* _ := t_lift (validate_admission r) in
  stop_if String.eqb (ba_fingerprint r) "pending" || String.eqb (ba_input_identity r) "pending"
          || starts_with "zip-v2-source-gen:" (ba_input_identity r) with zip_invalid else
  insert_or_find r false utc.

Definition admit_mirror_core (r : BatchAdmission) (utc : Z) : ZTx (string * ZipBatch) :=
  let* _ := t_lift (validate_admission r) in
  stop_if negb (String.eqb (ba_fingerprint r) "pending")
          || negb (String.eqb (ba_input_identity r) "pending") with zip_invalid else
  insert_or_find r true utc.

(** ** [src/store/zip/manifest.rs] *)

Definition valid_path (path : string) : bool :=
  required path
  && negb (starts_with "/" path)
  && negb (str_contains "\" path)
  && negb (any_control path)
  && forallb (fun segment => negb (str_is_empty segment)
                && negb (String.eqb segment ".") && negb (String.eqb segment ".."))
       (split "/" path).

(** The rows of a batch, by path. *)
Definition entries_of (id : string) (db : ZipDb) : list (string * ZipManifestEntry) :=
  omap (fun ke : EntryKey * ZipManifestEntry => if decide (ke.1.1 = id) then Some (ke.1.2, ke.2) else None)
    (map_to_list (zip_entries db)).

Definition item_fields (item : ManifestItem) :
    AppResult (string * option string * option string * option Z * option string) :=
  match item with
  | Success path object_key cid size =>
    if required object_key && required cid && (0 <=? size)
    then Ok (path, Some object_key, Some cid, Some size, None) else Err zip_invalid
  | Failure path code =>
    if safe_code code then Ok (path, None, None, None, Some code) else Err zip_invalid
  end.

(** One iteration of the loop over the items; [paths] are the paths seen so far. *)
Definition prepare_item (id : string) (existing : option (gmap string ZipManifestEntry)) (utc : Z)
    (paths : gset string) (item : ManifestItem) : ZTx (gset string) :=
  let* '(path, object_key, cid, size, error_code) := t_lift (item_fields item) in
  stop_if negb (valid_path path) || bool_decide (path ∈ paths) with zip_invalid else
  match existing with
  | Some existing =>
    let* old := z_some (existing !! path) in
    stop_if bool_decide (ze_object_key old <> object_key) || bool_decide (ze_cid old <> cid)
            || bool_decide (ze_size old <> size) || bool_decide (ze_error_code old <> error_code)
            || is_some (ze_version_row_id old) with zip_stale else
    t_ret ({[path]} ∪ paths)
  | None =>
    let* clash := t_reads (fun db => is_some (zip_entries db !! (id, path))) in
    stop_if clash with constraint_failed else
    let* _ := z_exec (set_entries <[(id, path) :=
                {| ze_object_key := object_key; ze_cid := cid; ze_size := size;
                   ze_version_row_id := None; ze_error_code := error_code; ze_created_at := utc |}]>) in
    t_ret ({[path]} ∪ paths)
  end.

Fixpoint prepare_items (id : string) (existing : option (gmap string ZipManifestEntry)) (utc : Z)
    (paths : gset string) (items : list ManifestItem) : ZTx (gset string) :=
  match items with
  | [] => t_ret paths
  | item :: items =>
    let* paths := prepare_item id existing utc paths item in
    prepare_items id existing utc paths items
  end.

Definition with_prepared (utc : Z) (b : ZipBatch) : ZipBatch :=
  {| zb_owner := zb_owner b; zb_source := zb_source b; zb_token := zb_token b;
     zb_fingerprint := zb_fingerprint b; zb_bucket := zb_bucket b; zb_archive_key := zb_archive_key b;
     zb_input_identity := zb_input_identity b; zb_captured_options := zb_captured_options b;
     zb_state := zb_state b; zb_manifest_prepared := true; zb_source_published := zb_source_published b;
     zb_terminal_result := zb_terminal_result b; zb_root_status := zb_root_status b;
     zb_root_error_code := zb_root_error_code b; zb_root_cid := zb_root_cid b;
     zb_root_revision := zb_root_revision b; zb_root_epoch := zb_root_epoch b;
     zb_created_at := zb_created_at b; zb_updated_at := utc |}.

Definition prepare_in_transaction (id : string) (items : list ManifestItem) (exact_mirror : bool) (utc : Z) :
    ZTx unit :=
  let* batch := locked_open_batch id in
  stop_if negb (zb_root_revision batch =? 0)
          || (zb_manifest_prepared batch && negb exact_mirror)
          || (exact_mirror && (negb (String.eqb (zb_root_status batch) "pending") || zb_source_published batch))
  with zip_stale else
  let* rows := t_reads (entries_of id) in
  let existing := if zb_manifest_prepared batch then Some (list_to_map rows : gmap string ZipManifestEntry) else None in
  let* paths := prepare_items id existing utc ∅ items in
  match existing with
  | Some existing => stop_if negb (size existing =? size paths)%nat with zip_stale else t_ret tt
  | None => z_exec (set_batches <[id := with_prepared utc batch]>)
  end.

Definition prepare_manifest (id : string) (items : list ManifestItem) (utc : Z) : ZTx unit :=
  prepare_in_transaction id items false utc.

(** ** [src/store/zip/root.rs] *)

Record RootClaim : Type := { rc_batch_id : string; rc_revision : Z; rc_epoch : Z; rc_worker : string }.
Definition claim_key (c : RootClaim) : BuildKey := (rc_batch_id c, rc_revision c, rc_epoch c).

Definition with_claim (revision epoch now : Z) (b : ZipBatch) : ZipBatch :=
  {| zb_owner := zb_owner b; zb_source := zb_source b; zb_token := zb_token b;
     zb_fingerprint := zb_fingerprint b; zb_bucket := zb_bucket b; zb_archive_key := zb_archive_key b;
     zb_input_identity := zb_input_identity b; zb_captured_options := zb_captured_options b;
     zb_state := zb_state b; zb_manifest_prepared := zb_manifest_prepared b;
     zb_source_published := zb_source_published b;
     zb_terminal_result := zb_terminal_result b; zb_root_status := zb_root_status b;
     zb_root_error_code := zb_root_error_code b; zb_root_cid := zb_root_cid b;
     zb_root_revision := revision; zb_root_epoch := epoch;
     zb_created_at := zb_created_at b; zb_updated_at := now |}.

Definition claim_root (id worker : string) (lease_seconds now : Z) : ZTx RootClaim :=
  stop_if negb (required worker) || negb ((1 <=? lease_seconds) && (lease_seconds <=? 3600))
  with zip_invalid else
  let* batch := lock_batch id in
  let* entries := t_reads (entries_of id) in
  stop_if negb (zb_manifest_prepared batch)
          || bool_decide (zb_root_status batch ∈ ["complete"; "partial"; "disabled"; "empty"])
          || (String.eqb (zb_state batch) "published" && negb (String.eqb (zb_root_status batch) "failed"))
          || negb (existsb (fun e => is_some (ze_cid e.2)) entries) with zip_stale else
  let* _ :=
    (if 0 <? zb_root_revision batch then
       let* row := t_reads (fun db => zip_builds db !! (id, zb_root_revision batch, zb_root_epoch batch)) in
       let* previous := z_some row in
       stop_if now <? zr_lease_until previous with zip_stale else t_ret tt
     else t_ret tt) in
  let* revision :=
    (if String.eqb (zb_state batch) "published"
     then t_lift (ok_or zip_invalid (i64_checked_add (zb_root_revision batch) 1))
     else t_ret (Z.max (zb_root_revision batch) 1)) in
  let* epoch := t_lift (ok_or zip_invalid (i64_checked_add (zb_root_epoch batch) 1)) in
  let* clash := t_reads (fun db => is_some (zip_builds db !! (id, revision, epoch))) in
  stop_if clash with constraint_failed else
  let* _ := z_exec (set_builds <[(id, revision, epoch) :=
              {| zr_worker := worker; zr_lease_until := now + seconds lease_seconds; zr_status := "intent";
                 zr_error_code := None; zr_created_at := now; zr_updated_at := now |}]>) in
  let* _ := z_exec (set_batches <[id := with_claim revision epoch now batch]>) in
  t_ret {| rc_batch_id := id; rc_revision := revision; rc_epoch := epoch; rc_worker := worker |}.

Definition current_claim (claim : RootClaim) (now : Z) : ZTx ZipRootBuild :=
  let* build := t_reads (fun db => zip_builds db !! claim_key claim) in
  let* build := z_some build in
  let* batch := t_reads (fun db => zip_batches db !! rc_batch_id claim) in
  let* batch := z_some batch in
  stop_if negb (zb_root_revision batch =? rc_revision claim) || negb (zb_root_epoch batch =? rc_epoch claim)
          || negb (String.eqb (zr_worker build) (rc_worker claim)) || (zr_lease_until build <=? now)
  with zip_stale else
  t_ret build.

Definition with_status (status : string) (now : Z) (r : ZipRootBuild) : ZipRootBuild :=
  {| zr_worker := zr_worker r; zr_lease_until := zr_lease_until r; zr_status := status;
     zr_error_code := zr_error_code r; zr_created_at := zr_created_at r; zr_updated_at := now |}.
Definition with_lease (until now : Z) (r : ZipRootBuild) : ZipRootBuild :=
  {| zr_worker := zr_worker r; zr_lease_until := until; zr_status := zr_status r;
     zr_error_code := zr_error_code r; zr_created_at := zr_created_at r; zr_updated_at := now |}.

(** [n1] is the reading of [current_claim], [n2] the new lease's start, [n3] the statement's. *)
Definition renew_claim_in_transaction (claim : RootClaim) (secs n1 n2 n3 : Z) : ZTx unit :=
  let* build := current_claim claim n1 in
  stop_if bool_decide (zr_status build ∈ ["unknown"; "failed"]) with zip_stale else
  let* row := t_reads (fun db => zip_builds db !! claim_key claim) in
  match row with
  | Some r =>
    if String.eqb (zr_worker r) (rc_worker claim) && String.eqb (zr_status r) (zr_status build)
       && (n3 <? zr_lease_until r)
    then z_exec (set_builds <[claim_key claim := with_lease (n2 + seconds secs) n2 r]>)
    else t_err zip_stale
  | None => t_err zip_stale
  end.

Definition renew_claim (claim : RootClaim) (secs n1 n2 n3 : Z) : ZTx unit :=
  stop_if negb ((1 <=? secs) && (secs <=? 3600)) with zip_invalid else
  let* _ := lock_batch (rc_batch_id claim) in
  renew_claim_in_transaction claim secs n1 n2 n3.

Definition mark_invoked (claim : RootClaim) (now utc : Z) : ZTx unit :=
  let* batch := lock_batch (rc_batch_id claim) in
  let* build := current_claim claim now in
  stop_if negb (bool_decide (zr_status build ∈ ["intent"; "reconciling"])) with zip_stale else
  let* bound :=
    (if String.eqb (zb_state batch) "published" && String.eqb (zb_root_status batch) "failed"
     then t_reads (fun db => verify_root_retry_binding db (rc_batch_id claim) batch) else t_ret (Ok tt)) in
  let* _ := t_lift bound in
  z_exec (set_builds <[claim_key claim := with_status "invoked" utc build]>).

Definition mark_reconciling (claim : RootClaim) (now utc : Z) : ZTx unit :=
  let* _ := lock_batch (rc_batch_id claim) in
  let* build := current_claim claim now in
  stop_if negb (String.eqb (zr_status build) "intent") with zip_stale else
  z_exec (set_builds <[claim_key claim := with_status "reconciling" utc build]>).

Definition mark_unknown (claim : RootClaim) (n1 n2 : Z) : ZTx unit :=
  let* _ := lock_batch (rc_batch_id claim) in
  let* build := current_claim claim n1 in
  stop_if negb (String.eqb (zr_status build) "invoked") with zip_stale else
  z_exec (set_builds <[claim_key claim := with_lease n2 n2 (with_status "unknown" n2 build)]>).

Definition ref_key (claim : RootClaim) (node tier cid : string) : RefKey :=
  (claim_key claim, node, tier, cid).

Definition retain_candidate (claim : RootClaim) (node tier cid : string) (utc : Z) : ZTx unit :=
  stop_if negb (required node) || negb (required cid) || negb (bool_decide (tier ∈ ["hot"; "cold"]))
  with zip_invalid else
  let* _ := lock_batch (rc_batch_id claim) in
  let* row := t_reads (fun db => zip_builds db !! claim_key claim) in
  let* build := z_some row in
  stop_if negb (String.eqb (zr_worker build) (rc_worker claim))
          || negb (bool_decide (zr_status build ∈ ["reconciling"; "invoked"; "unknown"; "verified"]))
  with zip_stale else
  let* known := t_reads (fun db => is_some (zip_refs db !! ref_key claim node tier cid)) in
  if known : bool then t_ret tt
  else z_exec (set_refs <[ref_key claim node tier cid :=
         {| zf_state := "retained"; zf_verification_receipt := None; zf_logical_released_at := None;
            zf_created_at := utc; zf_updated_at := utc |}]>).

(** A candidate that has not been released. *)
Definition active_reference (claim : RootClaim) (node tier cid : string) : ZTx ZipRootReference :=
  let* row := t_reads (fun db => zip_refs db !! ref_key claim node tier cid) in
  z_some (row ≫= fun f => if is_none (zf_logical_released_at f) then Some f else None).

Definition verify_root (claim : RootClaim) (node tier cid receipt : string) (now utc : Z) : ZTx unit :=
  stop_if negb (required receipt) with zip_invalid else
  let* _ := lock_batch (rc_batch_id claim) in
  let* build := current_claim claim now in
  stop_if negb (bool_decide (zr_status build ∈ ["invoked"; "reconciling"])) with zip_stale else
  let* found := active_reference claim node tier cid in
  stop_if is_some (zf_verification_receipt found) with zip_stale else
  let* _ := z_exec (set_refs <[ref_key claim node tier cid :=
              {| zf_state := zf_state found; zf_verification_receipt := Some receipt;
                 zf_logical_released_at := zf_logical_released_at found;
                 zf_created_at := zf_created_at found; zf_updated_at := utc |}]>) in
  z_exec (set_builds <[claim_key claim := with_status "verified" utc build]>).

(** [recovery]: the attempts that may have left a root. *)
Definition recovery (id : string) (db : ZipDb) : list (BuildKey * ZipRootBuild) :=
  List.filter (fun kr => bool_decide (kr.1.1.1 = id) && negb (String.eqb (zr_status kr.2) "failed"))
    (map_to_list (zip_builds db)).

Definition root_existence (id node tier cid : string) (db : ZipDb) : string :=
  let refs := List.filter (fun kf : RefKey * ZipRootReference =>
    bool_decide (ref_batch kf.1 = id) && bool_decide (ref_node kf.1 = node)
    && bool_decide (ref_tier_of kf.1 = tier) && bool_decide (ref_cid_of kf.1 = cid)
    && is_none (zf_logical_released_at kf.2)) (map_to_list (zip_refs db)) in
  if existsb (fun kf => String.eqb (zf_state kf.2) "adopted") refs then "adopted"
  else match refs with [] => "absent" | _ => "retained" end.

(** ** [src/store/zip/publication.rs] *)

Record VersionBinding : Type := { vb_path : string; vb_version_row_id : string }.

Definition binding_for_published_object (path object_id : string) : ZTx VersionBinding :=
  stop_if negb (required path) || negb (required object_id) with zip_invalid else
  let* rows := t_reads (fun db => take 2 (filter (fun v => v_object_id v = Some object_id)
                                            (versions (zip_objects db)))) in
  match rows with
  | [v] => stop_if negb (String.eqb (v_kind v) "object") with zip_stale else
           t_ret {| vb_path := path; vb_version_row_id := v_id v |}
  | _ => t_err zip_stale
  end.

Inductive RootOutcome : Type :=
| Disabled
| Empty
| Failed (code : string)
| ClaimedFailed (claim : RootClaim) (code : string)
| Verified (claim : RootClaim) (node_identity tier cid : string).

(** The join of [object_versions] and [objects] for some version rows. *)
Record JoinedVersion : Type := {
  jv_version_bucket : string; jv_version_key : string; jv_kind : string; jv_object_bucket : string;
  jv_object_key : string; jv_cid : string; jv_size : Z }.
Definition joined_versions (ids : list string) (db : Db) : list (string * JoinedVersion) :=
  omap (fun v =>
    object_id ← v_object_id v;
    o ← find_object object_id db;
    Some (v_id v, {| jv_version_bucket := v_bucket v; jv_version_key := v_key v; jv_kind := v_kind v;
                     jv_object_bucket := o_bucket o; jv_object_key := o_key o; jv_cid := o_cid o;
                     jv_size := o_size o |}))
    (filter (fun v => v_id v ∈ ids) (versions db)).

(** The first loop: each binding names an entry of its own that is not bound yet. *)
Fixpoint resolve_bindings (by_path : gmap string ZipManifestEntry) (seen : gset string)
    (bindings : list VersionBinding) : AppResult (list (string * ZipManifestEntry * string)) :=
  match bindings with
  | [] => Ok []
  | binding :: bindings =>
    bail_if bool_decide (vb_path binding ∈ seen) with zip_invalid else
    let? entry := ok_or zip_invalid (by_path !! vb_path binding) in
    bail_if is_some (ze_version_row_id entry) || str_is_empty (vb_version_row_id binding)
    with zip_stale else
    let? rest := resolve_bindings by_path ({[vb_path binding]} ∪ seen) bindings in
    Ok ((vb_path binding, entry, vb_version_row_id binding) :: rest)
  end.

(** The second loop: the version and the object of each entry are the ones its manifest names. *)
Definition check_chunk (db : Db) (bucket : string) (chunk : list (string * ZipManifestEntry * string)) :
    AppResult unit :=
  let rows := joined_versions (snd <$> chunk) db in
  bail_if negb (length rows =? length chunk)%nat with zip_stale else
  let actual : gmap string JoinedVersion := list_to_map rows in
  try_each (fun '(_, entry, id) =>
    let? key := ok_or zip_invalid (ze_object_key entry) in
    let? j := ok_or zip_stale (actual !! id) in
    bail_if negb (String.eqb (jv_kind j) "object") || negb (String.eqb (jv_version_bucket j) bucket)
            || negb (String.eqb (jv_version_key j) key) || negb (String.eqb (jv_object_bucket j) bucket)
            || negb (String.eqb (jv_object_key j) key) || bool_decide (Some (jv_cid j) <> ze_cid entry)
            || bool_decide (Some (jv_size j) <> ze_size entry) with zip_stale else
    Ok tt) chunk.

Definition with_version (version : string) (e : ZipManifestEntry) : ZipManifestEntry :=
  {| ze_object_key := ze_object_key e; ze_cid := ze_cid e; ze_size := ze_size e;
     ze_version_row_id := Some version; ze_error_code := ze_error_code e; ze_created_at := ze_created_at e |}.

(** The [UPDATE] of a chunk: the entries it changes and how. *)
Definition bound_by (id : string) (changes : gmap string string) (k : EntryKey) (e : ZipManifestEntry) :
    option string :=
  if decide (k.1 = id /\ ze_version_row_id e = None) then changes !! k.2 else None.
Definition bind_entries (id : string) (changes : gmap string string)
    (m : gmap EntryKey ZipManifestEntry) : gmap EntryKey ZipManifestEntry :=
  map_imap (fun k e => Some (match bound_by id changes k e with
                             | Some version => with_version version e
                             | None => e
                             end)) m.
Definition bind_chunk (id : string) (chunk : list (string * ZipManifestEntry * string)) : ZTx unit :=
  let changes : gmap string string := list_to_map ((fun '(path, _, version) => (path, version)) <$> chunk) in
  let* affected := t_reads (fun db =>
    size (filter (fun ke => is_Some (bound_by id changes ke.1 ke.2)) (zip_entries db))) in
  let* _ := z_exec (set_entries (bind_entries id changes)) in
  stop_if negb (affected =? length chunk)%nat with zip_stale else
  t_ret tt.

Fixpoint bind_chunks (id : string) (l : list (list (string * ZipManifestEntry * string))) : ZTx unit :=
  match l with
  | [] => t_ret tt
  | chunk :: l => let* _ := bind_chunk id chunk in bind_chunks id l
  end.

Definition PARAMS : nat := 900.

(** [bind_versions], without a maintenance lease to renew between the chunks. *)
Definition bind_versions (id : string) (batch : ZipBatch) (bindings : list VersionBinding) : ZTx (nat * nat) :=
  let* entries := t_reads (entries_of id) in
  let successes := length (List.filter (fun e => is_some (ze_cid e.2)) entries) in
  stop_if negb (successes =? length bindings)%nat with zip_invalid else
  let failed := (length entries - successes)%nat in
  let* resolved := t_lift (resolve_bindings (list_to_map entries) ∅ bindings) in
  let* checked := t_reads (fun db =>
    try_each (check_chunk (zip_objects db) (zb_bucket batch)) (chunks PARAMS resolved)) in
  let* _ := t_lift checked in
  let* _ := bind_chunks id (chunks ((PARAMS - 1) / 2)%nat resolved) in
  t_ret (successes, failed).

Definition adopt (utc : Z) (f : ZipRootReference) : ZipRootReference :=
  {| zf_state := "adopted"; zf_verification_receipt := zf_verification_receipt f;
     zf_logical_released_at := zf_logical_released_at f; zf_created_at := zf_created_at f;
     zf_updated_at := utc |}.

(** The claim behind a failed root, when there is one, must be current and neither lost nor settled. *)
Definition live_failed_claim (id : string) (claim : RootClaim) (now : Z) : ZTx unit :=
  stop_if negb (String.eqb (rc_batch_id claim) id) with zip_stale else
  let* build := current_claim claim now in
  stop_if bool_decide (zr_status build ∈ ["unknown"; "failed"]) with zip_stale else
  t_ret tt.

Definition claim_is_current (id : string) (batch : ZipBatch) (claim : RootClaim) : bool :=
  String.eqb (rc_batch_id claim) id && (rc_revision claim =? zb_root_revision batch)
  && (rc_epoch claim =? zb_root_epoch batch).

(** The status, error code and CID of the root that a publication or a retry settles. *)
Definition root_fields (id : string) (batch : ZipBatch) (outcome : RootOutcome) (successes failures : nat)
    (failed_claim : option RootClaim) (now utc : Z) : ZTx (string * option string * option string) :=
  match outcome with
  | Disabled =>
    if zb_root_revision batch =? 0 then t_ret ("disabled", None, None) else t_err zip_invalid
  | Empty =>
    if (successes =? 0)%nat && (zb_root_revision batch =? 0) then t_ret ("empty", None, None)
    else t_err zip_invalid
  | Failed code =>
    if (0 <? successes)%nat && safe_code code then
      let* _ :=
        match failed_claim with
        | Some claim => live_failed_claim id claim now
        | None =>
          if negb (String.eqb (zb_state batch) "open") || negb (zb_root_revision batch =? 0) then
            stop_if negb (String.eqb code "root_intent_failed") || negb (String.eqb (zb_state batch) "open")
                    || (zb_root_revision batch =? 0) with zip_stale else
            let* row := t_reads (fun db => zip_builds db !! (id, zb_root_revision batch, zb_root_epoch batch)) in
            let* build := z_some row in
            stop_if (zr_lease_until build <=? now)
                    || negb (bool_decide (zr_status build ∈ ["intent"; "invoked"; "verified"; "reconciling"]))
            with zip_stale else
            t_ret tt
          else t_ret tt
        end in
      t_ret ("failed", Some code, None)
    else t_err zip_invalid
  | ClaimedFailed claim code =>
    if (0 <? successes)%nat && safe_code code then
      stop_if negb (claim_is_current id batch claim) with zip_stale else
      let* build := current_claim claim now in
      stop_if bool_decide (zr_status build ∈ ["unknown"; "failed"]) with zip_stale else
      t_ret ("failed", Some code, None)
    else t_err zip_invalid
  | Verified claim node tier cid =>
    if (0 <? successes)%nat then
      stop_if negb (claim_is_current id batch claim) with zip_stale else
      let* build := current_claim claim now in
      stop_if negb (String.eqb (zr_status build) "verified") with zip_stale else
      let* found := active_reference claim node tier cid in
      stop_if negb (String.eqb (zf_state found) "retained") || is_none (zf_verification_receipt found)
      with zip_stale else
      let* _ := z_exec (set_refs <[ref_key claim node tier cid := adopt utc found]>) in
      t_ret ((if (0 <? failures)%nat then "partial" else "complete"), None, Some cid)
    else t_err zip_invalid
  end.

Definition valid_terminal (result : string) : bool :=
  negb (str_is_empty result) && (str_len result <=? 1048576) && json_valid result.

(** [verify_archive_binding]: only multipart archives are bound to an earlier request. *)
Definition verify_archive_binding (id : string) (batch : ZipBatch) (terminal_result : string)
    (source_published : bool) : ZTx unit :=
  if String.eqb (zb_source batch) "mpu" then
    let* r := t_reads (fun db => verify_mpu_archive db id batch terminal_result source_published) in t_lift r
  else t_ret tt.

Definition with_settlement (source_published : bool) (terminal_result : string)
    (fields : string * option string * option string) (utc : Z) (b : ZipBatch) : ZipBatch :=
  {| zb_owner := zb_owner b; zb_source := zb_source b; zb_token := zb_token b;
     zb_fingerprint := zb_fingerprint b; zb_bucket := zb_bucket b; zb_archive_key := zb_archive_key b;
     zb_input_identity := zb_input_identity b; zb_captured_options := zb_captured_options b;
     zb_state := "published"; zb_manifest_prepared := zb_manifest_prepared b;
     zb_source_published := source_published;
     zb_terminal_result := Some terminal_result; zb_root_status := fields.1.1;
     zb_root_error_code := fields.1.2; zb_root_cid := fields.2;
     zb_root_revision := zb_root_revision b; zb_root_epoch := zb_root_epoch b;
     zb_created_at := zb_created_at b; zb_updated_at := utc |}.

Definition publish_batch (id : string) (bindings : list VersionBinding) (source_published : bool)
    (terminal_result : string) (outcome : RootOutcome) (failed_claim : option RootClaim) (now utc : Z) :
    ZTx unit :=
  stop_if negb (valid_terminal terminal_result) with zip_invalid else
  let* batch := locked_open_batch id in
  stop_if negb (zb_manifest_prepared batch) with zip_stale else
  let* _ := verify_archive_binding id batch terminal_result source_published in
  let* '(successes, failures) := bind_versions id batch bindings in
  let* fields := root_fields id batch outcome successes failures failed_claim now utc in
  z_exec (set_batches <[id := with_settlement source_published terminal_result fields utc batch]>).

(** [RootClaim::publish_failed] *)
Definition publish_failed (claim : RootClaim) (bindings : list VersionBinding) (source_published : bool)
    (terminal_result code : string) (now utc : Z) : ZTx unit :=
  publish_batch (rc_batch_id claim) bindings source_published terminal_result (Failed code) (Some claim) now utc.

Definition settle_root_retry (id terminal_result : string) (outcome : RootOutcome)
    (failed_claim : option RootClaim) (now utc : Z) : ZTx unit :=
  stop_if negb (valid_terminal terminal_result) with zip_invalid else
  let* batch := lock_batch id in
  stop_if negb (String.eqb (zb_state batch) "published") || negb (String.eqb (zb_root_status batch) "failed")
  with zip_stale else
  let* _ := verify_archive_binding id batch terminal_result (zb_source_published batch) in
  let* entries := t_reads (entries_of id) in
  let successes := length (List.filter (fun e => is_some (ze_cid e.2)) entries) in
  stop_if existsb (fun e => is_some (ze_cid e.2) && is_none (ze_version_row_id e.2)) entries
  with zip_stale else
  let failures := (length entries - successes)%nat in
  let* fields := root_fields id batch outcome successes failures failed_claim now utc in
  stop_if negb (bool_decide (fields.1.1 ∈ ["complete"; "partial"; "failed"])) with zip_invalid else
  z_exec (set_batches <[id := with_settlement (zb_source_published batch) terminal_result fields utc batch]>).

(** [RootClaim::settle_failed_retry] *)
Definition settle_failed_retry (claim : RootClaim) (terminal_result code : string) (now utc : Z) : ZTx unit :=
  settle_root_retry (rc_batch_id claim) terminal_result (Failed code) (Some claim) now utc.

(** ** [src/store/zip/recovery.rs] *)

Definition MAX_REVISIONS : Z := 5.

Record BatchSnapshot : Type := {
  bs_batch : ZipBatch; bs_entries : list (string * ZipManifestEntry) }.

Definition zip_terminal (snapshot : BatchSnapshot) (status : string) (code cid : option string) : AppResult string :=
  let? original := ok_or zip_stale (zb_terminal_result (bs_batch snapshot)) in
  terminal_with_root original status code cid.

Definition settle_verified (snapshot : BatchSnapshot) (claim : RootClaim) (node cid : string) (now utc : Z) :
    ZTx unit :=
  let* result := t_lift (zip_terminal snapshot
    (if existsb (fun e => is_none (ze_cid e.2)) (bs_entries snapshot) then "partial" else "complete")
    None (Some cid)) in
  settle_root_retry (rc_batch_id claim) result (Verified claim node "hot" cid) None now utc.

(** [1_i64 << (revision - 1).clamp(0, 5)], in seconds. *)
Definition retry_backoff (revision : Z) : Z :=
  30 * Z.shiftl 1 (Z.min 5 (Z.max 0 (revision - 1))).

(** [n1], [n2] are read by the two claim checks and [n3] starts the backoff. *)
Definition settle_failed (snapshot : BatchSnapshot) (claim : RootClaim) (code : string) (n1 n2 n3 utc : Z) :
    ZTx unit :=
  let code := if MAX_REVISIONS <=? rc_revision claim then "needs_attention" else code in
  let* result := t_lift (zip_terminal snapshot "failed" (Some code) None) in
  let* batch := lock_batch (rc_batch_id claim) in
  stop_if negb (zb_root_revision batch =? rc_revision claim) || negb (zb_root_epoch batch =? rc_epoch claim)
  with zip_stale else
  let* build := current_claim claim n1 in
  let* _ := settle_failed_retry claim result code n2 utc in
  z_exec (set_builds <[claim_key claim :=
    {| zr_worker := zr_worker build; zr_lease_until := n3 + seconds (retry_backoff (rc_revision claim));
       zr_status := "failed"; zr_error_code := Some code; zr_created_at := zr_created_at build;
       zr_updated_at := n3 |}]>).
End operations.
