(* ===== verification/ZipSystem.v ===== *)
(** * ZIP batches as a system of concurrent workers

    Any number of workers run the operations of [ZipBatch] in any order, each as one transaction at
    clock readings that never go backwards; other modules may release candidate roots, reserve the
    archive's key, rewrite the captured options and change the object tables in between.  The
    invariant of the reachable states shows that the fencing by revision, epoch and lease works. *)

From Stdlib Require Import ZArith Lia.
From stdpp Require Import base list strings gmap relations.
From S2P Require Import Prelude Errors Database Transaction StorageClasses ZipEntries ZipBatch.

#[local] Open Scope string_scope.
#[local] Open Scope list_scope.
#[local] Open Scope Z_scope.

Section system.
Context `{ZipWorld}.

Lemma lock_batch_ok id db b db' :
  lock_batch id db = Ok (b, db') <-> zip_batches db !! id = Some b /\ db' = db.
Proof.
  unfold lock_batch. split; [|by intros [E ->]; unfold t_bind, t_reads, t_some, t_lift; simpl; rewrite E].
  intros E. t_inv E. done.
Qed.

Lemma current_claim_ok claim now db r db' :
  current_claim claim now db = Ok (r, db') ->
  db' = db /\ zip_builds db !! claim_key claim = Some r
  /\ exists b, zip_batches db !! rc_batch_id claim = Some b
     /\ rc_revision claim = zb_root_revision b /\ rc_epoch claim = zb_root_epoch b
     /\ now < zr_lease_until r.
Proof.
  unfold current_claim. intros E. t_inv E. guard_inv. naive_solver.
Qed.

(** ** Manifests *)

Lemma entries_of_elem id db path e : (path, e) ∈ entries_of id db <-> zip_entries db !! (id, path) = Some e.
Proof.
  unfold entries_of. rewrite list_elem_of_omap. setoid_rewrite elem_of_map_to_list'. split.
  - intros ([[i p] e'] & Hin & E). simpl in *. case_decide; by simplify_eq.
  - intros E. exists ((id, path), e). split; [done|]. simpl. by rewrite decide_True.
Qed.

Lemma entries_of_nodup id db : NoDup (entries_of id db).*1.
Proof.
  unfold entries_of. pose proof (NoDup_fst_map_to_list (zip_entries db)) as Hn.
  induction (map_to_list (zip_entries db)) as [|[[i p] e] l IH]; csimpl; [constructor|].
  apply NoDup_cons in Hn as [Hp Hn]. specialize (IH Hn). case_decide as Hi; [|done]. csimpl.
  constructor; [|done]. intros ([p' e'] & -> & Hin)%list_elem_of_fmap. apply Hp.
  apply list_elem_of_omap in Hin as ([[i' q] e''] & Hin & E). simpl in *. case_decide; [|done].
  simplify_eq. apply list_elem_of_fmap. by exists ((id, p'), e').
Qed.

Lemma entries_of_lookup id db path :
  (list_to_map (entries_of id db) : gmap string ZipManifestEntry) !! path = zip_entries db !! (id, path).
Proof.
  apply option_eq. intros e. rewrite <- entries_of_elem. symmetry.
  apply elem_of_list_to_map, entries_of_nodup.
Qed.

(** What a bound entry must name: one stored version of the batch's bucket with the entry's key,
    content and size. *)
Definition version_matches (db : Db) (bucket : string) (e : ZipManifestEntry) (version : string) : Prop :=
  exists v o key, v ∈ versions db /\ v_id v = version /\ v_kind v = "object"
    /\ v_object_id v = Some (o_id o) /\ find_object (o_id o) db = Some o
    /\ v_bucket v = bucket /\ v_key v = key /\ o_bucket o = bucket /\ o_key o = key
    /\ ze_object_key e = Some key /\ ze_cid e = Some (o_cid o) /\ ze_size e = Some (o_size o).

Lemma version_matches_cid db bucket e v : version_matches db bucket e v -> is_Some (ze_cid e).
Proof. intros (? & o & ? & _ & _ & _ & _ & _ & _ & _ & _ & _ & _ & Hc & _). by exists (o_cid o). Qed.

Lemma joined_versions_elem ids db id j :
  (id, j) ∈ joined_versions ids db ->
  exists v o, v ∈ versions db /\ v_id v = id /\ v_object_id v = Some (o_id o)
    /\ find_object (o_id o) db = Some o
    /\ j = {| jv_version_bucket := v_bucket v; jv_version_key := v_key v; jv_kind := v_kind v;
              jv_object_bucket := o_bucket o; jv_object_key := o_key o; jv_cid := o_cid o;
              jv_size := o_size o |}.
Proof.
  intros (v & Hv & E)%list_elem_of_omap. apply list_elem_of_filter in Hv as [_ Hv].
  apply bind_Some in E as (oid & Ho & E). apply bind_Some in E as (o & Hf & [= <- <-]).
  assert (o_id o = oid) as Hid.
  { unfold find_object in Hf. by apply head_filter_elem in Hf as [_ ?]. }
  subst oid. by exists v, o.
Qed.

Lemma check_chunk_ok db bucket chunk path e version :
  check_chunk db bucket chunk = Ok tt -> (path, e, version) ∈ chunk -> version_matches db bucket e version.
Proof.
  unfold check_chunk. intros Hc Hin. apply bail_ok in Hc as [_ Hc].
  rewrite try_each_ok, Forall_forall in Hc. specialize (Hc _ Hin). simpl in Hc. ok_inv Hc. guard_inv.
  match goal with Hj : list_to_map _ !! _ = Some _ |- _ =>
    apply elem_of_list_to_map_2, joined_versions_elem in Hj as (v & o & Hv & Hid & Ho & Hf & ->) end.
  simpl in *. unfold version_matches.
  repeat match goal with Hd : ~ (_ <> _) |- _ => apply dec_stable in Hd end.
  eexists v, o, _. split_and!; eauto.
Qed.

Lemma resolve_bindings_ok by_path seen bindings resolved :
  resolve_bindings by_path seen bindings = Ok resolved ->
  length resolved = length bindings
  /\ NoDup (fst <$> (fst <$> resolved))
  /\ (forall p e v, (p, e, v) ∈ resolved ->
       (p ∉ seen) /\ by_path !! p = Some e /\ ze_version_row_id e = None /\ v <> "").
Proof.
  revert seen resolved. induction bindings as [|b bindings IH]; intros seen resolved; simpl.
  { intros [= <-]. split_and!; [done|constructor|]. intros p e v Hin. by apply elem_of_nil in Hin. }
  intros Hr. ok_inv Hr. guard_inv. injection Hr as <-.
  match goal with Hrec : resolve_bindings _ _ _ = Ok _ |- _ => apply IH in Hrec as (Hl & Hn & Hall) end.
  csimpl. split_and!.
  - by rewrite Hl.
  - constructor; [|done]. intros ([p e] & Ep & ([[q f] v] & E' & Hin)%list_elem_of_fmap)%list_elem_of_fmap.
    injection E' as -> ->. destruct (Hall _ _ _ Hin) as (Hns & _). simpl in Ep. set_solver.
  - intros p e v [[= -> -> ->]|Hin]%elem_of_cons.
    + split_and!; [done..| |].
      * by destruct (ze_version_row_id _).
      * by destruct (vb_version_row_id b).
    + destruct (Hall _ _ _ Hin) as (Hns & ?). split; [set_solver|done].
Qed.

Lemma bind_entries_lookup id changes m k :
  bind_entries id changes m !! k
  = (fun e => match bound_by id changes k e with Some v => with_version v e | None => e end) <$> m !! k.
Proof. unfold bind_entries. rewrite map_lookup_imap. by destruct (m !! k). Qed.

Lemma bind_entries_empty id m : bind_entries id ∅ m = m.
Proof.
  apply map_eq. intros k. rewrite bind_entries_lookup. destruct (m !! k) as [e|]; [|done]. simpl.
  unfold bound_by. case_decide; [by rewrite lookup_empty|done].
Qed.

Lemma bind_entries_union id c1 c2 m : bind_entries id c2 (bind_entries id c1 m) = bind_entries id (c1 ∪ c2) m.
Proof.
  apply map_eq. intros k. rewrite !bind_entries_lookup. destruct (m !! k) as [e|]; [|done]. simpl. f_equal.
  unfold bound_by. destruct (decide (k.1 = id /\ ze_version_row_id e = None)) as [Hk|Hk].
  - rewrite lookup_union. destruct (c1 !! k.2) as [v|]; simpl.
    + rewrite decide_False by naive_solver. by destruct (c2 !! k.2).
    + rewrite decide_True by done. by destruct (c2 !! k.2).
  - by rewrite decide_False.
Qed.

Definition changes_of (resolved : list (string * ZipManifestEntry * string)) : gmap string string :=
  list_to_map ((fun '(path, _, version) => (path, version)) <$> resolved).

Lemma set_entries_id f db : f (zip_entries db) = zip_entries db -> set_entries f db = db.
Proof. intros E. destruct db. unfold set_entries. simpl in *. by rewrite E. Qed.

Lemma set_entries_compose f g db : set_entries f (set_entries g db) = set_entries (fun m => f (g m)) db.
Proof. done. Qed.

Lemma bind_chunks_ok id l db u db' :
  bind_chunks id l db = Ok (u, db') -> db' = set_entries (bind_entries id (changes_of (concat l))) db.
Proof.
  revert db. induction l as [|c l IH]; intros db; simpl; intros E.
  { t_inv E. symmetry. apply set_entries_id. unfold changes_of. simpl. apply bind_entries_empty. }
  apply t_bind_ok in E as (a & d & E1 & E2). unfold bind_chunk in E1. t_inv E1. apply IH in E2 as ->.
  rewrite set_entries_compose. unfold changes_of. rewrite fmap_app, list_to_map_app.
  unfold set_entries. simpl. f_equal. apply bind_entries_union.
Qed.

(** Distinct elements of a list of the same length are all of it. *)
Lemma nodup_covers {A} (l k : list A) x :
  NoDup l -> l ⊆ k -> (length k <= length l)%nat -> x ∈ k -> x ∈ l.
Proof.
  intros Hl Hsub Hlen Hx. apply list_elem_of_In. apply (List.NoDup_length_incl (l := l) (l' := k)).
  - by apply NoDup_ListNoDup.
  - done.
  - intros y Hy%list_elem_of_In. apply list_elem_of_In. by apply Hsub.
  - by apply list_elem_of_In.
Qed.

Lemma changes_of_lookup resolved p v :
  NoDup resolved.*1.*1 -> changes_of resolved !! p = Some v <-> exists e, (p, e, v) ∈ resolved.
Proof.
  intros Hn. unfold changes_of. rewrite <- elem_of_list_to_map.
  - rewrite list_elem_of_fmap. split; [intros ([[q e] w] & [= -> ->] & Hin); eauto|].
    intros [e Hin]. by exists (p, e, v).
  - rewrite <- list_fmap_compose. rewrite <- list_fmap_compose in Hn.
    erewrite list_fmap_ext; [exact Hn|]. by intros ? [[] ?] ?.
Qed.

(** Every published object of the manifest is bound to a version that matches it. *)
Lemma bind_versions_ok id batch bindings db s f db' :
  bind_versions id batch bindings db = Ok ((s, f), db') ->
  exists changes, db' = set_entries (bind_entries id changes) db
    /\ (forall path e, zip_entries db !! (id, path) = Some e -> is_Some (ze_cid e) ->
         exists v, changes !! path = Some v /\ ze_version_row_id e = None
           /\ version_matches (zip_objects db) (zb_bucket batch) e v)
    /\ (forall path v, changes !! path = Some v ->
         exists e, zip_entries db !! (id, path) = Some e /\ is_Some (ze_cid e) /\ v <> "").
Proof.
  intros E. unfold bind_versions in E. t_inv E. guard_inv. simplify_eq.
  match goal with Hr : resolve_bindings _ _ _ = Ok ?r |- _ =>
    apply resolve_bindings_ok in Hr as (Hl & Hn & Hall); set (resolved := r) in * end.
  match goal with Hb : bind_chunks _ _ _ = _ |- _ => apply bind_chunks_ok in Hb as -> end.
  rewrite concat_chunks by (unfold PARAMS; simpl; lia).
  match goal with Hk : try_each _ _ = Ok ?u |- _ => destruct u; rename Hk into Hchk end.
  assert (forall p e v, (p, e, v) ∈ resolved ->
    zip_entries db !! (id, p) = Some e /\ ze_version_row_id e = None /\ v <> ""
    /\ version_matches (zip_objects db) (zb_bucket batch) e v) as Hres.
  { intros p e v Hin. destruct (Hall _ _ _ Hin) as (_ & Hp & He & Hv). rewrite entries_of_lookup in Hp.
    split_and!; [done..|]. rewrite <- (concat_chunks PARAMS resolved) in Hin by (unfold PARAMS; lia).
    apply list_elem_of_In, in_concat in Hin as (chunk & Hch & Hin).
    rewrite try_each_ok, Forall_forall in Hchk.
    eapply check_chunk_ok; [apply Hchk|]; by apply list_elem_of_In. }
  exists (changes_of resolved). split; [done|]. split.
  - intros path e He [cid Hcid].
    assert (path ∈ resolved.*1.*1) as ([q e'] & -> & ([[q' f] v] & [= -> ->] & Hin)%list_elem_of_fmap)%list_elem_of_fmap.
    { match goal with Hs : (length ?S =? _)%nat = true |- _ =>
        apply Nat.eqb_eq in Hs; apply (nodup_covers _ S.*1); [done| |rewrite !length_fmap; lia|] end.
      - intros p ([q e'] & -> & ([[q' f] v] & [= -> ->] & Hin)%list_elem_of_fmap)%list_elem_of_fmap.
        destruct (Hres _ _ _ Hin) as (Hq & _ & _ & Hm). apply list_elem_of_fmap. exists (q', f). split; [done|].
        apply list_elem_of_In, List.filter_In. split; [by apply list_elem_of_In, entries_of_elem|].
        apply version_matches_cid in Hm as [c Hc]. simpl. by rewrite Hc.
      - apply list_elem_of_fmap. exists (path, e). split; [done|]. apply list_elem_of_In, List.filter_In.
        split; [by apply list_elem_of_In, entries_of_elem|]. simpl. by rewrite Hcid. }
    simpl in *. destruct (Hres _ _ _ Hin) as (Hq & ? & _ & Hm). simplify_eq.
    exists v. split; [|done]. apply changes_of_lookup; [done|]. by exists e.
  - intros path v (e & Hin)%changes_of_lookup; [|done]. destruct (Hres _ _ _ Hin) as (Hq & _ & Hv & Hm).
    exists e. split; [done|]. split; [by eapply version_matches_cid|done].
Qed.

(** ** Effects

    The changes that the operations make, with the facts their guards established. *)

Definition with_input_identity (identity : string) (b : ZipBatch) : ZipBatch :=
  {| zb_owner := zb_owner b; zb_source := zb_source b; zb_token := zb_token b;
     zb_fingerprint := zb_fingerprint b; zb_bucket := zb_bucket b; zb_archive_key := zb_archive_key b;
     zb_input_identity := identity; zb_captured_options := zb_captured_options b;
     zb_state := zb_state b; zb_manifest_prepared := zb_manifest_prepared b;
     zb_source_published := zb_source_published b;
     zb_terminal_result := zb_terminal_result b; zb_root_status := zb_root_status b;
     zb_root_error_code := zb_root_error_code b; zb_root_cid := zb_root_cid b;
     zb_root_revision := zb_root_revision b; zb_root_epoch := zb_root_epoch b;
     zb_created_at := zb_created_at b; zb_updated_at := zb_updated_at b |}.
Definition with_options (options : string) (b : ZipBatch) : ZipBatch :=
  {| zb_owner := zb_owner b; zb_source := zb_source b; zb_token := zb_token b;
     zb_fingerprint := zb_fingerprint b; zb_bucket := zb_bucket b; zb_archive_key := zb_archive_key b;
     zb_input_identity := zb_input_identity b; zb_captured_options := options;
     zb_state := zb_state b; zb_manifest_prepared := zb_manifest_prepared b;
     zb_source_published := zb_source_published b;
     zb_terminal_result := zb_terminal_result b; zb_root_status := zb_root_status b;
     zb_root_error_code := zb_root_error_code b; zb_root_cid := zb_root_cid b;
     zb_root_revision := zb_root_revision b; zb_root_epoch := zb_root_epoch b;
     zb_created_at := zb_created_at b; zb_updated_at := zb_updated_at b |}.
Definition with_release (t : Z) (f : ZipRootReference) : ZipRootReference :=
  {| zf_state := zf_state f; zf_verification_receipt := zf_verification_receipt f;
     zf_logical_released_at := Some t; zf_created_at := zf_created_at f; zf_updated_at := zf_updated_at f |}.
Definition set_zip_objects (o : Db) (db : ZipDb) : ZipDb :=
  {| zip_batches := zip_batches db; zip_entries := zip_entries db; zip_builds := zip_builds db;
     zip_refs := zip_refs db; zip_objects := o |}.

Definition build_of (id : string) (b : ZipBatch) : BuildKey := (id, zb_root_revision b, zb_root_epoch b).

(** Every published object of the batch is bound to a version row. *)
Definition all_bound (id : string) (m : gmap EntryKey ZipManifestEntry) : Prop :=
  forall path e, m !! (id, path) = Some e -> is_Some (ze_cid e) -> is_Some (ze_version_row_id e).

Inductive zip_change (now : Z) (db : ZipDb) : ZipDb -> Prop :=
| change_admit id r utc :
    zip_batches db !! id = None ->
    zip_change now db (set_batches <[id := new_batch r utc]> db)
| change_prepare id b utc m :
    zip_batches db !! id = Some b -> zb_state b = "open" -> zb_manifest_prepared b = false ->
    (forall k, k.1 <> id -> m !! k = zip_entries db !! k) ->
    (forall path e, m !! (id, path) = Some e -> zip_entries db !! (id, path) = Some e \/ ze_version_row_id e = None) ->
    zip_change now db (set_batches <[id := with_prepared utc b]> (set_entries (fun _ => m) db))
| change_claim id b revision epoch r :
    zip_batches db !! id = Some b ->
    zb_root_status b ∉ ["complete"; "partial"; "disabled"; "empty"] ->
    (0 < zb_root_revision b ->
     exists previous, zip_builds db !! build_of id b = Some previous /\ zr_lease_until previous <= now) ->
    zb_root_revision b <= revision -> 0 < revision -> epoch = zb_root_epoch b + 1 ->
    zip_builds db !! (id, revision, epoch) = None ->
    zip_change now db (set_batches <[id := with_claim revision epoch now b]>
                         (set_builds <[(id, revision, epoch) := r]> db))
| change_build id b r :
    zip_batches db !! id = Some b -> is_Some (zip_builds db !! build_of id b) ->
    zip_change now db (set_builds <[build_of id b := r]> db)
| change_retain k f :
    zip_refs db !! k = None -> zf_state f = "retained" ->
    zip_change now db (set_refs <[k := f]> db)
| change_reference k f f' :
    zip_refs db !! k = Some f -> zf_state f' = zf_state f ->
    (is_Some (zf_verification_receipt f) -> is_Some (zf_verification_receipt f')) ->
    zip_change now db (set_refs <[k := f']> db)
| change_settle id b changes source_published terminal status error utc :
    zip_batches db !! id = Some b ->
    zb_state b = "open" /\ zb_manifest_prepared b = true
    \/ zb_state b = "published" /\ zb_root_status b = "failed" /\ source_published = zb_source_published b
       /\ changes = ∅ ->
    all_bound id (bind_entries id changes (zip_entries db)) ->
    zip_change now db
      (set_batches <[id := with_settlement source_published terminal (status, error, None) utc b]>
        (set_entries (bind_entries id changes) db))
| change_adopt id b changes source_published terminal status error utc node tier cid f :
    zip_batches db !! id = Some b ->
    zb_state b = "open" /\ zb_manifest_prepared b = true
    \/ zb_state b = "published" /\ zb_root_status b = "failed" /\ source_published = zb_source_published b
       /\ changes = ∅ ->
    all_bound id (bind_entries id changes (zip_entries db)) ->
    zip_refs db !! (build_of id b, node, tier, cid) = Some f -> is_Some (zf_verification_receipt f) ->
    zip_change now db
      (set_batches <[id := with_settlement source_published terminal (status, error, Some cid) utc b]>
        (set_refs <[(build_of id b, node, tier, cid) := adopt utc f]>
          (set_entries (bind_entries id changes) db)))
| change_identity id b identity :
    zip_batches db !! id = Some b -> zb_state b = "open" ->
    zip_change now db (set_batches <[id := with_input_identity identity b]> db)
| change_options id b options :
    zip_batches db !! id = Some b ->
    zip_change now db (set_batches <[id := with_options options b]> db)
| change_objects o : zip_change now db (set_zip_objects o db).

(** ** The invariant *)

(** An attempt is the current one of its batch, or of an earlier epoch and its lease is over. *)
Definition builds_fenced (db : ZipDb) (clock : Z) : Prop :=
  forall id revision epoch r, zip_builds db !! (id, revision, epoch) = Some r ->
  exists b, zip_batches db !! id = Some b
    /\ (revision = zb_root_revision b /\ epoch = zb_root_epoch b
        \/ revision <= zb_root_revision b /\ epoch < zb_root_epoch b /\ zr_lease_until r <= clock).

(** The counters of a batch are those of its current attempt. *)
Definition counters_claimed (db : ZipDb) : Prop :=
  forall id b, zip_batches db !! id = Some b ->
  zb_root_revision b = 0 /\ zb_root_epoch b = 0
  \/ 0 < zb_root_revision b /\ 0 < zb_root_epoch b /\ is_Some (zip_builds db !! build_of id b).

(** Each attempt of a batch has an epoch of its own. *)
Definition epochs_distinct (db : ZipDb) : Prop :=
  forall id revision revision' epoch,
  is_Some (zip_builds db !! (id, revision, epoch)) -> is_Some (zip_builds db !! (id, revision', epoch)) ->
  revision = revision'.

(** A root is public exactly when a candidate of the current attempt was verified and adopted. *)
Definition roots_adopted (db : ZipDb) : Prop :=
  (forall id b cid, zip_batches db !! id = Some b -> zb_root_cid b = Some cid ->
   zb_state b = "published"
   /\ exists node tier f, zip_refs db !! (build_of id b, node, tier, cid) = Some f
      /\ zf_state f = "adopted" /\ is_Some (zf_verification_receipt f))
  /\ (forall k f, zip_refs db !! k = Some f -> zf_state f = "adopted" ->
      exists b, zip_batches db !! ref_batch k = Some b /\ zb_root_cid b = Some (ref_cid_of k)
        /\ ref_build k = build_of (ref_batch k) b).

(** An open batch has settled nothing, and a published one has bound every object. *)
Definition states_consistent (db : ZipDb) : Prop :=
  (forall id b, zip_batches db !! id = Some b -> zb_state b = "open" ->
   zb_root_status b = "pending" /\ zb_source_published b = false)
  /\ (forall id b, zip_batches db !! id = Some b -> zb_state b = "published" ->
      zb_manifest_prepared b = true /\ all_bound id (zip_entries db))
  /\ (forall id path e, zip_entries db !! (id, path) = Some e ->
      exists b, zip_batches db !! id = Some b /\ zb_manifest_prepared b = true
        /\ (zb_state b = "open" -> ze_version_row_id e = None)).

Record ZipSafe (db : ZipDb) (clock : Z) : Prop := {
  safe_constraints : zip_constraints db;
  safe_builds : builds_fenced db clock;
  safe_counters : counters_claimed db;
  safe_epochs : epochs_distinct db;
  safe_roots : roots_adopted db;
  safe_states : states_consistent db }.

(** ** Preservation *)

#[local] Ltac look :=
  repeat match goal with
  | Hl : <[_ := _]> _ !! _ = Some _ |- _ => apply lookup_insert_Some in Hl as [[? ?]|[? Hl]]; simplify_eq/=
  end.

Lemma builds_fenced_mono db c c' : c <= c' -> builds_fenced db c -> builds_fenced db c'.
Proof.
  intros Hle Hb id rev ep r Hr. destruct (Hb _ _ _ _ Hr) as (b & Hid & Hor). exists b. split; [done|].
  naive_solver lia.
Qed.

(** A batch whose counters do not change keeps its attempts fenced. *)
Lemma builds_fenced_batch db c id b b' m :
  zip_batches db !! id = Some b -> zb_root_revision b' = zb_root_revision b ->
  zb_root_epoch b' = zb_root_epoch b -> builds_fenced db c ->
  zip_batches m = <[id := b']> (zip_batches db) -> zip_builds m = zip_builds db -> builds_fenced m c.
Proof.
  intros Hid Hr He Hb Em Eb i rev ep r. rewrite Em, Eb. intros Hl.
  destruct (Hb _ _ _ _ Hl) as (b0 & Hb0 & Hor).
  destruct (decide (i = id)) as [->|Hne].
  - exists b'. rewrite lookup_insert_eq, Hr, He. by simplify_eq.
  - exists b0. by rewrite lookup_insert_ne.
Qed.

Lemma builds_fenced_same db c m :
  builds_fenced db c -> zip_batches m = zip_batches db -> zip_builds m = zip_builds db -> builds_fenced m c.
Proof. intros Hb Em Eb i rev ep r. rewrite Em, Eb. apply Hb. Qed.

Lemma build_positive db id revision epoch r :
  zip_constraints db -> zip_builds db !! (id, revision, epoch) = Some r -> 0 < revision /\ 0 < epoch.
Proof.
  intros (_ & _ & _ & _ & _ & Hchk & _) Hr. by destruct (Hchk _ _ Hr) as (? & ? & _).
Qed.

#[local] Ltac same_batch lem Hi :=
  eapply lem; [eassumption| | |exact Hi|reflexivity|reflexivity]; reflexivity.

Lemma builds_fenced_change now db db' :
  zip_constraints db -> counters_claimed db -> builds_fenced db now -> zip_change now db db' ->
  builds_fenced db' now.
Proof.
  intros Hck Hc Hb Hch. inversion Hch as
    [id r utc Hnone|id b utc m Hid Hop Hprep Hother Hnew|id b revision epoch r Hid Hst Hprev Hrev Hpos Hep Hfresh
    |id b r Hid Hcur|k f Hnone Hf|k f f' Hk Hf Hrec|id b changes sp term st er utc Hid Hor Hall
    |id b changes sp term st er utc node tier cid f Hid Hor Hall Hk Hrec|id b identity Hid Hop|id b options Hid|o]; subst;
    try (same_batch builds_fenced_batch Hb);
    try (eapply builds_fenced_same; [exact Hb|reflexivity|reflexivity]).
  - intros i rev ep r' Hr. simpl in *. destruct (Hb _ _ _ _ Hr) as (b & Hi & Hor). exists b.
    split; [|done]. rewrite lookup_insert_ne; [done|]. congruence.
  - intros i rev ep r' Hr. simpl in *. apply lookup_insert_Some in Hr as [[[= <- <- <-] <-]|[Hne Hr]].
    { eexists. rewrite lookup_insert_eq. split; [done|]. by left. }
    destruct (Hb _ _ _ _ Hr) as (b0 & Hb0 & Hor). destruct (decide (i = id)) as [->|Hni].
    + eexists. rewrite lookup_insert_eq. split; [done|].
      simplify_eq/=. right. destruct Hor as [[-> ->]|(? & ? & ?)]; [|lia].
      pose proof (build_positive _ _ _ _ _ Hck Hr) as [Hp _]. destruct (Hprev Hp) as (prev & Hp' & Hle).
      unfold build_of in Hp'. simplify_eq. lia.
    + exists b0. by rewrite lookup_insert_ne.
  - intros i rev ep r' Hr. simpl in *. apply lookup_insert_Some in Hr as [[[= <- <- <-] <-]|[Hne Hr]];
      [|by apply Hb]. exists b. split; [done|]. by left.
Qed.

Lemma counters_claimed_change now db db' :
  builds_fenced db now -> counters_claimed db -> zip_change now db db' -> counters_claimed db'.
Proof.
  intros Hb Hc Hch. inversion Hch as
    [id r utc Hnone|id b utc m Hid Hop Hprep Hother Hnew|id b revision epoch r Hid Hst Hprev Hrev Hpos Hep Hfresh
    |id b r Hid Hcur|k f Hnone Hf|k f f' Hk Hf Hrec|id b changes sp term st er utc Hid Hor Hall
    |id b changes sp term st er utc node tier cid f Hid Hor Hall Hk Hrec|id b identity Hid Hop|id b options Hid|o];
    subst; intros i b' Hb'; simpl in *; look; try (by apply Hc);
    try (by destruct (Hc _ _ Hid) as [?|?]; [left|right]).
  - by left.
  - right. destruct (Hc _ _ Hid) as [[? ?]|(? & ? & _)]; (split; [lia|]; split; [lia|]);
      unfold build_of; simpl; rewrite lookup_insert_eq; eauto.
  - destruct (Hc _ _ Hb') as [?|(? & ? & ?)]; [by left|right]. split_and!; [done..|].
    rewrite lookup_insert_ne; [done|]. unfold build_of. congruence.
  - destruct (Hc _ _ Hb') as [?|(? & ? & ?)]; [by left|right]. split_and!; [done..|].
    apply lookup_insert_is_Some. destruct (decide (build_of id b = build_of i b')); [by left|by right].
Qed.

Lemma epochs_distinct_change now db db' :
  builds_fenced db now -> epochs_distinct db -> zip_change now db db' -> epochs_distinct db'.
Proof.
  intros Hb He Hch. inversion Hch as
    [id r utc Hnone|id b utc m Hid Hop Hprep Hother Hnew|id b revision epoch r Hid Hst Hprev Hrev Hpos Hep Hfresh
    |id b r Hid Hcur|k f Hnone Hf|k f f' Hk Hf Hrec|id b changes sp term st er utc Hid Hor Hall
    |id b changes sp term st er utc node tier cid f Hid Hor Hall Hk Hrec|id b identity Hid Hop|id b options Hid|o];
    subst; try exact He; intros i r1 r2 ep H1 H2; simpl in *;
    apply lookup_insert_is_Some in H1 as [E1|[N1 H1]], H2 as [E2|[N2 H2]]; unfold build_of in *; simplify_eq; try done.
  - destruct H2 as [x Hx]. destruct (Hb _ _ _ _ Hx) as (? & ? & ?). simplify_eq. lia.
  - destruct H1 as [x Hx]. destruct (Hb _ _ _ _ Hx) as (? & ? & ?). simplify_eq. lia.
  - by eapply He.
  - by eapply He.
  - by eapply He.
  - by eapply He.
Qed.

Lemma no_root db id b :
  zip_constraints db -> zip_batches db !! id = Some b ->
  zb_root_status b ∉ ["complete"; "partial"] -> zb_root_cid b = None.
Proof.
  intros (Hchk & _) Hid Hst. destruct (Hchk _ _ Hid) as (_ & _ & _ & _ & _ & _ & Hor). naive_solver.
Qed.

(** A batch that may still be settled has no public root. *)
Lemma settling_no_root db id b :
  zip_constraints db -> states_consistent db -> zip_batches db !! id = Some b ->
  zb_state b = "open" \/ zb_root_status b = "failed" -> zb_root_cid b = None.
Proof.
  intros Hck [Hopen _] Hid Hor. apply (no_root db id); [done..|].
  destruct Hor as [Ho| ->]; [destruct (Hopen _ _ Hid Ho) as [-> _]|]; set_solver.
Qed.

(** Replacing a batch by one with the same root fields and state. *)
Lemma roots_adopted_batch db m id b b' :
  zip_batches db !! id = Some b -> zb_root_cid b' = zb_root_cid b -> zb_state b' = zb_state b ->
  build_of id b' = build_of id b -> roots_adopted db ->
  zip_batches m = <[id := b']> (zip_batches db) -> zip_refs m = zip_refs db -> roots_adopted m.
Proof.
  intros Hid Hc Hs Hb [H1 H2] Em Er. unfold roots_adopted. rewrite Em, Er. split.
  - intros i b0 cid Hi Hcid. apply lookup_insert_Some in Hi as [[<- <-]|[_ Hi]]; [|by apply H1].
    rewrite Hb, Hs. apply H1; congruence.
  - intros k f Hk Hf. destruct (H2 _ _ Hk Hf) as (b0 & Hb0 & Hc0 & Hk0).
    destruct (decide (ref_batch k = id)) as [Hi|Hi].
    + exists b'. rewrite Hi in *. rewrite lookup_insert_eq, Hb, Hc. by simplify_eq.
    + exists b0. by rewrite lookup_insert_ne.
Qed.

(** Replacing a batch that has no public root by another. *)
Lemma roots_adopted_fresh db m id b' :
  (forall b, zip_batches db !! id = Some b -> zb_root_cid b = None) -> zb_root_cid b' = None ->
  roots_adopted db ->
  zip_batches m = <[id := b']> (zip_batches db) -> zip_refs m = zip_refs db -> roots_adopted m.
Proof.
  intros Hid Hc [H1 H2] Em Er. unfold roots_adopted. rewrite Em, Er. split.
  - intros i b0 cid Hi Hcid. apply lookup_insert_Some in Hi as [[<- <-]|[_ Hi]]; [congruence|by apply H1].
  - intros k f Hk Hf. destruct (H2 _ _ Hk Hf) as (b0 & Hb0 & Hc0 & Hk0).
    exists b0. rewrite lookup_insert_ne; [done|]. intros ->. specialize (Hid _ Hb0). congruence.
Qed.

Lemma roots_adopted_change now db db' :
  zip_constraints db -> states_consistent db -> roots_adopted db -> zip_change now db db' -> roots_adopted db'.
Proof.
  intros Hck Hs Hr Hch. inversion Hch as
    [id r utc Hnone|id b utc m Hid Hop Hprep Hother Hnew|id b revision epoch r Hid Hst Hprev Hrev Hpos Hep Hfresh
    |id b r Hid Hcur|k f Hnone Hf|k f f' Hk Hf Hrec|id b changes sp term st er utc Hid Hor Hall
    |id b changes sp term st er utc node tier cid f Hid Hor Hall Hk Hrec|id b identity Hid Hop|id b options Hid|o]; subst;
    try exact Hr;
    try (eapply roots_adopted_batch; [eassumption| | | |exact Hr|reflexivity|reflexivity]; reflexivity).
  - eapply roots_adopted_fresh; [| |exact Hr|reflexivity|reflexivity]; [congruence|done].
  - eapply roots_adopted_fresh; [| |exact Hr|reflexivity|reflexivity]; simpl.
    + intros b0 Hb0. apply (no_root db id); [done..|]. simplify_eq. set_solver.
    + apply (no_root db id); [done..|]. set_solver.
  - destruct Hr as [H1 H2]. split; simpl.
    + intros i b cid Hi Hcid. destruct (H1 _ _ _ Hi Hcid) as (Hst & node & tier & f0 & Hf0 & ? & ?).
      split; [done|]. exists node, tier, f0. rewrite lookup_insert_ne; [done|]. congruence.
    + intros k' f0 Hk' Hf0. apply lookup_insert_Some in Hk' as [[<- <-]|[_ Hk']]; [congruence|by apply H2 with f0].
  - destruct Hr as [H1 H2]. split; simpl.
    + intros i b cid Hi Hcid. destruct (H1 _ _ _ Hi Hcid) as (Hst & node & tier & f0 & Hf0 & Ha & Hv).
      split; [done|]. exists node, tier. destruct (decide (k = (build_of i b, node, tier, cid))) as [->|Hne].
      * exists f'. rewrite lookup_insert_eq. simplify_eq. split_and!; [done|congruence|auto].
      * exists f0. by rewrite lookup_insert_ne.
    + intros k' f0 Hk' Hf0. apply lookup_insert_Some in Hk' as [[<- <-]|[_ Hk']]; [|by apply H2 with f0].
      apply H2 with f; [done|congruence].
  - eapply roots_adopted_fresh; [| |exact Hr|reflexivity|reflexivity]; [|done].
    intros b0 Hb0. simplify_eq. eapply settling_no_root; [done..|]. naive_solver.
  - assert (zb_root_cid b = None) as Hcb by (eapply settling_no_root; [done..|]; naive_solver).
    destruct Hr as [H1 H2]. split; simpl.
    + intros i b0 c0 Hi Hcid. apply lookup_insert_Some in Hi as [[<- <-]|[? Hi]]; [simpl in Hcid; injection Hcid as <-|].
      * split; [done|]. exists node, tier, (adopt utc f). rewrite lookup_insert_eq. done.
      * destruct (H1 _ _ _ Hi Hcid) as (Hst & n0 & t0 & f0 & Hf0 & Ha & Hv). split; [done|].
        exists n0, t0, f0. rewrite lookup_insert_ne; [done|]. unfold build_of. congruence.
    + intros k' f0 Hk' Hf0. apply lookup_insert_Some in Hk' as [[<- <-]|[_ Hk']].
      * eexists. unfold ref_batch. simpl. rewrite lookup_insert_eq. done.
      * destruct (H2 _ _ Hk' Hf0) as (b0 & Hb0 & Hc0 & Hk0). exists b0. split; [|done].
        rewrite lookup_insert_ne; [done|]. intros E. rewrite <- E in Hb0. congruence.
Qed.

Lemma bind_entries_other id changes m k : k.1 <> id -> bind_entries id changes m !! k = m !! k.
Proof.
  intros Hk. rewrite bind_entries_lookup. destruct (m !! k); [|done]. simpl. unfold bound_by.
  by rewrite decide_False by naive_solver.
Qed.

Lemma states_consistent_batch db m id b b' :
  zip_batches db !! id = Some b -> zb_state b' = zb_state b -> zb_root_status b' = zb_root_status b ->
  zb_source_published b' = zb_source_published b -> zb_manifest_prepared b' = zb_manifest_prepared b ->
  states_consistent db ->
  zip_batches m = <[id := b']> (zip_batches db) -> zip_entries m = zip_entries db -> states_consistent m.
Proof.
  intros Hid Hs Hst Hsp Hm (H1 & H2 & H3) Em Ee. unfold states_consistent. rewrite Em, Ee. split_and!.
  - intros i b0 Hi. apply lookup_insert_Some in Hi as [[<- <-]|[_ Hi]]; [|exact (H1 _ _ Hi)].
    rewrite Hs, Hst, Hsp. exact (H1 id b Hid).
  - intros i b0 Hi. apply lookup_insert_Some in Hi as [[<- <-]|[_ Hi]]; [|exact (H2 _ _ Hi)].
    rewrite Hs, Hm. exact (H2 id b Hid).
  - intros i path e He. destruct (H3 _ _ _ He) as (b0 & Hb0 & Hp & Hv). destruct (decide (i = id)) as [->|Hne].
    + exists b'. rewrite lookup_insert_eq. simplify_eq. split; [done|]. by rewrite Hm, Hs.
    + exists b0. by rewrite lookup_insert_ne.
Qed.

Lemma states_consistent_settled db m id b b' changes :
  zip_batches db !! id = Some b -> zb_state b' = "published" -> zb_manifest_prepared b' = true ->
  all_bound id (bind_entries id changes (zip_entries db)) ->
  states_consistent db ->
  zip_batches m = <[id := b']> (zip_batches db) -> zip_entries m = bind_entries id changes (zip_entries db) ->
  states_consistent m.
Proof.
  intros Hid Hs Hp Hall (H1 & H2 & H3) Em Ee. unfold states_consistent. rewrite Em, Ee. split_and!.
  - intros i b0 Hi Ho. apply lookup_insert_Some in Hi as [[<- <-]|[_ Hi]]; [congruence|exact (H1 _ _ Hi Ho)].
  - intros i b0 Hi Ho. apply lookup_insert_Some in Hi as [[<- <-]|[Hne Hi]]; [done|].
    destruct (H2 _ _ Hi Ho) as [? Hb]. split; [done|].
    intros path e. rewrite bind_entries_other by done. apply Hb.
  - intros i path e He. destruct (decide (i = id)) as [->|Hne].
    + exists b'. rewrite lookup_insert_eq. split_and!; [done..|congruence].
    + rewrite bind_entries_other in He by done. destruct (H3 _ _ _ He) as (b0 & ? & ?).
      exists b0. by rewrite lookup_insert_ne.
Qed.

Lemma states_consistent_change now db db' :
  states_consistent db -> zip_change now db db' -> states_consistent db'.
Proof.
  intros Hs Hch. inversion Hch as
    [id r utc Hnone|id b utc m Hid Hop Hprep Hother Hnew|id b revision epoch r Hid Hst Hprev Hrev Hpos Hep Hfresh
    |id b r Hid Hcur|k f Hnone Hf|k f f' Hk Hf Hrec|id b changes sp term st er utc Hid Hor Hall
    |id b changes sp term st er utc node tier cid f Hid Hor Hall Hk Hrec|id b identity Hid Hop|id b options Hid|o]; subst;
    try exact Hs;
    try (eapply states_consistent_batch; [eassumption| | | | |exact Hs|reflexivity|reflexivity]; reflexivity).
  - destruct Hs as (H1 & H2 & H3). split_and!; simpl.
    + intros i b0 Hi. apply lookup_insert_Some in Hi as [[<- <-]|[_ Hi]]; [done|exact (H1 _ _ Hi)].
    + intros i b0 Hi. apply lookup_insert_Some in Hi as [[<- <-]|[_ Hi]]; [done|exact (H2 _ _ Hi)].
    + intros i path e He. destruct (H3 _ _ _ He) as (b0 & ? & ?). exists b0.
      rewrite lookup_insert_ne; [done|congruence].
  - destruct Hs as (H1 & H2 & H3). split_and!; simpl.
    + intros i b0 Hi. apply lookup_insert_Some in Hi as [[<- <-]|[_ Hi]]; [exact (H1 id b Hid)|exact (H1 _ _ Hi)].
    + intros i b0 Hi Ho. apply lookup_insert_Some in Hi as [[<- <-]|[Hne Hi]]; [simpl in Ho; congruence|].
      destruct (H2 _ _ Hi Ho) as [? Hb]. split; [done|]. intros path e. rewrite Hother by done. apply Hb.
    + intros i path e He. destruct (decide (i = id)) as [->|Hne].
      * eexists. rewrite lookup_insert_eq. split_and!; [done..|]. intros _.
        destruct (Hnew _ _ He) as [Ho|Hv]; [|done]. destruct (H3 _ _ _ Ho) as (b0 & ? & ? & ?). congruence.
      * rewrite Hother in He by done. destruct (H3 _ _ _ He) as (b0 & ? & ?). exists b0.
        by rewrite lookup_insert_ne.
  - eapply states_consistent_settled; [exact Hid| | |exact Hall|exact Hs|reflexivity|reflexivity]; [done|].
    simpl. destruct Hs as (_ & H2 & _). destruct Hor as [[_ ?]|(Hp & _)]; [done|by apply (H2 id b)].
  - eapply states_consistent_settled; [exact Hid| | |exact Hall|exact Hs|reflexivity|reflexivity]; [done|].
    simpl. destruct Hs as (_ & H2 & _). destruct Hor as [[_ ?]|(Hp & _)]; [done|by apply (H2 id b)].
Qed.

Lemma zip_change_safe clock now db db' :
  ZipSafe db clock -> clock <= now -> zip_change now db db' -> zip_constraints db' -> ZipSafe db' now.
Proof.
  intros [Hck Hb Hc He Hr Hs] Hle Hch Hck'. apply (builds_fenced_mono _ _ now) in Hb; [|done].
  split; [done|..].
  - by apply (builds_fenced_change now db).
  - by apply (counters_claimed_change now db).
  - by apply (epochs_distinct_change now db).
  - by apply (roots_adopted_change now db).
  - by apply (states_consistent_change now db).
Qed.

(** ** The operations make such changes *)

(** Nothing, or a sequence of changes each of which leaves the constraints intact. *)
Definition zip_changes (now : Z) : ZipDb -> ZipDb -> Prop :=
  rtc (fun db db' => zip_change now db db' /\ zip_constraints db').

Lemma one_change now db db' : zip_change now db db' -> zip_constraints db' -> zip_changes now db db'.
Proof. intros. by apply rtc_once. Qed.

Lemma zip_changes_safe clock now db db' :
  ZipSafe db clock -> clock <= now -> zip_changes now db db' -> ZipSafe db' now.
Proof.
  intros Hs Hle Hch. assert (ZipSafe db now) as Hn.
  { destruct Hs. split; try done. by eapply builds_fenced_mono. }
  clear Hs Hle. induction Hch as [|db db1 db' [Hc Hk] _ IH]; [done|].
  apply IH. by eapply zip_change_safe.
Qed.

Lemma insert_or_find_changes now r exact_mirror utc db x db' :
  insert_or_find r exact_mirror utc db = Ok (x, db') -> zip_changes now db db'.
Proof.
  unfold insert_or_find. intros E. t_inv E.
  match goal with Hi : (if is_some ?o then _ else _) _ = Ok _ |- _ => destruct (is_some o); t_inv Hi end.
  all: repeat match goal with x : _ * _ |- _ => destruct x end; t_inv E; try constructor.
  apply one_change; [|done]. apply change_admit. by destruct (_ !! _).
Qed.

Lemma prepare_items_effect id existing utc paths items db paths' db' :
  prepare_items id existing utc paths items db = Ok (paths', db') ->
  match existing with
  | Some _ => db' = db
  | None => exists m, db' = set_entries (fun _ => m) db
      /\ (forall k, k.1 <> id -> m !! k = zip_entries db !! k)
      /\ (forall path e, m !! (id, path) = Some e ->
           zip_entries db !! (id, path) = Some e \/ ze_version_row_id e = None)
  end.
Proof.
  revert paths db. induction items as [|item items IH]; intros paths db; simpl.
  { intros E. t_inv E. destruct existing; [done|]. exists (zip_entries db).
    split; [by destruct db|]. naive_solver. }
  intros E. apply t_bind_ok in E as (a & d & E1 & E2). apply IH in E2. clear IH.
  unfold prepare_item in E1. apply t_bind_ok in E1 as ([[[[p ok] c] sz] er] & d1 & E0 & E1).
  t_inv E0. t_inv E1. destruct existing as [ex|]; t_inv E1; [done|].
  destruct E2 as (m & -> & Ho & Hn). exists m. split; [done|]. simpl in *. split.
  - intros k Hk. rewrite Ho, lookup_insert_ne by (done || (intros <-; done)). done.
  - intros path e He. destruct (Hn _ _ He) as [Hl|]; [|by right].
    apply lookup_insert_Some in Hl as [[_ <-]|[_ Hl]]; [by right|by left].
Qed.

Lemma prepare_changes now id items exact_mirror utc db u db' :
  prepare_in_transaction id items exact_mirror utc db = Ok (u, db') -> zip_changes now db db'.
Proof.
  unfold prepare_in_transaction, locked_open_batch. intros E. t_inv E. guard_inv.
  match goal with Hl : lock_batch _ _ = Ok _ |- _ => apply lock_batch_ok in Hl as [Hid ->] end.
  match goal with Hp : prepare_items _ ?ex _ _ _ _ = Ok _ |- _ =>
    apply prepare_items_effect in Hp; rename Hp into Heff end.
  destruct (zb_manifest_prepared _) eqn:Hprep; t_inv E.
  - subst. constructor.
  - destruct Heff as (m & -> & Ho & Hn). apply one_change; [|done]. by apply change_prepare.
Qed.

Lemma claim_key_current claim b :
  rc_revision claim = zb_root_revision b -> rc_epoch claim = zb_root_epoch b ->
  claim_key claim = build_of (rc_batch_id claim) b.
Proof. unfold claim_key, build_of. by intros -> ->. Qed.

Lemma checked_add_one a x : ok_or zip_invalid (i64_checked_add a 1) = Ok x -> x = a + 1.
Proof. unfold i64_checked_add. intros E%ok_or_ok. by destruct (fits_i64 _); simplify_eq. Qed.

Lemma claim_root_changes id worker secs now db c db' :
  claim_root id worker secs now db = Ok (c, db') -> counters_claimed db -> zip_changes now db db'.
Proof.
  unfold claim_root. intros E Hc. t_inv E. guard_inv.
  match goal with Hl : lock_batch _ _ = Ok _ |- _ => apply lock_batch_ok in Hl as [Hid ->] end.
  match goal with Hp : (if 0 <? zb_root_revision ?b then _ else _) db = Ok (_, ?d) |- _ =>
    assert ((0 < zb_root_revision b -> exists previous, zip_builds db !! build_of id b = Some previous
              /\ zr_lease_until previous <= now) /\ d = db) as [Hprev ->]; [rename Hp into Hif|] end.
  { destruct (Z.ltb_spec 0 (zb_root_revision a)); t_inv Hif; guard_inv; [|split; [lia|done]].
    split; [|done]. intros _. eexists. split; [done|lia]. }
  match goal with Hp : (if String.eqb (zb_state ?b) "published" then _ else _) db = Ok (?r, ?d) |- _ =>
    assert ((zb_root_revision b <= r /\ 0 < r) /\ d = db) as [[Hle Hpos] ->]; [rename Hp into Hif'|] end.
  { pose proof (Hc _ _ Hid). destruct (String.eqb _ "published"); t_inv Hif'; split; try done; [|lia].
    apply checked_add_one in Hif' as ->. lia. }
  match goal with Hp : ok_or _ _ = Ok _ |- _ => apply checked_add_one in Hp end.
  apply one_change; [|done]. apply change_claim; try done.
  by destruct (zip_builds db !! _).
Qed.

(** The operations on the current attempt change nothing but its row. *)
Lemma current_build_change now claim n db r r' db1 :
  current_claim claim n db = Ok (r, db1) ->
  zip_change now db1 (set_builds <[claim_key claim := r']> db1).
Proof.
  intros (-> & Hr & b & Hb & H1 & H2 & _)%current_claim_ok.
  rewrite (claim_key_current claim b) in * by done. apply change_build; [done|]. by exists r.
Qed.

#[local] Ltac locked :=
  repeat match goal with
  | Hl : lock_batch _ _ = Ok _ |- _ => apply lock_batch_ok in Hl as [? ->]
  | Hc : current_claim _ _ ?d = Ok (_, ?d') |- _ =>
    lazymatch d with d' => fail | _ =>
      let Hd := fresh in pose proof (current_claim_ok _ _ _ _ _ Hc) as [Hd _]; subst d' end
  end.

Lemma renew_changes now claim secs n1 n2 n3 db u db' :
  renew_claim claim secs n1 n2 n3 db = Ok (u, db') -> zip_changes now db db'.
Proof.
  unfold renew_claim, renew_claim_in_transaction. intros E. t_inv E. locked.
  destruct (zip_builds _ !! claim_key claim) as [r|]; [|by t_inv E].
  guard_inv. destruct (_ && _); t_inv E. apply one_change; [|done]. by eapply current_build_change.
Qed.

Lemma mark_invoked_changes now claim n utc db u db' :
  mark_invoked claim n utc db = Ok (u, db') -> zip_changes now db db'.
Proof.
  unfold mark_invoked. intros E. t_inv E. locked.
  match goal with Hv : (if _ && _ then t_reads _ else t_ret _) _ = Ok _ |- _ =>
    destruct (_ && _); t_inv Hv end; (apply one_change; [|done]); by eapply current_build_change.
Qed.

Lemma mark_reconciling_changes now claim n utc db u db' :
  mark_reconciling claim n utc db = Ok (u, db') -> zip_changes now db db'.
Proof.
  unfold mark_reconciling. intros E. t_inv E. locked. apply one_change; [|done]. by eapply current_build_change.
Qed.

Lemma mark_unknown_changes now claim n1 n2 db u db' :
  mark_unknown claim n1 n2 db = Ok (u, db') -> zip_changes now db db'.
Proof.
  unfold mark_unknown. intros E. t_inv E. locked. apply one_change; [|done]. by eapply current_build_change.
Qed.

Lemma retain_changes now claim node tier cid utc db u db' :
  retain_candidate claim node tier cid utc db = Ok (u, db') -> zip_changes now db db'.
Proof.
  unfold retain_candidate. intros E. t_inv E. locked.
  destruct (is_some _) eqn:Hk; t_inv E; [constructor|]. apply one_change; [|done]. apply change_retain; [|done].
  by destruct (zip_refs _ !! _).
Qed.

Lemma active_reference_ok claim node tier cid db f db' :
  active_reference claim node tier cid db = Ok (f, db') ->
  zip_refs db !! ref_key claim node tier cid = Some f /\ db' = db.
Proof.
  unfold active_reference. intros E. t_inv E. apply bind_Some in E as (f' & Hf & E).
  destruct (is_none _); by simplify_eq.
Qed.

Lemma verify_root_changes now claim node tier cid receipt n utc db u db' :
  verify_root claim node tier cid receipt n utc db = Ok (u, db') -> zip_changes now db db'.
Proof.
  unfold verify_root. intros E. t_inv E. locked.
  match goal with Ha : active_reference _ _ _ _ _ = Ok _ |- _ => apply active_reference_ok in Ha as [Hf ->] end.
  match goal with Hk : zip_constraints (set_refs ?g ?d) |- _ => apply (rtc_l _ _ (set_refs g d)) end;
    [split; [|done]|apply one_change; [|done]].
  - by eapply change_reference.
  - match goal with Hc : current_claim _ _ _ = Ok _ |- _ =>
      apply current_claim_ok in Hc as (_ & Hr & b & Hb & H1 & H2 & _) end.
    rewrite (claim_key_current claim b) in * by done. by apply change_build.
Qed.

(** A settled root: nothing is adopted without a CID, and a CID only from a verified candidate of
    the batch's current attempt. *)
Lemma root_fields_ok id batch outcome s f failed_claim now utc db status error cid db' :
  root_fields id batch outcome s f failed_claim now utc db = Ok ((status, error, cid), db') ->
  match cid with
  | None => db' = db
  | Some cid => exists node tier r,
      zip_refs db !! (build_of id batch, node, tier, cid) = Some r /\ is_Some (zf_verification_receipt r)
      /\ db' = set_refs <[(build_of id batch, node, tier, cid) := adopt utc r]> db
  end.
Proof.
  destruct outcome as [| |code|claim code|claim node tier c]; simpl; intros E.
  - destruct (_ =? _); by t_inv E; simplify_eq.
  - destruct (_ && _); by t_inv E; simplify_eq.
  - destruct (_ && _); t_inv E; simplify_eq. destruct failed_claim as [claim|].
    + match goal with Hl : live_failed_claim _ _ _ _ = Ok _ |- _ => unfold live_failed_claim in Hl; t_inv Hl end.
      by locked.
    + match goal with Hl : (if ?c then _ else _) _ = Ok _ |- _ => destruct c; by t_inv Hl end.
  - destruct (_ && _); t_inv E; simplify_eq. by locked.
  - destruct (_ <? _)%nat; t_inv E; simplify_eq. locked.
    match goal with Ha : active_reference _ _ _ _ _ = Ok _ |- _ => apply active_reference_ok in Ha as [Hf ->] end.
    match goal with Hg : negb (claim_is_current _ _ _) = false |- _ =>
      apply negb_false_iff in Hg; unfold claim_is_current in Hg; guard_inv end.
    assert (claim_key claim = build_of id batch) as Hk by (unfold claim_key, build_of; congruence).
    unfold ref_key in *. rewrite Hk in *. eexists node, tier, _. split; [done|]. split; [|done].
    by destruct (zf_verification_receipt _).
Qed.

Lemma verify_archive_same id batch terminal sp db u db' :
  verify_archive_binding id batch terminal sp db = Ok (u, db') -> db' = db.
Proof. unfold verify_archive_binding. intros E. destruct (String.eqb _ _); by t_inv E. Qed.

Lemma all_bound_bind id changes m :
  (forall path e, m !! (id, path) = Some e -> is_Some (ze_cid e) -> is_Some (changes !! path) \/ is_Some (ze_version_row_id e)) ->
  all_bound id (bind_entries id changes m).
Proof.
  intros Hall path e. rewrite bind_entries_lookup. destruct (m !! (id, path)) as [e0|] eqn:E; [|done]. simpl.
  intros [= <-]. unfold bound_by. case_decide as Hd.
  - simpl in *. destruct (changes !! path) as [v|] eqn:Ev; [by eauto|].
    intros Hc. by destruct (Hall _ _ E Hc) as [[? ?]|?]; [congruence|].
  - intros Hc. destruct (ze_version_row_id e0) eqn:Ev; [by eauto|].
    exfalso. by apply Hd.
Qed.

(** The tables after a settlement. *)
Definition settled (id : string) (b : ZipBatch) (changes : gmap string string) (sp : bool) (terminal : string)
    (status : string) (error : option string) (root : option (string * string * string * ZipRootReference))
    (utc : Z) (db : ZipDb) : ZipDb :=
  match root with
  | None =>
    set_batches <[id := with_settlement sp terminal (status, error, None) utc b]>
      (set_entries (bind_entries id changes) db)
  | Some (node, tier, cid, r) =>
    set_batches <[id := with_settlement sp terminal (status, error, Some cid) utc b]>
      (set_refs <[(build_of id b, node, tier, cid) := adopt utc r]>
        (set_entries (bind_entries id changes) db))
  end.

(** The candidate a settlement adopts. *)
Definition adoptable (id : string) (b : ZipBatch) (db : ZipDb)
    (root : option (string * string * string * ZipRootReference)) : Prop :=
  match root with
  | None => True
  | Some (node, tier, cid, r) =>
    zip_refs db !! (build_of id b, node, tier, cid) = Some r /\ is_Some (zf_verification_receipt r)
  end.

Lemma settle_fields id b outcome s f failed_claim n utc changes db fields d sp terminal :
  root_fields id b outcome s f failed_claim n utc (set_entries (bind_entries id changes) db) = Ok (fields, d) ->
  exists status error root, fields.1 = (status, error) /\ adoptable id b db root
    /\ set_batches <[id := with_settlement sp terminal fields utc b]> d
       = settled id b changes sp terminal status error root utc db.
Proof.
  destruct fields as [[status error] [cid|]]; intros Hf%root_fields_ok; simpl in *.
  - destruct Hf as (node & tier & r & Hr & Hv & ->). by exists status, error, (Some (node, tier, cid, r)).
  - subst. by exists status, error, None.
Qed.

Lemma settled_change now id b changes sp terminal status error root utc db :
  zip_batches db !! id = Some b ->
  zb_state b = "open" /\ zb_manifest_prepared b = true
  \/ zb_state b = "published" /\ zb_root_status b = "failed" /\ sp = zb_source_published b /\ changes = ∅ ->
  all_bound id (bind_entries id changes (zip_entries db)) -> adoptable id b db root ->
  zip_change now db (settled id b changes sp terminal status error root utc db).
Proof.
  intros Hid Hor Hall Hroot. destruct root as [[[[node tier] cid] r]|]; simpl in *.
  - destruct Hroot. by apply change_adopt.
  - by apply change_settle.
Qed.

Lemma publish_run id bindings sp terminal outcome failed_claim n utc db u db' :
  publish_batch id bindings sp terminal outcome failed_claim n utc db = Ok (u, db') ->
  exists b changes status error root,
    zip_batches db !! id = Some b /\ zb_state b = "open" /\ zb_manifest_prepared b = true
    /\ (forall path e, zip_entries db !! (id, path) = Some e -> is_Some (ze_cid e) ->
         exists v, changes !! path = Some v /\ ze_version_row_id e = None
           /\ version_matches (zip_objects db) (zb_bucket b) e v)
    /\ (forall path v, changes !! path = Some v ->
         exists e, zip_entries db !! (id, path) = Some e /\ is_Some (ze_cid e) /\ v <> "")
    /\ adoptable id b db root
    /\ db' = settled id b changes sp terminal status error root utc db /\ zip_constraints db'.
Proof.
  unfold publish_batch, locked_open_batch. intros E. t_inv E. guard_inv. locked.
  match goal with Hv : verify_archive_binding _ _ _ _ _ = Ok _ |- _ => apply verify_archive_same in Hv as -> end.
  destruct a1 as [s f]. t_inv E.
  match goal with Hb : bind_versions _ _ _ _ = Ok _ |- _ =>
    apply bind_versions_ok in Hb as (changes & -> & Hall & Hch) end.
  match goal with Hr : root_fields _ _ _ _ _ _ _ _ _ = Ok _ |- _ =>
    apply (settle_fields _ _ _ _ _ _ _ _ _ _ _ _ sp terminal) in Hr as (status & error & root & _ & Had & Heq) end.
  rewrite Heq in *. by exists a0, changes, status, error, root.
Qed.

Lemma publish_changes now id bindings sp terminal outcome failed_claim n utc db u db' :
  publish_batch id bindings sp terminal outcome failed_claim n utc db = Ok (u, db') -> zip_changes now db db'.
Proof.
  intros (b & changes & status & error & root & Hid & Hop & Hm & Hall & _ & Had & -> & Hc)%publish_run.
  apply one_change; [|done]. apply settled_change; [done|by left| |done].
  apply all_bound_bind. intros path e He Hcid. destruct (Hall _ _ He Hcid) as (v & -> & _). left. by eexists.
Qed.

Lemma settle_run id terminal outcome failed_claim n utc db u db' :
  settle_root_retry id terminal outcome failed_claim n utc db = Ok (u, db') ->
  exists b status error root,
    zip_batches db !! id = Some b /\ zb_state b = "published" /\ zb_root_status b = "failed"
    /\ all_bound id (zip_entries db) /\ adoptable id b db root
    /\ db' = settled id b ∅ (zb_source_published b) terminal status error root utc db /\ zip_constraints db'.
Proof.
  unfold settle_root_retry. intros E. t_inv E. guard_inv. locked.
  match goal with Hv : verify_archive_binding _ _ _ _ _ = Ok _ |- _ => apply verify_archive_same in Hv as -> end.
  match goal with Hr : root_fields _ _ _ _ _ _ _ _ ?d = Ok _ |- _ =>
    rewrite <- (set_entries_id (bind_entries id ∅) d) in Hr by apply bind_entries_empty;
    apply (settle_fields _ _ _ _ _ _ _ _ _ _ _ _ (zb_source_published a) terminal) in Hr
      as (status & error & root & _ & Had & Heq) end.
  rewrite Heq in *. exists a, status, error, root. split_and!; try done.
  intros path e He [c Hc]. destruct (ze_version_row_id e) eqn:Ev; [by eauto|]. exfalso.
  match goal with Hx : existsb _ _ = false |- _ => apply not_true_iff_false in Hx; apply Hx end.
  apply existsb_exists. exists (path, e). split; [by apply list_elem_of_In, entries_of_elem|].
  simpl. by rewrite Hc, Ev.
Qed.

Lemma settle_changes now id terminal outcome failed_claim n utc db u db' :
  settle_root_retry id terminal outcome failed_claim n utc db = Ok (u, db') -> zip_changes now db db'.
Proof.
  intros (b & status & error & root & Hid & Hp & Hf & Hall & Had & -> & Hc)%settle_run.
  apply one_change; [|done]. apply settled_change; [done|by right| |done]. by rewrite bind_entries_empty.
Qed.

Lemma settle_failed_changes now snapshot claim code n1 n2 n3 utc db u db' :
  settle_failed snapshot claim code n1 n2 n3 utc db = Ok (u, db') -> zip_changes now db db'.
Proof.
  unfold settle_failed, settle_failed_retry. intros E. t_inv E. guard_inv. locked.
  match goal with Hs : settle_root_retry _ _ _ _ _ _ _ = Ok (_, ?d) |- _ =>
    pose proof (settle_changes now _ _ _ _ _ _ _ _ _ Hs) as Hch;
    apply settle_run in Hs as (b & status & error & root & Hid & _ & _ & _ & _ & -> & _) end.
  match goal with Hc : current_claim _ _ _ = Ok _ |- _ =>
    apply current_claim_ok in Hc as (_ & Hr & b' & Hb' & Hrev & Hep & _) end.
  rewrite Hid in Hb'. injection Hb' as <-.
  unfold zip_changes. etrans; [exact Hch|]. apply one_change; [|done]. clear Hch.
  rewrite (claim_key_current claim b) in * by done.
  set (d := settled _ _ _ _ _ _ _ _ _ _) in *.
  assert (exists b', zip_batches d !! rc_batch_id claim = Some b'
    /\ build_of (rc_batch_id claim) b' = build_of (rc_batch_id claim) b) as (b' & Hd & Hk).
  { subst d. destruct root as [[[[node tier] cid] r]|]; simpl; eexists; (split; [apply lookup_insert_eq|done]). }
  assert (zip_builds d = zip_builds db) as Hbs by (subst d; by destruct root as [[[[node tier] cid] r]|]).
  rewrite <- Hk. apply change_build; [done|]. rewrite Hk, Hbs. by eexists.
Qed.

Lemma settle_verified_changes now snapshot claim node cid n utc db u db' :
  settle_verified snapshot claim node cid n utc db = Ok (u, db') -> zip_changes now db db'.
Proof. unfold settle_verified. intros E. t_inv E. by eapply settle_changes. Qed.

(** ** The system *)

Inductive ZipOp : Type :=
| OpAdmit (r : BatchAdmission)
| OpAdmitLegacy (r : BatchAdmission)
| OpAdmitMirror (r : BatchAdmission)
| OpPrepare (id : string) (items : list ManifestItem) (exact_mirror : bool)
| OpClaim (id worker : string) (lease_seconds : Z)
| OpRenew (claim : RootClaim) (secs : Z)
| OpInvoked (claim : RootClaim)
| OpReconciling (claim : RootClaim)
| OpUnknown (claim : RootClaim)
| OpRetain (claim : RootClaim) (node tier cid : string)
| OpVerify (claim : RootClaim) (node tier cid receipt : string)
| OpPublish (id : string) (bindings : list VersionBinding) (source_published : bool) (terminal : string)
    (outcome : RootOutcome) (failed_claim : option RootClaim)
| OpSettle (id terminal : string) (outcome : RootOutcome) (failed_claim : option RootClaim)
| OpSettleVerified (snapshot : BatchSnapshot) (claim : RootClaim) (node cid : string)
| OpSettleFailed (snapshot : BatchSnapshot) (claim : RootClaim) (code : string).

Definition ignore {A} (c : ZTx A) : ZTx unit := t_bind c (fun _ => t_ret tt).

(** An operation as one transaction, at three readings of the database clock and one of the
    application's. *)
Definition run_op (op : ZipOp) (n1 n2 n3 utc : Z) : ZTx unit :=
  match op with
  | OpAdmit r => ignore (admit_batch r utc)
  | OpAdmitLegacy r => ignore (admit_legacy_core r utc)
  | OpAdmitMirror r => ignore (admit_mirror_core r utc)
  | OpPrepare id items exact_mirror => prepare_in_transaction id items exact_mirror utc
  | OpClaim id worker lease_seconds => ignore (claim_root id worker lease_seconds n1)
  | OpRenew claim secs => renew_claim claim secs n1 n2 n3
  | OpInvoked claim => mark_invoked claim n1 utc
  | OpReconciling claim => mark_reconciling claim n1 utc
  | OpUnknown claim => mark_unknown claim n1 n2
  | OpRetain claim node tier cid => retain_candidate claim node tier cid utc
  | OpVerify claim node tier cid receipt => verify_root claim node tier cid receipt n1 utc
  | OpPublish id bindings sp terminal outcome failed_claim =>
    publish_batch id bindings sp terminal outcome failed_claim n1 utc
  | OpSettle id terminal outcome failed_claim => settle_root_retry id terminal outcome failed_claim n1 utc
  | OpSettleVerified snapshot claim node cid => settle_verified snapshot claim node cid n1 utc
  | OpSettleFailed snapshot claim code => settle_failed snapshot claim code n1 n2 n3 utc
  end.

Lemma run_op_changes op n1 n2 n3 utc db u db' :
  run_op op n1 n2 n3 utc db = Ok (u, db') -> counters_claimed db -> zip_changes n1 db db'.
Proof.
  destruct op; simpl; unfold ignore, admit_batch, admit_legacy_core, admit_mirror_core; intros E Hc; t_inv E;
    eauto using insert_or_find_changes, prepare_changes, claim_root_changes, renew_changes, mark_invoked_changes,
      mark_reconciling_changes, mark_unknown_changes, retain_changes, verify_root_changes, publish_changes,
      settle_changes, settle_verified_changes, settle_failed_changes.
Qed.

(** What other modules do to these tables. *)
Inductive zip_environment (db : ZipDb) : ZipDb -> Prop :=
| env_release k f t :
    zip_refs db !! k = Some f -> zip_environment db (set_refs <[k := with_release t f]> db)
| env_identity id b identity :
    zip_batches db !! id = Some b -> zb_state b = "open" ->
    zip_environment db (set_batches <[id := with_input_identity identity b]> db)
| env_options id b options :
    zip_batches db !! id = Some b -> zip_environment db (set_batches <[id := with_options options b]> db)
| env_objects o : zip_environment db (set_zip_objects o db).

Lemma environment_change now db db' : zip_environment db db' -> zip_change now db db'.
Proof.
  intros He. inversion He; subst.
  - by eapply change_reference.
  - by apply change_identity.
  - by apply change_options.
  - apply change_objects.
Qed.

(** One step at a time when the clock shows [clock]; a failed operation changes nothing. *)
Inductive zip_step : ZipDb * Z -> ZipDb * Z -> Prop :=
| step_op op n1 n2 n3 utc db clock db' :
    clock <= n1 -> n1 <= n2 -> n2 <= n3 -> run_op op n1 n2 n3 utc db = Ok (tt, db') ->
    zip_step (db, clock) (db', n3)
| step_environment db clock db' :
    zip_environment db db' -> zip_constraints db' -> zip_step (db, clock) (db', clock)
| step_wait db clock clock' : clock <= clock' -> zip_step (db, clock) (db, clock').

Definition zip_empty (objects : Db) : ZipDb :=
  {| zip_batches := ∅; zip_entries := ∅; zip_builds := ∅; zip_refs := ∅; zip_objects := objects |}.

Definition zip_reachable (s : ZipDb * Z) : Prop :=
  exists objects clock, rtc zip_step (zip_empty objects, clock) s.

Lemma zip_safe_later db c c' : c <= c' -> ZipSafe db c -> ZipSafe db c'.
Proof. intros Hle []. split; try done. by eapply builds_fenced_mono. Qed.

Lemma zip_step_safe s s' : zip_step s s' -> ZipSafe s.1 s.2 -> ZipSafe s'.1 s'.2.
Proof.
  intros Hs Hsafe. destruct Hs as [op n1 n2 n3 utc db clock db' H1 H2 H3 E|db clock db' He Hk|db clock clock' Hle]; simpl in *.
  - apply (zip_safe_later _ n1); [lia|]. apply run_op_changes in E; [|apply Hsafe].
    by eapply zip_changes_safe.
  - apply (zip_change_safe clock clock db); [done|lia|by apply environment_change|done].
  - by eapply zip_safe_later.
Qed.

Lemma zip_empty_safe objects clock : ZipSafe (zip_empty objects) clock.
Proof.
  split.
  - unfold zip_constraints. simpl. split_and!; apply map_Forall_empty.
  - intros id rev ep r. simpl. by rewrite lookup_empty.
  - intros id b. simpl. by rewrite lookup_empty.
  - intros id r1 r2 ep [? E]. simpl in E. by rewrite lookup_empty in E.
  - split; simpl; intros *; by rewrite lookup_empty.
  - split_and!; simpl; intros *; by rewrite lookup_empty.
Qed.

Lemma zip_reachable_inv s : zip_reachable s -> ZipSafe s.1 s.2.
Proof.
  intros (objects & clock & Hr). remember (zip_empty objects, clock) as s0 eqn:E0.
  assert (ZipSafe s0.1 s0.2) as H0 by (subst; apply zip_empty_safe). clear E0.
  induction Hr; [done|]. apply IHHr. by eapply zip_step_safe.
Qed.

(** C7: however the workers interleave and whenever leases run out, at most one attempt to build
    the root of a batch holds a live lease, and it is the batch's current attempt, with the
    highest epoch. *)
Theorem root_lease_exclusive db clock id revision epoch build :
  zip_reachable (db, clock) ->
  zip_builds db !! (id, revision, epoch) = Some build -> clock < zr_lease_until build ->
  (exists b, zip_batches db !! id = Some b /\ revision = zb_root_revision b /\ epoch = zb_root_epoch b)
  /\ (forall revision' epoch' build', zip_builds db !! (id, revision', epoch') = Some build' ->
      (revision', epoch') = (revision, epoch)
      \/ epoch' < epoch /\ revision' <= revision /\ zr_lease_until build' <= clock).
Proof.
  intros Hr%zip_reachable_inv Hb Hl. pose proof (safe_builds _ _ Hr) as Hf. simpl in Hf.
  destruct (Hf _ _ _ _ Hb) as (b & Hid & [[-> ->]|(_ & _ & ?)]); [|lia].
  split; [by exists b|]. intros rev' ep' build' Hb'.
  destruct (Hf _ _ _ _ Hb') as (b' & Hid' & Hor). simplify_eq. naive_solver.
Qed.

(** C6: in every reachable state a batch shows a root exactly when its current attempt has a
    candidate with that CID that was verified and adopted, only published batches show one, and
    a published batch has bound every object of its manifest to a version row. *)
Theorem public_root_verified db clock id b :
  zip_reachable (db, clock) -> zip_batches db !! id = Some b ->
  (forall cid, zb_root_cid b = Some cid <->
     exists node tier r, zip_refs db !! ((id, zb_root_revision b, zb_root_epoch b), node, tier, cid) = Some r
       /\ zf_state r = "adopted" /\ is_Some (zf_verification_receipt r))
  /\ (is_Some (zb_root_cid b) -> zb_state b = "published")
  /\ (zb_state b = "published" -> forall path e, zip_entries db !! (id, path) = Some e ->
      is_Some (ze_cid e) -> is_Some (ze_version_row_id e)).
Proof.
  intros Hr%zip_reachable_inv Hid. destruct (safe_roots _ _ Hr) as [H1 H2]. simpl in H1, H2.
  destruct (safe_states _ _ Hr) as (_ & Hp & _). simpl in Hp. split_and!.
  - intros cid. split.
    + intros Hc. destruct (H1 _ _ _ Hid Hc) as (_ & node & tier & r & ?). by exists node, tier, r.
    + intros (node & tier & r & Hk & Ha & _). destruct (H2 _ _ Hk Ha) as (b' & Hb' & Hc & _).
      unfold ref_batch, ref_cid_of in *. simpl in *. congruence.
  - intros [cid Hc]. by destruct (H1 _ _ _ Hid Hc).
  - intros Hs. by destruct (Hp _ _ Hid Hs).
Qed.

(** ** From an extraction to its stored manifest *)

Definition stored_row (utc : Z) (item : ManifestItem) : ZipManifestEntry :=
  match item with
  | Success _ object_key cid size =>
    {| ze_object_key := Some object_key; ze_cid := Some cid; ze_size := Some size;
       ze_version_row_id := None; ze_error_code := None; ze_created_at := utc |}
  | Failure _ code =>
    {| ze_object_key := None; ze_cid := None; ze_size := None;
       ze_version_row_id := None; ze_error_code := Some code; ze_created_at := utc |}
  end.

Lemma required_ok s : s <> "" -> str_len s <= 4096 -> required s = true.
Proof. intros Hs Hl. unfold required. destruct s; [done|]. by apply andb_true_iff; split; [|apply Z.leb_le]. Qed.

Lemma valid_path_relative p : valid_relative_path p = true -> str_len p <= 4096 -> valid_path p = true.
Proof.
  unfold valid_relative_path, valid_path. intros Hv Hl. guard_inv.
  rewrite required_ok; [|by intros ->|done]. simpl.
  repeat (apply andb_true_iff; split); try done; by apply negb_true_iff.
Qed.

Lemma item_fields_storable utc item :
  item_storable item ->
  item_fields item = Ok (item_path item, ze_object_key (stored_row utc item), ze_cid (stored_row utc item),
                         ze_size (stored_row utc item), ze_error_code (stored_row utc item))
  /\ valid_path (item_path item) = true.
Proof.
  intros (Hv & Hl & Hi). split; [|apply valid_path_relative; [done|lia]].
  destruct item as [path key cid size|path code]; simpl.
  - destruct Hi as (? & ? & ? & ? & Hs%Z.leb_le). rewrite !required_ok by (done || lia). by rewrite Hs.
  - simpl in Hi. repeat (apply elem_of_cons in Hi as [->|Hi]; [done|]). by apply elem_of_nil in Hi.
Qed.

(** Adding the row of a storable item breaks no constraint. *)
Lemma constraints_row id item utc db :
  zip_constraints db -> is_Some (zip_batches db !! id) -> item_storable item ->
  zip_entries db !! (id, item_path item) = None ->
  zip_constraints (set_entries <[(id, item_path item) := stored_row utc item]> db).
Proof.
  intros (H1 & H2 & H3 & H4 & H5 & H6 & H7 & H8 & H9 & H10) Hb (Hv & _ & Hi) Hn.
  unfold zip_constraints. simpl. split_and!; try done.
  - apply map_Forall_insert_2; [|done]. unfold zip_entry_check. simpl. split_and!.
    + intros E. by rewrite E in Hv.
    + destruct item; simpl in *; [naive_solver|]. right. split_and!; try done. intros ->. set_solver.
    + by destruct item.
  - by apply map_Forall_insert_2.
  - apply map_Forall_insert_2.
    + intros k' e' _ [v Hs]. by destruct item.
    + intros k e He. apply map_Forall_insert_2; [|by apply (H5 k e)].
      intros [v Hs] E. rewrite Hs in E. by destruct item.
Qed.

Lemma constraints_prepared id b utc db :
  zip_constraints db -> zip_batches db !! id = Some b ->
  zip_constraints (set_batches <[id := with_prepared utc b]> db).
Proof.
  intros (H1 & H2 & H3 & H4 & H5 & H6 & H7 & H8 & H9 & H10) Hb.
  assert (forall i, is_Some (zip_batches db !! i) -> is_Some (<[id := with_prepared utc b]> (zip_batches db) !! i))
    as Hk by (intros i Hi; by rewrite lookup_insert_is_Some'; right).
  unfold zip_constraints. simpl. split_and!; try done.
  - apply map_Forall_insert_2; [|done]. exact (H1 _ _ Hb).
  - apply map_Forall_insert_2.
    + apply map_Forall_insert_2; [done|]. exact (H2 _ _ Hb).
    + intros i b' Hb'. apply map_Forall_insert_2; [|exact (H2 _ _ Hb')]. exact (H2 _ _ Hb' _ _ Hb).
  - intros k e He. by eapply Hk, (H4 k e).
  - intros k r Hr. by eapply Hk, (H7 k r).
Qed.

Lemma prepare_item_fresh id utc paths item db :
  zip_constraints db -> is_Some (zip_batches db !! id) -> item_storable item -> (item_path item ∉ paths) ->
  zip_entries db !! (id, item_path item) = None ->
  prepare_item id None utc paths item db
  = Ok ({[item_path item]} ∪ paths, set_entries <[(id, item_path item) := stored_row utc item]> db).
Proof.
  intros Hc Hb Hi Hp Hn. destruct (item_fields_storable utc item Hi) as [Hf Hv].
  unfold prepare_item, t_bind at 1, t_lift. rewrite Hf. cbn [rbind]. rewrite Hv, bool_decide_eq_false_2 by done.
  cbn [negb orb]. unfold t_bind, t_reads, t_exec, t_ret. cbn [rbind]. rewrite Hn. cbn [is_some].
  replace {| ze_object_key := _ |} with (stored_row utc item) by (by destruct item).
  by rewrite decide_True by (by apply constraints_row).
Qed.

Lemma prepare_items_fresh id utc items paths db :
  zip_constraints db -> is_Some (zip_batches db !! id) -> Forall item_storable items ->
  NoDup (item_path <$> items) ->
  (forall item, item ∈ items -> (item_path item ∉ paths) /\ zip_entries db !! (id, item_path item) = None) ->
  exists paths' m, prepare_items id None utc paths items db = Ok (paths', set_entries (fun _ => m) db)
    /\ zip_constraints (set_entries (fun _ => m) db)
    /\ forall k e, m !! k = Some e <->
         zip_entries db !! k = Some e
         \/ exists item, item ∈ items /\ k = (id, item_path item) /\ e = stored_row utc item.
Proof.
  revert paths db. induction items as [|item items IH]; intros paths db Hc Hb Hs Hnd Hfresh.
  { exists paths, (zip_entries db). rewrite set_entries_id by done. split_and!; [done|done|]. set_solver. }
  apply Forall_cons in Hs as [Hi Hs]. rewrite fmap_cons in Hnd. apply NoDup_cons in Hnd as [Hni Hnd].
  destruct (Hfresh item) as [Hp Hn]; [left|]. simpl. unfold t_bind.
  rewrite prepare_item_fresh by done. cbn [rbind].
  destruct (IH ({[item_path item]} ∪ paths) (set_entries <[(id, item_path item) := stored_row utc item]> db))
    as (paths' & m & E & Hcm & Hm); [by apply constraints_row|done|done|done| |].
  { intros j Hj. assert (item_path j <> item_path item) as Hne.
    { intros Ej. apply Hni. rewrite <- Ej. by apply list_elem_of_fmap_2. }
    destruct (Hfresh j) as [Hpj Hnj]; [by right|]. simpl. split; [set_solver|].
    rewrite lookup_insert_ne by congruence. done. }
  exists paths', m. split; [exact E|]. split; [exact Hcm|]. intros k e. rewrite Hm. simpl.
  rewrite lookup_insert_Some. split.
  - intros [[[<- <-]|[_ Hk]]|(j & Hj & -> & ->)]; [right|by left|right].
    + exists item. split_and!; [left|done|done].
    + exists j. split_and!; [by right|done|done].
  - intros [Hk|(j & [->|Hj]%elem_of_cons & -> & ->)]; [left|left; by left|right; by exists j].
    right. split; [|done]. intros <-. congruence.
Qed.

(** the manifest that an extraction computes is always accepted by the store: on a batch that is
    open and not prepared, in any reachable state, [prepare] succeeds and stores exactly one row
    per item, under the item's path, and nothing else changes but the batch's flag. *)
Theorem prepare_final_manifest db clock id b entries failures prefix m utc :
  zip_reachable (db, clock) ->
  zip_batches db !! id = Some b -> zb_state b = "open" -> zb_manifest_prepared b = false ->
  zb_root_revision b = 0 ->
  final_zip_manifest entries failures prefix = Some m ->
  Forall (fun e => ee_key e <> "") entries ->
  Z.of_nat (length entries) < 2 ^ 63 -> Z.of_nat (length failures) < 2 ^ 63 ->
  exists db', prepare_manifest id (manifest_items m) utc db = Ok (tt, db')
    /\ zip_batches db' = <[id := with_prepared utc b]> (zip_batches db)
    /\ (forall path e, zip_entries db' !! (id, path) = Some e <->
         exists item, item ∈ manifest_items m /\ item_path item = path /\ e = stored_row utc item)
    /\ (forall k, k.1 <> id -> zip_entries db' !! k = zip_entries db !! k)
    /\ zip_builds db' = zip_builds db /\ zip_refs db' = zip_refs db.
Proof.
  intros Hr%zip_reachable_inv Hid Hop Hprep Hrev Hm Hk Hle Hlf. simpl in Hr.
  assert (forall path, zip_entries db !! (id, path) = None) as Hnone.
  { intros path. destruct (zip_entries db !! (id, path)) as [e|] eqn:He; [|done].
    destruct (safe_states _ _ Hr) as (_ & _ & H3). destruct (H3 _ _ _ He) as (b' & ? & ? & _). congruence. }
  destruct (prepare_items_fresh id utc (manifest_items m) ∅ db) as (paths & rows & E & Hc & Hrows);
    [apply Hr|by eexists|by eapply manifest_items_storable|by eapply manifest_items_nodup|set_solver|].
  assert (zip_constraints (set_batches <[id := with_prepared utc b]> (set_entries (fun _ => rows) db))) as Hc'
    by (by apply constraints_prepared).
  exists (set_batches <[id := with_prepared utc b]> (set_entries (fun _ => rows) db)). split_and!; try done.
  - unfold prepare_manifest, prepare_in_transaction, locked_open_batch, lock_batch.
    unfold t_bind, t_reads, t_some, t_lift. cbn [rbind]. rewrite Hid. cbn [ok_or rbind]. rewrite Hop. simpl.
    rewrite Hrev, Hprep. cbn [andb negb orb Z.eqb rbind t_ret]. rewrite E. cbn [rbind].
    unfold t_exec. by rewrite decide_True.
  - intros path e. simpl. rewrite Hrows, Hnone. naive_solver.
  - intros [i path] Hne. simpl in *. apply option_eq. intros e. rewrite Hrows. naive_solver.
Qed.

(** What never changes once a batch is published. *)
Definition published_as (b b' : ZipBatch) : Prop :=
  zb_state b' = "published" /\ zb_source_published b' = zb_source_published b
  /\ zb_owner b' = zb_owner b /\ zb_source b' = zb_source b /\ zb_token b' = zb_token b
  /\ zb_fingerprint b' = zb_fingerprint b /\ zb_bucket b' = zb_bucket b
  /\ zb_archive_key b' = zb_archive_key b /\ zb_input_identity b' = zb_input_identity b
  /\ (zb_root_status b <> "failed" ->
      zb_terminal_result b' = zb_terminal_result b /\ zb_root_status b' = zb_root_status b
      /\ zb_root_error_code b' = zb_root_error_code b /\ zb_root_cid b' = zb_root_cid b).

Lemma published_as_refl b : zb_state b = "published" -> published_as b b.
Proof. by unfold published_as. Qed.

Lemma published_as_trans b1 b2 b3 : published_as b1 b2 -> published_as b2 b3 -> published_as b1 b3.
Proof.
  unfold published_as. intros (? & ? & ? & ? & ? & ? & ? & ? & ? & Hf) (? & ? & ? & ? & ? & ? & ? & ? & ? & Hf').
  split_and!; try congruence. intros Hne. destruct (Hf Hne) as (? & Hs & ? & ?).
  destruct Hf' as (? & ? & ? & ?); [congruence|]. split_and!; congruence.
Qed.

Lemma published_kept_change now db db' id b :
  zip_change now db db' -> zip_batches db !! id = Some b -> zb_state b = "published" ->
  (exists b', zip_batches db' !! id = Some b' /\ published_as b b')
  /\ (forall path, zip_entries db' !! (id, path) = zip_entries db !! (id, path)).
Proof.
  intros Hch Hid Hp.
  assert (forall i x, (i = id -> published_as b x) ->
    exists b', <[i := x]> (zip_batches db) !! id = Some b' /\ published_as b b') as Hins.
  { intros i x Hx. destruct (decide (i = id)) as [->|Hne].
    - exists x. rewrite lookup_insert_eq. auto.
    - exists b. rewrite lookup_insert_ne by done. split; [done|]. by apply published_as_refl. }
  assert (exists b', zip_batches db !! id = Some b' /\ published_as b b') as Hsame
    by (exists b; split; [done|by apply published_as_refl]).
  inversion Hch as
    [i r utc Hnone|i x utc m Hi Hop Hprep Hother Hnew|i x revision epoch r Hi Hst Hprev Hrev Hpos Hep Hfresh
    |i x r Hi Hcur|k f Hnone Hf|k f f' Hk Hf Hrec|i x changes sp term st er utc Hi Hor Hall
    |i x changes sp term st er utc node tier cid f Hi Hor Hall Hk Hrec|i x identity Hi Hop|i x options Hi|o]; subst; simpl;
    (split; [try exact Hsame; apply Hins; intros ->|]); simplify_eq; try done.
  - intros path. apply Hother. simpl. congruence.
  - destruct Hor as [[? _]|(_ & Hf & -> & _)]; [congruence|]. by unfold published_as.
  - intros path. destruct (decide (i = id)) as [->|Hne]; [|by apply bind_entries_other; simpl; congruence].
    simplify_eq. destruct Hor as [[? _]|(_ & _ & _ & ->)]; [congruence|]. by rewrite bind_entries_empty.
  - destruct Hor as [[? _]|(_ & Hf & -> & _)]; [congruence|]. by unfold published_as.
  - intros path. destruct (decide (i = id)) as [->|Hne]; [|by apply bind_entries_other; simpl; congruence].
    simplify_eq. destruct Hor as [[? _]|(_ & _ & _ & ->)]; [congruence|]. by rewrite bind_entries_empty.
  - congruence.
Qed.

Lemma published_kept_changes now db db' id b :
  zip_changes now db db' -> zip_batches db !! id = Some b -> zb_state b = "published" ->
  (exists b', zip_batches db' !! id = Some b' /\ published_as b b')
  /\ (forall path, zip_entries db' !! (id, path) = zip_entries db !! (id, path)).
Proof.
  intros Hch. revert b. induction Hch as [|db db1 db' [Hc _] _ IH]; intros b Hid Hp.
  { split; [|done]. exists b. split; [done|]. by apply published_as_refl. }
  destruct (published_kept_change _ _ _ _ _ Hc Hid Hp) as [(b1 & Hb1 & Has1) He1].
  destruct (IH b1 Hb1) as [(b2 & Hb2 & Has2) He2]; [apply Has1|].
  split; [|intros path; by rewrite He2]. exists b2. split; [done|]. by eapply published_as_trans.
Qed.

Lemma published_kept_step s s' id b :
  zip_step s s' -> ZipSafe s.1 s.2 -> zip_batches s.1 !! id = Some b -> zb_state b = "published" ->
  (exists b', zip_batches s'.1 !! id = Some b' /\ published_as b b')
  /\ (forall path, zip_entries s'.1 !! (id, path) = zip_entries s.1 !! (id, path)).
Proof.
  intros Hs Hsafe. destruct Hs as [op n1 n2 n3 utc db clock db' H1 H2 H3 E|db clock db' He Hk|db clock clock' Hle]; simpl in *.
  - apply run_op_changes in E; [|apply Hsafe]. by apply (published_kept_changes n1).
  - by apply (published_kept_change clock), environment_change.
  - intros Hid Hp. split; [|done]. exists b. split; [done|]. by apply published_as_refl.
Qed.

(** C38: publication is final.  Whatever the workers and the other modules do afterwards, a
    published batch stays published with the same identity, source flag and manifest rows
    (bindings included), and once its root is not [failed] its result and root fields never change
    either. *)
Theorem published_batch_final s s' id b :
  zip_reachable s -> rtc zip_step s s' -> zip_batches s.1 !! id = Some b -> zb_state b = "published" ->
  (exists b', zip_batches s'.1 !! id = Some b' /\ published_as b b')
  /\ (forall path, zip_entries s'.1 !! (id, path) = zip_entries s.1 !! (id, path)).
Proof.
  intros Hr%zip_reachable_inv Hst. revert b. induction Hst as [|s s1 s' Hs _ IH]; intros b Hid Hp.
  { split; [|done]. exists b. split; [done|]. by apply published_as_refl. }
  destruct (published_kept_step _ _ _ _ Hs Hr Hid Hp) as [(b1 & Hb1 & Has1) He1].
  destruct (IH (zip_step_safe _ _ Hs Hr) b1 Hb1) as [(b2 & Hb2 & Has2) He2]; [apply Has1|].
  split; [|intros path; by rewrite He2]. exists b2. split; [done|]. by eapply published_as_trans.
Qed.

(** a publication that succeeds binds every object of the manifest to a version row of the
    batch's bucket whose key, content and size are the manifest's, leaves the failure rows alone,
    and leaves every other batch, its manifest and all root attempts untouched. *)
Theorem publish_binds_versions id bindings sp terminal outcome failed_claim now utc db db' :
  publish_batch id bindings sp terminal outcome failed_claim now utc db = Ok (tt, db') ->
  (exists b b', zip_batches db !! id = Some b /\ zb_state b = "open"
    /\ zip_batches db' !! id = Some b' /\ zb_state b' = "published" /\ zb_source_published b' = sp
    /\ zb_terminal_result b' = Some terminal
    /\ forall path e, zip_entries db !! (id, path) = Some e ->
       if is_some (ze_cid e) then
         exists v, zip_entries db' !! (id, path) = Some (with_version v e)
           /\ version_matches (zip_objects db) (zb_bucket b) e v
       else zip_entries db' !! (id, path) = Some e)
  /\ (forall i, i <> id -> zip_batches db' !! i = zip_batches db !! i
      /\ forall path, zip_entries db' !! (i, path) = zip_entries db !! (i, path))
  /\ zip_builds db' = zip_builds db.
Proof.
  intros (b & changes & status & error & root & Hid & Hop & _ & Hall & Hch & _ & Hdb & _)%publish_run.
  assert (zip_entries db' = bind_entries id changes (zip_entries db)) as He
    by (subst; by destruct root as [[[[node tier] cid] r]|]).
  assert (exists fields, zip_batches db' = <[id := with_settlement sp terminal fields utc b]> (zip_batches db))
    as [fields Hb] by (subst; destruct root as [[[[node tier] cid] r]|]; simpl; eauto).
  rewrite He, Hb. split_and!.
  - eexists b, _. rewrite lookup_insert_eq. split_and!; try done. intros path e Hp.
    rewrite bind_entries_lookup, Hp. simpl. unfold bound_by. simpl. destruct (ze_cid e) as [c|] eqn:Ec; simpl.
    + destruct (Hall _ _ Hp) as (v & Hv & Hn & Hm); [by rewrite Ec|]. rewrite decide_True, Hv by done. eauto.
    + case_decide; [|done]. destruct (changes !! path) as [v|] eqn:Ev; [|done].
      destruct (Hch _ _ Ev) as (e' & He' & [? Hc] & _). congruence.
  - intros i Hne. rewrite lookup_insert_ne by done. split; [done|]. intros path. by apply bind_entries_other.
  - subst. by destruct root as [[[[node tier] cid] r]|].
Qed.
End system.
