(* ===== verification/CorsConfig.v ===== *)
(** * CORS documents ([src/cors/model.rs], [src/cors/config.rs], [src/cors/matcher.rs])

    Validation and canonicalisation of a [PutBucketCors] document, its stored JSON form, the
    projection back to the S3 shape, and the matcher that picks the rule of a browser request.  Header
    names and JSON are interfaces. *)

From Stdlib Require Import ZArith Lia Ascii.
From Stdlib Require String.
From stdpp Require Import base list strings.
From S2P Require Import Prelude Bytes Errors.

#[local] Open Scope string_scope.
#[local] Open Scope list_scope.
#[local] Open Scope Z_scope.

(** ** [src/cors/model.rs] *)

Record CorsRule : Type := {
  cr_allowed_origins : list string;
  cr_allowed_methods : list string;
  cr_allowed_headers : list string;
  cr_expose_headers : list string;
  cr_id : option string;
  cr_max_age_seconds : option Z
}.

Record CorsConfiguration : Type := { cc_rules : list CorsRule }.

#[export] Instance CorsRule_eq_dec : EqDecision CorsRule.
Proof. solve_decision. Defined.
#[export] Instance CorsConfiguration_eq_dec : EqDecision CorsConfiguration.
Proof. solve_decision. Defined.

(** ** [s3s::dto] *)

Record CORSRule : Type := {
  dto_allowed_headers : option (list string);
  dto_allowed_methods : list string;
  dto_allowed_origins : list string;
  dto_expose_headers : option (list string);
  dto_id : option string;
  dto_max_age_seconds : option Z
}.

Record CORSConfiguration : Type := { dto_cors_rules : list CORSRule }.

(** ** Libraries

    [header_name] is [HeaderName::from_bytes] of the [http] crate followed by [as_str]: header names
    are tokens of visible ASCII characters, normalised to lower case.  [cors_to_json] and
    [cors_from_json] are [serde_json]'s functions at the derived implementations of
    [CorsConfiguration]. *)
Class CorsLib := {
  header_name : string -> option string;
  cors_to_json : CorsConfiguration -> option string;
  cors_from_json : string -> option CorsConfiguration
}.

(** The visible ASCII characters, from the space to the tilde *)
Definition visible (s : string) : bool := string_forallb (fun c => within 32 126 (N_of_ascii c)) s.

Class CorsLibLaws `{CorsLib} := {
  header_name_lower : forall s n, header_name s = Some n -> n = ascii_lower s;
  header_name_visible : forall s n, header_name s = Some n -> visible s = true;
  cors_json_roundtrip : forall c j, cors_to_json c = Some j -> cors_from_json j = Some c
}.

(** ** [src/cors/config.rs] *)

Definition MAX_CORS_CONFIGURATION_BYTES : Z := 64 * 1024.

Section config.
Context `{CorsLib}.

Definition validate_cors_pattern (value : string) : AppResult unit :=
  if negb (str_is_empty value) && negb (any_control value || any_whitespace value)
     && (count_char "*" value <=? 1)
  then Ok tt else Err InvalidCorsConfiguration.

Definition validate_cors_method (value : string) : AppResult unit :=
  if bool_decide (value ∈ ["GET"; "PUT"; "HEAD"; "POST"; "DELETE"]) then Ok tt
  else Err InvalidCorsConfiguration.

Definition validate_cors_rule (rule : CorsRule) : AppResult unit :=
  bail_if bool_decide (cr_allowed_origins rule = []) || bool_decide (cr_allowed_methods rule = [])
  with InvalidCorsConfiguration else
  bail_if is_some_and (fun id => 255 <? char_count id) (cr_id rule)
          || is_some_and (fun max_age => max_age <? 0) (cr_max_age_seconds rule)
  with InvalidCorsConfiguration else
  let? _ := try_each validate_cors_pattern (cr_allowed_origins rule) in
  let? _ := try_each validate_cors_method (cr_allowed_methods rule) in
  let? _ := try_each validate_cors_pattern (cr_allowed_headers rule) in
  try_each (fun header => bail_if is_none (header_name header) with InvalidCorsConfiguration else Ok tt)
    (cr_expose_headers rule).

Definition validate_model (config : CorsConfiguration) : AppResult unit :=
  let rules := Z.of_nat (length (cc_rules config)) in
  bail_if negb ((1 <=? rules) && (rules <=? 100)) with InvalidCorsConfiguration else
  try_each validate_cors_rule (cc_rules config).

Definition canonical_rule (rule : CORSRule) : CorsRule :=
  {| cr_allowed_origins := dto_allowed_origins rule; cr_allowed_methods := dto_allowed_methods rule;
     cr_allowed_headers := default [] (dto_allowed_headers rule);
     cr_expose_headers := default [] (dto_expose_headers rule);
     cr_id := dto_id rule; cr_max_age_seconds := dto_max_age_seconds rule |}.

Definition validate_and_canonicalize_cors (input : CORSConfiguration) : AppResult CorsConfiguration :=
  let config := {| cc_rules := canonical_rule <$> dto_cors_rules input |} in
  let? _ := validate_model config in Ok config.

Definition canonical_cors_json (config : CorsConfiguration) : AppResult string :=
  let? _ := validate_model config in
  let? json := ok_or InvalidCorsConfiguration (cors_to_json config) in
  if str_len json <=? MAX_CORS_CONFIGURATION_BYTES then Ok json else Err InvalidCorsConfiguration.

Definition from_canonical_cors_json (raw : string) : AppResult CorsConfiguration :=
  let? config := ok_or CorruptCorsConfiguration (cors_from_json raw) in
  let? _ := map_err (fun _ => CorruptCorsConfiguration) (validate_model config) in
  let? json := ok_or CorruptCorsConfiguration (cors_to_json config) in
  if str_len json <=? MAX_CORS_CONFIGURATION_BYTES then Ok config else Err CorruptCorsConfiguration.

(** [(!list.is_empty()).then(|| list.clone())] *)
Definition some_unless_empty {A} (l : list A) : option (list A) :=
  match l with [] => None | _ => Some l end.

Definition dto_rule (rule : CorsRule) : CORSRule :=
  {| dto_allowed_headers := some_unless_empty (cr_allowed_headers rule);
     dto_allowed_methods := cr_allowed_methods rule; dto_allowed_origins := cr_allowed_origins rule;
     dto_expose_headers := some_unless_empty (cr_expose_headers rule);
     dto_id := cr_id rule; dto_max_age_seconds := cr_max_age_seconds rule |}.

Definition to_s3_configuration (config : CorsConfiguration) : CORSConfiguration :=
  if negb (is_ok (canonical_cors_json config)) then {| dto_cors_rules := [] |}
  else {| dto_cors_rules := dto_rule <$> cc_rules config |}.

(** ** [src/cors/matcher.rs] *)

Inductive AllowOrigin : Type := Any | Echo.

Record CorsMatch : Type := { cm_rule : CorsRule; cm_allow_origin : AllowOrigin }.

Definition ascii_case_insensitive_prefix (value prefix : string) : bool :=
  is_some_and (fun candidate => eq_ignore_ascii_case candidate prefix)
    (str_get_to (String.length prefix) value).

Definition ascii_case_insensitive_suffix (value suffix : string) : bool :=
  is_some_and (fun candidate => eq_ignore_ascii_case candidate suffix)
    (str_get_from (String.length value - String.length suffix) value).

Definition pattern_matches (pattern value : string) : bool :=
  match split_once "*" pattern with
  | Some (prefix, suffix) =>
    (String.length prefix + String.length suffix <=? String.length value)%nat
    && starts_with prefix value && ends_with suffix value
  | None => String.eqb pattern value
  end.

Definition header_pattern_matches (pattern header : string) : bool :=
  match split_once "*" pattern with
  | Some (prefix, suffix) =>
    (String.length prefix + String.length suffix <=? String.length header)%nat
    && ascii_case_insensitive_prefix header prefix && ascii_case_insensitive_suffix header suffix
  | None => eq_ignore_ascii_case pattern header
  end.

Fixpoint match_origin (patterns : list string) (origin : string) : option AllowOrigin :=
  match patterns with
  | [] => None
  | pattern :: patterns =>
    if String.eqb pattern "*" then Some Any
    else if pattern_matches pattern origin then Some Echo
    else match_origin patterns origin
  end.

(** The [for] loop of [first_match], from the rule it has reached *)
Fixpoint first_match_from (rules : list CorsRule) (origin method : string) (requested_headers : list string)
  : option CorsMatch :=
  match rules with
  | [] => None
  | rule :: rules =>
    let continue_ := first_match_from rules origin method requested_headers in
    match match_origin (cr_allowed_origins rule) origin with
    | None => continue_
    | Some allow_origin =>
      if negb (existsb (fun allowed => String.eqb allowed method) (cr_allowed_methods rule)) then continue_
      else if negb (forallb (fun name => existsb (fun pattern => header_pattern_matches pattern name)
                                           (cr_allowed_headers rule)) requested_headers) then continue_
      else Some {| cm_rule := rule; cm_allow_origin := allow_origin |}
    end
  end.

Definition first_match (config : CorsConfiguration) (origin method : string) (requested_headers : list string)
  : option CorsMatch :=
  first_match_from (cc_rules config) origin method requested_headers.

End config.

(** ** What a valid document is *)

Section validity.
Context `{CorsLib}.

Definition valid_pattern (p : string) : Prop :=
  p <> EmptyString /\ any_control p = false /\ any_whitespace p = false /\ count_char "*" p <= 1.

Definition valid_rule (r : CorsRule) : Prop :=
  cr_allowed_origins r <> [] /\ cr_allowed_methods r <> []
  /\ (forall id, cr_id r = Some id -> char_count id <= 255)
  /\ (forall age, cr_max_age_seconds r = Some age -> 0 <= age)
  /\ Forall valid_pattern (cr_allowed_origins r)
  /\ Forall (fun m => m ∈ ["GET"; "PUT"; "HEAD"; "POST"; "DELETE"]) (cr_allowed_methods r)
  /\ Forall valid_pattern (cr_allowed_headers r)
  /\ Forall (fun h => is_Some (header_name h)) (cr_expose_headers r).

Definition valid_cors (c : CorsConfiguration) : Prop :=
  1 <= Z.of_nat (length (cc_rules c)) <= 100 /\ Forall valid_rule (cc_rules c).

Lemma validate_cors_pattern_ok p : validate_cors_pattern p = Ok tt <-> valid_pattern p.
Proof.
  unfold validate_cors_pattern, valid_pattern.
  destruct p as [|a p]; [by split; [|intros []]|]. cbn [str_is_empty negb andb].
  destruct (any_control _), (any_whitespace _); cbn [orb negb andb]; try (split; [done|naive_solver]).
  destruct (Z.leb_spec (count_char "*" (String a p)) 1); split; try done; intros (? & ? & ? & ?); lia.
Qed.

Lemma validate_cors_method_ok m :
  validate_cors_method m = Ok tt <-> m ∈ ["GET"; "PUT"; "HEAD"; "POST"; "DELETE"].
Proof. unfold validate_cors_method. case_bool_decide; naive_solver. Qed.

Lemma validate_cors_rule_ok r : validate_cors_rule r = Ok tt <-> valid_rule r.
Proof.
  unfold validate_cors_rule, valid_rule.
  rewrite !bail_ok, !rbind_unit, !try_each_ok, !orb_false_iff, !bool_decide_eq_false.
  setoid_rewrite validate_cors_pattern_ok. setoid_rewrite validate_cors_method_ok.
  setoid_rewrite bail_ok. setoid_rewrite is_none_false.
  assert (is_some_and (fun id => 255 <? char_count id) (cr_id r) = false
          <-> forall id, cr_id r = Some id -> char_count id <= 255) as ->.
  { destruct (cr_id r) as [id|]; simpl; [rewrite Z.ltb_ge|]; naive_solver. }
  assert (is_some_and (fun age => age <? 0) (cr_max_age_seconds r) = false
          <-> forall age, cr_max_age_seconds r = Some age -> 0 <= age) as ->.
  { destruct (cr_max_age_seconds r); simpl; [rewrite Z.ltb_ge|]; naive_solver. }
  assert (Forall (fun h => is_Some (header_name h) /\ @Ok AppError _ tt = Ok tt) (cr_expose_headers r)
          <-> Forall (fun h => is_Some (header_name h)) (cr_expose_headers r)) as ->
    by (apply Forall_iff; naive_solver).
  tauto.
Qed.

Lemma validate_model_ok c u : validate_model c = Ok u <-> valid_cors c.
Proof.
  destruct u. unfold validate_model, valid_cors.
  rewrite bail_ok, negb_false_iff, andb_true_iff, !Z.leb_le, try_each_ok.
  setoid_rewrite validate_cors_rule_ok. tauto.
Qed.

Lemma canonical_json_ok c j :
  canonical_cors_json c = Ok j <->
  valid_cors c /\ cors_to_json c = Some j /\ str_len j <= MAX_CORS_CONFIGURATION_BYTES.
Proof.
  unfold canonical_cors_json. rewrite rbind_ok. setoid_rewrite validate_model_ok. setoid_rewrite rbind_ok.
  setoid_rewrite ok_or_ok. split.
  - intros (_ & ? & j' & ? & E). destruct (Z.leb_spec (str_len j') MAX_CORS_CONFIGURATION_BYTES); naive_solver.
  - intros (? & ? & ?%Z.leb_le). exists tt. split; [done|]. exists j. split; [done|]. by case_match.
Qed.

Lemma from_canonical_json_ok j c :
  from_canonical_cors_json j = Ok c <->
  cors_from_json j = Some c /\ valid_cors c
  /\ exists j', cors_to_json c = Some j' /\ str_len j' <= MAX_CORS_CONFIGURATION_BYTES.
Proof.
  unfold from_canonical_cors_json. rewrite rbind_ok. setoid_rewrite rbind_ok. setoid_rewrite map_err_ok.
  setoid_rewrite validate_model_ok. setoid_rewrite rbind_ok. setoid_rewrite ok_or_ok. split.
  - intros (c' & ? & _ & ? & j' & ? & E).
    destruct (Z.leb_spec (str_len j') MAX_CORS_CONFIGURATION_BYTES); naive_solver.
  - intros (? & ? & j' & ? & ?%Z.leb_le). exists c. split; [done|]. exists tt. split; [done|].
    exists j'. split; [done|]. by case_match.
Qed.

Lemma from_canonical_json_err j e : from_canonical_cors_json j = Err e -> e = CorruptCorsConfiguration.
Proof.
  unfold from_canonical_cors_json. destruct (cors_from_json j) as [c|]; simpl; [|by intros [= <-]].
  destruct (validate_model c); simpl; [|by intros [= <-]].
  destruct (cors_to_json c); simpl; [|by intros [= <-]]. case_match; [done|by intros [= <-]].
Qed.

(** A canonicalised input is the image of a projected one: projection loses nothing. *)
Lemma canonical_dto_rule r : canonical_rule (dto_rule r) = r.
Proof. destruct r as [? ? hs es ? ?]. unfold canonical_rule, dto_rule. simpl. by destruct hs, es. Qed.

Lemma to_s3_configuration_ok c j :
  canonical_cors_json c = Ok j -> to_s3_configuration c = {| dto_cors_rules := dto_rule <$> cc_rules c |}.
Proof. intros Hj. unfold to_s3_configuration. by rewrite Hj. Qed.
End validity.
