(* ===== verification/CorsMatching.v ===== *)
(** * Which rule answers a browser request ([src/cors/matcher.rs])

    The matcher compares lengths, prefixes and suffixes; here it is shown equal to the declarative
    reading of a pattern with at most one wildcard, and the loop over the rules to the choice of the
    first rule that admits the request. *)

From Stdlib Require Import ZArith Lia Ascii.
From Stdlib Require String.
From stdpp Require Import base list strings.
From S2P Require Import Prelude Bytes Errors CorsConfig.

#[local] Open Scope string_scope.
#[local] Open Scope list_scope.
#[local] Open Scope Z_scope.

(** ** Patterns *)

(** The first wildcard of the pattern stands for any text; without one the pattern is literal. *)
Definition wild (pattern value : string) : Prop :=
  (str_contains "*" pattern = false /\ value = pattern)
  \/ exists prefix suffix middle,
       pattern = prefix +:+ String "*" suffix /\ str_contains "*" prefix = false
       /\ value = prefix +:+ middle +:+ suffix.

Lemma str_drop_app (a b : string) : str_drop (String.length a) (a +:+ b) = b.
Proof. induction a; [by destruct b|done]. Qed.

Lemma ends_with_iff p s : ends_with p s = true <-> exists r, s = r +:+ p.
Proof.
  unfold ends_with. rewrite andb_true_iff, Nat.leb_le, String.eqb_eq. split.
  - intros [Hl Hd]. exists (str_take (String.length s - String.length p) s).
    rewrite <- Hd at 2. symmetry. apply str_take_drop.
  - intros [r ->]. rewrite str_length_app. split; [lia|].
    replace (String.length r + String.length p - String.length p)%nat with (String.length r) by lia.
    apply str_drop_app.
Qed.

Lemma str_app_split (a b c d : string) :
  a +:+ b = c +:+ d -> (String.length a <= String.length c)%nat -> exists m, c = a +:+ m.
Proof.
  intros E Hl. apply starts_with_iff. rewrite <- (starts_with_app_long a c d Hl), <- E. apply starts_with_app.
Qed.

(** Prefix and suffix that do not overlap leave a middle. *)
Lemma around_iff prefix suffix value :
  (String.length prefix + String.length suffix <=? String.length value)%nat
    && starts_with prefix value && ends_with suffix value = true
  <-> exists middle, value = prefix +:+ middle +:+ suffix.
Proof.
  rewrite !andb_true_iff, Nat.leb_le, starts_with_iff, ends_with_iff. split.
  - intros [[Hl [r ->]] [r' E]]. rewrite str_length_app in Hl.
    assert (String.length prefix <= String.length r')%nat.
    { apply (f_equal String.length) in E. rewrite !str_length_app in E. lia. }
    destruct (str_app_split _ _ _ _ E) as [m ->]; [done|].
    exists m. by rewrite E, str_app_assoc.
  - intros [m ->]. rewrite !str_length_app. split; [split; [lia|by eexists]|].
    exists (prefix +:+ m). by rewrite str_app_assoc.
Qed.

Lemma pattern_matches_wild pattern value : pattern_matches pattern value = true <-> wild pattern value.
Proof.
  unfold pattern_matches, wild. destruct (split_once "*" pattern) as [[prefix suffix]|] eqn:E.
  - apply split_once_Some in E as [-> Hn]. rewrite around_iff. split.
    + intros [m ->]. right. by exists prefix, suffix, m.
    + intros [[Hc _]|(p & s & m & Heq & Hp & ->)].
      * rewrite str_contains_app in Hc. simpl in Hc. by rewrite orb_true_r in Hc.
      * assert (split_once "*" (prefix +:+ String "*" suffix) = Some (p, s)) as Hs
          by (by rewrite Heq; apply split_once_Some).
        assert (split_once "*" (prefix +:+ String "*" suffix) = Some (prefix, suffix)) as Hs'
          by by apply split_once_Some.
        rewrite Hs in Hs'. injection Hs' as -> ->. by exists m.
  - apply split_once_None in E. rewrite String.eqb_eq. split; [by left|].
    intros [[_ ->]|(p & s & m & -> & Hp & ->)]; [done|].
    rewrite str_contains_app in E. simpl in E. by rewrite orb_true_r in E.
Qed.

(** ** Header names *)

Lemma lower_char_star c : lower_char c = "*"%char <-> c = "*"%char.
Proof. destruct c as [[] [] [] [] [] [] [] []]; vm_compute; split; congruence. Qed.

Lemma ascii_lower_contains_star s : str_contains "*" (ascii_lower s) = str_contains "*" s.
Proof.
  induction s as [|c s IH]; [done|]. simpl.
  destruct (ascii_dec (lower_char c) "*") as [E|E], (ascii_dec c "*") as [E'|E']; try done;
    by rewrite lower_char_star in E.
Qed.

Lemma ascii_lower_split_once s :
  split_once "*" (ascii_lower s) = prod_map ascii_lower ascii_lower <$> split_once "*" s.
Proof.
  destruct (split_once "*" s) as [[l r]|] eqn:E; simpl.
  - apply split_once_Some in E as [-> Hl]. apply split_once_Some.
    rewrite ascii_lower_app, ascii_lower_contains_star. split; [|done]. f_equal.
  - apply split_once_None. apply split_once_None in E. by rewrite ascii_lower_contains_star.
Qed.

Lemma ascii_lower_take n s : ascii_lower (str_take n s) = str_take n (ascii_lower s).
Proof. revert s. induction n as [|n IH]; intros [|c s]; simpl; try done. by rewrite IH. Qed.
Lemma ascii_lower_drop n s : ascii_lower (str_drop n s) = str_drop n (ascii_lower s).
Proof. revert s. induction n as [|n IH]; intros [|c s]; simpl; try done. Qed.

Lemma starts_with_take_eqb p s :
  (String.length p <= String.length s)%nat ->
  starts_with p s = String.eqb (str_take (String.length p) s) p.
Proof.
  intros Hl. apply eq_true_iff_eq. rewrite String.eqb_eq. split; [apply starts_with_take|].
  intros E. apply starts_with_iff. exists (str_drop (String.length p) s).
  pose proof (str_take_drop (String.length p) s) as Hs. by rewrite E in Hs.
Qed.

(** On ASCII names the case-insensitive matcher is the exact one on lower-cased text. *)
Lemma header_pattern_matches_lower pattern header :
  is_ascii header = true ->
  header_pattern_matches pattern header = pattern_matches (ascii_lower pattern) (ascii_lower header).
Proof.
  intros Ha. unfold header_pattern_matches, pattern_matches. rewrite ascii_lower_split_once.
  destruct (split_once "*" pattern) as [[prefix suffix]|]; simpl; [|done].
  rewrite !ascii_lower_length.
  destruct (Nat.leb_spec (String.length prefix + String.length suffix) (String.length header)) as [Hl|]; [|done].
  unfold ascii_case_insensitive_prefix, ascii_case_insensitive_suffix, str_get_to, str_get_from.
  rewrite !is_ascii_boundary by (done || lia). simpl. unfold eq_ignore_ascii_case.
  rewrite starts_with_take_eqb by (rewrite !ascii_lower_length; lia). unfold ends_with.
  rewrite !ascii_lower_length, ascii_lower_take, ascii_lower_drop.
  assert (String.length suffix <= String.length header)%nat as ->%Nat.leb_le by lia. done.
Qed.

Lemma visible_is_ascii s : visible s = true -> is_ascii s = true.
Proof.
  unfold visible, is_ascii. induction s as [|c s IH]; simpl; [done|].
  unfold within. rewrite !andb_true_iff, N.leb_le, N.leb_le, N.ltb_lt. intros [[? ?] ?]. split; [lia|by apply IH].
Qed.

Lemma lower_char_visible c : within 32 126 (N_of_ascii c) = true -> within 32 126 (N_of_ascii (lower_char c)) = true.
Proof. destruct c as [[] [] [] [] [] [] [] []]; vm_compute; congruence. Qed.

Lemma ascii_lower_visible s : visible s = true -> visible (ascii_lower s) = true.
Proof.
  unfold visible. induction s as [|c s IH]; simpl; [done|]. rewrite !andb_true_iff.
  intros [? ?]. split; [by apply lower_char_visible|by apply IH].
Qed.

(** ** The rule that answers *)

(** The rule admits a request from [origin] with [method] and the header names. *)
Definition admits (rule : CorsRule) (origin method : string) (headers : list string) : Prop :=
  Exists (fun pattern => wild pattern origin) (cr_allowed_origins rule)
  /\ method ∈ cr_allowed_methods rule
  /\ Forall (fun header => Exists (fun pattern => wild (ascii_lower pattern) (ascii_lower header))
                             (cr_allowed_headers rule)) headers.

(** What the browser is told about the origin: the first pattern that admits it decides. *)
Definition origin_answer (rule : CorsRule) (origin : string) (answer : AllowOrigin) : Prop :=
  exists before pattern after,
    cr_allowed_origins rule = before ++ pattern :: after
    /\ Forall (fun p => ~ wild p origin) before /\ wild pattern origin
    /\ answer = if String.eqb pattern "*" then Any else Echo.

Lemma wild_star origin : wild "*" origin.
Proof. right. exists EmptyString, EmptyString, origin. split; [done|]. split; [done|]. by rewrite str_app_nil_r. Qed.

Lemma match_origin_Some patterns origin a :
  match_origin patterns origin = Some a <->
  exists before pattern after,
    patterns = before ++ pattern :: after
    /\ Forall (fun p => ~ wild p origin) before /\ wild pattern origin
    /\ a = if String.eqb pattern "*" then Any else Echo.
Proof.
  induction patterns as [|p ps IH]; simpl; [by split; [|intros (? & ? & ? & ?%app_cons_not_nil & _)]|].
  assert (wild p origin -> Some (if String.eqb p "*" then Any else Echo) = Some a <->
    exists before pattern after, p :: ps = before ++ pattern :: after
    /\ Forall (fun p => ~ wild p origin) before /\ wild pattern origin
    /\ a = if String.eqb pattern "*" then Any else Echo) as Hhere.
  { intros Hp. split; [intros [= <-]; by exists [], p, ps|].
    intros ([|q before] & pattern & after & [= -> ->] & Hb & Hw & ->); [done|]. by inversion Hb. }
  destruct (String.eqb_spec p "*") as [->|Hne].
  { apply Hhere, wild_star. }
  destruct (pattern_matches p origin) eqn:Hm; [by apply Hhere, pattern_matches_wild|].
  assert (~ wild p origin) as Hn by (by rewrite <- pattern_matches_wild, Hm).
  rewrite IH. split.
  - intros (before & pattern & after & -> & Hb & Hw & ->). exists (p :: before), pattern, after.
    split; [done|]. by split; [constructor|].
  - intros ([|q before] & pattern & after & [= -> ->] & Hb & Hw & ->); [done|].
    apply Forall_cons in Hb as [_ Hb]. by exists before, pattern, after.
Qed.

Lemma match_origin_None patterns origin :
  match_origin patterns origin = None <-> ~ Exists (fun pattern => wild pattern origin) patterns.
Proof.
  induction patterns as [|p ps IH]; simpl; [rewrite Exists_nil; naive_solver|]. rewrite Exists_cons.
  destruct (String.eqb_spec p "*") as [->|Hne]; [pose proof (wild_star origin); naive_solver|].
  rewrite <- pattern_matches_wild. destruct (pattern_matches p origin); naive_solver.
Qed.

Lemma match_origin_admits patterns origin :
  is_Some (match_origin patterns origin) <-> Exists (fun pattern => wild pattern origin) patterns.
Proof.
  pose proof (match_origin_None patterns origin) as Hn. destruct (match_origin patterns origin) eqn:E.
  - split; [intros _|done]. apply match_origin_Some in E as (b & p & a' & -> & _ & Hw & _).
    apply Exists_app. right. by constructor.
  - split; [by intros []|]. intros He. by destruct (proj1 Hn eq_refl He).
Qed.

Section matching.
Context `{CorsLibLaws}.

(** A parsed header name is lower-case visible ASCII. *)
Lemma header_name_ascii s n : header_name s = Some n -> visible n = true /\ n = ascii_lower s.
Proof.
  intros Hn. pose proof (header_name_lower _ _ Hn) as ->. split; [|done].
  apply ascii_lower_visible. by apply (header_name_visible s (ascii_lower s)).
Qed.

Lemma admits_iff rule origin method headers :
  Forall (fun h => is_ascii h = true) headers ->
  admits rule origin method headers <->
  is_Some (match_origin (cr_allowed_origins rule) origin)
  /\ existsb (fun allowed => String.eqb allowed method) (cr_allowed_methods rule) = true
  /\ forallb (fun name => existsb (fun pattern => header_pattern_matches pattern name)
                            (cr_allowed_headers rule)) headers = true.
Proof.
  intros Ha. unfold admits. rewrite match_origin_admits. rewrite existsb_exists.
  assert (method ∈ cr_allowed_methods rule <->
          exists x, In x (cr_allowed_methods rule) /\ String.eqb x method = true) as ->.
  { setoid_rewrite String.eqb_eq. rewrite list_elem_of_In. naive_solver. }
  assert (forallb (fun name => existsb (fun pattern => header_pattern_matches pattern name)
                            (cr_allowed_headers rule)) headers = true
          <-> Forall (fun header => Exists (fun pattern => wild (ascii_lower pattern) (ascii_lower header))
                             (cr_allowed_headers rule)) headers) as ->; [|done].
  rewrite forallb_forall, Forall_forall. setoid_rewrite list_elem_of_In. setoid_rewrite existsb_exists.
  setoid_rewrite Exists_exists. rewrite Forall_forall in Ha. setoid_rewrite list_elem_of_In in Ha.
  setoid_rewrite list_elem_of_In.
  split; intros Hf h Hh; destruct (Hf h Hh) as (p & Hp & Hm); exists p; (split; [done|]);
    specialize (Ha h Hh); revert Hm; rewrite header_pattern_matches_lower, pattern_matches_wild; done.
Qed.

Lemma first_match_from_step rule rules origin method headers :
  Forall (fun h => is_ascii h = true) headers ->
  (admits rule origin method headers /\ exists a, match_origin (cr_allowed_origins rule) origin = Some a
     /\ first_match_from (rule :: rules) origin method headers
        = Some {| cm_rule := rule; cm_allow_origin := a |})
  \/ (~ admits rule origin method headers
      /\ first_match_from (rule :: rules) origin method headers = first_match_from rules origin method headers).
Proof.
  intros Ha. rewrite (admits_iff rule) by done. cbn [first_match_from].
  destruct (match_origin _ origin) as [a|]; [|right; split; [by intros [[] _]|done]].
  destruct (existsb _ (cr_allowed_methods rule)); cbn [negb]; [|right; naive_solver].
  destruct (forallb _ headers); cbn [negb]; [|right; naive_solver].
  left. split; [|by exists a]. by split; [eexists|].
Qed.

(** The answer of the loop is the first rule that admits the request. *)
Lemma first_match_from_Some rules origin method headers m :
  Forall (fun h => is_ascii h = true) headers ->
  first_match_from rules origin method headers = Some m <->
  exists before after,
    rules = before ++ cm_rule m :: after
    /\ Forall (fun r => ~ admits r origin method headers) before
    /\ admits (cm_rule m) origin method headers
    /\ origin_answer (cm_rule m) origin (cm_allow_origin m).
Proof.
  intros Ha. induction rules as [|rule rules IH].
  { split; [done|]. by intros (? & ? & ?%app_cons_not_nil & _). }
  destruct (first_match_from_step rule rules origin method headers Ha)
    as [(Had & a & Ho & ->)|(Hna & ->)].
  - split.
    + intros [= <-]. exists [], rules. do 2 (split; [done|]). split; [done|]. by apply match_origin_Some.
    + intros ([|r before] & after & [= -> ->] & Hb & _ & Hans); [|by inversion Hb].
      apply match_origin_Some in Hans. rewrite Ho in Hans. injection Hans as ->. by destruct m.
  - rewrite IH. split.
    + intros (before & after & -> & Hb & ? & ?). exists (rule :: before), after.
      split; [done|]. by split; [constructor|].
    + intros ([|r before] & after & [= -> ->] & Hb & Hm & Hans); [done|].
      apply Forall_cons in Hb as [_ Hb]. by exists before, after.
Qed.

Lemma first_match_from_None rules origin method headers :
  Forall (fun h => is_ascii h = true) headers ->
  first_match_from rules origin method headers = None <->
  Forall (fun r => ~ admits r origin method headers) rules.
Proof.
  intros Ha. induction rules as [|rule rules IH]; [done|]. rewrite Forall_cons, <- IH.
  destruct (first_match_from_step rule rules origin method headers Ha)
    as [(Had & a & Ho & ->)|(Hna & ->)]; naive_solver.
Qed.

(** The matcher, which cuts patterns at their wildcard and compares lengths, prefixes and
    suffixes, picks exactly the first rule that admits the request: some origin pattern and, for
    every requested header, some header pattern reads as the text with its wildcard replaced, header
    names up to case.  The origin is answered with a star only when the first origin pattern that
    admits it is the star. *)
Theorem first_match_spec (config : CorsConfiguration) (origin method : string) (raw headers : list string)
    (Hraw : Forall2 (fun r h => header_name r = Some h) raw headers) :
  match first_match config origin method headers with
  | Some m =>
    exists before after,
      cc_rules config = before ++ cm_rule m :: after
      /\ Forall (fun r => ~ admits r origin method headers) before
      /\ admits (cm_rule m) origin method headers
      /\ origin_answer (cm_rule m) origin (cm_allow_origin m)
  | None => Forall (fun r => ~ admits r origin method headers) (cc_rules config)
  end.
Proof.
  assert (Forall (fun h => is_ascii h = true) headers) as Ha.
  { induction Hraw as [|r h raw headers Hn _ IH]; constructor; [|done].
    by apply visible_is_ascii, (header_name_ascii r). }
  unfold first_match. destruct (first_match_from _ _ _ _) as [m|] eqn:E.
  - by apply first_match_from_Some.
  - by apply first_match_from_None.
Qed.
End matching.
