(* ===== verification/Crc64.v ===== *)
(** * CRC-64/NVME ([src/cors/checksum.rs])

    The bitwise checksum of a request body on 64-bit words, and the errors it is sure to detect.
    Bytes are the characters of a string. *)

From Stdlib Require Import ZArith Lia Ascii.
From Stdlib Require String.
From stdpp Require Import base list strings.
From S2P Require Import Prelude Bytes.

#[local] Open Scope Z_scope.

Definition REFLECTED_POLYNOMIAL : Z := 0x9a6c9329ac4bc9b5.

(** The innermost loop body *)
Definition crc_bit (checksum : Z) : Z :=
  if Z.land checksum 1 =? 1 then Z.lxor (Z.shiftr checksum 1) REFLECTED_POLYNOMIAL
  else Z.shiftr checksum 1.

Definition byte_value (c : ascii) : Z := Z.of_N (N_of_ascii c).

Fixpoint crc_bytes (checksum : Z) (bytes : string) : Z :=
  match bytes with
  | EmptyString => checksum
  | String byte bytes => crc_bytes (Nat.iter 8 crc_bit (Z.lxor checksum (byte_value byte))) bytes
  end.

(** The [n] bytes of [to_be_bytes], before the bytes [rest] *)
Fixpoint to_be_bytes (n : nat) (v : Z) (rest : string) : string :=
  match n with
  | O => rest
  | S n => to_be_bytes n (v / 256) (String (ascii_of_N (Z.to_N (v mod 256))) rest)
  end.

Definition crc64nvme (bytes : string) : string :=
  to_be_bytes 8 (Z.lxor u64_max (crc_bytes u64_max bytes)) EmptyString.

(** The digest published for the check string of the algorithm *)
Lemma crc64nvme_check :
  map byte_value (String.list_ascii_of_string (crc64nvme "123456789"))
  = [0xae; 0x8b; 0x14; 0x86; 0x0a; 0x79; 0x98; 0x88].
Proof. vm_compute. done. Qed.

(** ** One bit *)

Definition word (v : Z) : Prop := 0 <= v < 2 ^ 64.

Lemma lxor_bound n a b : 0 <= n -> 0 <= a < 2 ^ n -> 0 <= b < 2 ^ n -> 0 <= Z.lxor a b < 2 ^ n.
Proof.
  intros Hn Ha Hb. assert (0 <= Z.lxor a b) by (apply Z.lxor_nonneg; lia). split; [done|].
  destruct (Z.eq_dec (Z.lxor a b) 0) as [->|Hne]; [lia|]. apply Z.log2_lt_pow2; [lia|].
  pose proof (Z.log2_lxor a b ltac:(lia) ltac:(lia)). 
  destruct (Z.eq_dec n 0) as [->|]; [assert (a = 0) by lia; assert (b = 0) by lia; by subst|].
  assert (Z.log2 a < n) by (destruct (Z.eq_dec a 0) as [->|]; [simpl; lia|apply Z.log2_lt_pow2; lia]).
  assert (Z.log2 b < n) by (destruct (Z.eq_dec b 0) as [->|]; [simpl; lia|apply Z.log2_lt_pow2; lia]).
  lia.
Qed.

Lemma land_1_odd c : (Z.land c 1 =? 1) = Z.odd c.
Proof. change 1 with (Z.ones 1) at 1. rewrite Z.land_ones, Zmod_odd by lia. by destruct (Z.odd c). Qed.

Lemma crc_bit_alt c : crc_bit c = Z.lxor (Z.shiftr c 1) (if Z.odd c then REFLECTED_POLYNOMIAL else 0).
Proof. unfold crc_bit. rewrite land_1_odd. destruct (Z.odd c); [done|]. by rewrite Z.lxor_0_r. Qed.

Lemma crc_bit_lxor a b : crc_bit (Z.lxor a b) = Z.lxor (crc_bit a) (crc_bit b).
Proof.
  rewrite !crc_bit_alt, Z.shiftr_lxor, <- !Z.bit0_odd, Z.lxor_spec.
  apply Z.bits_inj'. intros n _. rewrite !Z.lxor_spec.
  destruct (Z.testbit a 0), (Z.testbit b 0); simpl; rewrite ?Z.bits_0;
    destruct (Z.testbit _ n), (Z.testbit _ n); simpl; try done; by destruct (Z.testbit _ n).
Qed.

Lemma crc_bit_word c : word c -> word (crc_bit c).
Proof.
  intros Hc. rewrite crc_bit_alt. apply lxor_bound; [lia| |by destruct (Z.odd c)].
  rewrite Z.shiftr_div_pow2 by lia. split; [apply Z.div_pos; unfold word in *; lia|].
  apply Z.div_lt_upper_bound; unfold word in *; lia.
Qed.

Lemma crc_bit_zero c : word c -> crc_bit c = 0 -> c = 0.
Proof.
  intros Hc. rewrite crc_bit_alt. intros E%Z.lxor_eq.
  rewrite Z.shiftr_div_pow2 in E by lia. change (2 ^ 1) with 2 in E.
  pose proof (Z.div_mod c 2). pose proof (Zmod_odd c) as Ho.
  unfold word, REFLECTED_POLYNOMIAL in *. destruct (Z.odd c); lia.
Qed.

Lemma crc_bit_shift v n : 0 <= n -> crc_bit (Z.shiftl v (n + 1)) = Z.shiftl v n.
Proof.
  intros Hn. rewrite crc_bit_alt, <- Z.bit0_odd, Z.shiftl_spec_low by lia.
  rewrite Z.lxor_0_r, Z.shiftr_shiftl_l by lia. f_equal. lia.
Qed.

(** ** Many bits *)

Lemma iter_lxor k a b : Nat.iter k crc_bit (Z.lxor a b) = Z.lxor (Nat.iter k crc_bit a) (Nat.iter k crc_bit b).
Proof. induction k as [|k IH]; [done|]. rewrite !Nat.iter_succ, IH. apply crc_bit_lxor. Qed.

Lemma iter_word k c : word c -> word (Nat.iter k crc_bit c).
Proof. intros Hc. induction k; [done|]. by apply crc_bit_word. Qed.

Lemma iter_zero k c : word c -> Nat.iter k crc_bit c = 0 -> c = 0.
Proof. intros Hc. induction k as [|k IH]; [done|]. rewrite Nat.iter_succ. intros E%crc_bit_zero; [by apply IH|by apply iter_word]. Qed.

Lemma iter_inj k a b : word a -> word b -> Nat.iter k crc_bit a = Nat.iter k crc_bit b -> a = b.
Proof.
  intros Ha Hb E. apply Z.lxor_eq, (iter_zero k); [by apply lxor_bound|].
  rewrite iter_lxor, E. apply Z.lxor_nilpotent.
Qed.

Lemma iter_shift k v : Nat.iter k crc_bit (Z.shiftl v (Z.of_nat k)) = v.
Proof.
  induction k as [|k IH]; [by rewrite Z.shiftl_0_r|]. rewrite Nat.iter_succ_r.
  replace (Z.of_nat (S k)) with (Z.of_nat k + 1) by lia. by rewrite crc_bit_shift by lia.
Qed.

(** ** Bytes *)

Lemma byte_value_range c : 0 <= byte_value c < 2 ^ 8.
Proof. unfold byte_value. pose proof (N_ascii_bounded c). lia. Qed.

Lemma byte_value_inj c d : byte_value c = byte_value d -> c = d.
Proof. unfold byte_value. intros E%N2Z.inj. rewrite <- (ascii_N_embedding c), E. apply ascii_N_embedding. Qed.

(** The little-endian number a string of bytes writes *)
Fixpoint le_value (s : string) : Z :=
  match s with
  | EmptyString => 0
  | String c s => byte_value c + 2 ^ 8 * le_value s
  end.

Lemma le_value_range s : 0 <= le_value s < 2 ^ (8 * str_len s).
Proof.
  induction s as [|c s IH]; [done|]. cbn [le_value]. pose proof (byte_value_range c).
  replace (8 * str_len (String c s)) with (8 + 8 * str_len s)
    by (unfold str_len; cbn [String.length]; lia).
  pose proof (str_len_nonneg s). rewrite Z.pow_add_r by lia. nia.
Qed.

Lemma le_value_inj s t : String.length s = String.length t -> le_value s = le_value t -> s = t.
Proof.
  revert t. induction s as [|c s IH]; intros [|d t]; try done. cbn [le_value String.length].
  intros Hl E. pose proof (byte_value_range c). pose proof (byte_value_range d).
  f_equal; [apply byte_value_inj; lia|apply IH; lia].
Qed.

Lemma le_value_lxor c s : le_value (String c s) = Z.lxor (byte_value c) (Z.shiftl (le_value s) 8).
Proof.
  cbn [le_value]. pose proof (byte_value_range c). rewrite Z.shiftl_mul_pow2 by lia.
  rewrite Z.mul_comm, <- Z.add_nocarry_lxor; [done|].
  apply Z.bits_inj'. intros n Hn. rewrite Z.land_spec, Z.bits_0.
  destruct (Z.lt_ge_cases n 8).
  - rewrite Z.mul_pow2_bits_low by lia. apply andb_false_r.
  - rewrite <- (Z.mod_small (byte_value c) (2 ^ 8)), Z.mod_pow2_bits_high by lia. done.
Qed.

(** Feeding bytes one at a time equals feeding all their bits at once. *)
Lemma crc_bytes_at_once c s :
  crc_bytes c s = Nat.iter (8 * String.length s) crc_bit (Z.lxor c (le_value s)).
Proof.
  revert c. induction s as [|b s IH]; intros c; [by rewrite Z.lxor_0_r|].
  cbn [crc_bytes]. rewrite IH, le_value_lxor. 
  rewrite <- (iter_shift 8 (le_value s)) at 1. rewrite <- iter_lxor, <- Nat.iter_add.
  change (Z.of_nat 8) with 8. rewrite Z.lxor_assoc. f_equal. cbn [String.length]. lia.
Qed.

Lemma crc_bytes_app c s t : crc_bytes c (s +:+ t) = crc_bytes (crc_bytes c s) t.
Proof. revert c. induction s as [|b s IH]; intros c; [done|]. cbn [String.append crc_bytes]. apply IH. Qed.

Lemma byte_word c : word (byte_value c).
Proof. pose proof (byte_value_range c). unfold word. lia. Qed.

Lemma crc_bytes_word c s : word c -> word (crc_bytes c s).
Proof.
  revert c. induction s as [|b s IH]; intros c Hc; [done|]. cbn [crc_bytes].
  apply IH, iter_word, lxor_bound; [lia|done|apply byte_word].
Qed.

Lemma lxor_inj a b c : Z.lxor a b = Z.lxor a c -> b = c.
Proof.
  intros E. apply (f_equal (Z.lxor a)) in E. by rewrite <- !Z.lxor_assoc, Z.lxor_nilpotent, !Z.lxor_0_l in E.
Qed.

Lemma crc_bytes_inj a b s : word a -> word b -> crc_bytes a s = crc_bytes b s -> a = b.
Proof.
  revert a b. induction s as [|x s IH]; intros a b Ha Hb; [done|]. cbn [crc_bytes]. intros E.
  assert (forall v, word v -> word (Z.lxor v (byte_value x))) as Hw
    by (intros v Hv; apply lxor_bound; [lia|done|apply byte_word]).
  apply IH in E; [|apply iter_word, Hw; done..]. apply iter_inj in E; [|apply Hw; done..].
  rewrite !(Z.lxor_comm _ (byte_value x)) in E. by apply lxor_inj in E.
Qed.

Lemma to_be_bytes_inj n v w r r' :
  0 <= v < 256 ^ Z.of_nat n -> 0 <= w < 256 ^ Z.of_nat n ->
  to_be_bytes n v r = to_be_bytes n w r' -> v = w /\ r = r'.
Proof.
  revert v w r r'. induction n as [|n IH]; intros v w r r' Hv Hw E; [simpl in *; split; [lia|done]|].
  rewrite Nat2Z.inj_succ, Z.pow_succ_r in Hv, Hw by lia.
  apply IH in E; [| |]; [|split; [apply Z.div_pos; lia|apply Z.div_lt_upper_bound; lia]..].
  destruct E as [E [= Ea ->]]. apply (f_equal N_of_ascii) in Ea.
  rewrite !N_ascii_embedding in Ea by (pose proof (Z.mod_pos_bound v 256); pose proof (Z.mod_pos_bound w 256); lia).
  pose proof (Z.div_mod v 256). pose proof (Z.div_mod w 256).
  pose proof (Z.mod_pos_bound v 256). pose proof (Z.mod_pos_bound w 256). split; [lia|done].
Qed.

(** Two byte strings that differ only inside a window of at most eight bytes have different checksums,
    whatever surrounds the window: every burst of changed bits that fits eight bytes is detected. *)
Lemma crc64nvme_detects_burst (before x y after : string)
    (Hlen : String.length x = String.length y) (Hwin : (String.length x <= 8)%nat) (Hne : x <> y) :
  crc64nvme (before +:+ x +:+ after) <> crc64nvme (before +:+ y +:+ after).
Proof.
  assert (word u64_max) as Hm by done. unfold crc64nvme. intros E.
  apply to_be_bytes_inj in E as [E _];
    [|apply (lxor_bound 64); [lia|done|by apply crc_bytes_word]..].
  apply lxor_inj in E. rewrite !crc_bytes_app in E.
  apply crc_bytes_inj in E; [|by do 2 apply crc_bytes_word..].
  pose proof (crc_bytes_word u64_max before Hm) as Hc. generalize dependent (crc_bytes u64_max before). intros c E Hc.
  rewrite !crc_bytes_at_once, <- Hlen in E.
  assert (forall s, (String.length s <= 8)%nat -> word (le_value s)) as Hle.
  { intros s Hs. pose proof (le_value_range s). assert (2 ^ (8 * str_len s) <= 2 ^ 64).
    { apply Z.pow_le_mono_r; unfold str_len; lia. } unfold word. lia. }
  apply iter_inj in E; [|apply lxor_bound; [lia|done|apply Hle; lia]..].
  apply lxor_inj, le_value_inj in E; done.
Qed.

Lemma to_be_bytes_length n v rest : String.length (to_be_bytes n v rest) = (n + String.length rest)%nat.
Proof. revert v rest. induction n as [|n IH]; intros v rest; simpl; [done|]. rewrite IH. simpl. lia. Qed.

Lemma crc64nvme_length bytes : str_len (crc64nvme bytes) = 8.
Proof. unfold str_len, crc64nvme. by rewrite to_be_bytes_length. Qed.
