(* ===== verification/CorsStore.v ===== *)
(** * Stored CORS configurations ([src/store/cors_config.rs], [src/s3/ops/cors.rs])

    The table of CORS documents beside the owners of the buckets, the transactions on it and the
    three S3 handlers.  A handler checks the bucket first on what it reads outside its transaction;
    that earlier reading is an argument, as other transactions may commit in between. *)

From Stdlib Require Import ZArith Lia Ascii.
From Stdlib Require String.
From stdpp Require Import base list strings gmap.
From S2P Require Import Prelude Bytes Errors Database Transaction CorsConfig Crc64.

#[local] Open Scope string_scope.
#[local] Open Scope list_scope.
#[local] Open Scope Z_scope.
#[local] Open Scope rust_scope.

(** ** Tables *)

Record BucketCorsConfig : Type := {
  bc_canonical_json : string; bc_created_at : Z; bc_updated_at : Z }.

(** The [owner] column of [buckets], and [bucket_cors_configs], both by bucket name *)
Record CorsDb : Type := {
  cd_owners : gmap string (option string);
  cd_configs : gmap string BucketCorsConfig }.

Definition set_configs f (db : CorsDb) : CorsDb :=
  {| cd_owners := cd_owners db; cd_configs := f (cd_configs db) |}.

(** The foreign key of [bucket_cors_configs] *)
Definition cors_constraints (db : CorsDb) : Prop :=
  map_Forall (fun bucket _ => is_Some (cd_owners db !! bucket)) (cd_configs db).
#[export] Instance cors_constraints_dec db : Decision (cors_constraints db).
Proof. unfold cors_constraints. apply _. Defined.

Abbreviation CTx := (Txn CorsDb).
Abbreviation c_exec := (t_exec cors_constraints).

(** [buckets] rows come and go; a deleted bucket takes its document with it ([ON DELETE CASCADE]). *)
Definition add_bucket_row (name : string) (owner : option string) (db : CorsDb) : CorsDb :=
  {| cd_owners := <[name := owner]> (cd_owners db); cd_configs := cd_configs db |}.
Definition remove_bucket_row (name : string) (db : CorsDb) : CorsDb :=
  {| cd_owners := delete name (cd_owners db); cd_configs := delete name (cd_configs db) |}.

(** ** [src/store/cors_config.rs] *)

Definition verify_expected_owner (bucket_owner expected_owner : option string) : AppResult unit :=
  match expected_owner with
  | None => Ok tt
  | Some value =>
    if bool_decide (bucket_owner = Some value) then Ok tt
    else Err (AccessDenied "expected bucket owner mismatch")
  end.

Definition get_optional_configuration (bucket_name : string) (db : CorsDb) : AppResult (option string) :=
  Ok (bc_canonical_json <$> cd_configs db !! bucket_name).

(** The [LEFT JOIN] of one bucket row with its document *)
Definition get_optional_configuration_for_owner (bucket_name : string) (expected_owner : option string)
    (db : CorsDb) : AppResult (option string) :=
  let? owner := ok_or (NoSuchBucket bucket_name) (cd_owners db !! bucket_name) in
  let? _ := verify_expected_owner owner expected_owner in
  Ok (bc_canonical_json <$> cd_configs db !! bucket_name).

Definition lock_bucket_and_verify_owner (bucket_name : string) (expected_owner : option string) : CTx unit :=
  let* row := t_reads (fun db => cd_owners db !! bucket_name) in
  let* owner := t_some (NoSuchBucket bucket_name) row in
  t_lift (verify_expected_owner owner expected_owner).

Definition put_configuration_for_owner (now : Z) (bucket_name canonical_json : string)
    (expected_owner : option string) : CTx unit :=
  let* _ := lock_bucket_and_verify_owner bucket_name expected_owner in
  let* previous := t_reads (fun db => cd_configs db !! bucket_name) in
  let created_at := match previous with Some configuration => bc_created_at configuration | None => now end in
  c_exec (set_configs <[bucket_name := {| bc_canonical_json := canonical_json;
            bc_created_at := created_at; bc_updated_at := now |}]>).

Definition put_configuration (now : Z) (bucket_name canonical_json : string) : CTx unit :=
  put_configuration_for_owner now bucket_name canonical_json None.

Definition delete_configuration_for_owner (bucket_name : string) (expected_owner : option string) : CTx unit :=
  let* _ := lock_bucket_and_verify_owner bucket_name expected_owner in
  c_exec (set_configs (delete bucket_name)).

Definition delete_configuration (bucket_name : string) : CTx unit :=
  delete_configuration_for_owner bucket_name None.

(** ** [src/cors/mod.rs] *)

Inductive SdkChecksumAlgorithmHeader : Type := SdkAbsent | SdkSingle | SdkInvalid.

Inductive Crc64NvmeHeader : Type := CrcAbsent | CrcInvalid | CrcValue (bytes : string).

Record CorsPutBodyMetadata : Type := {
  pb_len : Z;
  pb_computed_md5 : string;
  pb_computed_crc64nvme : string;
  pb_sdk_checksum_algorithm : SdkChecksumAlgorithmHeader;
  pb_supplied_crc64nvme : Crc64NvmeHeader
}.

(** The standard alphabet of the [base64] crate and [md5::compute] *)
Class DigestLib := {
  base64_decode : string -> option string;
  md5_compute : string -> string
}.

(** ** [src/s3/ops/cors.rs] *)

Record PutBucketCorsInput : Type := {
  pi_bucket : string;
  pi_expected_bucket_owner : option string;
  pi_content_md5 : option string;
  pi_checksum_algorithm : option string;
  pi_cors_configuration : CORSConfiguration
}.

(** [bytes.try_into()] to an array of [n] bytes *)
Definition to_array (n : Z) (bytes : string) : option string :=
  if str_len bytes =? n then Some bytes else None.

Section handlers.
Context `{CorsLib} `{DigestLib}.

Definition get_bucket_cors (bucket : string) (expected_bucket_owner : option string) (db : CorsDb)
  : AppResult (list CORSRule) :=
  let? found := get_optional_configuration_for_owner bucket expected_bucket_owner db in
  let? json := ok_or NoSuchCorsConfiguration found in
  let? configuration := from_canonical_cors_json json in
  Ok (dto_cors_rules (to_s3_configuration configuration)).

Definition load_bucket_and_verify_owner (bucket_name : string) (expected_owner : option string) (db : CorsDb)
  : AppResult unit :=
  let? owner := ok_or (NoSuchBucket bucket_name) (cd_owners db !! bucket_name) in
  verify_expected_owner owner expected_owner.

(** The CRC of the body, when an algorithm is named *)
Definition check_crc64nvme (algorithm : option string) (metadata : CorsPutBodyMetadata) : AppResult unit :=
  match algorithm with
  | None => Ok tt
  | Some algorithm =>
    bail_if negb (String.eqb algorithm "CRC64NVME") with InvalidCorsConfiguration else
    match pb_supplied_crc64nvme metadata with
    | CrcAbsent => Err InvalidCorsConfiguration
    | CrcInvalid => Err InvalidCorsDigest
    | CrcValue supplied =>
      bail_if negb (String.eqb supplied (pb_computed_crc64nvme metadata)) with BadCorsDigest else Ok tt
    end
  end.

(** The MD5 of the body, when one is given *)
Definition check_content_md5 (content_md5 : option string) (metadata : CorsPutBodyMetadata) : AppResult unit :=
  match content_md5 with
  | None => Ok tt
  | Some encoded =>
    let? decoded := ok_or InvalidCorsDigest (base64_decode encoded) in
    let? supplied := ok_or InvalidCorsDigest (to_array 16 decoded) in
    bail_if negb (String.eqb supplied (pb_computed_md5 metadata)) with BadCorsDigest else Ok tt
  end.

(** [put_bucket_cors] up to its transaction: the document to store, from an earlier reading [seen]
    of the bucket *)
Definition put_bucket_cors_document (seen : CorsDb) (input : PutBucketCorsInput)
    (extension : option CorsPutBodyMetadata) : AppResult string :=
  let? _ := load_bucket_and_verify_owner (pi_bucket input) (pi_expected_bucket_owner input) seen in
  let? metadata := ok_or InvalidCorsConfiguration extension in
  bail_if MAX_CORS_CONFIGURATION_BYTES <? pb_len metadata with InvalidCorsConfiguration else
  bail_if match pb_sdk_checksum_algorithm metadata with SdkInvalid => true | _ => false end
  with InvalidCorsConfiguration else
  bail_if is_none (pi_content_md5 input) && is_none (pi_checksum_algorithm input)
  with InvalidCorsConfiguration else
  bail_if is_none (pi_checksum_algorithm input)
          && negb match pb_supplied_crc64nvme metadata with CrcAbsent => true | _ => false end
  with InvalidCorsConfiguration else
  let? _ := check_crc64nvme (pi_checksum_algorithm input) metadata in
  let? _ := check_content_md5 (pi_content_md5 input) metadata in
  let? configuration := validate_and_canonicalize_cors (pi_cors_configuration input) in
  canonical_cors_json configuration.

Definition put_bucket_cors (now : Z) (seen : CorsDb) (input : PutBucketCorsInput)
    (extension : option CorsPutBodyMetadata) : CTx unit :=
  let* json := t_lift (put_bucket_cors_document seen input extension) in
  put_configuration_for_owner now (pi_bucket input) json (pi_expected_bucket_owner input).

Definition delete_bucket_cors (bucket : string) (expected_bucket_owner : option string) : CTx unit :=
  delete_configuration_for_owner bucket expected_bucket_owner.

End handlers.

(** ** What the handlers do *)

Definition owner_accepts (bucket : string) (expected : option string) (db : CorsDb) : Prop :=
  exists owner, cd_owners db !! bucket = Some owner /\ (expected = None \/ owner = expected).

Lemma verify_expected_owner_ok owner expected u :
  verify_expected_owner owner expected = Ok u <-> expected = None \/ owner = expected.
Proof.
  destruct u, expected as [e|]; simpl; [case_bool_decide|]; naive_solver.
Qed.

Lemma lock_bucket_and_verify_owner_ok b o db u db' :
  lock_bucket_and_verify_owner b o db = Ok (u, db') <-> owner_accepts b o db /\ db' = db.
Proof.
  unfold lock_bucket_and_verify_owner, owner_accepts. rewrite t_bind_ok. setoid_rewrite t_bind_ok.
  setoid_rewrite t_reads_ok. setoid_rewrite t_some_ok. setoid_rewrite t_lift_ok.
  setoid_rewrite verify_expected_owner_ok. naive_solver.
Qed.

(** The database after a document was stored *)
Definition stored (now : Z) (bucket json : string) (db : CorsDb) : CorsDb :=
  set_configs <[bucket := {| bc_canonical_json := json;
    bc_created_at := from_option bc_created_at now (cd_configs db !! bucket); bc_updated_at := now |}]> db.

Lemma put_configuration_ok now b json o db u db' :
  cors_constraints db ->
  put_configuration_for_owner now b json o db = Ok (u, db') <-> owner_accepts b o db /\ db' = stored now b json db.
Proof.
  intros Hc. unfold put_configuration_for_owner. rewrite t_bind_ok.
  setoid_rewrite lock_bucket_and_verify_owner_ok. setoid_rewrite t_bind_ok. setoid_rewrite t_reads_ok.
  setoid_rewrite t_exec_ok. split.
  - intros (_ & ? & [? ->] & ? & ? & [-> ->] & -> & _). by split.
  - intros [Ho ->]. exists tt, db. split; [done|]. do 2 eexists. split; [done|]. split; [done|].
    unfold cors_constraints in *. simpl. apply map_Forall_insert_2; [|done].
    destruct Ho as (owner & -> & _). by eexists.
Qed.

Lemma delete_configuration_ok b o db u db' :
  cors_constraints db ->
  delete_configuration_for_owner b o db = Ok (u, db')
  <-> owner_accepts b o db /\ db' = set_configs (delete b) db.
Proof.
  intros Hc. unfold delete_configuration_for_owner. rewrite t_bind_ok.
  setoid_rewrite lock_bucket_and_verify_owner_ok. setoid_rewrite t_exec_ok. split.
  - intros (_ & ? & [? ->] & -> & _). by split.
  - intros [Ho ->]. exists tt, db. split; [done|]. split; [done|].
    unfold cors_constraints in *. simpl. by apply map_Forall_delete.
Qed.

Section laws.
Context `{CorsLibLaws} `{DigestLib}.

(** The body carries at least one digest, and every digest it carries is right. *)
Definition digests_verified (input : PutBucketCorsInput) (m : CorsPutBodyMetadata) : Prop :=
  (is_Some (pi_content_md5 input) \/ is_Some (pi_checksum_algorithm input))
  /\ (forall encoded, pi_content_md5 input = Some encoded ->
        base64_decode encoded = Some (pb_computed_md5 m) /\ str_len (pb_computed_md5 m) = 16)
  /\ match pi_checksum_algorithm input with
     | Some algorithm => algorithm = "CRC64NVME" /\ pb_supplied_crc64nvme m = CrcValue (pb_computed_crc64nvme m)
     | None => pb_supplied_crc64nvme m = CrcAbsent
     end.

Lemma check_crc64nvme_ok algorithm m u :
  check_crc64nvme algorithm m = Ok u <->
  match algorithm with
  | Some algorithm => algorithm = "CRC64NVME" /\ pb_supplied_crc64nvme m = CrcValue (pb_computed_crc64nvme m)
  | None => True
  end.
Proof.
  destruct u, algorithm as [algorithm|]; simpl; [|done].
  rewrite bail_ok, negb_false_iff, String.eqb_eq.
  destruct (pb_supplied_crc64nvme m) as [| |supplied]; [split; by intros [? ?]..|].
  rewrite bail_ok, negb_false_iff, String.eqb_eq. naive_solver.
Qed.

Lemma check_content_md5_ok content_md5 m u :
  check_content_md5 content_md5 m = Ok u <->
  forall encoded, content_md5 = Some encoded ->
    base64_decode encoded = Some (pb_computed_md5 m) /\ str_len (pb_computed_md5 m) = 16.
Proof.
  destruct u, content_md5 as [encoded|]; simpl; [|by split].
  destruct (base64_decode encoded) as [decoded|] eqn:Ed; simpl.
  2:{ split; [done|]. intros Hd. by destruct (Hd encoded eq_refl); simplify_eq. }
  unfold to_array. destruct (Z.eqb_spec (str_len decoded) 16); simpl.
  2:{ split; [done|]. intros Hd. by destruct (Hd encoded eq_refl); simplify_eq. }
  rewrite bail_ok, negb_false_iff, String.eqb_eq. split; [|naive_solver].
  intros [-> _] ? [= <-]. by rewrite Ed.
Qed.

(** The document a valid request stores *)
Definition submitted (input : PutBucketCorsInput) : CorsConfiguration :=
  {| cc_rules := canonical_rule <$> dto_cors_rules (pi_cors_configuration input) |}.

Lemma canonical_document_ok input json :
  (let? configuration := validate_and_canonicalize_cors (pi_cors_configuration input) in
   canonical_cors_json configuration) = Ok json <-> canonical_cors_json (submitted input) = Ok json.
Proof.
  unfold validate_and_canonicalize_cors. fold (submitted input). rewrite rbind_ok. split.
  - by intros (c & (_ & _ & [= <-])%rbind_ok & Hj).
  - intros Hj. exists (submitted input). split; [|done]. apply rbind_unit. split; [|done].
    apply validate_model_ok. by apply canonical_json_ok in Hj as [? _].
Qed.

Lemma put_bucket_cors_document_ok seen input extension json :
  put_bucket_cors_document seen input extension = Ok json <->
  owner_accepts (pi_bucket input) (pi_expected_bucket_owner input) seen
  /\ exists m, extension = Some m /\ pb_len m <= MAX_CORS_CONFIGURATION_BYTES
     /\ pb_sdk_checksum_algorithm m <> SdkInvalid /\ digests_verified input m
     /\ canonical_cors_json (submitted input) = Ok json.
Proof.
  unfold put_bucket_cors_document, load_bucket_and_verify_owner, digests_verified, owner_accepts.
  rewrite rbind_unit, !rbind_ok. setoid_rewrite ok_or_ok. setoid_rewrite verify_expected_owner_ok.
  apply and_iff_compat_l. apply exist_proper. intros m. apply and_iff_compat_l.
  rewrite !bail_ok, !rbind_unit, canonical_document_ok, check_crc64nvme_ok, check_content_md5_ok, Z.ltb_ge.
  apply and_iff_compat_l.
  destruct (pb_sdk_checksum_algorithm m), (pi_content_md5 input), (pi_checksum_algorithm input),
    (pb_supplied_crc64nvme m); simpl; naive_solver.
Qed.

(** A [PutBucketCors] succeeds exactly when the bucket exists and belongs to the expected owner, both
    at the first check and in the transaction, the body fits 64 KiB and came with at least one digest,
    every digest supplied is that of the body, the checksum headers are unambiguous, and the document
    has a canonical form; it then replaces the bucket's document, keeping its creation time, and
    changes nothing else. *)
Theorem put_bucket_cors_spec (now : Z) (seen db db' : CorsDb) (input : PutBucketCorsInput)
    (extension : option CorsPutBodyMetadata) (Hdb : cors_constraints db) :
  put_bucket_cors now seen input extension db = Ok (tt, db') <->
  owner_accepts (pi_bucket input) (pi_expected_bucket_owner input) seen
  /\ owner_accepts (pi_bucket input) (pi_expected_bucket_owner input) db
  /\ exists m json,
       extension = Some m /\ pb_len m <= MAX_CORS_CONFIGURATION_BYTES
       /\ pb_sdk_checksum_algorithm m <> SdkInvalid /\ digests_verified input m
       /\ canonical_cors_json (submitted input) = Ok json
       /\ db' = stored now (pi_bucket input) json db.
Proof.
  unfold put_bucket_cors. rewrite t_bind_ok. setoid_rewrite t_lift_ok.
  setoid_rewrite put_bucket_cors_document_ok. split.
  - intros (json & ? & [(? & m & ?) ->] & [? ->]%put_configuration_ok); [|done].
    do 2 (split; [done|]). exists m, json. naive_solver.
  - intros (? & ? & m & json & ? & ? & ? & ? & ? & ->). exists json, db. split; [naive_solver|].
    by apply put_configuration_ok.
Qed.
(** ** Histories *)

(** One step of the service: a bucket appears or goes, or a handler commits.  The first check of
    [put_bucket_cors] may have read any earlier database. *)
Inductive cors_step (db : CorsDb) : CorsDb -> Prop :=
| step_create_bucket name owner :
  cd_owners db !! name = None -> cors_step db (add_bucket_row name owner db)
| step_delete_bucket name :
  is_Some (cd_owners db !! name) -> cors_step db (remove_bucket_row name db)
| step_put_bucket_cors now seen input extension db' :
  put_bucket_cors now seen input extension db = Ok (tt, db') -> cors_step db db'
| step_delete_bucket_cors bucket owner db' :
  delete_bucket_cors bucket owner db = Ok (tt, db') -> cors_step db db'.

Definition empty_cors : CorsDb := {| cd_owners := ∅; cd_configs := ∅ |}.

(** The column [canonical_json] holds the canonical text of a valid document. *)
Definition canonical_text (json : string) : Prop :=
  exists c, from_canonical_cors_json json = Ok c /\ canonical_cors_json c = Ok json.

Definition typed_row (row : BucketCorsConfig) : Prop := canonical_text (bc_canonical_json row).

Definition typed_db (db : CorsDb) : Prop :=
  cors_constraints db /\ map_Forall (fun _ => typed_row) (cd_configs db).

Lemma canonical_json_text c j : canonical_cors_json c = Ok j -> from_canonical_cors_json j = Ok c.
Proof.
  intros (Hv & Hj & Hl)%canonical_json_ok. apply from_canonical_json_ok.
  split; [by apply cors_json_roundtrip|]. split; [done|]. by exists j.
Qed.

Lemma cors_step_typed db db' : typed_db db -> cors_step db db' -> typed_db db'.
Proof.
  intros [Hc Ht] Hs. unfold typed_db, cors_constraints in *.
  destruct Hs as [name owner Hn|name Hn|now seen input extension db' Hput|b o db' Hdel].
  - split; [|done]. intros b row Hb. cbn [add_bucket_row cd_owners].
    destruct (decide (b = name)) as [->|]; [rewrite lookup_insert_eq; by eexists|].
    rewrite lookup_insert_ne by done. by apply (Hc b row).
  - split; [|by apply map_Forall_delete]. cbn [remove_bucket_row cd_configs cd_owners].
    intros b row [Hne Hb]%lookup_delete_Some. rewrite lookup_delete_ne by done. by apply (Hc b row).
  - unfold put_bucket_cors in Hput. apply t_bind_ok in Hput as (json & d & Hdoc & Hput).
    apply t_lift_ok in Hdoc as [(_ & m & _ & _ & _ & _ & Hj)%put_bucket_cors_document_ok ->].
    apply put_configuration_ok in Hput as [(ow & Ho & _) ->]; [|done].
    split; (apply map_Forall_insert_2; [|done]); [by eexists|].
    exists (submitted input). split; [by apply canonical_json_text|done].
  - apply delete_configuration_ok in Hdel as [_ ->]; [|done].
    split; cbn [set_configs cd_configs cd_owners]; by apply map_Forall_delete.
Qed.

Lemma cors_history_typed db : rtc cors_step empty_cors db -> typed_db db.
Proof.
  intros Hr. assert (typed_db empty_cors) as Hempty by (split; apply map_Forall_empty).
  revert Hempty. induction Hr as [|x y z Hs _ IH]; [done|]. intros Hx. by apply IH, (cors_step_typed x).
Qed.

(** C28: Along any history of bucket creations, bucket deletions, [PutBucketCors] and
    [DeleteBucketCors] requests, every stored document is the canonical text of a valid configuration of
    an existing bucket.  So a [GetBucketCors] on it never reports a corrupt document: it answers with
    the stored rules, or that there are none. *)
Theorem stored_configurations_typed (db : CorsDb) (Hr : rtc cors_step empty_cors db) :
  map_Forall (fun bucket row =>
    is_Some (cd_owners db !! bucket)
    /\ exists c, valid_cors c /\ from_canonical_cors_json (bc_canonical_json row) = Ok c
               /\ canonical_cors_json c = Ok (bc_canonical_json row)) (cd_configs db)
  /\ forall bucket owner, owner_accepts bucket owner db ->
       match cd_configs db !! bucket with
       | Some row => exists c, from_canonical_cors_json (bc_canonical_json row) = Ok c
                     /\ get_bucket_cors bucket owner db = Ok (dto_rule <$> cc_rules c)
       | None => get_bucket_cors bucket owner db = Err NoSuchCorsConfiguration
       end.
Proof.
  apply cors_history_typed in Hr as [Hc Ht]. split.
  - intros b row Hb. split; [by apply (Hc b row)|]. destruct (Ht b row Hb) as (c & Hf & Hj).
    exists c. split; [|done]. by apply canonical_json_ok in Hj as [? _].
  - intros b o (owner & Ho & Hacc). unfold get_bucket_cors, get_optional_configuration_for_owner.
    rewrite Ho. cbn [ok_or rbind]. rewrite (proj2 (verify_expected_owner_ok owner o tt)) by done. cbn [rbind].
    destruct (cd_configs db !! b) as [row|] eqn:Hb; [|done]. cbn [fmap option_fmap option_map ok_or rbind].
    destruct (Ht b row Hb) as (c & Hf & Hj). exists c. split; [done|].
    rewrite Hf. cbn [rbind]. by rewrite (to_s3_configuration_ok c _ Hj).
Qed.

(** ** Round trip *)

(** An S3 rule as the gateway gives it back: an empty list of headers reads as an absent one. *)
Definition normal_rule (r : CORSRule) : CORSRule :=
  {| dto_allowed_headers := dto_allowed_headers r ≫= some_unless_empty; dto_allowed_methods := dto_allowed_methods r;
     dto_allowed_origins := dto_allowed_origins r; dto_expose_headers := dto_expose_headers r ≫= some_unless_empty;
     dto_id := dto_id r; dto_max_age_seconds := dto_max_age_seconds r |}.

Lemma dto_canonical_rule r : dto_rule (canonical_rule r) = normal_rule r.
Proof. destruct r as [[[]|] ? ? [[]|] ? ?]; done. Qed.

(** What [PutBucketCors] stored, [GetBucketCors] gives back: the submitted rules in their order, up to
    writing an empty header list as an absent one.  Every other bucket reads as before. *)
Theorem put_get_bucket_cors (now : Z) (seen db db' : CorsDb) (input : PutBucketCorsInput)
    (extension : option CorsPutBodyMetadata) (Hdb : cors_constraints db)
    (Hput : put_bucket_cors now seen input extension db = Ok (tt, db')) :
  get_bucket_cors (pi_bucket input) (pi_expected_bucket_owner input) db'
    = Ok (normal_rule <$> dto_cors_rules (pi_cors_configuration input))
  /\ forall bucket owner, bucket <> pi_bucket input ->
       get_bucket_cors bucket owner db' = get_bucket_cors bucket owner db.
Proof.
  unfold put_bucket_cors in Hput. apply t_bind_ok in Hput as (json & d & Hdoc & Hput).
  apply t_lift_ok in Hdoc as [(_ & m & _ & _ & _ & _ & Hj)%put_bucket_cors_document_ok ->].
  apply put_configuration_ok in Hput as [(ow & Ho & Hacc) ->]; [|done].
  unfold get_bucket_cors, get_optional_configuration_for_owner, stored. cbn [set_configs cd_owners cd_configs]. split.
  - rewrite Ho. cbn [ok_or rbind]. rewrite (proj2 (verify_expected_owner_ok ow _ tt)) by done.
    rewrite lookup_insert_eq. cbn [rbind fmap option_fmap option_map ok_or bc_canonical_json].
    rewrite (canonical_json_text _ _ Hj). cbn [rbind]. rewrite (to_s3_configuration_ok _ _ Hj).
    cbn [dto_cors_rules submitted cc_rules]. f_equal. rewrite <- list_fmap_compose.
    apply list_fmap_ext. intros _ r _. apply dto_canonical_rule.
  - intros b o Hne. by rewrite lookup_insert_ne by done.
Qed.
End laws.
