(* ===== verification/CorsHttp.v ===== *)
(** * The CORS middleware ([src/cors/http.rs], [src/s3/query.rs])

    The layer around the S3 service: it answers browser preflights from the stored document of the
    bucket, adds CORS headers to other responses, and buffers the body of [PutBucketCors] with its
    digests.  Types of the [http] and [axum] crates, the decoding of paths and the inner service are
    interfaces. *)

From Stdlib Require Import ZArith Lia Ascii.
From Stdlib Require String.
From stdpp Require Import base list strings pretty gmap.
From S2P Require Import Prelude Bytes Errors Database Transaction CorsConfig CorsMatching Crc64 CorsStore.

#[local] Open Scope string_scope.
#[local] Open Scope list_scope.
#[local] Open Scope Z_scope.
#[local] Open Scope rust_scope.

(** ** Header maps

    [http::HeaderMap]: the values of each lower-case name in order; a name without values is not in
    the map. *)
Abbreviation HeaderMap := (gmap string (list string)).

Definition get_all (name : string) (headers : HeaderMap) : list string := default [] (headers !! name).
Definition contains_key (name : string) (headers : HeaderMap) : bool :=
  negb (bool_decide (get_all name headers = [])).
Definition header_insert (name value : string) (headers : HeaderMap) : HeaderMap := <[name := [value]]> headers.
Definition header_append (name value : string) (headers : HeaderMap) : HeaderMap :=
  <[name := get_all name headers ++ [value]]> headers.

Definition ORIGIN : string := "origin".
Definition VARY : string := "vary".
Definition CONTENT_TYPE : string := "content-type".
Definition ACCESS_CONTROL_REQUEST_METHOD : string := "access-control-request-method".
Definition ACCESS_CONTROL_REQUEST_HEADERS : string := "access-control-request-headers".
Definition ACCESS_CONTROL_ALLOW_ORIGIN : string := "access-control-allow-origin".
Definition ACCESS_CONTROL_ALLOW_CREDENTIALS : string := "access-control-allow-credentials".
Definition ACCESS_CONTROL_ALLOW_METHODS : string := "access-control-allow-methods".
Definition ACCESS_CONTROL_ALLOW_HEADERS : string := "access-control-allow-headers".
Definition ACCESS_CONTROL_EXPOSE_HEADERS : string := "access-control-expose-headers".
Definition ACCESS_CONTROL_MAX_AGE : string := "access-control-max-age".

(** ** Libraries

    A header value and a method are their bytes.  [header_value_from_str], [header_value_to_str] and
    [method_from_bytes] are the conversions of the [http] crate; [percent_decode_utf8] is
    [percent_decode_str(_).decode_utf8()]; [path_style_bucket] says that [s3s] parses a path as that of
    a bucket; [to_bytes] collects an [axum] body up to a limit. *)
Class WebLib := {
  Body : Type;
  body_from : string -> Body;
  to_bytes : Body -> Z -> option string;
  header_value_from_str : string -> option string;
  header_value_to_str : string -> option string;
  method_from_bytes : string -> option string;
  percent_decode_utf8 : string -> option string;
  path_style_bucket : string -> bool
}.

Record Request `{WebLib} : Type := {
  rq_method : string;
  rq_path : string;
  rq_query : option string;
  rq_headers : HeaderMap;
  rq_extension : option CorsPutBodyMetadata;
  rq_body : Body
}.

Record Response `{WebLib} : Type := { rs_status : Z; rs_headers : HeaderMap; rs_body : Body }.

(** [into_response] of a status code alone and of a status code with a static text *)
Class IntoResponse `{WebLib} := {
  status_response : Z -> Response;
  text_response : Z -> string -> Response
}.

Class WebLaws `{WebLib} `{!IntoResponse} := {
  to_bytes_limit : forall b n s, to_bytes b n = Some s -> str_len s <= n;
  to_bytes_from : forall s n, str_len s <= n -> to_bytes (body_from s) n = Some s;
  from_str_visible : forall s, visible s = true -> header_value_from_str s = Some s;
  to_str_bytes : forall v s, header_value_to_str v = Some s -> s = v;
  method_bytes : forall v m, method_from_bytes v = Some m -> m = v;
  status_response_status : forall n, rs_status (status_response n) = n;
  status_response_headers : forall n, rs_headers (status_response n) = ∅;
  text_response_status : forall n t, rs_status (text_response n t) = n;
  text_response_headers : forall n t name, name <> CONTENT_TYPE -> get_all name (rs_headers (text_response n t)) = []
}.

(** ** [src/s3/query.rs] *)

Section web.
Context `{CorsLib} `{DigestLib} `{WebLib} `{!IntoResponse}.

Fixpoint replace_char (c d : ascii) (s : string) : string :=
  match s with
  | EmptyString => EmptyString
  | String a s => String (if ascii_dec a c then d else a) (replace_char c d s)
  end.

Definition decode_component (raw : string) : option string :=
  percent_decode_utf8 (replace_char "+" " " raw).

Definition query_key_is_present (query : option string) (expected : string) : bool :=
  existsb (fun part =>
      let raw_name := match split_once "=" part with Some (name, _) => name | None => part end in
      is_some_and (fun name => String.eqb name expected) (decode_component raw_name))
    (filter (fun part => part <> EmptyString) (split "&" (default EmptyString query))).

(** ** Fixed responses *)

Definition QUOTE : string := String "034" EmptyString.
Definition XML_DECLARATION : string :=
  "<?xml version=" +:+ QUOTE +:+ "1.0" +:+ QUOTE +:+ " encoding=" +:+ QUOTE +:+ "UTF-8" +:+ QUOTE +:+ "?>".
Definition INVALID_REQUEST_XML : string :=
  XML_DECLARATION +:+ "<Error><Code>InvalidRequest</Code>" +:+ "<Message>invalid CORS request</Message></Error>".
Definition FORBIDDEN_XML : string :=
  XML_DECLARATION +:+ "<Error><Code>AccessForbidden</Code>" +:+ "<Message>CORS request forbidden</Message></Error>".
Definition INTERNAL_ERROR_XML : string :=
  XML_DECLARATION +:+ "<Error><Code>InternalError</Code>" +:+ "<Message>internal server error</Message></Error>".

Definition fixed_error (status : Z) (body : string) : Response :=
  let response := text_response status body in
  {| rs_status := rs_status response;
     rs_headers := header_insert CONTENT_TYPE "application/xml" (rs_headers response);
     rs_body := rs_body response |}.

Definition invalid_request : Response := fixed_error 400 INVALID_REQUEST_XML.
Definition forbidden : Response := fixed_error 403 FORBIDDEN_XML.
Definition internal_error : Response := fixed_error 500 INTERNAL_ERROR_XML.

(** ** Reading the request *)

Record BucketPath : Type := { bp_bucket : string; bp_bucket_only : bool }.

Definition classify_bucket_path (path : string) : option BucketPath :=
  raw_path ← strip_prefix "/" path;
  if str_is_empty raw_path then None else
  let '(raw_bucket, raw_object) :=
    match split_once "/" raw_path with
    | Some (bucket, object) => (bucket, Some object)
    | None => (raw_path, None)
    end in
  if str_is_empty raw_bucket then None else
  bucket ← percent_decode_utf8 raw_bucket;
  if str_is_empty bucket || (str_contains "/" bucket || str_contains "\" bucket) then None else
  if negb (path_style_bucket ("/" +:+ bucket)) then None else
  Some {| bp_bucket := bucket; bp_bucket_only := is_none_or str_is_empty raw_object |}.

Definition is_put_bucket_cors (request : Request) (bucket_only : bool) : bool :=
  bucket_only && String.eqb (rq_method request) "PUT" && query_key_is_present (rq_query request) "cors".

Definition single_header (headers : HeaderMap) (name : string) : option string :=
  match get_all name headers with
  | [value] => Some value
  | _ => None
  end.

Definition parse_allowed_method (value : string) : option string :=
  method ← method_from_bytes value;
  if bool_decide (method ∈ ["GET"; "PUT"; "HEAD"; "POST"; "DELETE"]) then Some method else None.

Record RequestedHeaders : Type := { rh_names : list string; rh_original : list string; rh_supplied : bool }.

Definition is_ows (c : ascii) : bool := if ascii_dec c " " then true else if ascii_dec c "009" then true else false.
Fixpoint trim_ows_start (s : string) : string :=
  match s with
  | EmptyString => EmptyString
  | String a s' => if is_ows a then trim_ows_start s' else s
  end.
Fixpoint trim_ows_end (s : string) : string :=
  match s with
  | EmptyString => EmptyString
  | String a s' =>
    match trim_ows_end s' with
    | EmptyString => if is_ows a then EmptyString else String a EmptyString
    | t => String a t
    end
  end.
Definition trim_ows (value : string) : string := trim_ows_end (trim_ows_start value).

(** The body of the inner loop of [parse_requested_headers]: a name and its text *)
Definition parse_requested_header (raw : string) : option (string * string) :=
  let trimmed := trim_ows raw in
  if str_is_empty trimmed then None else
  name ← header_name trimmed;
  if utf8_valid trimmed then Some (name, trimmed) else None.

Definition parse_requested_headers (headers : HeaderMap) : option RequestedHeaders :=
  let supplied := contains_key ACCESS_CONTROL_REQUEST_HEADERS headers in
  pairs ← mapM parse_requested_header
            (get_all ACCESS_CONTROL_REQUEST_HEADERS headers ≫= split ",");
  Some {| rh_names := pairs.*1; rh_original := pairs.*2; rh_supplied := supplied |}.

(** ** The body of [PutBucketCors] *)

Definition bridge_sdk_checksum_algorithm (headers : HeaderMap) : SdkChecksumAlgorithmHeader * HeaderMap :=
  let values := get_all "x-amz-sdk-checksum-algorithm" headers in
  let cardinality :=
    match values with [] => SdkAbsent | [_] => SdkSingle | _ => SdkInvalid end in
  let headers := delete "x-amz-checksum-algorithm" headers in
  (cardinality,
   match values with
   | [value] => header_insert "x-amz-checksum-algorithm" value headers
   | _ => headers
   end).

Definition parse_crc64nvme_header (headers : HeaderMap) : Crc64NvmeHeader :=
  match get_all "x-amz-checksum-crc64nvme" headers with
  | [] => CrcAbsent
  | value :: others =>
    if negb (bool_decide (others = [])) || is_none (header_value_to_str value) then CrcInvalid
    else match base64_decode value ≫= to_array 8 with
         | Some bytes => CrcValue bytes
         | None => CrcInvalid
         end
  end.

Definition reconstruct_put_body (request : Request) : result Response Request :=
  match to_bytes (rq_body request) (MAX_CORS_CONFIGURATION_BYTES + 1) with
  | Some bytes =>
    if str_len bytes <=? MAX_CORS_CONFIGURATION_BYTES then
      let '(sdk_checksum_algorithm, headers) := bridge_sdk_checksum_algorithm (rq_headers request) in
      Ok {| rq_method := rq_method request; rq_path := rq_path request; rq_query := rq_query request;
            rq_headers := headers;
            rq_extension := Some {| pb_len := str_len bytes; pb_computed_md5 := md5_compute bytes;
                                    pb_computed_crc64nvme := crc64nvme bytes;
                                    pb_sdk_checksum_algorithm := sdk_checksum_algorithm;
                                    pb_supplied_crc64nvme := parse_crc64nvme_header headers |};
            rq_body := body_from bytes |}
    else Err invalid_request
  | None => Err invalid_request
  end.

(** ** Response headers *)

Inductive ResponsePolicy : Type :=
| Preflight (requested_method : string) (requested_headers : RequestedHeaders)
| Actual.

Definition append_expose_headers (headers : HeaderMap) (rule : CorsRule) : option HeaderMap :=
  match cr_expose_headers rule with
  | [] => Some headers
  | names =>
    value ← header_value_from_str (String.concat ", " names);
    Some (header_insert ACCESS_CONTROL_EXPOSE_HEADERS value headers)
  end.

Definition preflight_headers (method : string) (requested : RequestedHeaders) (rule : CorsRule)
    (headers : HeaderMap) : option HeaderMap :=
  methods ← header_value_from_str method;
  let headers := header_insert ACCESS_CONTROL_ALLOW_METHODS methods headers in
  headers ← (if rh_supplied requested then
               value ← header_value_from_str (String.concat ", " (rh_original requested));
               Some (header_insert ACCESS_CONTROL_ALLOW_HEADERS value headers)
             else Some headers);
  match cr_max_age_seconds rule with
  | Some max_age =>
    value ← header_value_from_str (pretty max_age);
    Some (header_insert ACCESS_CONTROL_MAX_AGE value headers)
  | None => Some headers
  end.

Definition build_headers (matched : CorsMatch) (origin : string) (policy : ResponsePolicy) : option HeaderMap :=
  let headers : HeaderMap :=
    match cm_allow_origin matched with
    | Any => header_insert ACCESS_CONTROL_ALLOW_ORIGIN "*" ∅
    | Echo => header_insert ACCESS_CONTROL_ALLOW_CREDENTIALS "true"
                (header_insert ACCESS_CONTROL_ALLOW_ORIGIN origin ∅)
    end in
  headers ← match policy with
            | Preflight method requested => preflight_headers method requested (cm_rule matched) headers
            | Actual => append_expose_headers headers (cm_rule matched)
            end;
  Some (foldl (fun headers value => header_append VARY value headers) headers
          ["Origin"; "Access-Control-Request-Method"; "Access-Control-Request-Headers"]).

Definition append_headers (response : Response) (additions : HeaderMap) : Response :=
  {| rs_status := rs_status response;
     rs_headers := map_fold (fun name values headers =>
         foldl (fun headers value => header_append name value headers) headers values)
       (rs_headers response) additions;
     rs_body := rs_body response |}.

Definition actual_headers (headers : HeaderMap) (method : string) (configuration : option CorsConfiguration)
  : option HeaderMap :=
  origin_value ← single_header headers ORIGIN;
  origin ← header_value_to_str origin_value;
  configuration ← configuration;
  matched ← first_match configuration origin method [];
  build_headers matched origin_value Actual.

(** ** The middleware

    [connection] is what the database answers from ([state.store.db()]), an error when it cannot be
    reached; [next] is the inner service, which may change the world. *)
Section middleware.
Context {World : Type} (connection : World -> AppResult CorsDb) (next : Request -> World -> Response * World).

Definition read_configuration (bucket : string) (w : World) : AppResult (option string) :=
  let? db := connection w in get_optional_configuration bucket db.

(** The branch of [OPTIONS] requests that carry one of the two CORS headers: the headers of the
    answer, [None] when it is forbidden *)
Definition preflight_answer (headers : HeaderMap) (configuration : option CorsConfiguration) : option HeaderMap :=
  if negb (eqb (contains_key ORIGIN headers) (contains_key ACCESS_CONTROL_REQUEST_METHOD headers)) then None else
  origin_value ← single_header headers ORIGIN;
  origin ← header_value_to_str origin_value;
  requested_method_value ← single_header headers ACCESS_CONTROL_REQUEST_METHOD;
  requested_method ← parse_allowed_method requested_method_value;
  requested_headers ← parse_requested_headers headers;
  configuration ← configuration;
  matched ← first_match configuration origin requested_method (rh_names requested_headers);
  build_headers matched origin_value (Preflight requested_method requested_headers).

Definition preflight_response (headers : HeaderMap) (configuration : option CorsConfiguration) : Response :=
  match preflight_answer headers configuration with
  | Some additions => append_headers (status_response 200) additions
  | None => forbidden
  end.

(** What follows the reading of the document *)
Definition respond (request : Request) (configuration : option CorsConfiguration) (w : World) : Response * World :=
  let origin_present := contains_key ORIGIN (rq_headers request) in
  let requested_method_present := contains_key ACCESS_CONTROL_REQUEST_METHOD (rq_headers request) in
  if String.eqb (rq_method request) "OPTIONS" then
    if negb origin_present && negb requested_method_present then next request w
    else (preflight_response (rq_headers request) configuration, w)
  else
    let additions := actual_headers (rq_headers request) (rq_method request) configuration in
    let '(response, w) := next request w in
    (match additions with
     | Some headers => append_headers response headers
     | None => response
     end, w).

Definition bucket_cors (request : Request) (w : World) : Response * World :=
  if bool_decide (rq_path request ∈ ["/health"; "/ready"]) then next request w else
  match classify_bucket_path (rq_path request) with
  | None => next request w
  | Some bucket_path =>
    match read_configuration (bp_bucket bucket_path) w with
    | Err _ => (internal_error, w)
    | Ok raw_configuration =>
      match try_option from_canonical_cors_json raw_configuration with
      | Err _ => (internal_error, w)
      | Ok configuration =>
        if is_put_bucket_cors request (bp_bucket_only bucket_path) then
          match reconstruct_put_body request with
          | Err response => (response, w)
          | Ok request => respond request configuration w
          end
        else respond request configuration w
      end
    end
  end.
End middleware.
End web.
