(* ===== verification/CorsSystem.v ===== *)
(** * What the CORS layer guarantees

    Preflights, actual responses and the integrity of uploaded documents, for every document the
    service can have stored. *)

From Stdlib Require Import ZArith Lia Ascii.
From Stdlib Require String.
From stdpp Require Import base list strings pretty gmap.
From S2P Require Import Prelude Bytes Errors Database Transaction CorsConfig CorsMatching Crc64 CorsStore CorsHttp.

#[local] Open Scope string_scope.
#[local] Open Scope list_scope.
#[local] Open Scope Z_scope.

(** ** Header maps *)

Lemma get_all_insert n m v h : get_all n (header_insert m v h) = if decide (n = m) then [v] else get_all n h.
Proof.
  unfold get_all, header_insert. case_decide as E; [subst; by rewrite lookup_insert_eq|].
  by rewrite lookup_insert_ne.
Qed.

Lemma get_all_append n m v h :
  get_all n (header_append m v h) = if decide (n = m) then get_all n h ++ [v] else get_all n h.
Proof.
  unfold header_append. unfold get_all at 1. case_decide as E; [subst; by rewrite lookup_insert_eq|].
  by rewrite lookup_insert_ne.
Qed.

Lemma get_all_empty n : get_all n (∅ : HeaderMap) = [].
Proof. unfold get_all. by rewrite lookup_empty. Qed.

Lemma get_all_append_all n m vs h :
  get_all n (foldl (fun h v => header_append m v h) h vs) = get_all n h ++ if decide (n = m) then vs else [].
Proof.
  revert h. induction vs as [|v vs IH]; intros h; simpl; [case_decide; by rewrite app_nil_r|].
  rewrite IH, get_all_append. case_decide; [by rewrite <- app_assoc|done].
Qed.

Lemma contains_key_false n h : contains_key n h = false <-> get_all n h = [].
Proof. unfold contains_key. rewrite negb_false_iff. apply bool_decide_eq_true. Qed.

Create Rewrite HintDb headers.
#[local] Hint Rewrite get_all_insert get_all_append get_all_empty : headers.

(** ** Visible text *)

Lemma visible_app a b : visible (a +:+ b) = visible a && visible b.
Proof.
  unfold visible. induction a as [|c a IH]; [done|].
  change (String c a +:+ b) with (String c (a +:+ b)). simpl. by rewrite IH, andb_assoc.
Qed.

Lemma visible_concat l : Forall (fun s => visible s = true) l -> visible (String.concat ", " l) = true.
Proof.
  induction 1 as [|s l Hs Hl IH]; [done|]. destruct l as [|t l]; [done|].
  change (String.concat ", " (s :: t :: l)) with (s +:+ ", " +:+ String.concat ", " (t :: l)).
  by rewrite !visible_app, Hs, IH.
Qed.

Lemma visible_pretty z : 0 <= z -> visible (pretty z) = true.
Proof.
  intros Hz. assert (pretty z = pretty (Z.to_N z)) as -> by (by destruct z).
  apply pretty_N_forallb. intros d. unfold pretty_N_char. by repeat case_match.
Qed.

Section system.
Context `{CorsLibLaws} `{DigestLib} `{WebLaws}.

Lemma get_all_append_headers n r a :
  get_all n (rs_headers (append_headers r a)) = get_all n (rs_headers r) ++ get_all n a.
Proof.
  unfold append_headers. cbn [rs_headers]. 
  eapply (map_fold_weak_ind (fun h (a : HeaderMap) => get_all n h = get_all n (rs_headers r) ++ get_all n a)).
  - by rewrite get_all_empty, app_nil_r.
  - intros m vs a' h Hm IH. rewrite get_all_append_all, IH, <- app_assoc. f_equal. unfold get_all.
    case_decide as E; [subst; by rewrite Hm, lookup_insert_eq|].
    by rewrite lookup_insert_ne, app_nil_r.
Qed.

Lemma get_all_fixed_error n status text :
  n <> CONTENT_TYPE -> get_all n (rs_headers (fixed_error status text)) = [].
Proof. intros Hn. cbn [fixed_error rs_headers]. rewrite get_all_insert, decide_False by done. by apply text_response_headers. Qed.

(** ** Requested header names *)

Lemma parse_requested_header_ok raw name text :
  parse_requested_header raw = Some (name, text) -> header_name text = Some name /\ visible text = true.
Proof.
  unfold parse_requested_header. destruct (str_is_empty _); [done|].
  destruct (header_name (trim_ows raw)) as [n|] eqn:En; [|done]. simpl. destruct (utf8_valid _); [|done].
  intros [= -> <-]. split; [done|]. by apply header_name_visible in En.
Qed.

Lemma parse_requested_headers_ok headers r :
  parse_requested_headers headers = Some r ->
  Forall2 (fun text name => header_name text = Some name) (rh_original r) (rh_names r)
  /\ Forall (fun text => visible text = true) (rh_original r).
Proof.
  unfold parse_requested_headers. intros (pairs & Hp & [= <-])%bind_Some. cbn [rh_original rh_names].
  apply mapM_Some_1 in Hp. induction Hp as [|raw [name text] raws pairs Hr _ [IH1 IH2]]; [by split|].
  apply parse_requested_header_ok in Hr as [? ?]. split; by constructor.
Qed.

Lemma requested_names_ascii headers r :
  parse_requested_headers headers = Some r -> Forall (fun h => is_ascii h = true) (rh_names r).
Proof.
  intros [Hf _]%parse_requested_headers_ok. induction Hf as [|t n ts ns Hn _ IH]; constructor; [|done].
  by apply visible_is_ascii, (header_name_ascii t).
Qed.

(** ** The headers a matching rule gives *)

(** The headers of an answer that allows the request *)
Definition allowed_by (m : CorsMatch) (origin : string) (h : HeaderMap) : Prop :=
  get_all ACCESS_CONTROL_ALLOW_ORIGIN h = [match cm_allow_origin m with Any => "*" | Echo => origin end]
  /\ get_all ACCESS_CONTROL_ALLOW_CREDENTIALS h = match cm_allow_origin m with Any => [] | Echo => ["true"] end
  /\ get_all VARY h = ["Origin"; "Access-Control-Request-Method"; "Access-Control-Request-Headers"].

Definition preflight_fields (m : CorsMatch) (method : string) (r : RequestedHeaders) (h : HeaderMap) : Prop :=
  get_all ACCESS_CONTROL_ALLOW_METHODS h = [method]
  /\ get_all ACCESS_CONTROL_ALLOW_HEADERS h = (if rh_supplied r then [String.concat ", " (rh_original r)] else [])
  /\ get_all ACCESS_CONTROL_MAX_AGE h = option_list (pretty <$> cr_max_age_seconds (cm_rule m))
  /\ get_all ACCESS_CONTROL_EXPOSE_HEADERS h = [].

Definition actual_fields (m : CorsMatch) (h : HeaderMap) : Prop :=
  get_all ACCESS_CONTROL_EXPOSE_HEADERS h
    = (match cr_expose_headers (cm_rule m) with [] => [] | names => [String.concat ", " names] end)
  /\ get_all ACCESS_CONTROL_ALLOW_METHODS h = [] /\ get_all ACCESS_CONTROL_ALLOW_HEADERS h = []
  /\ get_all ACCESS_CONTROL_MAX_AGE h = [].

Ltac solve_headers := repeat split; autorewrite with headers; try done; by repeat case_decide.

Lemma build_preflight_headers m origin method r :
  valid_rule (cm_rule m) -> visible method = true -> Forall (fun t => visible t = true) (rh_original r) ->
  exists h, build_headers m origin (Preflight method r) = Some h
    /\ allowed_by m origin h /\ preflight_fields m method r h.
Proof.
  intros (_ & _ & _ & Hage & _) Hm Hr. unfold build_headers, preflight_headers.
  rewrite (from_str_visible method) by done. cbn [mbind option_bind].
  assert (forall a, cr_max_age_seconds (cm_rule m) = Some a -> header_value_from_str (pretty a) = Some (pretty a)) as Ha.
  { intros a Hc. by apply from_str_visible, visible_pretty, Hage. }
  rewrite (from_str_visible (String.concat ", " (rh_original r))) by by apply visible_concat.
  unfold allowed_by, preflight_fields.
  destruct (rh_supplied r); cbn [mbind option_bind];
    destruct (cr_max_age_seconds (cm_rule m)) as [a|]; try rewrite (Ha a) by done; cbn [mbind option_bind];
    destruct (cm_allow_origin m); eexists; (split; [done|]); cbn [foldl]; solve_headers.
Qed.

Lemma build_actual_headers m origin :
  valid_rule (cm_rule m) ->
  exists h, build_headers m origin Actual = Some h /\ allowed_by m origin h /\ actual_fields m h.
Proof.
  intros (_ & _ & _ & _ & _ & _ & _ & He). unfold build_headers, append_expose_headers, allowed_by, actual_fields.
  assert (header_value_from_str (String.concat ", " (cr_expose_headers (cm_rule m)))
          = Some (String.concat ", " (cr_expose_headers (cm_rule m)))) as Hx.
  { apply from_str_visible, visible_concat. eapply Forall_impl; [done|].
    intros s [n Hn]. by apply header_name_visible in Hn. }
  destruct (cr_expose_headers (cm_rule m)) as [|e es]; [|rewrite Hx]; cbn [mbind option_bind];
    destruct (cm_allow_origin m); eexists; (split; [done|]); cbn [foldl]; solve_headers.
Qed.

(** ** The document of the bucket *)

(** The document the database holds for the bucket *)
Definition document (db : CorsDb) (bucket : string) (c : CorsConfiguration) : Prop :=
  exists row, cd_configs db !! bucket = Some row /\ from_canonical_cors_json (bc_canonical_json row) = Ok c.

Lemma document_valid db bucket c : document db bucket c -> valid_cors c.
Proof. by intros (row & _ & (_ & ? & _)%from_canonical_json_ok). Qed.

(** On a database the service produced, the middleware reads the document or learns there is none. *)
Lemma read_typed {World} (connection : World -> AppResult CorsDb) w db bucket :
  connection w = Ok db -> typed_db db ->
  exists raw c, read_configuration connection bucket w = Ok raw /\ try_option from_canonical_cors_json raw = Ok c
    /\ (forall d, c = Some d <-> document db bucket d).
Proof.
  intros Hw [_ Ht]. unfold read_configuration, get_optional_configuration, document. rewrite Hw. cbn [rbind].
  destruct (cd_configs db !! bucket) as [row|] eqn:E; cbn [fmap option_fmap option_map].
  - destruct (Ht _ _ E) as (c & Hc & _). exists (Some (bc_canonical_json row)), (Some c).
    split; [done|]. simpl. rewrite Hc. split; [done|]. intros d. split; [intros [= <-]; by exists row|].
    intros (row' & [= <-] & ?). congruence.
  - exists None, None. do 2 (split; [done|]). intros d. split; [done|]. by intros (? & ? & _).
Qed.

(** The rule of [c] that answers, with what it says about the origin *)
Definition answers (c : CorsConfiguration) (origin method : string) (names : list string) (m : CorsMatch) : Prop :=
  exists before after,
    cc_rules c = before ++ cm_rule m :: after
    /\ Forall (fun r => ~ admits r origin method names) before
    /\ admits (cm_rule m) origin method names
    /\ origin_answer (cm_rule m) origin (cm_allow_origin m).

Lemma answers_valid c origin method names m : valid_cors c -> answers c origin method names m -> valid_rule (cm_rule m).
Proof.
  intros [_ Hv] (before & after & E & _). rewrite E, Forall_app, Forall_cons in Hv. by destruct Hv as (_ & ? & _).
Qed.

(** A well-formed preflight: one readable origin, one of the five methods, and header names *)
Definition asks (h : HeaderMap) (origin method : string) (r : RequestedHeaders) : Prop :=
  get_all ORIGIN h = [origin] /\ header_value_to_str origin = Some origin
  /\ get_all ACCESS_CONTROL_REQUEST_METHOD h = [method] /\ parse_allowed_method method = Some method
  /\ parse_requested_headers h = Some r.

Lemma single_header_Some h n v : single_header h n = Some v <-> get_all n h = [v].
Proof. unfold single_header. repeat case_match; naive_solver. Qed.

Lemma parse_allowed_method_Some v m :
  parse_allowed_method v = Some m -> m = v /\ m ∈ ["GET"; "PUT"; "HEAD"; "POST"; "DELETE"].
Proof.
  unfold parse_allowed_method. intros (m' & ->%method_bytes & Hm)%bind_Some.
  case_bool_decide; [|done]. injection Hm as <-. done.
Qed.

Lemma asks_iff h origin method r :
  asks h origin method r <->
  single_header h ORIGIN = Some origin /\ header_value_to_str origin = Some origin
  /\ single_header h ACCESS_CONTROL_REQUEST_METHOD = Some method /\ parse_allowed_method method = Some method
  /\ parse_requested_headers h = Some r.
Proof. unfold asks. by rewrite !single_header_Some. Qed.

(** The branch for preflights, exactly *)
Lemma preflight_answer_iff h configuration additions :
  preflight_answer h configuration = Some additions <->
  exists origin method r c m,
    asks h origin method r /\ configuration = Some c
    /\ first_match c origin method (rh_names r) = Some m
    /\ build_headers m origin (Preflight method r) = Some additions.
Proof.
  unfold preflight_answer. split.
  - case_match; [done|].
    intros (ov & Ho & (o & Hs & (mv & Hm & (m & Hp & (r & Hr & (c & -> & (f & Hf & Hb)%bind_Some)%bind_Some)%bind_Some)
      %bind_Some)%bind_Some)%bind_Some)%bind_Some.
    pose proof (to_str_bytes _ _ Hs) as ->. pose proof (parse_allowed_method_Some _ _ Hp) as [-> _].
    exists ov, mv, r, c, f. by rewrite asks_iff.
  - intros (o & m & r & c & f & Ha & -> & Hf & Hb).
    assert (eqb (contains_key ORIGIN h) (contains_key ACCESS_CONTROL_REQUEST_METHOD h) = true) as ->.
    { destruct Ha as (Ho & _ & Hm & _). unfold contains_key. by rewrite Ho, Hm. }
    apply asks_iff in Ha as (Ho & Hs & Hm & Hp & Hr). cbn [negb].
    rewrite Ho. cbn [mbind option_bind]. rewrite Hs. cbn [mbind option_bind]. rewrite Hm. cbn [mbind option_bind].
    rewrite Hp. cbn [mbind option_bind]. rewrite Hr. cbn [mbind option_bind]. by rewrite Hf.
Qed.

(** A rule that matches a well-formed preflight gives all the headers of the answer. *)
Lemma preflight_granted h c origin method r m :
  valid_cors c -> asks h origin method r -> first_match c origin method (rh_names r) = Some m ->
  answers c origin method (rh_names r) m
  /\ exists additions, build_headers m origin (Preflight method r) = Some additions
     /\ allowed_by m origin additions /\ preflight_fields m method r additions.
Proof.
  intros Hv (_ & _ & _ & Hm & Hr) Hf.
  assert (answers c origin method (rh_names r) m) as Hans
    by (apply first_match_from_Some; [by eapply requested_names_ascii|done]).
  split; [done|]. apply build_preflight_headers.
  - by eapply answers_valid.
  - apply parse_allowed_method_Some in Hm as [_ Hm]. set_solver.
  - by apply parse_requested_headers_ok in Hr as [_ ?].
Qed.

(** ** The middleware *)

Section middleware.
Context {World : Type} (connection : World -> AppResult CorsDb) (next : Request -> World -> Response * World).

Lemma bucket_cors_reads request w db bp :
  rq_path request ∉ ["/health"; "/ready"] -> classify_bucket_path (rq_path request) = Some bp ->
  connection w = Ok db -> typed_db db ->
  exists c, (forall d, c = Some d <-> document db (bp_bucket bp) d)
    /\ bucket_cors connection next request w
       = if is_put_bucket_cors request (bp_bucket_only bp) then
           match reconstruct_put_body request with
           | Err response => (response, w)
           | Ok request => respond next request c w
           end
         else respond next request c w.
Proof.
  intros Hpath Hbp Hw Ht. destruct (read_typed connection w db (bp_bucket bp) Hw Ht) as (raw & c & Hr & Hc & Hd).
  exists c. split; [done|]. unfold bucket_cors. rewrite bool_decide_eq_false_2 by done.
  by rewrite Hbp, Hr, Hc.
Qed.

(** C22: The CORS layer answers every browser preflight to a bucket by itself: the S3 service behind it
    does not run.  In any history of the service, the answer allows the request exactly when a rule of
    the bucket's stored document admits its origin, method and headers, and it is then that of the
    first such rule: a star only for a star pattern and without credentials, otherwise the caller's
    own origin with credentials.  In every other case the answer is the fixed refusal, which carries
    no CORS header. *)
Theorem preflight_spec (request : Request) (w : World) (db : CorsDb) (bp : BucketPath)
    (Hpath : rq_path request ∉ ["/health"; "/ready"])
    (Hbucket : classify_bucket_path (rq_path request) = Some bp)
    (Hw : connection w = Ok db) (Hdb : rtc cors_step empty_cors db)
    (Hoptions : rq_method request = "OPTIONS")
    (Hcors : contains_key ORIGIN (rq_headers request)
             || contains_key ACCESS_CONTROL_REQUEST_METHOD (rq_headers request) = true) :
  exists response, bucket_cors connection next request w = (response, w)
    /\ ((exists origin method r c m,
            asks (rq_headers request) origin method r /\ document db (bp_bucket bp) c
            /\ answers c origin method (rh_names r) m
            /\ rs_status response = 200
            /\ allowed_by m origin (rs_headers response)
            /\ preflight_fields m method r (rs_headers response))
         \/ ((forall origin method r c,
                asks (rq_headers request) origin method r -> document db (bp_bucket bp) c ->
                Forall (fun rule => ~ admits rule origin method (rh_names r)) (cc_rules c))
             /\ response = forbidden
             /\ forall name, name <> CONTENT_TYPE -> get_all name (rs_headers response) = [])).
Proof.
  apply cors_history_typed in Hdb.
  destruct (bucket_cors_reads request w db bp Hpath Hbucket Hw Hdb) as (configuration & Hd & ->).
  assert (is_put_bucket_cors request (bp_bucket_only bp) = false) as ->
    by (unfold is_put_bucket_cors; rewrite Hoptions; by rewrite andb_false_r).
  unfold respond. rewrite Hoptions, <- negb_orb, Hcors. cbn [negb]. eexists. split; [done|].
  unfold preflight_response. destruct (preflight_answer _ configuration) as [additions|] eqn:E.
  - left. apply preflight_answer_iff in E as (origin & method & r & c & m & Ha & Hc%Hd & Hf & Hb).
    destruct (preflight_granted (rq_headers request) c origin method r m) as (Hans & h & Hh & Hal & Hpf);
      [by eapply document_valid|done..|].
    assert (h = additions) as -> by congruence. exists origin, method, r, c, m.
    unfold allowed_by, preflight_fields in *.
    rewrite !get_all_append_headers, status_response_headers, !get_all_empty. cbn [append_headers rs_status app].
    by rewrite status_response_status.
  - right. split; [|split; [done|intros n Hn; by apply get_all_fixed_error]].
    intros origin method r c Ha Hc. apply first_match_from_None; [by eapply requested_names_ascii, Ha|].
    destruct (first_match_from (cc_rules c) origin method (rh_names r)) as [m|] eqn:Hf; [|done]. exfalso.
    destruct (preflight_granted (rq_headers request) c origin method r m) as (_ & h & Hh & _);
      [by eapply document_valid|done..|].
    assert (preflight_answer (rq_headers request) configuration = Some h); [|congruence].
    apply preflight_answer_iff. exists origin, method, r, c, m. apply Hd in Hc. done.
Qed.

Lemma respond_actual request configuration w :
  rq_method request <> "OPTIONS" ->
  respond next request configuration w
  = (append_headers (next request w).1
       (default ∅ (actual_headers (rq_headers request) (rq_method request) configuration)), (next request w).2).
Proof.
  intros Hm. unfold respond. destruct (String.eqb_spec (rq_method request) "OPTIONS") as [|_]; [done|].
  destruct (next request w) as [response w']; simpl. destruct (actual_headers _ _ _); [done|].
  simpl. unfold append_headers. rewrite map_fold_empty. by destruct response.
Qed.

Lemma actual_headers_iff h method configuration additions :
  actual_headers h method configuration = Some additions <->
  exists origin c m, get_all ORIGIN h = [origin] /\ header_value_to_str origin = Some origin
    /\ configuration = Some c /\ first_match c origin method [] = Some m
    /\ build_headers m origin Actual = Some additions.
Proof.
  unfold actual_headers. split.
  - intros (ov & Ho%single_header_Some & (o & Hs & (c & -> & (m & Hf & Hb)%bind_Some)%bind_Some)%bind_Some)%bind_Some.
    pose proof (to_str_bytes _ _ Hs) as ->. by exists ov, c, m.
  - intros (o & c & m & Ho%single_header_Some & Hs & -> & Hf & Hb).
    rewrite Ho. cbn [mbind option_bind]. rewrite Hs. cbn [mbind option_bind]. by rewrite Hf.
Qed.

(** On any other request to a bucket the S3 service runs on the request as it came, and its status,
    body and headers reach the client; the CORS layer only appends.  It appends the headers of the
    first rule of the stored document that admits the origin and method, and nothing when there is no
    single readable origin, no document or no such rule. *)
Theorem actual_response_spec (request : Request) (w : World) (db : CorsDb) (bp : BucketPath)
    (Hpath : rq_path request ∉ ["/health"; "/ready"])
    (Hbucket : classify_bucket_path (rq_path request) = Some bp)
    (Hw : connection w = Ok db) (Hdb : rtc cors_step empty_cors db)
    (Hactual : rq_method request <> "OPTIONS")
    (Hput : is_put_bucket_cors request (bp_bucket_only bp) = false) :
  exists response additions,
    bucket_cors connection next request w = (response, (next request w).2)
    /\ rs_status response = rs_status (next request w).1 /\ rs_body response = rs_body (next request w).1
    /\ (forall name, get_all name (rs_headers response)
                     = get_all name (rs_headers (next request w).1) ++ get_all name additions)
    /\ ((exists origin c m,
            get_all ORIGIN (rq_headers request) = [origin] /\ header_value_to_str origin = Some origin
            /\ document db (bp_bucket bp) c /\ answers c origin (rq_method request) [] m
            /\ allowed_by m origin additions /\ actual_fields m additions)
         \/ (additions = ∅
             /\ forall origin c,
                  get_all ORIGIN (rq_headers request) = [origin] -> header_value_to_str origin = Some origin ->
                  document db (bp_bucket bp) c ->
                  Forall (fun rule => ~ admits rule origin (rq_method request) []) (cc_rules c))).
Proof.
  apply cors_history_typed in Hdb.
  destruct (bucket_cors_reads request w db bp Hpath Hbucket Hw Hdb) as (configuration & Hd & ->).
  rewrite Hput, respond_actual by done. do 2 eexists. split; [done|]. do 2 (split; [done|]).
  split; [intros name; apply get_all_append_headers|].
  destruct (actual_headers _ _ configuration) as [additions|] eqn:E; cbn [default].
  - left. apply actual_headers_iff in E as (origin & c & m & Ho & Hs & Hc%Hd & Hf & Hb).
    exists origin, c, m. apply first_match_from_Some in Hf; [|done].
    destruct (build_actual_headers m origin) as (h & Hh & Hal & Hac);
      [by eapply answers_valid; [by eapply document_valid|]|].
    assert (h = additions) as -> by congruence. done.
  - right. split; [done|]. intros origin c Ho Hs Hc. apply first_match_from_None; [done|].
    destruct (first_match_from (cc_rules c) origin (rq_method request) []) as [m|] eqn:Hf; [|done]. exfalso.
    destruct (build_actual_headers m origin) as (h & Hh & _).
    { eapply answers_valid; [by eapply document_valid|]. by apply first_match_from_Some. }
    assert (actual_headers (rq_headers request) (rq_method request) configuration = Some h); [|congruence].
    apply actual_headers_iff. exists origin, c, m. apply Hd in Hc. done.
Qed.
End middleware.

(** ** Uploads *)

(** The request the S3 service gets for a [PutBucketCors]: the same bytes, with their digests *)
Lemma reconstruct_put_body_ok request forwarded :
  reconstruct_put_body request = Ok forwarded ->
  exists bytes m,
    to_bytes (rq_body request) (MAX_CORS_CONFIGURATION_BYTES + 1) = Some bytes
    /\ str_len bytes <= MAX_CORS_CONFIGURATION_BYTES
    /\ rq_body forwarded = body_from bytes /\ rq_extension forwarded = Some m
    /\ pb_len m = str_len bytes /\ pb_computed_md5 m = md5_compute bytes
    /\ pb_computed_crc64nvme m = crc64nvme bytes
    /\ pb_supplied_crc64nvme m = parse_crc64nvme_header (rq_headers request)
    /\ (pb_sdk_checksum_algorithm m = SdkInvalid <->
        (1 < length (get_all "x-amz-sdk-checksum-algorithm" (rq_headers request)))%nat).
Proof.
  unfold reconstruct_put_body. destruct (to_bytes _ _) as [bytes|]; [|done].
  destruct (Z.leb_spec (str_len bytes) MAX_CORS_CONFIGURATION_BYTES); [|done].
  destruct (bridge_sdk_checksum_algorithm _) as [sdk headers] eqn:Eb. intros [= <-].
  do 2 eexists. do 7 (split; [done|]). cbn [pb_supplied_crc64nvme pb_sdk_checksum_algorithm].
  unfold bridge_sdk_checksum_algorithm in Eb. injection Eb as <- <-. unfold parse_crc64nvme_header.
  assert (forall n v h, n <> "x-amz-checksum-crc64nvme" ->
    get_all "x-amz-checksum-crc64nvme" (header_insert n v h) = get_all "x-amz-checksum-crc64nvme" h) as Hi
    by (intros n v h Hn; by rewrite get_all_insert, decide_False by congruence).
  assert (get_all "x-amz-checksum-crc64nvme" (delete "x-amz-checksum-algorithm" (rq_headers request))
          = get_all "x-amz-checksum-crc64nvme" (rq_headers request)) as Hdel
    by (unfold get_all; by rewrite lookup_delete_ne).
  destruct (get_all "x-amz-sdk-checksum-algorithm" _) as [|v [|]]; rewrite ?Hi, Hdel by done; simpl;
    (split; [done|]); split; done || lia.
Qed.

Lemma check_crc64nvme_bad m supplied :
  pb_supplied_crc64nvme m = CrcValue supplied -> supplied <> pb_computed_crc64nvme m ->
  check_crc64nvme (Some "CRC64NVME") m = Err BadCorsDigest.
Proof. intros Hs Hne. unfold check_crc64nvme. rewrite Hs. simpl. by destruct (String.eqb_spec supplied (pb_computed_crc64nvme m)). Qed.

(** C39: A [PutBucketCors] body changed in transit inside a window of at most eight bytes is refused: when
    the checksum header carries the CRC-64/NVME of the original body, the request that the CORS layer
    forwards fails in the handler with a bad digest and nothing is stored, whatever the database. *)
Theorem tampered_body_refused (request forwarded : Request) (now : Z) (seen db : CorsDb)
    (input : PutBucketCorsInput) (value before original received after : string)
    (Hbody : to_bytes (rq_body request) (MAX_CORS_CONFIGURATION_BYTES + 1) = Some (before +:+ received +:+ after))
    (Hlen : String.length original = String.length received) (Hwindow : (String.length original <= 8)%nat)
    (Hchanged : original <> received)
    (Hheader : get_all "x-amz-checksum-crc64nvme" (rq_headers request) = [value])
    (Htext : is_Some (header_value_to_str value))
    (Hvalue : base64_decode value = Some (crc64nvme (before +:+ original +:+ after)))
    (Hsdk : (length (get_all "x-amz-sdk-checksum-algorithm" (rq_headers request)) <= 1)%nat)
    (Hforward : reconstruct_put_body request = Ok forwarded)
    (Halgorithm : pi_checksum_algorithm input = Some "CRC64NVME")
    (Howner : owner_accepts (pi_bucket input) (pi_expected_bucket_owner input) seen) :
  put_bucket_cors now seen input (rq_extension forwarded) db = Err BadCorsDigest.
Proof.
  apply reconstruct_put_body_ok in Hforward as (bytes & m & Hb & Hl & _ & -> & Hpl & _ & Hcrc & Hsup & Hinv).
  assert (bytes = before +:+ received +:+ after) as -> by congruence.
  assert (pb_supplied_crc64nvme m = CrcValue (crc64nvme (before +:+ original +:+ after))) as Hs.
  { rewrite Hsup. unfold parse_crc64nvme_header. rewrite Hheader, (bool_decide_eq_true_2 _ eq_refl).
    destruct Htext as [? ->]. cbn [negb orb is_none]. rewrite Hvalue. cbn [mbind option_bind]. unfold to_array. by rewrite crc64nvme_length. }
  destruct Howner as (owner & Ho & Hacc).
  unfold put_bucket_cors, t_bind, t_lift, put_bucket_cors_document, load_bucket_and_verify_owner.
  rewrite Ho. cbn [ok_or rbind]. rewrite (proj2 (verify_expected_owner_ok owner _ tt)) by done. cbn [rbind].
  rewrite Hpl, (proj2 (Z.ltb_ge _ _) Hl), Halgorithm. cbn [is_none]. rewrite andb_false_r. cbn [andb].
  rewrite (check_crc64nvme_bad m _ Hs) by (rewrite Hcrc; by apply crc64nvme_detects_burst).
  destruct (pb_sdk_checksum_algorithm m); [done..|]. by destruct (proj1 Hinv eq_refl); lia.
Qed.
End system.
