(* ===== verification/LifecycleActions.v ===== *)
(** * Queued lifecycle actions ([src/store/lifecycle_action.rs])

    The durable queue between the lifecycle scanner and its workers: insertion under an idempotency
    key, claims with an epoch and a lease, renewal, completion, retries, dependencies, and the
    decoding of a stored target.  The tables of imports are those of [ImportDb]: a worker's lease
    carries the mutation ticket of its key along.  Times of actions are nanoseconds, those of tickets
    microseconds. *)

From Stdlib Require Import ZArith Lia Ascii.
From Stdlib Require String.
From stdpp Require Import base list strings pretty gmap.
From S2P Require Import Prelude Bytes Errors Chrono VersionModel LifecycleModel Database Transaction.
From S2P Require Import ImportDb ImportJobs Ownership.

#[local] Open Scope string_scope.
#[local] Open Scope list_scope.
#[local] Open Scope Z_scope.
#[local] Open Scope rust_scope.

Definition MAX_LIFECYCLE_ACTION_ATTEMPTS : Z := 8.
Definition MAX_LIFECYCLE_ACTION_CLAIM_LIMIT : Z := 1000.
Definition MAX_LIFECYCLE_ACTION_LEASE_SECONDS : Z := 86400.
Definition FAILURE_DATABASE_CONTENTION : string := "database_contention".
Definition FAILURE_ADMISSION_TEMPORARILY_UNAVAILABLE : string := "admission_temporarily_unavailable".
Definition FAILURE_INTERNAL_DEPENDENCY : string := "internal_dependency".
Definition FAILURE_CANCELLED_STALE : string := "cancelled_stale".
Definition TRANSITION_SETTLEMENT_REQUIRED : string := "transition_settlement_required".
Definition WAITING_FOR_TRANSITION : string := "waiting_for_transition".
Definition WAITING_FOR_MUTATION : string := "waiting_for_mutation".
Definition TRANSITION_RECHECK_SECONDS : Z := 30.
Definition REDACTED_LIFECYCLE_ACTION_ERROR : string := "lifecycle action failed".

Definition STATE_PENDING : string := "pending".
Definition STATE_CLAIMED : string := "claimed".
Definition STATE_SUCCEEDED : string := "succeeded".
Definition STATE_CANCELLED : string := "cancelled".
Definition STATE_FAILED_SAFE : string := "failed_safe".

(** ** Tables *)

(** The columns of [lifecycle_actions] that no update touches; the [id] is the key of the table. *)
Record ActionColumns : Type := {
  ac_idempotency_key : string;
  ac_bucket : string;
  ac_object_key : string;
  ac_config_revision : Z;
  ac_rule_id : string;
  ac_action_kind : string;
  ac_target_type : string;
  ac_target_version_row_id : option string;
  ac_target_public_version_id : option string;
  ac_target_object_id : option string;
  ac_target_sequence : option Z;
  ac_target_upload_id : option string;
  ac_target_upload_created_at : option Z;
  ac_due_at : Z;
  ac_created_at : Z
}.

Record LifecycleAction : Type := {
  la_columns : ActionColumns;
  la_state : string;
  la_attempts : Z;
  la_next_attempt_at : Z;
  la_claim_epoch : Z;
  la_lease_until : option Z;
  la_claimed_by : option string;
  la_failure_class : option string;
  la_last_error_redacted : option string;
  la_updated_at : Z;
  la_finished_at : option Z
}.

#[export] Instance ActionColumns_eq_dec : EqDecision ActionColumns.
Proof. solve_decision. Defined.
#[export] Instance LifecycleAction_eq_dec : EqDecision LifecycleAction.
Proof. solve_decision. Defined.

(** The columns of [lifecycle_transitions] that a trigger keeps from being updated *)
Record SagaSnapshot : Type := {
  ss_action_kind : string;
  ss_bucket : string;
  ss_object_key : string;
  ss_config_revision : Z;
  ss_rule_id : string;
  ss_target_version_row_id : string;
  ss_target_public_version_id : string;
  ss_target_object_id : string;
  ss_target_sequence : Z;
  ss_source_tier : string;
  ss_destination_tier : string;
  ss_source_cid : string;
  ss_destination_cid : string;
  ss_source_residency_revision : Z;
  ss_expected_source_node_identity : string;
  ss_expected_destination_node_identity : string;
  ss_ownership_generation : Z
}.

(** A row of [lifecycle_transitions]; its action, which is unique, is the key of the table. *)
Record TransitionSaga : Type := {
  ts_id : string;
  ts_snapshot : SagaSnapshot;
  ts_checkpoint : string;
  ts_verification_receipt : option string;
  ts_publication_receipt : option string;
  ts_settlement_kind : option string;
  ts_created_at : Z;
  ts_updated_at : Z;
  ts_completed_at : option Z
}.

Record LifecycleDb : Type := {
  ld_imports : ImportDb;
  ld_actions : gmap string LifecycleAction;
  ld_sagas : gmap string TransitionSaga
}.

Definition set_actions f (db : LifecycleDb) : LifecycleDb :=
  {| ld_imports := ld_imports db; ld_actions := f (ld_actions db); ld_sagas := ld_sagas db |}.

(** The [CHECK]s of [lifecycle_actions] *)
Definition action_check (a : LifecycleAction) : Prop :=
  let c := la_columns a in
  0 < ac_config_revision c
  /\ (ac_action_kind c ∈ ["expire_current"; "expire_noncurrent"; "delete_expired_marker";
        "abort_incomplete_multipart_upload"; "transition_current"; "transition_noncurrent"])
  /\ nonneg_or_null (ac_target_sequence c)
  /\ ((ac_target_type c = "version" /\ is_Some (ac_target_version_row_id c)
       /\ is_Some (ac_target_public_version_id c) /\ is_Some (ac_target_sequence c)
       /\ ac_target_upload_id c = None /\ ac_target_upload_created_at c = None)
      \/ (ac_target_type c = "multipart_upload" /\ ac_target_version_row_id c = None
          /\ ac_target_public_version_id c = None /\ ac_target_object_id c = None
          /\ ac_target_sequence c = None /\ is_Some (ac_target_upload_id c)
          /\ is_Some (ac_target_upload_created_at c)))
  /\ (((ac_action_kind c ∈ ["expire_current"; "expire_noncurrent"; "delete_expired_marker"])
       /\ ac_target_type c = "version")
      \/ (ac_action_kind c = "abort_incomplete_multipart_upload" /\ ac_target_type c = "multipart_upload")
      \/ ((ac_action_kind c ∈ ["transition_current"; "transition_noncurrent"]) /\ ac_target_type c = "version"
          /\ ac_target_version_row_id c <> Some EmptyString /\ ac_target_public_version_id c <> Some EmptyString
          /\ is_Some (ac_target_object_id c) /\ ac_target_object_id c <> Some EmptyString))
  /\ (la_state a ∈ [STATE_PENDING; STATE_CLAIMED; STATE_SUCCEEDED; STATE_CANCELLED; STATE_FAILED_SAFE])
  /\ 0 <= la_attempts a /\ 0 <= la_claim_epoch a
  /\ ((la_state a = STATE_CLAIMED /\ is_Some (la_lease_until a) /\ is_Some (la_claimed_by a))
      \/ (la_state a <> STATE_CLAIMED /\ la_lease_until a = None /\ la_claimed_by a = None))
  /\ (((la_state a ∈ [STATE_SUCCEEDED; STATE_CANCELLED; STATE_FAILED_SAFE]) /\ is_Some (la_finished_at a))
      \/ ((la_state a ∈ [STATE_PENDING; STATE_CLAIMED]) /\ la_finished_at a = None)).

(** The constraints of the table: checks, the unique key and the foreign key to the bucket *)
Definition action_constraints (db : LifecycleDb) : Prop :=
  map_Forall (fun _ => action_check) (ld_actions db)
  /\ map_Forall (fun _ a => ac_bucket (la_columns a) ∈ im_buckets (ld_imports db)) (ld_actions db)
  /\ map_Forall (fun i a => map_Forall (fun j b =>
       ac_idempotency_key (la_columns a) = ac_idempotency_key (la_columns b) -> i = j) (ld_actions db)) (ld_actions db).

#[export] Instance action_check_dec a : Decision (action_check a).
Proof. unfold action_check. cbv zeta. apply _. Defined.
#[export] Instance action_constraints_dec db : Decision (action_constraints db).
Proof. unfold action_constraints. apply _. Defined.

(** ** Statements *)

Abbreviation LTx := (Txn LifecycleDb).
Abbreviation l_exec := (t_exec action_constraints).

(** A statement on the tables of imports, in the same transaction *)
Definition on_imports {A} (m : ITx A) : LTx A := fun db =>
  let? '(a, imports) := m (ld_imports db) in
  Ok (a, {| ld_imports := imports; ld_actions := ld_actions db; ld_sagas := ld_sagas db |}).

(** [UPDATE .. WHERE id AND p], and whether a row was affected *)
Definition update_action (id : string) (p : LifecycleDb -> LifecycleAction -> bool)
    (f : LifecycleAction -> LifecycleAction) : LTx bool :=
  let* row := t_reads (fun db => a ← ld_actions db !! id; if p db a then Some a else None) in
  match row with
  | Some a => let* _ := l_exec (set_actions <[id := f a]>) in t_ret true
  | None => t_ret false
  end.

(** ** Identity of an action *)

Record CanonicalVersionActionIdempotency : Type := {
  cv_bucket : string; cv_config_revision : Z; cv_rule_identity : string; cv_action_kind : string;
  cv_target_version_row_id : string; cv_target_public_version_id : string;
  cv_target_object_id : option string; cv_target_sequence : Z; cv_due_at : string }.

Record CanonicalMultipartActionIdempotency : Type := {
  cm_bucket : string; cm_config_revision : Z; cm_rule_identity : string; cm_action_kind : string;
  cm_target_upload_id : string; cm_target_upload_created_at : string; cm_due_at : string }.

(** [serde_json::to_vec] at the two records, [hex::encode(Sha256::digest(_))], and
    [to_rfc3339_opts(SecondsFormat::Nanos, true)] *)
Class ActionCodec := {
  version_action_json : CanonicalVersionActionIdempotency -> option string;
  multipart_action_json : CanonicalMultipartActionIdempotency -> option string;
  sha256_hex : string -> string;
  to_rfc3339_nanos : Z -> string
}.

Definition persisted_rule_identity (rule_identity : RuleIdentity) : string :=
  match rule_identity with
  | RuleId id => "id:" +:+ id
  | RuleOrdinal ordinal => "ordinal:" +:+ pretty ordinal
  end.

Definition persisted_action_kind (action_kind : LifecycleActionKind) : string :=
  match action_kind with
  | ExpireCurrent => "expire_current"
  | ExpireNoncurrent => "expire_noncurrent"
  | TransitionCurrent => "transition_current"
  | TransitionNoncurrent => "transition_noncurrent"
  | DeleteExpiredMarker => "delete_expired_marker"
  | AbortIncompleteMultipartUpload => "abort_incomplete_multipart_upload"
  end.

Definition action_kind_from_db (value : string) : AppResult LifecycleActionKind :=
  if String.eqb value "expire_current" then Ok ExpireCurrent
  else if String.eqb value "expire_noncurrent" then Ok ExpireNoncurrent
  else if String.eqb value "transition_current" then Ok TransitionCurrent
  else if String.eqb value "transition_noncurrent" then Ok TransitionNoncurrent
  else if String.eqb value "delete_expired_marker" then Ok DeleteExpiredMarker
  else if String.eqb value "abort_incomplete_multipart_upload" then Ok AbortIncompleteMultipartUpload
  else Err (Internal "invalid lifecycle action kind").

Definition invalid_action_identity : AppError := InvalidArgument "invalid lifecycle action target identity".

Definition validate_target (target : VersionTargetIdentity) : AppResult unit :=
  match vt_kind target, vt_object_id target with
  | KObject, Some object_id =>
    if negb (str_is_empty object_id) then Ok tt
    else Err (InvalidArgument "lifecycle action target kind and object ID are inconsistent")
  | KDeleteMarker, None => Ok tt
  | _, _ => Err (InvalidArgument "lifecycle action target kind and object ID are inconsistent")
  end.

Definition is_transition_kind (kind : LifecycleActionKind) : bool :=
  match kind with TransitionCurrent | TransitionNoncurrent => true | _ => false end.

Definition validate_action_identity (action : NewLifecycleAction) : AppResult unit :=
  bail_if str_is_empty (act_bucket action) || (act_config_revision action <=? 0)
  with invalid_action_identity else
  match act_target action, act_kind action with
  | TargetVersion target, (ExpireCurrent | ExpireNoncurrent | TransitionCurrent | TransitionNoncurrent
                           | DeleteExpiredMarker) as kind =>
    bail_if negb (String.eqb (vt_bucket target) (act_bucket action)) || str_is_empty (vt_key target)
            || str_is_empty (vt_version_row_id target) || (vt_sequence target <? 0)
    with invalid_action_identity else
    let? _ := validate_target target in
    bail_if is_transition_kind kind && negb (bool_decide (vt_kind target = KObject))
    with InvalidArgument "lifecycle transition target must be a content version" else
    bail_if str_is_empty (as_s3_str (vt_public_version_id target))
    with InvalidArgument "lifecycle action public version ID must not be empty" else
    Ok tt
  | TargetMultipart target, AbortIncompleteMultipartUpload =>
    if String.eqb (mt_bucket target) (act_bucket action) && negb (str_is_empty (mt_key target))
       && negb (str_is_empty (mt_upload_id target))
    then Ok tt else Err invalid_action_identity
  | _, _ => Err invalid_action_identity
  end.

Section identity.
Context `{ActionCodec}.

Definition canonical_action_bytes (action : NewLifecycleAction) : AppResult string :=
  let? _ := validate_action_identity action in
  let rule_id := persisted_rule_identity (act_rule_identity action) in
  let action_kind := persisted_action_kind (act_kind action) in
  ok_or (Internal "failed to serialize lifecycle action idempotency identity")
    match act_target action with
    | TargetVersion target =>
      version_action_json
        {| cv_bucket := act_bucket action; cv_config_revision := act_config_revision action;
           cv_rule_identity := rule_id; cv_action_kind := action_kind;
           cv_target_version_row_id := vt_version_row_id target;
           cv_target_public_version_id := as_s3_str (vt_public_version_id target);
           cv_target_object_id := vt_object_id target; cv_target_sequence := vt_sequence target;
           cv_due_at := to_rfc3339_nanos (act_due_at action) |}
    | TargetMultipart target =>
      multipart_action_json
        {| cm_bucket := act_bucket action; cm_config_revision := act_config_revision action;
           cm_rule_identity := rule_id; cm_action_kind := action_kind;
           cm_target_upload_id := mt_upload_id target;
           cm_target_upload_created_at := to_rfc3339_nanos (mt_initiated_at target);
           cm_due_at := to_rfc3339_nanos (act_due_at action) |}
    end.

(** The idempotency key, rule and kind that are stored *)
Definition validate_action (action : NewLifecycleAction) : AppResult (string * string * string) :=
  let? _ := validate_action_identity action in
  let? bytes := canonical_action_bytes action in
  Ok (sha256_hex bytes, persisted_rule_identity (act_rule_identity action), persisted_action_kind (act_kind action)).

Definition idempotency_key (action : NewLifecycleAction) : AppResult string :=
  let? validated := validate_action action in Ok validated.1.1.

(** The row [insert_idempotent] writes *)
Definition new_action (action : NewLifecycleAction) (validated : string * string * string) (now : Z)
  : LifecycleAction :=
  {| la_columns :=
       match act_target action with
       | TargetVersion target =>
         {| ac_idempotency_key := validated.1.1; ac_bucket := act_bucket action; ac_object_key := vt_key target;
            ac_config_revision := act_config_revision action; ac_rule_id := validated.1.2;
            ac_action_kind := validated.2; ac_target_type := "version";
            ac_target_version_row_id := Some (vt_version_row_id target);
            ac_target_public_version_id := Some (as_s3_str (vt_public_version_id target));
            ac_target_object_id := vt_object_id target; ac_target_sequence := Some (vt_sequence target);
            ac_target_upload_id := None; ac_target_upload_created_at := None;
            ac_due_at := act_due_at action; ac_created_at := now |}
       | TargetMultipart target =>
         {| ac_idempotency_key := validated.1.1; ac_bucket := act_bucket action; ac_object_key := mt_key target;
            ac_config_revision := act_config_revision action; ac_rule_id := validated.1.2;
            ac_action_kind := validated.2; ac_target_type := "multipart_upload";
            ac_target_version_row_id := None; ac_target_public_version_id := None; ac_target_object_id := None;
            ac_target_sequence := None; ac_target_upload_id := Some (mt_upload_id target);
            ac_target_upload_created_at := Some (mt_initiated_at target);
            ac_due_at := act_due_at action; ac_created_at := now |}
       end;
     la_state := STATE_PENDING; la_attempts := 0; la_next_attempt_at := now; la_claim_epoch := 0;
     la_lease_until := None; la_claimed_by := None; la_failure_class := None; la_last_error_redacted := None;
     la_updated_at := now; la_finished_at := None |}.

(** [id] is the fresh [Uuid::new_v4()]; a row with the same idempotency key makes the insertion a
    no-op, any other conflict is an error. *)
Definition insert_idempotent (id : string) (action : NewLifecycleAction) (now : Z) : LTx bool :=
  let* validated := t_lift (validate_action action) in
  stop_if negb (str_is_empty (act_idempotency_key action))
          && negb (String.eqb (act_idempotency_key action) validated.1.1)
  with InvalidArgument "lifecycle action idempotency key does not match its canonical identity" else
  let* replay := t_reads (fun db => bool_decide (map_Exists (fun _ a =>
                   ac_idempotency_key (la_columns a) = validated.1.1) (ld_actions db))) in
  if replay then t_ret false
  else
    let* taken := t_reads (fun db => is_some (ld_actions db !! id)) in
    stop_if taken with constraint_failed else
    let* _ := l_exec (set_actions <[id := new_action action validated now]>) in
    t_ret true.
End identity.

(** ** Decoding a stored target *)

Definition invalid_persisted_action_identity : AppError := Internal "invalid lifecycle action identity".

Definition nonempty_column (o : option string) : AppResult string :=
  ok_or invalid_persisted_action_identity (v ← o; if str_is_empty v then None else Some v).

Definition stored_kind (kind : LifecycleActionKind) (c : ActionColumns) : AppResult VersionKind :=
  match kind with
  | ExpireCurrent | TransitionCurrent | TransitionNoncurrent => Ok KObject
  | DeleteExpiredMarker => Ok KDeleteMarker
  | ExpireNoncurrent => Ok (if is_some (ac_target_object_id c) then KObject else KDeleteMarker)
  | AbortIncompleteMultipartUpload => Err invalid_persisted_action_identity
  end.

Definition target_from_action `{Uuid} (c : ActionColumns) : AppResult LifecycleTargetIdentity :=
  bail_if str_is_empty (ac_bucket c) || str_is_empty (ac_object_key c) || (ac_config_revision c <=? 0)
  with invalid_persisted_action_identity else
  let? action_kind := action_kind_from_db (ac_action_kind c) in
  if String.eqb (ac_target_type c) "version" then
    bail_if bool_decide (action_kind = AbortIncompleteMultipartUpload) || is_some (ac_target_upload_id c)
            || is_some (ac_target_upload_created_at c)
    with invalid_persisted_action_identity else
    let? version_row_id := nonempty_column (ac_target_version_row_id c) in
    let? public_version_id := nonempty_column (ac_target_public_version_id c) in
    let? sequence := ok_or invalid_persisted_action_identity
                       (s ← ac_target_sequence c; if 0 <=? s then Some s else None) in
    let? kind := stored_kind action_kind c in
    let? public_version_id := map_err (fun _ => invalid_persisted_action_identity) (parse_s3 public_version_id) in
    bail_if negb (eqb (bool_decide (kind = KObject)) (is_some (ac_target_object_id c)))
    with invalid_persisted_action_identity else
    Ok (TargetVersion {| vt_bucket := ac_bucket c; vt_key := ac_object_key c; vt_version_row_id := version_row_id;
          vt_public_version_id := public_version_id; vt_kind := kind; vt_object_id := ac_target_object_id c;
          vt_sequence := sequence |})
  else if String.eqb (ac_target_type c) "multipart_upload" then
    bail_if negb (bool_decide (action_kind = AbortIncompleteMultipartUpload))
            || is_some (ac_target_version_row_id c) || is_some (ac_target_public_version_id c)
            || is_some (ac_target_object_id c) || is_some (ac_target_sequence c)
    with invalid_persisted_action_identity else
    let? upload_id := nonempty_column (ac_target_upload_id c) in
    let? initiated_at := ok_or invalid_persisted_action_identity (ac_target_upload_created_at c) in
    Ok (TargetMultipart {| mt_bucket := ac_bucket c; mt_key := ac_object_key c; mt_upload_id := upload_id;
                           mt_initiated_at := initiated_at |})
  else Err invalid_persisted_action_identity.

(** ** Claims *)

Record ClaimedLifecycleAction : Type := {
  cl_id : string; cl_action : LifecycleAction; cl_claim_epoch : Z; cl_worker_id : string }.

Definition seconds_ns (n : Z) : Z := n * second_ns.

(** [s.trim().is_empty()]: only white space *)
Fixpoint whitespace_only (s : string) : bool :=
  match s with
  | EmptyString => true
  | String c s1 =>
    let n := N_of_ascii c in
    whitespace_at s
    && (if (n <? 128)%N then whitespace_only s1
        else match s1 with
             | String _ s2 =>
               if (n =? 194)%N then whitespace_only s2
               else match s2 with String _ s3 => whitespace_only s3 | EmptyString => false end
             | EmptyString => false
             end)
  end.

Definition validate_lease_duration (lease_for : Z) : AppResult unit :=
  bail_if (lease_for <=? 0) || (seconds_ns MAX_LIFECYCLE_ACTION_LEASE_SECONDS <? lease_for)
  with InvalidArgument ("lifecycle action lease must be between 1 second and "
         +:+ pretty MAX_LIFECYCLE_ACTION_LEASE_SECONDS +:+ " seconds") else Ok tt.

Definition validate_claim_request (worker_id : string) (lease_for limit : Z) : AppResult unit :=
  bail_if whitespace_only worker_id with InvalidArgument "lifecycle worker ID must not be empty" else
  let? _ := validate_lease_duration lease_for in
  bail_if (limit =? 0) || (MAX_LIFECYCLE_ACTION_CLAIM_LIMIT <? limit)
  with InvalidArgument ("lifecycle action claim limit must be between 1 and "
         +:+ pretty MAX_LIFECYCLE_ACTION_CLAIM_LIMIT) else Ok tt.

Definition is_allowed_failure_class (failure_class : string) : bool :=
  bool_decide (failure_class ∈ [FAILURE_DATABASE_CONTENTION; FAILURE_ADMISSION_TEMPORARILY_UNAVAILABLE;
                                FAILURE_INTERNAL_DEPENDENCY; FAILURE_CANCELLED_STALE]).

Definition validate_failure_class (failure_class : string) : AppResult unit :=
  if is_allowed_failure_class failure_class then Ok tt
  else Err (InvalidArgument "invalid lifecycle action failure class").

Definition is_transition_action (a : LifecycleAction) : bool :=
  bool_decide (ac_action_kind (la_columns a) ∈ ["transition_current"; "transition_noncurrent"]).

Definition waiting_for_transition (a : LifecycleAction) : bool :=
  String.eqb (ac_action_kind (la_columns a)) "expire_current"
  && bool_decide (la_failure_class a = Some WAITING_FOR_TRANSITION).

Definition waiting_for_dependency (a : LifecycleAction) : bool :=
  waiting_for_transition a
  || String.eqb (ac_target_type (la_columns a)) "version"
     && bool_decide (la_failure_class a = Some WAITING_FOR_MUTATION).

Definition one_if (b : bool) : Z := if b then 1 else 0.

(** [i64::saturating_sub] and [i64::saturating_add] *)
Definition i64_saturating_sub (a b : Z) : Z := Z.max i64_min (Z.min i64_max (a - b)).
Definition i64_saturating_add (a b : Z) : Z := Z.max i64_min (Z.min i64_max (a + b)).

Definition consumed_attempts (a : LifecycleAction) : Z :=
  i64_saturating_sub (la_attempts a) (one_if (negb (waiting_for_dependency a))).

(** The conditions of [UPDATE]s and queries *)

Definition active_action_claim (claim : ClaimedLifecycleAction) (a : LifecycleAction) : bool :=
  String.eqb (la_state a) STATE_CLAIMED && bool_decide (la_claimed_by a = Some (cl_worker_id claim))
  && (la_claim_epoch a =? cl_claim_epoch claim).

Definition lease_after (now : Z) (a : LifecycleAction) : bool := is_some_and (fun until => now <? until) (la_lease_until a).

Definition unfinished_transition_saga_exists (id : string) (db : LifecycleDb) : bool :=
  is_some_and (fun saga => is_none (ts_settlement_kind saga) && is_none (ts_completed_at saga)) (ld_sagas db !! id).

Definition due_action (now : Z) (id : string) (db : LifecycleDb) (a : LifecycleAction) : bool :=
  (String.eqb (la_state a) STATE_PENDING && (la_next_attempt_at a <=? now) && (ac_due_at (la_columns a) <=? now))
  || (String.eqb (la_state a) STATE_CLAIMED && is_some_and (fun until => until <=? now) (la_lease_until a)
      && (negb (bool_decide (la_last_error_redacted a = Some TRANSITION_SETTLEMENT_REQUIRED))
          || unfinished_transition_saga_exists id db))
  || (String.eqb (la_state a) STATE_FAILED_SAFE && is_transition_action a && unfinished_transition_saga_exists id db).

Inductive TransitionSagaState : Type := SagaNone | SagaOutstanding | SagaPublished.
#[export] Instance TransitionSagaState_eq_dec : EqDecision TransitionSagaState.
Proof. solve_decision. Defined.

Definition transition_saga_state (action_id : string) (db : LifecycleDb) : TransitionSagaState :=
  match ld_sagas db !! action_id with
  | None => SagaNone
  | Some saga =>
    if is_none (ts_settlement_kind saga) && is_none (ts_completed_at saga) then
      if is_some (ts_publication_receipt saga) && bool_decide (ts_checkpoint saga ∈ ["publish"; "cleanup"])
      then SagaPublished else SagaOutstanding
    else SagaNone
  end.

(** ** A worker's claim *)

(** [lock_bucket_for_ownership], telling a missing bucket apart *)
Definition bucket_locked (bucket : string) : LTx bool := fun db =>
  match on_imports (lock_bucket_for_ownership bucket) db with
  | Ok (_, db) => Ok (true, db)
  | Err (NoSuchBucket _) => Ok (false, db)
  | Err e => Err e
  end.

Definition lock_claim_for_execution (claim : ClaimedLifecycleAction) (now : Z) : LTx (option LifecycleAction) :=
  let* locked := bucket_locked (ac_bucket (la_columns (cl_action claim))) in
  if negb locked then t_ret None
  else
    let* action := t_reads (fun db => a ← ld_actions db !! cl_id claim;
                                      if active_action_claim claim a then Some a else None) in
    t_ret (a ← action; if lease_after now a then Some a else None).

Definition with_lease (lease_until now : Z) (a : LifecycleAction) : LifecycleAction :=
  {| la_columns := la_columns a; la_state := la_state a; la_attempts := la_attempts a;
     la_next_attempt_at := la_next_attempt_at a; la_claim_epoch := la_claim_epoch a;
     la_lease_until := Some lease_until; la_claimed_by := la_claimed_by a;
     la_failure_class := la_failure_class a; la_last_error_redacted := la_last_error_redacted a;
     la_updated_at := now; la_finished_at := la_finished_at a |}.

(** Back to the queue *)
Definition requeued (attempts next_attempt_at : Z) (failure_class last_error : option string) (now : Z)
    (finished_at : option Z) (a : LifecycleAction) : LifecycleAction :=
  {| la_columns := la_columns a; la_state := STATE_PENDING; la_attempts := attempts;
     la_next_attempt_at := next_attempt_at; la_claim_epoch := la_claim_epoch a;
     la_lease_until := None; la_claimed_by := None; la_failure_class := failure_class;
     la_last_error_redacted := last_error; la_updated_at := now; la_finished_at := finished_at |}.

(** Finished *)
Definition finished (state : string) (failure_class last_error : option string) (now : Z)
    (a : LifecycleAction) : LifecycleAction :=
  {| la_columns := la_columns a; la_state := state; la_attempts := la_attempts a;
     la_next_attempt_at := la_next_attempt_at a; la_claim_epoch := la_claim_epoch a;
     la_lease_until := None; la_claimed_by := None; la_failure_class := failure_class;
     la_last_error_redacted := last_error; la_updated_at := now; la_finished_at := Some now |}.

Section queue.
Context `{Chrono}.

Definition lease_out_of_range : AppError :=
  InvalidArgument "lifecycle action lease is outside the database timestamp range".

(** [c1] and [c2] are the clocks of the ticket's renewal. *)
Definition renew_action_claim (claim : ClaimedLifecycleAction) (lease_for now1 now2 c1 c2 : Z) : LTx bool :=
  let* _ := t_lift (validate_lease_duration lease_for) in
  let* locked := lock_claim_for_execution claim now1 in
  match locked with
  | None => t_ret false
  | Some _ =>
    let* lease_until := t_some lease_out_of_range (checked_add_signed now2 lease_for) in
    let* updated := update_action (cl_id claim) (fun _ a => active_action_claim claim a && lease_after now2 a)
                      (with_lease lease_until now2) in
    let columns := la_columns (cl_action claim) in
    let* _ := if updated && String.eqb (ac_target_type columns) "version"
              then on_imports (renew_lifecycle_mutation_in_transaction (ac_bucket columns) (ac_object_key columns)
                     (cl_id claim) (cl_claim_epoch claim) c1 c2)
              else t_ret tt in
    t_ret updated
  end.

Definition mark_succeeded (claim : ClaimedLifecycleAction) (now : Z) : LTx bool :=
  update_action (cl_id claim) (fun _ => active_action_claim claim) (finished STATE_SUCCEEDED None None now).

Definition terminal_failure_update (claim : ClaimedLifecycleAction) (now : Z) (terminal_state failure_class : string)
  : LTx bool :=
  let* _ := t_lift (validate_failure_class failure_class) in
  update_action (cl_id claim) (fun _ => active_action_claim claim)
    (finished terminal_state (Some failure_class) (Some REDACTED_LIFECYCLE_ACTION_ERROR) now).

Definition mark_cancelled (claim : ClaimedLifecycleAction) (now : Z) (failure_class : string) : LTx bool :=
  terminal_failure_update claim now STATE_CANCELLED failure_class.

Definition with_last_error (diagnostic : string) (a : LifecycleAction) : LifecycleAction :=
  {| la_columns := la_columns a; la_state := la_state a; la_attempts := la_attempts a;
     la_next_attempt_at := la_next_attempt_at a; la_claim_epoch := la_claim_epoch a;
     la_lease_until := la_lease_until a; la_claimed_by := la_claimed_by a;
     la_failure_class := la_failure_class a; la_last_error_redacted := Some diagnostic;
     la_updated_at := la_updated_at a; la_finished_at := la_finished_at a |}.

(** The diagnosis of an action that was just cancelled ([src/store/lifecycle_transition.rs]) *)
Definition record_diagnostic (claim : ClaimedLifecycleAction) (diagnostic : string) : LTx bool :=
  update_action (cl_id claim)
    (fun _ a => (la_claim_epoch a =? cl_claim_epoch claim) && String.eqb (la_state a) STATE_CANCELLED)
    (with_last_error diagnostic).

Definition mark_failed_safe (claim : ClaimedLifecycleAction) (now : Z) (failure_class : string) : LTx bool :=
  terminal_failure_update claim now STATE_FAILED_SAFE failure_class.

(** [u32::try_from(x).unwrap_or(62).min(62)], and [checked_shl] of one by less than 64 bits *)
Definition retry_delay_secs (attempts base_backoff_secs max_backoff_secs : Z) : Z :=
  let index := Z.max (attempts - 1) 0 in
  let attempt_index := Z.min (if index <=? u32_max then index else 62) 62 in
  Z.min max_backoff_secs
    (u64_saturating_mul base_backoff_secs (if attempt_index <? 64 then Z.shiftl 1 attempt_index else u64_max)).

Definition retry_at (now attempts base_backoff_secs max_backoff_secs : Z) : AppResult Z :=
  let delay := retry_delay_secs attempts base_backoff_secs max_backoff_secs in
  bail_if i64_max <? delay with InvalidArgument "lifecycle retry delay is out of range" else
  ok_or (InvalidArgument "lifecycle retry time is outside the database range")
    (checked_add_signed now (seconds_ns delay)).

Definition schedule_retry (claim : ClaimedLifecycleAction) (now next_attempt_at : Z) (failure_class : string)
  : LTx bool :=
  let* _ := t_lift (validate_failure_class failure_class) in
  stop_if next_attempt_at <=? now
  with InvalidArgument "lifecycle retry must be scheduled after the database time" else
  update_action (cl_id claim) (fun _ => active_action_claim claim)
    (requeued (la_attempts (cl_action claim) + one_if (waiting_for_dependency (cl_action claim))) next_attempt_at
       (Some failure_class) (Some REDACTED_LIFECYCLE_ACTION_ERROR) now None).

(** ** Dependencies *)

Definition park_dependency_in_transaction (claim : ClaimedLifecycleAction) (action : LifecycleAction)
    (reason : string) (now : Z) : LTx bool :=
  update_action (cl_id claim) (fun _ a => active_action_claim claim a && lease_after now a)
    (fun a => requeued (consumed_attempts action) (now + seconds_ns TRANSITION_RECHECK_SECONDS)
                (Some reason) None now (la_finished_at a) a).

Definition wait_for_mutation_dependency (claim : ClaimedLifecycleAction) (max_attempts now1 now2 : Z) : LTx bool :=
  let* locked := lock_claim_for_execution claim now1 in
  match locked with
  | None => t_ret true
  | Some action =>
    if max_attempts <=? consumed_attempts action then t_ret false
    else let* _ := park_dependency_in_transaction claim action WAITING_FOR_MUTATION now2 in t_ret true
  end.

Definition wait_for_transition_in_transaction (claim : ClaimedLifecycleAction) (now1 now2 : Z) : LTx bool :=
  let* locked := lock_claim_for_execution claim now1 in
  match locked with
  | None => t_ret false
  | Some action =>
    stop_if negb (String.eqb (ac_action_kind (la_columns action)) "expire_current")
    with Internal "invalid transition dependency action" else
    park_dependency_in_transaction claim action WAITING_FOR_TRANSITION now2
  end.

Definition wait_for_hot_verification_in_transaction (claim : ClaimedLifecycleAction) (now1 now2 : Z) : LTx bool :=
  let* locked := lock_claim_for_execution claim now1 in
  match locked with
  | None => t_ret false
  | Some action =>
    stop_if negb (is_transition_action action) with Internal "invalid hot verification dependency action" else
    let* next_attempt_at := t_some (Internal "lifecycle transition recheck time is outside the database range")
                              (checked_add_signed now2 (seconds_ns TRANSITION_RECHECK_SECONDS)) in
    update_action (cl_id claim) (fun _ a => active_action_claim claim a && lease_after now2 a)
      (fun a => requeued (consumed_attempts action) next_attempt_at None None now2 (la_finished_at a) a)
  end.

(** ** Claiming due work *)

Definition due_candidates (now limit : Z) (db : LifecycleDb) : list (string * LifecycleAction) :=
  take (Z.to_nat limit)
    (sort_by (by_key (fun r : string * LifecycleAction => (ac_due_at (la_columns r.2), r.1)))
       (filter (fun r => due_action now r.1 db r.2 = true) (map_to_list (ld_actions db)))).

(** The filter of the compare-and-set on a candidate row *)
Definition unchanged_candidate (candidate : LifecycleAction) (now : Z) (id : string) (db : LifecycleDb)
    (a : LifecycleAction) : bool :=
  (la_attempts a =? la_attempts candidate) && (la_claim_epoch a =? la_claim_epoch candidate)
  && due_action now id db a.

(** The mutation ticket an exhausted action may still hold *)
Definition clear_exhausted_ticket (id : string) (candidate : LifecycleAction) (now : Z) : LTx unit :=
  let columns := la_columns candidate in
  if String.eqb (ac_target_type columns) "version" then
    let* _ := on_imports (lock_bucket_for_ownership (ac_bucket columns)) in
    if 0 <? la_claim_epoch candidate then
      let* _ := on_imports (clear_lifecycle_mutation_if_owned (ac_bucket columns) (ac_object_key columns) id
                              (la_claim_epoch candidate) (now / 1000)) in
      t_ret tt
    else t_ret tt
  else t_ret tt.

Definition fail_safe_exhausted (id : string) (candidate : LifecycleAction) (now : Z) : LTx unit :=
  let* _ := clear_exhausted_ticket id candidate now in
  let failure_class := default FAILURE_INTERNAL_DEPENDENCY
    (class ← la_failure_class candidate; if is_allowed_failure_class class then Some class else None) in
  let* _ := update_action id (unchanged_candidate candidate now id)
              (finished STATE_FAILED_SAFE (Some failure_class) (Some REDACTED_LIFECYCLE_ACTION_ERROR) now) in
  t_ret tt.

Definition claim_action_candidate (id : string) (candidate : LifecycleAction) (worker_id : string)
    (now lease_until : Z) : LTx (option ClaimedLifecycleAction) :=
  let settlement_recovery :=
    String.eqb (la_state candidate) STATE_FAILED_SAFE
    || bool_decide (la_last_error_redacted candidate = Some TRANSITION_SETTLEMENT_REQUIRED) in
  let attempts := i64_saturating_add (la_attempts candidate) (one_if (negb (waiting_for_dependency candidate))) in
  let* claim_epoch := t_some (Database "lifecycle action claim epoch overflow")
                        (i64_checked_add (la_claim_epoch candidate) 1) in
  let* updated := update_action id (unchanged_candidate candidate now id)
    (fun a => {| la_columns := la_columns a; la_state := STATE_CLAIMED; la_attempts := attempts;
                 la_next_attempt_at := la_next_attempt_at a; la_claim_epoch := claim_epoch;
                 la_lease_until := Some lease_until; la_claimed_by := Some worker_id;
                 la_failure_class := la_failure_class a;
                 la_last_error_redacted := if settlement_recovery then Some TRANSITION_SETTLEMENT_REQUIRED
                                           else la_last_error_redacted a;
                 la_updated_at := now; la_finished_at := None |}) in
  if negb updated then t_ret None
  else
    let* row := t_reads (fun db => ld_actions db !! id) in
    let* action := t_some (Internal "claimed lifecycle action disappeared") row in
    t_ret (Some {| cl_id := id; cl_action := action; cl_claim_epoch := la_claim_epoch action; cl_worker_id := worker_id |}).

(** The body of the claiming loop; [skipped] says which rows other transactions hold
    ([SKIP LOCKED]). *)
Definition claim_action_step (worker_id : string) (max_attempts now lease_until : Z) (skipped : string -> bool)
    (locked_buckets : list string) (row : string * LifecycleAction) : LTx (option ClaimedLifecycleAction) :=
  let id := row.1 in
  if negb (bool_decide (ac_bucket (la_columns row.2) ∈ locked_buckets)) then t_ret None
  else
    let* candidate := t_reads (fun db => a ← ld_actions db !! id;
                        if due_action now id db a && negb (skipped id) then Some a else None) in
    match candidate with
    | None => t_ret None
    | Some candidate =>
      let transition := is_transition_action candidate in
      let* transition_saga := if transition then t_reads (transition_saga_state id) else t_ret SagaNone in
      let published_cleanup := bool_decide (transition_saga = SagaPublished) in
      let final_saga_settlement :=
        bool_decide (transition_saga = SagaOutstanding) && (max_attempts <? la_attempts candidate) in
      let one_recovery_claim :=
        negb (waiting_for_dependency candidate) && (la_attempts candidate =? max_attempts)
        && (String.eqb (la_state candidate) STATE_CLAIMED || transition) in
      if (max_attempts <=? la_attempts candidate)
         && (negb one_recovery_claim && negb published_cleanup && negb final_saga_settlement)
      then let* _ := fail_safe_exhausted id candidate now in t_ret None
      else claim_action_candidate id candidate worker_id now lease_until
    end.

(** [for x in l { if let Some(y) = f(x)? { out.push(y); } }] *)
Fixpoint t_filter_map {S A B} (f : A -> Txn S (option B)) (l : list A) : Txn S (list B) :=
  match l with
  | [] => t_ret []
  | x :: l => t_bind (f x) (fun y => t_bind (t_filter_map f l) (fun ys => t_ret (option_list y ++ ys)))
  end.

(** The distinct buckets in order *)
Definition distinct_buckets (rows : list (string * LifecycleAction)) : list string :=
  sort_by (by_key id) (remove_dups ((fun r => ac_bucket (la_columns r.2)) <$> rows)).

Definition claim_due_in_transaction (worker_id : string) (lease_for max_attempts limit now1 now2 : Z)
    (skipped : string -> bool) : LTx (list ClaimedLifecycleAction) :=
  let* candidates := t_reads (due_candidates now1 limit) in
  let* locked := t_filter_map (fun bucket => let* ok := bucket_locked bucket in
                                             t_ret (if ok then Some bucket else None))
                   (distinct_buckets candidates) in
  let* lease_until := t_some lease_out_of_range (checked_add_signed now2 lease_for) in
  t_filter_map (claim_action_step worker_id max_attempts now2 lease_until skipped locked) candidates.

Definition claim_due_with_max_attempts (worker_id : string) (lease_for max_attempts limit now1 now2 : Z)
    (skipped : string -> bool) : LTx (list ClaimedLifecycleAction) :=
  let* _ := t_lift (validate_claim_request worker_id lease_for limit) in
  stop_if negb ((1 <=? max_attempts) && (max_attempts <=? MAX_LIFECYCLE_ACTION_ATTEMPTS))
  with InvalidArgument ("lifecycle max attempts must be in 1..=" +:+ pretty MAX_LIFECYCLE_ACTION_ATTEMPTS) else
  claim_due_in_transaction worker_id lease_for max_attempts limit now1 now2 skipped.

Definition claim_due_actions (worker_id : string) (lease_for limit now1 now2 : Z) (skipped : string -> bool)
  : LTx (list ClaimedLifecycleAction) :=
  claim_due_with_max_attempts worker_id lease_for MAX_LIFECYCLE_ACTION_ATTEMPTS limit now1 now2 skipped.
End queue.
