(* ===== verification/LifecycleQueue.v ===== *)
(** * The queue of lifecycle actions over time

    Histories of the queue of [LifecycleActions]: a claim is a token with an epoch, and the theorems
    say who may act on an action, what a finished action may become, and how often one is tried. *)

From Stdlib Require Import ZArith Lia Ascii.
From Stdlib Require String.
From stdpp Require Import base list strings pretty sorting gmap.
From S2P Require Import Prelude Bytes Errors Chrono VersionModel LifecycleModel Database Transaction.
From S2P Require Import ImportDb ImportJobs Ownership LifecycleActions.

#[local] Open Scope string_scope.
#[local] Open Scope list_scope.
#[local] Open Scope Z_scope.
#[local] Open Scope rust_scope.

(** ** Statements *)

Lemma update_action_ok id p f db b db' :
  update_action id p f db = Ok (b, db') <->
  (exists a, ld_actions db !! id = Some a /\ p db a = true /\ b = true
     /\ db' = set_actions <[id := f a]> db /\ action_constraints db')
  \/ ((forall a, ld_actions db !! id = Some a -> p db a = false) /\ b = false /\ db' = db).
Proof.
  unfold update_action. rewrite t_bind_ok. setoid_rewrite t_reads_ok. split.
  - intros (row & s1 & [-> ->] & E). destruct (ld_actions db !! id) as [a|] eqn:Ea; simpl in E.
    + destruct (p db a) eqn:Ep; t_inv E; [left; by exists a|right]. split; [|done]. by intros ? [= <-].
    + t_inv E. right. split; [done|done].
  - intros [(a & Ea & Ep & -> & -> & Hc)|(Hn & -> & ->)]; do 2 eexists; (split; [done|]).
    + rewrite Ea. simpl. rewrite Ep. apply t_bind_ok. exists tt, (set_actions <[id := f a]> db).
      split; [by apply t_exec_ok|done].
    + destruct (ld_actions db !! id) as [a|] eqn:Ea; simpl; [|done]. by rewrite (Hn a).
Qed.

Lemma on_imports_ok {A} (m : ITx A) db a db' :
  on_imports m db = Ok (a, db') <->
  exists imports, m (ld_imports db) = Ok (a, imports)
    /\ db' = {| ld_imports := imports; ld_actions := ld_actions db; ld_sagas := ld_sagas db |}.
Proof.
  unfold on_imports. rewrite rbind_ok. split.
  - intros ([a' im] & E & [= -> <-]). by exists im.
  - intros (im & E & ->). by exists (a, im).
Qed.

Lemma lock_bucket_read bucket im u im' : lock_bucket_for_ownership bucket im = Ok (u, im') -> im' = im.
Proof. unfold lock_bucket_for_ownership. intros E. by t_inv E. Qed.

Lemma bucket_locked_ok bucket db b db' :
  bucket_locked bucket db = Ok (b, db') -> db' = db /\ (b = true <-> bucket ∈ im_buckets (ld_imports db)).
Proof.
  unfold bucket_locked, on_imports, lock_bucket_for_ownership, t_bind, t_reads, t_ret. cbn [rbind].
  destruct (bool_decide_reflect (bucket ∈ im_buckets (ld_imports db))); cbn [negb rbind t_err];
    intros [= <- <-]; by destruct db.
Qed.

Lemma lock_claim_ok claim now db r db' :
  lock_claim_for_execution claim now db = Ok (r, db') ->
  db' = db /\ forall a, r = Some a ->
    ld_actions db !! cl_id claim = Some a /\ active_action_claim claim a = true /\ lease_after now a = true.
Proof.
  unfold lock_claim_for_execution. intros E. t_inv E. apply bucket_locked_ok in E0 as [-> _].
  destruct (negb a); t_inv E; [done|]. split; [done|]. intros a' Ha.
  destruct (ld_actions db !! cl_id claim) as [x|]; [|done]. simpl in Ha.
  destruct (active_action_claim claim x) eqn:Hx; [|done]. simpl in Ha.
  destruct (lease_after now x) eqn:Hl; [|done]. injection Ha as ->. done.
Qed.

(** A claim that is no longer on its row gets nothing. *)
Lemma lock_claim_stale claim now db r db' :
  (forall a, ld_actions db !! cl_id claim = Some a -> active_action_claim claim a = false) ->
  lock_claim_for_execution claim now db = Ok (r, db') -> r = None.
Proof.
  intros Hs E. apply lock_claim_ok in E as [_ Hr]. destruct r as [a|]; [|done].
  destruct (Hr a eq_refl) as (Ha & Hact & _). by rewrite (Hs a Ha) in Hact.
Qed.

(** ** What a worker does to its row *)

(** The changes a worker makes to the row [a] of its claim *)
Inductive worker_update (claim : ClaimedLifecycleAction) (a : LifecycleAction) : LifecycleAction -> Prop :=
| wu_renew lease_until now : worker_update claim a (with_lease lease_until now a)
| wu_requeue attempts next class error now fin :
  attempts = la_attempts (cl_action claim) + one_if (waiting_for_dependency (cl_action claim))
  \/ attempts = consumed_attempts a ->
  worker_update claim a (requeued attempts next class error now fin a)
| wu_finish state class error now :
  (state ∈ [STATE_SUCCEEDED; STATE_CANCELLED; STATE_FAILED_SAFE]) ->
  worker_update claim a (finished state class error now a).

(** The whole effect of a worker's transaction on the queue *)
Definition worker_effect (claim : ClaimedLifecycleAction) (db db' : LifecycleDb) : Prop :=
  ld_sagas db' = ld_sagas db
  /\ (ld_actions db' = ld_actions db
      \/ exists a a', ld_actions db !! cl_id claim = Some a /\ active_action_claim claim a = true
         /\ worker_update claim a a' /\ ld_actions db' = <[cl_id claim := a']> (ld_actions db)).

Lemma worker_update_effect claim p f db b db' :
  (forall a, ld_actions db !! cl_id claim = Some a -> p db a = true ->
     active_action_claim claim a = true /\ worker_update claim a (f a)) ->
  update_action (cl_id claim) p f db = Ok (b, db') -> worker_effect claim db db'.
Proof.
  intros Hf [(a & Ha & Hp & _ & -> & _)|(_ & _ & ->)]%update_action_ok; (split; [done|]); [right|by left].
  destruct (Hf a Ha Hp) as [? ?]. by exists a, (f a).
Qed.

Section workers.
Context `{Chrono}.

Lemma renew_effect claim lease_for n1 n2 c1 c2 db b db' :
  renew_action_claim claim lease_for n1 n2 c1 c2 db = Ok (b, db') -> worker_effect claim db db'.
Proof.
  unfold renew_action_claim. intros E. apply t_bind_ok in E as (u & s & [_ ->]%t_lift_ok & E).
  apply t_bind_ok in E as (locked & s1 & [-> _]%lock_claim_ok & E).
  destruct locked as [row|]; [|t_inv E; split; [done|by left]].
  apply t_bind_ok in E as (lease & s2 & [_ ->]%t_some_ok & E).
  apply t_bind_ok in E as (updated & s3 & Hu & E).
  apply worker_update_effect in Hu.
  2:{ intros a _ [Hact _]%andb_true_iff. split; [done|constructor]. }
  apply t_bind_ok in E as (v & s4 & Hr & [_ ->]%t_ret_ok).
  destruct (updated && _); [|by apply t_ret_ok in Hr as [_ ->]].
  apply on_imports_ok in Hr as (im & _ & ->). done.
Qed.

Lemma mark_succeeded_effect claim now db b db' :
  mark_succeeded claim now db = Ok (b, db') -> worker_effect claim db db'.
Proof. apply worker_update_effect. intros a _ Hact. split; [done|]. constructor. set_solver. Qed.

Lemma terminal_failure_effect claim now state class db b db' :
  (state ∈ [STATE_CANCELLED; STATE_FAILED_SAFE]) ->
  terminal_failure_update claim now state class db = Ok (b, db') -> worker_effect claim db db'.
Proof.
  intros Hs. unfold terminal_failure_update. intros (u & s & [_ ->]%t_lift_ok & E)%t_bind_ok. revert E.
  apply worker_update_effect. intros a _ Hact. split; [done|]. constructor. set_solver.
Qed.

(** Cancelling an action and recording why, in one transaction *)
Lemma cancel_diagnosed_effect claim now class diagnostic db db1 db' :
  mark_cancelled claim now class db = Ok (true, db1) -> record_diagnostic claim diagnostic db1 = Ok (true, db') ->
  worker_effect claim db db'.
Proof.
  unfold mark_cancelled, terminal_failure_update. intros (u & s & [_ ->]%t_lift_ok & E)%t_bind_ok.
  apply update_action_ok in E as [(a & Ha & Hact & _ & -> & _)|(_ & [=] & _)].
  unfold record_diagnostic. intros [(b & Hb & _ & _ & -> & _)|(_ & [=] & _)]%update_action_ok.
  simpl in Hb. rewrite lookup_insert_eq in Hb. injection Hb as <-. split; [done|]. right.
  exists a, (finished STATE_CANCELLED (Some class) (Some diagnostic) now a). do 2 (split; [done|]).
  split; [constructor; set_solver|]. simpl. by rewrite insert_insert_eq.
Qed.

Lemma schedule_retry_effect claim now next class db b db' :
  schedule_retry claim now next class db = Ok (b, db') -> worker_effect claim db db'.
Proof.
  unfold schedule_retry. intros (u & s & [_ ->]%t_lift_ok & [_ E]%stop_ok)%t_bind_ok. revert E.
  apply worker_update_effect. intros a _ Hact. split; [done|]. constructor. by left.
Qed.

Lemma requeue_effect claim n1 now locked next class error fin db db1 b db' :
  lock_claim_for_execution claim n1 db = Ok (Some locked, db1) ->
  update_action (cl_id claim) (fun _ a => active_action_claim claim a && lease_after now a)
    (fun a => requeued (consumed_attempts locked) next class error now (fin a) a) db1 = Ok (b, db') ->
  worker_effect claim db db'.
Proof.
  intros [-> Hl]%lock_claim_ok. destruct (Hl locked eq_refl) as (Hrow & _).
  apply worker_update_effect. intros a Ha [Hact _]%andb_true_iff. rewrite Hrow in Ha. injection Ha as ->.
  split; [done|]. constructor. by right.
Qed.

Lemma wait_for_mutation_effect claim m n1 n2 db b db' :
  wait_for_mutation_dependency claim m n1 n2 db = Ok (b, db') -> worker_effect claim db db'.
Proof.
  unfold wait_for_mutation_dependency. intros ([locked|] & s1 & Hl & E)%t_bind_ok.
  - destruct (m <=? consumed_attempts locked).
    + apply lock_claim_ok in Hl as [-> _]. apply t_ret_ok in E as [_ ->]. split; [done|by left].
    + apply t_bind_ok in E as (v & s2 & Hp & [_ ->]%t_ret_ok). by eapply requeue_effect.
  - apply lock_claim_ok in Hl as [-> _]. apply t_ret_ok in E as [_ ->]. split; [done|by left].
Qed.

Lemma wait_for_transition_effect claim n1 n2 db b db' :
  wait_for_transition_in_transaction claim n1 n2 db = Ok (b, db') -> worker_effect claim db db'.
Proof.
  unfold wait_for_transition_in_transaction. intros ([locked|] & s1 & Hl & E)%t_bind_ok.
  - apply stop_ok in E as [_ E]. by eapply requeue_effect.
  - apply lock_claim_ok in Hl as [-> _]. apply t_ret_ok in E as [_ ->]. split; [done|by left].
Qed.

Lemma wait_for_hot_effect claim n1 n2 db b db' :
  wait_for_hot_verification_in_transaction claim n1 n2 db = Ok (b, db') -> worker_effect claim db db'.
Proof.
  unfold wait_for_hot_verification_in_transaction. intros ([locked|] & s1 & Hl & E)%t_bind_ok.
  - apply stop_ok in E as [_ E]. apply t_bind_ok in E as (next & s2 & [_ ->]%t_some_ok & E). by eapply requeue_effect.
  - apply lock_claim_ok in Hl as [-> _]. apply t_ret_ok in E as [_ ->]. split; [done|by left].
Qed.
End workers.

(** ** What claiming does to a row *)

(** An invariant of the loop over the elements done so far *)
Lemma t_filter_map_prefix {S A B} (f : A -> Txn S (option B)) (Q : list A -> list B -> S -> Prop) l s ys s' :
  (forall pre x post y acc s1 s2, l = pre ++ x :: post -> f x s1 = Ok (y, s2) -> Q pre acc s1 ->
     Q (pre ++ [x]) (acc ++ option_list y) s2) ->
  Q [] [] s -> t_filter_map f l s = Ok (ys, s') -> Q l ys s'.
Proof.
  intros Hf HQ E.
  cut (forall post pre acc s1 zs, l = pre ++ post -> Q pre acc s1 -> t_filter_map f post s1 = Ok (zs, s') -> Q l (acc ++ zs) s').
  { intros Hcut. by apply (Hcut l [] [] s ys). }
  clear HQ E s ys. induction post as [|x post IH]; intros pre acc s1 zs Hl HQ E; simpl in E.
  { apply t_ret_ok in E as [-> ->]. rewrite app_nil_r in Hl |- *. by rewrite Hl. }
  apply t_bind_ok in E as (y & s2 & Hx & E). apply t_bind_ok in E as (ws & s3 & Hp & [-> ->]%t_ret_ok).
  rewrite app_assoc. eapply (IH (pre ++ [x])); [by rewrite <- app_assoc|by eapply Hf|done].
Qed.

Lemma t_filter_map_ind {S A B} (f : A -> Txn S (option B)) (Q : list B -> S -> Prop) l s ys s' :
  (forall x y acc s1 s2, f x s1 = Ok (y, s2) -> Q acc s1 -> Q (acc ++ option_list y) s2) ->
  Q [] s -> t_filter_map f l s = Ok (ys, s') -> Q ys s'.
Proof. intros Hf. apply (t_filter_map_prefix f (fun _ => Q)). intros pre x post y acc s1 s2 _. apply Hf. Qed.

(** The row a claim leaves, from the row [a] it found *)
Record granted (worker_id : string) (max_attempts now lease_until : Z) (a a' : LifecycleAction) : Prop := {
  gr_columns : la_columns a' = la_columns a;
  gr_state : la_state a' = STATE_CLAIMED;
  gr_attempts : la_attempts a' = i64_saturating_add (la_attempts a) (one_if (negb (waiting_for_dependency a)));
  gr_epoch : la_claim_epoch a' = la_claim_epoch a + 1;
  gr_lease : la_lease_until a' = Some lease_until;
  gr_worker : la_claimed_by a' = Some worker_id;
  gr_class : la_failure_class a' = la_failure_class a;
  gr_budget : la_attempts a < max_attempts \/ is_transition_action a = true
              \/ (waiting_for_dependency a = false /\ la_attempts a = max_attempts /\ la_state a = STATE_CLAIMED)
}.

(** The attempts of a row are used up, and it gets no further claim: neither the one that recovers a lost
    worker or a transition at the limit, nor those that settle an open saga. *)
Definition budget_spent (max_attempts : Z) (id : string) (db : LifecycleDb) (a : LifecycleAction) : Prop :=
  max_attempts <= la_attempts a
  /\ ~ (la_attempts a = max_attempts /\ waiting_for_dependency a = false
        /\ (la_state a = STATE_CLAIMED \/ is_transition_action a = true))
  /\ ~ (is_transition_action a = true /\ transition_saga_state id db = SagaPublished)
  /\ ~ (is_transition_action a = true /\ transition_saga_state id db = SagaOutstanding /\ max_attempts < la_attempts a).

Definition claim_effect (worker_id : string) (max_attempts now lease_until : Z) (id : string)
    (db : LifecycleDb) (r : option ClaimedLifecycleAction) (db' : LifecycleDb) : Prop :=
  ld_sagas db' = ld_sagas db
  /\ ((r = None /\ ld_actions db' = ld_actions db)
      \/ (exists a class error, r = None /\ ld_actions db !! id = Some a /\ due_action now id db a = true
            /\ budget_spent max_attempts id db a
            /\ ld_actions db' = <[id := finished STATE_FAILED_SAFE class error now a]> (ld_actions db))
      \/ (exists a a', ld_actions db !! id = Some a /\ due_action now id db a = true
            /\ ~ budget_spent max_attempts id db a /\ granted worker_id max_attempts now lease_until a a'
            /\ r = Some {| cl_id := id; cl_action := a'; cl_claim_epoch := la_claim_epoch a'; cl_worker_id := worker_id |}
            /\ ld_actions db' = <[id := a']> (ld_actions db))).

Definition only_imports (db db' : LifecycleDb) : Prop :=
  ld_actions db' = ld_actions db /\ ld_sagas db' = ld_sagas db.
#[export] Instance only_imports_preorder : PreOrder only_imports.
Proof. split; [done|]. intros x y z [? ?] [? ?]. split; congruence. Qed.

Lemma keeps_on_imports {A} (m : ITx A) : t_keeps only_imports (on_imports m).
Proof. intros db a db' (im & _ & ->)%on_imports_ok. done. Qed.
#[local] Hint Resolve keeps_on_imports : keeps.

Lemma clear_exhausted_ticket_keeps id candidate now : t_keeps only_imports (clear_exhausted_ticket id candidate now).
Proof. unfold clear_exhausted_ticket. t_keep. Qed.

Lemma due_action_same id now db db' a :
  ld_sagas db' = ld_sagas db -> due_action now id db' a = due_action now id db a.
Proof. intros Hs. unfold due_action, unfinished_transition_saga_exists. by rewrite Hs. Qed.
Lemma budget_spent_same max_attempts id db db' a :
  ld_sagas db' = ld_sagas db -> budget_spent max_attempts id db' a <-> budget_spent max_attempts id db a.
Proof. intros Hs. unfold budget_spent, transition_saga_state. by rewrite Hs. Qed.


(** The test of the claim loop is the specification's. *)
Lemma exhausted_spent max_attempts id db a :
  let saga := if is_transition_action a then transition_saga_state id db else SagaNone in
  (max_attempts <=? la_attempts a)
  && (negb (negb (waiting_for_dependency a) && (la_attempts a =? max_attempts)
            && (String.eqb (la_state a) STATE_CLAIMED || is_transition_action a))
      && negb (bool_decide (saga = SagaPublished))
      && negb (bool_decide (saga = SagaOutstanding) && (max_attempts <? la_attempts a))) = true
  <-> budget_spent max_attempts id db a.
Proof.
  cbv zeta. unfold budget_spent.
  destruct (Z.leb_spec max_attempts (la_attempts a)), (Z.eqb_spec (la_attempts a) max_attempts),
    (Z.ltb_spec max_attempts (la_attempts a)), (String.eqb_spec (la_state a) STATE_CLAIMED),
    (waiting_for_dependency a), (is_transition_action a); repeat case_bool_decide; simpl; try lia;
    intuition (try done; try lia; congruence).
Qed.

Lemma unspent_budget max_attempts id db a :
  ~ budget_spent max_attempts id db a ->
  la_attempts a < max_attempts \/ is_transition_action a = true
  \/ (waiting_for_dependency a = false /\ la_attempts a = max_attempts /\ la_state a = STATE_CLAIMED).
Proof.
  intros Hb. destruct (is_transition_action a) eqn:Ht; [by right; left|].
  destruct (Z.lt_ge_cases (la_attempts a) max_attempts); [by left|]. right; right.
  destruct (waiting_for_dependency a) eqn:Hw, (Z.eqb_spec (la_attempts a) max_attempts),
    (String.eqb_spec (la_state a) STATE_CLAIMED); try done; destruct Hb;
    unfold budget_spent; rewrite Ht, ?Hw; intuition congruence.
Qed.

Lemma unchanged_candidate_self candidate now id db :
  unchanged_candidate candidate now id db candidate = due_action now id db candidate.
Proof. unfold unchanged_candidate. by rewrite !Z.eqb_refl. Qed.

Lemma fail_safe_exhausted_effect id candidate now db u db' :
  ld_actions db !! id = Some candidate -> due_action now id db candidate = true ->
  fail_safe_exhausted id candidate now db = Ok (u, db') ->
  ld_sagas db' = ld_sagas db
  /\ exists class error, ld_actions db' = <[id := finished STATE_FAILED_SAFE class error now candidate]> (ld_actions db).
Proof.
  intros Hrow Hdue. unfold fail_safe_exhausted. intros (v & db1 & E1 & E)%t_bind_ok.
  apply clear_exhausted_ticket_keeps in E1 as [Ha Hs].
  apply t_bind_ok in E as (w & db2 & Hu & [_ ->]%t_ret_ok).
  apply update_action_ok in Hu as [(a & Hrow' & _ & _ & -> & _)|(Hn & _)].
  - rewrite Ha, Hrow in Hrow'. injection Hrow' as <-. split; [done|]. simpl. rewrite Ha. by do 2 eexists.
  - rewrite Ha in Hn. specialize (Hn _ Hrow). rewrite unchanged_candidate_self, (due_action_same id now db db1) in Hn by done. congruence.
Qed.

Lemma claim_action_candidate_effect id candidate worker_id max_attempts now lease_until db r db' :
  ld_actions db !! id = Some candidate -> due_action now id db candidate = true ->
  (la_attempts candidate < max_attempts \/ is_transition_action candidate = true
   \/ (waiting_for_dependency candidate = false /\ la_attempts candidate = max_attempts
       /\ la_state candidate = STATE_CLAIMED)) ->
  ~ budget_spent max_attempts id db candidate ->
  claim_action_candidate id candidate worker_id now lease_until db = Ok (r, db') ->
  claim_effect worker_id max_attempts now lease_until id db r db'.
Proof.
  intros Hrow Hdue Hb Hspent. unfold claim_action_candidate. intros (e & s & [He ->]%t_some_ok & E)%t_bind_ok.
  apply t_bind_ok in E as (updated & db1 & Hu & E).
  apply update_action_ok in Hu as [(a & Hrow' & _ & -> & -> & _)|(Hn & _)].
  2:{ specialize (Hn _ Hrow). by rewrite unchanged_candidate_self, Hdue in Hn. }
  rewrite Hrow in Hrow'. injection Hrow' as <-. cbn [negb] in E.
  apply t_bind_ok in E as (row & db2 & [-> ->]%t_reads_ok & E).
  apply t_bind_ok in E as (action & db3 & [Hrow' ->]%t_some_ok & [-> ->]%t_ret_ok).
  cbn [set_actions ld_actions] in Hrow'. rewrite lookup_insert_eq in Hrow'.
  assert (e = la_claim_epoch candidate + 1) as ->.
  { unfold i64_checked_add in He. destruct (fits_i64 _); [|done]. by injection He as <-. }
  split; [done|]. right; right. exists candidate, action. do 3 (split; [done|]).
  injection Hrow' as <-. split; [|done]. by constructor.
Qed.

Lemma claim_action_candidate_grants id candidate worker_id now lease_until db r db' :
  ld_actions db !! id = Some candidate -> due_action now id db candidate = true ->
  claim_action_candidate id candidate worker_id now lease_until db = Ok (r, db') -> r <> None.
Proof.
  intros Hrow Hdue (e & s & [He ->]%t_some_ok & E)%t_bind_ok.
  apply t_bind_ok in E as (updated & db1 & Hu & E).
  apply update_action_ok in Hu as [(a & _ & _ & -> & -> & _)|(Hn & _)].
  2:{ specialize (Hn _ Hrow). by rewrite unchanged_candidate_self, Hdue in Hn. }
  cbn [negb] in E. apply t_bind_ok in E as (row & db2 & [-> ->]%t_reads_ok & E).
  by apply t_bind_ok in E as (action & db3 & _ & [-> _]%t_ret_ok).
Qed.

(** The saga the claim loop looks at *)
Lemma claim_saga_read a id db saga db' :
  (if is_transition_action a then t_reads (transition_saga_state id) else t_ret SagaNone) db = Ok (saga, db') ->
  db' = db /\ saga = if is_transition_action a then transition_saga_state id db else SagaNone.
Proof. by destruct (is_transition_action a); intros [-> ->]%t_reads_ok || intros [-> ->]%t_ret_ok. Qed.

Lemma claim_action_step_effect worker_id max_attempts now lease_until skipped locked row db r db' :
  claim_action_step worker_id max_attempts now lease_until skipped locked row db = Ok (r, db') ->
  claim_effect worker_id max_attempts now lease_until row.1 db r db'.
Proof.
  assert (forall r' db'', t_ret None db = Ok (r', db'') -> claim_effect worker_id max_attempts now lease_until row.1 db r' db'')
    as Hnone by (intros r' db'' [-> ->]%t_ret_ok; split; [done|by left]).
  unfold claim_action_step. destruct (negb _); [apply Hnone|].
  intros (candidate & s & [-> ->]%t_reads_ok & E)%t_bind_ok.
  destruct (ld_actions db !! row.1) as [a|] eqn:Hrow; [|by apply Hnone]. simpl in E.
  destruct (due_action now row.1 db a) eqn:Hdue; [|by apply Hnone].
  destruct (skipped row.1); [by apply Hnone|]. cbn [andb negb] in E.
  apply t_bind_ok in E as (saga & s1 & [-> ->]%claim_saga_read & E).
  destruct (_ && _) eqn:Hex in E; [apply exhausted_spent in Hex|rewrite <-not_true_iff_false, exhausted_spent in Hex].
  - apply t_bind_ok in E as (u & s2 & Hf & [-> ->]%t_ret_ok).
    apply fail_safe_exhausted_effect in Hf as (Hs & class & error & Ha); [|done..].
    split; [done|]. right; left. by exists a, class, error.
  - eapply claim_action_candidate_effect; [done|done|by eapply unspent_budget|done|done].
Qed.

(** A row that is due and not passed over is claimed unless its budget is spent. *)
Lemma claim_action_step_passes worker_id max_attempts now lease_until skipped locked row a db db' :
  claim_action_step worker_id max_attempts now lease_until skipped locked row db = Ok (None, db') ->
  ld_actions db !! row.1 = Some a -> ac_bucket (la_columns row.2) ∈ locked -> due_action now row.1 db a = true ->
  skipped row.1 = false -> budget_spent max_attempts row.1 db a.
Proof.
  intros E Ha Hb Hdue Hsk. pose proof (claim_action_step_effect _ _ _ _ _ _ _ _ _ _ E) as [_ [[_ Hsame]|[(x & ? & ? & Hx)|(? & ? & Hx)]]].
  2:{ destruct Hx as (_ & Hx & _ & Hspent & _). rewrite Ha in Hx. by injection Hx as <-. }
  2:{ by destruct Hx as (_ & _ & _ & _ & [=] & _). }
  unfold claim_action_step in E. rewrite bool_decide_true in E by done. cbn [negb] in E.
  apply t_bind_ok in E as (candidate & s & [-> ->]%t_reads_ok & E).
  rewrite Ha in E. simpl in E. rewrite Hdue, Hsk in E. cbn [andb negb] in E.
  apply t_bind_ok in E as (saga & s1 & [-> ->]%claim_saga_read & E).
  destruct (_ && _) eqn:Hex in E; [by apply exhausted_spent in Hex|].
  by apply claim_action_candidate_grants in E.
Qed.

(** ** Histories *)

(** The tables, the claims handed out so far, and the identifiers used so far *)
Record Queue : Type := {
  q_db : LifecycleDb;
  q_issued : list ClaimedLifecycleAction;
  q_used : gset string
}.

Definition with_db (db : LifecycleDb) (q : Queue) : Queue :=
  {| q_db := db; q_issued := q_issued q; q_used := q_used q |}.

(** The tables of imports and transitions after other transactions *)
Definition with_others (imports : ImportDb) (sagas : gmap string TransitionSaga) (db : LifecycleDb) : LifecycleDb :=
  {| ld_imports := imports; ld_actions := ld_actions db; ld_sagas := sagas |}.

(** Deleting a bucket takes its actions along. *)
Definition without_bucket (bucket : string) (db : LifecycleDb) : LifecycleDb :=
  set_actions (filter (fun r => ac_bucket (la_columns r.2) <> bucket)) db.

Section histories.
Context `{Chrono} `{ActionCodec}.

(** One committed transaction.  Identifiers are fresh, and workers act with the claims they were
    given; clocks are arbitrary. *)
Inductive queue_step (q : Queue) : Queue -> Prop :=
| qs_insert id action now b db' :
  id ∉ q_used q -> insert_idempotent id action now (q_db q) = Ok (b, db') ->
  queue_step q {| q_db := db'; q_issued := q_issued q; q_used := {[id]} ∪ q_used q |}
| qs_claim worker_id lease_for max_attempts limit now1 now2 skipped claims db' :
  claim_due_with_max_attempts worker_id lease_for max_attempts limit now1 now2 skipped (q_db q) = Ok (claims, db') ->
  queue_step q {| q_db := db'; q_issued := claims ++ q_issued q; q_used := q_used q |}
| qs_renew claim lease_for now1 now2 c1 c2 b db' :
  (claim ∈ q_issued q) -> renew_action_claim claim lease_for now1 now2 c1 c2 (q_db q) = Ok (b, db') ->
  queue_step q (with_db db' q)
| qs_succeed claim now b db' :
  (claim ∈ q_issued q) -> mark_succeeded claim now (q_db q) = Ok (b, db') -> queue_step q (with_db db' q)
| qs_cancel claim now class b db' :
  (claim ∈ q_issued q) -> mark_cancelled claim now class (q_db q) = Ok (b, db') -> queue_step q (with_db db' q)
| qs_cancel_diagnosed claim now class diagnostic db1 db' :
  (claim ∈ q_issued q) -> mark_cancelled claim now class (q_db q) = Ok (true, db1) ->
  record_diagnostic claim diagnostic db1 = Ok (true, db') -> queue_step q (with_db db' q)
| qs_fail claim now class b db' :
  (claim ∈ q_issued q) -> mark_failed_safe claim now class (q_db q) = Ok (b, db') -> queue_step q (with_db db' q)
| qs_retry claim now next class b db' :
  (claim ∈ q_issued q) -> schedule_retry claim now next class (q_db q) = Ok (b, db') -> queue_step q (with_db db' q)
| qs_wait_mutation claim max_attempts now1 now2 b db' :
  (claim ∈ q_issued q) -> wait_for_mutation_dependency claim max_attempts now1 now2 (q_db q) = Ok (b, db') ->
  queue_step q (with_db db' q)
| qs_wait_transition claim now1 now2 b db' :
  (claim ∈ q_issued q) -> wait_for_transition_in_transaction claim now1 now2 (q_db q) = Ok (b, db') ->
  queue_step q (with_db db' q)
| qs_wait_hot claim now1 now2 b db' :
  (claim ∈ q_issued q) -> wait_for_hot_verification_in_transaction claim now1 now2 (q_db q) = Ok (b, db') ->
  queue_step q (with_db db' q)
| qs_delete_bucket bucket : queue_step q (with_db (without_bucket bucket (q_db q)) q)
| qs_others imports sagas : queue_step q (with_db (with_others imports sagas (q_db q)) q).

Definition empty_queue (imports : ImportDb) (sagas : gmap string TransitionSaga) : Queue :=
  {| q_db := {| ld_imports := imports; ld_actions := ∅; ld_sagas := sagas |}; q_issued := []; q_used := ∅ |}.

Definition reachable_queue (q : Queue) : Prop := exists imports sagas, rtc queue_step (empty_queue imports sagas) q.

(** ** The kinds of steps *)

(** A row as [insert_idempotent] writes it *)
Definition fresh_row (a : LifecycleAction) : Prop :=
  la_state a = STATE_PENDING /\ la_attempts a = 0 /\ la_claim_epoch a = 0.

Lemma insert_effect id action now db b db' :
  insert_idempotent id action now db = Ok (b, db') ->
  ld_sagas db' = ld_sagas db
  /\ ((b = false /\ ld_actions db' = ld_actions db)
      \/ (b = true /\ ld_actions db !! id = None
          /\ exists validated, validate_action action = Ok validated
             /\ ld_actions db' = <[id := new_action action validated now]> (ld_actions db))).
Proof.
  unfold insert_idempotent. intros (validated & s & [Hv ->]%t_lift_ok & [_ E]%stop_ok)%t_bind_ok.
  apply t_bind_ok in E as (replay & s & [-> ->]%t_reads_ok & E). case_bool_decide.
  { apply t_ret_ok in E as [-> ->]. split; [done|by left]. }
  apply t_bind_ok in E as (taken & s & [-> ->]%t_reads_ok & [Ht E]%stop_ok).
  apply t_bind_ok in E as (u & s & [-> _]%t_exec_ok & [-> ->]%t_ret_ok).
  split; [done|]. right. split; [done|]. split; [by destruct (ld_actions db !! id)|]. by exists validated.
Qed.

(** What a step does to the rows and claims, with the claims loop left step by step *)
Inductive row_step (q : Queue) : Queue -> Prop :=
| rs_insert id a sagas imports :
  id ∉ q_used q -> fresh_row a -> ld_actions (q_db q) !! id = None ->
  row_step q {| q_db := {| ld_imports := imports; ld_actions := <[id := a]> (ld_actions (q_db q)); ld_sagas := sagas |};
                q_issued := q_issued q; q_used := {[id]} ∪ q_used q |}
| rs_claim worker_id max_attempts now lease_until id r db' :
  1 <= max_attempts <= MAX_LIFECYCLE_ACTION_ATTEMPTS ->
  claim_effect worker_id max_attempts now lease_until id (q_db q) r db' ->
  row_step q {| q_db := db'; q_issued := option_list r ++ q_issued q; q_used := q_used q |}
| rs_worker claim db' :
  (claim ∈ q_issued q) -> worker_effect claim (q_db q) db' -> row_step q (with_db db' q)
| rs_delete bucket : row_step q (with_db (without_bucket bucket (q_db q)) q)
| rs_same db' issued used :
  ld_actions db' = ld_actions (q_db q) -> (forall c, c ∈ issued <-> c ∈ q_issued q) -> q_used q ⊆ used ->
  row_step q {| q_db := db'; q_issued := issued; q_used := used |}.

Lemma bucket_locks_keep (l : list string) db ys db' :
  t_filter_map (fun bucket => let* ok := bucket_locked bucket in t_ret (if ok then Some bucket else None)) l db
    = Ok (ys, db') -> db' = db.
Proof.
  apply (t_filter_map_ind _ (fun _ d => d = db) l); [|done].
  intros x y _ s1 s2 (ok & s & [-> _]%bucket_locked_ok & [_ ->]%t_ret_ok)%t_bind_ok. done.
Qed.

(** Every bucket that exists is locked. *)
Lemma bucket_locks_found (l : list string) db ys db' :
  t_filter_map (fun bucket => let* ok := bucket_locked bucket in t_ret (if ok then Some bucket else None)) l db
    = Ok (ys, db') -> db' = db /\ forall b, b ∈ l -> b ∈ im_buckets (ld_imports db) -> b ∈ ys.
Proof.
  apply (t_filter_map_prefix _ (fun pre acc d => d = db /\ forall b, b ∈ pre -> b ∈ im_buckets (ld_imports db) -> b ∈ acc));
    [|by split; [|set_solver]].
  intros pre x post y acc s1 s2 _ (ok & s & [-> Hok]%bucket_locked_ok & [-> ->]%t_ret_ok)%t_bind_ok [-> Hacc].
  split; [done|]. intros b [Hb| ->%list_elem_of_singleton]%elem_of_app Hin; apply elem_of_app; [by left; apply Hacc|right].
  rewrite (proj2 Hok Hin). by left.
Qed.

Lemma claim_due_row_steps worker_id lease_for max_attempts limit now1 now2 skipped q claims db' :
  claim_due_with_max_attempts worker_id lease_for max_attempts limit now1 now2 skipped (q_db q) = Ok (claims, db') ->
  exists issued, (forall c, c ∈ issued <-> c ∈ claims ++ q_issued q)
    /\ rtc row_step q {| q_db := db'; q_issued := issued; q_used := q_used q |}.
Proof.
  unfold claim_due_with_max_attempts, claim_due_in_transaction.
  intros (u & s & [_ ->]%t_lift_ok & [Hm E]%stop_ok)%t_bind_ok.
  apply negb_false_iff, andb_true_iff in Hm as [?%Z.leb_le ?%Z.leb_le].
  apply t_bind_ok in E as (candidates & s & [-> ->]%t_reads_ok & E).
  apply t_bind_ok in E as (locked & s & ->%bucket_locks_keep & E).
  apply t_bind_ok in E as (lease_until & s & [_ ->]%t_some_ok & E). revert E.
  apply (t_filter_map_ind _ (fun acc d => exists issued, (forall c, c ∈ issued <-> c ∈ acc ++ q_issued q)
    /\ rtc row_step q {| q_db := d; q_issued := issued; q_used := q_used q |})).
  - intros x y acc s1 s2 Hc%claim_action_step_effect (issued & Hi & Hr).
    exists (option_list y ++ issued). split; [intros c; rewrite !elem_of_app, Hi, elem_of_app; tauto|].
    eapply rtc_r; [done|]. by eapply (rs_claim {| q_db := s1; q_issued := issued; q_used := q_used q |}).
  - exists (q_issued q). split; [done|]. by destruct q.
Qed.

Lemma queue_step_rows q q' : queue_step q q' -> rtc row_step q q'.
Proof.
  assert (forall claim db', claim ∈ q_issued q -> worker_effect claim (q_db q) db' -> rtc row_step q (with_db db' q)) as Hw
    by (intros; apply rtc_once; by eapply rs_worker).
  destruct 1 as [id action now b db' Hid E|? ? ? ? ? ? ? claims db' E|? ? ? ? ? ? ? ? ? E|? ? ? ? ? E|? ? ? ? ? ? E|? ? ? ? ? ? ? E E'|? ? ? ? ? ? E
    |? ? ? ? ? ? ? E|? ? ? ? ? ? ? E|? ? ? ? ? ? E|? ? ? ? ? ? E|bucket|imports sagas].
  - apply insert_effect in E as [Hs [[_ Ha]|(_ & Hn & v & _ & Ha)]].
    + apply rtc_once, rs_same; [done|done|set_solver].
    + apply rtc_once. destruct db' as [im acts sagas]. simpl in *. rewrite Ha. by apply rs_insert.
  - apply claim_due_row_steps in E as (issued & Hi & Hr). eapply rtc_r; [done|].
    apply (rs_same {| q_db := db'; q_issued := issued; q_used := q_used q |}); [done| |done]. intros c. symmetry. apply Hi.
  - eapply Hw; [done|]. by eapply renew_effect.
  - eapply Hw; [done|]. by eapply mark_succeeded_effect.
  - eapply Hw; [done|]. eapply terminal_failure_effect; [|done]. set_solver.
  - eapply Hw; [done|]. by eapply cancel_diagnosed_effect.
  - eapply Hw; [done|]. eapply terminal_failure_effect; [|done]. set_solver.
  - eapply Hw; [done|]. by eapply schedule_retry_effect.
  - eapply Hw; [done|]. by eapply wait_for_mutation_effect.
  - eapply Hw; [done|]. by eapply wait_for_transition_effect.
  - eapply Hw; [done|]. by eapply wait_for_hot_effect.
  - apply rtc_once, rs_delete.
  - apply rtc_once, rs_same; done.
Qed.
End histories.

(** ** The invariant *)

(** The row has moved past the claim, or it is the claim's own or has left it. *)
Definition fenced (c : ClaimedLifecycleAction) (a : LifecycleAction) : Prop :=
  cl_claim_epoch c < la_claim_epoch a
  \/ (cl_claim_epoch c = la_claim_epoch a
      /\ (la_state a = STATE_CLAIMED ->
          la_claimed_by a = Some (cl_worker_id c) /\ la_attempts a = la_attempts (cl_action c)
          /\ la_failure_class a = la_failure_class (cl_action c) /\ la_columns a = la_columns (cl_action c))).

Record queue_inv (q : Queue) : Prop := {
  qi_rows : forall id a, ld_actions (q_db q) !! id = Some a -> id ∈ q_used q;
  qi_claims : forall c, c ∈ q_issued q -> cl_id c ∈ q_used q;
  qi_fenced : forall c a, c ∈ q_issued q -> ld_actions (q_db q) !! cl_id c = Some a -> fenced c a;
  qi_unique : forall c c', c ∈ q_issued q -> c' ∈ q_issued q ->
    cl_id c = cl_id c' -> cl_claim_epoch c = cl_claim_epoch c' -> c = c';
  qi_budget : forall id a, ld_actions (q_db q) !! id = Some a -> is_transition_action a = false ->
    la_attempts a <= MAX_LIFECYCLE_ACTION_ATTEMPTS + 1;
  qi_probe : forall c, c ∈ q_issued q -> is_transition_action (cl_action c) = false ->
    waiting_for_dependency (cl_action c) = true -> la_attempts (cl_action c) < MAX_LIFECYCLE_ACTION_ATTEMPTS
}.

Lemma transition_columns a a' : la_columns a' = la_columns a -> is_transition_action a' = is_transition_action a.
Proof. intros E. unfold is_transition_action. by rewrite E. Qed.

Lemma waiting_columns a a' :
  la_columns a' = la_columns a -> la_failure_class a' = la_failure_class a ->
  waiting_for_dependency a' = waiting_for_dependency a.
Proof. intros E F. unfold waiting_for_dependency, waiting_for_transition. by rewrite E, F. Qed.

Lemma worker_update_columns claim a a' : worker_update claim a a' -> la_columns a' = la_columns a.
Proof. by destruct 1. Qed.

Lemma active_claim_fields claim a :
  active_action_claim claim a = true ->
  la_state a = STATE_CLAIMED /\ la_claimed_by a = Some (cl_worker_id claim) /\ la_claim_epoch a = cl_claim_epoch claim.
Proof.
  unfold active_action_claim. rewrite !andb_true_iff, String.eqb_eq, bool_decide_eq_true, Z.eqb_eq. tauto.
Qed.

(** A worker's update leaves every claim fenced. *)
Lemma worker_update_fenced claim c a a' : worker_update claim a a' -> fenced c a -> fenced c a'.
Proof.
  intros Hu [Hlt|[Heq Hf]]; [by destruct Hu; left|]. destruct Hu as [l now|? ? ? ? ? ? ?|st ? ? ? Hst].
  - right. split; done.
  - right. split; [done|]. done.
  - right. split; [done|]. simpl. intros ->. by set_solver.
Qed.

Lemma one_if_bounds b : 0 <= one_if b <= 1.
Proof. by destruct b. Qed.

Lemma consumed_attempts_bound a n : 0 <= n -> la_attempts a <= n -> consumed_attempts a <= n.
Proof.
  intros Hn Ha. unfold consumed_attempts, i64_saturating_sub, i64_min, i64_max.
  pose proof (one_if_bounds (negb (waiting_for_dependency a))). lia.
Qed.

(** A worker's update keeps the attempts within the budget. *)
Lemma worker_update_budget q claim a a' :
  queue_inv q -> claim ∈ q_issued q -> ld_actions (q_db q) !! cl_id claim = Some a ->
  active_action_claim claim a = true -> worker_update claim a a' -> is_transition_action a = false ->
  la_attempts a' <= MAX_LIFECYCLE_ACTION_ATTEMPTS + 1.
Proof.
  intros Hi Hc Ha Hact Hu Ht. pose proof (qi_budget q Hi _ a Ha Ht) as Hb.
  destruct (active_claim_fields _ _ Hact) as (Hs & _ & He).
  destruct Hu as [l now|attempts ? ? ? ? ? [-> | ->]|st ? ? ? _]; cbn [with_lease requeued finished la_attempts]; try done.
  - destruct (qi_fenced q Hi claim a Hc Ha) as [?|[_ Hf]]; [lia|]. destruct (Hf Hs) as (_ & Hat & _ & Hcol).
    rewrite <- Hat. destruct (waiting_for_dependency (cl_action claim)) eqn:Hw; cbn [one_if]; [|lia].
    pose proof (qi_probe q Hi claim Hc) as Hp. rewrite <- (transition_columns _ a) in Hp by done.
    specialize (Hp Ht Hw). unfold MAX_LIFECYCLE_ACTION_ATTEMPTS in *. lia.
  - apply consumed_attempts_bound; [unfold MAX_LIFECYCLE_ACTION_ATTEMPTS; lia|done].
Qed.

Lemma worker_effect_inv q claim db' :
  queue_inv q -> claim ∈ q_issued q -> worker_effect claim (q_db q) db' -> queue_inv (with_db db' q).
Proof.
  intros Hi Hc [_ [Hsame|(a & a' & Ha & Hact & Hu & Hins)]].
  { destruct Hi. split; cbn [with_db q_db q_issued q_used]; try rewrite Hsame; done. }
  split; cbn [with_db q_db q_issued q_used]; try rewrite Hins.
  - intros id x [[<- _]|[_ Hx]]%lookup_insert_Some; [by apply (qi_rows q Hi _ a)|by apply (qi_rows q Hi _ x)].
  - apply (qi_claims q Hi).
  - intros c x Hcx [[E <-]|[_ Hx]]%lookup_insert_Some; [|by apply (qi_fenced q Hi)].
    eapply worker_update_fenced; [done|]. apply (qi_fenced q Hi); [done|]. by rewrite <- E.
  - apply (qi_unique q Hi).
  - intros id x [[<- <-]|[_ Hx]]%lookup_insert_Some Ht; [|by apply (qi_budget q Hi id)].
    eapply worker_update_budget; [done..|]. by rewrite <- (transition_columns _ a') by (by apply worker_update_columns in Hu).
  - apply (qi_probe q Hi).
Qed.

Lemma finished_fenced c state class error now a :
  state <> STATE_CLAIMED -> fenced c a -> fenced c (finished state class error now a).
Proof. intros Hs [?|[? _]]; [by left|]. right. split; [done|]. simpl. by intros ?. Qed.

Lemma granted_attempts worker_id max_attempts now lease_until a a' n :
  granted worker_id max_attempts now lease_until a a' -> 0 <= n ->
  la_attempts a + one_if (negb (waiting_for_dependency a)) <= n -> la_attempts a' <= n.
Proof. intros Hg Hn Ha. rewrite (gr_attempts _ _ _ _ _ _ Hg). unfold i64_saturating_add, i64_min, i64_max. lia. Qed.

Lemma granted_transition worker_id max_attempts now lease_until a a' :
  granted worker_id max_attempts now lease_until a a' -> is_transition_action a' = is_transition_action a.
Proof. intros Hg. apply transition_columns, (gr_columns _ _ _ _ _ _ Hg). Qed.

Lemma granted_waiting worker_id max_attempts now lease_until a a' :
  granted worker_id max_attempts now lease_until a a' -> waiting_for_dependency a' = waiting_for_dependency a.
Proof. intros Hg. apply waiting_columns; [apply (gr_columns _ _ _ _ _ _ Hg)|apply (gr_class _ _ _ _ _ _ Hg)]. Qed.

(** A claim stays within the budget, and a probe below it. *)
Lemma granted_budget worker_id max_attempts now lease_until a a' :
  granted worker_id max_attempts now lease_until a a' -> max_attempts <= MAX_LIFECYCLE_ACTION_ATTEMPTS ->
  is_transition_action a = false ->
  la_attempts a' <= MAX_LIFECYCLE_ACTION_ATTEMPTS + 1
  /\ (waiting_for_dependency a = true -> la_attempts a' < MAX_LIFECYCLE_ACTION_ATTEMPTS).
Proof.
  intros Hg Hm Ht. unfold MAX_LIFECYCLE_ACTION_ATTEMPTS in *. split; [|intros Hw].
  - apply (granted_attempts _ _ _ _ _ _ _ Hg); [lia|].
    pose proof (one_if_bounds (negb (waiting_for_dependency a))).
    destruct (gr_budget _ _ _ _ _ _ Hg) as [?|[?|(? & ? & _)]]; [lia|congruence|lia].
  - cut (la_attempts a' <= 7); [lia|]. apply (granted_attempts _ _ _ _ _ _ _ Hg); [lia|]. rewrite Hw. cbn [negb one_if].
    destruct (gr_budget _ _ _ _ _ _ Hg) as [?|[?|(? & _)]]; [lia|congruence|congruence].
Qed.

Lemma granted_inv q worker_id max_attempts now lease_until id a a' db' :
  queue_inv q -> max_attempts <= MAX_LIFECYCLE_ACTION_ATTEMPTS -> ld_actions (q_db q) !! id = Some a ->
  granted worker_id max_attempts now lease_until a a' -> ld_actions db' = <[id := a']> (ld_actions (q_db q)) ->
  queue_inv {| q_db := db';
    q_issued := {| cl_id := id; cl_action := a'; cl_claim_epoch := la_claim_epoch a'; cl_worker_id := worker_id |} :: q_issued q;
    q_used := q_used q |}.
Proof.
  intros Hi Hm Ha Hg Hins. pose proof (gr_epoch _ _ _ _ _ _ Hg) as He.
  assert (forall c, c ∈ q_issued q -> cl_id c = id -> cl_claim_epoch c < la_claim_epoch a') as Hold.
  { intros c Hc E. destruct (qi_fenced q Hi c a Hc) as [?|[? _]]; [by rewrite E|lia|lia]. }
  split; cbn [q_db q_issued q_used]; try rewrite Hins.
  - intros i x [[<- _]|[_ Hx]]%lookup_insert_Some; [by apply (qi_rows q Hi _ a)|by apply (qi_rows q Hi _ x)].
  - intros c [->|Hc]%elem_of_cons; [by apply (qi_rows q Hi _ a)|by apply (qi_claims q Hi)].
  - intros c x [->|Hc]%elem_of_cons [[E <-]|[Hne Hx]]%lookup_insert_Some.
    + right. split; [done|]. intros _. cbn [cl_worker_id cl_action]. by rewrite (gr_worker _ _ _ _ _ _ Hg).
    + done.
    + left. by apply Hold.
    + by apply (qi_fenced q Hi).
  - intros c c' [->|Hc]%elem_of_cons [->|Hc']%elem_of_cons E F; cbn [cl_id cl_claim_epoch] in *; [done| | |].
    + specialize (Hold c' Hc' (eq_sym E)). lia.
    + specialize (Hold c Hc E). lia.
    + by apply (qi_unique q Hi).
  - intros i x [[<- <-]|[_ Hx]]%lookup_insert_Some Ht; [|by apply (qi_budget q Hi i)].
    apply (granted_budget _ _ _ _ _ _ Hg); [done|]. by rewrite <- (granted_transition _ _ _ _ _ _ Hg).
  - intros c [->|Hc]%elem_of_cons Ht Hw; cbn [cl_action] in *; [|by apply (qi_probe q Hi)].
    rewrite (granted_transition _ _ _ _ _ _ Hg) in Ht. rewrite (granted_waiting _ _ _ _ _ _ Hg) in Hw.
    by apply (granted_budget _ _ _ _ _ _ Hg).
Qed.

Lemma row_step_inv q q' : queue_inv q -> row_step q q' -> queue_inv q'.
Proof.
  intros Hi. destruct 1 as [id a sagas imports Hid (Hs & Hat & _) Hn|w m now lease id r db' [_ Hm] [_ He]|claim db' Hc He
    |bucket|db' issued used Ha Hiss Hused].
  - split; cbn [q_db q_issued q_used ld_actions].
    + intros i x [[<- _]|[_ Hx%(qi_rows q Hi)]]%lookup_insert_Some; set_solver.
    + intros c Hc%(qi_claims q Hi). set_solver.
    + intros c x Hc [[E _]|[_ Hx]]%lookup_insert_Some; [|by apply (qi_fenced q Hi)].
      apply (qi_claims q Hi) in Hc. by rewrite E in Hid.
    + apply (qi_unique q Hi).
    + intros i x [[<- <-]|[_ Hx]]%lookup_insert_Some Ht; [unfold MAX_LIFECYCLE_ACTION_ATTEMPTS; lia|by apply (qi_budget q Hi i)].
    + apply (qi_probe q Hi).
  - destruct He as [[-> Hsame]|[(a & class & error & -> & Ha & _ & _ & Hins)|(a & a' & Ha & _ & _ & Hg & -> & Hins)]];
      cbn [option_list app].
    + destruct Hi. split; cbn [q_db q_issued q_used]; try rewrite Hsame; done.
    + split; cbn [q_db q_issued q_used]; try rewrite Hins.
      * intros i x [[<- _]|[_ Hx]]%lookup_insert_Some; [by apply (qi_rows q Hi _ a)|by apply (qi_rows q Hi _ x)].
      * apply (qi_claims q Hi).
      * intros c x Hc [[E <-]|[_ Hx]]%lookup_insert_Some; [|by apply (qi_fenced q Hi)].
        apply finished_fenced; [done|]. apply (qi_fenced q Hi); [done|]. by rewrite <- E.
      * apply (qi_unique q Hi).
      * intros i x [[<- <-]|[_ Hx]]%lookup_insert_Some Ht; [by apply (qi_budget q Hi id a Ha)|by apply (qi_budget q Hi i)].
      * apply (qi_probe q Hi).
    + by eapply granted_inv.
  - by eapply worker_effect_inv.
  - destruct Hi. split; cbn [with_db without_bucket set_actions q_db q_issued q_used ld_actions]; try done;
      intros ? ?; rewrite map_lookup_filter_Some; naive_solver.
  - destruct Hi. split; cbn [q_db q_issued q_used]; try rewrite Ha; try setoid_rewrite Hiss; naive_solver.
Qed.

Lemma row_steps_inv q q' : queue_inv q -> rtc row_step q q' -> queue_inv q'.
Proof. intros Hi Hr. revert Hi. induction Hr as [|x y z Hs _ IH]; [done|]. intros Hi. by apply IH, (row_step_inv x). Qed.

(** ** Who may act *)

Definition holds (c : ClaimedLifecycleAction) (q : Queue) : Prop :=
  exists a, ld_actions (q_db q) !! cl_id c = Some a /\ active_action_claim c a = true.

(** The row has left the claim for good. *)
Definition left_behind (c : ClaimedLifecycleAction) (q : Queue) : Prop :=
  (cl_id c ∈ q_used q)
  /\ forall a, ld_actions (q_db q) !! cl_id c = Some a ->
       cl_claim_epoch c < la_claim_epoch a \/ (cl_claim_epoch c = la_claim_epoch a /\ la_state a <> STATE_CLAIMED).

Lemma active_claim_iff c a :
  active_action_claim c a = true <->
  la_state a = STATE_CLAIMED /\ la_claimed_by a = Some (cl_worker_id c) /\ la_claim_epoch a = cl_claim_epoch c.
Proof. unfold active_action_claim. rewrite !andb_true_iff, String.eqb_eq, bool_decide_eq_true, Z.eqb_eq. tauto. Qed.

Lemma left_behind_iff q c : queue_inv q -> c ∈ q_issued q -> left_behind c q <-> ~ holds c q.
Proof.
  intros Hi Hc. split.
  - intros [_ Hl] (a & Ha & Hact). apply active_claim_iff in Hact as (Hs & _ & He).
    destruct (Hl a Ha) as [?|[_ ?]]; [lia|done].
  - intros Hn. split; [by apply (qi_claims q Hi)|]. intros a Ha.
    destruct (qi_fenced q Hi c a Hc Ha) as [?|[He Hf]]; [by left|]. right. split; [done|]. intros Hs. apply Hn.
    exists a. split; [done|]. apply active_claim_iff. by destruct (Hf Hs) as [? _].
Qed.

Lemma worker_update_state claim a a' :
  worker_update claim a a' -> la_claim_epoch a' = la_claim_epoch a
  /\ (la_state a' = la_state a \/ la_state a' <> STATE_CLAIMED).
Proof. destruct 1 as [| |st ? ? ? Hst]; (split; [done|]); simpl; [by left|by right|]. right. by set_solver. Qed.

Lemma row_step_left_behind c q q' : left_behind c q -> row_step q q' -> left_behind c q'.
Proof.
  intros [Hu Hl]. unfold left_behind.
  destruct 1 as [id a sagas imports Hid _ _|w m now lease id r db' _ [_ He]|claim db' Hc [_ He]
    |bucket|db' issued used Ha _ Hused]; cbn [with_db q_db q_used ld_actions without_bucket set_actions].
  - split; [set_solver|]. intros x [[E _]|[_ Hx]]%lookup_insert_Some; [by rewrite E in Hid|by apply Hl].
  - split; [done|]. destruct He as [[_ ->]|[(a & class & error & _ & Ha & _ & _ & ->)|(a & a' & Ha & _ & _ & Hg & _ & ->)]]; [done| |].
    + intros x [[E <-]|[_ Hx]]%lookup_insert_Some; [|by apply Hl]. subst id. simpl. destruct (Hl a Ha) as [?|[? _]]; [by left|by right].
    + intros x [[E <-]|[_ Hx]]%lookup_insert_Some; [|by apply Hl]. subst id. left. rewrite (gr_epoch _ _ _ _ _ _ Hg).
      destruct (Hl a Ha) as [?|[? _]]; lia.
  - split; [done|]. destruct He as [->|(a & a' & Ha & Hact & Hup & ->)]; [done|].
    intros x [[E <-]|[_ Hx]]%lookup_insert_Some; [|by apply Hl]. apply active_claim_iff in Hact as (Hs & _).
    apply worker_update_state in Hup as [-> Hst]. rewrite E in Ha.
    destruct (Hl a Ha) as [?|[? ?]]; [by left|done].
  - split; [done|]. intros x [Hx _]%map_lookup_filter_Some. by apply Hl.
  - split; [set_solver|]. rewrite Ha. done.
Qed.

Section theorems.
Context `{Chrono} `{ActionCodec}.

Lemma queue_steps_rows q q' : rtc queue_step q q' -> rtc row_step q q'.
Proof. induction 1 as [|x y z Hs _ IH]; [done|]. etrans; [by apply queue_step_rows|done]. Qed.

Lemma reachable_inv q : reachable_queue q -> queue_inv q.
Proof.
  intros (im & sagas & Hr%queue_steps_rows). eapply row_steps_inv; [|done].
  split; cbn [empty_queue q_db q_issued q_used ld_actions]; try set_solver;
    by intros ? ? ?%lookup_empty_Some.
Qed.

(** C14: In every history of the queue, an action has at most one holder: two claims handed out for it that
    still stand on its row are the same claim.  Epochs are never handed out twice, so a worker that
    lost its lease cannot be mistaken for the one that took over, even under the same name. *)
Theorem one_claim_holder (q : Queue) (c c' : ClaimedLifecycleAction)
    (Hq : reachable_queue q) (Hc : c ∈ q_issued q) (Hc' : c' ∈ q_issued q) (Hid : cl_id c = cl_id c') :
  (holds c q -> holds c' q -> c = c') /\ (cl_claim_epoch c = cl_claim_epoch c' -> c = c').
Proof.
  apply reachable_inv in Hq. split; [|by apply (qi_unique q Hq)].
  intros (a & Ha & Hact) (a' & Ha' & Hact'). apply (qi_unique q Hq); try done.
  apply active_claim_iff in Hact as (_ & _ & <-). apply active_claim_iff in Hact' as (_ & _ & <-).
  rewrite Hid, Ha' in Ha. congruence.
Qed.

(** Everything a worker can ask with the claim is refused and changes nothing. *)
Definition refused (c : ClaimedLifecycleAction) (db : LifecycleDb) : Prop :=
  (forall now r db', lock_claim_for_execution c now db = Ok (r, db') -> r = None /\ db' = db)
  /\ (forall now, mark_succeeded c now db = Ok (false, db))
  /\ (forall now class, is_allowed_failure_class class = true ->
        mark_cancelled c now class db = Ok (false, db) /\ mark_failed_safe c now class db = Ok (false, db))
  /\ (forall now next class, is_allowed_failure_class class = true -> now < next ->
        schedule_retry c now next class db = Ok (false, db)).

Lemma not_holding_refused c q : ~ holds c q -> refused c (q_db q).
Proof.
  intros Hn. assert (forall a, ld_actions (q_db q) !! cl_id c = Some a -> active_action_claim c a = false) as Hs.
  { intros a Ha. apply not_true_is_false. intros Hact. apply Hn. by exists a. }
  assert (forall f, update_action (cl_id c) (fun _ => active_action_claim c) f (q_db q) = Ok (false, q_db q)) as Hu
    by (intros f; apply update_action_ok; by right).
  assert (forall class, is_allowed_failure_class class = true -> validate_failure_class class = Ok tt) as Hv
    by (intros class Hcl; unfold validate_failure_class; by rewrite Hcl).
  split; [|split; [|split]].
  - intros now r db' E. split; [by eapply lock_claim_stale|by apply lock_claim_ok in E as [-> _]].
  - intros now. apply Hu.
  - intros now class Hcl. unfold mark_cancelled, mark_failed_safe, terminal_failure_update, t_bind, t_lift.
    rewrite (Hv class Hcl). cbn [rbind]. by rewrite !Hu.
  - intros now next class Hcl Hlt. unfold schedule_retry, t_bind, t_lift. rewrite (Hv class Hcl). cbn [rbind].
    rewrite (proj2 (Z.leb_gt next now)) by lia. apply Hu.
Qed.

(** C15: A claim that lost its row stays lost: whatever transactions follow, it never holds the action
    again, and every attempt to execute, complete, fail or retry the action with it is refused
    without an effect. *)
Theorem stale_claim_refused (q q' : Queue) (c : ClaimedLifecycleAction)
    (Hq : reachable_queue q) (Hc : c ∈ q_issued q) (Hlost : ~ holds c q) (Hlater : rtc queue_step q q') :
  ~ holds c q' /\ refused c (q_db q').
Proof.
  assert (~ holds c q') as Hn; [|split; [done|by apply not_holding_refused]].
  apply reachable_inv in Hq. apply queue_steps_rows in Hlater.
  apply (left_behind_iff q c Hq Hc) in Hlost.
  assert (left_behind c q') as [_ Hl].
  { clear Hq Hc. induction Hlater as [|x y z Hs _ IH]; [done|]. by apply IH, (row_step_left_behind c x). }
  intros (a & Ha & Hact). apply active_claim_iff in Hact as (Hs & _ & He). destruct (Hl a Ha) as [?|[_ ?]]; [lia|done].
Qed.

(** ** Leases *)

Lemma live_not_due now id db a until :
  la_state a = STATE_CLAIMED -> la_lease_until a = Some until -> now < until -> due_action now id db a = false.
Proof.
  intros Hs Hl Hlt. unfold due_action. rewrite Hs, Hl. cbn [is_some_and].
  rewrite (proj2 (Z.leb_gt until now)) by lia. done.
Qed.

Lemma claim_effect_other worker_id max_attempts now lease_until id db r db' id' :
  claim_effect worker_id max_attempts now lease_until id db r db' -> id' <> id ->
  ld_actions db' !! id' = ld_actions db !! id'.
Proof.
  intros [_ [[_ ->]|[(a & ? & ? & _ & _ & _ & _ & ->)|(a & a' & _ & _ & _ & _ & _ & ->)]]] Hne; [done|by rewrite lookup_insert_ne..].
Qed.

Lemma claim_effect_id worker_id max_attempts now lease_until id db c db' :
  claim_effect worker_id max_attempts now lease_until id db (Some c) db' -> cl_id c = id.
Proof. intros [_ [[? _]|[(? & ? & ? & ? & _)|(a & a' & _ & _ & _ & _ & [= ->] & _)]]]; done. Qed.

(** What the claiming loop runs on *)
Lemma claim_due_loop worker_id lease_for max_attempts limit now1 now2 skipped db claims db' :
  claim_due_with_max_attempts worker_id lease_for max_attempts limit now1 now2 skipped db = Ok (claims, db') ->
  0 < lease_for /\ 1 <= max_attempts <= MAX_LIFECYCLE_ACTION_ATTEMPTS
  /\ exists lease_until locked, checked_add_signed now2 lease_for = Some lease_until
     /\ (forall row, row ∈ due_candidates now1 limit db ->
           ac_bucket (la_columns row.2) ∈ im_buckets (ld_imports db) -> ac_bucket (la_columns row.2) ∈ locked)
     /\ t_filter_map (claim_action_step worker_id max_attempts now2 lease_until skipped locked)
          (due_candidates now1 limit db) db = Ok (claims, db').
Proof.
  unfold claim_due_with_max_attempts, claim_due_in_transaction, validate_claim_request, validate_lease_duration.
  intros (u & s & [Hv ->]%t_lift_ok & [Hm E]%stop_ok)%t_bind_ok.
  apply negb_false_iff, andb_true_iff in Hm as [?%Z.leb_le ?%Z.leb_le].
  apply bail_ok in Hv as [_ Hv]. apply rbind_ok in Hv as (v & [Hl _]%bail_ok & _).
  apply orb_false_iff in Hl as [?%Z.leb_gt _]. split; [lia|]. split; [done|].
  apply t_bind_ok in E as (candidates & s & [-> ->]%t_reads_ok & E).
  apply t_bind_ok in E as (locked & s & [-> Hlocked]%bucket_locks_found & E).
  apply t_bind_ok in E as (lease_until & s & [Hc ->]%t_some_ok & E). exists lease_until, locked.
  split; [done|]. split; [|done]. intros row Hrow. apply Hlocked. unfold distinct_buckets.
  rewrite sort_by_perm, elem_of_remove_dups. by apply (list_elem_of_fmap_2 (fun r => ac_bucket (la_columns r.2))).
Qed.

(** A live lease is respected: as long as the lease of a claimed action has not run out at the
    clock reading of a claiming transaction, that transaction leaves the row as it is and hands out
    no claim for it, whatever its worker, limits and budget. *)
Theorem live_lease_respected (worker_id : string) (lease_for max_attempts limit now1 now2 : Z)
    (skipped : string -> bool) (db db' : LifecycleDb) (claims : list ClaimedLifecycleAction)
    (id : string) (a : LifecycleAction) (until : Z)
    (Hrow : ld_actions db !! id = Some a) (Hstate : la_state a = STATE_CLAIMED)
    (Hlease : la_lease_until a = Some until) (Hlive : now2 < until)
    (Hclaim : claim_due_with_max_attempts worker_id lease_for max_attempts limit now1 now2 skipped db
              = Ok (claims, db')) :
  ld_actions db' !! id = Some a /\ Forall (fun c => cl_id c <> id) claims.
Proof.
  apply claim_due_loop in Hclaim as (_ & _ & lease_until & locked & _ & _ & E). revert E.
  apply (t_filter_map_ind _ (fun acc d => ld_actions d !! id = Some a /\ Forall (fun c => cl_id c <> id) acc)); [|done].
  intros row r acc d1 d2 He%claim_action_step_effect [Ha Hacc].
  destruct (decide (row.1 = id)) as [<-|Hne].
  - destruct He as [_ [[-> Hsame]|[(x & ? & ? & _ & Hx & Hdue & _)|(x & x' & Hx & Hdue & _)]]].
    + rewrite Hsame. by rewrite app_nil_r.
    + rewrite Ha in Hx. injection Hx as <-. by rewrite (live_not_due _ _ _ _ until) in Hdue.
    + rewrite Ha in Hx. injection Hx as <-. by rewrite (live_not_due _ _ _ _ until) in Hdue.
  - split; [by erewrite claim_effect_other|]. apply Forall_app. split; [done|].
    destruct r as [c|]; [|done]. apply claim_effect_id in He. constructor; [congruence|done].
Qed.

(** ** Finished actions *)

(** Succeeded, cancelled, or given up without a transition to settle *)
Definition settled (a : LifecycleAction) : Prop :=
  la_state a = STATE_SUCCEEDED \/ la_state a = STATE_CANCELLED
  \/ (la_state a = STATE_FAILED_SAFE /\ is_transition_action a = false).

Lemma settled_not_due now id db a : settled a -> due_action now id db a = false.
Proof. intros [Hs|[Hs|[Hs Ht]]]; unfold due_action; rewrite Hs; [done|done|]. by rewrite Ht. Qed.

Lemma settled_not_active c a : settled a -> active_action_claim c a = false.
Proof. intros Hs. apply not_true_is_false. intros [E _]%active_claim_iff. unfold settled in Hs. rewrite E in Hs. naive_solver. Qed.

(** The row is as it was, or went with its bucket. *)
Definition kept (id : string) (a : LifecycleAction) (q : Queue) : Prop :=
  (id ∈ q_used q) /\ forall x, ld_actions (q_db q) !! id = Some x -> x = a.

Lemma row_step_kept id a q q' : settled a -> kept id a q -> row_step q q' -> kept id a q'.
Proof.
  intros Hset [Hu Hk]. unfold kept.
  destruct 1 as [i r sagas imports Hid _ _|w m now lease i r db' _ [_ He]|claim db' Hc [_ He]
    |bucket|db' issued used Ha _ Hused]; cbn [with_db q_db q_used ld_actions without_bucket set_actions].
  - split; [set_solver|]. intros x [[-> _]|[_ Hx]]%lookup_insert_Some; [done|by apply Hk].
  - split; [done|]. destruct He as [[_ ->]|[(y & class & error & _ & Hy & Hdue & _ & ->)|(y & y' & Hy & Hdue & _ & _ & _ & ->)]]; [done| |];
      (intros x [[-> _]|[_ Hx]]%lookup_insert_Some; [|by apply Hk]); apply Hk in Hy as ->; by rewrite settled_not_due in Hdue.
  - split; [done|]. destruct He as [->|(y & y' & Hy & Hact & _ & ->)]; [done|].
    intros x [[E _]|[_ Hx]]%lookup_insert_Some; [|by apply Hk]. rewrite E in Hy. apply Hk in Hy as ->.
    by rewrite settled_not_active in Hact.
  - split; [done|]. intros x [Hx _]%map_lookup_filter_Some. by apply Hk.
  - split; [set_solver|]. rewrite Ha. done.
Qed.

(** C29: A finished action is final.  Once an action has succeeded, was cancelled, or was given up without
    a transition left to settle, no later transaction changes its row in any column; it can only
    disappear with its bucket. *)
Theorem finished_action_final (q q' : Queue) (id : string) (a : LifecycleAction)
    (Hq : reachable_queue q) (Hrow : ld_actions (q_db q) !! id = Some a) (Hset : settled a)
    (Hlater : rtc queue_step q q') :
  ld_actions (q_db q') !! id = Some a \/ ld_actions (q_db q') !! id = None.
Proof.
  apply reachable_inv in Hq. apply queue_steps_rows in Hlater.
  assert (kept id a q) as Hk by (split; [by apply (qi_rows q Hq id a)|congruence]).
  assert (kept id a q') as [_ Hk'].
  { clear Hq Hrow. induction Hlater as [|x y z Hs _ IH]; [done|]. by apply IH, (row_step_kept id a x). }
  destruct (ld_actions (q_db q') !! id) as [x|]; [left|by right]. by rewrite (Hk' x).
Qed.

(** Retries are bounded.  In every history an expiration, marker or upload action is charged at most
    nine attempts, the limit of eight and one recovery, however many workers with whatever limits
    claim, crash, wait for dependencies and retry. *)
Theorem attempts_bounded (q : Queue) (id : string) (a : LifecycleAction)
    (Hq : reachable_queue q) (Hrow : ld_actions (q_db q) !! id = Some a) (Hkind : is_transition_action a = false) :
  la_attempts a <= MAX_LIFECYCLE_ACTION_ATTEMPTS + 1.
Proof. apply reachable_inv in Hq. by apply (qi_budget q Hq id). Qed.

(** ** What a claiming transaction grants *)

Lemma due_candidates_facts now limit db :
  StronglySorted (key_le (fun r : string * LifecycleAction => (ac_due_at (la_columns r.2), r.1))) (due_candidates now limit db)
  /\ NoDup (fst <$> due_candidates now limit db) /\ (length (due_candidates now limit db) <= Z.to_nat limit)%nat
  /\ forall row, row ∈ due_candidates now limit db -> ld_actions db !! row.1 = Some row.2.
Proof.
  unfold due_candidates. set (key := fun r : string * LifecycleAction => (ac_due_at (la_columns r.2), r.1)).
  set (rows := filter _ _). split; [|split; [|split; [rewrite length_take; lia|]]].
  - apply (StronglySorted_app_1_l _ _ (drop (Z.to_nat limit) (sort_by (by_key key) rows))).
    rewrite take_drop. apply sort_by_sorted.
  - eapply sublist_NoDup; [|apply fmap_sublist, sublist_take]. rewrite sort_by_perm.
    eapply sublist_NoDup; [apply (NoDup_fst_map_to_list (ld_actions db))|apply fmap_sublist, sublist_filter].
  - intros [id a] Hin. eapply elem_of_sublist in Hin; [|apply sublist_take]. unfold rows in Hin. rewrite sort_by_perm in Hin.
    apply list_elem_of_filter in Hin as [_ Hin]. by apply elem_of_map_to_list in Hin.
Qed.

(** What is true of a claim that was granted *)
Definition claim_facts (worker_id : string) (max_attempts now lease_until : Z) (db db' : LifecycleDb)
    (c : ClaimedLifecycleAction) : Prop :=
  exists a, ld_actions db !! cl_id c = Some a /\ due_action now (cl_id c) db a = true
    /\ ~ budget_spent max_attempts (cl_id c) db a /\ granted worker_id max_attempts now lease_until a (cl_action c)
    /\ ld_actions db' !! cl_id c = Some (cl_action c)
    /\ active_action_claim c (cl_action c) = true.

(** What is true of a row that was not: it is unchanged, or its budget was spent and it is given up *)
Definition unclaimed_facts (max_attempts now : Z) (db db' : LifecycleDb) (id : string) : Prop :=
  ld_actions db' !! id = ld_actions db !! id
  \/ exists a class error, ld_actions db !! id = Some a /\ due_action now id db a = true
       /\ budget_spent max_attempts id db a
       /\ ld_actions db' !! id = Some (finished STATE_FAILED_SAFE class error now a).

Lemma claim_facts_other worker_id max_attempts now lease_until db d1 d2 c :
  ld_actions d2 !! cl_id c = ld_actions d1 !! cl_id c ->
  claim_facts worker_id max_attempts now lease_until db d1 c -> claim_facts worker_id max_attempts now lease_until db d2 c.
Proof. intros E (a & ? & ? & ? & ? & ? & ?). exists a. by rewrite E. Qed.

(** The rows [due] that the loop may not pass over are claimed or have spent their budget. *)
Definition claim_loop_inv (due : string * LifecycleAction -> Prop)
    (worker_id : string) (max_attempts now lease_until : Z) (db : LifecycleDb)
    (seen : list (string * LifecycleAction)) (acc : list ClaimedLifecycleAction) (d : LifecycleDb) : Prop :=
  ld_sagas d = ld_sagas db
  /\ (cl_id <$> acc) `sublist_of` (fst <$> seen)
  /\ (forall id, id ∉ fst <$> seen -> ld_actions d !! id = ld_actions db !! id)
  /\ Forall (claim_facts worker_id max_attempts now lease_until db d) acc
  /\ (forall id, id ∉ cl_id <$> acc -> unclaimed_facts max_attempts now db d id)
  /\ (forall row, row ∈ seen -> due row -> row.1 ∉ cl_id <$> acc -> budget_spent max_attempts row.1 db row.2).

Lemma claim_loop_inv_step due worker_id max_attempts now lease_until db seen x acc d1 r d2 :
  x.1 ∉ fst <$> seen -> claim_effect worker_id max_attempts now lease_until x.1 d1 r d2 ->
  (r = None -> due x -> budget_spent max_attempts x.1 d1 x.2) ->
  claim_loop_inv due worker_id max_attempts now lease_until db seen acc d1 ->
  claim_loop_inv due worker_id max_attempts now lease_until db (seen ++ [x]) (acc ++ option_list r) d2.
Proof.
  intros Hx He Hpass (Hs & Hsub & Hrest & Hacc & Hun & Hdues).
  assert (forall id, id <> x.1 -> ld_actions d2 !! id = ld_actions d1 !! id) as Hother
    by (intros id Hne; by eapply claim_effect_other).
  assert (forall c, c ∈ acc -> cl_id c <> x.1) as Hnew.
  { intros c Hc E. apply Hx. rewrite <- E. eapply elem_of_sublist; [|done]. by apply list_elem_of_fmap_2. }
  assert (Forall (claim_facts worker_id max_attempts now lease_until db d2) acc) as Hacc2.
  { rewrite Forall_forall in Hacc |- *. intros c Hc. eapply claim_facts_other; [|by apply Hacc]. by apply Hother, Hnew. }
  assert (forall id, id ∉ cl_id <$> acc -> id <> x.1 -> unclaimed_facts max_attempts now db d2 id) as Hun2.
  { intros id Hid Hne. unfold unclaimed_facts. rewrite Hother by done. by apply Hun. }
  assert (ld_actions d1 !! x.1 = ld_actions db !! x.1) as Hrow by by apply Hrest.
  unfold claim_loop_inv. rewrite !fmap_app. cbn [fmap list_fmap].
  assert (forall id, id ∉ (fst <$> seen) ++ [x.1] -> ld_actions d2 !! id = ld_actions db !! id) as Hrest2
    by (intros id Hid; rewrite Hother by set_solver; apply Hrest; set_solver).
  assert (forall row, row ∈ seen ++ [x] -> due row -> row.1 ∉ cl_id <$> acc ++ option_list r ->
    budget_spent max_attempts row.1 db row.2) as Hdues2.
  { intros row [Hin| ->%list_elem_of_singleton]%elem_of_app Hd Hid; rewrite fmap_app, not_elem_of_app in Hid.
    - by apply Hdues; [..|apply Hid].
    - apply (budget_spent_same _ _ db d1); [done|]. apply Hpass; [|done]. destruct r as [c|]; [|done].
      apply claim_effect_id in He. simpl in Hid. set_solver. }
  destruct He as [Hs2 [[-> Hsame]|[(a & class & error & -> & Ha & Hdue & Hb & Hins)|(a & a' & Ha & Hdue & Hb & Hg & -> & Hins)]]];
    cbn [option_list fmap list_fmap]; rewrite ?app_nil_r.
  - split; [congruence|]. split; [by apply sublist_inserts_r|]. do 2 (split; [done|]).
    split; [|by simpl in Hdues2; rewrite app_nil_r in Hdues2]. intros id Hid. unfold unclaimed_facts. rewrite Hsame. by apply Hun.
  - split; [congruence|]. split; [by apply sublist_inserts_r|]. do 2 (split; [done|]).
    split; [|by simpl in Hdues2; rewrite app_nil_r in Hdues2]. intros id Hid. destruct (decide (id = x.1)) as [->|]; [|by apply Hun2]. right. exists a, class, error.
    rewrite <- Hrow, Hins, lookup_insert_eq. rewrite <- (due_action_same _ _ db d1), <- (budget_spent_same _ _ db d1) by done. done.
  - split; [congruence|]. split; [by apply sublist_app|]. split; [done|].
    split; [|split; [|by rewrite fmap_app in Hdues2]].
    + apply Forall_app. split; [done|]. constructor; [|done]. exists a. cbn [cl_id cl_action].
      rewrite <- Hrow, Hins, lookup_insert_eq. rewrite <- (due_action_same _ _ db d1), <- (budget_spent_same _ _ db d1) by done.
      do 5 (split; [done|]). apply active_claim_iff.
      split; [by apply (gr_state _ _ _ _ _ _ Hg)|]. split; [by apply (gr_worker _ _ _ _ _ _ Hg)|done].
    + intros id Hid. apply Hun2; set_solver.
Qed.

(** C30: A claiming transaction hands out due actions in order of due time and identifier, at most [limit]
    of them and none twice.  Each claim is on a row that was due at the transaction's clock, carries
    the next epoch and a lease from that clock, is charged one attempt unless it only probes a
    dependency, and stands on its row when the transaction commits; its budget was not spent.  Every
    other row is unchanged, except due ones whose budget was spent, which are given up; and no
    candidate of an existing bucket that is still due and not locked by another transaction is passed
    over while it has budget left. *)
Theorem claim_due_spec (worker_id : string) (lease_for max_attempts limit now1 now2 : Z)
    (skipped : string -> bool) (db db' : LifecycleDb) (claims : list ClaimedLifecycleAction)
    (Hclaim : claim_due_with_max_attempts worker_id lease_for max_attempts limit now1 now2 skipped db
              = Ok (claims, db')) :
  exists lease_until,
    checked_add_signed now2 lease_for = Some lease_until
    /\ (cl_id <$> claims) `sublist_of` (fst <$> due_candidates now1 limit db)
    /\ StronglySorted (key_le (fun r : string * LifecycleAction => (ac_due_at (la_columns r.2), r.1)))
         (due_candidates now1 limit db)
    /\ NoDup (cl_id <$> claims) /\ (length claims <= Z.to_nat limit)%nat
    /\ Forall (claim_facts worker_id max_attempts now2 lease_until db db') claims
    /\ (forall id, id ∉ cl_id <$> claims -> unclaimed_facts max_attempts now2 db db' id)
    /\ (forall id a, (id, a) ∈ due_candidates now1 limit db -> ac_bucket (la_columns a) ∈ im_buckets (ld_imports db) ->
          due_action now2 id db a = true -> skipped id = false ->
          (id ∈ cl_id <$> claims) \/ budget_spent max_attempts id db a).
Proof.
  apply claim_due_loop in Hclaim as (_ & _ & lease_until & locked & Hl & Hlocked & E).
  destruct (due_candidates_facts now1 limit db) as (Hsort & Hnd & Hlen & Hrows).
  apply (t_filter_map_prefix _ (claim_loop_inv
    (fun row => ac_bucket (la_columns row.2) ∈ im_buckets (ld_imports db) /\ due_action now2 row.1 db row.2 = true
                /\ skipped row.1 = false) worker_id max_attempts now2 lease_until db)) in E
    as (_ & Hsub & _ & Hf & Hun & Hdues).
  - exists lease_until. do 3 (split; [done|]). split; [by eapply sublist_NoDup|].
    split; [apply sublist_length in Hsub; rewrite !length_fmap in Hsub; lia|]. do 2 (split; [done|]).
    intros id a Hin Hb Hdue Hsk. destruct (decide (id ∈ cl_id <$> claims)); [by left|right]. by apply (Hdues (id, a)).
  - intros seen x post y acc d1 d2 Heq He Hinv.
    assert (x ∈ due_candidates now1 limit db) as Hx by (rewrite Heq; set_solver).
    rewrite Heq, fmap_app, fmap_cons in Hnd. apply NoDup_app in Hnd as (_ & Hd & _).
    assert (x.1 ∉ fst <$> seen) as Hnew by (intros Hin; apply (Hd _ Hin); by left).
    eapply claim_loop_inv_step; [done|by eapply claim_action_step_effect| |done].
    intros -> (Hb & Hdue & Hsk). destruct Hinv as (Hs & _ & Hrest & _).
    eapply claim_action_step_passes; [done|by rewrite Hrest; [apply Hrows|]|by apply Hlocked|by rewrite (due_action_same _ _ db)|done].
  - split; [done|]. split; [done|]. split; [done|]. split; [done|]. split; [intros id _; by left|set_solver].
Qed.

(** ** Stored targets *)

(** The kind of version an action kind is for *)
Definition kind_agrees (action : NewLifecycleAction) : bool :=
  match act_target action, act_kind action with
  | TargetVersion t, ExpireCurrent => bool_decide (vt_kind t = KObject)
  | TargetVersion t, DeleteExpiredMarker => bool_decide (vt_kind t = KDeleteMarker)
  | _, _ => true
  end.

Lemma action_kind_roundtrip kind : action_kind_from_db (persisted_action_kind kind) = Ok kind.
Proof. by destruct kind. Qed.

Lemma validate_target_ok t :
  validate_target t = Ok tt ->
  (vt_kind t = KObject /\ exists o, vt_object_id t = Some o /\ o <> EmptyString)
  \/ (vt_kind t = KDeleteMarker /\ vt_object_id t = None).
Proof.
  unfold validate_target. destruct (vt_kind t), (vt_object_id t) as [o|]; try done; [|by right].
  destruct o; [done|]. left. split; [done|]. by eexists.
Qed.

Lemma version_identity_ok action t :
  act_target action = TargetVersion t -> validate_action_identity action = Ok tt ->
  str_is_empty (act_bucket action) = false /\ (act_config_revision action <=? 0) = false
  /\ act_kind action <> AbortIncompleteMultipartUpload /\ vt_bucket t = act_bucket action
  /\ str_is_empty (vt_key t) = false /\ str_is_empty (vt_version_row_id t) = false /\ 0 <= vt_sequence t
  /\ validate_target t = Ok tt
  /\ (is_transition_kind (act_kind action) = true -> vt_kind t = KObject)
  /\ str_is_empty (as_s3_str (vt_public_version_id t)) = false.
Proof.
  intros Ht. unfold validate_action_identity. rewrite Ht. intros [[Hb Hr]%orb_false_iff Hv]%bail_ok.
  destruct (act_kind action) eqn:Hk; try done; apply bail_ok in Hv as [Hg Hv];
    rewrite !orb_false_iff, negb_false_iff, String.eqb_eq, Z.ltb_ge in Hg; destruct Hg as [[[? ?] ?] ?];
    apply rbind_ok in Hv as ([] & Hvt & Hv); apply bail_ok in Hv as [Htr Hv]; apply bail_ok in Hv as [Hp _];
    (repeat split; try done); simpl in Htr; rewrite negb_false_iff, bool_decide_eq_true in Htr; done.
Qed.

Lemma multipart_identity_ok action t :
  act_target action = TargetMultipart t -> validate_action_identity action = Ok tt ->
  str_is_empty (act_bucket action) = false /\ (act_config_revision action <=? 0) = false
  /\ act_kind action = AbortIncompleteMultipartUpload /\ mt_bucket t = act_bucket action
  /\ str_is_empty (mt_key t) = false /\ str_is_empty (mt_upload_id t) = false.
Proof.
  intros Ht. unfold validate_action_identity. rewrite Ht. intros [[Hb Hr]%orb_false_iff Hv]%bail_ok.
  destruct (act_kind action); try done. destruct (String.eqb_spec (mt_bucket t) (act_bucket action)); [|done].
  by destruct (str_is_empty (mt_key t)), (str_is_empty (mt_upload_id t)).
Qed.

Lemma nonempty_column_some s : str_is_empty s = false -> nonempty_column (Some s) = Ok s.
Proof. intros E. unfold nonempty_column. simpl. by rewrite E. Qed.
End theorems.

(** ** Retry delays *)

(** The saturating arithmetic of the delay never shows: it is the doubled base, capped. *)
Lemma retry_delay_spec attempts base max_backoff :
  0 <= base -> 0 <= max_backoff <= u64_max ->
  retry_delay_secs attempts base max_backoff
  = Z.min max_backoff (base * 2 ^ Z.min (Z.max (attempts - 1) 0) 62).
Proof.
  intros Hb Hm. unfold retry_delay_secs, u64_saturating_mul.
  set (index := Z.max (attempts - 1) 0).
  assert (Z.min (if index <=? u32_max then index else 62) 62 = Z.min index 62) as ->.
  { destruct (Z.leb_spec index u32_max); unfold u32_max in *; lia. }
  rewrite (proj2 (Z.ltb_lt (Z.min index 62) 64)) by lia. rewrite Z.shiftl_mul_pow2, Z.mul_1_l by lia. lia.
Qed.

Section targets.
Context `{UuidLaws} `{ActionCodec}.

Lemma version_target_decodes action t validated now :
  act_target action = TargetVersion t -> validate_action_identity action = Ok tt ->
  validated.2 = persisted_action_kind (act_kind action) ->
  parse_s3 (as_s3_str (vt_public_version_id t)) = Ok (vt_public_version_id t) ->
  target_from_action (la_columns (new_action action validated now))
  = if kind_agrees action then Ok (act_target action) else Err invalid_persisted_action_identity.
Proof.
  intros Ht Hv Hk Hp.
  destruct (version_identity_ok action t Ht Hv) as (Hb & Hr & Hne & Hbk & Hkey & Hrow & Hseq & Hvt & Htr & Hpub).
  unfold target_from_action, new_action, kind_agrees. rewrite Ht. cbn [la_columns ac_bucket ac_object_key
    ac_config_revision ac_action_kind ac_target_type ac_target_version_row_id ac_target_public_version_id
    ac_target_object_id ac_target_sequence ac_target_upload_id ac_target_upload_created_at].
  rewrite Hb, Hkey, Hr, Hk, action_kind_roundtrip. cbn [orb rbind String.eqb Ascii.eqb Bool.eqb is_some].
  rewrite bool_decide_eq_false_2 by done. cbn [orb]. rewrite !nonempty_column_some by done. cbn [rbind mbind option_bind].
  rewrite (proj2 (Z.leb_le 0 (vt_sequence t))) by done. cbn [ok_or rbind].
  destruct t as [tb tk tr tp tkind to ts]. cbn in *. subst tb.
  apply validate_target_ok in Hvt as [(Hkd & o & Ho & _)|(Hkd & Ho)]; cbn in Hkd, Ho; subst tkind to;
    destruct (act_kind action); try done; cbn [stored_kind rbind ac_target_object_id is_some]; rewrite ?Hp; cbn; try done;
    by specialize (Htr eq_refl).
Qed.

Lemma multipart_target_decodes action t validated now :
  act_target action = TargetMultipart t -> validate_action_identity action = Ok tt ->
  validated.2 = persisted_action_kind (act_kind action) ->
  target_from_action (la_columns (new_action action validated now)) = Ok (act_target action).
Proof.
  intros Ht Hv Hk. destruct (multipart_identity_ok action t Ht Hv) as (Hb & Hr & Hkind & Hbk & Hkey & Hup).
  unfold target_from_action, new_action. rewrite Ht. cbn [la_columns ac_bucket ac_object_key
    ac_config_revision ac_action_kind ac_target_type ac_target_version_row_id ac_target_public_version_id
    ac_target_object_id ac_target_sequence ac_target_upload_id ac_target_upload_created_at].
  rewrite Hb, Hkey, Hr, Hk, action_kind_roundtrip, Hkind. cbn [orb rbind].
  rewrite nonempty_column_some by done. destruct t as [tb tk tu ti]. cbn in *. by subst tb.
Qed.

(** What the scanner queued is what a worker reads back: decoding the row of a newly inserted action
    gives its exact target identity, bucket, key, version or upload.  The one exception is an
    expiration queued for a delete marker, or a marker deletion queued for an object, which decoding
    refuses as inconsistent. *)
Theorem queued_target_roundtrip (id : string) (action : NewLifecycleAction) (now : Z) (db db' : LifecycleDb)
    (Hversion : forall t, act_target action = TargetVersion t ->
       parse_s3 (as_s3_str (vt_public_version_id t)) = Ok (vt_public_version_id t))
    (Hinsert : insert_idempotent id action now db = Ok (true, db')) :
  exists row, ld_actions db' !! id = Some row
    /\ target_from_action (la_columns row)
       = if kind_agrees action then Ok (act_target action) else Err invalid_persisted_action_identity.
Proof.
  apply insert_effect in Hinsert as [_ [[? _]|(_ & _ & v & Hv & ->)]]; [done|].
  exists (new_action action v now). split; [by rewrite lookup_insert_eq|].
  unfold validate_action in Hv. apply rbind_ok in Hv as ([] & Hid & Hv).
  apply rbind_ok in Hv as (bytes & _ & [= <-]).
  destruct (act_target action) as [t|t] eqn:Ht.
  - rewrite <- Ht. by eapply version_target_decodes; [| | |apply Hversion].
  - rewrite <- Ht. assert (kind_agrees action = true) as -> by (unfold kind_agrees; by rewrite Ht).
    by eapply multipart_target_decodes.
Qed.
End targets.
