(* ===== verification/Revalidation.v ===== *)
(** * Revalidation of a claimed lifecycle action ([src/lifecycle/revalidation.rs])

    Before a transition is prepared or published, the worker reads the configuration, the version, its
    tags, its role among the versions of its key and its residency again, in the transaction that acts
    on them, and evaluates the rules anew.  This file has the tables of such a transaction, the reading
    of a candidate ([src/lifecycle/actions.rs], [src/store/lifecycle_scan.rs]) and the comparison of the
    evaluated action with the queued one. *)

From Stdlib Require Import ZArith Lia Ascii.
From Stdlib Require String.
From stdpp Require Import base list strings pretty gmap.
From S2P Require Import Prelude Errors Chrono VersionModel LifecycleModel LifecycleConfig LifecycleEval Database Transaction.
From S2P Require Import ObjectStore ResidencyStore VersionStore ImportDb Ownership LifecycleActions LifecycleQueue.

#[local] Open Scope string_scope.
#[local] Open Scope list_scope.
#[local] Open Scope Z_scope.
#[local] Open Scope rust_scope.

(** ** The tables of a lifecycle worker *)

(** A row of [bucket_lifecycle_configs] but its bucket, which is the key *)
Record LifecycleConfigRow : Type := {
  lc_canonical_json : option string;
  lc_revision : Z;
  lc_scan_cursor : option string;
  lc_scan_lease_epoch : Z;
  lc_scan_lease_until : option Z;
  lc_created_at : Z;
  lc_updated_at : Z;
  lc_last_scanned_at : option Z
}.

(** The columns of [multipart_uploads] and [multipart_parts] that an action reads: the uploads by their
    identifier, the contents of the parts by upload and number *)
Record UploadRow : Type := { mu_bucket : string; mu_key : string; mu_created_at : Z }.
Record UploadTables : Type := { up_uploads : gmap string UploadRow; up_parts : gmap (string * Z) string }.

(** The queue with the mutation tickets, the objects with their residencies, the configurations by
    bucket, the values of the tags by object and key, and the uploads.  No operation of a worker writes the table of
    buckets, which the first two components both read. *)
Record WorkerDb : Type := {
  wd_lifecycle : LifecycleDb;
  wd_objects : Db;
  wd_configs : gmap string LifecycleConfigRow;
  wd_tags : gmap (string * string) string;
  wd_uploads : UploadTables
}.

Abbreviation WTx := (Txn WorkerDb).

Definition set_lifecycle (lifecycle : LifecycleDb) (db : WorkerDb) : WorkerDb :=
  {| wd_lifecycle := lifecycle; wd_objects := wd_objects db; wd_configs := wd_configs db; wd_tags := wd_tags db;
     wd_uploads := wd_uploads db |}.
Definition set_worker_objects (objects : Db) (db : WorkerDb) : WorkerDb :=
  {| wd_lifecycle := wd_lifecycle db; wd_objects := objects; wd_configs := wd_configs db; wd_tags := wd_tags db;
     wd_uploads := wd_uploads db |}.

(** Statements on one group of tables, in the same transaction *)
Definition on_lifecycle {A} (m : LTx A) : WTx A := fun db =>
  let? '(a, lifecycle) := m (wd_lifecycle db) in Ok (a, set_lifecycle lifecycle db).
Definition on_objects {A} (m : Tx A) : WTx A := fun db =>
  let? '(a, objects) := m (wd_objects db) in Ok (a, set_worker_objects objects db).
Definition on_tickets {A} (m : ITx A) : WTx A := on_lifecycle (on_imports m).

Lemma on_lifecycle_ok {A} (m : LTx A) db a db' :
  on_lifecycle m db = Ok (a, db') <->
  exists lifecycle, m (wd_lifecycle db) = Ok (a, lifecycle) /\ db' = set_lifecycle lifecycle db.
Proof.
  unfold on_lifecycle. rewrite rbind_ok. split.
  - intros ([a' l] & E & [= -> <-]). by exists l.
  - intros (l & E & ->). by exists (a, l).
Qed.

Lemma on_objects_ok {A} (m : Tx A) db a db' :
  on_objects m db = Ok (a, db') <->
  exists objects, m (wd_objects db) = Ok (a, objects) /\ db' = set_worker_objects objects db.
Proof.
  unfold on_objects. rewrite rbind_ok. split.
  - intros ([a' l] & E & [= -> <-]). by exists l.
  - intros (l & E & ->). by exists (a, l).
Qed.

(** ** What is read of a version *)

Section candidate.
Context `{Uuid}.

Definition target_matches_row (selected : VersionRow) (t : VersionTargetIdentity) : AppResult bool :=
  if String.eqb (v_bucket selected) (vt_bucket t) && String.eqb (v_key selected) (vt_key t)
     && (v_sequence selected =? vt_sequence t) && bool_decide (v_object_id selected = vt_object_id t) then
    let? kind := version_kind selected in
    if bool_decide (kind = vt_kind t) then
      let? public := public_version_id selected in Ok (bool_decide (public = vt_public_version_id t))
    else Ok false
  else Ok false.

(** The versioning state of the bucket, the storage class, and whether the hot copy is verified *)
Definition version_evaluation_facts (row : VersionRow) (joined_object : option ObjectRow)
  : Tx (BucketVersioningState * option StorageClass * bool) :=
  let! state := get_versioning_state (v_bucket row) in
  let! kind := lift (version_kind row) in
  if bool_decide (kind = KDeleteMarker) then tx_ret (state, None, false) else
  let! object := lift (ok_or (Internal "lifecycle content version has no object") joined_object) in
  fail_if negb (bool_decide (v_object_id row = Some (o_id object)))
          || negb (String.eqb (v_bucket row) (o_bucket object)) || negb (String.eqb (v_key row) (o_key object))
    with Internal "lifecycle content owner mismatch" else
  let! residency := reads (find_residency (v_id row)) in
  if is_none residency then tx_ret (state, Some Standard, false) else
  let! resolved := resolve_version_residency (v_id row) in
  tx_ret (state, Some (rvr_storage_class resolved),
    bool_decide (loc_tier (rvr_primary resolved) = Hot)
    && bool_decide (ps_verification_state (rvr_physical resolved) = VVerified)).

Definition multipart_reached_revalidation : AppError :=
  Internal "multipart lifecycle action reached version revalidation".

Definition expected_role (kind : LifecycleActionKind) : AppResult bool :=
  match kind with
  | ExpireCurrent | TransitionCurrent | DeleteExpiredMarker => Ok true
  | ExpireNoncurrent | TransitionNoncurrent => Ok false
  | AbortIncompleteMultipartUpload => Err multipart_reached_revalidation
  end.

Definition kind_acts_on (action_kind : LifecycleActionKind) (kind : VersionKind) : AppResult bool :=
  match action_kind, kind with
  | ExpireCurrent, KObject | TransitionCurrent, KObject | TransitionNoncurrent, KObject => Ok true
  | DeleteExpiredMarker, KDeleteMarker => Ok true
  | ExpireNoncurrent, _ => Ok true
  | AbortIncompleteMultipartUpload, _ => Err multipart_reached_revalidation
  | _, _ => Ok false
  end.

(** The object of the target, when it is as the version says: [None] when the target is stale *)
Definition locked_target_object (t : VersionTargetIdentity) (selected : VersionRow)
  : Tx (option (option ObjectRow)) :=
  match vt_kind t with
  | KObject =>
    let! object_id := lift (ok_or (Internal "lifecycle object target is invalid") (vt_object_id t)) in
    let! locked_object := reads (find_object object_id) in
    tx_ret match locked_object with
           | Some o => if String.eqb (o_bucket o) (vt_bucket t) && String.eqb (o_key o) (vt_key t)
                          && eqb (o_is_latest o) (v_is_latest selected)
                       then Some (Some o) else None
           | None => None
           end
  | KDeleteMarker =>
    let! current_objects := reads (fun db => matching (fun o => o_bucket o = vt_bucket t /\ o_key o = vt_key t
                                                                /\ o_is_latest o = true) (objects db)) in
    tx_ret (if v_is_latest selected && negb (current_objects =? 0) then None else Some None)
  end.

Definition revalidate_candidate (t : VersionTargetIdentity) (action_kind : LifecycleActionKind)
  : Tx (option LifecycleCandidate) :=
  let! selected := lock_version_by_id (vt_version_row_id t) in
  match selected with
  | None => tx_ret None
  | Some selected =>
    let! expected_is_latest := lift (expected_role action_kind) in
    let! matches := lift (target_matches_row selected t) in
    if negb matches || negb (eqb (v_is_latest selected) expected_is_latest) then tx_ret None else
    let! acts := lift (kind_acts_on action_kind (vt_kind t)) in
    if negb acts then tx_ret None else
    let! locked := locked_target_object t selected in
    match locked with
    | None => tx_ret None
    | Some locked_object =>
      let! '(state, storage_class, verified) := version_evaluation_facts selected locked_object in
      tx_ret (Some (CandVersion
        {| target := t; is_latest := v_is_latest selected; bucket_versioning_state := state;
           primary_storage_class := storage_class; hot_residency_verified := verified;
           size := from_option o_size 0 locked_object;
           lifecycle_age_started_at := v_lifecycle_age_started_at selected;
           became_noncurrent_at := v_became_noncurrent_at selected |}))
    end
  end.
End candidate.

(** ** Comparing actions *)

(** All columns but the time of creation and those of the queue *)
Definition same_action_definition (left right : string * LifecycleAction) : bool :=
  let l := la_columns left.2 in let r := la_columns right.2 in
  String.eqb left.1 right.1
  && String.eqb (ac_idempotency_key l) (ac_idempotency_key r)
  && String.eqb (ac_bucket l) (ac_bucket r)
  && String.eqb (ac_object_key l) (ac_object_key r)
  && (ac_config_revision l =? ac_config_revision r)
  && String.eqb (ac_rule_id l) (ac_rule_id r)
  && String.eqb (ac_action_kind l) (ac_action_kind r)
  && String.eqb (ac_target_type l) (ac_target_type r)
  && bool_decide (ac_target_version_row_id l = ac_target_version_row_id r)
  && bool_decide (ac_target_public_version_id l = ac_target_public_version_id r)
  && bool_decide (ac_target_object_id l = ac_target_object_id r)
  && bool_decide (ac_target_sequence l = ac_target_sequence r)
  && bool_decide (ac_target_upload_id l = ac_target_upload_id r)
  && bool_decide (ac_target_upload_created_at l = ac_target_upload_created_at r)
  && (ac_due_at l =? ac_due_at r).

Definition action_matches_expected (a : ActionColumns) (expected : NewLifecycleAction) : bool :=
  let target_matches :=
    match act_target expected with
    | TargetVersion t =>
      String.eqb (ac_object_key a) (vt_key t) && String.eqb (ac_target_type a) "version"
      && bool_decide (ac_target_version_row_id a = Some (vt_version_row_id t))
      && bool_decide (ac_target_public_version_id a = Some (as_s3_str (vt_public_version_id t)))
      && bool_decide (ac_target_object_id a = vt_object_id t)
      && bool_decide (ac_target_sequence a = Some (vt_sequence t))
      && is_none (ac_target_upload_id a) && is_none (ac_target_upload_created_at a)
    | TargetMultipart t =>
      String.eqb (ac_object_key a) (mt_key t) && String.eqb (ac_target_type a) "multipart_upload"
      && is_none (ac_target_version_row_id a) && is_none (ac_target_public_version_id a)
      && is_none (ac_target_object_id a) && is_none (ac_target_sequence a)
      && bool_decide (ac_target_upload_id a = Some (mt_upload_id t))
      && bool_decide (ac_target_upload_created_at a = Some (mt_initiated_at t))
    end in
  target_matches
  && String.eqb (ac_bucket a) (act_bucket expected)
  && (ac_config_revision a =? act_config_revision expected)
  && String.eqb (ac_rule_id a) (persisted_rule_identity (act_rule_identity expected))
  && String.eqb (ac_action_kind a) (persisted_action_kind (act_kind expected))
  && (ac_due_at a =? act_due_at expected).

(** ** Revalidation *)

Definition lock_lifecycle_configuration (bucket_name : string) : WTx (option LifecycleConfigRow) :=
  t_reads (fun db => wd_configs db !! bucket_name).

(** The tags of an object, by key *)
Definition list_object_tags (object_id : string) : WTx (list ObjectTag) :=
  t_reads (fun db => (fun r : string * string * string => {| tag_key := r.1.2; tag_value := r.2 |})
                     <$> table_rows (fun r => r.1.1 = object_id) (wd_tags db)).

(** The facts the evaluator is given, [now] being the clock of the evaluation *)
Definition evaluation_context (c : VersionLifecycleCandidate) (tags : list ObjectTag) (revision : Z)
    (configuration : CanonicalLifecycleConfiguration) (now : Z) (db : WorkerDb) : LifecycleEvaluationContext :=
  let t := target c in
  let of_target := of_key (vt_bucket t) (vt_key t) in
  {| ctx_candidate := CandVersion c; ctx_tags := tags;
     public_version_count := matching of_target (versions (wd_objects db));
     newer_noncurrent_count := matching (fun v => of_target v /\ v_is_latest v = false /\ vt_sequence t < v_sequence v)
                                 (versions (wd_objects db));
     config_revision := revision; configuration := configuration; database_now := now |}.

Section revalidation.
Context `{Chrono} `{Uuid}.
(** [serde_json::from_str] at the configuration *)
Context (configuration_from_json : string -> option CanonicalLifecycleConfiguration).

(** [c1] is the clock of the claim, [c2] that of the evaluation. *)
Definition revalidate_transition (claim : ClaimedLifecycleAction) (c1 c2 : Z)
  : WTx (option VersionLifecycleCandidate) :=
  let* locked := on_lifecycle (lock_claim_for_execution claim c1) in
  match locked with
  | None => t_ret None
  | Some a =>
    if negb (same_action_definition (cl_id claim, a) (cl_id claim, cl_action claim)) then t_ret None else
    let* identity := t_lift (target_from_action (la_columns a)) in
    match identity with
    | TargetMultipart _ => t_ret None
    | TargetVersion t =>
      let* row := lock_lifecycle_configuration (vt_bucket t) in
      match row with
      | None => t_ret None
      | Some row =>
        if negb (lc_revision row =? ac_config_revision (la_columns a)) then t_ret None else
        match lc_canonical_json row with
        | None => t_ret None
        | Some json =>
          let* configuration := t_lift (from_canonical_json configuration_from_json json) in
          let* kind := t_lift (action_kind_from_db (ac_action_kind (la_columns a))) in
          let* candidate := on_objects (revalidate_candidate t kind) in
          match candidate with
          | None | Some (CandMultipart _) => t_ret None
          | Some (CandVersion c) =>
            let* tags := match vt_object_id t with Some id => list_object_tags id | None => t_ret [] end in
            let* context := t_reads (evaluation_context c tags (lc_revision row) configuration c2) in
            let* expected := t_lift (evaluate_candidate context) in
            t_ret (if is_some_and (action_matches_expected (la_columns a)) expected then Some c else None)
          end
        end
      end
    end
  end.
End revalidation.

(** * Properties *)

(** ** What a candidate says of a version *)

Section stored.
Context `{Uuid}.

(** The candidate is the version as the tables have it: its row, its object and its residency. *)
Record stored_candidate (c : VersionLifecycleCandidate) (v : VersionRow) (o : Db) : Prop := {
  sc_row : find_version (vt_version_row_id (target c)) o = Some v;
  sc_bucket : vt_bucket (target c) = v_bucket v;
  sc_key : vt_key (target c) = v_key v;
  sc_sequence : vt_sequence (target c) = v_sequence v;
  sc_object_id : vt_object_id (target c) = v_object_id v;
  sc_kind : v_kind v = match vt_kind (target c) with KObject => "object" | KDeleteMarker => "delete_marker" end;
  sc_public : public_version_id v = Ok (vt_public_version_id (target c));
  sc_latest : is_latest c = v_is_latest v;
  sc_age : lifecycle_age_started_at c = v_lifecycle_age_started_at v;
  sc_noncurrent : became_noncurrent_at c = v_became_noncurrent_at v;
  sc_versioning : get_versioning_state (v_bucket v) o = Ok (bucket_versioning_state c, o);
  sc_object : vt_kind (target c) = KObject ->
    exists ob, v_object_id v = Some (o_id ob) /\ find_object (o_id ob) o = Some ob /\ size c = o_size ob;
  sc_marker : vt_kind (target c) = KDeleteMarker ->
    size c = 0 /\ primary_storage_class c = None /\ hot_residency_verified c = false;
  sc_unplaced : vt_kind (target c) = KObject -> find_residency (v_id v) o = None ->
    primary_storage_class c = Some Standard /\ hot_residency_verified c = false;
  sc_placed r : vt_kind (target c) = KObject -> find_residency (v_id v) o = Some r ->
    (exists class, class_from_db_str (r_storage_class r) = Ok class /\ primary_storage_class c = Some class)
    /\ (hot_residency_verified c = true
        <-> r_primary_tier r = "hot" /\ exists p, find_physical "hot" (r_cid r) o = Some p /\ p_verification_state p = "verified")
}.

Lemma tier_hot value : tier_from_db_str value = Ok Hot -> value = "hot".
Proof. unfold tier_from_db_str. repeat case_match; try done. by intros _; apply String.eqb_eq. Qed.
Lemma verification_verified value : verification_from_db_str value = Ok VVerified <-> value = "verified".
Proof. unfold verification_from_db_str. split; [|by intros ->]. repeat case_match; try done. by intros _; apply String.eqb_eq. Qed.

Lemma fail_ok {A} (b : bool) e (k : Tx A) db r : (if b then tx_err e else k) db = Ok r -> b = false /\ k db = Ok r.
Proof. by destruct b. Qed.

Ltac tx_inv H :=
  lazymatch type of H with
  | tx_bind _ _ _ = Ok _ =>
    let a := fresh "a" in let d := fresh "d" in let E := fresh "E" in
    apply tx_bind_ok in H; destruct H as (a & d & E & H); tx_inv E; tx_inv H
  | (if _ then tx_err _ else _) _ = Ok _ =>
    let G := fresh "G" in apply fail_ok in H; destruct H as [G H]; tx_inv H
  | reads _ _ = Ok _ => unfold reads in H; injection H as ? ?; subst
  | tx_ret _ _ = Ok _ => unfold tx_ret in H; injection H as ? ?; subst
  | lift (ok_or _ _) _ = Ok _ => apply lift_ok in H; destruct H as [H ?]; apply ok_or_ok in H; subst
  | lift _ _ = Ok _ => apply lift_ok in H; destruct H as [H ?]; subst
  | _ => idtac
  end.

(** What resolving a residency says of the rows *)
Lemma resolved_rows id o res o' :
  resolve_version_residency id o = Ok (res, o') ->
  exists r p, find_residency id o = Some r /\ find_physical (r_primary_tier r) (r_cid r) o = Some p
    /\ tier_from_db_str (r_primary_tier r) = Ok (loc_tier (rvr_primary res))
    /\ class_from_db_str (r_storage_class r) = Ok (rvr_storage_class res)
    /\ verification_from_db_str (p_verification_state p) = Ok (ps_verification_state (rvr_physical res)).
Proof.
  unfold resolve_version_residency. intros E. tx_inv E.
  match goal with Hs : physical_snapshot ?p = Ok _, Hr : find_residency _ _ = Some ?r |- _ => exists r, p;
    unfold physical_snapshot in Hs; ok_inv Hs; injection Hs as <- end.
  by split_and!.
Qed.

(** The storage class and the state of the hot copy are those of the rows. *)
Lemma evaluation_facts_stored row joined o st class verified o' :
  version_evaluation_facts row joined o = Ok ((st, class, verified), o') ->
  get_versioning_state (v_bucket row) o = Ok (st, o)
  /\ ((version_kind row = Ok KDeleteMarker /\ class = None /\ verified = false)
      \/ (version_kind row = Ok KObject
          /\ (exists ob, joined = Some ob /\ v_object_id row = Some (o_id ob))
          /\ (find_residency (v_id row) o = None -> class = Some Standard /\ verified = false)
          /\ forall r, find_residency (v_id row) o = Some r ->
               (exists cl, class_from_db_str (r_storage_class r) = Ok cl /\ class = Some cl)
               /\ (verified = true <-> r_primary_tier r = "hot"
                    /\ exists p, find_physical "hot" (r_cid r) o = Some p /\ p_verification_state p = "verified"))).
Proof.
  unfold version_evaluation_facts. intros (state & d & Hst & E)%tx_bind_ok.
  assert (d = o) as -> by (unfold get_versioning_state, bucket_get in Hst; by tx_inv Hst).
  apply tx_bind_ok in E as (kind & d & [Hk ->]%lift_ok & E).
  case_bool_decide as Ekind; [subst kind; tx_inv E; split; [done|by left]|].
  destruct kind; [|done]. apply tx_bind_ok in E as (ob & d & [Hob ->]%lift_ok & [G E]%fail_ok). apply ok_or_ok in Hob as ->. guard_inv.
  apply tx_bind_ok in E as (res & d & Hres & E). tx_inv Hres.
  destruct (find_residency (v_id row) d) as [r|] eqn:Er; simpl in E; tx_inv E.
  - apply resolved_rows in E0 as (r' & p & Hr & Hp & Ht & Hcl & Hv). rewrite Er in Hr. injection Hr as <-.
    split; [done|]. right. split; [done|]. split; [by exists ob|]. split; [done|]. intros r' [= <-]. split; [by eexists|].
    rewrite andb_true_iff, !bool_decide_eq_true. split.
    + intros [Eh Ev]. rewrite Eh in Ht. rewrite Ev in Hv. apply tier_hot in Ht. split; [done|]. exists p. rewrite Ht in Hp.
      split; [done|by apply verification_verified].
    + intros (Eh & p' & Hp' & Ev). rewrite Eh in Ht, Hp. rewrite Hp' in Hp. injection Hp as <-. rewrite Ev in Hv.
      injection Ht as <-. by injection Hv as <-.
  - split; [done|]. right. split; [done|]. split; [by exists ob|]. done.
Qed.

Lemma target_matches_ok v t :
  target_matches_row v t = Ok true ->
  vt_bucket t = v_bucket v /\ vt_key t = v_key v /\ vt_sequence t = v_sequence v /\ vt_object_id t = v_object_id v
  /\ version_kind v = Ok (vt_kind t) /\ public_version_id v = Ok (vt_public_version_id t).
Proof.
  unfold target_matches_row. destruct (_ && _) eqn:G; [|done]. guard_inv. intros E. apply rbind_ok in E as (kind & Hk & E).
  case_bool_decide as Ek; [|done]. apply rbind_ok in E as (public & Hp & E).
  assert (public = vt_public_version_id t) as Ep by (case_bool_decide; done). subst. by rewrite Hk, Hp.
Qed.

Lemma version_kind_ok v kind :
  version_kind v = Ok kind -> v_kind v = match kind with KObject => "object" | KDeleteMarker => "delete_marker" end.
Proof.
  unfold version_kind. destruct (String.eqb_spec (v_kind v) "object") as [E1|_], (v_object_id v), (String.eqb_spec (v_kind v) "delete_marker") as [E2|_];
    simpl; intros E; by simplify_eq.
Qed.

(** What a target that was revalidated is *)
Lemma revalidated_stored t kind o cand o' :
  revalidate_candidate t kind o = Ok (Some cand, o') ->
  exists c v, cand = CandVersion c /\ target c = t /\ stored_candidate c v o.
Proof.
  unfold revalidate_candidate, lock_version_by_id. intros (v & d & [= <- <-] & E)%tx_bind_ok.
  destruct (find_version _ o) as [v|] eqn:Ev; [|done]. apply tx_bind_ok in E as (role & d & [_ ->]%lift_ok & E).
  apply tx_bind_ok in E as (m & d & [Hm ->]%lift_ok & E). destruct m; simpl in E; [|done]. destruct (negb (eqb _ _)); [done|].
  apply tx_bind_ok in E as (acts & d & [_ ->]%lift_ok & E). destruct (negb acts); [done|].
  apply target_matches_ok in Hm as (Hb & Hk & Hs & Ho & Hkind & Hp).
  apply tx_bind_ok in E as (locked & d & Hl & E). destruct locked as [joined|]; [|done].
  assert (d = o /\ (vt_kind t = KDeleteMarker -> joined = None)
    /\ (vt_kind t = KObject -> forall ob, joined = Some ob -> exists id, v_object_id v = Some id /\ find_object id o = Some ob)) as (-> & Hmk & Hob).
  { unfold locked_target_object in Hl. destruct (vt_kind t); tx_inv Hl; split_and!; try done.
    - intros _ ob ->. match goal with H : vt_object_id t = Some ?id |- _ => exists id; split; [congruence|] end.
      destruct (find_object _ d) as [x|]; [|done]. by case_match; simplify_eq.
    - intros _. by case_match; simplify_eq. }
  apply tx_bind_ok in E as ([[st cl] ver] & d & (Hst & Hfacts)%evaluation_facts_stored & E). injection E as <- _.
  eexists _, v. split; [done|]. split; [done|]. split; simpl; try done; [by apply version_kind_ok|..].
  - intros Eo. destruct Hfacts as [(? & _)|(_ & (ob & -> & Eid) & _)]; [congruence|]. exists ob. split; [done|]. split; [|done].
    destruct (Hob Eo ob eq_refl) as (id & Hid & Hf). congruence.
  - intros Em. rewrite (Hmk Em). destruct Hfacts as [(_ & -> & ->)|(? & _)]; [done|congruence].
  - intros Eo. destruct Hfacts as [(? & _)|(_ & _ & Hn & _)]; [congruence|done].
  - intros r Eo. destruct Hfacts as [(? & _)|(_ & _ & _ & Hr)]; [congruence|apply Hr].
Qed.

(** ** What the rules are tested on *)

(** The tags are those of the object of the version. *)
Definition stored_tags (tags : list ObjectTag) (v : VersionRow) (db : WorkerDb) : Prop :=
  forall k x, {| tag_key := k; tag_value := x |} ∈ tags <-> exists id, v_object_id v = Some id /\ wd_tags db !! (id, k) = Some x.

Lemma list_object_tags_stored v db tags db' :
  match v_object_id v with Some id => list_object_tags id | None => t_ret [] end db = Ok (tags, db') ->
  db' = db /\ stored_tags tags v db.
Proof.
  unfold stored_tags, list_object_tags. destruct (v_object_id v) as [id|].
  - intros [-> ->]%t_reads_ok. split; [done|]. intros k x. rewrite list_elem_of_fmap. split.
    + intros ([[i k'] x'] & [= -> ->] & [Hl Hi]%elem_of_table_rows). simpl in *. subst i. eauto.
    + intros (i & [= <-] & Hl). exists ((id, k), x). split; [done|]. by apply elem_of_table_rows.
  - intros [-> ->]%t_ret_ok. split; [done|]. intros k x. rewrite elem_of_nil. naive_solver.
Qed.

(** The context is the version, its tags and the number of versions of its key and of newer noncurrent
    ones, as the tables have them. *)
Record stored_context (cx : LifecycleEvaluationContext) (c : VersionLifecycleCandidate) (v : VersionRow)
    (config : CanonicalLifecycleConfiguration) (now : Z) (db : WorkerDb) : Prop := {
  sx_candidate : ctx_candidate cx = CandVersion c;
  sx_stored : stored_candidate c v (wd_objects db);
  sx_tags : stored_tags (ctx_tags cx) v db;
  sx_versions : public_version_count cx
    = Z.of_nat (length (filter (fun x => v_bucket x = v_bucket v /\ v_key x = v_key v) (versions (wd_objects db))));
  sx_newer : newer_noncurrent_count cx
    = Z.of_nat (length (filter (fun x => (v_bucket x = v_bucket v /\ v_key x = v_key v) /\ v_is_latest x = false
                                         /\ v_sequence v < v_sequence x) (versions (wd_objects db))));
  sx_configuration : configuration cx = config;
  sx_now : database_now cx = now
}.

Lemma filter_length_ext {A} (P Q : A -> Prop) `{forall x, Decision (P x)} `{forall x, Decision (Q x)} (l : list A) :
  (forall x, P x <-> Q x) -> length (filter P l) = length (filter Q l).
Proof. intros E. by rewrite (list_filter_iff P Q l E). Qed.

Lemma evaluation_context_stored c v tags revision config now db :
  stored_candidate c v (wd_objects db) -> stored_tags tags v db ->
  stored_context (evaluation_context c tags revision config now db) c v config now db.
Proof.
  intros Hc Ht. split; try done; simpl; unfold matching; f_equal; apply filter_length_ext; intros x; unfold of_key;
    by rewrite (sc_bucket _ _ _ Hc), (sc_key _ _ _ Hc), ?(sc_sequence _ _ _ Hc).
Qed.
End stored.
