(* ===== verification/LifecycleScan.v ===== *)
(** * The lifecycle scan ([src/store/lifecycle_scan.rs], [lifecycle_scan/page_facts.rs])

    A bucket is scanned in pages: its current versions, then the noncurrent ones, then the unfinished
    uploads, each in the order of a unique key, from where the cursor of the previous page stopped.  This
    file has the cursors, the facts about residencies that a page loads in batches, and the page itself.
    A page is the next rows in the order of the scan, read one by one; a cycle of pages visits every row
    that stays where it is exactly once, whatever else changes meanwhile, and it ends when nothing does. *)

From Stdlib Require Import ZArith Lia Ascii.
From Stdlib Require String.
From stdpp Require Import base list strings pretty sorting gmap.
From S2P Require Import Prelude Errors Chrono VersionModel LifecycleModel LifecycleConfig LifecycleEval Database Transaction.
From S2P Require Import ObjectStore ResidencyStore VersionStore VersionSpec VersionSystem.
From S2P Require Import ImportDb Ownership LifecycleActions LifecycleQueue Revalidation.

#[local] Open Scope string_scope.
#[local] Open Scope list_scope.
#[local] Open Scope Z_scope.
#[local] Open Scope rust_scope.

Definition MAX_LIFECYCLE_SCAN_PAGE_SIZE : Z := 1000.

(** ** Cursors *)

Inductive LifecycleScanSource : Type := SourceCurrent | SourceNoncurrent | SourceMultipart.
#[export] Instance LifecycleScanSource_eq_dec : EqDecision LifecycleScanSource.
Proof. solve_decision. Defined.

Record LifecycleScanCursor : Type := {
  cur_source : LifecycleScanSource;
  cur_bucket : string;
  cur_key : string;
  cur_sequence : option Z;
  cur_version_row_id : option string;
  cur_multipart_created_at : option Z;
  cur_multipart_upload_id : option string
}.
#[export] Instance LifecycleScanCursor_eq_dec : EqDecision LifecycleScanCursor.
Proof. solve_decision. Defined.

Record LifecycleCandidatePage : Type := {
  candidates : list LifecycleCandidate;
  next_cursor : option LifecycleScanCursor;
  cycle_complete : bool
}.

Definition invalid_cursor : AppError := InvalidArgument "invalid lifecycle scan cursor".

Definition validate_cursor (cursor : LifecycleScanCursor) (bucket : string) : AppResult unit :=
  bail_if str_is_empty bucket || str_is_empty (cur_bucket cursor) || negb (String.eqb (cur_bucket cursor) bucket)
          || str_is_empty (cur_key cursor)
  with invalid_cursor else
  let valid_shape :=
    match cur_source cursor with
    | SourceCurrent | SourceNoncurrent =>
      is_some_and (fun sequence => 0 <? sequence) (cur_sequence cursor)
      && is_some_and (fun version_row_id => negb (str_is_empty version_row_id)) (cur_version_row_id cursor)
      && is_none (cur_multipart_created_at cursor) && is_none (cur_multipart_upload_id cursor)
    | SourceMultipart =>
      is_none (cur_sequence cursor) && is_none (cur_version_row_id cursor)
      && is_some (cur_multipart_created_at cursor)
      && is_some_and (fun upload_id => negb (str_is_empty upload_id)) (cur_multipart_upload_id cursor)
    end in
  if valid_shape then Ok tt else Err invalid_cursor.

(** [serde_json] at the stored form of a cursor, which has its fields, and unpadded [base64] *)
Class CursorCodec := {
  cursor_to_vec : LifecycleScanCursor -> string;
  cursor_from_slice : string -> option LifecycleScanCursor;
  url_safe_encode : string -> string;
  url_safe_decode : string -> option string
}.
(** What was written is read back, if it is read at all. *)
Class CursorCodecLaws `{CursorCodec} := {
  cursor_json_roundtrip : forall c c', cursor_from_slice (cursor_to_vec c) = Some c' -> c' = c;
  url_safe_roundtrip : forall bytes, url_safe_decode (url_safe_encode bytes) = Some bytes
}.

Definition encode_cursor `{CursorCodec} (cursor : LifecycleScanCursor) : string := url_safe_encode (cursor_to_vec cursor).

Definition decode_cursor `{CursorCodec} (value bucket : string) : AppResult LifecycleScanCursor :=
  let? encoded := ok_or invalid_cursor (url_safe_decode value) in
  let? cursor := ok_or invalid_cursor (cursor_from_slice encoded) in
  let? _ := validate_cursor cursor bucket in
  Ok cursor.

(** A validated cursor of versions has a sequence and a row. *)
Definition version_tuple_after (cursor : LifecycleScanCursor) (row : VersionRow) : bool :=
  match cur_sequence cursor, cur_version_row_id cursor with
  | Some sequence, Some version_row_id =>
    lt_b (cur_key cursor) (v_key row)
    || String.eqb (v_key row) (cur_key cursor)
       && ((sequence <? v_sequence row)
           || (v_sequence row =? sequence) && lt_b version_row_id (v_id row))
  | _, _ => false
  end.

(** A validated cursor of uploads has a time and an upload. *)
Definition multipart_tuple_after (cursor : LifecycleScanCursor) (upload_id : string) (row : UploadRow) : bool :=
  match cur_multipart_created_at cursor, cur_multipart_upload_id cursor with
  | Some created_at, Some after_id =>
    lt_b (cur_key cursor) (mu_key row)
    || String.eqb (mu_key row) (cur_key cursor)
       && ((created_at <? mu_created_at row)
           || (mu_created_at row =? created_at) && lt_b after_id upload_id)
  | _, _ => false
  end.

Definition cursor_for (source : LifecycleScanSource) (candidate : LifecycleCandidate) : LifecycleScanCursor :=
  match candidate with
  | CandVersion c =>
    {| cur_source := source; cur_bucket := vt_bucket (target c); cur_key := vt_key (target c);
       cur_sequence := Some (vt_sequence (target c)); cur_version_row_id := Some (vt_version_row_id (target c));
       cur_multipart_created_at := None; cur_multipart_upload_id := None |}
  | CandMultipart t =>
    {| cur_source := source; cur_bucket := mt_bucket t; cur_key := mt_key t;
       cur_sequence := None; cur_version_row_id := None;
       cur_multipart_created_at := Some (mt_initiated_at t); cur_multipart_upload_id := Some (mt_upload_id t) |}
  end.

(** ** Facts of a page *)

Definition FACTS_BATCH_SIZE : nat := 200.

Record PageFacts : Type := {
  pf_residencies : gmap string ResidencyRow;
  pf_physical : gmap (string * string) PhysicalRow
}.

(** One query per batch of keys; every row that is found goes into the map. *)
Definition batched {K R I} `{Countable I} (query : list K -> list R) (index : R -> I) (keys : list K) : gmap I R :=
  foldl (fun found batch => foldl (fun found row => <[index row := row]> found) found (query batch))
    ∅ (chunks FACTS_BATCH_SIZE keys).

Definition find_residencies (batch : list string) (db : Db) : list ResidencyRow :=
  filter (fun r => r_version_row_id r ∈ batch) (residencies db).
Definition find_physicals (batch : list (string * string)) (db : Db) : list PhysicalRow :=
  filter (fun p => (p_tier p, p_cid p) ∈ batch) (physicals db).

(** The distinct places of the residencies, in order *)
Definition locations (found : gmap string ResidencyRow) : list (string * string) :=
  let places : list (string * string) := (fun kr => (r_primary_tier kr.2, r_cid kr.2)) <$> map_to_list found in
  sort_by cmp (elements (list_to_set places : gset (string * string))).

(** [PageFacts::load] *)
Definition load (rows : list (VersionRow * option ObjectRow)) : Tx PageFacts :=
  let ids : list string := (fun r => v_id r.1) <$> filter (fun r => v_kind r.1 = "object") rows in
  let! found := reads (fun db => batched (fun batch => find_residencies batch db) r_version_row_id ids) in
  let! physical := reads (fun db => batched (fun batch => find_physicals batch db) (fun p => (p_tier p, p_cid p)) (locations found)) in
  tx_ret {| pf_residencies := found; pf_physical := physical |}.

(** [PageFacts::evaluate] *)
Definition evaluate (facts : PageFacts) (row : VersionRow) (joined_object : option ObjectRow)
  : AppResult (option StorageClass * bool) :=
  let? kind := version_kind row in
  if bool_decide (kind = KDeleteMarker) then Ok (None, false) else
  let? object := ok_or (Internal "lifecycle content version has no object") joined_object in
  bail_if negb (bool_decide (v_object_id row = Some (o_id object)))
          || negb (String.eqb (v_bucket row) (o_bucket object)) || negb (String.eqb (v_key row) (o_key object))
  with Internal "lifecycle content owner mismatch" else
  match pf_residencies facts !! v_id row with
  | None => Ok (Some Standard, false)
  | Some residency =>
    bail_if str_is_empty (v_id row) with corrupt "empty version identity" else
    bail_if negb (bool_decide (v_object_id row = Some (r_object_id residency)))
    with corrupt "residency owner is not the exact content version" else
    bail_if negb (String.eqb (o_cid object) (r_cid residency))
    with corrupt "residency identity does not match immutable object metadata" else
    let? tier := tier_from_db_str (r_primary_tier residency) in
    let? storage_class := class_from_db_str (r_storage_class residency) in
    bail_if negb (match tier, storage_class with
                  | Hot, Standard | Cold, StandardIa => true
                  | _, _ => false
                  end) || (r_revision residency <=? 0)
    with corrupt "invalid primary residency" else
    let? physical := ok_or (corrupt "primary physical residency is missing")
                       (pf_physical facts !! (r_primary_tier residency, r_cid residency)) in
    let? _ := tier_from_db_str (p_tier physical) in
    let? verification := verification_from_db_str (p_verification_state physical) in
    let valid_shape :=
      match verification with
      | VVerified =>
        is_some_and (fun value => negb (str_is_empty value)) (p_node_identity physical)
        && is_some_and (fun value => negb (str_is_empty value)) (p_verification_receipt physical)
        && is_some (p_verified_at physical)
      | VPending | VFailed =>
        is_none (p_node_identity physical) && is_none (p_verification_receipt physical)
        && is_none (p_verified_at physical)
      end in
    bail_if negb valid_shape with corrupt "invalid physical verification shape" else
    Ok (Some storage_class, bool_decide (tier = Hot) && bool_decide (verification = VVerified))
  end.

(** ** Pages *)

(** [ORDER BY key, sequence, id] *)
Definition version_place (row : VersionRow) : string * (Z * string) := (v_key row, (v_sequence row, v_id row)).
(** [ORDER BY key, created_at, upload_id] *)
Definition upload_place (row : string * UploadRow) : string * (Z * string) := (mu_key row.2, (mu_created_at row.2, row.1)).

(** [SELECT .. WHERE bucket = ? AND is_latest = ? AND (key, sequence, id) > cursor ORDER BY ..] *)
Definition version_query (bucket : string) (latest : bool) (cursor : option LifecycleScanCursor) (db : WorkerDb) : list VersionRow :=
  sort_by (by_key version_place)
    (filter (fun v => v_bucket v = bucket /\ v_is_latest v = latest
                      /\ is_none_or (fun c => version_tuple_after c v) cursor = true) (versions (wd_objects db))).

Definition upload_query (bucket : string) (cursor : option LifecycleScanCursor) (db : WorkerDb) : list (string * UploadRow) :=
  sort_by (by_key upload_place)
    (filter (fun u => mu_bucket u.2 = bucket
                      /\ is_none_or (fun c => multipart_tuple_after c u.1 u.2) cursor = true)
       (map_to_list (up_uploads (wd_uploads db)))).

(** [find_also_related(object::Entity)] *)
Definition also_object (db : WorkerDb) (row : VersionRow) : VersionRow * option ObjectRow :=
  (row, match v_object_id row with Some id => find_object id (wd_objects db) | None => None end).

Definition upload_candidate (row : string * UploadRow) : LifecycleCandidate :=
  CandMultipart {| mt_bucket := mu_bucket row.2; mt_key := mu_key row.2; mt_upload_id := row.1;
                   mt_initiated_at := mu_created_at row.2 |}.

Section scan.
Context `{Uuid}.

Definition candidate_from_row (facts : PageFacts) (state : BucketVersioningState) (row : VersionRow)
    (joined_object : option ObjectRow) : AppResult LifecycleCandidate :=
  let? kind := version_kind row in
  let? public := public_version_id row in
  let? '(storage_class, verified) := evaluate facts row joined_object in
  let? '(object_id, size) :=
    match kind with
    | KObject =>
      let? object_id := ok_or invalid_cursor (v_object_id row) in
      let? object := ok_or (Internal "object version index references a missing object") joined_object in
      bail_if negb (String.eqb (o_id object) object_id) || negb (String.eqb (o_bucket object) (v_bucket row))
              || negb (String.eqb (o_key object) (v_key row))
      with Internal "object version index references a mismatched object" else
      Ok (Some object_id, o_size object)
    | KDeleteMarker =>
      bail_if is_some joined_object with Internal "delete marker version index references an object" else
      Ok (None, 0)
    end in
  Ok (CandVersion
    {| target := {| vt_bucket := v_bucket row; vt_key := v_key row; vt_version_row_id := v_id row;
                    vt_public_version_id := public; vt_kind := kind; vt_object_id := object_id;
                    vt_sequence := v_sequence row |};
       is_latest := v_is_latest row; bucket_versioning_state := state; primary_storage_class := storage_class;
       hot_residency_verified := verified; size := size;
       lifecycle_age_started_at := v_lifecycle_age_started_at row;
       became_noncurrent_at := v_became_noncurrent_at row |}).

(** The versions of a page of a source.  The state of the bucket is read once per page. *)
Definition version_page (bucket : string) (latest : bool) (cursor : option LifecycleScanCursor) (limit : Z)
    (bucket_state : option BucketVersioningState) : WTx (list LifecycleCandidate * option BucketVersioningState) :=
  let* rows := t_reads (fun db => also_object db <$> take (Z.to_nat limit) (version_query bucket latest cursor db)) in
  match rows with
  | [] => t_ret ([], bucket_state)
  | (first, _) :: _ =>
    let* _ := t_lift (version_kind first) in
    let* _ := t_lift (public_version_id first) in
    let* state := match bucket_state with
                  | Some state => t_ret state
                  | None => on_objects (get_versioning_state bucket)
                  end in
    let* facts := on_objects (load rows) in
    let* found := t_lift (try_map (fun r => candidate_from_row facts state r.1 r.2) rows) in
    t_ret (found, Some state)
  end.

Definition source_page (bucket : string) (source : LifecycleScanSource) (cursor : option LifecycleScanCursor) (limit : Z)
    (bucket_state : option BucketVersioningState) : WTx (list LifecycleCandidate * option BucketVersioningState) :=
  match source with
  | SourceCurrent => version_page bucket true cursor limit bucket_state
  | SourceNoncurrent => version_page bucket false cursor limit bucket_state
  | SourceMultipart =>
    let* rows := t_reads (fun db => take (Z.to_nat limit) (upload_query bucket cursor db)) in
    t_ret (upload_candidate <$> rows, bucket_state)
  end.

Definition source_has_after (bucket : string) (source : LifecycleScanSource) (cursor : option LifecycleScanCursor)
    (db : WorkerDb) : bool :=
  match source with
  | SourceCurrent => is_some (head (version_query bucket true cursor db))
  | SourceNoncurrent => is_some (head (version_query bucket false cursor db))
  | SourceMultipart => is_some (head (upload_query bucket cursor db))
  end.

Definition source_exhausted_after (bucket : string) (source : LifecycleScanSource) (found : list LifecycleCandidate)
    (limit : Z) (db : WorkerDb) : bool :=
  (Z.of_nat (length found) <? limit)
  || negb (source_has_after bucket source (cursor_for source <$> last found) db).

(** [cursor.filter(|cursor| cursor.source == *source)] *)
Definition source_cursor (cursor : option LifecycleScanCursor) (source : LifecycleScanSource) : option LifecycleScanCursor :=
  match cursor with
  | Some c => if bool_decide (cur_source c = source) then Some c else None
  | None => None
  end.

(** The loop of [scan_candidate_page] over the sources that are left: the candidates, the source of the
    last one, and whether the cycle is complete *)
Fixpoint scan_sources (bucket : string) (cursor : option LifecycleScanCursor) (limit : Z)
    (sources : list LifecycleScanSource) (found : list LifecycleCandidate) (last_source : option LifecycleScanSource)
    (bucket_state : option BucketVersioningState)
  : WTx (list LifecycleCandidate * option LifecycleScanSource * bool) :=
  match sources with
  | [] => t_ret (found, last_source, false)
  | source :: later =>
    let remaining := limit - Z.of_nat (length found) in
    if remaining =? 0 then
      let* more := t_reads (fun db => existsb (fun later_source => source_has_after bucket later_source None db) sources) in
      t_ret (found, last_source, negb more)
    else
      let* '(page, bucket_state) := source_page bucket source (source_cursor cursor source) remaining bucket_state in
      let* exhausted := t_reads (source_exhausted_after bucket source page remaining) in
      let last_source := match page with [] => last_source | _ => Some source end in
      let found := found ++ page in
      if negb exhausted then t_ret (found, last_source, false)
      else if bool_decide (source = SourceMultipart) then t_ret (found, last_source, true)
      else scan_sources bucket cursor limit later found last_source bucket_state
  end.

Definition sources_from (cursor : option LifecycleScanCursor) : list LifecycleScanSource :=
  let sources := [SourceCurrent; SourceNoncurrent; SourceMultipart] in
  let start_index :=
    match cur_source <$> cursor with
    | None | Some SourceCurrent => 0
    | Some SourceNoncurrent => 1
    | Some SourceMultipart => 2
    end in
  drop (Z.to_nat start_index) sources.

Definition scan_candidate_page (bucket : string) (cursor : option LifecycleScanCursor) (limit : Z) : WTx LifecycleCandidatePage :=
  stop_if (limit =? 0) || (MAX_LIFECYCLE_SCAN_PAGE_SIZE <? limit)
  with InvalidArgument "lifecycle scan page limit must be between 1 and 1000" else
  let* _ := t_lift match cursor with Some c => validate_cursor c bucket | None => Ok tt end in
  let* '(found, last_source, complete) := scan_sources bucket cursor limit (sources_from cursor) [] None None in
  t_ret {| candidates := found;
           next_cursor := match last_source, last found with
                          | Some source, Some candidate => Some (cursor_for source candidate)
                          | _, _ => None
                          end;
           cycle_complete := complete |}.
End scan.

(** * Properties *)

(** ** The facts of a page are what one reads of each version *)

Section batches.
Context {R I : Type} `{Countable I} (index : R -> I).

Definition put_row (found : gmap I R) (row : R) : gmap I R := <[index row := row]> found.

Lemma put_rows_lookup l found i r :
  (forall x y, x ∈ l -> y ∈ l -> index x = index y -> x = y) ->
  foldl put_row found l !! i = Some r <->
  r ∈ l /\ index r = i \/ found !! i = Some r /\ (forall x, x ∈ l -> index x <> i).
Proof.
  revert found. induction l as [|a l IH]; intros found Hinj; simpl; [set_solver|].
  rewrite IH by (intros; apply Hinj; set_solver). unfold put_row. rewrite lookup_insert_Some. split.
  - intros [[Hr <-]|[[[<- <-]|[Hne Hf]] Hx]]; [set_solver..|]. right. split; [done|].
    intros x [->|Hxl]%elem_of_cons; [done|]. by apply Hx.
  - intros [[[->|Hr]%elem_of_cons <-]|[Hf Hx]]; [|by left|].
    + destruct (decide (Exists (fun y => index y = index a) l)) as [(y & Hy & E)%Exists_exists|Hn].
      * left. assert (y = a) as -> by (apply Hinj; [by right|left|done]). done.
      * right. split; [by left|]. intros x Hxl E. apply Hn, Exists_exists. by exists x.
    + right. split; [right; split; [apply Hx; left|done]|]. intros x Hxl. apply Hx. by right.
Qed.

(** Loading in batches finds exactly the rows with one of the keys. *)
Lemma batched_lookup (rows : list R) (keys : list I) i r :
  unique (fun x => Some (index x)) rows ->
  batched (fun batch : list I => filter (fun x => index x ∈ batch) rows) index keys !! i = Some r
  <-> r ∈ rows /\ index r = i /\ i ∈ keys.
Proof.
  intros Hu. unfold batched. set (select := fun batch : list I => filter (fun x => index x ∈ batch) rows).
  assert (forall bs found, foldl (fun found batch => foldl put_row found (select batch)) found bs
    = foldl put_row found (concat (select <$> bs))) as Hconcat.
  { induction bs as [|b bs IH]; intros found; simpl; [done|]. by rewrite IH, foldl_app. }
  assert (forall x bs, x ∈ concat (select <$> bs) <-> x ∈ rows /\ index x ∈ concat bs) as Hin.
  { intros x. induction bs as [|b bs IH]; simpl; [set_solver|]. rewrite !elem_of_app, IH. unfold select.
    rewrite list_elem_of_filter. tauto. }
  fold put_row. rewrite Hconcat, put_rows_lookup.
  - rewrite lookup_empty, Hin, chunks_concat by (unfold FACTS_BATCH_SIZE; lia). split.
    + by intros [[[Hr Hk] <-]|[? _]].
    + intros (Hr & <- & Hk). by left.
  - intros x y [Hx _]%Hin [Hy _]%Hin E.
    apply (unique_inj (fun x => Some (index x)) rows x y (index x)); [done..|by rewrite E].
Qed.
End batches.

(** What a page loads for its rows *)
Lemma load_residency rows db facts v o :
  constraints db -> load rows db = Ok (facts, db) -> (v, o) ∈ rows -> v_kind v = "object" ->
  pf_residencies facts !! v_id v = find_residency (v_id v) db.
Proof.
  intros Hc E Hin Hk. injection E as <-. simpl. apply option_eq. intros r.
  rewrite (find_residency_ok db Hc). unfold find_residencies. rewrite (batched_lookup r_version_row_id).
  - split; [tauto|]. intros [Hr E]. split_and!; try done. apply list_elem_of_fmap. exists (v, o). split; [done|].
    by apply list_elem_of_filter.
  - by destruct Hc as (_ & _ & _ & _ & (Hu & _) & _).
Qed.

Lemma load_physical rows db facts i r :
  constraints db -> load rows db = Ok (facts, db) -> pf_residencies facts !! i = Some r ->
  pf_physical facts !! (r_primary_tier r, r_cid r) = find_physical (r_primary_tier r) (r_cid r) db.
Proof.
  intros Hc E. injection E as <-. simpl. intros Hr. apply option_eq. intros p.
  rewrite (find_physical_ok db Hc). unfold find_physicals. rewrite (batched_lookup (fun p => (p_tier p, p_cid p))).
  - split; [by intros (Hp & [= -> ->] & _)|]. intros (Hp & E1 & E2). split_and!; [done|congruence|].
    unfold locations. apply elem_of_sort_by, elem_of_elements, elem_of_list_to_set, list_elem_of_fmap.
    eexists (i, r). split; [done|]. by apply elem_of_map_to_list.
  - by destruct Hc as (_ & _ & _ & (Hu & _) & _).
Qed.

(** The page knows of a version what [version_evaluation_facts] reads of it, failures included. *)
Lemma evaluate_agrees rows db facts v state :
  constraints (wd_objects db) -> load rows (wd_objects db) = Ok (facts, wd_objects db) -> v ∈ versions (wd_objects db) ->
  also_object db v ∈ rows -> get_versioning_state (v_bucket v) (wd_objects db) = Ok (state, wd_objects db) ->
  version_evaluation_facts v (also_object db v).2 (wd_objects db)
  = let? '(class, verified) := evaluate facts v (also_object db v).2 in Ok ((state, class, verified), wd_objects db).
Proof.
  intros Hc Hl Hv Hin Hstate. unfold version_evaluation_facts, evaluate. rewrite (tx_bind_eq _ _ _ _ _ Hstate).
  destruct (version_kind v) as [kind|e] eqn:Ek; [|done]. unfold tx_bind at 1, lift at 1. cbn [rbind].
  destruct (bool_decide (kind = KDeleteMarker)) eqn:Em; [done|].
  assert (v_kind v = "object") as Hk.
  { unfold version_kind in Ek. destruct (String.eqb_spec (v_kind v) "object"); [done|]. simpl in Ek.
    destruct (_ && _); [|done]. injection Ek as <-. done. }
  set (o := wd_objects db) in *.
  destruct ((also_object db v).2) as [ob|] eqn:Eo; [|done]. unfold tx_bind at 1, lift at 1. cbn [rbind ok_or].
  destruct (_ || _) eqn:Em1; [done|]. apply orb_false_iff in Em1 as [[Hid Hb]%orb_false_iff Hkey].
  apply negb_false_iff, bool_decide_eq_true in Hid. apply negb_false_iff in Hb, Hkey.
  assert (find_object (o_id ob) o = Some ob) as Hob by (simpl in Eo; by rewrite Hid in Eo).
  unfold tx_bind at 1, reads at 1. cbn [rbind].
  rewrite (load_residency rows o facts v _ Hc Hl Hin Hk). destruct (find_residency (v_id v) o) as [r|] eqn:Er; [|done].
  cbn [is_none]. unfold tx_bind at 1, resolve_version_residency.
  destruct (str_is_empty (v_id v)); [done|]. unfold tx_bind, reads, lift. cbn [rbind].
  rewrite Er. cbn [rbind ok_or]. rewrite (proj2 (find_version_ok o Hc (v_id v) v)) by done. cbn [rbind ok_or].
  rewrite Hk. change (String.eqb "object" "object") with true. cbn [negb orb].
  destruct (bool_decide (v_object_id v = Some (r_object_id r))) eqn:Eid; [|done]. apply bool_decide_eq_true in Eid.
  assert (r_object_id r = o_id ob) as -> by congruence. cbn [negb]. rewrite Hob. cbn [rbind ok_or].
  apply String.eqb_eq in Hb as <-. apply String.eqb_eq in Hkey as <-. rewrite !String.eqb_refl. cbn [negb orb]. rewrite !orb_false_r.
  destruct (String.eqb (o_cid ob) (r_cid r)); [|done]. cbn [negb].
  destruct (tier_from_db_str (r_primary_tier r)) as [tier|e]; [|done]. cbn [rbind].
  destruct (class_from_db_str (r_storage_class r)) as [class|e]; [|done]. cbn [rbind].
  destruct (_ || _); [done|].
  rewrite (load_physical rows o facts (v_id v) r Hc Hl) by (by rewrite (load_residency rows o facts v _ Hc Hl Hin Hk)).
  destruct (find_physical (r_primary_tier r) (r_cid r) o) as [p|]; [|done]. cbn [rbind ok_or].
  unfold physical_snapshot. destruct (tier_from_db_str (p_tier p)) as [t|e]; [|done]. cbn [rbind].
  destruct (verification_from_db_str (p_verification_state p)) as [ver|e]; [|done]. cbn [rbind].
  by destruct (negb _).
Qed.

(** ** The order of the scan *)

Inductive ScanRow : Type := RowVersion (v : VersionRow) | RowUpload (u : string * UploadRow).

Definition row_source (r : ScanRow) : LifecycleScanSource :=
  match r with
  | RowVersion v => if v_is_latest v then SourceCurrent else SourceNoncurrent
  | RowUpload _ => SourceMultipart
  end.
Definition row_bucket (r : ScanRow) : string :=
  match r with RowVersion v => v_bucket v | RowUpload u => mu_bucket u.2 end.
Definition row_place (r : ScanRow) : string * (Z * string) :=
  match r with RowVersion v => version_place v | RowUpload u => upload_place u end.
Definition row_stored (r : ScanRow) (db : WorkerDb) : Prop :=
  match r with
  | RowVersion v => v ∈ versions (wd_objects db)
  | RowUpload u => up_uploads (wd_uploads db) !! u.1 = Some u.2
  end.
Definition source_index (s : LifecycleScanSource) : Z :=
  match s with SourceCurrent => 0 | SourceNoncurrent => 1 | SourceMultipart => 2 end.

(** Where a row, or a cursor, is in the order of the scan *)
Abbreviation Rank := (Z * (string * (Z * string)))%type.
Definition rank (r : ScanRow) : Rank := (source_index (row_source r), row_place r).
Definition cursor_rank (c : LifecycleScanCursor) : Rank :=
  (source_index (cur_source c),
   (cur_key c, match cur_source c with
               | SourceCurrent | SourceNoncurrent => (default 0 (cur_sequence c), default EmptyString (cur_version_row_id c))
               | SourceMultipart => (default 0 (cur_multipart_created_at c), default EmptyString (cur_multipart_upload_id c))
               end)).

Definition source_rows (bucket : string) (source : LifecycleScanSource) (cursor : option LifecycleScanCursor) (db : WorkerDb)
  : list ScanRow :=
  match source with
  | SourceCurrent => RowVersion <$> version_query bucket true cursor db
  | SourceNoncurrent => RowVersion <$> version_query bucket false cursor db
  | SourceMultipart => RowUpload <$> upload_query bucket cursor db
  end.
(** Everything in a bucket that the scan looks at *)
Definition bucket_rows (bucket : string) (db : WorkerDb) : list ScanRow :=
  source_rows bucket SourceCurrent None db ++ source_rows bucket SourceNoncurrent None db
  ++ source_rows bucket SourceMultipart None db.
Definition scan_after (bucket : string) (cursor : option LifecycleScanCursor) (db : WorkerDb) : list ScanRow :=
  rows_after rank (bucket_rows bucket) (cursor_rank <$> cursor) db.

Lemma lt_b_pair {A B} `{RustOrdLaws A} `{RustOrdLaws B} `{EqDecision A} (a a' : A) (b b' : B) :
  lt_b (a, b) (a', b') = lt_b a a' || bool_decide (a' = a) && lt_b b b'.
Proof.
  unfold lt_b. rewrite prod_cmp. simpl. destruct (cmp a a') eqn:E; simpl.
  - apply cmp_eq_iff in E as ->. by rewrite bool_decide_true.
  - done.
  - case_bool_decide as Ea; [|done]. subst. by rewrite cmp_refl in E.
Qed.

Definition row_after (cursor : option LifecycleScanCursor) (r : ScanRow) : bool :=
  match cursor, r with
  | None, _ => true
  | Some c, RowVersion v => version_tuple_after c v
  | Some c, RowUpload u => multipart_tuple_after c u.1 u.2
  end.

Lemma elem_of_version_query bucket latest cursor db v :
  v ∈ version_query bucket latest cursor db
  <-> v ∈ versions (wd_objects db) /\ v_bucket v = bucket /\ v_is_latest v = latest /\ row_after cursor (RowVersion v) = true.
Proof. unfold version_query. rewrite elem_of_sort_by, list_elem_of_filter. destruct cursor; simpl; tauto. Qed.

Lemma elem_of_upload_query bucket cursor db u :
  u ∈ upload_query bucket cursor db
  <-> up_uploads (wd_uploads db) !! u.1 = Some u.2 /\ mu_bucket u.2 = bucket /\ row_after cursor (RowUpload u) = true.
Proof.
  unfold upload_query. rewrite elem_of_sort_by, list_elem_of_filter. destruct u as [i u]. rewrite elem_of_map_to_list.
  destruct cursor; simpl; tauto.
Qed.

Lemma elem_of_source_rows bucket source cursor db r :
  r ∈ source_rows bucket source cursor db
  <-> row_stored r db /\ row_bucket r = bucket /\ row_source r = source /\ row_after cursor r = true.
Proof.
  assert (forall latest v, RowVersion v ∈ RowVersion <$> version_query bucket latest cursor db <-> v ∈ version_query bucket latest cursor db) as Hv
    by (intros; rewrite list_elem_of_fmap; naive_solver).
  assert (forall u, RowUpload u ∈ RowUpload <$> upload_query bucket cursor db <-> u ∈ upload_query bucket cursor db) as Hu
    by (intros; rewrite list_elem_of_fmap; naive_solver).
  destruct r as [v|u], source; simpl; rewrite ?Hv, ?Hu, ?elem_of_version_query, ?elem_of_upload_query, ?list_elem_of_fmap;
    simpl; try destruct (v_is_latest v); naive_solver.
Qed.

Lemma sorted_fmap {A B} (R : relation A) (R' : relation B) (f : A -> B) l :
  (forall x y, x ∈ l -> y ∈ l -> R x y -> R' (f x) (f y)) -> StronglySorted R l -> StronglySorted R' (f <$> l).
Proof.
  intros Hf Hs. induction Hs as [|x l Hs IH Hx]; simpl; constructor; [apply IH; intros; apply Hf; set_solver|].
  apply Forall_fmap. rewrite Forall_forall in *. intros y Hy. apply Hf; [left|by right|by apply Hx].
Qed.

(** The rows of a source have the rank of the source first. *)
Lemma rank_lt r r' : row_source r = row_source r' -> cmp (row_place r) (row_place r') = Lt -> key_lt rank r r'.
Proof. intros E Hlt. unfold key_lt, rank. rewrite prod_cmp. simpl. by rewrite E, cmp_refl. Qed.

Lemma unique_keys {A K} (key : A -> K) (l : list A) : unique (fun a => Some (key a)) l -> NoDup (key <$> l).
Proof. unfold unique. intros Hn. replace (key <$> l) with (omap (fun a => Some (key a)) l); [done|]. by induction l as [|a l IH]; csimpl; [|f_equal]. Qed.

Lemma source_rows_sorted bucket source cursor db :
  constraints (wd_objects db) -> StronglySorted (key_lt rank) (source_rows bucket source cursor db).
Proof.
  intros Hc.
  assert (forall latest, StronglySorted (key_lt rank) (RowVersion <$> version_query bucket latest cursor db)) as Hv.
  { intros latest. apply (sorted_fmap (key_lt version_place)).
    - intros x y (_ & _ & Hx & _)%elem_of_version_query (_ & _ & Hy & _)%elem_of_version_query Hlt. apply rank_lt; [simpl; by rewrite Hx, Hy|done].
    - apply sort_by_strict, (NoDup_fmap_1 (fun p : string * (Z * string) => p.2.2)). rewrite <- list_fmap_compose.
      destruct Hc as (_ & _ & (Hu & _) & _). by apply (unique_keys v_id), unique_filter. }
  destruct source; simpl; [apply Hv..|]. apply (sorted_fmap (key_lt upload_place)); [intros x y _ _ Hlt; by apply rank_lt|].
  apply sort_by_strict, (NoDup_fmap_1 (fun p : string * (Z * string) => p.2.2)). rewrite <- list_fmap_compose.
  eapply sublist_NoDup; [apply (NoDup_fst_map_to_list (up_uploads (wd_uploads db)))|]. apply fmap_sublist, sublist_filter.
Qed.

Lemma bucket_rows_sorted bucket db : constraints (wd_objects db) -> StronglySorted (key_lt rank) (bucket_rows bucket db).
Proof.
  intros Hc. unfold bucket_rows.
  assert (forall s s' c r r', r ∈ source_rows bucket s c db -> r' ∈ source_rows bucket s' c db -> source_index s < source_index s' -> key_lt rank r r') as Hlt.
  { intros s s' c r r' (_ & _ & <- & _)%elem_of_source_rows (_ & _ & <- & _)%elem_of_source_rows Hi.
    unfold key_lt, rank. rewrite prod_cmp. simpl.
    assert (cmp (source_index (row_source r)) (source_index (row_source r')) = Lt) as -> by by apply Z.compare_lt_iff. done. }
  apply StronglySorted_app; split_and!; [|by apply source_rows_sorted|apply StronglySorted_app; split_and!; [|by apply source_rows_sorted..]].
  - intros r r' Hr [Hr'|Hr']%elem_of_app; by eapply Hlt.
  - intros r r' Hr Hr'. by eapply Hlt.
Qed.

(** *** Cursors as places *)

Definition valid_cursor (c : LifecycleScanCursor) (bucket : string) : Prop :=
  cur_bucket c = bucket /\ bucket <> EmptyString /\ cur_key c <> EmptyString
  /\ match cur_source c with
     | SourceCurrent | SourceNoncurrent =>
       exists n i, cur_sequence c = Some n /\ cur_version_row_id c = Some i /\ 0 < n /\ i <> EmptyString
         /\ cur_multipart_created_at c = None /\ cur_multipart_upload_id c = None
     | SourceMultipart =>
       exists t i, cur_multipart_created_at c = Some t /\ cur_multipart_upload_id c = Some i /\ i <> EmptyString
         /\ cur_sequence c = None /\ cur_version_row_id c = None
     end.

Lemma nonempty_negb s : negb (str_is_empty s) = true <-> s <> EmptyString.
Proof. by destruct s. Qed.

Lemma version_shape (n : option Z) (i : option string) (t : option Z) (u : option string) :
  is_some_and (fun n => 0 <? n) n && is_some_and (fun i => negb (str_is_empty i)) i && is_none t && is_none u = true
  <-> exists n' i', n = Some n' /\ i = Some i' /\ 0 < n' /\ i' <> EmptyString /\ t = None /\ u = None.
Proof.
  rewrite !andb_true_iff. destruct n, i, t, u; simpl; rewrite ?nonempty_negb, ?Z.ltb_lt; naive_solver.
Qed.

Lemma upload_shape (n : option Z) (i : option string) (t : option Z) (u : option string) :
  is_none n && is_none i && is_some t && is_some_and (fun u => negb (str_is_empty u)) u = true
  <-> exists t' u', t = Some t' /\ u = Some u' /\ u' <> EmptyString /\ n = None /\ i = None.
Proof.
  rewrite !andb_true_iff. destruct n, i, t, u; simpl; rewrite ?nonempty_negb; naive_solver.
Qed.

Lemma validate_cursor_ok c bucket : validate_cursor c bucket = Ok tt <-> valid_cursor c bucket.
Proof.
  unfold validate_cursor, valid_cursor.
  destruct (String.eqb_spec (cur_bucket c) bucket) as [<-|Hne]; simpl; [|rewrite orb_true_r; simpl; split; [done|by intros [? _]]].
  rewrite <- !nonempty_negb, orb_false_r, orb_diag.
  destruct (str_is_empty (cur_bucket c)), (str_is_empty (cur_key c)); simpl; try (split; [done|naive_solver]).
  destruct (cur_source c); rewrite <- ?version_shape, <- ?upload_shape; destruct (_ && _); naive_solver.
Qed.

(** The condition of the query is the order of tuples. *)
Lemma tuple_after (k k' i i' : string) (n n' : Z) :
  lt_b k k' || String.eqb k' k && ((n <? n') || (n' =? n) && lt_b i i') = lt_b (k, (n, i)) (k', (n', i')).
Proof.
  rewrite !lt_b_pair. f_equal. f_equal.
  - destruct (String.eqb_spec k' k); by case_bool_decide.
  - f_equal. f_equal. destruct (Z.eqb_spec n' n); by case_bool_decide.
Qed.

(** The columns that a cursor of a source compares *)
Definition cursor_shaped (c : LifecycleScanCursor) : Prop :=
  match cur_source c with
  | SourceCurrent | SourceNoncurrent => is_Some (cur_sequence c) /\ is_Some (cur_version_row_id c)
  | SourceMultipart => is_Some (cur_multipart_created_at c) /\ is_Some (cur_multipart_upload_id c)
  end.
Lemma valid_shaped c bucket : valid_cursor c bucket -> cursor_shaped c.
Proof. unfold valid_cursor, cursor_shaped. intros (_ & _ & _ & Hs). destruct (cur_source c); destruct Hs as (? & ? & -> & -> & _); eauto. Qed.

(** Such a cursor compares with the rows of its source as its rank does. *)
Lemma row_after_rank c r :
  cursor_shaped c -> row_source r = cur_source c -> row_after (Some c) r = beyond rank (Some (cursor_rank c)) r.
Proof.
  intros Hshape Hs. unfold beyond, is_none_or, cursor_rank, rank. rewrite Hs, lt_b_pair.
  assert (lt_b (source_index (cur_source c)) (source_index (cur_source c)) = false) as -> by (unfold lt_b; by rewrite cmp_refl).
  rewrite bool_decide_true by done. unfold cursor_shaped in Hshape. destruct r as [v|[i u]]; simpl in *.
  - unfold version_tuple_after, version_place.
    destruct (v_is_latest v); rewrite <- Hs in *; destruct Hshape as [[n ->] [i ->]]; apply tuple_after.
  - unfold multipart_tuple_after, upload_place. rewrite <- Hs in *. destruct Hshape as [[t ->] [j ->]]. apply tuple_after.
Qed.

(** The rows of the source of a cursor that are behind it *)
Lemma source_rows_after bucket c db :
  constraints (wd_objects db) -> cursor_shaped c ->
  source_rows bucket (cur_source c) (Some c) db
  = filter (fun r => beyond rank (Some (cursor_rank c)) r = true) (source_rows bucket (cur_source c) None db).
Proof.
  intros Hc Hv. apply (strictly_sorted_ext rank); [by apply source_rows_sorted|by apply StronglySorted_filter, source_rows_sorted|].
  intros r. rewrite list_elem_of_filter, !elem_of_source_rows. split.
  - intros (Hr & Hb & Hs & Ha). rewrite <- row_after_rank by done. done.
  - intros (Ha & Hr & Hb & Hs & _). rewrite <- row_after_rank in Ha by done. done.
Qed.

#[local] Arguments source_rows : simpl never.

(** What is left of a scan: the rest of the source of the cursor, and the sources after it *)
Lemma scan_after_sources bucket cursor db :
  constraints (wd_objects db) -> (forall c, cursor = Some c -> valid_cursor c bucket) ->
  scan_after bucket cursor db = concat ((fun s => source_rows bucket s (source_cursor cursor s) db) <$> sources_from cursor).
Proof.
  intros Hc Hv. unfold scan_after, rows_after, sources_from. destruct cursor as [c|]; [|simpl; rewrite app_nil_r; by apply filter_all].
  specialize (Hv c eq_refl). unfold bucket_rows. rewrite !filter_app. simpl.
  assert (forall s, source_index s < source_index (cur_source c) ->
    filter (fun r => beyond rank (Some (cursor_rank c)) r = true) (source_rows bucket s None db) = []) as Hbefore.
  { intros s Hs. apply filter_nothing. intros r (_ & _ & <- & _)%elem_of_source_rows. unfold beyond, cursor_rank, rank. simpl.
    rewrite lt_b_pair. rewrite bool_decide_false by lia. unfold lt_b. rewrite orb_false_r.
    destruct (cmp _ _) eqn:E; try done. assert (source_index (cur_source c) < source_index (row_source r)) by exact E. lia. }
  assert (forall s, source_index (cur_source c) < source_index s ->
    filter (fun r => beyond rank (Some (cursor_rank c)) r = true) (source_rows bucket s None db) = source_rows bucket s None db) as Hbehind.
  { intros s Hs. apply filter_all. intros r (_ & _ & <- & _)%elem_of_source_rows. unfold beyond, cursor_rank, rank. simpl.
    rewrite lt_b_pair. apply orb_true_iff. left. apply lt_b_true. by apply Z.compare_lt_iff. }
  pose proof (source_rows_after bucket c db Hc (valid_shaped c bucket Hv)) as Hsame.
  destruct (cur_source c) eqn:Es; simpl in *; rewrite ?bool_decide_true, ?bool_decide_false by congruence; rewrite Hsame, ?app_nil_r.
  - by rewrite (Hbehind SourceNoncurrent), (Hbehind SourceMultipart).
  - by rewrite (Hbefore SourceCurrent), (Hbehind SourceMultipart).
  - by rewrite (Hbefore SourceCurrent), (Hbefore SourceNoncurrent).
Qed.

(** *** Reading rows *)

Section reading.
Context `{Uuid}.

(** What one reads of a row on its own *)
Definition read_row (db : WorkerDb) (r : ScanRow) : AppResult LifecycleCandidate :=
  match r with
  | RowUpload u => Ok (upload_candidate u)
  | RowVersion v =>
    let object := (also_object db v).2 in
    let? kind := version_kind v in
    let? public := public_version_id v in
    let? '((state, storage_class, verified), _) := version_evaluation_facts v object (wd_objects db) in
    Ok (CandVersion
      {| target := {| vt_bucket := v_bucket v; vt_key := v_key v; vt_version_row_id := v_id v; vt_public_version_id := public;
                      vt_kind := kind; vt_object_id := v_object_id v; vt_sequence := v_sequence v |};
         is_latest := v_is_latest v; bucket_versioning_state := state; primary_storage_class := storage_class;
         hot_residency_verified := verified; size := from_option o_size 0 object;
         lifecycle_age_started_at := v_lifecycle_age_started_at v; became_noncurrent_at := v_became_noncurrent_at v |})
  end.

(** The cursor of a candidate is where its row is. *)
Lemma cursor_for_rank db r c :
  read_row db r = Ok c -> cursor_shaped (cursor_for (row_source r) c) /\ cursor_rank (cursor_for (row_source r) c) = rank r.
Proof.
  destruct r as [v|u]; simpl; [|by intros [= <-]].
  destruct (version_kind v) as [kind|]; [|done]. destruct (public_version_id v) as [public|]; [|done]. simpl.
  destruct (version_evaluation_facts _ _ _) as [[[[state class] ver] o]|]; [|done]. simpl. intros [= <-].
  unfold cursor_shaped, cursor_rank, rank. simpl. by destruct (v_is_latest v).
Qed.

Lemma versioning_state_total bucket o v :
  constraints o -> v ∈ versions o -> v_bucket v = bucket -> exists state, get_versioning_state bucket o = Ok (state, o).
Proof.
  intros Hc Hv <-. pose proof Hc as ((_ & Hck) & _ & (_ & _ & _ & _ & _ & _ & Hb & _) & _). rewrite Forall_forall in Hck. rewrite Forall_forall in Hb.
  apply Hb, list_elem_of_fmap in Hv as (b & Eb & Hin).
  unfold get_versioning_state, bucket_get, tx_bind, reads, lift. rewrite Eb, (proj2 (find_bucket_ok o Hc (b_name b) b)) by done. simpl.
  destruct (Hck b Hin) as [->|[->| ->]]; simpl; eauto.
Qed.

(** A page reads a version as one reads it on its own. *)
Lemma candidate_from_row_agrees rows db facts v state :
  constraints (wd_objects db) -> load rows (wd_objects db) = Ok (facts, wd_objects db) -> v ∈ versions (wd_objects db) ->
  also_object db v ∈ rows -> get_versioning_state (v_bucket v) (wd_objects db) = Ok (state, wd_objects db) ->
  candidate_from_row facts state v (also_object db v).2 = read_row db (RowVersion v).
Proof.
  intros Hc Hl Hv Hin Hs. unfold candidate_from_row, read_row. rewrite (evaluate_agrees rows db facts v state) by done.
  destruct (version_kind v) as [kind|] eqn:Ek; [|done]. simpl. destruct (public_version_id v) as [public|]; [|done]. simpl.
  unfold evaluate, also_object. simpl. rewrite Ek. simpl. unfold version_kind in Ek. destruct (v_object_id v) as [id|] eqn:Eid; simpl in *.
  - rewrite andb_false_r in Ek. destruct (_ && _); [|done]. injection Ek as <-. rewrite bool_decide_false by done.
    destruct (find_object id (wd_objects db)) as [ob|] eqn:Eo; [|done]. apply (find_object_ok _ Hc) in Eo as [_ <-]. simpl.
    rewrite bool_decide_true by done. simpl. destruct (_ || _) eqn:Em; [done|].
    apply orb_false_iff in Em as [Hb Hk]. rewrite (String.eqb_sym (o_bucket ob)), (String.eqb_sym (o_key ob)), Hb, Hk, String.eqb_refl. simpl.
    destruct (match pf_residencies facts !! v_id v with Some r => _ | None => _ end) as [[class ver]|]; done.
  - rewrite andb_false_r in Ek. simpl in Ek. destruct (_ && _); [|done]. by injection Ek as <-.
Qed.

Lemma try_map_ext {E A B} (f g : A -> result E B) l : (forall x, x ∈ l -> f x = g x) -> try_map f l = try_map g l.
Proof.
  induction l as [|x l IH]; intros Hx; simpl; [done|]. rewrite Hx by left. rewrite IH; [done|]. intros y Hy. apply Hx. by right.
Qed.
Lemma try_map_app {E A B} (f : A -> result E B) l l' :
  try_map f (l ++ l') = let? a := try_map f l in let? b := try_map f l' in Ok (a ++ b).
Proof.
  induction l as [|x l IH]; simpl; [by destruct (try_map f l')|]. destruct (f x); [|done]. simpl. rewrite IH.
  destruct (try_map f l); [|done]. simpl. by destruct (try_map f l').
Qed.
Lemma try_map_fmap {E A B C} (f : B -> result E C) (g : A -> B) l : try_map f (g <$> l) = try_map (fun x => f (g x)) l.
Proof. induction l as [|x l IH]; csimpl; [done|]. by rewrite IH. Qed.

(** The state of the bucket that a page has read so far, if any *)
Definition state_known (bucket : string) (db : WorkerDb) (bucket_state : option BucketVersioningState) : Prop :=
  forall state, bucket_state = Some state -> get_versioning_state bucket (wd_objects db) = Ok (state, wd_objects db).

Lemma version_page_spec bucket latest cursor limit bucket_state db :
  constraints (wd_objects db) -> state_known bucket db bucket_state ->
  exists bucket_state', state_known bucket db bucket_state'
    /\ version_page bucket latest cursor limit bucket_state db
       = let? found := try_map (fun v => read_row db (RowVersion v)) (take (Z.to_nat limit) (version_query bucket latest cursor db)) in
         Ok ((found, bucket_state'), db).
Proof.
  intros Hc Hknown. set (rows := take _ _).
  assert (forall v, v ∈ rows -> v ∈ versions (wd_objects db) /\ v_bucket v = bucket) as Hin.
  { intros v Hv. assert (v ∈ version_query bucket latest cursor db) as (? & ? & _)%elem_of_version_query; [|done].
    by apply subseteq_take in Hv. }
  unfold version_page, t_bind at 1, t_reads. cbn [rbind]. fold rows. destruct rows as [|v l] eqn:El; [by exists bucket_state|].
  destruct (Hin v) as [Hv Hb]; [left|]. destruct (versioning_state_total bucket (wd_objects db) v Hc Hv Hb) as [state Hstate].
  exists (Some state). split; [by intros ? [= <-]|].
  destruct (load (also_object db <$> rows) (wd_objects db)) as [[facts o]|e] eqn:Eload; [|done].
  assert (o = wd_objects db) as -> by by injection Eload.
  assert (try_map (fun r => candidate_from_row facts state r.1 r.2) (also_object db <$> rows)
    = try_map (fun v => read_row db (RowVersion v)) rows) as Hmap.
  { rewrite try_map_fmap. apply try_map_ext. intros x Hx. destruct (Hin x) as [Hxin Hxb]; [by rewrite <- El|].
    apply (candidate_from_row_agrees (also_object db <$> rows)); [done..|by apply list_elem_of_fmap_2|by rewrite Hxb]. }
  unfold t_lift. rewrite El in Eload, Hmap. rewrite fmap_cons in *. unfold also_object at 1.
  destruct (version_kind v) as [kind|] eqn:Ek; [|by cbn; unfold read_row; rewrite Ek].
  destruct (public_version_id v) as [public|] eqn:Ep; [|by cbn; unfold read_row; rewrite Ek; cbn [rbind]; rewrite Ep].
  unfold t_bind. cbn [rbind].
  assert ((match bucket_state with Some state => t_ret state | None => on_objects (get_versioning_state bucket) end) db
    = Ok (state, db)) as ->.
  { destruct bucket_state as [state'|]; [|unfold on_objects; rewrite Hstate; by destruct db].
    rewrite (Hknown state') in Hstate by done. by injection Hstate as ->. }
  cbn [rbind]. unfold on_objects. fold (also_object db v). rewrite Eload. cbn [rbind]. rewrite Hmap.
  destruct (try_map _ (v :: l)); [|done]. by destruct db.
Qed.

(** A page of a source reads its first rows one by one. *)
Lemma source_page_spec bucket source cursor limit bucket_state db :
  constraints (wd_objects db) -> state_known bucket db bucket_state ->
  exists bucket_state', state_known bucket db bucket_state'
    /\ source_page bucket source cursor limit bucket_state db
       = let? found := try_map (read_row db) (take (Z.to_nat limit) (source_rows bucket source cursor db)) in
         Ok ((found, bucket_state'), db).
Proof.
  intros Hc Hknown. unfold source_rows, source_page.
  destruct source; [rewrite <- fmap_take, try_map_fmap; by apply version_page_spec..|].
  exists bucket_state. split; [done|]. rewrite <- fmap_take, try_map_fmap. unfold t_bind, t_reads, t_ret. cbn [rbind].
  assert (forall l, try_map (fun x => read_row db (RowUpload x)) l = Ok (upload_candidate <$> l)) as Hl; [|by rewrite Hl].
  induction l as [|u l IH]; [done|]. cbn [try_map]. by rewrite IH.
Qed.

Lemma source_has_after_rows bucket source cursor db :
  source_has_after bucket source cursor db = negb (bool_decide (source_rows bucket source cursor db = [])).
Proof.
  unfold source_has_after, source_rows.
  destruct source; [destruct (version_query _ _ _ _)..|destruct (upload_query _ _ _)]; csimpl; by rewrite ?bool_decide_true, ?bool_decide_false.
Qed.

(** Behind the last row of a page come the rows that did not fit. *)
Lemma source_rows_next bucket source cursor db n r c :
  constraints (wd_objects db) -> (forall c, cursor = Some c -> cursor_shaped c /\ cur_source c = source) ->
  last (take n (source_rows bucket source cursor db)) = Some r -> read_row db r = Ok c ->
  source_rows bucket source (Some (cursor_for source c)) db = drop n (source_rows bucket source cursor db).
Proof.
  intros Hc Hcur Hlast Hread. set (l := source_rows bucket source None db).
  assert (source_rows bucket source cursor db = rows_after rank (fun _ : unit => l) (cursor_rank <$> cursor) tt) as El.
  { unfold rows_after. destruct cursor as [c'|]; [|by rewrite filter_all]. destruct (Hcur c' eq_refl) as [Hs <-].
    by rewrite source_rows_after. }
  assert (row_source r = source) as <-.
  { assert (r ∈ source_rows bucket source cursor db) as (_ & _ & ? & _)%elem_of_source_rows; [|done].
    apply last_Some_elem_of in Hlast. by apply subseteq_take in Hlast. }
  destruct (cursor_for_rank db r c Hread) as [Hshaped Hrank].
  assert (cur_source (cursor_for (row_source r) c) = row_source r) as Es by by destruct c.
  rewrite <- Es at 1. rewrite source_rows_after, Es by done. rewrite Hrank.
  apply (rows_after_page rank (fun _ : unit => l) (fun l => l)) with (after := cursor_rank <$> cursor) (p := take n (source_rows bucket (row_source r) cursor db)) (s := tt).
  - intros l0. exists []. by rewrite app_nil_r.
  - done.
  - intros _. by apply source_rows_sorted.
  - by rewrite take_drop, El.
  - done.
Qed.

(** Whether a page exhausted its source *)
Lemma source_exhausted_spec bucket source cursor db limit found :
  constraints (wd_objects db) -> (forall c, cursor = Some c -> cursor_shaped c /\ cur_source c = source) -> 0 < limit ->
  try_map (read_row db) (take (Z.to_nat limit) (source_rows bucket source cursor db)) = Ok found ->
  source_exhausted_after bucket source found limit db
  = bool_decide (Z.of_nat (length (source_rows bucket source cursor db)) <= limit).
Proof.
  intros Hc Hcur Hpos Hmap. unfold source_exhausted_after. set (l := source_rows bucket source cursor db) in *.
  pose proof (proj1 (try_map_ok _ _ _) Hmap) as Hf. pose proof (Forall2_length _ _ _ Hf) as Hlen. rewrite length_take in Hlen.
  destruct (Z.ltb_spec (Z.of_nat (length found)) limit) as [Hlt|Hge]; simpl; [rewrite bool_decide_true by lia; done|].
  destruct (last (take (Z.to_nat limit) l)) as [r|] eqn:Elast; cycle 1.
  { apply last_None in Elast. apply (f_equal length) in Elast. rewrite length_take in Elast. simpl in Elast. lia. }
  assert (exists c, last found = Some c /\ read_row db r = Ok c) as (c & -> & Hread).
  { rewrite last_lookup in Elast. destruct (Forall2_lookup_l _ _ _ _ _ Hf Elast) as (c & Hlook & Hread).
    exists c. by rewrite last_lookup, <- (Forall2_length _ _ _ Hf). }
  simpl. rewrite source_has_after_rows, (source_rows_next bucket source cursor db (Z.to_nat limit) r c) by done. fold l. rewrite negb_involutive.
  apply bool_decide_ext. rewrite <- length_zero_iff_nil, length_drop. lia.
Qed.

Definition sources_rows (bucket : string) (cursor : option LifecycleScanCursor) (db : WorkerDb) (sources : list LifecycleScanSource)
  : list ScanRow := concat ((fun s => source_rows bucket s (source_cursor cursor s) db) <$> sources).

Lemma sources_have_after bucket cursor db sources :
  Forall (fun s => source_cursor cursor s = None) sources ->
  existsb (fun s => source_has_after bucket s None db) sources = negb (bool_decide (sources_rows bucket cursor db sources = [])).
Proof.
  induction 1 as [|s ss Hs _ IH]; [done|]. cbn [existsb]. rewrite IH, source_has_after_rows. unfold sources_rows. csimpl. rewrite Hs.
  rewrite <- negb_andb. f_equal. apply eq_true_iff_eq. rewrite andb_true_iff, !bool_decide_eq_true. split; [by intros [-> ->]|apply app_nil].
Qed.

(** The source of the last row that was read *)
Lemma last_source_spec bucket source cursor db n (found : list LifecycleCandidate) last_source :
  try_map (read_row db) (take n (source_rows bucket source cursor db)) = Ok found ->
  match found with [] => last_source | _ => Some source end
  = from_option (fun r => Some (row_source r)) last_source (last (take n (source_rows bucket source cursor db))).
Proof.
  intros Hf%try_map_ok. destruct (last (take n (source_rows bucket source cursor db))) as [r|] eqn:E.
  - assert (r ∈ source_rows bucket source cursor db) as (_ & _ & Hs & _)%elem_of_source_rows.
    { apply last_Some_elem_of in E. by apply subseteq_take in E. }
    simpl. rewrite Hs. destruct found; [|done]. apply Forall2_nil_inv_r in Hf. by rewrite Hf in E.
  - apply last_None in E. rewrite E in Hf. by apply Forall2_nil_inv_l in Hf as ->.
Qed.

Lemma multipart_is_last before later :
  before ++ SourceMultipart :: later = [SourceCurrent; SourceNoncurrent; SourceMultipart] -> later = [].
Proof. destruct before as [|? [|? [|? []]]]; intros E; by simplify_eq/=. Qed.

(** The loop over the sources that are left takes the rows that fit, and the cycle is complete when all of
    them do. *)
Lemma scan_sources_spec bucket cursor limit sources found last_source bucket_state db :
  constraints (wd_objects db) -> (forall c, cursor = Some c -> cursor_shaped c) -> state_known bucket db bucket_state ->
  Z.of_nat (length found) <= limit -> (Z.of_nat (length found) = limit -> Forall (fun s => source_cursor cursor s = None) sources) ->
  Forall (fun s => source_cursor cursor s = None) (tail sources) ->
  (exists before, before ++ sources = [SourceCurrent; SourceNoncurrent; SourceMultipart] /\ sources <> []) ->
  let rows := sources_rows bucket cursor db sources in
  let remaining := limit - Z.of_nat (length found) in
  scan_sources bucket cursor limit sources found last_source bucket_state db
  = let? page := try_map (read_row db) (take (Z.to_nat remaining) rows) in
    Ok ((found ++ page, from_option (fun r => Some (row_source r)) last_source (last (take (Z.to_nat remaining) rows)),
         bool_decide (Z.of_nat (length rows) <= remaining)), db).
Proof.
  revert found last_source bucket_state. induction sources as [|source later IH];
    intros found last_source bucket_state Hc Hcur Hknown Hlen Hfull Hlater Hbefore rows remaining; [destruct Hbefore as (? & _ & ?); done|].
  cbn [scan_sources]. fold remaining. destruct (Z.eqb_spec remaining 0) as [E0|Hne].
  { rewrite E0. unfold t_bind, t_reads, t_ret. cbn [rbind]. rewrite (sources_have_after bucket cursor) by (apply Hfull; lia).
    rewrite negb_involutive. simpl. rewrite app_nil_r. repeat f_equal. apply bool_decide_ext. fold rows. rewrite <- length_zero_iff_nil. lia. }
  set (cur := source_cursor cursor source). set (first := source_rows bucket source cur db).
  assert (rows = first ++ sources_rows bucket cursor db later) as -> by done. set (rest := sources_rows bucket cursor db later).
  assert (forall c, cur = Some c -> cursor_shaped c /\ cur_source c = source) as Hshape.
  { unfold cur, source_cursor. intros c. destruct cursor as [c'|]; [|done]. case_bool_decide; [|done]. intros [= <-]. split; [by apply Hcur|done]. }
  destruct (source_page_spec bucket source cur remaining bucket_state db Hc Hknown) as (known & Hknown' & Hpage). fold first in Hpage.
  unfold t_bind at 1. rewrite Hpage, take_app, try_map_app.
  destruct (try_map (read_row db) (take (Z.to_nat remaining) first)) as [page|e] eqn:Emap; [|done]. cbn [rbind].
  pose proof (Forall2_length _ _ _ (proj1 (try_map_ok _ _ _) Emap)) as Hplen. rewrite length_take in Hplen.
  unfold t_bind at 1, t_reads. cbn [rbind]. rewrite (source_exhausted_spec bucket source cur) by (done || lia). fold first.
  rewrite (last_source_spec bucket source cur db (Z.to_nat remaining) page last_source Emap). fold first.
  rewrite length_app. case_bool_decide as Hex; cbn [negb]; cycle 1.
  { replace (Z.to_nat remaining - length first)%nat with 0%nat by lia. simpl. rewrite !app_nil_r, bool_decide_false by lia. done. }
  case_bool_decide as Em.
  { assert (later = []) as ->.
    { destruct Hbefore as (before & E & _). rewrite Em in E. by apply multipart_is_last in E. }
    change rest with (@nil ScanRow). rewrite take_nil. cbn [try_map rbind length]. rewrite !app_nil_r, bool_decide_true by lia. done. }
  assert (remaining - Z.of_nat (length first) = limit - Z.of_nat (length (found ++ page))) as Erem by (rewrite length_app; unfold remaining; lia).
  rewrite IH; [|done..| | | |].
  - fold rest. rewrite <- Erem. replace (Z.to_nat remaining - length first)%nat with (Z.to_nat (remaining - Z.of_nat (length first))) by lia.
    destruct (try_map (read_row db) (take _ rest)) as [page'|e]; [|done]. cbn [rbind]. rewrite app_assoc, last_app.
    rewrite (bool_decide_ext (Z.of_nat (length rest) <= _) (Z.of_nat (length first + length rest) <= remaining)) by lia.
    by destruct (last (take (Z.to_nat (remaining - Z.of_nat (length first))) rest)).
  - rewrite length_app. lia.
  - done.
  - by destruct later; [|apply Forall_cons in Hlater as [_ ?]].
  - destruct Hbefore as (before & E & _). exists (before ++ [source]). rewrite <- app_assoc. split; [done|]. intros ->. apply Em.
    by apply (app_inj_tail before [SourceCurrent; SourceNoncurrent]) in E as [_ ->].
Qed.

Lemma sources_from_suffix cursor :
  (exists before, before ++ sources_from cursor = [SourceCurrent; SourceNoncurrent; SourceMultipart] /\ sources_from cursor <> [])
  /\ Forall (fun s => source_cursor cursor s = None) (tail (sources_from cursor)).
Proof.
  unfold sources_from, source_cursor. destruct cursor as [c|]; simpl; [destruct (cur_source c)|]; simpl; split.
  all: try (repeat constructor; by rewrite ?bool_decide_false).
  - by exists [].
  - by exists [SourceCurrent].
  - by exists [SourceCurrent; SourceNoncurrent].
  - by exists [].
Qed.

(** A page is the next rows in the order of the scan, each read as one reads it on its own; its cursor is
    where it stopped, and the cycle is complete when nothing is left. *)
Lemma scan_page_eq bucket cursor limit db :
  constraints (wd_objects db) -> 0 < limit <= MAX_LIFECYCLE_SCAN_PAGE_SIZE -> (forall c, cursor = Some c -> valid_cursor c bucket) ->
  let rows := take (Z.to_nat limit) (scan_after bucket cursor db) in
  scan_candidate_page bucket cursor limit db
  = let? found := try_map (read_row db) rows in
    Ok ({| candidates := found;
           next_cursor := match last rows, last found with
                          | Some r, Some c => Some (cursor_for (row_source r) c)
                          | _, _ => None
                          end;
           cycle_complete := bool_decide (Z.of_nat (length (scan_after bucket cursor db)) <= limit) |}, db).
Proof.
  intros Hc Hl Hv rows. unfold scan_candidate_page. rewrite (proj2 (Z.eqb_neq limit 0)), (proj2 (Z.ltb_ge _ limit)) by lia. simpl.
  unfold t_bind at 1, t_lift. assert (match cursor with Some c => validate_cursor c bucket | None => Ok tt end = Ok tt) as ->.
  { destruct cursor as [c|]; [|done]. by apply validate_cursor_ok, Hv. }
  destruct (sources_from_suffix cursor) as [Hsuffix Htail]. cbn [rbind]. unfold t_bind. rewrite scan_sources_spec.
  - cbn [length Z.of_nat]. rewrite Z.sub_0_r. unfold sources_rows. rewrite <- (scan_after_sources bucket cursor db Hc Hv). fold rows.
    destruct (try_map (read_row db) rows) as [found|e]; [|done]. cbn. by destruct (last rows).
  - done.
  - intros c E. by eapply valid_shaped, Hv.
  - done.
  - simpl. lia.
  - simpl. lia.
  - done.
  - done.
Qed.

(** *** Cycles *)

(** One page of a cycle, of the tables as they were then *)
Record ScanStep : Type := { st_db : WorkerDb; st_limit : Z; st_page : LifecycleCandidatePage }.

(** The pages of a cycle, each from where the one before stopped, up to the one that completes it *)
Fixpoint scan_cycle (bucket : string) (cursor : option LifecycleScanCursor) (steps : list ScanStep) : Prop :=
  match steps with
  | [] => False
  | step :: later =>
    scan_candidate_page bucket cursor (st_limit step) (st_db step) = Ok (st_page step, st_db step)
    /\ (if cycle_complete (st_page step) then later = [] else scan_cycle bucket (next_cursor (st_page step)) later)
  end.

Definition visited (steps : list ScanStep) : list LifecycleCandidate := concat ((fun step => candidates (st_page step)) <$> steps).

Definition candidate_rank (c : LifecycleCandidate) : Rank :=
  match c with
  | CandVersion c => (if is_latest c then 0 else 1, (vt_key (target c), (vt_sequence (target c), vt_version_row_id (target c))))
  | CandMultipart t => (2, (mt_key t, (mt_initiated_at t, mt_upload_id t)))
  end.

Lemma read_row_rank db r c : read_row db r = Ok c -> candidate_rank c = rank r.
Proof.
  destruct r as [v|u]; simpl; [|by intros [= <-]].
  destruct (version_kind v) as [kind|]; [|done]. destruct (public_version_id v) as [public|]; [|done]. simpl.
  destruct (version_evaluation_facts _ _ _) as [[[[state class] ver] o]|]; [|done]. simpl. intros [= <-].
  unfold rank. simpl. by destruct (v_is_latest v).
Qed.

(** What a page that was returned says *)
Lemma scan_page_ok bucket cursor limit db page :
  constraints (wd_objects db) -> 0 <= limit -> scan_candidate_page bucket cursor limit db = Ok (page, db) ->
  0 < limit /\ (forall c, cursor = Some c -> valid_cursor c bucket)
  /\ exists rows rest, scan_after bucket cursor db = rows ++ rest /\ Forall2 (fun r c => read_row db r = Ok c) rows (candidates page)
     /\ (if cycle_complete page then rest = []
         else rows <> [] /\ exists r c, last rows = Some r /\ read_row db r = Ok c /\ next_cursor page = Some (cursor_for (row_source r) c)).
Proof.
  intros Hc Hpos E.
  assert (0 < limit <= MAX_LIFECYCLE_SCAN_PAGE_SIZE /\ forall c, cursor = Some c -> valid_cursor c bucket) as [Hl Hv].
  { unfold scan_candidate_page in E. apply stop_ok in E as [[E1%Z.eqb_neq E2%Z.ltb_ge]%orb_false_iff E]. split; [lia|].
    apply t_bind_ok in E as ([] & d & [E _]%t_lift_ok & _). intros c ->. by apply validate_cursor_ok. }
  split; [lia|]. split; [done|]. rewrite scan_page_eq in E by done.
  set (all := scan_after bucket cursor db) in *. exists (take (Z.to_nat limit) all), (drop (Z.to_nat limit) all).
  destruct (try_map (read_row db) (take (Z.to_nat limit) all)) as [found|e] eqn:Em; [|done]. injection E as <-. apply try_map_ok in Em.
  split; [by rewrite take_drop|]. split; [done|]. simpl. case_bool_decide as Hall; [by rewrite drop_ge by lia|].
  destruct (last (take (Z.to_nat limit) all)) as [r|] eqn:Elast; cycle 1.
  { apply last_None in Elast. apply (f_equal length) in Elast. rewrite length_take in Elast. simpl in Elast. lia. }
  rewrite last_lookup in Elast. destruct (Forall2_lookup_l _ _ _ _ _ Em Elast) as (c & Hlook & Hread).
  split; [by intros E; rewrite E in Elast|]. exists r, c. split; [done|]. split; [done|].
  by rewrite last_lookup, <- (Forall2_length _ _ _ Em), Hlook.
Qed.

Definition before (a b : LifecycleCandidate) : Prop := cmp (candidate_rank a) (candidate_rank b) = Lt.

(** The candidates of a page come in order, behind its cursor. *)
Lemma read_rows_sorted db rows found :
  Forall2 (fun r c => read_row db r = Ok c) rows found -> StronglySorted (key_lt rank) rows -> StronglySorted before found.
Proof.
  intros Hf Hs. induction Hf as [|r c rows found Hrc Hf IH]; constructor.
  - apply IH. by apply StronglySorted_cons in Hs as [_ ?].
  - apply StronglySorted_cons in Hs as [Hall _]. rewrite Forall_forall in Hall. apply Forall_forall. intros c' [i Hi]%list_elem_of_lookup.
    destruct (Forall2_lookup_r _ _ _ _ _ Hf Hi) as (r' & Hri & E). unfold before.
    rewrite (read_row_rank db r c), (read_row_rank db r' c') by done. apply Hall. by eapply list_elem_of_lookup_2.
Qed.

Lemma read_rows_in db rows found c :
  Forall2 (fun r c => read_row db r = Ok c) rows found -> c ∈ found -> exists r, r ∈ rows /\ read_row db r = Ok c.
Proof.
  intros Hf [i Hi]%list_elem_of_lookup. destruct (Forall2_lookup_r _ _ _ _ _ Hf Hi) as (r & Hri & E).
  exists r. split; [by eapply list_elem_of_lookup_2|done].
Qed.
Lemma read_rows_of db rows found r :
  Forall2 (fun r c => read_row db r = Ok c) rows found -> r ∈ rows -> exists c, c ∈ found /\ read_row db r = Ok c.
Proof.
  intros Hf [i Hi]%list_elem_of_lookup. destruct (Forall2_lookup_l _ _ _ _ _ Hf Hi) as (c & Hci & E).
  exists c. split; [by eapply list_elem_of_lookup_2|done].
Qed.

Lemma scan_after_sorted bucket cursor db : constraints (wd_objects db) -> StronglySorted (key_lt rank) (scan_after bucket cursor db).
Proof. intros Hc. unfold scan_after, rows_after. by apply StronglySorted_filter, bucket_rows_sorted. Qed.

Definition behind (cursor : option LifecycleScanCursor) (place : Rank) : Prop :=
  forall c, cursor = Some c -> cmp (cursor_rank c) place = Lt.

Lemma elem_of_scan_after bucket cursor db r :
  r ∈ scan_after bucket cursor db <-> r ∈ bucket_rows bucket db /\ behind cursor (rank r).
Proof.
  unfold scan_after, rows_after, behind, beyond. rewrite list_elem_of_filter. destruct cursor as [c|]; simpl; [rewrite lt_b_true|]; naive_solver.
Qed.

Lemma sorted_last rows last_row r :
  StronglySorted (key_lt rank) rows -> last rows = Some last_row -> r ∈ rows -> r = last_row \/ cmp (rank r) (rank last_row) = Lt.
Proof.
  intros Hs [q ->]%last_Some [Hr| ->%list_elem_of_singleton]%elem_of_app; [right|by left].
  apply (StronglySorted_app_1_elem_of _ _ _ r last_row Hs Hr). left.
Qed.

(** From a cursor on, in order, with everything that is behind it and stays *)
Lemma scan_cycle_from bucket cursor steps :
  Forall (fun step => constraints (wd_objects (st_db step)) /\ 0 <= st_limit step) steps -> scan_cycle bucket cursor steps ->
  StronglySorted before (visited steps)
  /\ (forall c, c ∈ visited steps -> behind cursor (candidate_rank c))
  /\ (forall place, behind cursor place ->
        (forall step, step ∈ steps -> exists r, r ∈ bucket_rows bucket (st_db step) /\ rank r = place) ->
        exists c, c ∈ visited steps /\ candidate_rank c = place).
Proof.
  revert cursor. induction steps as [|step later IH]; intros cursor Hall Hcycle; [done|].
  apply Forall_cons in Hall as [[Hc Hl] Hall]. destruct Hcycle as [Hpage Hnext].
  destruct (scan_page_ok _ _ _ _ _ Hc Hl Hpage) as (_ & _ & rows & rest & Erows & Hread & Hend).
  pose proof (scan_after_sorted bucket cursor (st_db step) Hc) as Hsorted. rewrite Erows in Hsorted.
  pose proof Hsorted as (Hlt & Hs & _)%StronglySorted_app. pose proof (read_rows_sorted _ _ _ Hread Hs) as Hs'.
  assert (forall c, c ∈ candidates (st_page step) -> behind cursor (candidate_rank c)) as Hbehind.
  { intros c (r & Hr & E)%(read_rows_in _ _ _ _ Hread). rewrite (read_row_rank _ _ _ E).
    apply (elem_of_scan_after bucket cursor (st_db step)). rewrite Erows. set_solver. }
  unfold visited. rewrite fmap_cons, concat_cons. fold (visited later).
  destruct (cycle_complete (st_page step)) eqn:Ecomplete.
  { subst later rest. rewrite app_nil_r. split; [done|]. split; [done|]. intros place Hplace Hstays.
    destruct (Hstays step ltac:(left)) as (r & Hr & <-).
    destruct (read_rows_of _ _ _ r Hread) as (c & Hin & E); [|exists c; split; [done|by eapply read_row_rank]].
    rewrite app_nil_r in Erows. rewrite <- Erows. by apply elem_of_scan_after. }
  destruct Hend as (_ & last_row & cl & Elast & [_ Erank]%cursor_for_rank & Enext). rewrite Enext in Hnext.
  set (c0 := cursor_for (row_source last_row) cl) in *.
  destruct (IH (Some c0) Hall Hnext) as (Hsorted' & Hbehind' & Hstay').
  assert (forall b, behind (Some c0) b -> cmp (rank last_row) b = Lt) as Hlast by (intros b Hb; rewrite <- Erank; by apply Hb).
  assert (last_row ∈ rows) as Hlr by by apply last_Some_elem_of.
  split; [|split].
  - apply StronglySorted_app. split_and!; [|done..]. intros a b (r & Hr & E)%(read_rows_in _ _ _ _ Hread) Hb%Hbehind'%Hlast.
    unfold before. rewrite (read_row_rank _ _ _ E). destruct (sorted_last rows last_row r Hs Elast Hr) as [->|Hlt']; [done|].
    by eapply cmp_trans.
  - intros c [Hin|Hin%Hbehind'%Hlast]%elem_of_app; [by apply Hbehind|]. intros c' ->. eapply cmp_trans; [|exact Hin].
    apply (elem_of_scan_after bucket (Some c') (st_db step)); [rewrite Erows; set_solver|done].
  - intros place Hplace Hstays. destruct (Hstays step ltac:(left)) as (r & Hr & <-).
    assert (r ∈ rows ++ rest) as [Hin|Hin]%elem_of_app by (rewrite <- Erows; by apply elem_of_scan_after).
    + destruct (read_rows_of _ _ _ r Hread Hin) as (c & Hc' & E). exists c. split; [set_solver|by eapply read_row_rank].
    + destruct (Hstay' (rank r)) as (c & Hc' & E).
      * intros c' [= <-]. rewrite Erank. by apply Hlt.
      * intros st Hst. apply Hstays. by right.
      * exists c. split; [set_solver|done].
Qed.

(** *** A cycle over tables that do not change *)

(** What a cursor needs of a row *)
Definition named (r : ScanRow) : Prop :=
  match r with
  | RowVersion v => v_key v <> EmptyString /\ v_id v <> EmptyString /\ 0 < v_sequence v
  | RowUpload u => mu_key u.2 <> EmptyString /\ u.1 <> EmptyString
  end.

Lemma elem_of_bucket_rows bucket db r : r ∈ bucket_rows bucket db <-> row_stored r db /\ row_bucket r = bucket.
Proof.
  unfold bucket_rows. rewrite !elem_of_app, !elem_of_source_rows. split; [naive_solver|]. intros [Hr Hb].
  destruct (row_source r) eqn:E; [left|right; left|right; right]; done.
Qed.

Lemma named_cursor bucket db r c :
  bucket <> EmptyString -> r ∈ bucket_rows bucket db -> named r -> read_row db r = Ok c -> valid_cursor (cursor_for (row_source r) c) bucket.
Proof.
  intros Hne [_ Hb]%elem_of_bucket_rows Hn. unfold valid_cursor. destruct r as [v|u]; simpl in *; [|intros [= <-]; simpl; naive_solver].
  destruct (version_kind v) as [kind|]; [|done]. destruct (public_version_id v) as [public|]; [|done]. simpl.
  destruct (version_evaluation_facts _ _ _) as [[[[state class] ver] o]|]; [|done]. simpl. intros [= <-].
  destruct (v_is_latest v); simpl; naive_solver.
Qed.

Lemma scan_cycle_quiet bucket limit db n cursor :
  constraints (wd_objects db) -> 0 < limit <= MAX_LIFECYCLE_SCAN_PAGE_SIZE -> bucket <> EmptyString ->
  (forall r, r ∈ bucket_rows bucket db -> named r /\ exists c, read_row db r = Ok c) ->
  (forall c, cursor = Some c -> valid_cursor c bucket) -> (length (scan_after bucket cursor db) <= n)%nat ->
  exists steps, scan_cycle bucket cursor steps /\ (length steps <= S n)%nat
    /\ Forall (fun step => st_db step = db /\ st_limit step = limit) steps
    /\ Forall2 (fun r c => read_row db r = Ok c) (scan_after bucket cursor db) (visited steps).
Proof.
  intros Hc Hl Hne Hrows. revert cursor. induction n as [n IH] using lt_wf_ind. intros cursor Hv Hn.
  set (all := scan_after bucket cursor db) in *.
  assert (forall r, r ∈ all -> r ∈ bucket_rows bucket db) as Hin by (intros r Hr; by apply elem_of_scan_after in Hr as [? _]).
  assert (exists found, try_map (read_row db) (take (Z.to_nat limit) all) = Ok found) as [found Hfound].
  { destruct (try_map _ _) as [found|e] eqn:E; [eauto|]. apply try_map_err in E as (r & Hr%subseteq_take & E).
    destruct (Hrows r (Hin r Hr)) as [_ [c Hread]]. congruence. }
  assert (exists page, scan_candidate_page bucket cursor limit db = Ok (page, db)) as [page Hpage].
  { rewrite scan_page_eq by done. fold all. rewrite Hfound. eauto. }
  pose proof Hpage as (_ & _ & rows & rest & Erows & Hread & Hend)%scan_page_ok; [|done|lia]. fold all in Erows.
  set (step := {| st_db := db; st_limit := limit; st_page := page |}).
  destruct (cycle_complete page) eqn:Ecomplete.
  { exists [step]. unfold step, visited. simpl. rewrite Ecomplete, app_nil_r, Erows, Hend, app_nil_r. split_and!; [done..|lia|by repeat constructor|done]. }
  destruct Hend as (Hrne & r & c & Elast & Hrc & Enext). assert (r ∈ all) as Hr by (rewrite Erows; apply last_Some_elem_of in Elast; set_solver).
  assert (scan_after bucket (next_cursor page) db = rest) as Enext'.
  { rewrite Enext. unfold scan_after. simpl. rewrite (proj2 (cursor_for_rank db r c Hrc)).
    apply (rows_after_page rank (fun _ : unit => bucket_rows bucket db) (fun l => l)) with (after := cursor_rank <$> cursor) (p := rows) (s := tt);
      [intros l; exists []; by rewrite app_nil_r|done|intros _; by apply bucket_rows_sorted|done|done]. }
  rewrite Erows, length_app in Hn. destruct rows as [|r0 rows]; [done|]. simpl in Hn.
  destruct (IH (length rest) ltac:(lia) (next_cursor page)) as (steps & Hcycle & Hlen & Hall & Hvisited).
  - intros c' E. rewrite Enext in E. injection E as <-. apply (named_cursor bucket db); [done|by apply Hin|by apply Hrows, Hin|done].
  - by rewrite Enext'.
  - exists (step :: steps). simpl. rewrite Ecomplete. split_and!; [done..|lia|by constructor|].
    rewrite Enext' in Hvisited. rewrite Erows. unfold visited. rewrite fmap_cons, concat_cons. by apply Forall2_app.
Qed.

(** Every candidate is read of a stored row in the state of its page. *)
Lemma scan_cycle_reads bucket cursor steps step c :
  Forall (fun step => constraints (wd_objects (st_db step)) /\ 0 <= st_limit step) steps -> scan_cycle bucket cursor steps ->
  step ∈ steps -> c ∈ candidates (st_page step) ->
  exists r, row_stored r (st_db step) /\ row_bucket r = bucket /\ read_row (st_db step) r = Ok c.
Proof.
  intros Hall. revert cursor. induction Hall as [|st l [Hc Hl] _ IH]; intros cursor Hcycle Hstep Hin; [by apply elem_of_nil in Hstep|].
  destruct Hcycle as [Hpage Hnext]. apply elem_of_cons in Hstep as [->|Hstep].
  - destruct (scan_page_ok _ _ _ _ _ Hc Hl Hpage) as (_ & _ & rows & rest & Erows & Hread & _).
    destruct (read_rows_in _ _ _ _ Hread Hin) as (r & Hr & E). exists r.
    assert (r ∈ scan_after bucket cursor (st_db st)) as [Hrow _]%elem_of_scan_after by (rewrite Erows; set_solver).
    apply elem_of_bucket_rows in Hrow as [? ?]. done.
  - destruct (cycle_complete (st_page st)); [subst; by apply elem_of_nil in Hstep|]. by eapply IH.
Qed.

(** ** What a cycle visits *)

(** The version is in the bucket, in the same role and at the same place. *)
Definition version_stays (bucket : string) (v : VersionRow) (db : WorkerDb) : Prop :=
  exists v', v' ∈ versions (wd_objects db) /\ v_bucket v' = bucket /\ v_is_latest v' = v_is_latest v
    /\ v_key v' = v_key v /\ v_sequence v' = v_sequence v /\ v_id v' = v_id v.

Lemma scan_cycle_sees (bucket : string) (steps : list ScanStep) :
  Forall (fun step => constraints (wd_objects (st_db step)) /\ 0 <= st_limit step) steps -> scan_cycle bucket None steps ->
  NoDup (candidate_rank <$> visited steps)
  /\ (forall v, (forall step, step ∈ steps -> version_stays bucket v (st_db step)) ->
        exists c, CandVersion c ∈ visited steps /\ vt_version_row_id (target c) = v_id v)
  /\ (forall id u, mu_bucket u = bucket -> (forall step, step ∈ steps -> up_uploads (wd_uploads (st_db step)) !! id = Some u) ->
        exists t, CandMultipart t ∈ visited steps /\ mt_upload_id t = id).
Proof.
  intros Hall Hcycle. destruct (scan_cycle_from bucket None steps Hall Hcycle) as (Hs & _ & Hstay). split; [|split].
  - apply (StronglySorted_NoDup (fun a b : Rank => cmp a b = Lt)); [intros a; by rewrite cmp_refl|].
    by apply (sorted_fmap before).
  - intros v Hv. destruct (Hstay (rank (RowVersion v))) as (c & Hc & E); [done| |].
    + intros step (v' & Hin & Hb & Hlatest & Hk & Hseq & Hid)%Hv. exists (RowVersion v').
      split; [by apply elem_of_bucket_rows|]. unfold rank, row_place, version_place, row_source. by rewrite Hlatest, Hk, Hseq, Hid.
    + unfold rank, version_place in E. destruct c as [c|t]; simpl in E; [exists c; split; [done|by injection E]|]. by destruct (v_is_latest v).
  - intros id u Hb Hu. destruct (Hstay (rank (RowUpload (id, u)))) as (c & Hc & E); [done| |].
    + intros step Hstep%Hu. exists (RowUpload (id, u)). split; [by apply elem_of_bucket_rows|done].
    + unfold rank, upload_place in E. destruct c as [c|t]; simpl in E; [by destruct (is_latest c)|]. exists t. split; [done|by injection E].
Qed.

(** C21: A cycle of the lifecycle scan sees every version and upload that stays, and none twice, whatever else
    happens between its pages.  For the pages of a cycle, each taken in its own state of the tables from
    where the one before stopped: the candidates come in strictly increasing order, so none is seen twice;
    each is what one reads of a stored row of the bucket in the state of its page; a version that keeps its
    role and its place through the cycle is seen; and so is an upload that is there all the time. *)
Theorem scan_cycle_visits (bucket : string) (steps : list ScanStep)
    (Hall : Forall (fun step => constraints (wd_objects (st_db step)) /\ 0 <= st_limit step) steps)
    (Hcycle : scan_cycle bucket None steps) :
  StronglySorted before (visited steps)
  /\ NoDup (candidate_rank <$> visited steps)
  /\ (forall step c, step ∈ steps -> c ∈ candidates (st_page step) ->
        exists r, row_stored r (st_db step) /\ row_bucket r = bucket /\ read_row (st_db step) r = Ok c)
  /\ (forall v, (forall step, step ∈ steps -> version_stays bucket v (st_db step)) ->
        exists c, CandVersion c ∈ visited steps /\ vt_version_row_id (target c) = v_id v)
  /\ (forall id u, mu_bucket u = bucket -> (forall step, step ∈ steps -> up_uploads (wd_uploads (st_db step)) !! id = Some u) ->
        exists t, CandMultipart t ∈ visited steps /\ mt_upload_id t = id).
Proof.
  destruct (scan_cycle_from bucket None steps Hall Hcycle) as (Hs & _). destruct (scan_cycle_sees bucket steps Hall Hcycle) as (Hnd & Hv & Hu).
  split_and!; [done..| |done|done]. intros step c. by apply (scan_cycle_reads bucket None).
Qed.
End reading.
