(* ===== verification/LifecycleStore.v ===== *)
(** * Lifecycle configurations and scan leases ([src/store/lifecycle_config.rs], [src/s3/ops/lifecycle.rs])

    The table of lifecycle configurations: the handlers that put, get and delete a document, and the
    leases under which workers scan a bucket page by page.  The revision of a row counts its documents, the
    epoch its leases; together they fence a worker whose document was replaced or whose lease was taken
    over; [ScanWorker] has the histories in which they do. *)

From Stdlib Require Import ZArith Lia Ascii.
From Stdlib Require String.
From stdpp Require Import base list strings pretty sorting gmap.
From S2P Require Import Prelude Errors Chrono VersionModel LifecycleModel LifecycleConfig LifecycleEval Database Transaction.
From S2P Require Import ObjectStore ImportDb Ownership LifecycleActions LifecycleQueue Revalidation LifecycleScan.

#[local] Open Scope string_scope.
#[local] Open Scope list_scope.
#[local] Open Scope Z_scope.
#[local] Open Scope rust_scope.

Definition MAX_LIFECYCLE_SCAN_LEASE_SECONDS : Z := 86400.

Record ClaimedLifecycleScan : Type := {
  scan_bucket : string;
  scan_config_revision : Z;
  scan_canonical_json : string;
  scan_cursor : option LifecycleScanCursor;
  scan_lease_epoch : Z;
  scan_database_now : Z;
  scan_lease_until : Z
}.
#[export] Instance ClaimedLifecycleScan_eq_dec : EqDecision ClaimedLifecycleScan.
Proof. solve_decision. Defined.

(** ** The table *)

Definition set_configs (f : gmap string LifecycleConfigRow -> gmap string LifecycleConfigRow) (db : WorkerDb) : WorkerDb :=
  {| wd_lifecycle := wd_lifecycle db; wd_objects := wd_objects db; wd_configs := f (wd_configs db); wd_tags := wd_tags db;
     wd_uploads := wd_uploads db |}.

(** What the database says of a text that is stored as JSON: [json_valid], [pg_input_is_valid] *)
Class JsonColumn := json_valid : string -> bool.

Section store.
Context `{Chrono} `{CursorCodec} `{JsonColumn}.

(** The [CHECK]s of [bucket_lifecycle_configs] and its key *)
Definition config_check (db : WorkerDb) (bucket : string) (row : LifecycleConfigRow) : Prop :=
  bucket ∈ map b_name (buckets (wd_objects db)) /\ 0 < lc_revision row /\ 0 <= lc_scan_lease_epoch row
  /\ is_none_or json_valid (lc_canonical_json row) = true.
Definition config_constraints (db : WorkerDb) : Prop := map_Forall (config_check db) (wd_configs db).
#[export] Instance config_constraints_dec db : Decision (config_constraints db).
Proof. unfold config_constraints, config_check. apply _. Defined.

Definition c_exec (f : gmap string LifecycleConfigRow -> gmap string LifecycleConfigRow) : WTx unit :=
  t_exec config_constraints (set_configs f).

(** [UPDATE bucket_lifecycle_configs SET f WHERE bucket = ? AND p]: whether there was such a row *)
Definition update_config (bucket : string) (p : LifecycleConfigRow -> bool) (f : LifecycleConfigRow -> LifecycleConfigRow) : WTx bool :=
  let* row := t_reads (fun db => wd_configs db !! bucket) in
  match row with
  | Some row => if p row then let* _ := c_exec <[bucket := f row]> in t_ret true else t_ret false
  | None => t_ret false
  end.

(** ** Documents *)

Definition verify_expected_owner (bucket_owner expected_owner : option string) : AppResult unit :=
  match expected_owner with
  | None => Ok tt
  | Some value => if bool_decide (bucket_owner = Some value) then Ok tt else Err (AccessDenied "expected bucket owner mismatch")
  end.

Definition lock_bucket_and_verify_owner (bucket_name : string) (expected_owner : option string) : WTx unit :=
  let* _ := on_tickets (lock_bucket_for_ownership bucket_name) in
  let* bucket := t_reads (fun db => find_bucket bucket_name (wd_objects db)) in
  let* bucket := t_some (NoSuchBucket bucket_name) bucket in
  t_lift (verify_expected_owner (b_owner bucket) expected_owner).

Definition next_revision (previous : option LifecycleConfigRow) : AppResult Z :=
  match previous with
  | Some configuration =>
    ok_or (Errors.Database "lifecycle configuration revision overflow") (i64_checked_add (lc_revision configuration) 1)
  | None => Ok 1
  end.

(** On a conflict every column is replaced but the time of creation. *)
Definition upsert_configuration (bucket_name : string) (canonical_json : option string) (revision : Z)
    (created_at : option Z) (now : Z) : WTx unit :=
  let* existing := t_reads (fun db => wd_configs db !! bucket_name) in
  c_exec <[bucket_name := {| lc_canonical_json := canonical_json; lc_revision := revision; lc_scan_cursor := None;
                             lc_scan_lease_epoch := 0; lc_scan_lease_until := None;
                             lc_created_at := from_option lc_created_at (default now created_at) existing;
                             lc_updated_at := now; lc_last_scanned_at := None |}]>.

(** [canonical_json] is [None] for the tombstone that a deletion writes. *)
Definition write_configuration (bucket_name : string) (canonical_json : option string) (expected_owner : option string) (now : Z)
  : WTx Z :=
  let* _ := lock_bucket_and_verify_owner bucket_name expected_owner in
  let* previous := t_reads (fun db => wd_configs db !! bucket_name) in
  let* revision := t_lift (next_revision previous) in
  let* _ := upsert_configuration bucket_name canonical_json revision (lc_created_at <$> previous) now in
  t_ret revision.

Definition put_configuration_for_owner (bucket_name canonical_json : string) (expected_owner : option string) (now : Z) : WTx Z :=
  write_configuration bucket_name (Some canonical_json) expected_owner now.
Definition put_configuration (bucket_name canonical_json : string) (now : Z) : WTx Z :=
  put_configuration_for_owner bucket_name canonical_json None now.
Definition delete_configuration_for_owner (bucket_name : string) (expected_owner : option string) (now : Z) : WTx Z :=
  write_configuration bucket_name None expected_owner now.
Definition delete_configuration (bucket_name : string) (now : Z) : WTx Z :=
  delete_configuration_for_owner bucket_name None now.

Definition get_configuration (bucket_name : string) : WTx string :=
  let* bucket := t_reads (fun db => find_bucket bucket_name (wd_objects db)) in
  let* _ := t_some (NoSuchBucket bucket_name) bucket in
  let* configuration := t_reads (fun db => row ← wd_configs db !! bucket_name; lc_canonical_json row) in
  t_some NoSuchLifecycleConfiguration configuration.

Definition get_configuration_for_owner (bucket_name : string) (expected_owner : option string) : WTx string :=
  let* row := t_reads (fun db => (fun b => (b_owner b, row ← wd_configs db !! bucket_name; lc_canonical_json row))
                                 <$> find_bucket bucket_name (wd_objects db)) in
  let* row := t_some (NoSuchBucket bucket_name) row in
  let* _ := t_lift (verify_expected_owner row.1 expected_owner) in
  t_some NoSuchLifecycleConfiguration row.2.

(** ** Leases *)

Definition stored_cursor_error : AppError := Internal "stored lifecycle scan cursor is invalid".

(** [lease_for] is in nanoseconds. *)
Definition validate_scan_lease (lease_for : Z) : AppResult unit :=
  bail_if (lease_for <=? 0) || (MAX_LIFECYCLE_SCAN_LEASE_SECONDS * second_ns <? lease_for)
  with InvalidArgument ("lifecycle scan lease must be between 1 second and " +:+ pretty MAX_LIFECYCLE_SCAN_LEASE_SECONDS +:+ " seconds") else
  Ok tt.

Definition scan_claimable_condition (now : Z) (row : LifecycleConfigRow) : bool :=
  is_some (lc_canonical_json row) && is_none_or (fun until => until <=? now) (lc_scan_lease_until row).

(** Never scanned first, then the one scanned longest ago *)
Definition scan_order (row : string * LifecycleConfigRow) : Z * (option Z * (Z * string)) :=
  (if is_none (lc_last_scanned_at row.2) then 0 else 1, (lc_last_scanned_at row.2, (lc_updated_at row.2, row.1))).

(** [skipped] are the rows that other transactions have locked, which PostgreSQL passes over. *)
Definition first_claimable_configuration (now : Z) (skipped : string -> bool) (db : WorkerDb) : option (string * LifecycleConfigRow) :=
  head (sort_by (by_key scan_order)
    (filter (fun row => scan_claimable_condition now row.2 = true /\ skipped row.1 = false) (map_to_list (wd_configs db)))).

Definition with_scan_lease (epoch until : Z) (row : LifecycleConfigRow) : LifecycleConfigRow :=
  {| lc_canonical_json := lc_canonical_json row; lc_revision := lc_revision row; lc_scan_cursor := lc_scan_cursor row;
     lc_scan_lease_epoch := epoch; lc_scan_lease_until := Some until; lc_created_at := lc_created_at row;
     lc_updated_at := lc_updated_at row; lc_last_scanned_at := lc_last_scanned_at row |}.

Definition claim_next_scan_in_transaction (lease_for now : Z) (skipped : string -> bool) : WTx (option ClaimedLifecycleScan) :=
  let* candidate := t_reads (first_claimable_configuration now skipped) in
  match candidate with
  | None => t_ret None
  | Some (bucket, candidate) =>
    let* canonical_json := t_some (Internal "claimed lifecycle configuration is tombstoned") (lc_canonical_json candidate) in
    let* cursor := t_lift match lc_scan_cursor candidate with
                          | Some stored => let? c := map_err (fun _ => stored_cursor_error) (decode_cursor stored bucket) in Ok (Some c)
                          | None => Ok None
                          end in
    let* lease_epoch := t_some (Errors.Database "lifecycle scan lease epoch overflow")
                          (i64_checked_add (lc_scan_lease_epoch candidate) 1) in
    let* lease_until := t_some (InvalidArgument "lifecycle scan lease is outside the database timestamp range")
                          (checked_add_signed now lease_for) in
    let* updated := update_config bucket
      (fun row => (lc_revision row =? lc_revision candidate) && (lc_scan_lease_epoch row =? lc_scan_lease_epoch candidate)
                  && scan_claimable_condition now row)
      (with_scan_lease lease_epoch lease_until) in
    if negb updated then t_ret None
    else t_ret (Some {| scan_bucket := bucket; scan_config_revision := lc_revision candidate; scan_canonical_json := canonical_json;
                        scan_cursor := cursor; scan_lease_epoch := lease_epoch; scan_database_now := now;
                        scan_lease_until := lease_until |})
  end.

(** The attempt that is not refused for contention *)
Definition claim_next_scan (lease_for now : Z) (skipped : string -> bool) : WTx (option ClaimedLifecycleScan) :=
  let* _ := t_lift (validate_scan_lease lease_for) in
  claim_next_scan_in_transaction lease_for now skipped.

Definition after_scan_page (stored_cursor : option string) (now : Z) (row : LifecycleConfigRow) : LifecycleConfigRow :=
  {| lc_canonical_json := lc_canonical_json row; lc_revision := lc_revision row; lc_scan_cursor := stored_cursor;
     lc_scan_lease_epoch := lc_scan_lease_epoch row; lc_scan_lease_until := None; lc_created_at := lc_created_at row;
     lc_updated_at := lc_updated_at row; lc_last_scanned_at := Some now |}.

Definition scan_lease_held (claim : ClaimedLifecycleScan) (clock : Z) (row : LifecycleConfigRow) : bool :=
  (lc_revision row =? scan_config_revision claim) && (lc_scan_lease_epoch row =? scan_lease_epoch claim)
  && is_some (lc_canonical_json row) && is_some_and (fun until => clock <? until) (lc_scan_lease_until row).

(** [now] is recorded, [clock] is what the statement compares the lease with. *)
Definition finish_scan_page_in_transaction (claim : ClaimedLifecycleScan) (next : option LifecycleScanCursor)
    (complete : bool) (now clock : Z) : WTx bool :=
  let* stored_cursor := t_lift
    (if complete then Ok None
     else match next with
          | None => Ok None
          | Some cursor =>
            let encoded := encode_cursor cursor in
            let? _ := map_err (fun _ => stored_cursor_error) (decode_cursor encoded (scan_bucket claim)) in
            Ok (Some encoded)
          end) in
  update_config (scan_bucket claim) (scan_lease_held claim clock) (after_scan_page stored_cursor now).

Definition finish_scan_page (claim : ClaimedLifecycleScan) (next : option LifecycleScanCursor) (complete : bool) (now clock : Z)
  : WTx bool := finish_scan_page_in_transaction claim next complete now clock.
End store.

(** ** The handlers *)

Record PutBucketLifecycleConfigurationInput `{S3Timestamp} : Type := {
  put_bucket : string;
  put_expected_bucket_owner : option string;
  put_transition_default_minimum_object_size : option string;
  put_lifecycle_configuration : option (list LifecycleRule)
}.

Section handlers.
Context `{Chrono} `{S3Timestamp} `{JsonColumn}.
(** [serde_json] at the configuration *)
Context (configuration_to_json : CanonicalLifecycleConfiguration -> option string)
  (configuration_from_json : string -> option CanonicalLifecycleConfiguration).

Definition load_bucket_and_verify_owner (bucket_name : string) (expected_owner : option string) (db : WorkerDb) : AppResult unit :=
  let? bucket := ok_or (NoSuchBucket bucket_name) (find_bucket bucket_name (wd_objects db)) in
  verify_expected_owner (b_owner bucket) expected_owner.

Definition require_cold_kubo_for_transitions (cold_kubo : bool) (configuration : list LifecycleRule) : AppResult unit :=
  let has_transition := existsb (fun rule => is_some (lr_transitions rule) || is_some (lr_noncurrent_version_transitions rule)) configuration in
  bail_if has_transition && negb cold_kubo
  with InvalidLifecycleConfiguration "lifecycle transitions require a configured cold Kubo node" else
  Ok tt.

(** [seen] are the tables when the bucket is looked up, before the transaction that stores the document. *)
Definition put_bucket_lifecycle_configuration (cold_kubo : bool) (input : PutBucketLifecycleConfigurationInput) (seen : WorkerDb) (now : Z)
  : WTx unit :=
  let* _ := t_lift (load_bucket_and_verify_owner (put_bucket input) (put_expected_bucket_owner input) seen) in
  stop_if is_some (put_transition_default_minimum_object_size input)
  with InvalidLifecycleConfiguration "transition default minimum object size is not supported" else
  let* configuration := t_some (InvalidLifecycleConfiguration "lifecycle configuration is required") (put_lifecycle_configuration input) in
  let* _ := t_lift (require_cold_kubo_for_transitions cold_kubo configuration) in
  let* canonical := t_lift (validate_and_canonicalize configuration) in
  let* json := t_lift (canonical_json configuration_to_json canonical) in
  let* _ := put_configuration_for_owner (put_bucket input) json (put_expected_bucket_owner input) now in
  t_ret tt.

Definition get_bucket_lifecycle_configuration (bucket : string) (expected_bucket_owner : option string) : WTx (list LifecycleRule) :=
  let* json := get_configuration_for_owner bucket expected_bucket_owner in
  let* configuration := t_lift (from_canonical_json configuration_from_json json) in
  t_lift (to_s3_rules configuration).

Definition delete_bucket_lifecycle (bucket : string) (expected_bucket_owner : option string) (now : Z) : WTx unit :=
  let* _ := delete_configuration_for_owner bucket expected_bucket_owner now in
  t_ret tt.
End handlers.

(** * Properties *)

Section effects.
Context `{Chrono} `{CursorCodec} `{JsonColumn}.

Lemma update_config_ok bucket p f db b db' :
  update_config bucket p f db = Ok (b, db') ->
  (b = false /\ db' = db /\ forall row, wd_configs db !! bucket = Some row -> p row = false)
  \/ (b = true /\ exists row, wd_configs db !! bucket = Some row /\ p row = true /\ db' = set_configs <[bucket := f row]> db).
Proof.
  unfold update_config. intros (row & d & [-> ->]%t_reads_ok & E)%t_bind_ok. destruct (wd_configs db !! bucket) as [row|].
  - destruct (p row) eqn:Hp.
    + apply t_bind_ok in E as (u & d & [-> _]%t_exec_ok & [-> ->]%t_ret_ok). right. eauto.
    + apply t_ret_ok in E as [-> ->]. left. split_and!; [done|done|]. by intros ? [= <-].
  - apply t_ret_ok in E as [-> ->]. by left.
Qed.

(** A document is written with the next revision, and leases start again. *)
Record written (bucket : string) (canonical_json : option string) (revision now : Z) (db db' : WorkerDb) (row : LifecycleConfigRow) : Prop := {
  wr_db : db' = set_configs <[bucket := row]> db;
  wr_json : lc_canonical_json row = canonical_json;
  wr_revision : lc_revision row = revision;
  wr_next old : wd_configs db !! bucket = Some old -> revision = lc_revision old + 1;
  wr_first : wd_configs db !! bucket = None -> revision = 1;
  wr_scan : lc_scan_cursor row = None /\ lc_scan_lease_epoch row = 0 /\ lc_scan_lease_until row = None /\ lc_last_scanned_at row = None;
  wr_created old : wd_configs db !! bucket = Some old -> lc_created_at row = lc_created_at old
}.

Lemma owner_verified_read_only bucket owner db db' : lock_bucket_and_verify_owner bucket owner db = Ok (tt, db') -> db' = db.
Proof.
  unfold lock_bucket_and_verify_owner. intros (u & d & E1 & E)%t_bind_ok.
  assert (d = db) as ->.
  { unfold on_tickets in E1. apply on_lifecycle_ok in E1 as (l & (im & E1 & ->)%on_imports_ok & ->).
    unfold lock_bucket_for_ownership in E1. apply t_bind_ok in E1 as (k & s & [-> ->]%t_reads_ok & [_ E1]%stop_ok).
    apply t_ret_ok in E1 as [_ ->]. by destruct db as [[]]. }
  apply t_bind_ok in E as (b & d & [-> ->]%t_reads_ok & E). apply t_bind_ok in E as (b & d & [_ ->]%t_some_ok & E).
  by apply t_lift_ok in E as [_ ->].
Qed.

Lemma write_configuration_ok bucket json owner now db r db' :
  write_configuration bucket json owner now db = Ok (r, db') -> exists row, written bucket json r now db db' row.
Proof.
  unfold write_configuration. intros ([] & d & ->%owner_verified_read_only & E)%t_bind_ok.
  apply t_bind_ok in E as (previous & d & [-> ->]%t_reads_ok & E).
  apply t_bind_ok in E as (revision & d & [Hr ->]%t_lift_ok & E). apply t_bind_ok in E as (u & d & E & [-> ->]%t_ret_ok).
  unfold upsert_configuration in E. apply t_bind_ok in E as (existing & d' & [-> ->]%t_reads_ok & [-> _]%t_exec_ok).
  eexists. split; [done|done|done| | |done|]; simpl.
  - intros old Hold. rewrite Hold in Hr. simpl in Hr. unfold i64_checked_add in Hr. destruct (fits_i64 _); [by injection Hr|done].
  - intros Hnone. rewrite Hnone in Hr. by injection Hr.
  - intros old Hold. by rewrite Hold.
Qed.

(** What a claim takes: a row with a document and without a live lease, and the cursor stored in it *)
Definition cursor_of (bucket : string) (row : LifecycleConfigRow) : AppResult (option LifecycleScanCursor) :=
  match lc_scan_cursor row with
  | Some stored => let? c := map_err (fun _ => stored_cursor_error) (decode_cursor stored bucket) in Ok (Some c)
  | None => Ok None
  end.

Record scan_claimed (c : ClaimedLifecycleScan) (row : LifecycleConfigRow) (db db' : WorkerDb) : Prop := {
  cs_row : wd_configs db !! scan_bucket c = Some row;
  cs_db : db' = set_configs <[scan_bucket c := with_scan_lease (scan_lease_epoch c) (scan_lease_until c) row]> db;
  cs_revision : scan_config_revision c = lc_revision row;
  cs_json : lc_canonical_json row = Some (scan_canonical_json c);
  cs_epoch : scan_lease_epoch c = lc_scan_lease_epoch row + 1;
  cs_cursor : cursor_of (scan_bucket c) row = Ok (scan_cursor c);
  cs_claimable : scan_claimable_condition (scan_database_now c) row = true
}.

Lemma claim_next_scan_ok lease_for now skipped db o db' :
  claim_next_scan lease_for now skipped db = Ok (o, db') ->
  match o with
  | None => db' = db
  | Some c => exists row, first_claimable_configuration now skipped db = Some (scan_bucket c, row) /\ scan_claimed c row db db'
      /\ scan_database_now c = now /\ checked_add_signed now lease_for = Some (scan_lease_until c) /\ 0 < lease_for
  end.
Proof.
  unfold claim_next_scan, claim_next_scan_in_transaction. intros (u & d & [Hl ->]%t_lift_ok & E)%t_bind_ok.
  apply t_bind_ok in E as (candidate & d & [-> ->]%t_reads_ok & E).
  destruct (first_claimable_configuration now skipped db) as [[bucket row]|] eqn:Efirst; [|by apply t_ret_ok in E as [-> ->]].
  apply t_bind_ok in E as (json & d & [Hj ->]%t_some_ok & E). apply t_bind_ok in E as (cursor & d & [Hcur ->]%t_lift_ok & E).
  apply t_bind_ok in E as (epoch & d & [He ->]%t_some_ok & E). apply t_bind_ok in E as (until & d & [Hu ->]%t_some_ok & E).
  apply t_bind_ok in E as (updated & d & [(-> & -> & _)|(-> & row' & Hrow & Hp & ->)]%update_config_ok & E); apply t_ret_ok in E as [-> ->]; [done|].
  pose proof Efirst as Hin. unfold first_claimable_configuration in Hin. apply head_elem, elem_of_sort_by, list_elem_of_filter in Hin as [[Hcl _] Hin].
  apply elem_of_map_to_list in Hin. assert (row' = row) as -> by congruence. exists row. split; [done|].
  split; [|split; [done|split; [done|]]].
  - unfold i64_checked_add in He. destruct (fits_i64 _); [|done]. injection He as <-. by split.
  - unfold validate_scan_lease in Hl. destruct (_ || _) eqn:El; [done|]. apply orb_false_iff in El as [El%Z.leb_gt _]. done.
Qed.

(** What finishing a page does: nothing, or the cursor is stored and the lease is over. *)
Record scan_finished (c : ClaimedLifecycleScan) (next : option LifecycleScanCursor) (complete : bool) (now clock : Z)
    (row row' : LifecycleConfigRow) (db db' : WorkerDb) : Prop := {
  fs_row : wd_configs db !! scan_bucket c = Some row;
  fs_held : scan_lease_held c clock row = true;
  fs_db : db' = set_configs <[scan_bucket c := row']> db;
  fs_row' : exists stored, row' = after_scan_page stored now row
    /\ stored = (if complete then None else encode_cursor <$> next);
  fs_cursor : complete = false -> forall cursor, next = Some cursor -> is_ok (decode_cursor (encode_cursor cursor) (scan_bucket c)) = true
}.

Lemma finish_scan_page_ok c next complete now clock db b db' :
  finish_scan_page_in_transaction c next complete now clock db = Ok (b, db') ->
  (b = false /\ db' = db) \/ (b = true /\ exists row row', scan_finished c next complete now clock row row' db db').
Proof.
  unfold finish_scan_page_in_transaction. intros (stored & d & [Hs ->]%t_lift_ok & [(-> & -> & _)|(-> & row & Hrow & Hp & ->)]%update_config_ok)%t_bind_ok;
    [by left|]. right. split; [done|]. exists row, (after_scan_page stored now row). destruct complete.
  { injection Hs as <-. split; try done. by eexists. }
  destruct next as [cursor|]; [|injection Hs as <-; split; try done; by eexists].
  destruct (decode_cursor (encode_cursor cursor) (scan_bucket c)) as [x|e] eqn:Ed; [|done]. injection Hs as <-.
  split; try done; [by eexists|]. intros _ cursor' [= <-]. by rewrite Ed.
Qed.

(** A stored cursor is read back as it was. *)
Lemma decode_encode `{!CursorCodecLaws} cursor bucket c :
  decode_cursor (encode_cursor cursor) bucket = Ok c -> c = cursor /\ valid_cursor cursor bucket.
Proof.
  unfold decode_cursor, encode_cursor. rewrite url_safe_roundtrip. simpl.
  destruct (cursor_from_slice (cursor_to_vec cursor)) as [c'|] eqn:E; [|done]. apply cursor_json_roundtrip in E as ->. simpl.
  destruct (validate_cursor cursor bucket) as [[]|] eqn:Ev; [|done]. intros [= <-]. split; [done|]. by apply validate_cursor_ok.
Qed.

(** The claim goes to a configuration that nobody scans, the one that waits longest: those never scanned
    first, then by the time of the last page. *)
Lemma first_claimable_ok now skipped db bucket row :
  first_claimable_configuration now skipped db = Some (bucket, row) ->
  wd_configs db !! bucket = Some row /\ scan_claimable_condition now row = true /\ skipped bucket = false
  /\ forall b r, wd_configs db !! b = Some r -> scan_claimable_condition now r = true -> skipped b = false ->
       ord_le (scan_order (bucket, row)) (scan_order (b, r)).
Proof.
  unfold first_claimable_configuration. intros [[[Hc Hs] Hin%elem_of_map_to_list]%list_elem_of_filter Hmin]%sort_by_head. simpl in *.
  split_and!; try done. intros b r Hr Hcr Hsr. apply Hmin, list_elem_of_filter. split; [done|]. by apply elem_of_map_to_list.
Qed.
End effects.

(** ** What the handlers do *)

Section documents.
Context `{ChronoLaws} `{S3Timestamp} `{CursorCodec} `{JsonColumn}.
Context (configuration_to_json : CanonicalLifecycleConfiguration -> option string)
  (configuration_from_json : string -> option CanonicalLifecycleConfiguration).

Lemma verify_owner_ok owner expected : verify_expected_owner owner expected = Ok tt <-> expected = None \/ expected = owner.
Proof. destruct expected as [e|]; simpl; [|naive_solver]. case_bool_decide; naive_solver. Qed.

(** A successful write found the bucket and its owner. *)
Lemma write_configuration_owner bucket json owner now db r db' :
  write_configuration bucket json owner now db = Ok (r, db') ->
  exists b, find_bucket bucket (wd_objects db) = Some b /\ verify_expected_owner (b_owner b) owner = Ok tt.
Proof.
  unfold write_configuration, lock_bucket_and_verify_owner. intros ([] & d & E & _)%t_bind_ok.
  apply t_bind_ok in E as (u & d1 & E1 & E). assert (wd_objects d1 = wd_objects db) as Ho.
  { unfold on_tickets in E1. by apply on_lifecycle_ok in E1 as (l & _ & ->). }
  apply t_bind_ok in E as (b & d2 & [-> ->]%t_reads_ok & E). apply t_bind_ok in E as (b & d2 & [Hb ->]%t_some_ok & [Hv _]%t_lift_ok).
  rewrite Ho in Hb. eauto.
Qed.

(** C36: Putting a lifecycle configuration stores exactly that configuration.  When the handler succeeds, the
    document was accepted and has a new revision, one more than the row of the bucket had; getting the
    configuration of the bucket gives the projection of the accepted document to S3, whatever that is;
    the owner was the expected one; scans of the bucket start again; and the configurations of all other
    buckets and all other tables are as they were. *)
Theorem put_lifecycle_configuration_stores (cold_kubo : bool) (input : PutBucketLifecycleConfigurationInput) (seen db db' : WorkerDb) (now : Z)
    (Hjson : forall c json, configuration_to_json c = Some json -> configuration_from_json json = Some c)
    (Hput : put_bucket_lifecycle_configuration configuration_to_json cold_kubo input seen now db = Ok (tt, db')) :
  exists given accepted row,
    put_lifecycle_configuration input = Some given /\ validate_and_canonicalize given = Ok accepted
    /\ (forall owner, get_bucket_lifecycle_configuration configuration_from_json (put_bucket input) owner db'
          = let? _ := load_bucket_and_verify_owner (put_bucket input) owner db in
            let? rules := to_s3_rules accepted in Ok (rules, db'))
    /\ load_bucket_and_verify_owner (put_bucket input) (put_expected_bucket_owner input) db = Ok tt
    /\ db' = set_configs <[put_bucket input := row]> db
    /\ lc_revision row = from_option (fun old => lc_revision old + 1) 1 (wd_configs db !! put_bucket input)
    /\ lc_scan_cursor row = None /\ lc_scan_lease_epoch row = 0 /\ lc_scan_lease_until row = None.
Proof.
  unfold put_bucket_lifecycle_configuration in Hput. apply t_bind_ok in Hput as (u & d & [_ ->]%t_lift_ok & [_ Hput]%stop_ok).
  apply t_bind_ok in Hput as (given & d & [Hgiven ->]%t_some_ok & Hput). apply t_bind_ok in Hput as (u' & d & [_ ->]%t_lift_ok & Hput).
  apply t_bind_ok in Hput as (accepted & d & [Hacc ->]%t_lift_ok & Hput). apply t_bind_ok in Hput as (json & d & [Hcan ->]%t_lift_ok & Hput).
  apply t_bind_ok in Hput as (r & d & Hw & [_ ->]%t_ret_ok).
  assert (from_canonical_json configuration_from_json json = Ok accepted) as Hfrom.
  { unfold canonical_json in Hcan. apply rbind_ok in Hcan as (u'' & Hval & Hj%ok_or_ok). unfold from_canonical_json.
    rewrite (Hjson _ _ Hj). simpl. by rewrite Hval. }
  destruct (write_configuration_owner _ _ _ _ _ _ _ Hw) as (b & Hb & Howner). destruct (write_configuration_ok _ _ _ _ _ _ _ Hw) as (row & W).
  exists given, accepted, row. split_and!; try done; [| |apply W| |apply W..].
  - intros owner. unfold get_bucket_lifecycle_configuration, get_configuration_for_owner, load_bucket_and_verify_owner, t_bind, t_reads, t_some, t_lift.
    rewrite (wr_db _ _ _ _ _ _ _ W). simpl. rewrite Hb, lookup_insert_eq. simpl. destruct (verify_expected_owner (b_owner b) owner) as [[]|]; [|done].
    simpl. rewrite (wr_json _ _ _ _ _ _ _ W). simpl. rewrite Hfrom. done.
  - unfold load_bucket_and_verify_owner. by rewrite Hb.
  - rewrite (wr_revision _ _ _ _ _ _ _ W). destruct (wd_configs db !! put_bucket input) as [old|] eqn:E; simpl;
      [by apply (wr_next _ _ _ _ _ _ _ W)|by apply (wr_first _ _ _ _ _ _ _ W)].
Qed.
End documents.
