(* ===== verification/Transitions.v ===== *)
(** * Moving a version to the cold tier ([src/store/lifecycle_transition.rs])

    A transition copies the blocks of a version to the cold node and then makes that copy the primary
    one.  Its durable record, a saga, goes through the checkpoints [prepare], [copy], [verify],
    [publish] and [cleanup], one transaction each, or is cancelled before it is published; meanwhile
    it holds references to the copies it needs.  Every transaction runs under a claim of the queue
    of [LifecycleActions], and takes the clock readings it makes as a function of their number.  Row
    locks are not visible inside a transaction: of the frontier that is locked only its checks remain,
    and the outcome of locking the pin leases of the object is an argument. *)

From Stdlib Require Import ZArith Lia Ascii.
From Stdlib Require String.
From stdpp Require Import base list strings pretty gmap.
From S2P Require Import Prelude Errors Chrono VersionModel LifecycleModel LifecycleConfig LifecycleEval Database Transaction.
From S2P Require Import ObjectStore ResidencyStore VersionStore ImportDb Ownership LifecycleActions LifecycleQueue Revalidation.

#[local] Open Scope string_scope.
#[local] Open Scope list_scope.
#[local] Open Scope Z_scope.
#[local] Open Scope rust_scope.

(** ** Receipts *)

(** [LocalResidencyVerificationReceipt] of [src/kubo/verification.rs] *)
Record TierCopyReceipt : Type := { tc_node_identity : string; tc_cid : string }.

Record DurableVerificationReceipt : Type := {
  dv_version : Z;
  dv_saga_id : string;
  dv_action_id : string;
  dv_claim_epoch : Z;
  dv_source_residency_revision : Z;
  dv_source_node_identity : string;
  dv_destination_node_identity : string;
  dv_cid : string;
  dv_tier_receipt : TierCopyReceipt
}.

Record TransitionPublicationReceipt : Type := {
  tp_version : Z;
  tp_saga_id : string;
  tp_action_id : string;
  tp_claim_epoch : Z;
  tp_source_residency_revision : Z;
  tp_published_residency_revision : Z;
  tp_destination_node_identity : string;
  tp_cid : string;
  tp_published_at : Z
}.

#[export] Instance TierCopyReceipt_eq_dec : EqDecision TierCopyReceipt.
Proof. solve_decision. Defined.
#[export] Instance DurableVerificationReceipt_eq_dec : EqDecision DurableVerificationReceipt.
Proof. solve_decision. Defined.

(** [serde_json::to_string] and [serde_json::from_str] at the receipts and the configuration *)
Class TransitionCodec := {
  tier_receipt_json : TierCopyReceipt -> option string;
  tier_receipt_from_json : string -> option TierCopyReceipt;
  verification_json : DurableVerificationReceipt -> option string;
  verification_from_json : string -> option DurableVerificationReceipt;
  publication_json : TransitionPublicationReceipt -> option string;
  publication_from_json : string -> option TransitionPublicationReceipt;
  configuration_from_json : string -> option CanonicalLifecycleConfiguration
}.

(** What was written is read back. *)
Class TransitionCodecLaws `{TransitionCodec} := {
  tier_receipt_read : forall r json, tier_receipt_json r = Some json -> tier_receipt_from_json json = Some r;
  verification_read : forall r json, verification_json r = Some json -> verification_from_json json = Some r;
  publication_read : forall r json, publication_json r = Some json -> publication_from_json json = Some r
}.

Definition invalid_state (subject : string) : AppError :=
  Internal ("invalid lifecycle transition state: " +:+ subject).

Definition serialize_receipt (json : option string) : AppResult string :=
  ok_or (Internal "failed to serialize transition receipt") json.

(** ** Sagas *)

(** The [CHECK]s of [lifecycle_transitions] *)
Definition saga_check (s : TransitionSaga) : Prop :=
  let n := ts_snapshot s in
  (ss_action_kind n ∈ ["transition_current"; "transition_noncurrent"])
  /\ 0 < ss_config_revision n /\ 0 <= ss_target_sequence n /\ nonempty (ss_target_version_row_id n)
  /\ nonempty (ss_target_public_version_id n) /\ nonempty (ss_target_object_id n)
  /\ ss_source_tier n = "hot" /\ ss_destination_tier n = "cold" /\ ss_source_cid n = ss_destination_cid n
  /\ nonempty (ss_source_cid n) /\ 0 < ss_source_residency_revision n
  /\ nonempty (ss_expected_source_node_identity n) /\ nonempty (ss_expected_destination_node_identity n)
  /\ ss_expected_source_node_identity n <> ss_expected_destination_node_identity n
  /\ 0 < ss_ownership_generation n
  /\ (((ts_checkpoint s ∈ ["prepare"; "copy"]) /\ ts_verification_receipt s = None /\ ts_publication_receipt s = None)
      \/ (ts_checkpoint s = "verify" /\ some_nonempty (ts_verification_receipt s) /\ ts_publication_receipt s = None)
      \/ ((ts_checkpoint s ∈ ["publish"; "cleanup"]) /\ some_nonempty (ts_verification_receipt s)
          /\ some_nonempty (ts_publication_receipt s)))
  /\ ((ts_settlement_kind s = None /\ ts_completed_at s = None /\ ts_checkpoint s <> "cleanup")
      \/ (ts_settlement_kind s = Some "cancelled" /\ is_Some (ts_completed_at s)
          /\ (ts_checkpoint s ∈ ["prepare"; "copy"; "verify"]) /\ ts_publication_receipt s = None)
      \/ (ts_settlement_kind s = Some "cleanup_complete" /\ is_Some (ts_completed_at s) /\ ts_checkpoint s = "cleanup")).

Definition sagas (db : WorkerDb) : gmap string TransitionSaga := ld_sagas (wd_lifecycle db).
Definition actions (db : WorkerDb) : gmap string LifecycleAction := ld_actions (wd_lifecycle db).
Definition tickets (db : WorkerDb) : ImportDb := ld_imports (wd_lifecycle db).

(** Checks, the primary key, and the foreign keys to the action, the bucket and the source copy *)
Definition saga_constraints (db : WorkerDb) : Prop :=
  map_Forall (fun _ => saga_check) (sagas db)
  /\ map_Forall (fun i s => map_Forall (fun j s' => ts_id s = ts_id s' -> i = j) (sagas db)) (sagas db)
  /\ map_Forall (fun action _ => is_Some (actions db !! action)) (sagas db)
  /\ map_Forall (fun _ s => ss_bucket (ts_snapshot s) ∈ im_buckets (tickets db)) (sagas db)
  /\ map_Forall (fun _ s => (ss_source_tier (ts_snapshot s), ss_source_cid (ts_snapshot s)) ∈ physical_places (wd_objects db))
       (sagas db).

#[export] Instance saga_check_dec s : Decision (saga_check s).
Proof. unfold saga_check, nonempty. cbv zeta. apply _. Defined.
#[export] Instance saga_constraints_dec db : Decision (saga_constraints db).
Proof. unfold saga_constraints. apply _. Defined.

Definition set_sagas (f : gmap string TransitionSaga -> gmap string TransitionSaga) (db : WorkerDb) : WorkerDb :=
  set_lifecycle {| ld_imports := tickets db; ld_actions := actions db; ld_sagas := f (sagas db) |} db.

Abbreviation s_exec f := (t_exec saga_constraints (set_sagas f)).

(** [find_by_id]: the action of the saga beside the row *)
Definition find_saga (id : string) (db : WorkerDb) : option (string * TransitionSaga) :=
  head (filter (fun r : string * TransitionSaga => ts_id r.2 = id) (map_to_list (sagas db))).

(** [UPDATE .. WHERE id AND p], and whether a row was affected *)
Definition update_saga (id : string) (p : string -> TransitionSaga -> bool) (f : TransitionSaga -> TransitionSaga)
  : WTx bool :=
  let* row := t_reads (fun db => r ← find_saga id db; if p r.1 r.2 then Some r else None) in
  match row with
  | Some (action, s) => let* _ := s_exec <[action := f s]> in t_ret true
  | None => t_ret false
  end.

Definition with_checkpoint (checkpoint : string) (verification publication settlement : option string) (now : Z)
    (completed_at : option Z) (s : TransitionSaga) : TransitionSaga :=
  {| ts_id := ts_id s; ts_snapshot := ts_snapshot s; ts_checkpoint := checkpoint;
     ts_verification_receipt := verification; ts_publication_receipt := publication;
     ts_settlement_kind := settlement; ts_created_at := ts_created_at s; ts_updated_at := now;
     ts_completed_at := completed_at |}.

Definition in_checkpoint (checkpoints : list string) (s : TransitionSaga) : bool :=
  bool_decide (ts_checkpoint s ∈ checkpoints).
Definition unsettled (s : TransitionSaga) : bool := is_none (ts_settlement_kind s).

(** [saga] is a row read earlier, with its action. *)
Definition lock_saga (claim : ClaimedLifecycleAction) (saga : string * TransitionSaga) : WTx TransitionSaga :=
  stop_if negb (String.eqb saga.1 (cl_id claim)) with invalid_state "saga action binding" else
  let* row := t_reads (find_saga (ts_id saga.2)) in
  let* stored := t_some (invalid_state "transition saga missing") row in
  stop_if negb (String.eqb stored.1 (cl_id claim)) with invalid_state "saga action binding" else
  t_ret stored.2.

Definition lock_optional_saga_for_action (claim : ClaimedLifecycleAction) : WTx (option TransitionSaga) :=
  t_reads (fun db => sagas db !! cl_id claim).

Definition lock_saga_for_action (claim : ClaimedLifecycleAction) : WTx TransitionSaga :=
  let* saga := lock_optional_saga_for_action claim in
  t_some (invalid_state "transition saga missing") saga.

Definition reload_saga (saga_id : string) : WTx TransitionSaga :=
  let* row := t_reads (find_saga saga_id) in
  t_some (invalid_state "transition saga disappeared") (snd <$> row).

Definition update_checkpoint (saga_id expected next : string) (verification publication : option string) (now : Z)
  : WTx unit :=
  let* updated := update_saga saga_id (fun _ s => String.eqb (ts_checkpoint s) expected && unsettled s)
    (fun s => with_checkpoint next verification publication (ts_settlement_kind s) now (ts_completed_at s) s) in
  stop_if negb updated with invalid_state "transition checkpoint compare-and-set" else t_ret tt.

Definition saga_identity (s : TransitionSaga) : VersionResidencyIdentity :=
  {| vri_version_row_id := ss_target_version_row_id (ts_snapshot s);
     vri_object_id := ss_target_object_id (ts_snapshot s); vri_cid := ss_source_cid (ts_snapshot s) |}.

(** ** Validation *)

Definition required (value : option string) (field : string) : AppResult string :=
  ok_or (InvalidArgument ("transition action has no " +:+ field +:+ " identity"))
    (v ← value; if str_is_empty v then None else Some v).

Definition validate_transition_action (a : ActionColumns) : AppResult unit :=
  bail_if negb (bool_decide (ac_action_kind a ∈ ["transition_current"; "transition_noncurrent"]))
          || negb (String.eqb (ac_target_type a) "version")
          || is_none_or str_is_empty (ac_target_version_row_id a)
          || is_none_or str_is_empty (ac_target_public_version_id a)
          || is_none_or str_is_empty (ac_target_object_id a) || is_none (ac_target_sequence a)
  with InvalidArgument "lifecycle action is not a content-version transition" else Ok tt.

Definition validate_candidate_snapshot (a : ActionColumns) (c : VersionLifecycleCandidate) : AppResult unit :=
  let role_matches :=
    if String.eqb (ac_action_kind a) "transition_current" then is_latest c
    else if String.eqb (ac_action_kind a) "transition_noncurrent" then negb (is_latest c) else false in
  bail_if negb role_matches || negb (String.eqb (vt_bucket (target c)) (ac_bucket a))
          || negb (String.eqb (vt_key (target c)) (ac_object_key a))
          || negb (bool_decide (Some (vt_version_row_id (target c)) = ac_target_version_row_id a))
          || negb (bool_decide (Some (as_s3_str (vt_public_version_id (target c))) = ac_target_public_version_id a))
          || negb (bool_decide (vt_object_id (target c) = ac_target_object_id a))
          || negb (bool_decide (Some (vt_sequence (target c)) = ac_target_sequence a))
          || negb (bool_decide (primary_storage_class c = Some Standard))
  with invalid_state "shared revalidation candidate snapshot" else Ok tt.

Definition claim_bucket (claim : ClaimedLifecycleAction) : string := ac_bucket (la_columns (cl_action claim)).
Definition claim_key (claim : ClaimedLifecycleAction) : string := ac_object_key (la_columns (cl_action claim)).
(** [format!("lifecycle:{}:{}", claim.action.id, claim.claim_epoch)] *)
Definition claim_token (claim : ClaimedLifecycleAction) : string := lifecycle_token (cl_id claim) (cl_claim_epoch claim).

Definition validate_guard_target (claim : ClaimedLifecycleAction) (guard : StandardMutationGuard) : AppResult unit :=
  bail_if negb (String.eqb (mg_bucket guard) (claim_bucket claim)) || negb (String.eqb (mg_key guard) (claim_key claim))
          || (mg_expected_generation guard <=? 0) with StaleContentMutation else Ok tt.

Definition validate_guard_binding (claim : ClaimedLifecycleAction) (guard : StandardMutationGuard) : AppResult unit :=
  let? _ := validate_guard_target claim guard in
  bail_if is_some (mg_mutation_prefix guard) || negb (String.eqb (mg_mutation_id guard) (claim_token claim))
  with StaleContentMutation else Ok tt.

Definition validate_node_pair (source destination : string) : AppResult unit :=
  bail_if str_is_empty source || str_is_empty destination || String.eqb source destination
  with InvalidArgument "transition requires distinct source and destination nodes" else Ok tt.

Definition validate_tier_receipt (s : TransitionSaga) (receipt : TierCopyReceipt) : AppResult unit :=
  bail_if negb (String.eqb (tc_cid receipt) (ss_destination_cid (ts_snapshot s)))
          || negb (String.eqb (tc_node_identity receipt) (ss_expected_destination_node_identity (ts_snapshot s)))
  with invalid_state "tier copy receipt binding" else Ok tt.

(** [action_id] is the action of the saga. *)
Definition durable_verification (action_id : string) (s : TransitionSaga) (claim : ClaimedLifecycleAction)
    (receipt : TierCopyReceipt) : DurableVerificationReceipt :=
  {| dv_version := 1; dv_saga_id := ts_id s; dv_action_id := action_id; dv_claim_epoch := cl_claim_epoch claim;
     dv_source_residency_revision := ss_source_residency_revision (ts_snapshot s);
     dv_source_node_identity := ss_expected_source_node_identity (ts_snapshot s);
     dv_destination_node_identity := ss_expected_destination_node_identity (ts_snapshot s);
     dv_cid := ss_destination_cid (ts_snapshot s); dv_tier_receipt := receipt |}.

Record PreparedLifecycleTransition : Type := {
  pl_source_residency_revision : Z;
  pl_expected_source_node_identity : string;
  pl_expected_destination_node_identity : string;
  pl_ownership_generation : Z
}.

Definition validate_prepared (p : PreparedLifecycleTransition) : AppResult unit :=
  bail_if (pl_source_residency_revision p <=? 0) || (pl_ownership_generation p <=? 0)
          || str_is_empty (pl_expected_source_node_identity p) || str_is_empty (pl_expected_destination_node_identity p)
          || String.eqb (pl_expected_source_node_identity p) (pl_expected_destination_node_identity p)
  with InvalidArgument "invalid prepared lifecycle transition" else Ok tt.

Definition validate_replayed_snapshot (stored : TransitionSaga) (p : PreparedLifecycleTransition) : AppResult unit :=
  let n := ts_snapshot stored in
  bail_if negb (ss_source_residency_revision n =? pl_source_residency_revision p)
          || negb (String.eqb (ss_expected_source_node_identity n) (pl_expected_source_node_identity p))
          || negb (String.eqb (ss_expected_destination_node_identity n) (pl_expected_destination_node_identity p))
  with Internal "transition action already has a different immutable saga snapshot" else Ok tt.

Section receipts.
Context `{TransitionCodec}.

Definition validate_current_verification (action_id : string) (s : TransitionSaga) (claim : ClaimedLifecycleAction)
    (receipt : TierCopyReceipt) : AppResult unit :=
  let? _ := validate_tier_receipt s receipt in
  let? text := ok_or (invalid_state "verification receipt missing") (ts_verification_receipt s) in
  let? stored := ok_or (invalid_state "verification receipt encoding") (verification_from_json text) in
  bail_if negb (bool_decide (stored = durable_verification action_id s claim receipt))
  with invalid_state "verification receipt epoch or saga binding" else Ok tt.

Definition validate_publication_receipt (action_id : string) (s : TransitionSaga) (claim : ClaimedLifecycleAction)
  : AppResult unit :=
  let n := ts_snapshot s in
  let? text := ok_or (invalid_state "publication receipt missing") (ts_publication_receipt s) in
  let? stored := ok_or (invalid_state "publication receipt encoding") (publication_from_json text) in
  let? expected_revision := ok_or (invalid_state "publication receipt revision")
                              (i64_checked_add (ss_source_residency_revision n) 1) in
  bail_if negb (tp_version stored =? 1) || negb (String.eqb (tp_saga_id stored) (ts_id s))
          || negb (String.eqb (tp_action_id stored) action_id) || (tp_claim_epoch stored <=? 0)
          || (cl_claim_epoch claim <? tp_claim_epoch stored)
          || negb (tp_source_residency_revision stored =? ss_source_residency_revision n)
          || negb (tp_published_residency_revision stored =? expected_revision)
          || negb (String.eqb (tp_destination_node_identity stored) (ss_expected_destination_node_identity n))
          || negb (String.eqb (tp_cid stored) (ss_destination_cid n))
  with invalid_state "publication receipt binding" else Ok tt.
End receipts.

(** ** Locks and copies *)

(** The checks of the frontier; [leases] is the outcome of locking the active leases of the object. *)
Definition lock_transition_frontier (bucket key version_row_id object_id : string) (expected_cid : option string)
    (allow_deleted_target : bool) (leases : AppResult unit) : WTx unit :=
  stop_if str_is_empty bucket || str_is_empty key || str_is_empty version_row_id || str_is_empty object_id
  with invalid_state "transition frontier identity" else
  let* version := t_reads (fun db => find_version version_row_id (wd_objects db)) in
  stop_if is_some_and (fun v => negb (String.eqb (v_bucket v) bucket) || negb (String.eqb (v_key v) key)
            || negb (String.eqb (v_kind v) "object") || negb (bool_decide (v_object_id v = Some object_id))) version
  with invalid_state "transition frontier version binding" else
  let* owner := t_reads (fun db => find_object object_id (wd_objects db)) in
  stop_if is_some_and (fun o => negb (String.eqb (o_bucket o) bucket) || negb (String.eqb (o_key o) key)
            || is_some_and (fun cid => negb (String.eqb (o_cid o) cid)) expected_cid) owner
  with invalid_state "transition frontier object binding" else
  stop_if negb allow_deleted_target && (is_none version || is_none owner)
  with invalid_state "transition frontier target missing" else
  let* _ := t_lift leases in
  let* cid := match expected_cid with
              | Some cid => stop_if str_is_empty cid with invalid_state "transition frontier CID" else t_ret (Some cid)
              | None => t_reads (fun db => r_cid <$> find_residency version_row_id (wd_objects db))
              end in
  if allow_deleted_target then t_ret tt
  else
    let* residency := t_reads (fun db => find_residency version_row_id (wd_objects db)) in
    let* residency := t_some (invalid_state "transition frontier residency missing") residency in
    stop_if negb (String.eqb (r_object_id residency) object_id) || negb (bool_decide (cid = Some (r_cid residency)))
            || is_none_or (fun o => negb (String.eqb (o_cid o) (r_cid residency))) owner
    with invalid_state "transition frontier residency binding" else
    t_ret tt.

Definition lock_transition_frontier_for_saga (s : TransitionSaga) (allow_deleted_target : bool)
    (leases : AppResult unit) : WTx unit :=
  let n := ts_snapshot s in
  lock_transition_frontier (ss_bucket n) (ss_object_key n) (ss_target_version_row_id n) (ss_target_object_id n)
    (Some (ss_source_cid n)) allow_deleted_target leases.

(** The frontier of an action that may have a saga *)
Definition lock_settlement_frontier (a : ActionColumns) (stored : option TransitionSaga) (leases : AppResult unit)
  : WTx unit :=
  match stored with
  | Some s => lock_transition_frontier_for_saga s true leases
  | None => lock_transition_frontier (ac_bucket a) (ac_object_key a) (default EmptyString (ac_target_version_row_id a))
              (default EmptyString (ac_target_object_id a)) None true leases
  end.

Definition hot_standard (object_id : string) (r : ResidencyRow) : bool :=
  String.eqb (r_object_id r) object_id && String.eqb (r_primary_tier r) "hot" && String.eqb (r_storage_class r) "STANDARD".

(** A verified copy on the given node *)
Definition verified_on (node : string) (p : PhysicalRow) : bool :=
  String.eqb (p_verification_state p) "verified" && bool_decide (p_node_identity p = Some node)
  && negb (is_none_or str_is_empty (p_verification_receipt p)) && is_some (p_verified_at p).

Definition load_verified_source (c : VersionLifecycleCandidate) (expected_node : string) : WTx ResidencyRow :=
  let* residency := t_reads (fun db => find_residency (vt_version_row_id (target c)) (wd_objects db)) in
  let* residency := t_some (invalid_state "transition source residency missing") residency in
  stop_if negb (hot_standard (default EmptyString (vt_object_id (target c))) residency) || (r_revision residency <=? 0)
  with invalid_state "transition source residency is not STANDARD" else
  let* physical := t_reads (fun db => find_physical "hot" (r_cid residency) (wd_objects db)) in
  let* physical := t_some (invalid_state "transition source physical residency missing") physical in
  stop_if negb (verified_on expected_node physical) with invalid_state "transition source node verification" else
  t_ret residency.

Definition validate_prepared_source (a : ActionColumns) (p : PreparedLifecycleTransition) : WTx unit :=
  let* version_id := t_lift (required (ac_target_version_row_id a) "target version") in
  let* object_id := t_lift (required (ac_target_object_id a) "target object") in
  let* source := t_reads (fun db => find_residency version_id (wd_objects db)) in
  let* source := t_some (invalid_state "transition source residency missing") source in
  stop_if negb (hot_standard object_id source) || negb (r_revision source =? pl_source_residency_revision p)
  with invalid_state "transition source residency revision" else
  let* physical := t_reads (fun db => find_physical "hot" (r_cid source) (wd_objects db)) in
  let* physical := t_some (invalid_state "transition source physical residency missing") physical in
  stop_if negb (verified_on (pl_expected_source_node_identity p) physical)
  with invalid_state "transition source node verification" else
  t_ret tt.

Definition validate_source_snapshot (s : TransitionSaga) (c : VersionLifecycleCandidate) : WTx unit :=
  let n := ts_snapshot s in
  let* source := load_verified_source c (ss_expected_source_node_identity n) in
  stop_if negb (r_revision source =? ss_source_residency_revision n) || negb (String.eqb (r_cid source) (ss_source_cid n))
          || negb (String.eqb (r_object_id source) (ss_target_object_id n))
  with invalid_state "immutable source residency snapshot" else
  t_ret tt.

Definition ensure_cold_pending (s : TransitionSaga) (now : Z) : WTx unit :=
  let cid := ss_destination_cid (ts_snapshot s) in
  let* _ := on_objects (insert_physical_or_nothing
    {| p_tier := "cold"; p_cid := cid; p_node_identity := None; p_verification_state := "pending";
       p_verification_receipt := None; p_verified_at := None; p_created_at := now; p_updated_at := now |}) in
  let* existing := t_reads (fun db => find_physical "cold" cid (wd_objects db)) in
  let* existing := t_some (invalid_state "cold copy staging attach") existing in
  stop_if String.eqb (p_verification_state existing) "verified"
          && negb (bool_decide (p_node_identity existing = Some (ss_expected_destination_node_identity (ts_snapshot s))))
  with invalid_state "cold node identity conflict" else
  t_ret tt.

(** [tier = 'cold' AND cid = ? AND verification_state IN ('pending', 'failed')] *)
Definition unverified_cold (cid : string) (p : PhysicalRow) : Prop :=
  p_tier p = "cold" /\ p_cid p = cid /\ (p_verification_state p ∈ ["pending"; "failed"]).
#[export] Instance unverified_cold_dec cid p : Decision (unverified_cold cid p).
Proof. unfold unverified_cold. apply _. Defined.

(** [c1] is the clock of the staging row, [now] that of the verification. *)
Definition apply_cold_verification (s : TransitionSaga) (receipt : TierCopyReceipt) (receipt_json : string) (c1 now : Z)
  : WTx unit :=
  let cid := ss_destination_cid (ts_snapshot s) in
  let* _ := ensure_cold_pending s c1 in
  let* updated := on_objects (update_physicals (unverified_cold cid)
                    (set_verified (tc_node_identity receipt) receipt_json now)) in
  if updated =? 1 then t_ret tt
  else
    let* existing := t_reads (fun db => find_physical "cold" cid (wd_objects db)) in
    let* existing := t_some (invalid_state "cold verification residency missing") existing in
    stop_if negb (String.eqb (p_verification_state existing) "verified"
                  && bool_decide (p_node_identity existing = Some (tc_node_identity receipt))
                  && bool_decide (p_verification_receipt existing = Some receipt_json) && is_some (p_verified_at existing))
    with invalid_state "conflicting cold verification receipt" else
    t_ret tt.

(** [owner_kind = 'transition' AND owner_id = ?] *)
Definition held_by (saga_id : string) (r : ReferenceRow) : Prop :=
  ref_owner_kind r = OWNER_TRANSITION /\ ref_owner_id r = saga_id.
#[export] Instance held_by_dec id r : Decision (held_by id r).
Proof. unfold held_by. apply _. Defined.

Definition release_all_transition_holds (s : TransitionSaga) : WTx unit :=
  let* _ := on_objects (delete_references (held_by (ts_id s))) in t_ret tt.

(** ** Mutation tickets *)

(** Tickets count microseconds. *)
Definition us (now : Z) : Z := now / 1000.

(** [c] holds the clocks of the ticket's verification and completion. *)
Definition clear_owned_guard_for_action (claim : ClaimedLifecycleAction) (guard : StandardMutationGuard) (now : Z)
    (c : nat -> Z) : WTx unit :=
  let* _ :=
    if String.eqb (mg_mutation_id guard) (claim_token claim) then fun db =>
      match on_tickets (verify_standard_mutation_guard guard (claim_bucket claim) (claim_key claim) [] (us (c 0%nat))) db with
      | Ok (_, db) => on_tickets (complete_standard_mutation_in_transaction guard (us now) (us (c 1%nat)) (us (c 2%nat))) db
      | Err StaleContentMutation => Ok (tt, db)
      | Err e => Err e
      end
    else t_ret tt in
  let* _ := on_tickets (clear_lifecycle_mutation_if_owned (claim_bucket claim) (claim_key claim) (cl_id claim)
                          (cl_claim_epoch claim) (us now)) in
  t_ret tt.

Definition clear_owned_guard (claim : ClaimedLifecycleAction) (s : TransitionSaga) (guard : StandardMutationGuard)
    (now : Z) (c : nat -> Z) : WTx unit :=
  if String.eqb (mg_bucket guard) (ss_bucket (ts_snapshot s)) && String.eqb (mg_key guard) (ss_object_key (ts_snapshot s))
  then clear_owned_guard_for_action claim guard now c else t_ret tt.

(** The ticket of the claim, as the destination row has it now *)
Definition current_lifecycle_mutation_guard_in_transaction (claim : ClaimedLifecycleAction) (c : Z)
  : WTx (option StandardMutationGuard) :=
  let* destination := t_reads (fun db => im_dests (tickets db) !! (claim_bucket claim, claim_key claim)) in
  match destination with
  | None => t_ret None
  | Some d =>
    if (de_generation d <=? 0) || is_some (de_owner_job_id d)
       || negb (bool_decide (de_mutation_id d = Some (claim_token claim))) || is_some (de_mutation_prefix d)
    then t_ret None
    else
      let guard := {| mg_bucket := claim_bucket claim; mg_key := claim_key claim; mg_mutation_id := claim_token claim;
                      mg_expected_generation := de_generation d; mg_mutation_prefix := None |} in
      fun db =>
        match on_tickets (verify_standard_mutation_guard guard (claim_bucket claim) (claim_key claim) [] (us c)) db with
        | Ok (_, db) =>
          (let* overlap := on_tickets (has_overlapping_standard_prefix_mutation (claim_bucket claim) (claim_key claim)) in
           t_ret (if overlap then None else Some guard)) db
        | Err StaleContentMutation => Ok (None, db)
        | Err e => Err e
        end
  end.

(** ** The transactions of a saga *)

Inductive TransitionPrepareResult : Type :=
| Prepared (saga : TransitionSaga)
| PrepareStale
| PrepareDependencyWaiting.

Inductive TransitionPublishResult : Type :=
| Published (saga : TransitionSaga)
| AlreadyPublished (saga : TransitionSaga)
| PublishStale
| PublishDependencyWaiting.

Definition prepared_saga (saga_id : string) (a : ActionColumns) (version_id public_id object_id : string) (sequence : Z)
    (cid : string) (p : PreparedLifecycleTransition) (now : Z) : TransitionSaga :=
  {| ts_id := saga_id;
     ts_snapshot :=
       {| ss_action_kind := ac_action_kind a; ss_bucket := ac_bucket a; ss_object_key := ac_object_key a;
          ss_config_revision := ac_config_revision a; ss_rule_id := ac_rule_id a;
          ss_target_version_row_id := version_id; ss_target_public_version_id := public_id;
          ss_target_object_id := object_id; ss_target_sequence := sequence; ss_source_tier := "hot";
          ss_destination_tier := "cold"; ss_source_cid := cid; ss_destination_cid := cid;
          ss_source_residency_revision := pl_source_residency_revision p;
          ss_expected_source_node_identity := pl_expected_source_node_identity p;
          ss_expected_destination_node_identity := pl_expected_destination_node_identity p;
          ss_ownership_generation := pl_ownership_generation p |};
     ts_checkpoint := "prepare"; ts_verification_receipt := None; ts_publication_receipt := None;
     ts_settlement_kind := None; ts_created_at := now; ts_updated_at := now; ts_completed_at := None |}.

(** [saga_id] is the fresh identifier. *)
Definition insert_prepared_after_claim (saga_id : string) (a : ActionColumns) (claim : ClaimedLifecycleAction)
    (p : PreparedLifecycleTransition) (now : Z) : WTx TransitionSaga :=
  let* _ := t_lift (validate_prepared p) in
  let* version_id := t_lift (required (ac_target_version_row_id a) "target version") in
  let* public_id := t_lift (required (ac_target_public_version_id a) "public version") in
  let* object_id := t_lift (required (ac_target_object_id a) "target object") in
  let* sequence := t_some (InvalidArgument "transition action has no target sequence") (ac_target_sequence a) in
  let* residency := t_reads (fun db => find_residency version_id (wd_objects db)) in
  let* residency := t_some (invalid_state "transition source residency missing") residency in
  stop_if negb (hot_standard object_id residency) || negb (r_revision residency =? pl_source_residency_revision p)
  with invalid_state "transition source residency snapshot" else
  let* present := t_reads (fun db => is_some (sagas db !! cl_id claim)) in
  let* _ := if present : bool then t_ret tt
            else s_exec <[cl_id claim := prepared_saga saga_id a version_id public_id object_id sequence (r_cid residency) p now]> in
  let* stored := lock_saga_for_action claim in
  let* _ := t_lift (validate_replayed_snapshot stored p) in
  t_ret stored.

Section sagas.
Context `{Chrono} `{Uuid} `{TransitionCodec}.

(** The claim is locked again after the locks of the frontier: [k] runs while it still holds. *)
Definition while_claimed {A} (claim : ClaimedLifecycleAction) (now : Z) (stale : A) (k : LifecycleAction -> WTx A) : WTx A :=
  let* locked := on_lifecycle (lock_claim_for_execution claim now) in
  match locked with Some a => k a | None => t_ret stale end.

Definition prepare (claim : ClaimedLifecycleAction) (guard : StandardMutationGuard) (source_node destination_node : string)
    (saga_id : string) (leases : AppResult unit) (c : nat -> Z) : WTx TransitionPrepareResult :=
  while_claimed claim (c 0%nat) PrepareStale (fun a =>
  let* _ := t_lift (validate_transition_action (la_columns a)) in
  let* _ := t_lift (validate_guard_target claim guard) in
  let* _ := t_lift (validate_node_pair source_node destination_node) in
  let* existing := lock_optional_saga_for_action claim in
  match s ← existing; if in_checkpoint ["publish"; "cleanup"] s && is_some (ts_publication_receipt s) then Some s else None with
  | Some s => t_ret (Prepared s)
  | None =>
    let* _ := t_lift (validate_guard_binding claim guard) in
    let* _ := on_tickets (lock_bucket_for_ownership (ac_bucket (la_columns a))) in
    while_claimed claim (c 1%nat) PrepareStale (fun a =>
    let columns := la_columns a in
    let* _ := on_tickets (verify_standard_mutation_guard guard (ac_bucket columns) (ac_object_key columns) [] (us (c 2%nat))) in
    let* revalidated := revalidate_transition configuration_from_json claim (c 3%nat) (c 4%nat) in
    match revalidated with
    | None => t_ret PrepareStale
    | Some candidate =>
      let* _ := t_lift (validate_candidate_snapshot columns candidate) in
      if negb (hot_residency_verified candidate) then t_ret PrepareDependencyWaiting
      else
        let* _ := lock_transition_frontier (ac_bucket columns) (ac_object_key columns) (vt_version_row_id (target candidate))
                    (default EmptyString (vt_object_id (target candidate)))
                    ((fun s => ss_source_cid (ts_snapshot s)) <$> existing) false leases in
        while_claimed claim (c 5%nat) PrepareStale (fun _ =>
        let* source := load_verified_source candidate source_node in
        let* saga := insert_prepared_after_claim saga_id columns claim
          {| pl_source_residency_revision := r_revision source; pl_expected_source_node_identity := source_node;
             pl_expected_destination_node_identity := destination_node;
             pl_ownership_generation := mg_expected_generation guard |} (c 6%nat) in
        let* _ := on_objects (attach_transition_hold_in_transaction (ts_id saga) TransitionStaging (saga_identity saga)
                    {| loc_tier := Hot; loc_cid := ss_source_cid (ts_snapshot saga) |} (c 7%nat)) in
        t_ret (Prepared saga))
    end)
  end).

Definition insert_prepared_in_transaction (claim : ClaimedLifecycleAction) (p : PreparedLifecycleTransition)
    (saga_id : string) (leases : AppResult unit) (c : nat -> Z) : WTx (option TransitionSaga) :=
  let* _ := t_lift (validate_prepared p) in
  while_claimed claim (c 0%nat) None (fun a =>
  let columns := la_columns a in
  let* _ := t_lift (validate_transition_action columns) in
  let* existing := lock_optional_saga_for_action claim in
  let* _ := on_tickets (lock_bucket_for_ownership (ac_bucket columns)) in
  let* _ := lock_transition_frontier (ac_bucket columns) (ac_object_key columns)
              (default EmptyString (ac_target_version_row_id columns)) (default EmptyString (ac_target_object_id columns))
              ((fun s => ss_source_cid (ts_snapshot s)) <$> existing) false leases in
  while_claimed claim (c 1%nat) None (fun _ =>
  let* _ := validate_prepared_source columns p in
  let* saga := insert_prepared_after_claim saga_id columns claim p (c 2%nat) in
  t_ret (Some saga))).

Definition record_copy (claim : ClaimedLifecycleAction) (saga : string * TransitionSaga) (leases : AppResult unit)
    (c : nat -> Z) : WTx (option TransitionSaga) :=
  while_claimed claim (c 0%nat) None (fun _ =>
  let* stored := lock_saga claim saga in
  stop_if negb (in_checkpoint ["prepare"; "copy"; "verify"] stored) || negb (unsettled stored)
  with invalid_state "copy checkpoint" else
  let* _ := on_tickets (lock_bucket_for_ownership (ss_bucket (ts_snapshot stored))) in
  let* guard := current_lifecycle_mutation_guard_in_transaction claim (c 1%nat) in
  match guard with
  | None => t_ret None
  | Some _ =>
    let* _ := lock_transition_frontier_for_saga stored false leases in
    while_claimed claim (c 2%nat) None (fun _ =>
    if in_checkpoint ["copy"; "verify"] stored then t_ret (Some stored)
    else
      let* _ := ensure_cold_pending stored (c 3%nat) in
      let* _ := on_objects (attach_transition_hold_in_transaction (ts_id stored) TransitionStaging (saga_identity stored)
                  {| loc_tier := Cold; loc_cid := ss_destination_cid (ts_snapshot stored) |} (c 4%nat)) in
      let* _ := update_checkpoint (ts_id stored) "prepare" "copy" None None (c 5%nat) in
      let* saga := reload_saga (ts_id stored) in
      t_ret (Some saga))
  end).

Definition record_verified (claim : ClaimedLifecycleAction) (saga : string * TransitionSaga) (receipt : TierCopyReceipt)
    (leases : AppResult unit) (c : nat -> Z) : WTx (option TransitionSaga) :=
  while_claimed claim (c 0%nat) None (fun _ =>
  let* stored := lock_saga claim saga in
  stop_if negb (in_checkpoint ["copy"; "verify"] stored) || negb (unsettled stored)
  with invalid_state "verification checkpoint" else
  let* _ := on_tickets (lock_bucket_for_ownership (ss_bucket (ts_snapshot stored))) in
  let* guard := current_lifecycle_mutation_guard_in_transaction claim (c 1%nat) in
  match guard with
  | None => t_ret None
  | Some _ =>
    let* _ := lock_transition_frontier_for_saga stored false leases in
    while_claimed claim (c 2%nat) None (fun _ =>
    let* _ := t_lift (validate_tier_receipt stored receipt) in
    let* durable_json := t_lift (serialize_receipt (verification_json (durable_verification (cl_id claim) stored claim receipt))) in
    let* tier_json := t_lift (serialize_receipt (tier_receipt_json receipt)) in
    let* _ := apply_cold_verification stored receipt tier_json (c 3%nat) (c 4%nat) in
    let* updated := update_saga (ts_id stored)
      (fun action s => String.eqb action (cl_id claim) && in_checkpoint ["copy"; "verify"] s
                       && is_none (ts_publication_receipt s) && unsettled s)
      (fun s => with_checkpoint "verify" (Some durable_json) (ts_publication_receipt s) (ts_settlement_kind s) (c 5%nat)
                  (ts_completed_at s) s) in
    stop_if negb updated with invalid_state "verification compare-and-set" else
    let* saga := reload_saga (ts_id stored) in
    t_ret (Some saga))
  end).

(** The primary copy of the version moves: the row that is to change, and the new one *)
Definition source_residency (s : TransitionSaga) (r : ResidencyRow) : Prop :=
  r_version_row_id r = ss_target_version_row_id (ts_snapshot s) /\ r_object_id r = ss_target_object_id (ts_snapshot s)
  /\ r_cid r = ss_source_cid (ts_snapshot s) /\ r_primary_tier r = "hot" /\ r_storage_class r = "STANDARD"
  /\ r_revision r = ss_source_residency_revision (ts_snapshot s).
#[export] Instance source_residency_dec s r : Decision (source_residency s r).
Proof. unfold source_residency. apply _. Defined.

Definition moved_cold (revision now : Z) (r : ResidencyRow) : ResidencyRow :=
  {| r_version_row_id := r_version_row_id r; r_object_id := r_object_id r; r_primary_tier := "cold";
     r_storage_class := "STANDARD_IA"; r_cid := r_cid r; r_revision := revision; r_created_at := r_created_at r;
     r_updated_at := now |}.

(** The reference by which the version keeps its copy of the given tier *)
Definition retained_row (s : TransitionSaga) (tier : string) (now : Z) : ReferenceRow :=
  let n := ts_snapshot s in
  {| ref_owner_kind := OWNER_VERSION; ref_owner_id := ss_target_version_row_id n; ref_reason := "retained_version";
     ref_version_row_id := ss_target_version_row_id n; ref_object_id := ss_target_object_id n; ref_tier := tier;
     ref_cid := ss_source_cid n; ref_created_at := now |}.
Definition retained_hot (s : TransitionSaga) (r : ReferenceRow) : Prop :=
  let n := ts_snapshot s in
  ref_owner_kind r = OWNER_VERSION /\ ref_owner_id r = ss_target_version_row_id n /\ ref_reason r = "retained_version"
  /\ ref_version_row_id r = ss_target_version_row_id n /\ ref_object_id r = ss_target_object_id n
  /\ ref_tier r = "hot" /\ ref_cid r = ss_source_cid n.
#[export] Instance retained_hot_dec s r : Decision (retained_hot s r).
Proof. unfold retained_hot. cbv zeta. apply _. Defined.

Definition published_receipt (claim : ClaimedLifecycleAction) (s : TransitionSaga) (revision now : Z)
  : TransitionPublicationReceipt :=
  {| tp_version := 1; tp_saga_id := ts_id s; tp_action_id := cl_id claim; tp_claim_epoch := cl_claim_epoch claim;
     tp_source_residency_revision := ss_source_residency_revision (ts_snapshot s);
     tp_published_residency_revision := revision;
     tp_destination_node_identity := ss_expected_destination_node_identity (ts_snapshot s);
     tp_cid := ss_destination_cid (ts_snapshot s); tp_published_at := now |}.

Definition publish_residency (claim : ClaimedLifecycleAction) (s : TransitionSaga) (receipt : TierCopyReceipt) (now c1 : Z)
  : WTx TransitionSaga :=
  let n := ts_snapshot s in
  let hot := {| loc_tier := Hot; loc_cid := ss_source_cid n |} in
  let cold := {| loc_tier := Cold; loc_cid := ss_destination_cid n |} in
  let* cold_row := t_reads (fun db => find_physical "cold" (ss_destination_cid n) (wd_objects db)) in
  let* cold_row := t_some (invalid_state "verified cold residency missing") cold_row in
  let* tier_json := t_lift (serialize_receipt (tier_receipt_json receipt)) in
  stop_if negb (String.eqb (p_verification_state cold_row) "verified")
          || negb (bool_decide (p_node_identity cold_row = Some (ss_expected_destination_node_identity n)))
          || negb (bool_decide (p_verification_receipt cold_row = Some tier_json)) || is_none (p_verified_at cold_row)
  with invalid_state "cold verification binding" else
  let* current := t_reads (fun db => find_residency (ss_target_version_row_id n) (wd_objects db)) in
  let* current := t_some (invalid_state "source residency disappeared") current in
  stop_if negb (String.eqb (r_object_id current) (ss_target_object_id n)) || negb (String.eqb (r_cid current) (ss_source_cid n))
          || negb (String.eqb (r_primary_tier current) "hot") || negb (String.eqb (r_storage_class current) "STANDARD")
          || negb (r_revision current =? ss_source_residency_revision n)
  with invalid_state "source residency publication fence" else
  let* published_revision := t_some (Internal "residency revision exhausted") (i64_checked_add (r_revision current) 1) in
  let* _ := on_objects (attach_transition_hold_in_transaction (ts_id s) TransitionCleanupHold (saga_identity s) hot c1) in
  let* _ := on_objects (insert_reference_or_nothing (retained_row s "cold" now)) in
  let* removed_hot := on_objects (delete_references (retained_hot s)) in
  stop_if negb (removed_hot =? 1) with invalid_state "hot retained reference publication fence" else
  let* moved := on_objects (update_residencies (source_residency s) (moved_cold published_revision now)) in
  stop_if negb (moved =? 1) with invalid_state "version residency publication compare-and-set" else
  let* released_hot := on_objects (release_transition_hold_in_transaction (ts_id s) TransitionStaging hot) in
  let* released_cold := on_objects (release_transition_hold_in_transaction (ts_id s) TransitionStaging cold) in
  stop_if negb released_hot || negb released_cold with invalid_state "publication staging references" else
  let* publication := t_lift (serialize_receipt (publication_json (published_receipt claim s published_revision now))) in
  let* updated := update_saga (ts_id s)
    (fun _ s => String.eqb (ts_checkpoint s) "verify" && is_some (ts_verification_receipt s)
                && is_none (ts_publication_receipt s) && unsettled s)
    (fun s => with_checkpoint "publish" (ts_verification_receipt s) (Some publication) (ts_settlement_kind s) now
                (ts_completed_at s) s) in
  stop_if negb updated with invalid_state "publication receipt compare-and-set" else
  reload_saga (ts_id s).

Definition publish (claim : ClaimedLifecycleAction) (guard : StandardMutationGuard) (receipt : TierCopyReceipt)
    (leases : AppResult unit) (c : nat -> Z) : WTx TransitionPublishResult :=
  while_claimed claim (c 0%nat) PublishStale (fun a =>
  let* _ := t_lift (validate_transition_action (la_columns a)) in
  let* _ := t_lift (validate_guard_binding claim guard) in
  let* saga := lock_saga_for_action claim in
  if in_checkpoint ["publish"; "cleanup"] saga && is_some (ts_publication_receipt saga) then t_ret (AlreadyPublished saga)
  else
    stop_if negb (String.eqb (ts_checkpoint saga) "verify") || negb (unsettled saga) with invalid_state "publish checkpoint" else
    let* _ := on_tickets (lock_bucket_for_ownership (ac_bucket (la_columns a))) in
    while_claimed claim (c 1%nat) PublishStale (fun a =>
    let columns := la_columns a in
    let* _ := on_tickets (verify_standard_mutation_guard guard (ac_bucket columns) (ac_object_key columns) [] (us (c 2%nat))) in
    let* revalidated := revalidate_transition configuration_from_json claim (c 3%nat) (c 4%nat) in
    match revalidated with
    | None => t_ret PublishStale
    | Some candidate =>
      let* _ := t_lift (validate_candidate_snapshot columns candidate) in
      if negb (hot_residency_verified candidate) then t_ret PublishDependencyWaiting
      else
        let* _ := lock_transition_frontier_for_saga saga false leases in
        while_claimed claim (c 5%nat) PublishStale (fun _ =>
        let* _ := validate_source_snapshot saga candidate in
        let* _ := t_lift (validate_current_verification (cl_id claim) saga claim receipt) in
        let* published := publish_residency claim saga receipt (c 6%nat) (c 7%nat) in
        t_ret (Published published))
    end)).

Definition cleanup (claim : ClaimedLifecycleAction) (guard : StandardMutationGuard) (saga : string * TransitionSaga)
    (leases : AppResult unit) (c : nat -> Z) : WTx bool :=
  while_claimed claim (c 0%nat) false (fun _ =>
  let* _ := t_lift (validate_guard_target claim guard) in
  let* stored := lock_saga claim saga in
  if String.eqb (ts_checkpoint stored) "cleanup" && bool_decide (ts_settlement_kind stored = Some "cleanup_complete")
  then t_ret true
  else
    stop_if negb (String.eqb (ts_checkpoint stored) "publish") || is_none (ts_publication_receipt stored)
    with invalid_state "cleanup checkpoint" else
    let* _ := t_lift (validate_publication_receipt (cl_id claim) stored claim) in
    let* _ := on_tickets (lock_bucket_for_ownership (ss_bucket (ts_snapshot stored))) in
    let* _ := lock_transition_frontier_for_saga stored true leases in
    while_claimed claim (c 1%nat) false (fun _ =>
    let* _ := release_all_transition_holds stored in
    let now := c 2%nat in
    let* updated := update_saga (ts_id stored)
      (fun _ s => String.eqb (ts_checkpoint s) "publish" && is_some (ts_publication_receipt s) && unsettled s)
      (fun s => with_checkpoint "cleanup" (ts_verification_receipt s) (ts_publication_receipt s) (Some "cleanup_complete") now
                  (Some now) s) in
    stop_if negb updated with invalid_state "cleanup settlement fence" else
    let* succeeded := on_lifecycle (mark_succeeded claim now) in
    stop_if negb succeeded with invalid_state "cleanup settlement fence" else
    let* _ := clear_owned_guard claim stored guard now (fun i => c (3 + i)%nat) in
    t_ret true)).

(** The saga's part of a cancellation *)
Definition cancel_saga (stored : option TransitionSaga) (now : Z) : WTx unit :=
  match stored with
  | None => t_ret tt
  | Some s =>
    let* updated := update_saga (ts_id s)
      (fun _ s => in_checkpoint ["prepare"; "copy"; "verify"] s && is_none (ts_publication_receipt s) && unsettled s)
      (fun s => with_checkpoint (ts_checkpoint s) (ts_verification_receipt s) (ts_publication_receipt s) (Some "cancelled") now
                  (Some now) s) in
    stop_if negb updated with invalid_state "cancellation settlement fence" else t_ret tt
  end.

Definition settle_unpublished (claim : ClaimedLifecycleAction) (guard : StandardMutationGuard)
    (saga : option (string * TransitionSaga)) (failure_class : string) (diagnostic : option string) (leases : AppResult unit)
    (c : nat -> Z) : WTx bool :=
  while_claimed claim (c 0%nat) false (fun a =>
  let* _ := t_lift (validate_guard_target claim guard) in
  let* stored := match saga with
                 | Some saga => let* s := lock_saga claim saga in t_ret (Some s)
                 | None => lock_optional_saga_for_action claim
                 end in
  let* _ := on_tickets (lock_bucket_for_ownership (ac_bucket (la_columns a))) in
  let* _ := lock_settlement_frontier (la_columns a) stored leases in
  while_claimed claim (c 1%nat) false (fun _ =>
  let* _ := match stored with
            | None => t_ret tt
            | Some s =>
              stop_if in_checkpoint ["publish"; "cleanup"] s || is_some (ts_publication_receipt s)
              with invalid_state "published transition cancellation" else
              release_all_transition_holds s
            end in
  let now := c 2%nat in
  let* _ := cancel_saga stored now in
  let* cancelled := on_lifecycle (mark_cancelled claim now failure_class) in
  stop_if negb cancelled with invalid_state "cancellation claim fence" else
  let* _ := match diagnostic with
            | None => t_ret tt
            | Some diagnostic =>
              let* updated := on_lifecycle (record_diagnostic claim diagnostic) in
              stop_if negb updated with invalid_state "exhaustion diagnostic fence" else t_ret tt
            end in
  let* _ := clear_owned_guard_for_action claim guard now (fun i => c (3 + i)%nat) in
  t_ret true)).

Definition TRANSITION_ATTEMPTS_EXHAUSTED : string := "transition_attempts_exhausted".

Definition settle_cancelled (claim : ClaimedLifecycleAction) (guard : StandardMutationGuard)
    (saga : option (string * TransitionSaga)) (leases : AppResult unit) (c : nat -> Z) : WTx bool :=
  settle_unpublished claim guard saga FAILURE_CANCELLED_STALE None leases c.

Definition settle_exhausted (claim : ClaimedLifecycleAction) (guard : StandardMutationGuard)
    (saga : option (string * TransitionSaga)) (stale : bool) (leases : AppResult unit) (c : nat -> Z) : WTx bool :=
  settle_unpublished claim guard saga (if stale then FAILURE_CANCELLED_STALE else FAILURE_INTERNAL_DEPENDENCY)
    (Some TRANSITION_ATTEMPTS_EXHAUSTED) leases c.

Definition settle_retry (claim : ClaimedLifecycleAction) (guard : StandardMutationGuard)
    (base_backoff_secs max_backoff_secs : Z) (failure_class : string) (leases : AppResult unit) (c : nat -> Z) : WTx bool :=
  while_claimed claim (c 0%nat) false (fun a =>
  let* _ := t_lift (validate_guard_target claim guard) in
  let* saga := lock_optional_saga_for_action claim in
  let* _ := on_tickets (lock_bucket_for_ownership (ac_bucket (la_columns a))) in
  let* _ := lock_settlement_frontier (la_columns a) saga leases in
  while_claimed claim (c 1%nat) false (fun _ =>
  let now := c 2%nat in
  let* next_attempt_at := t_lift (retry_at now (la_attempts a) base_backoff_secs max_backoff_secs) in
  let* scheduled := on_lifecycle (schedule_retry claim now next_attempt_at failure_class) in
  stop_if negb scheduled with invalid_state "retry claim fence" else
  let* _ := clear_owned_guard_for_action claim guard now (fun i => c (3 + i)%nat) in
  t_ret true)).
End sagas.

(** ** Removing settled sagas *)

(** The state of the action that a settled saga goes with *)
Definition expected_action_state (s : TransitionSaga) : option string :=
  if bool_decide (ts_settlement_kind s = Some "cancelled") then
    if is_some (ts_completed_at s) && in_checkpoint ["prepare"; "copy"; "verify"] s && is_none (ts_publication_receipt s)
    then Some STATE_CANCELLED else None
  else if bool_decide (ts_settlement_kind s = Some "cleanup_complete") then
    if is_some (ts_completed_at s) && in_checkpoint ["cleanup"] s
       && negb (is_none_or str_is_empty (ts_verification_receipt s)) && negb (is_none_or str_is_empty (ts_publication_receipt s))
    then Some STATE_SUCCEEDED else None
  else None.

(** [owner_kind = 'transition' AND owner_id IN (id, action_id)] *)
Definition held_by_either (saga_id action_id : string) (r : ReferenceRow) : Prop :=
  ref_owner_kind r = OWNER_TRANSITION /\ (ref_owner_id r ∈ [saga_id; action_id]).
#[export] Instance held_by_either_dec i j r : Decision (held_by_either i j r).
Proof. unfold held_by_either. apply _. Defined.

(** The trigger [ck_lifecycle_transitions_guarded_delete] of [src/store/migrations/baseline/guards.rs] *)
Definition guarded_delete (action_id : string) (s : TransitionSaga) (db : WorkerDb) : Prop :=
  ((ts_settlement_kind s = Some "cancelled" /\ (la_state <$> actions db !! action_id) = Some STATE_CANCELLED)
   \/ (ts_settlement_kind s = Some "cleanup_complete" /\ (la_state <$> actions db !! action_id) = Some STATE_SUCCEEDED))
  /\ Forall (fun r => ~ held_by_either (ts_id s) action_id r) (references (wd_objects db)).
#[export] Instance guarded_delete_dec i s db : Decision (guarded_delete i s db).
Proof. unfold guarded_delete. apply _. Defined.

Definition delete_settled_in_transaction (transition_id : string) : WTx bool :=
  stop_if str_is_empty transition_id with InvalidArgument "lifecycle transition identity is empty" else
  let* row := t_reads (find_saga transition_id) in
  match row with
  | None => t_ret false
  | Some (action_id, s) =>
    let* state := t_some (invalid_state "transition deletion settlement") (expected_action_state s) in
    let* action := t_reads (fun db => actions db !! action_id) in
    stop_if negb (is_some_and (fun a => String.eqb (la_state a) state && is_some (la_finished_at a)) action)
    with invalid_state "transition deletion terminal action" else
    let* holds := t_reads (fun db => matching (held_by_either (ts_id s) action_id) (references (wd_objects db))) in
    stop_if negb (holds =? 0) with invalid_state "transition deletion with residency holds" else
    let* guarded := t_reads (fun db => bool_decide (guarded_delete action_id s db)) in
    stop_if negb guarded with constraint_failed else
    let* _ := s_exec (delete action_id) in
    t_ret true
  end.

(** The part of [bucket::delete] that removes the sagas of the bucket ([src/store/bucket.rs]) *)
Definition delete_bucket_sagas (bucket : string) : WTx unit :=
  let* transitions := t_reads (fun db => filter (fun r : string * TransitionSaga => ss_bucket (ts_snapshot r.2) = bucket)
                                           (map_to_list (sagas db))) in
  stop_if existsb (fun r => is_none (ts_completed_at r.2)) transitions with BucketNotEmpty bucket else
  t_each (fun r => let* _ := delete_settled_in_transaction (ts_id r.2) in t_ret tt) transitions.
