(* ===== verification/TransitionRuns.v ===== *)
(** * What the transactions of a saga do

    The successful runs of the operations of [Transitions], as facts on the tables before and after:
    the reads leave everything as it is, each checkpoint changes its saga, the references it holds and
    the copies it names, and nothing else. *)

From Stdlib Require Import ZArith Lia Ascii.
From Stdlib Require String.
From stdpp Require Import base list strings pretty sorting gmap.
From S2P Require Import Prelude Errors Chrono VersionModel LifecycleModel LifecycleConfig LifecycleEval Database Transaction.
From S2P Require Import ObjectStore ResidencyStore VersionStore ImportDb Ownership LifecycleActions LifecycleQueue Revalidation.
From S2P Require Import Transitions.

#[local] Open Scope string_scope.
#[local] Open Scope list_scope.
#[local] Open Scope Z_scope.
#[local] Open Scope rust_scope.

(** ** Reads *)

(** A transaction that only reads *)
Abbreviation read_only m := (t_keeps eq m).

Lemma read_only_run {S A} (m : Txn S A) s a s' : read_only m -> m s = Ok (a, s') -> s' = s.
Proof. intros Hm E. symmetry. by eapply Hm. Qed.

(** [Tx] is a transaction on the object tables. *)
Lemma read_only_tx_bind {A B} (m : Tx A) (k : A -> Tx B) :
  read_only (m : Txn Db A) -> (forall a, read_only (k a : Txn Db B)) -> read_only (tx_bind m k : Txn Db B).
Proof. apply (keeps_bind eq). Qed.
Lemma read_only_reads {A} (f : Db -> A) : read_only (reads f : Txn Db A).
Proof. apply (keeps_reads eq). Qed.
Lemma read_only_tx_ret {A} (a : A) : read_only (tx_ret a : Txn Db A).
Proof. apply (keeps_ret eq). Qed.
Lemma read_only_lift {A} (r : AppResult A) : read_only (lift r : Txn Db A).
Proof. apply (keeps_lift eq). Qed.
Lemma read_only_tx_err {A} e : read_only (tx_err e : Txn Db A).
Proof. done. Qed.

Lemma read_only_on_objects {A} (m : Tx A) : read_only (m : Txn Db A) -> read_only (on_objects m).
Proof.
  intros Hm db a db' (o & E & ->)%on_objects_ok. apply (read_only_run (m : Txn Db A)) in E as ->; [|done].
  by destruct db.
Qed.
Lemma read_only_on_lifecycle {A} (m : LTx A) : read_only m -> read_only (on_lifecycle m).
Proof. intros Hm db a db' (l & ->%(read_only_run m) & ->)%on_lifecycle_ok; [|done]. by destruct db. Qed.
Lemma read_only_on_tickets {A} (m : ITx A) : read_only m -> read_only (on_tickets m).
Proof.
  intros Hm. apply read_only_on_lifecycle. intros db a db' (im & ->%(read_only_run m) & ->)%on_imports_ok; [|done].
  by destruct db.
Qed.

#[export] Hint Resolve read_only_reads read_only_tx_ret read_only_lift read_only_tx_err read_only_on_objects
  read_only_on_lifecycle read_only_on_tickets : keeps.

Ltac read_only_walk :=
  repeat first [progress intros | match goal with
    | |- t_keeps _ (t_bind _ _) => apply (keeps_bind eq)
    | |- t_keeps _ (tx_bind _ _) => apply read_only_tx_bind
    | |- t_keeps _ (if ?b then _ else _) => destruct b eqn:?
    | |- t_keeps _ (let '(_, _) := ?x in _) => destruct x eqn:?
    | |- t_keeps _ (match ?x with _ => _ end) => destruct x eqn:?
    | |- t_keeps _ _ => solve [eauto 4 with keeps typeclass_instances]
    end].

Lemma lock_bucket_read_only bucket : read_only (lock_bucket_for_ownership bucket).
Proof. unfold lock_bucket_for_ownership. read_only_walk. Qed.
Lemma lock_claim_read_only claim now : read_only (lock_claim_for_execution claim now).
Proof. intros db a db' [-> _]%lock_claim_ok. done. Qed.
Lemma verify_guard_read_only g b k es clk : read_only (verify_standard_mutation_guard g b k es clk).
Proof. unfold verify_standard_mutation_guard, find_destination_for_update, verify_mutation_lease. read_only_walk. Qed.
Lemma overlap_read_only b k : read_only (has_overlapping_standard_prefix_mutation b k).
Proof. unfold has_overlapping_standard_prefix_mutation. read_only_walk. Qed.
#[export] Hint Resolve lock_bucket_read_only lock_claim_read_only verify_guard_read_only overlap_read_only : keeps.

Section reads.
Context `{Uuid}.

Lemma bucket_get_read_only b : read_only (bucket_get b : Txn Db _).
Proof. unfold bucket_get. read_only_walk. Qed.
Lemma get_versioning_state_read_only b : read_only (get_versioning_state b : Txn Db _).
Proof. unfold get_versioning_state. read_only_walk. apply bucket_get_read_only. Qed.
Lemma resolve_read_only id : read_only (resolve_version_residency id : Txn Db _).
Proof. unfold resolve_version_residency. read_only_walk. Qed.
Lemma lock_and_validate_read_only i : read_only (lock_and_validate_version i : Txn Db _).
Proof. unfold lock_and_validate_version. read_only_walk. Qed.
#[local] Hint Resolve get_versioning_state_read_only resolve_read_only : keeps.

Lemma evaluation_facts_read_only row o : read_only (version_evaluation_facts row o : Txn Db _).
Proof. unfold version_evaluation_facts. read_only_walk. Qed.
Lemma locked_target_read_only t s : read_only (locked_target_object t s : Txn Db _).
Proof. unfold locked_target_object. read_only_walk. Qed.
#[local] Hint Resolve evaluation_facts_read_only locked_target_read_only : keeps.

Lemma revalidate_candidate_read_only t k : read_only (revalidate_candidate t k : Txn Db _).
Proof. unfold revalidate_candidate, lock_version_by_id. read_only_walk. Qed.
#[local] Hint Resolve revalidate_candidate_read_only : keeps.

Lemma revalidate_read_only `{Chrono} from_json claim c1 c2 : read_only (revalidate_transition from_json claim c1 c2).
Proof. unfold revalidate_transition, lock_lifecycle_configuration, list_object_tags. read_only_walk. Qed.
End reads.

Lemma frontier_read_only b k v o cid allow leases : read_only (lock_transition_frontier b k v o cid allow leases).
Proof. unfold lock_transition_frontier. read_only_walk. Qed.
Lemma load_verified_read_only c node : read_only (load_verified_source c node).
Proof. unfold load_verified_source. read_only_walk. Qed.
Lemma lock_saga_read_only claim s : read_only (lock_saga claim s).
Proof. unfold lock_saga. read_only_walk. Qed.
Lemma reload_read_only id : read_only (reload_saga id).
Proof. unfold reload_saga. read_only_walk. Qed.
#[export] Hint Resolve revalidate_read_only frontier_read_only load_verified_read_only lock_saga_read_only
  reload_read_only : keeps.

Lemma validate_source_read_only s c : read_only (validate_source_snapshot s c).
Proof. unfold validate_source_snapshot. read_only_walk. Qed.
Lemma settlement_frontier_read_only a s leases : read_only (lock_settlement_frontier a s leases).
Proof. unfold lock_settlement_frontier, lock_transition_frontier_for_saga. read_only_walk. Qed.

(** A statement whose stale outcome is caught *)
Lemma current_guard_read_only claim c : read_only (current_lifecycle_mutation_guard_in_transaction claim c).
Proof.
  unfold current_lifecycle_mutation_guard_in_transaction. apply (keeps_bind eq); [apply keeps_reads; apply _|].
  intros [d|]; [|apply keeps_ret; apply _]. destruct (_ || _); [apply keeps_ret; apply _|]. intros db a db' E.
  destruct (on_tickets _ db) as [[u d1]|e] eqn:Ev.
  - apply read_only_run in Ev as ->; [|eauto with keeps]. symmetry. revert E. apply read_only_run. read_only_walk.
  - destruct e; by simplify_eq.
Qed.
#[export] Hint Resolve validate_source_read_only settlement_frontier_read_only current_guard_read_only : keeps.

(** ** Inversion *)

Lemma while_claimed_ok {A} claim now (stale : A) k db r db' :
  while_claimed claim now stale k db = Ok (r, db') ->
  (r = stale /\ db' = db)
  \/ exists a, actions db !! cl_id claim = Some a /\ active_action_claim claim a = true /\ lease_after now a = true
     /\ k a db = Ok (r, db').
Proof.
  unfold while_claimed. intros (locked & s & (l & E & ->)%on_lifecycle_ok & Hk)%t_bind_ok.
  apply lock_claim_ok in E as [-> Hr].
  assert (set_lifecycle (wd_lifecycle db) db = db) as Hid by (by destruct db). rewrite Hid in Hk.
  destruct locked as [a|]; [right|left; by t_inv Hk]. destruct (Hr a eq_refl) as (? & ? & ?). by exists a.
Qed.

(** [w_inv H] is [t_inv H] that also drops the reads. *)
Ltac w_inv H :=
  lazymatch type of H with
  | t_bind _ _ _ = Ok _ =>
    let a := fresh "a" in let d := fresh "d" in let E := fresh "E" in
    apply t_bind_ok in H; destruct H as (a & d & E & H); w_inv E; w_inv H
  | (if _ then t_err _ else _) _ = Ok _ =>
    let G := fresh "G" in apply stop_ok in H; destruct H as [G H]; w_inv H
  | t_reads _ _ = Ok _ => t_inv H
  | t_ret _ _ = Ok _ => t_inv H
  | t_lift _ _ = Ok _ => t_inv H
  | t_some _ _ _ = Ok _ => t_inv H
  | t_exec _ _ _ = Ok _ => t_inv H
  | t_err _ _ = Ok _ => discriminate H
  | ?m ?s = Ok (?v, ?s') =>
    try (let R := fresh "R" in
         assert (R : s' = s) by (apply (read_only_run m s v s'); [solve [eauto 4 with keeps typeclass_instances]|exact H]);
         first [subst s' | clear R])
  | _ => idtac
  end.

(** ** Statements *)

Lemma find_saga_some id db action s :
  find_saga id db = Some (action, s) -> sagas db !! action = Some s /\ ts_id s = id.
Proof.
  unfold find_saga. intros Hh%head_Some_elem_of. apply list_elem_of_filter in Hh as [Hid Hin].
  by apply elem_of_map_to_list in Hin.
Qed.

Lemma find_saga_unique id db action s :
  saga_constraints db -> sagas db !! action = Some s -> ts_id s = id -> find_saga id db = Some (action, s).
Proof.
  intros (_ & Hu & _) Hs Hid. unfold find_saga.
  assert ((action, s) ∈ filter (fun r : string * TransitionSaga => ts_id r.2 = id) (map_to_list (sagas db))) as Hin
    by (apply list_elem_of_filter; split; [done|by apply elem_of_map_to_list]).
  destruct (filter _ _) as [|[a' s'] l] eqn:E; [by apply elem_of_nil in Hin|]. simpl. f_equal.
  assert ((a', s') ∈ filter (fun r : string * TransitionSaga => ts_id r.2 = id) (map_to_list (sagas db))) as Hin'
    by (rewrite E; apply list_elem_of_here).
  apply list_elem_of_filter in Hin' as [Hid' Hs'%elem_of_map_to_list]. simpl in Hid'.
  assert (action = a') as -> by (eapply (Hu action s Hs a' s' Hs'); congruence). by simplify_eq.
Qed.

Lemma update_saga_ok id p f db b db' :
  update_saga id p f db = Ok (b, db') <->
  (exists action s, find_saga id db = Some (action, s) /\ p action s = true /\ b = true
     /\ db' = set_sagas <[action := f s]> db /\ saga_constraints db')
  \/ ((forall action s, find_saga id db = Some (action, s) -> p action s = false) /\ b = false /\ db' = db).
Proof.
  unfold update_saga. rewrite t_bind_ok. setoid_rewrite t_reads_ok. split.
  - intros (row & s1 & [-> ->] & E). destruct (find_saga id db) as [[action s]|] eqn:Ea; simpl in E.
    + destruct (p action s) eqn:Ep; t_inv E; [left; by exists action, s|right]. split; [|done]. by intros ? ? [= <- <-].
    + t_inv E. right. done.
  - intros [(action & s & Ea & Ep & -> & -> & Hc)|(Hn & -> & ->)]; do 2 eexists; (split; [done|]).
    + rewrite Ea. simpl. rewrite Ep. apply t_bind_ok. exists tt, (set_sagas <[action := f s]> db).
      split; [by apply t_exec_ok|done].
    + destruct (find_saga id db) as [[action s]|] eqn:Ea; simpl; [|done]. by rewrite (Hn action s).
Qed.

(** An update of a saga that was read before, other tables having changed since *)
Lemma update_saga_at id p f db0 db action s db' :
  sagas db0 = sagas db -> find_saga id db = Some (action, s) -> update_saga id p f db0 = Ok (true, db') ->
  p action s = true /\ db' = set_sagas <[action := f s]> db0 /\ saga_constraints db'.
Proof.
  intros Hs Hf. assert (find_saga id db0 = Some (action, s)) as Hf0 by (unfold find_saga in *; by rewrite Hs).
  intros [(i & x & Hx & Hp & _ & -> & Hc)|(_ & [=] & _)]%update_saga_ok. rewrite Hf0 in Hx. by injection Hx as <- <-.
Qed.

Lemma update_checkpoint_at id expected next v p now db0 db action s u db' :
  sagas db0 = sagas db -> find_saga id db = Some (action, s) ->
  update_checkpoint id expected next v p now db0 = Ok (u, db') ->
  ts_checkpoint s = expected /\ ts_settlement_kind s = None
  /\ db' = set_sagas <[action := with_checkpoint next v p None now (ts_completed_at s) s]> db0 /\ saga_constraints db'.
Proof.
  unfold update_checkpoint. intros Hs Hf (b & d & Hu & E)%t_bind_ok. t_inv E. apply negb_false_iff in G as ->.
  eapply update_saga_at in Hu as (Hp & -> & Hc); [|done..].
  apply andb_true_iff in Hp as [?%String.eqb_eq Hn]. unfold unsettled in Hn.
  assert (ts_settlement_kind s = None) as Hk by (by destruct (ts_settlement_kind s)). by rewrite Hk in *.
Qed.

Lemma reload_at id db action s s' db' :
  saga_constraints db -> sagas db !! action = Some s -> ts_id s = id -> reload_saga id db = Ok (s', db') -> s' = s /\ db' = db.
Proof.
  unfold reload_saga. intros Hc Hs Hid (row & d & [-> ->]%t_reads_ok & [E ->]%t_some_ok)%t_bind_ok.
  rewrite (find_saga_unique id db action s) in E by done. by injection E as <-.
Qed.

Lemma lock_saga_ok claim saga db s db' :
  lock_saga claim saga db = Ok (s, db') ->
  db' = db /\ find_saga (ts_id s) db = Some (cl_id claim, s) /\ sagas db !! cl_id claim = Some s.
Proof.
  unfold lock_saga. intros E. t_inv E. destruct a as [action s]. apply negb_false_iff, String.eqb_eq in G0. simpl in *. subst action.
  apply find_saga_some in E0 as Hf. destruct Hf as [Hs Hid]. by rewrite Hid.
Qed.

(** The tables of objects after a statement that only writes references *)
Definition set_refs (refs : list ReferenceRow) (db : WorkerDb) : WorkerDb :=
  set_worker_objects (set_references refs (wd_objects db)) db.

Lemma on_delete_references_ok (P : ReferenceRow -> Prop) `{forall r, Decision (P r)} db n db' :
  on_objects (delete_references P) db = Ok (n, db') ->
  n = matching P (references (wd_objects db))
  /\ db' = set_refs (filter (fun r => ~ P r) (references (wd_objects db))) db /\ constraints (wd_objects db').
Proof.
  intros (o & E & ->)%on_objects_ok. apply tx_bind_ok in E as (k & d & [= <- <-] & E).
  apply tx_bind_ok in E as (u & d & [-> Hc]%exec_inv & [= <- <-]). done.
Qed.

(** A reference that is there, or was just added *)
Definition reference_added (r : ReferenceRow) (refs refs' : list ReferenceRow) : Prop :=
  (refs' = refs ++ [r] /\ reference_key r ∉ map reference_key refs)
  \/ (refs' = refs /\ reference_key r ∈ map reference_key refs).

Lemma on_insert_reference_ok r db n db' :
  constraints (wd_objects db) -> on_objects (insert_reference_or_nothing r) db = Ok (n, db') ->
  constraints (wd_objects db')
  /\ exists refs, db' = set_refs refs db /\ reference_added r (references (wd_objects db)) refs.
Proof.
  intros Hc (o & E & ->)%on_objects_ok. unfold insert_reference_or_nothing in E.
  apply tx_bind_ok in E as (present & d & [= <- <-] & E).
  case_bool_decide as Hin.
  - injection E as <- <-. split; [done|]. exists (references (wd_objects db)). split; [|by right].
    unfold set_refs. f_equal. by destruct (wd_objects db).
  - apply tx_bind_ok in E as (u & d & [-> Hc']%exec_inv & [= <- <-]). split; [done|].
    eexists. split; [done|]. by left.
Qed.

Definition hold_row (s : TransitionSaga) (reason : ReferenceReason) (tier : KuboTier) (now : Z) : ReferenceRow :=
  {| ref_owner_kind := OWNER_TRANSITION; ref_owner_id := ts_id s; ref_reason := reason_as_db_str reason;
     ref_version_row_id := ss_target_version_row_id (ts_snapshot s); ref_object_id := ss_target_object_id (ts_snapshot s);
     ref_tier := tier_as_db_str tier; ref_cid := ss_source_cid (ts_snapshot s); ref_created_at := now |}.

Lemma on_attach_hold_ok s reason tier now db b db' :
  constraints (wd_objects db) ->
  on_objects (attach_transition_hold_in_transaction (ts_id s) reason (saga_identity s)
    {| loc_tier := tier; loc_cid := ss_source_cid (ts_snapshot s) |} now) db = Ok (b, db') ->
  ts_id s <> EmptyString /\ constraints (wd_objects db')
  /\ exists refs, db' = set_refs refs db /\ reference_added (hold_row s reason tier now) (references (wd_objects db)) refs.
Proof.
  intros Hc (o & E & ->)%on_objects_ok. unfold attach_transition_hold_in_transaction in E.
  destruct (str_is_empty (ts_id s) || _) eqn:G; [done|]. apply orb_false_iff in G as [Hid _].
  split; [by destruct (ts_id s)|].
  apply tx_bind_ok in E as (u & d & [_ ->]%lift_ok & E).
  apply tx_bind_ok in E as (vo & d & ->%(read_only_run (lock_and_validate_version _ : Txn Db _)) & E); [|apply lock_and_validate_read_only].
  apply tx_bind_ok in E as (p & d & [= <- <-] & E). destruct (is_none _); [done|].
  apply tx_bind_ok in E as (n & d & Hi & [= <- <-]).
  apply (on_insert_reference_ok (hold_row s reason tier now) db n); [done|]. apply on_objects_ok. by exists d.
Qed.

(** ** Checkpoints *)

Lemma saga_constraints_objects o db :
  (forall x, x ∈ physical_places (wd_objects db) -> x ∈ physical_places o) ->
  saga_constraints db -> saga_constraints (set_worker_objects o db).
Proof.
  intros Hp (H1 & H2 & H3 & H4 & H5). split_and!; try done. intros i s Hs. apply Hp. by apply (H5 i s).
Qed.

Lemma saga_constraints_refs refs db : saga_constraints db -> saga_constraints (set_refs refs db).
Proof. by apply saga_constraints_objects. Qed.

Lemma same_cid db action s :
  saga_constraints db -> sagas db !! action = Some s -> ss_destination_cid (ts_snapshot s) = ss_source_cid (ts_snapshot s).
Proof. intros (Hc & _) Hs. by destruct (Hc action s Hs) as (_ & _ & _ & _ & _ & _ & _ & _ & -> & _). Qed.

Section effects.
Context `{Chrono} `{Uuid} `{TransitionCodec}.

(** What a claim must still be when a transaction acts on its behalf *)
Definition acting (claim : ClaimedLifecycleAction) (db : WorkerDb) : Prop :=
  exists a, actions db !! cl_id claim = Some a /\ active_action_claim claim a = true.

(** The saga is about the version that the action was queued for. *)
Definition of_action (a : ActionColumns) (s : TransitionSaga) : Prop :=
  let n := ts_snapshot s in
  ac_bucket a = ss_bucket n /\ ac_object_key a = ss_object_key n /\ ac_action_kind a = ss_action_kind n
  /\ ac_config_revision a = ss_config_revision n /\ ac_rule_id a = ss_rule_id n
  /\ ac_target_version_row_id a = Some (ss_target_version_row_id n)
  /\ ac_target_public_version_id a = Some (ss_target_public_version_id n)
  /\ ac_target_object_id a = Some (ss_target_object_id n) /\ ac_target_sequence a = Some (ss_target_sequence n).

Definition fresh_saga (saga_id : string) (a : ActionColumns) (s : TransitionSaga) : Prop :=
  ts_id s = saga_id /\ of_action a s /\ ts_checkpoint s = "prepare" /\ ts_verification_receipt s = None
  /\ ts_publication_receipt s = None /\ ts_settlement_kind s = None /\ ts_completed_at s = None.

Lemma required_some value field v : required value field = Ok v -> value = Some v.
Proof. unfold required. intros (x & -> & E)%ok_or_ok%bind_Some. destruct (str_is_empty x); congruence. Qed.

Lemma insert_prepared_ok saga_id a claim p now db s db' :
  insert_prepared_after_claim saga_id a claim p now db = Ok (s, db') ->
  (db' = db /\ sagas db !! cl_id claim = Some s)
  \/ (sagas db !! cl_id claim = None /\ fresh_saga saga_id a s
      /\ db' = set_sagas <[cl_id claim := s]> db /\ saga_constraints db').
Proof.
  unfold insert_prepared_after_claim, lock_saga_for_action, lock_optional_saga_for_action. intros E.
  w_inv E. destruct (sagas db !! cl_id claim) as [old|] eqn:Eold; simpl in E6; t_inv E6.
  - left. split; [done|congruence].
  - right. unfold sagas, set_sagas in E7. simpl in E7. rewrite lookup_insert_eq in E7. injection E7 as <-.
    apply required_some in E1, E2, E3. by split_and!.
Qed.

Lemma prepare_effect claim guard sn dn saga_id leases c db r db' :
  constraints (wd_objects db) -> saga_constraints db ->
  prepare claim guard sn dn saga_id leases c db = Ok (r, db') ->
  db' = db \/ exists s db1 refs,
    r = Prepared s /\ acting claim db
    /\ ((db1 = db /\ sagas db !! cl_id claim = Some s /\ ts_publication_receipt s = None)
        \/ (sagas db !! cl_id claim = None
            /\ (exists a, actions db !! cl_id claim = Some a /\ fresh_saga saga_id (la_columns a) s) /\ db1 = set_sagas <[cl_id claim := s]> db /\ saga_constraints db1))
    /\ db' = set_refs refs db1 /\ constraints (wd_objects db') /\ ts_id s <> EmptyString
    /\ reference_added (hold_row s TransitionStaging Hot (c 7%nat)) (references (wd_objects db)) refs.
Proof.
  intros Hc Hs [[_ ->]|(a & Ha & Hact & _ & E)]%while_claimed_ok; [by left|].
  unfold lock_optional_saga_for_action in E. w_inv E.
  match type of E with context [match ?x with _ => _ end] => destruct x as [s|] eqn:Epub end; [t_inv E; by left|].
  w_inv E. apply while_claimed_ok in E as [[_ ->]|(a' & Ha' & _ & _ & E)]; [by left|]. w_inv E.
  match type of E with context [match ?x with _ => _ end] => destruct x as [cand|] end; [|t_inv E; by left]. w_inv E.
  destruct (negb _); [t_inv E; by left|]. w_inv E.
  apply while_claimed_ok in E as [[_ ->]|(x & _ & _ & _ & E)]; [by left|]. w_inv E. right.
  apply insert_prepared_ok in E10 as Hi.
  assert (wd_objects d = wd_objects db) as Ho by (destruct Hi as [[-> _]|(_ & _ & -> & _)]; done).
  apply on_attach_hold_ok in E11 as (Hid & Hc' & refs & -> & Hadd); [|by rewrite Ho]. rewrite Ho in Hadd.
  exists a9, d, refs. split; [done|]. split; [by exists a|]. split; [|done].
  destruct Hi as [[-> Hold]|(Hn & Hf & Hd & Hc1)]; [left|right; by split_and!; [|exists a'| |]]. split; [done|]. split; [done|].
  rewrite Hold in Epub. simpl in Epub. destruct Hs as (Hk & _).
  destruct (Hk _ _ Hold) as (_ & _ & _ & _ & _ & _ & _ & _ & _ & _ & _ & _ & _ & _ & _ & Hrec & _).
  destruct Hrec as [(_ & _ & ?)|[(_ & _ & ?)|(Hcp & _)]]; [done..|]. unfold in_checkpoint in Epub.
  rewrite bool_decide_true in Epub by done. by destruct (ts_publication_receipt a9).
Qed.

(** What a checkpoint leaves alone among the objects *)
Definition objects_kept (o o' : Db) : Prop :=
  buckets o' = buckets o /\ objects o' = objects o /\ versions o' = versions o.

(** Copies may be added and unverified cold ones verified: what is verified, and what is hot, stays. *)
Definition copies_kept (ps ps' : list PhysicalRow) : Prop :=
  (forall p, p ∈ ps -> p_verification_state p = "verified" \/ p_tier p = "hot" -> p ∈ ps')
  /\ (forall p, p ∈ ps' -> p_tier p = "hot" -> p ∈ ps)
  /\ forall p, p ∈ ps -> exists p', p' ∈ ps' /\ p_tier p' = p_tier p /\ p_cid p' = p_cid p.

Lemma copies_kept_app ps new : Forall (fun p => p_tier p = "cold") new -> copies_kept ps (ps ++ new).
Proof.
  intros Hn. split_and!.
  - intros p Hp _. by apply elem_of_app; left.
  - intros p [Hp|Hp]%elem_of_app Ht; [done|]. rewrite Forall_forall in Hn. apply Hn in Hp. congruence.
  - intros p Hp. exists p. by split; [apply elem_of_app; left|].
Qed.

Lemma copies_kept_verify ps ps1 cid node json now :
  copies_kept ps ps1 -> copies_kept ps (update_where (unverified_cold cid) (set_verified node json now) ps1).
Proof.
  intros (K1 & K2 & K3). split_and!.
  - intros p Hp Hv. apply elem_of_update_where. exists p. split; [by apply K1|].
    rewrite decide_False; [done|]. intros (Ht & _ & Hs). destruct Hv as [Hv|Hv]; rewrite Hv in *; [set_solver|done].
  - intros p (p0 & Hp & ->)%elem_of_update_where Ht. case_decide as Hu; [|by apply K2]. destruct Hu as (Hc & _).
    simpl in Ht. congruence.
  - intros p (p' & Hp' & Ht & Hc)%K3. eexists. split; [apply elem_of_update_where; by exists p'|]. by case_decide.
Qed.

Lemma ensure_cold_ok s now db u db' :
  constraints (wd_objects db) -> ensure_cold_pending s now db = Ok (u, db') ->
  constraints (wd_objects db')
  /\ exists ps, db' = set_worker_objects (set_physicals (physicals (wd_objects db) ++ ps) (wd_objects db)) db
     /\ Forall (fun p => p_tier p = "cold") ps.
Proof.
  unfold ensure_cold_pending. intros Hc E. w_inv E. apply on_objects_ok in E0 as (o & Hi & ->).
  unfold insert_physical_or_nothing in Hi. apply tx_bind_ok in Hi as (present & d & [= <- <-] & Hi).
  destruct (bool_decide ((_, _) ∈ _)).
  - unfold tx_ret in Hi. simplify_eq. split; [done|]. exists []. rewrite app_nil_r. split; [|constructor]. by destruct db as [? []].
  - apply tx_bind_ok in Hi as (v & d & [-> Hc']%exec_inv & [= <- <-]). split; [done|]. eexists. split; [done|by repeat constructor].
Qed.

Lemma copy_effect claim saga leases c db r db' :
  constraints (wd_objects db) -> saga_constraints db ->
  record_copy claim saga leases c db = Ok (r, db') ->
  db' = db \/ exists s s', sagas db !! cl_id claim = Some s /\ acting claim db
    /\ ts_checkpoint s = "prepare" /\ ts_settlement_kind s = None /\ ts_id s <> EmptyString
    /\ s' = with_checkpoint "copy" None None None (c 5%nat) (ts_completed_at s) s /\ r = Some s'
    /\ sagas db' = <[cl_id claim := s']> (sagas db) /\ actions db' = actions db /\ tickets db' = tickets db
    /\ objects_kept (wd_objects db) (wd_objects db') /\ residencies (wd_objects db') = residencies (wd_objects db)
    /\ copies_kept (physicals (wd_objects db)) (physicals (wd_objects db'))
    /\ reference_added (hold_row s TransitionStaging Cold (c 4%nat)) (references (wd_objects db)) (references (wd_objects db'))
    /\ constraints (wd_objects db') /\ saga_constraints db'.
Proof.
  intros Hc Hs [[_ ->]|(a & Ha & Hact & _ & E)]%while_claimed_ok; [by left|]. w_inv E.
  apply lock_saga_ok in E0 as (_ & Hf & Hsaga).
  match type of E with context [match ?x with _ => _ end] => destruct x as [g|] end; [|t_inv E; by left]. w_inv E.
  apply while_claimed_ok in E as [[_ ->]|(x & _ & _ & _ & E)]; [by left|].
  destruct (in_checkpoint ["copy"; "verify"] _) eqn:Hcp; [t_inv E; by left|]. w_inv E. right.
  rewrite (same_cid db _ _ Hs Hsaga) in E4.
  apply ensure_cold_ok in E3 as (Hc1 & ps & -> & Hps); [|done].
  apply on_attach_hold_ok in E4 as (Hid & Hc2 & refs & -> & Hadd); [|done].
  eapply update_checkpoint_at in E5 as (Hprep & Hset & Hd & Hs'); [|done|exact Hf]. subst d1.
  eapply reload_at in E6 as [-> _]; [|done|apply lookup_insert_eq|done].
  exists a0. eexists. split; [done|]. split; [by exists a|]. split_and!; try done. by apply copies_kept_app.
Qed.
(** A copy that the receipt proves *)
Definition proven_copy (receipt : TierCopyReceipt) (json : string) (p : PhysicalRow) : Prop :=
  p_verification_state p = "verified" /\ p_node_identity p = Some (tc_node_identity receipt)
  /\ p_verification_receipt p = Some json /\ is_Some (p_verified_at p).

Lemma apply_cold_ok s receipt json c1 now db u db' :
  constraints (wd_objects db) -> apply_cold_verification s receipt json c1 now db = Ok (u, db') ->
  constraints (wd_objects db')
  /\ exists ps, db' = set_worker_objects (set_physicals ps (wd_objects db)) db
     /\ copies_kept (physicals (wd_objects db)) ps
     /\ exists p, find_physical "cold" (ss_destination_cid (ts_snapshot s)) (wd_objects db') = Some p
        /\ proven_copy receipt json p.
Proof.
  intros Hc. unfold apply_cold_verification. intros (v & d & (Hc1 & new & -> & Hnew)%ensure_cold_ok & E)%t_bind_ok; [|done].
  apply t_bind_ok in E as (n & d & (o & Hu & ->)%on_objects_ok & E).
  apply tx_bind_ok in Hu as (k & d & [= <- <-] & Hu). apply tx_bind_ok in Hu as (w & d & [-> Hc2]%exec_inv & [= <- <-]).
  set (cid := ss_destination_cid (ts_snapshot s)) in *. simpl in *. set (ps := physicals (wd_objects db) ++ new) in *.
  set (f := set_verified (tc_node_identity receipt) json now) in *.
  assert (copies_kept (physicals (wd_objects db)) (update_where (unverified_cold cid) f ps)) as Hk.
  { destruct (copies_kept_app (physicals (wd_objects db)) new Hnew) as (K1 & K2 & K3). by apply copies_kept_verify. }
  destruct (Z.eqb_spec (matching (unverified_cold cid) ps) 1) as [Hm|Hm].
  - t_inv E. split; [done|]. eexists. split; [done|]. split; [done|].
    assert (exists p, p ∈ ps /\ unverified_cold cid p) as (p & Hp & Hu).
    { unfold matching in Hm. destruct (filter (unverified_cold cid) ps) as [|p l] eqn:Ef; [done|]. exists p.
      apply and_comm. apply (list_elem_of_filter (unverified_cold cid)). rewrite Ef. apply list_elem_of_here. }
    exists (f p). split; [|by split_and!; [..|eexists]]. apply (find_physical_ok _ Hc2). pose proof Hu as (Ht & Hcid & _).
    split; [|done]. apply elem_of_update_where. exists p. by rewrite decide_True.
  - w_inv E. split; [done|]. eexists. split; [done|]. split; [done|]. exists a. split; [done|].
    apply negb_false_iff in G. rewrite !andb_true_iff, !bool_decide_eq_true, String.eqb_eq in G.
    destruct G as (((? & ?) & ?) & ?). split_and!; try done. by destruct (p_verified_at a).
Qed.
Lemma verify_effect claim saga receipt leases c db r db' :
  constraints (wd_objects db) -> saga_constraints db ->
  record_verified claim saga receipt leases c db = Ok (r, db') ->
  db' = db \/ exists s s' durable tier_json p, sagas db !! cl_id claim = Some s /\ acting claim db
    /\ (ts_checkpoint s ∈ ["copy"; "verify"]) /\ ts_settlement_kind s = None
    /\ validate_tier_receipt s receipt = Ok tt
    /\ verification_json (durable_verification (cl_id claim) s claim receipt) = Some durable
    /\ tier_receipt_json receipt = Some tier_json
    /\ s' = with_checkpoint "verify" (Some durable) None None (c 5%nat) (ts_completed_at s) s /\ r = Some s'
    /\ sagas db' = <[cl_id claim := s']> (sagas db) /\ actions db' = actions db /\ tickets db' = tickets db
    /\ objects_kept (wd_objects db) (wd_objects db') /\ residencies (wd_objects db') = residencies (wd_objects db)
    /\ references (wd_objects db') = references (wd_objects db)
    /\ copies_kept (physicals (wd_objects db)) (physicals (wd_objects db'))
    /\ find_physical "cold" (ss_destination_cid (ts_snapshot s)) (wd_objects db') = Some p /\ proven_copy receipt tier_json p
    /\ constraints (wd_objects db') /\ saga_constraints db'.
Proof.
  intros Hc Hs [[_ ->]|(a & Ha & Hact & _ & E)]%while_claimed_ok; [by left|]. w_inv E.
  apply lock_saga_ok in E0 as (_ & Hf & Hsaga).
  match type of E with context [match ?x with _ => _ end] => destruct x as [g|] end; [|t_inv E; by left]. w_inv E.
  apply while_claimed_ok in E as [[_ ->]|(x & _ & _ & _ & E)]; [by left|]. w_inv E. right.
  apply negb_false_iff in G0 as ->. apply ok_or_ok in E4, E5.
  apply apply_cold_ok in E6 as (Hc1 & ps & -> & Hps & p & Hp & Hproven); [|done].
  eapply update_saga_at in E7 as (Hpred & Hd & Hs'); [|done|exact Hf]. subst d0.
  rewrite !andb_true_iff in Hpred. destruct Hpred as (((_ & Hcp) & Hpub) & Hset).
  assert (ts_publication_receipt a0 = None) as Hpub' by (by destruct (ts_publication_receipt a0)).
  assert (ts_settlement_kind a0 = None) as Hset' by (unfold unsettled in Hset; by destruct (ts_settlement_kind a0)).
  rewrite Hpub', Hset' in *. eapply reload_at in E8 as [-> _]; [|done|apply lookup_insert_eq|done].
  exists a0. eexists _, a4, a5, p. destruct a3. apply bool_decide_eq_true in Hcp.
  split; [done|]. split; [by exists a|]. by split_and!.
Qed.

Lemma on_update_residencies_ok (P : ResidencyRow -> Prop) `{forall r, Decision (P r)} f db n db' :
  on_objects (update_residencies P f) db = Ok (n, db') ->
  n = matching P (residencies (wd_objects db))
  /\ db' = set_worker_objects (set_residencies (update_where P f (residencies (wd_objects db))) (wd_objects db)) db
  /\ constraints (wd_objects db').
Proof.
  intros (o & E & ->)%on_objects_ok. apply tx_bind_ok in E as (k & d & [= <- <-] & E).
  apply tx_bind_ok in E as (u & d & [-> Hc]%exec_inv & [= <- <-]). done.
Qed.

Lemma on_release_hold_ok id reason l db b db' :
  on_objects (release_transition_hold_in_transaction id reason l) db = Ok (b, db') ->
  db' = set_refs (filter (fun r => ~ transition_reference id reason l r) (references (wd_objects db))) db
  /\ constraints (wd_objects db').
Proof.
  intros (o & E & ->)%on_objects_ok. unfold release_transition_hold_in_transaction in E. destruct (_ || _); [done|].
  apply tx_bind_ok in E as (n & d & Hd & [= _ <-]).
  apply (on_delete_references_ok (transition_reference id reason l) db n). apply on_objects_ok. by exists d.
Qed.

(** The references once a saga is published *)
Definition published_references (s : TransitionSaga) (now c1 : Z) (refs refs' : list ReferenceRow) : Prop :=
  exists refs1 refs2, reference_added (hold_row s TransitionCleanupHold Hot c1) refs refs1
    /\ reference_added (retained_row s "cold" now) refs1 refs2
    /\ forall x, x ∈ refs' <-> x ∈ refs2 /\ ~ retained_hot s x
         /\ ~ (held_by (ts_id s) x /\ ref_reason x = reason_as_db_str TransitionStaging
               /\ (ref_tier x ∈ ["hot"; "cold"]) /\ ref_cid x = ss_source_cid (ts_snapshot s)).

Lemma publish_residency_effect claim s receipt now c1 db s' db' :
  constraints (wd_objects db) -> saga_constraints db -> sagas db !! cl_id claim = Some s ->
  publish_residency claim s receipt now c1 db = Ok (s', db') ->
  exists p tier_json publication r,
    find_physical "cold" (ss_source_cid (ts_snapshot s)) (wd_objects db) = Some p
    /\ tier_receipt_json receipt = Some tier_json
    /\ p_verification_state p = "verified" /\ p_verification_receipt p = Some tier_json
    /\ p_node_identity p = Some (ss_expected_destination_node_identity (ts_snapshot s))
    /\ find_residency (ss_target_version_row_id (ts_snapshot s)) (wd_objects db) = Some r /\ source_residency s r
    /\ publication_json (published_receipt claim s (r_revision r + 1) now) = Some publication
    /\ ts_checkpoint s = "verify" /\ ts_settlement_kind s = None
    /\ s' = with_checkpoint "publish" (ts_verification_receipt s) (Some publication) None now (ts_completed_at s) s
    /\ sagas db' = <[cl_id claim := s']> (sagas db) /\ actions db' = actions db /\ tickets db' = tickets db
    /\ objects_kept (wd_objects db) (wd_objects db') /\ physicals (wd_objects db') = physicals (wd_objects db)
    /\ residencies (wd_objects db')
       = update_where (source_residency s) (moved_cold (r_revision r + 1) now) (residencies (wd_objects db))
    /\ published_references s now c1 (references (wd_objects db)) (references (wd_objects db'))
    /\ constraints (wd_objects db') /\ saga_constraints db'.
Proof.
  intros Hc Hs Hsaga. pose proof (same_cid db _ _ Hs Hsaga) as Hcid.
  unfold publish_residency. rewrite Hcid. intros E. w_inv E. guard_inv. apply ok_or_ok in E1, E10.
  assert (a2 = r_revision a1 + 1) as -> by (unfold i64_checked_add in E3; by case_match; simplify_eq).
  apply on_attach_hold_ok in E4 as (_ & Hc1 & refs1 & -> & Hadd1); [|done].
  apply on_insert_reference_ok in E5 as (Hc2 & refs2 & -> & Hadd2); [|done].
  apply on_delete_references_ok in E6 as (-> & -> & Hc3). apply on_update_residencies_ok in E7 as (-> & -> & Hc4).
  apply on_release_hold_ok in E8 as (-> & Hc5). apply on_release_hold_ok in E9 as (-> & Hc6). destruct a10; [|done].
  eapply update_saga_at in E11 as (Hp & Hd & Hs'); [|done|by apply (find_saga_unique _ db)]. subst d5.
  rewrite !andb_true_iff in Hp. destruct Hp as (((Hcp & _) & _) & Hset).
  assert (ts_settlement_kind s = None) as Hset' by (unfold unsettled in Hset; by destruct (ts_settlement_kind s)).
  rewrite Hset' in *. eapply reload_at in E as [-> _]; [|done|apply lookup_insert_eq|done].
  apply find_residency_ok in E2 as Hr; [|done]. destruct Hr as [_ Hr].
  exists a, a0, a9, a1. split_and!; try done; [by apply String.eqb_eq|].
  exists refs1, refs2. split; [done|]. split; [done|]. intros x. simpl. rewrite !list_elem_of_filter.
  unfold transition_reference, held_by. simpl. set_solver.
Qed.

Lemma publish_effect claim guard receipt leases c db r db' :
  constraints (wd_objects db) -> saga_constraints db ->
  publish claim guard receipt leases c db = Ok (r, db') ->
  (db' = db /\ forall s, r <> Published s) \/ exists s s' a candidate, r = Published s' /\ sagas db !! cl_id claim = Some s
    /\ actions db !! cl_id claim = Some a /\ active_action_claim claim a = true
    /\ validate_guard_binding claim guard = Ok tt
    /\ on_tickets (verify_standard_mutation_guard guard (ac_bucket (la_columns a)) (ac_object_key (la_columns a)) []
                     (us (c 2%nat))) db = Ok (tt, db)
    /\ revalidate_transition configuration_from_json claim (c 3%nat) (c 4%nat) db = Ok (Some candidate, db)
    /\ validate_candidate_snapshot (la_columns a) candidate = Ok tt /\ hot_residency_verified candidate = true
    /\ validate_source_snapshot s candidate db = Ok (tt, db)
    /\ validate_current_verification (cl_id claim) s claim receipt = Ok tt
    /\ publish_residency claim s receipt (c 6%nat) (c 7%nat) db = Ok (s', db').
Proof.
  intros Hc Hs [[-> ->]|(a & Ha & Hact & _ & E)]%while_claimed_ok; [by left|].
  unfold lock_saga_for_action, lock_optional_saga_for_action in E. w_inv E.
  match type of E with (if ?b then _ else _) _ = _ => destruct b eqn:Epub end; [t_inv E; by left|].
  w_inv E. apply while_claimed_ok in E as [[-> ->]|(a' & Ha' & _ & _ & E)]; [by left|]. w_inv E.
  match type of E with context [match ?x with _ => _ end] => destruct x as [cand|] end; [|t_inv E; by left]. w_inv E.
  destruct (negb (hot_residency_verified cand)) eqn:Hv; [t_inv E; by left|]. w_inv E.
  apply while_claimed_ok in E as [[-> ->]|(x & _ & _ & _ & E)]; [by left|]. w_inv E. right.
  apply negb_false_iff in Hv. rewrite Ha in Ha'. injection Ha' as <-. destruct a1, a4, a5, a7, a8.
  eexists a2, _, a, cand. by split_and!.
Qed.

(** ** Settling *)

(** Only tickets change, and no bucket is added or removed. *)
Definition only_tickets (db db' : WorkerDb) : Prop :=
  sagas db' = sagas db /\ actions db' = actions db /\ wd_objects db' = wd_objects db
  /\ wd_configs db' = wd_configs db /\ wd_tags db' = wd_tags db /\ wd_uploads db' = wd_uploads db
  /\ im_buckets (tickets db') = im_buckets (tickets db).
#[export] Instance only_tickets_preorder : PreOrder only_tickets.
Proof. split; [by intros db; split_and!|]. intros x y z (?&?&?&?&?&?&?) (?&?&?&?&?&?&?). split_and!; congruence. Qed.

Definition same_buckets (im im' : ImportDb) : Prop := im_buckets im' = im_buckets im.
#[export] Instance same_buckets_preorder : PreOrder same_buckets.
Proof. split; [done|]. unfold same_buckets. intros x y z ? ?. congruence. Qed.

Lemma keeps_on_tickets {A} (m : ITx A) : t_keeps same_buckets m -> t_keeps only_tickets (on_tickets m).
Proof.
  intros Hm db a db' (l & (im & E & ->)%on_imports_ok & ->)%on_lifecycle_ok. apply Hm in E. by split_and!.
Qed.

Lemma exec_dests_keeps f : t_keeps same_buckets (i_exec (set_dests f)).
Proof. by intros im u im' [-> _]%t_exec_ok. Qed.
Lemma exec_leases_keeps f : t_keeps same_buckets (i_exec (set_leases f)).
Proof. by intros im u im' [-> _]%t_exec_ok. Qed.
#[local] Hint Resolve exec_dests_keeps exec_leases_keeps : keeps.

Lemma complete_keeps_buckets g now c1 c2 : t_keeps same_buckets (complete_standard_mutation_in_transaction g now c1 c2).
Proof.
  unfold complete_standard_mutation_in_transaction, clear_standard_mutation_in_transaction, verify_mutation_lease, update_dest.
  t_keep.
Qed.
Lemma clear_lifecycle_keeps_buckets b k id e now : t_keeps same_buckets (clear_lifecycle_mutation_if_owned b k id e now).
Proof. unfold clear_lifecycle_mutation_if_owned, find_destination_for_update, update_dest. t_keep. Qed.

Lemma clear_guard_keeps claim guard now c : t_keeps only_tickets (clear_owned_guard_for_action claim guard now c).
Proof.
  unfold clear_owned_guard_for_action. apply (keeps_bind only_tickets).
  - destruct (String.eqb _ _); [|apply keeps_ret; apply _]. intros db u db' E.
    destruct (on_tickets _ db) as [[v d]|e] eqn:Ev; [|destruct e; by simplify_eq].
    apply read_only_run in Ev as ->; [|eauto with keeps]. revert E. apply keeps_on_tickets, complete_keeps_buckets.
  - intros _. apply (keeps_bind only_tickets); [apply keeps_on_tickets, clear_lifecycle_keeps_buckets|]. intros b.
    apply keeps_ret; apply _.
Qed.

Lemma clear_owned_guard_keeps claim s guard now c : t_keeps only_tickets (clear_owned_guard claim s guard now c).
Proof. unfold clear_owned_guard. destruct (_ && _); [apply clear_guard_keeps|apply keeps_ret; apply _]. Qed.

Lemma saga_constraints_actions db db' :
  sagas db' = sagas db -> (forall i, is_Some (actions db !! i) -> is_Some (actions db' !! i)) ->
  im_buckets (tickets db') = im_buckets (tickets db) -> physical_places (wd_objects db') = physical_places (wd_objects db) ->
  saga_constraints db -> saga_constraints db'.
Proof.
  intros Hs Ha Hb Hp (H1' & H2 & H3 & H4 & H5). unfold saga_constraints. rewrite Hs, Hb, Hp. split_and!; try done.
  intros i s Hi. apply Ha. by apply (H3 i s).
Qed.

(** The references without those of a saga *)
Definition released (s : TransitionSaga) (o : Db) : Db :=
  set_references (filter (fun r => ~ held_by (ts_id s) r) (references o)) o.

(** A settlement: the saga is closed, its holds go, and its action is finished. *)
Record settlement (claim : ClaimedLifecycleAction) (s s' : TransitionSaga) (state : string) (db db' : WorkerDb) : Prop := {
  sl_saga : sagas db !! cl_id claim = Some s;
  sl_sagas : sagas db' = <[cl_id claim := s']> (sagas db);
  sl_objects : wd_objects db' = released s (wd_objects db);
  sl_action : exists a class error now, actions db !! cl_id claim = Some a /\ active_action_claim claim a = true
    /\ actions db' = <[cl_id claim := finished state class error now a]> (actions db);
  sl_constraints : constraints (wd_objects db') /\ saga_constraints db'
}.
Lemma release_all_ok s db u db' :
  release_all_transition_holds s db = Ok (u, db') ->
  db' = set_worker_objects (released s (wd_objects db)) db /\ constraints (wd_objects db').
Proof. unfold release_all_transition_holds. intros (n & d & (_ & -> & Hc)%on_delete_references_ok & E)%t_bind_ok. by t_inv E. Qed.

Lemma on_update_action_ok id p f db b db' :
  on_lifecycle (update_action id p f) db = Ok (b, db') ->
  (b = false /\ db' = db)
  \/ exists a, b = true /\ actions db !! id = Some a /\ p (wd_lifecycle db) a = true
     /\ db' = set_lifecycle (set_actions <[id := f a]> (wd_lifecycle db)) db.
Proof.
  intros (l & E & ->)%on_lifecycle_ok. apply update_action_ok in E as [(a & Ha & Hp & -> & -> & _)|(_ & -> & ->)].
  - right. by exists a.
  - left. split; [done|by destruct db].
Qed.

(** The statements of a settlement, one after the other *)
Lemma settlement_run claim s s' a state class error now db d2 db' :
  sagas db !! cl_id claim = Some s -> constraints (released s (wd_objects db)) ->
  d2 = set_sagas <[cl_id claim := s']> (set_worker_objects (released s (wd_objects db)) db) -> saga_constraints d2 ->
  actions db !! cl_id claim = Some a -> active_action_claim claim a = true ->
  only_tickets (set_lifecycle (set_actions <[cl_id claim := finished state class error now a]> (wd_lifecycle d2)) d2) db' ->
  settlement claim s s' state db db'.
Proof.
  intros Hs Hc -> Hs2 Ha Hact (Es & Ea & Eo & _ & _ & _ & Eb).
  split; [done|done|done| |split; [by rewrite Eo|]].
  - exists a, class, error, now. split; [done|]. split; [done|done].
  - revert Hs2. apply saga_constraints_actions; [exact Es| |exact Eb|by rewrite Eo].
    intros i Hi. rewrite Ea. apply lookup_insert_is_Some'. by right.
Qed.

Lemma cleanup_effect claim guard saga leases c db r db' :
  constraints (wd_objects db) -> saga_constraints db ->
  cleanup claim guard saga leases c db = Ok (r, db') ->
  db' = db \/ exists s now,
    ts_checkpoint s = "publish" /\ is_Some (ts_publication_receipt s) /\ ts_settlement_kind s = None
    /\ settlement claim s (with_checkpoint "cleanup" (ts_verification_receipt s) (ts_publication_receipt s)
                              (Some "cleanup_complete") now (Some now) s) STATE_SUCCEEDED db db'.
Proof.
  intros Hc Hs [[_ ->]|(a & Ha & Hact & _ & E)]%while_claimed_ok; [by left|]. w_inv E.
  apply lock_saga_ok in E1 as (_ & Hf & Hsaga).
  match type of E with (if ?b then _ else _) _ = _ => destruct b eqn:Epub end; [t_inv E; by left|]. w_inv E.
  apply while_claimed_ok in E as [[_ ->]|(x & _ & _ & _ & E)]; [by left|]. w_inv E. right.
  cbv zeta in E. w_inv E. guard_inv. subst. apply release_all_ok in E4 as [-> Hc1].
  eapply update_saga_at in E5 as (Hp & Hd & Hs'); [|done|exact Hf].
  unfold mark_succeeded in E6. apply on_update_action_ok in E6 as [[? _]|(y & _ & Hy & Hacty & Hd1)]; [done|]. subst d0 d1.
  apply clear_owned_guard_keeps in E7. rewrite !andb_true_iff in Hp. destruct Hp as ((_ & Hpub) & Hset).
  exists a1, (c 2%nat). split; [done|]. split; [by destruct (ts_publication_receipt a1)|].
  split; [unfold unsettled in Hset; by destruct (ts_settlement_kind a1)|]. by eapply settlement_run.
Qed.

(** A transaction that only finishes its action *)
Record cancellation (claim : ClaimedLifecycleAction) (db db' : WorkerDb) : Prop := {
  cn_sagas : sagas db' = sagas db;
  cn_objects : wd_objects db' = wd_objects db;
  cn_action : exists a class error now, actions db !! cl_id claim = Some a /\ active_action_claim claim a = true
    /\ actions db' = <[cl_id claim := finished STATE_CANCELLED class error now a]> (actions db);
  cn_constraints : saga_constraints db'
}.

Lemma cancel_action_ok claim now class diagnostic d d0 u d2 :
  on_lifecycle (mark_cancelled claim now class) d = Ok (true, d0) ->
  match diagnostic with
  | None => t_ret tt
  | Some diagnostic =>
    let* updated := on_lifecycle (record_diagnostic claim diagnostic) in
    stop_if negb updated with invalid_state "exhaustion diagnostic fence" else t_ret tt
  end d0 = Ok (u, d2) ->
  exists a error, actions d !! cl_id claim = Some a /\ active_action_claim claim a = true
    /\ d2 = set_lifecycle (set_actions <[cl_id claim := finished STATE_CANCELLED (Some class) (Some error) now a]> (wd_lifecycle d)) d.
Proof.
  intros (l & E & ->)%on_lifecycle_ok. unfold mark_cancelled, terminal_failure_update in E.
  apply t_bind_ok in E as (v & l' & [_ ->]%t_lift_ok & E).
  apply update_action_ok in E as [(a & Ha & Hact & _ & -> & _)|(_ & [=] & _)]. intros Ed.
  destruct diagnostic as [diagnostic|]; [|t_inv Ed; by eexists a, _].
  apply t_bind_ok in Ed as (b & d3 & Eu & Ed). t_inv Ed. apply negb_false_iff in G as ->.
  unfold record_diagnostic in Eu. apply on_update_action_ok in Eu as [[[=] _]|(y & _ & Hy & _ & ->)].
  exists a, diagnostic. split; [done|]. split; [done|]. unfold actions in Hy. simpl in Hy. rewrite lookup_insert_eq in Hy.
  injection Hy as <-. unfold set_lifecycle, set_actions. simpl. by rewrite insert_insert_eq.
Qed.

Lemma settle_effect claim guard saga class diagnostic leases c db r db' :
  constraints (wd_objects db) -> saga_constraints db ->
  settle_unpublished claim guard saga class diagnostic leases c db = Ok (r, db') ->
  db' = db
  \/ (sagas db !! cl_id claim = None /\ cancellation claim db db')
  \/ exists s now, ts_publication_receipt s = None /\ ts_settlement_kind s = None
     /\ settlement claim s (with_checkpoint (ts_checkpoint s) (ts_verification_receipt s) None (Some "cancelled") now
                              (Some now) s) STATE_CANCELLED db db'.
Proof.
  intros Hc Hs [[_ ->]|(a & Ha & Hact & _ & E)]%while_claimed_ok; [by left|]. w_inv E.
  assert (d = db /\ a1 = sagas db !! cl_id claim) as [-> ->].
  { destruct saga as [saga|]; [|unfold lock_optional_saga_for_action in E1; by t_inv E1].
    apply t_bind_ok in E1 as (s & d' & (-> & _ & ->)%lock_saga_ok & [-> ->]%t_ret_ok). done. }
  w_inv E2. w_inv E3. apply while_claimed_ok in E as [[_ ->]|(x & _ & _ & _ & E)]; [by left|]. right.
  apply t_bind_ok in E as (u & d1 & Erel & E). cbv zeta in E. w_inv E.
  apply negb_false_iff in G as ->. destruct (cancel_action_ok _ _ _ _ _ _ _ _ E5 E6) as (y & error & Hy & Hacty & ->).
  apply clear_guard_keeps in E7. destruct (sagas db !! cl_id claim) as [s|] eqn:Hsaga.
  - right. w_inv Erel. apply orb_false_iff in G as [_ Hpub]. apply release_all_ok in Erel as [-> Hc1].
    apply t_bind_ok in E4 as (b & d3' & Eu & E4). t_inv E4. apply negb_false_iff in G as ->.
    eapply update_saga_at in Eu as (Hp & Hd & Hs'); [|done|by apply (find_saga_unique _ db)]. subst d3'.
    rewrite !andb_true_iff in Hp. destruct Hp as ((_ & _) & Hset).
    assert (ts_publication_receipt s = None) as Hpub' by (by destruct (ts_publication_receipt s)). rewrite Hpub' in *.
    exists s, (c 2%nat). split; [done|]. split; [unfold unsettled in Hset; by destruct (ts_settlement_kind s)|].
    by eapply settlement_run.
  - left. split; [done|]. t_inv Erel. simpl in E4. t_inv E4. destruct E7 as (Es & Ea & Eo & _ & _ & _ & Eb).
    split; [done|done|by exists y, (Some class), (Some error), (c 2%nat)|]. revert Hs. apply saga_constraints_actions; [exact Es| |exact Eb|by rewrite Eo].
    intros i Hi. rewrite Ea. apply lookup_insert_is_Some'. by right.
Qed.

Lemma worker_effect_same claim db db' :
  ld_sagas db' = ld_sagas db -> ld_actions db' = ld_actions db -> worker_effect claim db db'.
Proof. split; [done|by left]. Qed.

Lemma worker_effect_domain claim db db' i :
  worker_effect claim db db' -> is_Some (ld_actions db !! i) -> is_Some (ld_actions db' !! i).
Proof.
  intros [_ [->|(a & a' & _ & _ & _ & ->)]] Hi; [done|]. apply lookup_insert_is_Some'. by right.
Qed.

Lemma retry_effect claim guard b m class leases c db r db' :
  saga_constraints db ->
  settle_retry claim guard b m class leases c db = Ok (r, db') ->
  sagas db' = sagas db /\ wd_objects db' = wd_objects db /\ worker_effect claim (wd_lifecycle db) (wd_lifecycle db')
  /\ saga_constraints db'.
Proof.
  intros Hs [[_ ->]|(a & Ha & Hact & _ & E)]%while_claimed_ok; [split_and!; try done; by apply worker_effect_same|].
  unfold lock_optional_saga_for_action in E. w_inv E.
  apply while_claimed_ok in E as [[_ ->]|(x & _ & _ & _ & E)]; [split_and!; try done; by apply worker_effect_same|]. cbv zeta in E. w_inv E.
  apply on_lifecycle_ok in E4 as (l & Er & ->). apply schedule_retry_effect in Er as He.
  assert (ld_imports l = ld_imports (wd_lifecycle db)) as Him.
  { unfold schedule_retry in Er. apply t_bind_ok in Er as (u & d & [_ ->]%t_lift_ok & [_ Er]%stop_ok).
    by apply update_action_ok in Er as [(y & _ & _ & _ & -> & _)|(_ & _ & ->)]. }
  apply clear_guard_keeps in E5 as (Es & Ea & Eo & _ & _ & _ & Eb). pose proof He as [Hsame _].
  split; [by rewrite Es|]. split; [done|]. split.
  - destruct He as [_ He]. split; [etrans; [exact Es|done]|]. unfold actions in Ea. simpl in Ea. by rewrite Ea.
  - revert Hs. apply saga_constraints_actions; [by rewrite Es| |rewrite Eb; unfold tickets; simpl; by rewrite Him|by rewrite Eo].
    intros i Hi. rewrite Ea. by eapply worker_effect_domain.
Qed.
End effects.
