(* ===== verification/StoreEffects.v ===== *)
(** * What the version store leaves alone

    A transaction of the store that publishes or deletes a version says nothing of the references that
    transitions hold, of the cold copies, or of the versions whose primary copy is cold.  This file
    shows what such a transaction may do to them: a hold goes only with its version, copies stay, and no
    version becomes cold. *)

From Stdlib Require Import ZArith Lia.
From stdpp Require Import prelude strings list.
From S2P Require Import Prelude Errors VersionModel Database Transaction ObjectStore ResidencyStore VersionStore VersionSpec.
From S2P Require Import VersionReads Publication VersionSystem.

#[local] Open Scope string_scope.
#[local] Open Scope list_scope.
#[local] Open Scope Z_scope.

(** ** The relation *)

(** [u] is the row identifier that a transaction may have added. *)
Record store_kept (u : string) (o o' : Db) : Prop := {
  sk_constraints : constraints o';
  sk_versions v' : v' ∈ versions o' ->
    v_id v' = u \/ exists v, v ∈ versions o /\ v_id v = v_id v' /\ v_object_id v = v_object_id v';
  sk_holds_old r : r ∈ references o' -> ref_owner_kind r = OWNER_TRANSITION -> r ∈ references o;
  sk_holds_kept r : r ∈ references o -> ref_owner_kind r = OWNER_TRANSITION -> ref_version_row_id r <> u ->
    ref_version_row_id r ∈ map v_id (versions o') -> r ∈ references o';
  sk_places x : x ∈ physical_places o -> x ∈ physical_places o';
  sk_cold_copies p : p ∈ physicals o -> p_tier p = "cold" -> p ∈ physicals o';
  sk_cold_residencies r : r ∈ residencies o' -> r_primary_tier r = "cold" -> r ∈ residencies o
}.

Definition store_effect (u : string) (o o' : Db) : Prop := constraints o -> store_kept u o o'.

Lemma store_kept_refl u o : constraints o -> store_kept u o o.
Proof. intros Hc. split; try done. intros v Hv. right. by exists v. Qed.

Lemma store_kept_trans u o1 o2 o3 : store_kept u o1 o2 -> store_kept u o2 o3 -> store_kept u o1 o3.
Proof.
  intros K1 K2. split.
  - apply (sk_constraints _ _ _ K2).
  - intros v' [E|(v & Hv & Ei & Eo)]%(sk_versions _ _ _ K2); [by left|].
    destruct (sk_versions _ _ _ K1 v Hv) as [E|(w & Hw & Ei' & Eo')]; [left; congruence|].
    right. exists w. split; [done|]. split; congruence.
  - intros r Hr Ht. apply (sk_holds_old _ _ _ K1); [|done]. by apply (sk_holds_old _ _ _ K2).
  - intros r Hr Ht Hu Hin. apply (sk_holds_kept _ _ _ K2); try done. apply (sk_holds_kept _ _ _ K1); try done.
    apply list_elem_of_fmap in Hin as (v & Ev & Hv).
    destruct (sk_versions _ _ _ K2 v Hv) as [E|(w & Hw & Ei & _)]; [congruence|].
    rewrite Ev, <- Ei. by apply list_elem_of_fmap_2.
  - intros x Hx. by apply (sk_places _ _ _ K2), (sk_places _ _ _ K1).
  - intros p Hp Ht. apply (sk_cold_copies _ _ _ K2); [|done]. by apply (sk_cold_copies _ _ _ K1).
  - intros r Hr Ht. apply (sk_cold_residencies _ _ _ K1); [|done]. by apply (sk_cold_residencies _ _ _ K2).
Qed.

#[export] Instance store_effect_preorder u : PreOrder (store_effect u).
Proof.
  split; [intros o Hc; by apply store_kept_refl|]. intros o1 o2 o3 H1 H2 Hc. pose proof (H1 Hc) as K1.
  eapply store_kept_trans; [done|]. apply H2, (sk_constraints _ _ _ K1).
Qed.

(** ** Statements *)

Section statements.
Context (u : string).

Lemma exec_effect f :
  (forall o, constraints o -> constraints (f o) -> store_kept u o (f o)) -> t_keeps (store_effect u) (exec f : Txn Db unit).
Proof. intros Hf o x o' [-> Hc']%exec_inv Hc. by apply Hf. Qed.

Lemma bind_effect {A B} (m : Tx A) (k : A -> Tx B) :
  t_keeps (store_effect u) (m : Txn Db A) -> (forall a, t_keeps (store_effect u) (k a : Txn Db B)) ->
  t_keeps (store_effect u) (tx_bind m k : Txn Db B).
Proof. apply (keeps_bind (store_effect u)). Qed.
Lemma reads_effect {A} (f : Db -> A) : t_keeps (store_effect u) (reads f : Txn Db A).
Proof. apply (keeps_reads (store_effect u)). Qed.
Lemma ret_effect {A} (a : A) : t_keeps (store_effect u) (tx_ret a : Txn Db A).
Proof. apply (keeps_ret (store_effect u)). Qed.
Lemma lift_effect {A} (r : AppResult A) : t_keeps (store_effect u) (lift r : Txn Db A).
Proof. apply (keeps_lift (store_effect u)). Qed.
Lemma err_effect {A} e : t_keeps (store_effect u) (tx_err e : Txn Db A).
Proof. done. Qed.

Lemma map_err_effect {A} g (m : Tx A) :
  t_keeps (store_effect u) (m : Txn Db A) -> t_keeps (store_effect u) ((fun db => map_err g (m db)) : Txn Db A).
Proof. intros Hm o a o' E%map_err_ok. by eapply Hm. Qed.

(** Tables that holds, copies and versions do not depend on *)
Lemma buckets_effect bs : t_keeps (store_effect u) (exec (fun db => set_buckets (bs db) db) : Txn Db unit).
Proof. apply exec_effect. intros o Hc Hc'. split; try done. intros v Hv. right. by exists v. Qed.
Lemma objects_effect os : t_keeps (store_effect u) (exec (fun db => set_objects (os db) db) : Txn Db unit).
Proof. apply exec_effect. intros o Hc Hc'. split; try done. intros v Hv. right. by exists v. Qed.

Lemma update_buckets_effect (P : BucketRow -> Prop) `{forall b, Decision (P b)} f :
  t_keeps (store_effect u) (update_buckets P f : Txn Db Z).
Proof.
  apply bind_effect; [apply reads_effect|]. intros n. apply bind_effect; [|intros _; apply ret_effect].
  apply (buckets_effect (fun db => update_where P f (buckets db))).
Qed.
Lemma update_objects_effect (P : ObjectRow -> Prop) `{forall b, Decision (P b)} f :
  t_keeps (store_effect u) (update_objects P f : Txn Db Z).
Proof.
  apply bind_effect; [apply reads_effect|]. intros n. apply bind_effect; [|intros _; apply ret_effect].
  apply (objects_effect (fun db => update_where P f (objects db))).
Qed.
Lemma insert_object_effect o : t_keeps (store_effect u) (insert_object o : Txn Db unit).
Proof. apply (objects_effect (fun db => objects db ++ [o])). Qed.

(** Versions keep their identity, and only the new one is added. *)
Lemma update_versions_effect (P : VersionRow -> Prop) `{forall b, Decision (P b)} f :
  (forall v, v_id (f v) = v_id v /\ v_object_id (f v) = v_object_id v) ->
  t_keeps (store_effect u) (update_versions P f : Txn Db Z).
Proof.
  intros Hf. apply bind_effect; [apply reads_effect|]. intros n. apply bind_effect; [|intros _; apply ret_effect].
  apply exec_effect. intros o Hc Hc'. split; try done.
  intros v' (v & Hv & ->)%elem_of_update_where. right. exists v. split; [done|].
  case_decide; [|done]. by destruct (Hf v) as [-> ->].
Qed.

Lemma insert_version_effect v : v_id v = u -> t_keeps (store_effect u) (insert_version v : Txn Db unit).
Proof.
  intros Hu. apply exec_effect. intros o Hc Hc'. split; try done.
  intros w [Hw| ->%list_elem_of_singleton]%elem_of_app; [|by left]. right. by exists w.
Qed.

(** Deleting versions takes their holds along, and no other. *)
Lemma delete_versions_effect (P : VersionRow -> Prop) `{forall b, Decision (P b)} :
  t_keeps (store_effect u) (delete_versions P : Txn Db Z).
Proof.
  apply bind_effect; [apply reads_effect|]. intros n. apply bind_effect; [|intros _; apply ret_effect].
  apply exec_effect. intros o Hc Hc'. split; try done; simpl.
  - intros v' [_ Hv']%list_elem_of_filter. right. by exists v'.
  - by intros r [_ Hr]%list_elem_of_filter.
  - intros r Hr Ht _ (v & Ev & Hv)%list_elem_of_fmap. apply list_elem_of_filter. split; [|done].
    pose proof Hv as [_ Hv0]%list_elem_of_filter.
    pose proof Hc as (_ & _ & (Hu & _) & _ & _ & (_ & _ & Hown & _)). rewrite Forall_forall in Hown.
    apply Hown, version_owner_iff in Hr as (w & Hw & Ew & Eo).
    assert (v = w) as <- by (eapply (unique_inj _ _ _ _ (v_id v) Hu); simpl; congruence).
    apply version_owner_iff. by exists v.
  - by intros r [_ Hr]%list_elem_of_filter.
Qed.

Lemma delete_references_effect (P : ReferenceRow -> Prop) `{forall b, Decision (P b)} :
  (forall r, P r -> ref_owner_kind r <> OWNER_TRANSITION) -> t_keeps (store_effect u) (delete_references P : Txn Db Z).
Proof.
  intros HP. apply bind_effect; [apply reads_effect|]. intros n. apply bind_effect; [|intros _; apply ret_effect].
  apply exec_effect. intros o Hc Hc'. split; try done; simpl.
  - intros v Hv. right. by exists v.
  - by intros r [_ Hr]%list_elem_of_filter.
  - intros r Hr Ht _ _. apply list_elem_of_filter. split; [|done]. intros Hp. by apply (HP r).
Qed.

Lemma insert_reference_effect r :
  ref_owner_kind r <> OWNER_TRANSITION -> t_keeps (store_effect u) (insert_reference_or_nothing r : Txn Db Z).
Proof.
  intros Hk. apply bind_effect; [apply reads_effect|]. intros [|]; [apply ret_effect|].
  apply bind_effect; [|intros _; apply ret_effect]. apply exec_effect. intros o Hc Hc'. split; try done; simpl.
  - intros v Hv. right. by exists v.
  - by intros x [Hx| ->%list_elem_of_singleton]%elem_of_app.
  - intros x Hx _ _ _. apply elem_of_app. by left.
Qed.

Lemma insert_residency_effect r :
  r_primary_tier r <> "cold" -> t_keeps (store_effect u) (insert_residency r : Txn Db unit).
Proof.
  intros Hk. apply exec_effect. intros o Hc Hc'. split; try done; simpl.
  - intros v Hv. right. by exists v.
  - by intros x [Hx| ->%list_elem_of_singleton]%elem_of_app.
Qed.

(** Copies are added, and only hot ones change. *)
Lemma insert_physical_effect p : t_keeps (store_effect u) (insert_physical_or_nothing p : Txn Db Z).
Proof.
  apply bind_effect; [apply reads_effect|]. intros [|]; [apply ret_effect|].
  apply bind_effect; [|intros _; apply ret_effect]. apply exec_effect. intros o Hc Hc'. split; try done; simpl.
  - intros v Hv. right. by exists v.
  - intros x Hx. unfold physical_places in *. simpl. rewrite map_app. apply elem_of_app. by left.
  - intros x Hx _. apply elem_of_app. by left.
Qed.

Lemma verify_hot_effect cid node receipt now :
  t_keeps (store_effect u) (update_physicals (unverified_hot cid) (set_verified node receipt now) : Txn Db Z).
Proof.
  apply bind_effect; [apply reads_effect|]. intros n. apply bind_effect; [|intros _; apply ret_effect].
  apply exec_effect. intros o Hc Hc'. split; try done; simpl.
  - intros v Hv. right. by exists v.
  - intros x (p & -> & Hp)%list_elem_of_fmap. apply list_elem_of_fmap.
    exists (if decide (unverified_hot cid p) then set_verified node receipt now p else p).
    split; [by case_decide|]. apply elem_of_update_where. by exists p.
  - intros p Hp Ht. apply elem_of_update_where. exists p. split; [done|]. rewrite decide_False; [done|].
    intros (Hh & _). congruence.
Qed.
End statements.

(** ** Operations *)

Create HintDb store.
#[export] Hint Resolve reads_effect ret_effect lift_effect err_effect update_buckets_effect update_objects_effect
  insert_object_effect delete_versions_effect insert_physical_effect verify_hot_effect : store.

(** Walk through a transaction of the store, leaving the statements that the hints do not know. *)
Ltac store_walk :=
  repeat first [progress intros | match goal with
    | |- t_keeps _ (tx_bind _ _) => apply bind_effect
    | |- t_keeps _ (fun db => map_err _ (_ db)) => apply map_err_effect
    | |- t_keeps _ (if ?b then _ else _) => destruct b eqn:?
    | |- t_keeps _ (let '(_, _) := ?x in _) => destruct x eqn:?
    | |- t_keeps _ (match ?x with _ => _ end) => destruct x eqn:?
    | |- t_keeps _ _ => solve [eauto 3 with store typeclass_instances]
    end].

Section operations.
Context `{Uuid} `{OwnershipGranted} (u : string).

(** What another table of the ownership does leaves these tables alone. *)
Lemma granted_effect {A} (m : Tx A) : (forall db a db', m db = Ok (a, db') -> db' = db) -> t_keeps (store_effect u) (m : Txn Db A).
Proof. intros Hm o a o' ->%Hm. done. Qed.

Lemma verify_ticket_effect b k : t_keeps (store_effect u) (verify_standard_mutation_guard b k : Txn Db unit).
Proof. apply granted_effect. intros db x db'. rewrite granted_verify. by intros [= _ <-]. Qed.
Lemma complete_ticket_effect now : t_keeps (store_effect u) (complete_standard_mutation now : Txn Db unit).
Proof. apply granted_effect. intros db x db'. rewrite granted_complete. by intros [= _ <-]. Qed.
Lemma publication_frontier_effect id : t_keeps (store_effect u) (lock_publication_lifecycle_frontier id : Txn Db unit).
Proof. apply granted_effect. intros db x db'. rewrite granted_frontier. by intros [= _ <-]. Qed.
Lemma end_leases_effect id now : t_keeps (store_effect u) (end_active_leases_for_object id now : Txn Db unit).
Proof. apply granted_effect. intros db x db'. rewrite granted_leases. by intros [= _ <-]. Qed.
Lemma clear_tags_effect id : t_keeps (store_effect u) (clear_object_tags id : Txn Db unit).
Proof. apply granted_effect. intros db x db'. rewrite granted_tags. by intros [= _ <-]. Qed.
#[local] Hint Resolve verify_ticket_effect complete_ticket_effect publication_frontier_effect end_leases_effect
  clear_tags_effect : store.

Lemma lock_bucket_effect b : t_keeps (store_effect u) (lock_bucket_row_for_ownership b : Txn Db unit).
Proof. unfold lock_bucket_row_for_ownership. store_walk. Qed.
Lemma versioning_state_effect b : t_keeps (store_effect u) (get_versioning_state b : Txn Db _).
Proof. unfold get_versioning_state, bucket_get. store_walk. Qed.
#[local] Hint Resolve lock_bucket_effect versioning_state_effect : store.

Lemma set_only_latest_effect b k id : t_keeps (store_effect u) (set_only_latest b k id : Txn Db unit).
Proof. unfold set_only_latest, get_by_id. store_walk. Qed.
Lemma resolved_row_effect row validate : t_keeps (store_effect u) (resolved_from_row row validate : Txn Db _).
Proof. unfold resolved_from_row, get_by_id. store_walk. Qed.
Lemma one_version_effect b k s : t_keeps (store_effect u) (one_version b k s : Txn Db _).
Proof. unfold one_version. store_walk. Qed.
#[local] Hint Resolve set_only_latest_effect resolved_row_effect one_version_effect : store.
Lemma lock_indexed_effect b k id : t_keeps (store_effect u) (lock_indexed_version b k id : Txn Db _).
Proof. unfold lock_indexed_version. store_walk. Qed.
#[local] Hint Resolve lock_indexed_effect : store.

Lemma release_reference_effect id : t_keeps (store_effect u) (release_version_reference_in_transaction id : Txn Db bool).
Proof.
  unfold release_version_reference_in_transaction. store_walk. apply delete_references_effect. by intros r (-> & _).
Qed.
#[local] Hint Resolve release_reference_effect : store.

Lemma demote_current_effect b k now : t_keeps (store_effect u) (demote_current_version b k now : Txn Db unit).
Proof. unfold demote_current_version. store_walk. by apply update_versions_effect. Qed.
Lemma remove_null_effect b k : t_keeps (store_effect u) (remove_null_slot b k : Txn Db unit).
Proof. unfold remove_null_slot. store_walk. Qed.
#[local] Hint Resolve demote_current_effect remove_null_effect : store.

Lemma attach_hot_effect i v now : t_keeps (store_effect u) (attach_hot_in_transaction i v now : Txn Db _).
Proof.
  unfold attach_hot_in_transaction, lock_and_validate_version, attach_physical_hot, mark_physical_verified, resolve_version_residency.
  store_walk; [by apply insert_residency_effect|by apply insert_reference_effect..].
Qed.
#[local] Hint Resolve attach_hot_effect : store.

Lemma insert_row_effect clock b k id kind o n now :
  t_keeps (store_effect u) (insert_version_row u clock b k id kind o n now : Txn Db unit).
Proof. unfold insert_version_row. store_walk; by apply insert_version_effect. Qed.
Lemma prepare_install_effect p s b k now : t_keeps (store_effect u) (prepare_install p s b k now : Txn Db _).
Proof. unfold prepare_install, lock_current_row, allocate_next_sequence. store_walk. Qed.
#[local] Hint Resolve insert_row_effect prepare_install_effect : store.

Lemma install_content_effect p clock s o now : t_keeps (store_effect u) (install_content_version p u clock s o now : Txn Db _).
Proof. unfold install_content_version. store_walk. Qed.
Lemma install_marker_effect p clock s b k now : t_keeps (store_effect u) (install_delete_marker p u clock s b k now : Txn Db _).
Proof. unfold install_delete_marker. store_walk. Qed.
#[local] Hint Resolve install_content_effect install_marker_effect : store.

Lemma release_resolved_effect r m now : t_keeps (store_effect u) (release_resolved r m now : Txn Db unit).
Proof. unfold release_resolved, lock_object_by_id, release_object. store_walk. Qed.
Lemma remove_and_promote_effect clock v : t_keeps (store_effect u) (remove_and_promote clock v : Txn Db _).
Proof. unfold remove_and_promote, lock_version_by_id. store_walk; by apply update_versions_effect. Qed.
#[local] Hint Resolve release_resolved_effect remove_and_promote_effect : store.

Lemma put_effect p clock now row : t_keeps (store_effect u) (publish p u clock now row : Txn Db _).
Proof.
  unfold publish, lock_versioning_state, write_object_version_and_update_lifecycle, lock_current_object_projection,
    lock_null_object_id, insert_immutable_in_transaction, get_by_id.
  store_walk.
Qed.

Lemma delete_attempt_effect p clock b k s now : t_keeps (store_effect u) (delete_version_attempt p u clock b k s now : Txn Db _).
Proof.
  unfold delete_version_attempt, lock_current_row, delete_unversioned_current_core, delete_enabled_current_in_transaction,
    delete_suspended_current_core, delete_exact_core, lock_current_object_projection, release_object, allocate_next_sequence.
  store_walk.
Qed.

Lemma create_bucket_effect clock name owner : t_keeps (store_effect u) (bucket_create clock name owner : Txn Db unit).
Proof.
  unfold bucket_create. apply bind_effect; [apply reads_effect|]. intros [|]; [apply err_effect|].
  apply map_err_effect, (buckets_effect u (fun db => buckets db ++ _)).
Qed.
Lemma set_versioning_effect b s : t_keeps (store_effect u) (set_versioning_state b s : Txn Db unit).
Proof. unfold set_versioning_state, lock_versioning_state. store_walk. Qed.

(** Verifying a hot copy *)
Lemma mark_hot_verified_effect i node receipt clock :
  t_keeps (store_effect u) (mark_hot_verified_in_transaction i node receipt clock : Txn Db bool).
Proof. unfold mark_hot_verified_in_transaction, lock_and_validate_version. store_walk. Qed.
Lemma sole_marker_effect selected : t_keeps (store_effect u) (delete_current_sole_marker selected : Txn Db _).
Proof. unfold delete_current_sole_marker. store_walk. Qed.
End operations.

(** A step of the store adds at most one row, whose identifier no row had. *)
Lemma step_effect `{UuidLaws} `{OwnershipGranted} o o' :
  step o o' -> exists u, (u ∉ map v_id (versions o)) /\ u <> EmptyString /\ store_effect u o o'.
Proof.
  assert (forall p u b k, Fresh p u b k o -> u ∉ map v_id (versions o)) as Hfresh.
  { intros p u b k Hf (v & -> & Hv)%list_elem_of_fmap. by destruct (fresh_unused _ _ _ _ _ Hf v Hv). }
  set (u0 := fresh (EmptyString :: map v_id (versions o))).
  assert (u0 ∉ EmptyString :: map v_id (versions o)) as [Hne Hnew]%not_elem_of_cons by apply infinite_is_fresh.
  destruct 1 as [clock name owner o' E|b s o' E|p u clock now row r o' Hf _ _ _ E|p u clock now b k s r o' Hf _ E|s r o' _ E].
  - exists u0. split; [done|]. split; [done|]. by eapply create_bucket_effect.
  - exists u0. split; [done|]. split; [done|]. by eapply set_versioning_effect.
  - exists u. split; [by eapply Hfresh|]. split; [apply Hf|]. by eapply put_effect.
  - exists u. split; [by eapply Hfresh|]. split; [apply Hf|]. by eapply delete_attempt_effect.
  - exists u0. split; [done|]. split; [done|]. by eapply sole_marker_effect.
Qed.
