(* ===== verification/TransitionSystem.v ===== *)
(** * Transitions over time

    Histories of the whole store: the queue of lifecycle actions, the transactions of the sagas, and the
    publications and deletions of versions, in any order.  The invariant says which references a saga
    holds at each checkpoint, how its settlement goes with its action, and that every version whose
    primary copy is cold has a verified one. *)

From Stdlib Require Import ZArith Lia Ascii.
From Stdlib Require String.
From stdpp Require Import base list strings pretty sorting gmap.
From S2P Require Import Prelude Errors Chrono VersionModel LifecycleModel LifecycleConfig LifecycleEval Database Transaction.
From S2P Require Import ObjectStore ResidencyStore VersionStore VersionSpec VersionReads Publication VersionSystem StoreEffects.
From S2P Require Import ImportDb Ownership LifecycleActions LifecycleQueue Revalidation Transitions TransitionRuns.

#[local] Open Scope string_scope.
#[local] Open Scope list_scope.
#[local] Open Scope Z_scope.
#[local] Open Scope rust_scope.

(** ** Histories *)

(** The tables, the claims handed out so far, and the identifiers of actions and sagas and of version
    rows used so far *)
Record World : Type := {
  w_db : WorkerDb;
  w_issued : list ClaimedLifecycleAction;
  w_used : gset string;
  w_rows : gset string
}.

Definition queue_of (w : World) : Queue :=
  {| q_db := wd_lifecycle (w_db w); q_issued := w_issued w; q_used := w_used w |}.

Definition with_queue (q : Queue) (w : World) : World :=
  {| w_db := set_lifecycle (q_db q) (w_db w); w_issued := q_issued q; w_used := q_used q; w_rows := w_rows w |}.
Definition with_worker_db (db : WorkerDb) (w : World) : World :=
  {| w_db := db; w_issued := w_issued w; w_used := w_used w; w_rows := w_rows w |}.
Definition row_ids (o : Db) : gset string := list_to_set (map v_id (versions o)).

Section system.
Context `{Chrono} `{ActionCodec} `{UuidLaws} `{OwnershipGranted} `{TransitionCodec}.

(** One committed transaction.  Workers act with the claims they were given; identifiers are fresh, and
    clocks, configurations, tags and the outcome of locking leases are arbitrary.  A step of the queue
    cannot break a key that refers to it.  Other tables change at any time, and other code draws
    identifiers. *)
Inductive world_step (w : World) : World -> Prop :=
| ws_queue q' :
  queue_step (queue_of w) q' -> ld_sagas (q_db q') = sagas (w_db w) -> saga_constraints (set_lifecycle (q_db q') (w_db w)) ->
  world_step w (with_queue q' w)
| ws_objects o' :
  step (wd_objects (w_db w)) o' ->
  (forall v, v ∈ versions o' -> v_id v ∉ row_ids (wd_objects (w_db w)) -> v_id v ∉ w_rows w) ->
  world_step w {| w_db := set_worker_objects o' (w_db w); w_issued := w_issued w; w_used := w_used w;
                  w_rows := row_ids o' ∪ w_rows w |}
| ws_verify_hot identity node receipt clock b db' :
  on_objects (mark_hot_verified_in_transaction identity node receipt clock) (w_db w) = Ok (b, db') ->
  world_step w (with_worker_db db' w)
| ws_others configs tags uploads used rows :
  w_used w ⊆ used -> w_rows w ⊆ rows ->
  world_step w {| w_db := {| wd_lifecycle := wd_lifecycle (w_db w); wd_objects := wd_objects (w_db w);
                             wd_configs := configs; wd_tags := tags; wd_uploads := uploads |};
                  w_issued := w_issued w; w_used := used; w_rows := rows |}
| ws_prepare claim guard source_node destination_node saga_id leases c r db' :
  (claim ∈ w_issued w) -> saga_id ∉ w_used w ->
  prepare claim guard source_node destination_node saga_id leases c (w_db w) = Ok (r, db') ->
  world_step w {| w_db := db'; w_issued := w_issued w; w_used := {[saga_id]} ∪ w_used w; w_rows := w_rows w |}
| ws_copy claim saga leases c r db' :
  (claim ∈ w_issued w) -> record_copy claim saga leases c (w_db w) = Ok (r, db') -> world_step w (with_worker_db db' w)
| ws_verified claim saga receipt leases c r db' :
  (claim ∈ w_issued w) -> record_verified claim saga receipt leases c (w_db w) = Ok (r, db') ->
  world_step w (with_worker_db db' w)
| ws_publish claim guard receipt leases c r db' :
  (claim ∈ w_issued w) -> Transitions.publish claim guard receipt leases c (w_db w) = Ok (r, db') ->
  world_step w (with_worker_db db' w)
| ws_cleanup claim guard saga leases c r db' :
  (claim ∈ w_issued w) -> cleanup claim guard saga leases c (w_db w) = Ok (r, db') -> world_step w (with_worker_db db' w)
| ws_settle claim guard saga class diagnostic leases c r db' :
  (claim ∈ w_issued w) -> settle_unpublished claim guard saga class diagnostic leases c (w_db w) = Ok (r, db') ->
  world_step w (with_worker_db db' w)
| ws_retry claim guard base max class leases c r db' :
  (claim ∈ w_issued w) -> settle_retry claim guard base max class leases c (w_db w) = Ok (r, db') ->
  world_step w (with_worker_db db' w)
| ws_delete id b db' :
  delete_settled_in_transaction id (w_db w) = Ok (b, db') -> world_step w (with_worker_db db' w).

(** An empty store *)
Definition empty_world (imports : ImportDb) : World :=
  {| w_db := {| wd_lifecycle := {| ld_imports := imports; ld_actions := ∅; ld_sagas := ∅ |}; wd_objects := empty_db;
                wd_configs := ∅; wd_tags := ∅; wd_uploads := {| up_uploads := ∅; up_parts := ∅ |} |};
     w_issued := []; w_used := ∅; w_rows := ∅ |}.

Definition reachable_world (w : World) : Prop := exists imports, rtc world_step (empty_world imports) w.
End system.

(** ** Holds *)

(** The references that a saga holds: its source while it copies, both copies once it may write the
    second one, and the old copy again until the publication is cleaned up *)
Definition required_holds (s : TransitionSaga) : list (ReferenceReason * KuboTier) :=
  if unsettled s then
    if in_checkpoint ["prepare"] s then [(TransitionStaging, Hot)]
    else if in_checkpoint ["copy"; "verify"] s then [(TransitionStaging, Hot); (TransitionStaging, Cold)]
    else if in_checkpoint ["publish"] s then [(TransitionCleanupHold, Hot)] else []
  else [].

Definition target_alive (s : TransitionSaga) (o : Db) : Prop :=
  ss_target_version_row_id (ts_snapshot s) ∈ map v_id (versions o).

(** The references of a saga are the ones it requires, and those are there while its version is. *)
Definition holds_exactly (s : TransitionSaga) (alive : Prop) (refs : list ReferenceRow) : Prop :=
  (forall r, r ∈ refs -> held_by (ts_id s) r ->
     exists reason tier now, ((reason, tier) ∈ required_holds s) /\ r = hold_row s reason tier now)
  /\ (alive -> forall reason tier, (reason, tier) ∈ required_holds s -> exists now, hold_row s reason tier now ∈ refs).

(** The same saga at another checkpoint *)
Definition same_saga (s s' : TransitionSaga) : Prop := ts_id s' = ts_id s /\ ts_snapshot s' = ts_snapshot s.

Definition checkpoint_rank (s : TransitionSaga) : Z :=
  if in_checkpoint ["prepare"] s then 0 else if in_checkpoint ["copy"] s then 1
  else if in_checkpoint ["verify"] s then 2 else if in_checkpoint ["publish"] s then 3 else 4.

(** An open saga goes on, and what it published stays. *)
Definition advances (s s' : TransitionSaga) : Prop :=
  same_saga s s' /\ ts_created_at s' = ts_created_at s /\ ts_settlement_kind s = None
  /\ checkpoint_rank s <= checkpoint_rank s'
  /\ (is_Some (ts_publication_receipt s) -> ts_publication_receipt s' = ts_publication_receipt s).

Lemma hold_row_same s s' reason tier now : same_saga s s' -> hold_row s' reason tier now = hold_row s reason tier now.
Proof. intros [Hi Hn]. unfold hold_row. by rewrite Hi, Hn. Qed.

Lemma hold_row_held s reason tier now : held_by (ts_id s) (hold_row s reason tier now).
Proof. done. Qed.

Lemma reason_inj r1 r2 : reason_as_db_str r1 = reason_as_db_str r2 -> r1 = r2.
Proof. by destruct r1, r2. Qed.
Lemma tier_inj t1 t2 : tier_as_db_str t1 = tier_as_db_str t2 -> t1 = t2.
Proof. by destruct t1, t2. Qed.

Lemma holds_exactly_refs s alive refs refs' :
  (forall r, held_by (ts_id s) r -> r ∈ refs' <-> r ∈ refs) -> holds_exactly s alive refs -> holds_exactly s alive refs'.
Proof.
  intros Hr [H1 H2]. split; [intros r Hin Hh; by apply H1; [apply Hr|]|].
  intros Ha reason tier Hreq. destruct (H2 Ha reason tier Hreq) as [now Hin]. exists now. by apply Hr.
Qed.

(** A hold that is added, or that the saga already had, at the checkpoint that requires it *)
Lemma holds_exactly_added s s' alive refs refs' reason tier now :
  same_saga s s' -> holds_exactly s alive refs -> reference_added (hold_row s reason tier now) refs refs' ->
  (forall x, x ∈ required_holds s' <-> x = (reason, tier) \/ x ∈ required_holds s) -> holds_exactly s' alive refs'.
Proof.
  intros Hs [H1 H2] Hadd Hreq. unfold holds_exactly. setoid_rewrite (hold_row_same s s' _ _ _ Hs). destruct Hs as [-> _].
  assert (forall r, r ∈ refs -> r ∈ refs') as Hsub by (destruct Hadd as [[-> _]|[-> _]]; set_solver).
  split.
  - intros r Hin Hh. assert (r = hold_row s reason tier now \/ r ∈ refs) as [->|Hr] by (destruct Hadd as [[-> _]|[-> _]]; set_solver).
    + exists reason, tier, now. split; [|done]. apply Hreq. by left.
    + destruct (H1 r Hr Hh) as (a & t & n & Ha & ->). exists a, t, n. split; [|done]. apply Hreq. by right.
  - intros Ha a t [[= -> ->]|Hx]%Hreq.
    + destruct Hadd as [[-> _]|[-> (r & Hk & Hr)%list_elem_of_fmap]]; [exists now; set_solver|].
      unfold reference_key in Hk. simpl in Hk. injection Hk as K1 K2 K3 K4 K5.
      destruct (H1 r Hr) as (a & t & n & _ & ->); [done|]. simpl in *. apply reason_inj in K3 as ->. apply tier_inj in K4 as ->.
      by exists n.
    + destruct (H2 Ha a t Hx) as [n Hn]. exists n. by apply Hsub.
Qed.

Lemma holds_exactly_settled s alive refs :
  ts_settlement_kind s <> None -> (forall r, r ∈ refs -> ~ held_by (ts_id s) r) -> holds_exactly s alive refs.
Proof.
  intros Hs Hn. assert (required_holds s = []) as Hreq
    by (unfold required_holds, unsettled; destruct (ts_settlement_kind s); done).
  split; [intros r Hr Hh; by apply Hn in Hr|]. intros _ reason tier. rewrite Hreq. by intros ?%elem_of_nil.
Qed.

(** ** The invariant *)

(** The verified copy behind a version whose primary copy is cold *)
Definition cold_copy_proven `{TransitionCodec} (o : Db) (cid : string) : Prop :=
  exists p receipt json, find_physical "cold" cid o = Some p /\ proven_copy receipt json p
    /\ tier_receipt_json receipt = Some json /\ tc_cid receipt = cid.

(** How the settlement of a saga goes with its action *)
Definition settled_with (s : TransitionSaga) (action : option LifecycleAction) : Prop :=
  exists a, action = Some a /\ LifecycleQueue.settled a /\ is_Some (la_finished_at a)
    /\ expected_action_state s = Some (la_state a).

Record world_inv `{UuidLaws} `{TransitionCodec} (w : World) : Prop := {
  wi_safe : Safe (wd_objects (w_db w));
  wi_sagas : saga_constraints (w_db w);
  wi_queue : queue_inv (queue_of w);
  wi_rows v : v ∈ versions (wd_objects (w_db w)) -> v_id v ∈ w_rows w;
  wi_named v : v ∈ versions (wd_objects (w_db w)) -> v_id v <> EmptyString;
  wi_ids i s : sagas (w_db w) !! i = Some s -> ts_id s <> EmptyString /\ (ts_id s ∈ w_used w) /\ actions (w_db w) !! ts_id s = None;
  wi_actions i s a : sagas (w_db w) !! i = Some s -> actions (w_db w) !! i = Some a -> of_action (la_columns a) s;
  wi_targets i s : sagas (w_db w) !! i = Some s -> ss_target_version_row_id (ts_snapshot s) ∈ w_rows w;
  wi_owners r : r ∈ references (wd_objects (w_db w)) -> ref_owner_kind r = OWNER_TRANSITION ->
    exists i s, sagas (w_db w) !! i = Some s /\ ts_id s = ref_owner_id r;
  wi_holds i s : sagas (w_db w) !! i = Some s ->
    holds_exactly s (target_alive s (wd_objects (w_db w))) (references (wd_objects (w_db w)));
  wi_settled i s : sagas (w_db w) !! i = Some s -> ts_settlement_kind s <> None -> settled_with s (actions (w_db w) !! i);
  wi_cold r : r ∈ residencies (wd_objects (w_db w)) -> r_primary_tier r = "cold" -> cold_copy_proven (wd_objects (w_db w)) (r_cid r)
}.

(** *** The queue *)

(** An identifier that is used and has no row never gets one. *)
Lemma row_steps_absent q q' id :
  rtc row_step q q' -> id ∈ q_used q -> ld_actions (q_db q) !! id = None -> (id ∈ q_used q') /\ ld_actions (q_db q') !! id = None.
Proof.
  induction 1 as [|x y z Hs _ IH]; [done|]. intros Hu Hn.
  apply IH; (destruct Hs as [i a sg im Hid _ _|wk m now lease i r db' _ [_ He]|claim db' Hc [_ He]|bucket|db' issued used Ha _ Hused];
    cbn [with_db q_db q_used ld_actions without_bucket set_actions] in *); try done; try set_solver.
  - apply lookup_insert_None. split; [done|]. by intros ->.
  - destruct He as [[_ ->]|[(a & class & error & _ & Ha & _ & _ & ->)|(a & a' & Ha & _ & _ & _ & _ & ->)]]; [done| |];
      (apply lookup_insert_None; split; [done|]; intros ->; congruence).
  - destruct He as [->|(a & a' & Ha & _ & _ & ->)]; [done|]. apply lookup_insert_None. split; [done|]. intros E. congruence.
  - apply map_lookup_filter_None. by left.
  - by rewrite Ha.
Qed.

Lemma row_steps_settled q q' id a :
  queue_inv q -> rtc row_step q q' -> ld_actions (q_db q) !! id = Some a -> LifecycleQueue.settled a ->
  is_Some (ld_actions (q_db q') !! id) -> ld_actions (q_db q') !! id = Some a.
Proof.
  intros Hq Hr Ha Hs [x Hx]. assert (kept id a q) as Hk by (split; [by apply (qi_rows q Hq id a)|congruence]).
  assert (kept id a q') as [_ Hk'].
  { clear Hq Ha. induction Hr as [|y z t Hst _ IH]; [done|]. by apply IH, (row_step_kept id a y). }
  by rewrite Hx, (Hk' x).
Qed.

(** The columns of a row never change. *)
Lemma row_steps_columns q q' id a a' :
  queue_inv q -> rtc row_step q q' -> ld_actions (q_db q) !! id = Some a -> ld_actions (q_db q') !! id = Some a' ->
  la_columns a' = la_columns a.
Proof.
  intros Hq Hr Ha. pose proof (qi_rows q Hq id a Ha) as Hu.
  assert (forall x, ld_actions (q_db q) !! id = Some x -> la_columns x = la_columns a) as Hk by (intros x Hx; congruence).
  clear Hq Ha. revert a' Hu Hk. induction Hr as [|x y z Hs _ IH]; [auto|]. intros a' Hu Hk. apply IH.
  - destruct Hs; cbn [with_db q_used]; set_solver.
  - destruct Hs as [i r sg im Hid _ _|wk m now lease i r db' _ [_ He]|claim db' Hc [_ He]|bucket|db' issued used Hsame _ _];
      cbn [with_db q_db ld_actions without_bucket set_actions].
    + intros b [[-> _]|[_ Hx]]%lookup_insert_Some; [done|by apply Hk].
    + destruct He as [[_ ->]|[(b & class & error & _ & Hb & _ & _ & ->)|(b & b' & Hb & _ & _ & Hg & _ & ->)]]; [done| |];
        (intros t [[-> <-]|[_ Hx]]%lookup_insert_Some; [|by apply Hk]); [by apply (Hk b)|].
      rewrite (gr_columns _ _ _ _ _ _ Hg). by apply Hk.
    + destruct He as [->|(b & b' & Hb & _ & Hup & ->)]; [done|].
      intros t [[E <-]|[_ Hx]]%lookup_insert_Some; [|by apply Hk]. rewrite (worker_update_columns _ _ _ Hup). apply Hk. by rewrite <- E.
    + intros t [Hx _]%map_lookup_filter_Some. by apply Hk.
    + by rewrite Hsame.
Qed.

Lemma of_action_kept q q' i s a' :
  queue_inv q -> rtc row_step q q' -> is_Some (ld_actions (q_db q) !! i) -> ld_actions (q_db q') !! i = Some a' ->
  (forall a, ld_actions (q_db q) !! i = Some a -> of_action (la_columns a) s) -> of_action (la_columns a') s.
Proof. intros Hq Hr [a Ha] Ha' Hof. rewrite (row_steps_columns q q' i a a') by done. by apply Hof. Qed.

Section invariant.
Context `{Chrono} `{ActionCodec} `{UuidLaws} `{OwnershipGranted} `{TransitionCodec}.

Lemma constraints_of w : world_inv w -> constraints (wd_objects (w_db w)).
Proof. intros Hi. destruct (wi_safe w Hi) as [Hinv _]. apply (inv_constraints _ Hinv). Qed.

(** An action with a settled saga has no acting claim. *)
Lemma acting_unsettled w claim s :
  world_inv w -> acting claim (w_db w) -> sagas (w_db w) !! cl_id claim = Some s -> ts_settlement_kind s = None.
Proof.
  intros Hi (a & Ha & Hact) Hs. destruct (ts_settlement_kind s) as [k|] eqn:E; [|done].
  destruct (wi_settled w Hi _ s Hs) as (x & Hx & Hset & _); [congruence|]. rewrite Ha in Hx. injection Hx as <-.
  by rewrite settled_not_active in Hact.
Qed.

(** The whole of the invariant that the queue carries *)
Lemma settled_with_kept q q' i s :
  queue_inv q -> rtc row_step q q' -> is_Some (ld_actions (q_db q') !! i) ->
  settled_with s (ld_actions (q_db q) !! i) -> settled_with s (ld_actions (q_db q') !! i).
Proof.
  intros Hq Hr Hp (a & Ha & Hs & Hf & He). exists a. split; [|done]. by apply (row_steps_settled q).
Qed.

(** A transaction that changes the queue, and neither sagas nor objects *)
Lemma queue_change_inv w w' :
  world_inv w -> rtc row_step (queue_of w) (queue_of w') -> sagas (w_db w') = sagas (w_db w) ->
  wd_objects (w_db w') = wd_objects (w_db w) -> w_rows w ⊆ w_rows w' -> saga_constraints (w_db w') -> world_inv w'.
Proof.
  intros Hi Hr Hs Ho Hw Hc. split; rewrite ?Hs, ?Ho; try apply Hi; [done|by eapply row_steps_inv; [apply Hi|]| | | | |].
  - intros v Hv. by apply Hw, (wi_rows w Hi).
  - intros i s Hsaga. destruct (wi_ids w Hi i s Hsaga) as (Hne & Hu & Hn). split; [done|]. by apply (row_steps_absent _ _ _ Hr).
  - intros i s a Hsaga Ha. eapply (of_action_kept (queue_of w) (queue_of w')); [apply Hi|done| |done|intros x Hx; by apply (wi_actions w Hi i)].
    destruct (wi_sagas w Hi) as (_ & _ & Hfk & _). by apply (Hfk i s).
  - intros i s Hsaga. by apply Hw, (wi_targets w Hi i s).
  - intros i s Hsaga Hset. eapply (settled_with_kept (queue_of w) (queue_of w')); [apply Hi|done| |by apply (wi_settled w Hi)].
    destruct Hc as (_ & _ & Hfk & _). apply (Hfk i s). by rewrite Hs.
Qed.

(** A verified cold copy stays one. *)
Lemma cold_copy_kept o o' cid :
  constraints o -> constraints o' ->
  (forall p, p ∈ physicals o -> p_tier p = "cold" -> p_verification_state p = "verified" -> p ∈ physicals o') ->
  cold_copy_proven o cid -> cold_copy_proven o' cid.
Proof.
  intros Hc Hc' Hk (p & receipt & json & Hp & Hproven & Hj). exists p, receipt, json. split; [|done].
  apply (find_physical_ok o Hc) in Hp as (Hp & Ht & Hcid). apply (find_physical_ok o' Hc'). split; [|done].
  apply Hk; [done|done|apply Hproven].
Qed.

(** A transaction of the version store *)
Lemma objects_change_inv w o' rows u :
  world_inv w -> Safe o' -> store_kept u (wd_objects (w_db w)) o' ->
  (forall v, v ∈ versions o' -> v_id v = u -> u ∉ w_rows w) -> w_rows w ⊆ rows -> (forall v, v ∈ versions o' -> v_id v ∈ rows) -> u <> EmptyString ->
  world_inv {| w_db := set_worker_objects o' (w_db w); w_issued := w_issued w; w_used := w_used w; w_rows := rows |}.
Proof.
  intros Hi Hsafe K Hu Hsub Hrows Hnonempty. split; try apply Hi; try done.
  - apply saga_constraints_objects; [apply (sk_places _ _ _ K)|apply Hi].
  - intros v [->|(v0 & Hv0 & <- & _)]%(sk_versions _ _ _ K); [done|]. by apply (wi_named w Hi).
  - intros i s Hs. apply Hsub. by apply (wi_targets w Hi i s).
  - intros r Hr Ht. apply (wi_owners w Hi); [|done]. by apply (sk_holds_old _ _ _ K).
  - intros i s Hs. destruct (wi_holds w Hi i s Hs) as [H1' H2']. split.
    + intros r Hr Hh. apply H1'; [|done]. apply (sk_holds_old _ _ _ K); [done|apply Hh].
    + intros Halive reason tier Hreq. pose proof Halive as (v & Ev & Hv)%list_elem_of_fmap.
      assert (v_id v <> u) as Hne by (intros E; apply (Hu v Hv E); rewrite <- E, <- Ev; by apply (wi_targets w Hi i s)).
      destruct H2' with reason tier as [now Hin]; [|done|].
      * destruct (sk_versions _ _ _ K v Hv) as [?|(v0 & Hv0 & E0 & _)]; [done|]. unfold target_alive.
        rewrite Ev, <- E0. by apply list_elem_of_fmap_2.
      * exists now. apply (sk_holds_kept _ _ _ K); [done|done|by simpl; rewrite Ev|done].
  - intros r Hr Ht. apply (cold_copy_kept (wd_objects (w_db w))); [by apply constraints_of|apply (sk_constraints _ _ _ K)| |].
    + intros p Hp Hpt _. by apply (sk_cold_copies _ _ _ K).
    + apply (wi_cold w Hi); [|done]. by apply (sk_cold_residencies _ _ _ K).
Qed.

(** *** Sagas *)

(** What a transaction of a saga does: the row [i] becomes [s'], the references of that saga are the ones
    [s'] requires, and everything else stays but the queue, which its claim may act on. *)
Record saga_change (w w' : World) (i : string) (s' : TransitionSaga) : Prop := {
  sc_sagas : sagas (w_db w') = <[i := s']> (sagas (w_db w));
  sc_advances s : sagas (w_db w) !! i = Some s -> advances s s';
  sc_acting : exists a, actions (w_db w) !! i = Some a /\ ~ LifecycleQueue.settled a;
  sc_queue : rtc row_step (queue_of w) (queue_of w');
  sc_rows : w_rows w' = w_rows w;
  sc_objects : objects_kept (wd_objects (w_db w)) (wd_objects (w_db w'));
  sc_constraints : constraints (wd_objects (w_db w')) /\ saga_constraints (w_db w');
  sc_actions a : actions (w_db w') !! i = Some a -> of_action (la_columns a) s';
  sc_id : ts_id s' <> EmptyString /\ (ts_id s' ∈ w_used w') /\ actions (w_db w') !! ts_id s' = None;
  sc_target : ss_target_version_row_id (ts_snapshot s') ∈ w_rows w;
  sc_others r : ref_owner_kind r = OWNER_TRANSITION -> ref_owner_id r <> ts_id s' ->
    r ∈ references (wd_objects (w_db w')) <-> r ∈ references (wd_objects (w_db w));
  sc_holds : holds_exactly s' (target_alive s' (wd_objects (w_db w'))) (references (wd_objects (w_db w')));
  sc_settled : ts_settlement_kind s' <> None -> settled_with s' (actions (w_db w') !! i);
  sc_residencies r : r ∈ residencies (wd_objects (w_db w)) ->
    exists r', r' ∈ residencies (wd_objects (w_db w')) /\ r_version_row_id r' = r_version_row_id r;
  sc_cold r : r ∈ residencies (wd_objects (w_db w')) -> r_primary_tier r = "cold" ->
    cold_copy_proven (wd_objects (w_db w')) (r_cid r)
}.

Lemma safe_kept o o' :
  Safe o -> objects_kept o o' -> constraints o' ->
  (forall r, r ∈ residencies o -> exists r', r' ∈ residencies o' /\ r_version_row_id r' = r_version_row_id r) -> Safe o'.
Proof.
  intros [[] Hn] (Hb & Ho & Hv) Hc Hr. split; [|intros b v; rewrite Hb, Hv; apply Hn].
  split; rewrite ?Hv, ?Ho; try done. intros v id Hin Hid.
  destruct (inv_residency v id Hin Hid) as (r & Hrin & <-). by apply Hr.
Qed.

Lemma saga_change_inv w w' i s' : world_inv w -> saga_change w w' i s' -> world_inv w'.
Proof.
  intros Hi C. pose proof (sc_constraints _ _ _ _ C) as [Hc Hs]. pose proof (sc_sagas _ _ _ _ C) as Hsg.
  pose proof (sc_objects _ _ _ _ C) as (Hb & Ho & Hv).
  assert (forall j s, i <> j -> sagas (w_db w) !! j = Some s -> ts_id s <> ts_id s') as Hids.
  { intros j s Hne Hj E. destruct Hs as (_ & Huniq & _). apply Hne.
    apply (Huniq i s') with s; [rewrite Hsg; apply lookup_insert_eq|rewrite Hsg, lookup_insert_ne; done|done]. }
  split; try done.
  - eapply safe_kept; [apply Hi|apply C|done|apply C].
  - eapply row_steps_inv; [apply Hi|apply C].
  - intros v. rewrite (sc_rows _ _ _ _ C), Hv. apply (wi_rows w Hi).
  - intros v. rewrite Hv. apply (wi_named w Hi).
  - intros j s. rewrite Hsg. intros [[-> <-]|[Hne Hj]]%lookup_insert_Some; [apply C|].
    destruct (wi_ids w Hi j s Hj) as (Hne' & Hu & Hn). split; [done|]. by apply (row_steps_absent _ _ _ (sc_queue _ _ _ _ C)).
  - intros j s a. rewrite Hsg. intros [[-> <-]|[Hne Hj]]%lookup_insert_Some Ha; [by apply C|].
    eapply (of_action_kept (queue_of w) (queue_of w')); [apply Hi|apply C| |exact Ha|intros x Hx; by apply (wi_actions w Hi j)].
    destruct (wi_sagas w Hi) as (_ & _ & Hfk & _). by apply (Hfk j s).
  - intros j s. rewrite Hsg, (sc_rows _ _ _ _ C). intros [[-> <-]|[Hne Hj]]%lookup_insert_Some; [apply C|].
    by apply (wi_targets w Hi j).
  - intros r Hr Ht. rewrite Hsg. destruct (decide (ref_owner_id r = ts_id s')) as [E|E].
    { exists i, s'. split; [apply lookup_insert_eq|done]. }
    apply (sc_others _ _ _ _ C) in Hr; [|done..]. destruct (wi_owners w Hi r Hr Ht) as (j & s & Hj & Ej).
    destruct (decide (i = j)) as [->|Hne]; [|exists j, s; by rewrite lookup_insert_ne].
    destruct (sc_advances _ _ _ _ C s Hj) as ([Eid _] & _). congruence.
  - intros j s. rewrite Hsg. intros [[-> <-]|[Hne Hj]]%lookup_insert_Some; [apply C|].
    assert (target_alive s (wd_objects (w_db w')) = target_alive s (wd_objects (w_db w))) as -> by (unfold target_alive; by rewrite Hv).
    eapply holds_exactly_refs; [|by apply (wi_holds w Hi j)]. intros r [Hk Hid]. apply (sc_others _ _ _ _ C); [done|].
    rewrite Hid. by eapply Hids.
  - intros j s. rewrite Hsg. intros [[-> <-]|[Hne Hj]]%lookup_insert_Some; [apply C|]. intros Hset.
    apply (settled_with_kept (queue_of w) (queue_of w')); [apply Hi|apply C| |by apply (wi_settled w Hi)].
    destruct Hs as (_ & _ & Hfk & _). apply (Hfk j s). by rewrite Hsg, lookup_insert_ne.
  - apply C.
Qed.

Lemma acting_not_settled claim db : acting claim db -> exists a, actions db !! cl_id claim = Some a /\ ~ LifecycleQueue.settled a.
Proof. intros (a & Ha & Hact). exists a. split; [done|]. intros Hs. by rewrite settled_not_active in Hact. Qed.

Lemma same_queue w w' :
  actions (w_db w') = actions (w_db w) -> w_issued w' = w_issued w -> w_used w ⊆ w_used w' ->
  rtc row_step (queue_of w) (queue_of w').
Proof. intros Ha Hiss Hu. apply rtc_once. apply (rs_same (queue_of w)); [done|intros c; by rewrite Hiss|done]. Qed.

Lemma added_others s reason tier now refs refs' r :
  reference_added (hold_row s reason tier now) refs refs' -> ref_owner_id r <> ts_id s -> r ∈ refs' <-> r ∈ refs.
Proof.
  intros [[-> _]|[-> _]] Hne; [|done]. rewrite elem_of_app, list_elem_of_singleton. split; [|by left].
  intros [?| ->]; [done|]. by destruct Hne.
Qed.

Lemma hold_alive o s reason tier now : constraints o -> hold_row s reason tier now ∈ references o -> target_alive s o.
Proof.
  intros (_ & _ & _ & _ & _ & (_ & _ & Hown & _)) Hr. rewrite Forall_forall in Hown.
  apply Hown, version_owner_iff in Hr as (v & Hv & Hid & _). unfold target_alive. simpl in Hid. rewrite <- Hid.
  by apply list_elem_of_fmap_2.
Qed.

(** The checkpoints that a saga can be in *)
Lemma saga_open db i s :
  saga_constraints db -> sagas db !! i = Some s -> ts_settlement_kind s = None ->
  match ts_publication_receipt s with
  | None => ts_checkpoint s ∈ ["prepare"; "copy"; "verify"]
  | Some _ => ts_checkpoint s = "publish"
  end.
Proof.
  intros (Hc & _) Hs Hset. destruct (Hc i s Hs) as (_ & _ & _ & _ & _ & _ & _ & _ & _ & _ & _ & _ & _ & _ & _ & Hr & Hk).
  rewrite Hset in Hk. destruct Hk as [(_ & _ & Hnc)|[([=] & _)|([=] & _)]].
  destruct Hr as [(Hcp & _ & ->)|[(-> & _ & ->)|(Hcp & _ & Hp)]]; [set_solver|set_solver|].
  destruct (ts_publication_receipt s); [|done]. apply elem_of_cons in Hcp as [?|?%list_elem_of_singleton]; done.
Qed.

Lemma open_staging db i s :
  saga_constraints db -> sagas db !! i = Some s -> ts_settlement_kind s = None -> ts_publication_receipt s = None ->
  (TransitionStaging, Hot) ∈ required_holds s.
Proof.
  intros Hc Hs Hset Hpub. pose proof (saga_open db i s Hc Hs Hset) as Hcp. rewrite Hpub in Hcp.
  unfold required_holds, unsettled, in_checkpoint. rewrite Hset. simpl.
  repeat (apply elem_of_cons in Hcp as [->|Hcp]; [vm_compute; left|]). by apply elem_of_nil in Hcp.
Qed.

(** Of a saga that is new, no reference is there before. *)
Lemma unused_owner w saga_id r :
  world_inv w -> saga_id ∉ w_used w -> r ∈ references (wd_objects (w_db w)) -> ~ held_by saga_id r.
Proof.
  intros Hi Hu Hr [Hk Hid]. destruct (wi_owners w Hi r Hr Hk) as (j & s & Hj & Ej). apply Hu.
  rewrite <- Hid, <- Ej. by apply (wi_ids w Hi j s).
Qed.

Lemma first_hold_added s reason tier now refs refs' :
  (forall r, r ∈ refs -> ~ held_by (ts_id s) r) -> reference_added (hold_row s reason tier now) refs refs' ->
  refs' = refs ++ [hold_row s reason tier now].
Proof.
  intros Hn [[? _]|[_ (r & Hk & Hr)%list_elem_of_fmap]]; [done|]. exfalso. apply (Hn r Hr).
  unfold reference_key in Hk. simpl in Hk. injection Hk as K1 K2 _ _ _. done.
Qed.

(** The hold of a saga that was just prepared *)
Lemma first_hold_exact s alive now refs :
  (forall r, r ∈ refs -> ~ held_by (ts_id s) r) -> ts_checkpoint s = "prepare" -> ts_settlement_kind s = None ->
  holds_exactly s alive (refs ++ [hold_row s TransitionStaging Hot now]).
Proof.
  intros Hn Hcp Hset. assert (required_holds s = [(TransitionStaging, Hot)]) as Hreq
    by (unfold required_holds, unsettled, in_checkpoint; by rewrite Hset, Hcp).
  unfold holds_exactly. rewrite Hreq. split.
  - intros r [Hr%Hn| ->%list_elem_of_singleton]%elem_of_app Hh; [done|]. eexists _, _, _. split; [apply list_elem_of_here|done].
  - intros _ reason tier [= -> ->]%list_elem_of_singleton. exists now. set_solver.
Qed.

Lemma prepare_change w claim guard sn dn saga_id leases c r db' :
  world_inv w -> claim ∈ w_issued w -> saga_id ∉ w_used w ->
  prepare claim guard sn dn saga_id leases c (w_db w) = Ok (r, db') ->
  let w' := {| w_db := db'; w_issued := w_issued w; w_used := {[saga_id]} ∪ w_used w; w_rows := w_rows w |} in
  db' = w_db w \/ exists s', saga_change w w' (cl_id claim) s'.
Proof.
  intros Hi Hcl Hu E w'. pose proof (constraints_of w Hi) as Hc. pose proof (wi_sagas w Hi) as Hsc.
  apply prepare_effect in E as [->|(s & db1 & refs & _ & Hact & Hdb1 & -> & Hc' & Hid & Hadd)]; [by left| |done|done]. right. exists s.
  assert (wd_objects db1 = wd_objects (w_db w)) as Ho by (destruct Hdb1 as [[-> _]|(_ & _ & -> & _)]; done).
  assert (actions db1 = actions (w_db w)) as Ha by (destruct Hdb1 as [[-> _]|(_ & _ & -> & _)]; done).
  assert (ts_settlement_kind s = None) as Hset.
  { destruct Hdb1 as [(-> & Hs & _)|(_ & (x & _ & Hf) & _)]; [by eapply acting_unsettled|apply Hf]. }
  assert (forall x, x ∈ references (wd_objects db1) <-> x ∈ references (wd_objects (w_db w))) as Hrefs by (by rewrite Ho).
  split; cbn [w' w_db w_issued w_used w_rows set_refs set_worker_objects wd_objects set_references residencies references] in *.
  - destruct Hdb1 as [(-> & Hs & _)|(_ & _ & -> & _)]; [by rewrite insert_id|done].
  - intros s0 Hs0. destruct Hdb1 as [(_ & Hs & _)|(Hn & _)]; [|congruence]. simplify_eq. by split_and!.
  - by apply acting_not_settled.
  - apply same_queue; [by simpl|done|set_solver].
  - done.
  - unfold objects_kept. simpl. by rewrite Ho.
  - split; [done|]. apply saga_constraints_refs. by destruct Hdb1 as [(-> & _)|(_ & _ & _ & ?)].
  - intros a. change (actions (set_refs refs db1)) with (actions db1). rewrite Ha. intros Hx.
    destruct Hdb1 as [(-> & Hs & _)|(_ & (x & Hx' & _ & Hof & _) & _)]; [by apply (wi_actions w Hi (cl_id claim))|].
    rewrite Hx in Hx'. by injection Hx' as <-.
  - change (actions (set_refs refs db1)) with (actions db1). rewrite Ha. split; [done|].
    destruct Hdb1 as [(-> & Hs & _)|(_ & (x & _ & -> & _) & _)].
    + destruct (wi_ids w Hi _ s Hs) as (_ & ? & ?). set_solver.
    + split; [set_solver|]. destruct (actions (w_db w) !! saga_id) as [a|] eqn:Ea; [|done].
      destruct Hu. by apply (qi_rows _ (wi_queue w Hi) saga_id a).
  - destruct Hdb1 as [(-> & Hs & _)|(_ & (x & _ & Eid & _) & _)]; [by apply (wi_targets w Hi (cl_id claim))|].
    assert (target_alive s (wd_objects (w_db w))) as (v & -> & Hv)%list_elem_of_fmap; [|by apply (wi_rows w Hi)].
    rewrite <- Ho. eapply (hold_alive (set_references refs (wd_objects db1))); [done|]. simpl.
    rewrite (first_hold_added _ _ _ _ _ _ ltac:(rewrite Eid; intros y; by apply unused_owner) Hadd). apply elem_of_app. right. left.
  - intros x Hk Hne. by eapply added_others.
  - destruct Hdb1 as [(-> & Hs & Hpub)|(_ & (y & _ & Eid & _ & Hcp & _) & _)].
    + eapply (holds_exactly_added s); [done|by apply (wi_holds w Hi (cl_id claim))|exact Hadd|].
      intros x. split; [by right|]. intros [->|?]; [|done]. by eapply open_staging.
    + rewrite (first_hold_added _ _ _ _ _ _ ltac:(rewrite Eid; intros x; by apply unused_owner) Hadd).
      apply first_hold_exact; [rewrite Eid; intros x; by apply unused_owner|done|done].
  - congruence.
  - intros x Hx. exists x. by rewrite Ho.
  - rewrite Ho in *. intros x Hx Ht. apply (cold_copy_kept (wd_objects (w_db w))); [done..|by apply (wi_cold w Hi)].
Qed.

(** A saga that stays open *)
Lemma checkpoint_change w claim s s' db' :
  world_inv w -> sagas (w_db w) !! cl_id claim = Some s -> acting claim (w_db w) ->
  advances s s' -> ts_settlement_kind s' = None ->
  sagas db' = <[cl_id claim := s']> (sagas (w_db w)) -> actions db' = actions (w_db w) ->
  objects_kept (wd_objects (w_db w)) (wd_objects db') -> constraints (wd_objects db') -> saga_constraints db' ->
  (forall r, ref_owner_kind r = OWNER_TRANSITION -> ref_owner_id r <> ts_id s ->
     r ∈ references (wd_objects db') <-> r ∈ references (wd_objects (w_db w))) ->
  holds_exactly s' (target_alive s (wd_objects (w_db w))) (references (wd_objects db')) ->
  (forall r, r ∈ residencies (wd_objects (w_db w)) ->
     exists r', r' ∈ residencies (wd_objects db') /\ r_version_row_id r' = r_version_row_id r) ->
  (forall r, r ∈ residencies (wd_objects db') -> r_primary_tier r = "cold" -> cold_copy_proven (wd_objects db') (r_cid r)) ->
  saga_change w (with_worker_db db' w) (cl_id claim) s'.
Proof.
  intros Hi Hs Hact Hadv Hset Hsg Ha Hk Hc Hsc Hothers Hholds Hres Hcold. pose proof Hadv as ((Eid & Esn) & _).
  split; cbn [with_worker_db w_db w_used w_rows]; try done.
  - intros x Hx. by simplify_eq.
  - by apply acting_not_settled.
  - by apply same_queue.
  - intros a. rewrite Ha. unfold of_action. rewrite Esn. by apply (wi_actions w Hi (cl_id claim)).
  - rewrite Eid, Ha. by apply (wi_ids w Hi (cl_id claim)).
  - rewrite Esn. by apply (wi_targets w Hi (cl_id claim)).
  - by rewrite Eid.
  - destruct Hk as (_ & _ & Hv). unfold target_alive in *. by rewrite Esn, Hv.
Qed.

Lemma cold_kept_copies w o' r :
  world_inv w -> constraints o' -> copies_kept (physicals (wd_objects (w_db w))) (physicals o') ->
  r ∈ residencies (wd_objects (w_db w)) -> r_primary_tier r = "cold" -> cold_copy_proven o' (r_cid r).
Proof.
  intros Hi Hc' (K & _) Hr Ht. apply (cold_copy_kept (wd_objects (w_db w))); [by apply constraints_of|done| |by apply (wi_cold w Hi)].
  intros p Hp _ Hv. apply K; [done|by left].
Qed.

Lemma copy_change w claim saga leases c r db' :
  world_inv w -> record_copy claim saga leases c (w_db w) = Ok (r, db') ->
  db' = w_db w \/ exists s', saga_change w (with_worker_db db' w) (cl_id claim) s'.
Proof.
  intros Hi E. apply copy_effect in E as [->|(s & s' & Hs & Hact & Hcp & Hset & _ & Hs' & _ & Hsg & Ha & _ & Hk & Hres & Hps & Hadd & Hc' & Hsc')];
    [by left| |by apply constraints_of|apply Hi].
  right. exists s'. assert (same_saga s s') as Hsame by (by subst s').
  assert (required_holds s = [(TransitionStaging, Hot)]) as Hreq
    by (unfold required_holds, unsettled, in_checkpoint; by rewrite Hset, Hcp).
  eapply checkpoint_change; try done.
  - subst s'. split_and!; try done.
    + unfold checkpoint_rank, in_checkpoint. by rewrite Hcp.
    + intros Hp. pose proof (saga_open _ _ s (wi_sagas w Hi) Hs Hset) as Hopen. destruct (ts_publication_receipt s); [congruence|by destruct Hp].
  - by subst s'.
  - intros x _ Hne. by eapply added_others.
  - eapply (holds_exactly_added s); [done|by apply (wi_holds w Hi (cl_id claim))|exact Hadd|]. rewrite Hreq. subst s'.
    unfold required_holds, unsettled, in_checkpoint. simpl. intros x. set_solver.
  - intros x Hx. exists x. by rewrite Hres.
  - rewrite Hres. intros x. by apply cold_kept_copies.
Qed.

Lemma verified_change w claim saga receipt leases c r db' :
  world_inv w -> record_verified claim saga receipt leases c (w_db w) = Ok (r, db') ->
  db' = w_db w \/ exists s', saga_change w (with_worker_db db' w) (cl_id claim) s'.
Proof.
  intros Hi E. apply verify_effect in E as [->|(s & s' & durable & json & p & Hs & Hact & Hcp & Hset & _ & _ & _ & Hs' & _ & Hsg & Ha & _ & Hk & Hres & Hrefs & Hps & _ & _ & Hc' & Hsc')];
    [by left| |by apply constraints_of|apply Hi].
  right. exists s'. assert (same_saga s s') as Hsame by (by subst s').
  assert (required_holds s' = required_holds s) as Hreq.
  { subst s'. unfold required_holds, unsettled, in_checkpoint. rewrite Hset.
    apply elem_of_cons in Hcp as [->| ->%list_elem_of_singleton]; done. }
  eapply checkpoint_change; try done.
  - subst s'. split_and!; try done.
    + unfold checkpoint_rank, in_checkpoint. apply elem_of_cons in Hcp as [->| ->%list_elem_of_singleton]; done.
    + intros Hp. pose proof (saga_open _ _ s (wi_sagas w Hi) Hs Hset) as Hopen.
      destruct (ts_publication_receipt s); [rewrite Hopen in Hcp; set_solver|by destruct Hp].
  - by subst s'.
  - intros x _ Hne. by rewrite Hrefs.
  - rewrite Hrefs. destruct (wi_holds w Hi _ s Hs) as [H1' H2']. unfold holds_exactly. rewrite Hreq.
    setoid_rewrite (hold_row_same s s' _ _ _ Hsame). by destruct Hsame as [-> _].
  - intros x Hx. exists x. by rewrite Hres.
  - rewrite Hres. intros x. by apply cold_kept_copies.
Qed.

Lemma verification_names_copy i s claim receipt :
  validate_current_verification i s claim receipt = Ok tt ->
  tc_cid receipt = ss_destination_cid (ts_snapshot s)
  /\ tc_node_identity receipt = ss_expected_destination_node_identity (ts_snapshot s).
Proof.
  unfold validate_current_verification, validate_tier_receipt. intros E. ok_inv E. clear E. ok_inv E0. guard_inv. done.
Qed.

(** The holds of a saga that was just published *)
Lemma published_holds s s' now c1 refs refs' :
  same_saga s s' -> ts_checkpoint s = "verify" -> ts_settlement_kind s = None ->
  ts_checkpoint s' = "publish" -> ts_settlement_kind s' = None ->
  (forall r, r ∈ refs -> held_by (ts_id s) r ->
     exists reason tier now, ((reason, tier) ∈ required_holds s) /\ r = hold_row s reason tier now) ->
  published_references s now c1 refs refs' ->
  holds_exactly s' True refs'
  /\ forall r, ref_owner_kind r = OWNER_TRANSITION -> ref_owner_id r <> ts_id s -> r ∈ refs' <-> r ∈ refs.
Proof.
  intros Hsame Hcp Hset Hcp' Hset' Hold (refs1 & refs2 & Hadd1 & Hadd2 & Hiff).
  assert (required_holds s = [(TransitionStaging, Hot); (TransitionStaging, Cold)]) as Hreq
    by (unfold required_holds, unsettled, in_checkpoint; by rewrite Hset, Hcp).
  assert (required_holds s' = [(TransitionCleanupHold, Hot)]) as Hreq'
    by (unfold required_holds, unsettled, in_checkpoint; by rewrite Hset', Hcp').
  assert (forall r, ref_owner_kind r = OWNER_TRANSITION -> r ∈ refs2 <-> r ∈ refs1) as H21.
  { intros r Hk. destruct Hadd2 as [[-> _]|[-> _]]; [|done]. rewrite elem_of_app, list_elem_of_singleton.
    split; [|by left]. intros [?| ->]; done. }
  assert (refs1 = refs ++ [hold_row s TransitionCleanupHold Hot c1]) as ->.
  { destruct Hadd1 as [[-> _]|[_ (r & Hk & Hr)%list_elem_of_fmap]]; [done|]. unfold reference_key in Hk. simpl in Hk.
    injection Hk as K1 K2 K3 _ _. destruct (Hold r Hr) as (a & t & n & Hin & ->); [done|]. simpl in K3.
    rewrite Hreq in Hin. apply elem_of_cons in Hin as [[= -> _]|[= -> _]%list_elem_of_singleton]; done. }
  unfold holds_exactly. rewrite Hreq'. setoid_rewrite (hold_row_same s s' _ _ _ Hsame). destruct Hsame as [-> _]. split; [split|].
  - intros r Hr [Hk Hid]. apply Hiff in Hr as (Hr & _ & Hns). apply H21 in Hr; [|done].
    apply elem_of_app in Hr as [Hr| ->%list_elem_of_singleton].
    + destruct (Hold r Hr) as (a & t & n & Hin & ->); [done|]. exfalso. apply Hns. rewrite Hreq in Hin. split; [done|].
      apply elem_of_cons in Hin as [[= -> ->]|[= -> ->]%list_elem_of_singleton]; (split_and!; [done|simpl; set_solver|done]).
    + eexists _, _, _. split; [apply list_elem_of_here|done].
  - intros _ a t [= -> ->]%list_elem_of_singleton. exists c1. apply Hiff. split_and!.
    + apply H21; [done|]. set_solver.
    + intros [? _]. done.
    + intros (_ & ? & _). done.
  - intros r Hk Hne. rewrite Hiff, H21, elem_of_app, list_elem_of_singleton by done. split.
    + intros [[?| ->] _]; [done|]. by destruct Hne.
    + intros Hr. split; [by left|]. split; [by intros [Ho _]; rewrite Hk in Ho|]. intros [[_ ?] _]. done.
Qed.

Lemma publish_change w claim guard receipt leases c r db' :
  world_inv w -> Transitions.publish claim guard receipt leases c (w_db w) = Ok (r, db') ->
  db' = w_db w \/ exists s', saga_change w (with_worker_db db' w) (cl_id claim) s'.
Proof.
  intros Hi E. pose proof (constraints_of w Hi) as Hc.
  apply publish_effect in E as [[-> _]|(s & s' & a & cand & _ & Hs & Ha & Hact & _ & _ & _ & _ & _ & _ & Hver & E)];
    [by left| |done|apply Hi].
  right. exists s'. apply publish_residency_effect in E
    as (p & json & pub & res & Hp & Hj & Hpv & Hpr & Hpn & Hf & Hsrc & _ & Hcp & Hset & Hs' & Hsg & Hac & _ & Hk & Hps & Hres & Hrefs & Hc' & Hsc');
    [|done|apply Hi|done].
  assert (same_saga s s') as Hsame by (by subst s').
  destruct (published_holds s s' _ _ _ _ Hsame Hcp Hset ltac:(by subst s') ltac:(by subst s')
    (proj1 (wi_holds w Hi _ s Hs)) Hrefs) as [[Hh1 Hh2] Hothers].
  eapply checkpoint_change; try done; [by exists a| |by subst s'|by split; [|intros _; apply Hh2]| |].
  - subst s'. split_and!; try done; [unfold checkpoint_rank, in_checkpoint; by rewrite Hcp|].
    intros Hpub. pose proof (saga_open _ _ s (wi_sagas w Hi) Hs Hset) as Hopen. rewrite Hcp in Hopen.
    destruct (ts_publication_receipt s); [done|by destruct Hpub].
  - intros x Hx. rewrite Hres. eexists. split; [apply elem_of_update_where; by exists x|]. by case_decide.
  - rewrite Hres. intros x (x0 & Hx0 & ->)%elem_of_update_where. case_decide as Hd; intros Ht.
    + destruct Hd as (_ & _ & Hcid & _). exists p, receipt, json. simpl. rewrite Hcid.
      destruct (verification_names_copy _ _ _ _ Hver) as [Et En]. rewrite (same_cid _ _ _ (wi_sagas w Hi) Hs) in Et.
      split; [unfold find_physical in *; by rewrite Hps|]. split; [|done]. split_and!; try done; [congruence|].
      apply (find_physical_ok _ Hc) in Hp as (Hp & _). pose proof Hc as (_ & _ & _ & (_ & Hck) & _). rewrite Forall_forall in Hck.
      destruct (Hck p Hp) as (_ & _ & [(_ & _ & _ & ?)|([?|?] & _)]); [done|congruence..].
    + apply (cold_kept_copies w); [done|done| |done|done]. rewrite Hps. split_and!; eauto.
Qed.

(** The action of a claim is finished, and nothing else happens in the queue. *)
Lemma finish_rows w db' claim a state class error now :
  (claim ∈ w_issued w) -> actions (w_db w) !! cl_id claim = Some a -> active_action_claim claim a = true ->
  (state ∈ [STATE_SUCCEEDED; STATE_CANCELLED]) ->
  actions db' = <[cl_id claim := finished state class error now a]> (actions (w_db w)) ->
  rtc row_step (queue_of w) (queue_of (with_worker_db db' w)).
Proof.
  intros Hcl Ha Hact Hst Hacts.
  set (q1 := {| q_db := {| ld_imports := tickets db'; ld_actions := actions (w_db w); ld_sagas := sagas db' |};
                q_issued := w_issued w; q_used := w_used w |}).
  eapply rtc_l; [apply (rs_same (queue_of w) (q_db q1)); done|]. apply rtc_once.
  apply (rs_worker q1 claim (wd_lifecycle db')); [done|]. split; [done|]. right. eexists a, _. split; [done|]. split; [done|].
  split; [|exact Hacts]. apply wu_finish. set_solver.
Qed.

(** The state of the action that goes with a settlement *)
Lemma expected_cancelled s :
  saga_check s -> ts_settlement_kind s = Some "cancelled" -> expected_action_state s = Some STATE_CANCELLED.
Proof.
  intros (_ & _ & _ & _ & _ & _ & _ & _ & _ & _ & _ & _ & _ & _ & _ & _ & Hk) Hs. unfold expected_action_state, in_checkpoint.
  rewrite Hs in *. destruct Hk as [([=] & _)|[(_ & [t ->] & Hcp & ->)|([=] & _)]]. by rewrite (bool_decide_true _ Hcp).
Qed.
Lemma expected_succeeded s :
  saga_check s -> ts_settlement_kind s = Some "cleanup_complete" -> expected_action_state s = Some STATE_SUCCEEDED.
Proof.
  intros (_ & _ & _ & _ & _ & _ & _ & _ & _ & _ & _ & _ & _ & _ & _ & Hr & Hk) Hs. unfold expected_action_state, in_checkpoint.
  rewrite Hs in *. destruct Hk as [([=] & _)|[([=] & _)|(_ & [t ->] & Hcp)]]. rewrite Hcp in *.
  destruct Hr as [(? & _)|[([=] & _)|(_ & Hv & Hp)]]; [set_solver|].
  by destruct (ts_verification_receipt s) as [[|]|], (ts_publication_receipt s) as [[|]|].
Qed.

Lemma settlement_change w claim s s' state db' :
  world_inv w -> (claim ∈ w_issued w) -> settlement claim s s' state (w_db w) db' ->
  advances s s' -> (ts_settlement_kind s', state) ∈ [(Some "cancelled", STATE_CANCELLED); (Some "cleanup_complete", STATE_SUCCEEDED)] ->
  saga_change w (with_worker_db db' w) (cl_id claim) s'.
Proof.
  intros Hi Hcl [Hs Hsg Ho (a & class & error & now & Ha & Hact & Hacts) [Hc' Hsc']] Hadv Hkind.
  pose proof Hadv as ((Eid & Esn) & _).
  assert (ts_settlement_kind s' <> None) as Hset by (intros E; rewrite E in Hkind; set_solver).
  assert (expected_action_state s' = Some state /\ (state ∈ [STATE_SUCCEEDED; STATE_CANCELLED])) as [He Hst].
  { destruct Hsc' as (Hck & _). assert (saga_check s') as Hc1 by (apply (Hck (cl_id claim)); rewrite Hsg; apply lookup_insert_eq).
    apply elem_of_cons in Hkind as [[= Hk ->]|[= Hk ->]%list_elem_of_singleton];
      (split; [by apply expected_cancelled || by apply expected_succeeded|set_solver]). }
  assert (rtc row_step (queue_of w) (queue_of (with_worker_db db' w))) as Hrows by (by eapply finish_rows).
  split; cbn [with_worker_db w_db w_used w_rows]; try done.
  - intros x Hx. by simplify_eq.
  - apply acting_not_settled. by exists a.
  - by rewrite Ho.
  - intros x. rewrite Hacts, lookup_insert_eq. intros [= <-]. unfold of_action. rewrite Esn.
    by apply (wi_actions w Hi (cl_id claim) s a).
  - rewrite Eid. destruct (wi_ids w Hi _ s Hs) as (Hne & Hu & Hn). split; [done|]. by apply (row_steps_absent _ _ _ Hrows).
  - rewrite Esn. by apply (wi_targets w Hi (cl_id claim)).
  - intros r Hk Hne. rewrite Ho. simpl. rewrite list_elem_of_filter. split; [by intros [_ ?]|].
    intros Hr. split; [|done]. intros [_ ?]. congruence.
  - apply holds_exactly_settled; [done|]. rewrite Ho, Eid. by intros r [? _]%list_elem_of_filter.
  - intros _. exists (finished state class error now a). rewrite Hacts, lookup_insert_eq. split; [done|].
    split; [|by split; [eexists|]]. unfold LifecycleQueue.settled. simpl. set_solver.
  - intros r Hr. exists r. by rewrite Ho.
  - rewrite Ho in *. intros r Hr Ht. apply (cold_copy_kept (wd_objects (w_db w))); [by apply constraints_of|done..|by apply (wi_cold w Hi)].
Qed.

Lemma cleanup_change w claim guard saga leases c r db' :
  world_inv w -> (claim ∈ w_issued w) -> cleanup claim guard saga leases c (w_db w) = Ok (r, db') ->
  db' = w_db w \/ exists s', saga_change w (with_worker_db db' w) (cl_id claim) s'.
Proof.
  intros Hi Hcl E. apply cleanup_effect in E as [->|(s & now & Hcp & Hpub & Hset & Hst)]; [by left| |by apply constraints_of|apply Hi].
  right. eexists. eapply settlement_change; [done|done|exact Hst| |set_solver]. split_and!; try done.
  unfold checkpoint_rank, in_checkpoint. by rewrite Hcp.
Qed.

Lemma settle_change w claim guard saga class diagnostic leases c r db' :
  world_inv w -> (claim ∈ w_issued w) -> settle_unpublished claim guard saga class diagnostic leases c (w_db w) = Ok (r, db') ->
  db' = w_db w \/ (cancellation claim (w_db w) db') \/ exists s', saga_change w (with_worker_db db' w) (cl_id claim) s'.
Proof.
  intros Hi Hcl E. apply settle_effect in E as [->|[[_ ?]|(s & now & Hpub & Hset & Hst)]]; [by left|by right; left| |by apply constraints_of|apply Hi].
  right; right. eexists. eapply settlement_change; [done|done|exact Hst| |set_solver]. by split_and!.
Qed.

(** ** Every step *)

(** What a step does to the sagas *)
Definition sagas_step (w w' : World) : Prop :=
  sagas (w_db w') = sagas (w_db w)
  \/ (exists i s', saga_change w w' i s')
  \/ exists i s, sagas (w_db w) !! i = Some s /\ ts_settlement_kind s <> None /\ sagas (w_db w') = delete i (sagas (w_db w)).

Lemma delete_settled_ok id db b db' :
  delete_settled_in_transaction id db = Ok (b, db') ->
  db' = db \/ exists i s, sagas db !! i = Some s /\ ts_settlement_kind s <> None
    /\ (forall r, r ∈ references (wd_objects db) -> ~ held_by (ts_id s) r)
    /\ db' = set_sagas (delete i) db /\ saga_constraints db'.
Proof.
  unfold delete_settled_in_transaction. intros E. w_inv E. destruct (find_saga id db) as [[i s]|] eqn:Ef; [|t_inv E; by left].
  right. w_inv E. guard_inv. exists i, s. apply find_saga_some in Ef as [Hs _]. split; [done|].
  match goal with Hg : guarded_delete i s db |- _ => destruct Hg as [Hk Hfree] end.
  split; [by destruct Hk as [[-> _]|[-> _]]|]. split; [|done].
  intros r Hr [Hkind Hid]. rewrite Forall_forall in Hfree. apply (Hfree r Hr). split; [done|]. rewrite Hid. set_solver.
Qed.

Lemma sagas_set f db : sagas (set_sagas f db) = f (sagas db).
Proof. done. Qed.

Lemma delete_saga_inv w i s :
  world_inv w -> sagas (w_db w) !! i = Some s -> (forall r, r ∈ references (wd_objects (w_db w)) -> ~ held_by (ts_id s) r) ->
  saga_constraints (set_sagas (delete i) (w_db w)) -> world_inv (with_worker_db (set_sagas (delete i) (w_db w)) w).
Proof.
  intros Hi Hs Hfree Hc.
  assert (forall j x, sagas (set_sagas (delete i) (w_db w)) !! j = Some x -> sagas (w_db w) !! j = Some x) as Hsub
    by (intros j x; rewrite sagas_set; by intros [_ ?]%lookup_delete_Some).
  split; try apply Hi; try done; cbn [with_worker_db w_db w_used w_rows].
  - eapply row_steps_inv; [apply (wi_queue w Hi)|by apply same_queue].
  - intros j x Hj. by apply (wi_ids w Hi j), Hsub.
  - intros j x a Hj. by apply (wi_actions w Hi j), Hsub.
  - intros j x Hj. by apply (wi_targets w Hi j), Hsub.
  - intros r Hr Hk. destruct (wi_owners w Hi r Hr Hk) as (j & x & Hj & Ej). exists j, x. split; [|done].
    rewrite sagas_set. apply lookup_delete_Some. split; [|done]. intros <-. simplify_eq. by apply (Hfree r Hr).
  - intros j x Hj. by apply (wi_holds w Hi j), Hsub.
  - intros j x Hj. by apply (wi_settled w Hi j), Hsub.
Qed.

(** The facts that every step keeps *)
Record kept_by_step (w w' : World) : Prop := {
  kb_inv : world_inv w';
  kb_rows : rtc row_step (queue_of w) (queue_of w');
  kb_sagas : sagas_step w w'
}.

Lemma kept_same w : world_inv w -> kept_by_step w (with_worker_db (w_db w) w).
Proof. intros Hi. destruct w. split; [done|done|by left]. Qed.

Lemma kept_change w w' i s' : world_inv w -> saga_change w w' i s' -> kept_by_step w w'.
Proof. intros Hi C. split; [by eapply saga_change_inv|apply C|right; left; by exists i, s']. Qed.

Lemma kept_queue w w' :
  world_inv w -> rtc row_step (queue_of w) (queue_of w') -> sagas (w_db w') = sagas (w_db w) ->
  wd_objects (w_db w') = wd_objects (w_db w) -> w_rows w ⊆ w_rows w' -> saga_constraints (w_db w') -> kept_by_step w w'.
Proof. intros Hi Hr Hs Ho Hw Hc. split; [by eapply queue_change_inv|done|by left]. Qed.

Lemma kept_objects w o' rows u :
  world_inv w -> Safe o' -> store_effect u (wd_objects (w_db w)) o' ->
  (forall v, v ∈ versions o' -> v_id v = u -> u ∉ w_rows w) -> w_rows w ⊆ rows -> (forall v, v ∈ versions o' -> v_id v ∈ rows) -> u <> EmptyString ->
  kept_by_step w {| w_db := set_worker_objects o' (w_db w); w_issued := w_issued w; w_used := w_used w; w_rows := rows |}.
Proof.
  intros Hi Hs He Hu Hsub Hr Hne. split; [|by apply same_queue|by left].
  eapply objects_change_inv; try done. apply He. by apply constraints_of.
Qed.

Lemma mark_hot_verified_safe o identity node receipt clock b o' :
  Safe o -> mark_hot_verified_in_transaction identity node receipt clock o = Ok (b, o') -> Safe o' /\ versions o' = versions o.
Proof.
  intros Hs E. unfold mark_hot_verified_in_transaction in E. destruct (_ || _); [done|].
  apply tx_bind_ok in E as (vo & d & ->%(read_only_run (lock_and_validate_version _ : Txn Db _)) & E); [|apply lock_and_validate_read_only].
  apply tx_bind_ok in E as (res & d & [= <- <-] & E). apply tx_bind_ok in E as (res' & d & [_ ->]%lift_ok & E).
  apply tx_bind_ok in E as (u & d & [_ ->]%lift_ok & E). apply tx_bind_ok in E as (n & d & Hu & E).
  apply tx_bind_ok in Hu as (k & d0 & [= <- <-] & Hu). apply tx_bind_ok in Hu as (x & d0 & [-> Hc]%exec_inv & [= <- <-]).
  assert (o' = set_physicals (update_where (unverified_hot (vri_cid identity)) (set_verified node receipt clock) (physicals o)) o) as ->.
  { destruct (_ =? 1); [by injection E|]. apply tx_bind_ok in E as (y & d1 & [= <- <-] & E).
    apply tx_bind_ok in E as (z & d1 & [_ ->]%lift_ok & E). destruct (_ && _); [by injection E|done]. }
  split; [|done]. apply (safe_kept o); [done|done|done|]. intros r Hr. by exists r.
Qed.

Lemma world_step_kept w w' : world_inv w -> world_step w w' -> kept_by_step w w'.
Proof.
  intros Hi. destruct 1 as [q' Hq Hsg Hc|o' Hst Hfresh|identity node receipt clock b db' E|configs tags uploads used rows Hused Hrows
    |claim guard sn dn saga_id leases c r db' Hcl Hu E|claim saga leases c r db' Hcl E|claim saga receipt leases c r db' Hcl E
    |claim guard receipt leases c r db' Hcl E|claim guard saga leases c r db' Hcl E|claim guard saga class diag leases c r db' Hcl E
    |claim guard base max class leases c r db' Hcl E|id b db' E].
  - apply kept_queue; try done. destruct q'. by apply queue_step_rows.
  - destruct (step_effect _ _ Hst) as (u & Hu & Hne & He).
    apply (kept_objects w o' _ u Hi); [by eapply step_safe; [apply Hi|]|done| |set_solver| |done].
    + intros v Hv <-. apply Hfresh; [done|]. unfold row_ids. by rewrite elem_of_list_to_set.
    + intros v Hv. apply elem_of_union_l. unfold row_ids. rewrite elem_of_list_to_set. by apply list_elem_of_fmap_2.
  - apply on_objects_ok in E as (o' & E & ->). destruct (mark_hot_verified_safe _ _ _ _ _ _ _ (wi_safe w Hi) E) as [Hs Hv].
    assert (fresh ({[EmptyString]} ∪ w_rows w) ∉ {[EmptyString]} ∪ w_rows w) as Hf by apply is_fresh.
    apply (kept_objects w o' (w_rows w) (fresh ({[EmptyString]} ∪ w_rows w)) Hi); [done|by eapply mark_hot_verified_effect|set_solver|done| |set_solver].
    rewrite Hv. apply (wi_rows w Hi).
  - apply kept_queue; try done; [by apply same_queue|apply (wi_sagas w Hi)].
  - apply prepare_change in E as [->|[s' C]]; [|by eapply kept_change|done|done|done].
    apply kept_queue; try done; [apply same_queue; [done|done|set_solver]|apply Hi].
  - apply copy_change in E as [->|[s' C]]; [by apply kept_same|by eapply kept_change|done].
  - apply verified_change in E as [->|[s' C]]; [by apply kept_same|by eapply kept_change|done].
  - apply publish_change in E as [->|[s' C]]; [by apply kept_same|by eapply kept_change|done].
  - apply cleanup_change in E as [->|[s' C]]; [by apply kept_same|by eapply kept_change|done|done].
  - apply settle_change in E as [->|[[Hs Ho (a & cl & er & now & Ha & Hact & Hacts) Hc]|[s' C]]]; [by apply kept_same| |by eapply kept_change|done|done].
    apply kept_queue; try done. eapply finish_rows; try done. set_solver.
  - apply retry_effect in E as (Hs & Ho & He & Hc); [|apply Hi]. apply kept_queue; try done.
    apply rtc_once. by apply (rs_worker (queue_of w) claim (wd_lifecycle db')).
  - apply delete_settled_ok in E as [->|(i & s & Hs & Hset & Hfree & -> & Hc)]; [by apply kept_same|].
    split; [by eapply delete_saga_inv|by apply same_queue|]. right; right. by exists i, s.
Qed.

Lemma world_steps_inv w w' : world_inv w -> rtc world_step w w' -> world_inv w' /\ rtc row_step (queue_of w) (queue_of w').
Proof.
  intros Hi Hr. revert Hi. induction Hr as [|x y z Hs _ IH]; [done|]. intros Hi. apply (world_step_kept x y) in Hs; [|done].
  destruct IH as [? ?]; [apply Hs|]. split; [done|]. etrans; [apply Hs|done].
Qed.

Lemma empty_world_inv imports : world_inv (empty_world imports).
Proof.
  split; cbn [empty_world w_db w_used w_rows wd_objects]; try done; try (intros; exfalso; set_solver).
  - apply empty_safe.
  - split; cbn [queue_of empty_world q_db q_issued q_used w_db]; try (intros; exfalso; set_solver); by intros ? ? ?%lookup_empty_Some.
Qed.

Lemma reachable_world_inv w : reachable_world w -> world_inv w.
Proof. intros (imports & Hr). eapply world_steps_inv; [apply empty_world_inv|done]. Qed.
End invariant.

(** ** Removing sagas *)

Section removal.
Context `{Chrono} `{ActionCodec} `{UuidLaws} `{OwnershipGranted} `{TransitionCodec}.

Lemma saga_constraints_delete i db : saga_constraints db -> saga_constraints (set_sagas (delete i) db).
Proof.
  intros (C1 & C2 & C3 & C4 & C5). unfold saga_constraints. rewrite sagas_set.
  split_and!; try (apply map_Forall_delete; assumption).
  intros j s [_ Hj]%lookup_delete_Some k s' [_ Hk]%lookup_delete_Some. by apply (C2 j s Hj k s').
Qed.

(** A settled saga holds nothing, by its own identifier or by that of its action. *)
Lemma settled_free w i s r :
  world_inv w -> sagas (w_db w) !! i = Some s -> ts_settlement_kind s <> None ->
  r ∈ references (wd_objects (w_db w)) -> ~ held_by_either (ts_id s) i r.
Proof.
  intros Hi Hs Hset Hr [Hk Hid]. apply elem_of_cons in Hid as [Hid|Hid%list_elem_of_singleton].
  - destruct (proj1 (wi_holds w Hi i s Hs) r Hr) as (reason & tier & now & Hreq & _); [done|]. revert Hreq.
    unfold required_holds, unsettled. destruct (ts_settlement_kind s); [|done]. by intros ?%elem_of_nil.
  - destruct (wi_owners w Hi r Hr Hk) as (j & x & Hj & Ej). destruct (wi_ids w Hi j x Hj) as (_ & _ & Hn).
    destruct (wi_sagas w Hi) as (_ & _ & Hfk & _). destruct (Hfk i s Hs) as [a Ha]. rewrite Ej, Hid in Hn. congruence.
Qed.

Lemma settled_kind db i s :
  saga_constraints db -> sagas db !! i = Some s -> ts_settlement_kind s <> None ->
  (ts_settlement_kind s = Some "cancelled" /\ expected_action_state s = Some STATE_CANCELLED)
  \/ (ts_settlement_kind s = Some "cleanup_complete" /\ expected_action_state s = Some STATE_SUCCEEDED).
Proof.
  intros (Hck & _) Hs Hset. pose proof (Hck i s Hs) as Hc. pose proof Hc as (_ & _ & _ & _ & _ & _ & _ & _ & _ & _ & _ & _ & _ & _ & _ & _ & Hk).
  destruct Hk as [(? & _)|[(E & _)|(E & _)]]; [done|left|right]; (split; [done|]);
    by apply expected_cancelled || by apply expected_succeeded.
Qed.

Lemma delete_settled_run w i s :
  world_inv w -> sagas (w_db w) !! i = Some s -> ts_settlement_kind s <> None ->
  delete_settled_in_transaction (ts_id s) (w_db w) = Ok (true, set_sagas (delete i) (w_db w)).
Proof.
  intros Hi Hs Hset. pose proof (wi_sagas w Hi) as Hsc. destruct (wi_ids w Hi i s Hs) as (Hne & _).
  destruct (wi_settled w Hi i s Hs Hset) as (a & Ha & _ & [t Hf] & He).
  assert (Forall (fun r => ~ held_by_either (ts_id s) i r) (references (wd_objects (w_db w)))) as Hfree
    by (apply Forall_forall; intros r Hr; by apply (settled_free w)).
  assert (matching (held_by_either (ts_id s) i) (references (wd_objects (w_db w))) = 0) as Hm.
  { unfold matching. destruct (filter _ _) as [|r l] eqn:E; [done|]. exfalso.
    assert (r ∈ filter (held_by_either (ts_id s) i) (references (wd_objects (w_db w)))) as [Hh Hr]%list_elem_of_filter
      by (rewrite E; left). by apply (settled_free w i s r). }
  assert (guarded_delete i s (w_db w)) as Hg.
  { split; [|done]. rewrite Ha. simpl. destruct (settled_kind _ i s Hsc Hs Hset) as [[-> E]|[-> E]]; [left|right]; (split; [done|]); congruence. }
  unfold delete_settled_in_transaction. destruct (str_is_empty (ts_id s)) eqn:En; [by destruct (ts_id s)|].
  unfold t_bind, t_reads, t_some, t_lift. simpl. rewrite (find_saga_unique _ _ i s Hsc Hs) by done.
  rewrite He. simpl. rewrite Ha. simpl. rewrite String.eqb_refl, Hf. simpl. rewrite Hm. simpl.
  rewrite (bool_decide_true _ Hg). simpl. unfold t_exec. by rewrite decide_True by (by apply saga_constraints_delete).
Qed.

Definition delete_all (l : list (string * TransitionSaga)) (m : gmap string TransitionSaga) : gmap string TransitionSaga :=
  foldl (fun m r => delete r.1 m) m l.

Lemma delete_each_run w l :
  world_inv w -> NoDup (map fst l) ->
  (forall r, r ∈ l -> sagas (w_db w) !! r.1 = Some r.2 /\ ts_settlement_kind r.2 <> None) ->
  t_each (fun r : string * TransitionSaga => let* _ := delete_settled_in_transaction (ts_id r.2) in t_ret tt) l (w_db w)
    = Ok (tt, set_sagas (delete_all l) (w_db w)).
Proof.
  revert w. induction l as [|[i s] l IH]; intros w Hi Hnd Hall; [simpl; unfold set_sagas; simpl; by destruct w as [[[]]]|].
  destruct (Hall (i, s)) as [Hs Hset]; [left|]. simpl in *. apply NoDup_cons in Hnd as [Hni Hnd].
  unfold t_bind at 1. unfold t_bind at 1. rewrite (delete_settled_run w i s) by done. simpl.
  set (w1 := with_worker_db (set_sagas (delete i) (w_db w)) w).
  assert (world_inv w1) as Hi1.
  { apply (delete_saga_inv w i s Hi Hs); [|apply saga_constraints_delete, Hi]. intros r Hr [Hk Hid].
    apply (settled_free w i s r Hi Hs Hset Hr). split; [done|]. rewrite Hid. left. }
  change (set_sagas (delete i) (w_db w)) with (w_db w1). rewrite (IH w1 Hi1 Hnd); [done|].
  intros [j x] Hr. destruct (Hall (j, x)) as [Hj Hx]; [by right|]. split; [|done]. simpl in *.
  rewrite sagas_set. apply lookup_delete_Some. split; [|done]. intros ->. apply Hni.
  change j with (fst (j, x)). by apply list_elem_of_fmap_2.
Qed.

Lemma lookup_delete_all l m i :
  delete_all l m !! i = if bool_decide (i ∈ map fst l) then None else m !! i.
Proof.
  revert m. induction l as [|r l IH]; intros m; [done|]. simpl. rewrite IH.
  destruct (decide (i = r.1)) as [->|Hne].
  - rewrite (bool_decide_true (r.1 ∈ r.1 :: _)) by (by left). case_bool_decide; [done|]. apply lookup_delete_eq.
  - rewrite lookup_delete_ne by done. repeat case_bool_decide; try done; set_solver.
Qed.
End removal.

(** ** The course of a saga *)

(** What a saga may become *)
Definition followed (s s' : TransitionSaga) : Prop :=
  same_saga s s' /\ ts_created_at s' = ts_created_at s /\ checkpoint_rank s <= checkpoint_rank s'
  /\ (is_Some (ts_publication_receipt s) -> ts_publication_receipt s' = ts_publication_receipt s)
  /\ (ts_settlement_kind s <> None -> s' = s).

Lemma followed_refl s : followed s s.
Proof. by split_and!. Qed.

Lemma followed_advances s s' s'' : followed s s' -> advances s' s'' -> followed s s''.
Proof.
  intros ([E1 E2] & E3 & Hr & Hp & Hk) ([F1 F2] & F3 & Fk & Fr & Fp). split_and!; try congruence; try lia.
  - split; congruence.
  - intros Hs. rewrite Fp; [by apply Hp|]. by rewrite Hp.
  - intros Hset. rewrite (Hk Hset) in Fk. done.
Qed.

Section course.
Context `{Chrono} `{ActionCodec} `{UuidLaws} `{OwnershipGranted} `{TransitionCodec}.

(** An action without a saga that can no longer get one *)
Definition gone (i : string) (w : World) : Prop :=
  sagas (w_db w) !! i = None /\ (i ∈ w_used w) /\ forall a, actions (w_db w) !! i = Some a -> LifecycleQueue.settled a.

(** The saga of an action is there, or it is gone for good. *)
Definition course (i : string) (s : TransitionSaga) (w : World) : Prop :=
  (exists s', sagas (w_db w) !! i = Some s' /\ followed s s') \/ gone i w.

Lemma gone_kept w w' i :
  queue_inv (queue_of w) -> rtc row_step (queue_of w) (queue_of w') -> i ∈ w_used w ->
  (forall a, actions (w_db w) !! i = Some a -> LifecycleQueue.settled a) ->
  (i ∈ w_used w') /\ forall a, actions (w_db w') !! i = Some a -> LifecycleQueue.settled a.
Proof.
  intros Hq Hr Hu Hs. destruct (actions (w_db w) !! i) as [a|] eqn:Ha.
  - pose proof (row_steps_inv _ _ Hq Hr) as Hq'. split.
    + clear Hq Hq' Ha Hs. change (i ∈ q_used (queue_of w')). change (i ∈ q_used (queue_of w)) in Hu.
      induction Hr as [|x y z Hst _ IH]; [done|]. apply IH. destruct Hst; cbn [with_db q_used]; set_solver.
    + intros x Hx. assert (actions (w_db w') !! i = Some a) as Hx'
        by (apply (row_steps_settled (queue_of w) (queue_of w')); [done|done|done|by apply Hs|by exists x]).
      rewrite Hx in Hx'. injection Hx' as ->. by apply Hs.
  - destruct (row_steps_absent _ _ i Hr Hu Ha) as [Hu' Hn']. split; [done|]. intros x Hx.
    change (actions (w_db w') !! i = None) in Hn'. congruence.
Qed.

Lemma gone_step i w w' : world_inv w -> gone i w -> kept_by_step w w' -> gone i w'.
Proof.
  intros Hi (Hn & Hu & Hs) [_ Hrows Hst]. split; [|by eapply gone_kept; [apply Hi|..]].
  destruct Hst as [Hsame|[(j & x & C)|(j & x & Hj & _ & Hdel)]]; [by rewrite Hsame| |rewrite Hdel; apply lookup_delete_None; by right].
  rewrite (sc_sagas _ _ _ _ C). apply lookup_insert_None. split; [done|]. intros ->.
  destruct (sc_acting _ _ _ _ C) as (a & Ha & Hns). by destruct (Hns (Hs a Ha)).
Qed.

Lemma course_step i s w w' : world_inv w -> course i s w -> kept_by_step w w' -> course i s w'.
Proof.
  intros Hi [(s' & Hs' & Hf)|Hg] Hkept; [|right; by eapply gone_step]. pose proof Hkept as [_ Hrows Hst].
  destruct Hst as [Hsame|[(j & x & C)|(j & x & Hj & Hset & Hdel)]]; [left; exists s'; by rewrite Hsame| |].
  - left. rewrite (sc_sagas _ _ _ _ C). destruct (decide (j = i)) as [->|Hne].
    + exists x. split; [apply lookup_insert_eq|]. by eapply followed_advances, (sc_advances _ _ _ _ C).
    + exists s'. by rewrite lookup_insert_ne.
  - destruct (decide (j = i)) as [->|Hne]; [right|left; exists s'; by rewrite Hdel, lookup_delete_ne].
    split; [rewrite Hdel; apply lookup_delete_eq|]. destruct (wi_settled w Hi i x Hj Hset) as (a & Ha & Hs & _).
    eapply gone_kept; [apply Hi|done|by apply (qi_rows _ (wi_queue w Hi) i a)|]. intros y Hy. rewrite Ha in Hy. by injection Hy as <-.
Qed.

Lemma gone_steps i w w' : world_inv w -> gone i w -> rtc world_step w w' -> gone i w'.
Proof.
  intros Hi Hg Hr. revert Hi Hg. induction Hr as [|x y z Hst _ IH]; [done|]. intros Hi Hg.
  apply (world_step_kept x y Hi) in Hst. apply IH; [apply Hst|by eapply gone_step].
Qed.

Lemma course_steps i s w w' : world_inv w -> course i s w -> rtc world_step w w' -> course i s w'.
Proof.
  intros Hi Hc Hr. revert Hi Hc. induction Hr as [|x y z Hst _ IH]; [done|]. intros Hi Hc.
  apply (world_step_kept x y Hi) in Hst. apply IH; [apply Hst|by eapply course_step].
Qed.
End course.
