(* ===== verification/TransitionTheorems.v ===== *)
(** * What transitions guarantee

    The properties of the histories of [TransitionSystem]: which copies a transition protects, that it
    leaves nothing behind, what a publication changes and when it is allowed, that a version can be read
    wherever its primary copy is, and that a worker whose claim was lost does nothing. *)

From Stdlib Require Import ZArith Lia Ascii.
From Stdlib Require String.
From stdpp Require Import base list strings pretty sorting gmap.
From S2P Require Import Prelude Errors Chrono VersionModel LifecycleModel LifecycleConfig LifecycleEval Database Transaction.
From S2P Require Import ObjectStore ResidencyStore VersionStore VersionSpec VersionReads Publication VersionSystem StoreEffects.
From S2P Require Import ImportDb Ownership LifecycleActions LifecycleQueue Revalidation Transitions TransitionRuns TransitionSystem.

#[local] Open Scope string_scope.
#[local] Open Scope list_scope.
#[local] Open Scope Z_scope.
#[local] Open Scope rust_scope.

Section theorems.
Context `{Chrono} `{ActionCodec} `{UuidLaws} `{OwnershipGranted} `{TransitionCodec}.

(** ** Holds *)

Lemma open_requires db i s :
  saga_constraints db -> sagas db !! i = Some s -> ts_settlement_kind s = None -> required_holds s <> [].
Proof.
  intros Hc Hs Hset. pose proof (saga_open db i s Hc Hs Hset) as Hcp. unfold required_holds, unsettled, in_checkpoint.
  rewrite Hset. simpl. destruct (ts_publication_receipt s); [by rewrite Hcp|].
  repeat (apply elem_of_cons in Hcp as [->|Hcp]; [done|]). by apply elem_of_nil in Hcp.
Qed.

(** C13: While a transition is open, the copies it works with are protected.  In every history, as long as the
    version exists, the saga holds a reference to its hot source from the preparation on, to the cold
    copy from the moment it may be written, and to the old hot copy from the publication to the cleanup,
    and those copies are there, whatever is published, deleted, claimed, retried or settled meanwhile. *)
Theorem open_saga_holds (w : World) (i : string) (s : TransitionSaga) (Hw : reachable_world w)
    (Hs : sagas (w_db w) !! i = Some s) (Hopen : ts_settlement_kind s = None)
    (Halive : target_alive s (wd_objects (w_db w))) :
  required_holds s <> []
  /\ forall reason tier, (reason, tier) ∈ required_holds s ->
       exists r, (r ∈ references (wd_objects (w_db w))) /\ held_by (ts_id s) r /\ ref_reason r = reason_as_db_str reason
         /\ ref_version_row_id r = ss_target_version_row_id (ts_snapshot s)
         /\ ref_tier r = tier_as_db_str tier /\ ref_cid r = ss_source_cid (ts_snapshot s)
         /\ (tier_as_db_str tier, ss_source_cid (ts_snapshot s)) ∈ physical_places (wd_objects (w_db w)).
Proof.
  apply reachable_world_inv in Hw. split; [by eapply open_requires; [apply Hw|..]|]. intros reason tier Hreq.
  destruct (proj2 (wi_holds w Hw i s Hs) Halive reason tier Hreq) as [now Hr]. eexists. split; [exact Hr|]. split_and!; try done.
  pose proof (constraints_of w Hw) as (_ & _ & _ & _ & _ & (_ & _ & _ & _ & Hpl)). rewrite Forall_forall in Hpl. by apply Hpl in Hr.
Qed.

(** C19: Transitions leave nothing behind.  In every history each reference held for a transition belongs to
    a saga that is still open and requires it at its checkpoint, so a copy is never kept for a transition
    that was settled, cancelled or removed. *)
Theorem no_orphan_holds (w : World) (r : ReferenceRow) (Hw : reachable_world w)
    (Hr : r ∈ references (wd_objects (w_db w))) (Hk : ref_owner_kind r = OWNER_TRANSITION) :
  exists i s reason tier now, sagas (w_db w) !! i = Some s /\ ts_settlement_kind s = None
    /\ ((reason, tier) ∈ required_holds s) /\ r = hold_row s reason tier now.
Proof.
  apply reachable_world_inv in Hw. destruct (wi_owners w Hw r Hr Hk) as (i & s & Hs & Hid).
  destruct (proj1 (wi_holds w Hw i s Hs) r Hr) as (reason & tier & now & Hreq & ->); [done|].
  exists i, s, reason, tier, now. split; [done|]. split; [|done]. revert Hreq. unfold required_holds, unsettled.
  destruct (ts_settlement_kind s); [by intros ?%elem_of_nil|done].
Qed.

(** ** Removal *)

Lemma bind_reads {A B} (f : WorkerDb -> A) (k : A -> WTx B) db : t_bind (t_reads f) k db = k (f db) db.
Proof. done. Qed.

Lemma completed_settled db i s :
  saga_constraints db -> sagas db !! i = Some s -> is_none (ts_completed_at s) = unsettled s.
Proof.
  intros (Hck & _) Hs. destruct (Hck i s Hs) as (_ & _ & _ & _ & _ & _ & _ & _ & _ & _ & _ & _ & _ & _ & _ & _ & Hk).
  unfold unsettled. by destruct Hk as [(-> & -> & _)|[(-> & [t ->] & _)|(-> & [t ->] & _)]].
Qed.

(** The transitions of a bucket, as [bucket::delete] removes them: a bucket can always get rid of them once they are settled: in every history, the removal
    of the sagas of a bucket is refused exactly while one of them is open, and otherwise removes all of
    them and nothing else; no saga is ever stuck with a hold or with an action in another state. *)
Lemma bucket_sagas_deletable (w : World) (bucket : string) (Hw : reachable_world w) :
  ((exists i s, sagas (w_db w) !! i = Some s /\ ss_bucket (ts_snapshot s) = bucket /\ ts_settlement_kind s = None)
   /\ delete_bucket_sagas bucket (w_db w) = Err (BucketNotEmpty bucket))
  \/ ((forall i s, sagas (w_db w) !! i = Some s -> ss_bucket (ts_snapshot s) = bucket -> ts_settlement_kind s <> None)
      /\ delete_bucket_sagas bucket (w_db w)
         = Ok (tt, set_sagas (filter (fun r => ss_bucket (ts_snapshot r.2) <> bucket)) (w_db w))).
Proof.
  apply reachable_world_inv in Hw. pose proof (wi_sagas w Hw) as Hc. unfold delete_bucket_sagas.
  set (rows := filter (fun r : string * TransitionSaga => ss_bucket (ts_snapshot r.2) = bucket) (map_to_list (sagas (w_db w)))).
  assert (forall i s, (i, s) ∈ rows <-> sagas (w_db w) !! i = Some s /\ ss_bucket (ts_snapshot s) = bucket) as Hrows
    by (intros i s; unfold rows; rewrite list_elem_of_filter, elem_of_map_to_list; simpl; tauto).
  rewrite bind_reads. fold rows. destruct (existsb _ rows) eqn:E; [left|right].
  - split; [|done]. apply existsb_exists in E as ([i s] & Hin%list_elem_of_In & Hn). apply Hrows in Hin as [Hs Hb].
    exists i, s. split; [done|]. split; [done|]. simpl in Hn. rewrite (completed_settled _ i s Hc Hs) in Hn.
    unfold unsettled in Hn. by destruct (ts_settlement_kind s).
  - assert (forall r, r ∈ rows -> sagas (w_db w) !! r.1 = Some r.2 /\ ts_settlement_kind r.2 <> None) as Hall.
    { intros [i s] Hin. pose proof Hin as [Hs _]%Hrows. split; [done|]. intros Hset. apply not_true_iff_false in E. apply E. simpl in Hset.
      apply existsb_exists. exists (i, s). split; [by apply list_elem_of_In|]. simpl.
      rewrite (completed_settled _ i s Hc Hs). unfold unsettled. by rewrite Hset. }
    split; [intros i s Hs Hb; by apply (Hall (i, s)), Hrows|].
    rewrite (delete_each_run w rows Hw); [|apply (sublist_NoDup _ (map fst (map_to_list (sagas (w_db w))))); [apply NoDup_fst_map_to_list|apply fmap_sublist, sublist_filter]|done].
    do 2 f_equal. unfold set_sagas. do 2 f_equal. apply map_eq. intros i. rewrite lookup_delete_all. case_bool_decide as Hin.
    + apply list_elem_of_fmap in Hin as ([j s] & -> & [Hs Hb]%Hrows). symmetry. apply map_lookup_filter_None. right.
      intros x Hx. simpl in *. rewrite Hs in Hx. injection Hx as <-. tauto.
    + destruct (sagas (w_db w) !! i) as [s|] eqn:Hs; symmetry.
      * apply map_lookup_filter_Some. split; [done|]. simpl. intros Hb. apply Hin.
        change i with (fst (i, s)). apply list_elem_of_fmap_2. by apply Hrows.
      * apply map_lookup_filter_None. by left.
Qed.

(** ** The course of a saga *)

(** C18: A saga only goes forward.  Whatever happens later, the saga of an action stays the same transition of
    the same version, its checkpoint never goes back, the receipt of its publication is never replaced or taken
    back, and once it is settled its row does not change.  When it is removed, its action is finished and no other saga is
    ever prepared for it. *)
Theorem saga_only_advances (w w' : World) (i : string) (s : TransitionSaga) (Hw : reachable_world w)
    (Hs : sagas (w_db w) !! i = Some s) (Hlater : rtc world_step w w') :
  match sagas (w_db w') !! i with
  | Some s' => followed s s'
  | None => (forall a, actions (w_db w') !! i = Some a -> LifecycleQueue.settled a)
            /\ forall w'', rtc world_step w' w'' -> sagas (w_db w'') !! i = None
  end.
Proof.
  apply reachable_world_inv in Hw. pose proof (world_steps_inv w w' Hw Hlater) as [Hw' _].
  assert (course i s w') as Hcourse by (eapply (course_steps i s w); [done|left; by eexists; split; [|apply followed_refl]|done]).
  destruct Hcourse as [(s' & -> & Hf)|Hg]; [done|]. pose proof Hg as (Hn & _ & Ha). rewrite Hn. split; [done|]. intros w'' Hr.
  by apply (gone_steps i w' w'').
Qed.

(** ** Lost claims *)

(** Nothing that a worker can do to a saga with the claim has an effect. *)
Definition saga_refused (claim : ClaimedLifecycleAction) (db : WorkerDb) : Prop :=
  (forall guard source_node destination_node saga_id leases c r db',
     prepare claim guard source_node destination_node saga_id leases c db = Ok (r, db') -> r = PrepareStale /\ db' = db)
  /\ (forall saga leases c r db', record_copy claim saga leases c db = Ok (r, db') -> r = None /\ db' = db)
  /\ (forall saga receipt leases c r db', record_verified claim saga receipt leases c db = Ok (r, db') -> r = None /\ db' = db)
  /\ (forall guard receipt leases c r db',
        Transitions.publish claim guard receipt leases c db = Ok (r, db') -> r = PublishStale /\ db' = db)
  /\ (forall guard saga leases c r db', cleanup claim guard saga leases c db = Ok (r, db') -> r = false /\ db' = db)
  /\ (forall guard saga class diagnostic leases c r db',
        settle_unpublished claim guard saga class diagnostic leases c db = Ok (r, db') -> r = false /\ db' = db)
  /\ (forall guard base max class leases c r db',
        settle_retry claim guard base max class leases c db = Ok (r, db') -> r = false /\ db' = db).

Lemma while_claimed_lost {A} claim now (stale : A) k db r db' :
  ~ acting claim db -> while_claimed claim now stale k db = Ok (r, db') -> r = stale /\ db' = db.
Proof. intros Hn [?|(a & Ha & Hact & _)]%while_claimed_ok; [done|]. destruct Hn. by exists a. Qed.

(** C20: A worker whose claim was lost cannot touch its transition.  Once a claim that was handed out no longer
    stands on its action, then after any later history every operation on the saga with it (preparing,
    recording the copy or its verification, publishing, cleaning up, settling or retrying) reports a stale
    claim or fails, and changes no table. *)
Theorem lost_claim_harmless (w w' : World) (claim : ClaimedLifecycleAction) (Hw : reachable_world w)
    (Hissued : claim ∈ w_issued w) (Hlost : ~ holds claim (queue_of w)) (Hlater : rtc world_step w w') :
  ~ holds claim (queue_of w') /\ saga_refused claim (w_db w').
Proof.
  apply reachable_world_inv in Hw. destruct (world_steps_inv w w' Hw Hlater) as [_ Hrows].
  apply (left_behind_iff (queue_of w) claim (wi_queue w Hw) Hissued) in Hlost.
  assert (left_behind claim (queue_of w')) as [_ Hl].
  { clear Hw Hissued Hlater. induction Hrows as [|x y z Hs _ IH]; [done|]. by apply IH, (row_step_left_behind claim x). }
  assert (~ holds claim (queue_of w')) as Hn.
  { intros (a & Ha & Hact). apply active_claim_iff in Hact as (Hs & _ & He). destruct (Hl a Ha) as [?|[_ ?]]; [lia|done]. }
  split; [done|]. split_and!; intros *; by apply while_claimed_lost.
Qed.

(** ** Reading *)

Lemma residency_of_version o v id :
  Safe o -> v ∈ versions o -> v_object_id v = Some id ->
  exists r ob p tier class, find_residency (v_id v) o = Some r /\ find_version (v_id v) o = Some v
    /\ find_object (r_object_id r) o = Some ob /\ find_physical (r_primary_tier r) (r_cid r) o = Some p
    /\ v_kind v = "object" /\ v_object_id v = Some (r_object_id r) /\ o_cid ob = r_cid r /\ o_bucket ob = v_bucket v /\ o_key ob = v_key v
    /\ tier_from_db_str (r_primary_tier r) = Ok tier /\ class_from_db_str (r_storage_class r) = Ok class
    /\ ((tier = Hot /\ class = Standard) \/ (tier = Cold /\ class = StandardIa)) /\ 0 < r_revision r
    /\ r ∈ residencies o /\ p ∈ physicals o /\ p_cid p = r_cid r /\ p_tier p = r_primary_tier r.
Proof.
  intros [Hinv _] Hv Hid. pose proof (inv_constraints o Hinv) as Hc.
  destruct (inv_residency o Hinv v id Hv Hid) as (r & Hr & Erow).
  pose proof Hc as (_ & _ & (_ & _ & _ & _ & _ & Hvc & _) & _ & (_ & Hrc & Hown & Hcont & Hpl) & _).
  rewrite Forall_forall in Hvc. rewrite Forall_forall in Hrc. rewrite Forall_forall in Hown. rewrite Forall_forall in Hcont.
  rewrite Forall_forall in Hpl.
  pose proof (Hown r Hr) as (v' & Hv' & Ev' & Eo')%version_owner_iff.
  assert (v' = v) as -> by (pose proof Hc as (_ & _ & (Hu & _) & _); eapply (unique_inj _ _ _ _ (v_id v) Hu); simpl; congruence).
  pose proof (Hcont r Hr) as (ob & [= Eoid Ecid] & Hob)%list_elem_of_fmap.
  destruct (find_physical_some o Hc (r_primary_tier r) (r_cid r) (Hpl r Hr)) as (p & Hp & Hpin).
  pose proof (proj1 (find_physical_ok o Hc _ _ _) Hp) as (_ & Ept & Epc).
  destruct (inv_object o Hinv v (r_object_id r) Hv Eo') as (ob' & Hob' & Eob' & Eb & Ek).
  assert (ob' = ob) as -> by (pose proof Hc as (_ & (Hu & _) & _); eapply (unique_inj _ _ _ _ (o_id ob) Hu); simpl; congruence).
  destruct (Hvc v Hv) as [[Hkind _]|[_ ?]]; [|congruence].
  assert (exists tier class, tier_from_db_str (r_primary_tier r) = Ok tier /\ class_from_db_str (r_storage_class r) = Ok class
    /\ ((tier = Hot /\ class = Standard) \/ (tier = Cold /\ class = StandardIa))) as (tier & class & Ht & Hcl & Htc).
  { destruct (Hrc r Hr) as [_ [[-> ->]|[-> ->]]]; eexists _, _; (split; [reflexivity|]); (split; [reflexivity|]); [by left|by right]. }
  exists r, ob, p, tier, class. split_and!; try done.
  - apply (find_residency_ok o Hc). split; [done|congruence].
  - by apply (find_version_ok o Hc).
  - apply (find_object_ok o Hc). split; [done|congruence].
  - apply (Hrc r Hr).
Qed.

(** The receipt of a copy, as the router reads it *)
Definition read_receipt (json : string) : option (string * string) :=
  (fun r => (tc_cid r, tc_node_identity r)) <$> tier_receipt_from_json json.

Lemma snapshot_fields p s : physical_snapshot p = Ok s -> ps_node_identity s = p_node_identity p
  /\ ps_verification_receipt s = p_verification_receipt p.
Proof. unfold physical_snapshot. intros E. ok_inv E. by injection E as <-. Qed.

(** The residency of a content version resolves, and a cold one has its proof. *)
Lemma version_resolves w v id :
  world_inv w -> v ∈ versions (wd_objects (w_db w)) -> v_object_id v = Some id ->
  exists res, resolve_version_residency (v_id v) (wd_objects (w_db w)) = Ok (res, wd_objects (w_db w))
    /\ rvr_identity res = {| vri_version_row_id := v_id v; vri_object_id := id; vri_cid := loc_cid (rvr_primary res) |}
    /\ ps_location (rvr_physical res) = rvr_primary res
    /\ (ps_verification_state (rvr_physical res) = VVerified -> is_Some (ps_node_identity (rvr_physical res)))
    /\ (loc_tier (rvr_primary res) = Cold -> ps_verification_state (rvr_physical res) = VVerified
        /\ exists rc json, tier_receipt_json rc = Some json /\ ps_verification_receipt (rvr_physical res) = Some json
           /\ tc_cid rc = loc_cid (rvr_primary res) /\ ps_node_identity (rvr_physical res) = Some (tc_node_identity rc)).
Proof.
  intros Hi Hv Hid. set (o := wd_objects (w_db w)) in *. pose proof (constraints_of w Hi) as Hc. fold o in Hc.
  destruct (residency_of_version o v id (wi_safe w Hi) Hv Hid)
    as (r & ob & p & tier & class & Hr & Hfv & Hob & Hp & Hkind & Hoid & Hcid & Hb & Hk & Ht & Hcl & Htc & Hrev & Hrin & Hpin & Epc & Ept).
  assert (physical_check p) as Hpk by (destruct Hc as (_ & _ & _ & (_ & Hck) & _); rewrite Forall_forall in Hck; auto).
  destruct (physical_snapshot_total p Hpk) as (s & t' & Hs & Ht' & Hloc & Hver). rewrite Ept, Ht in Ht'. injection Ht' as <-.
  pose proof (proj1 (find_residency_ok o Hc _ _) Hr) as [_ Erow]. rewrite Epc in Hloc.
  eexists. split; [|split; [|split; [|split]]].
  - unfold resolve_version_residency. pose proof (wi_named w Hi v Hv) as Hne. destruct (str_is_empty (v_id v)) eqn:En; [by destruct (v_id v)|].
    unfold tx_bind, reads, lift. rewrite Hr. simpl. rewrite Hfv. simpl. rewrite Hkind, Hoid, bool_decide_true by done. simpl.
    rewrite Hob. simpl. rewrite Hcid, Hb, Hk, !String.eqb_refl. simpl. rewrite Ht. simpl. rewrite Hcl. simpl.
    rewrite (proj2 (Z.leb_gt _ _) Hrev). destruct Htc as [[-> ->]|[-> ->]]; simpl; rewrite Hp; simpl; rewrite Hs; simpl; reflexivity.
  - simpl. rewrite Hloc. simpl. congruence.
  - simpl. by rewrite Hloc.
  - simpl. destruct (snapshot_fields p s Hs) as [-> _]. intros Ev. rewrite Ev in Hver.
    destruct Hpk as (_ & _ & [(_ & Hn & _)|([E|E] & _)]); [by destruct (p_node_identity p)|by rewrite E in Hver..].
  - simpl. intros ->. assert (r_primary_tier r = "cold") as Hcold.
    { destruct Hc as (_ & _ & _ & _ & (_ & Hrc & _) & _). rewrite Forall_forall in Hrc. destruct (Hrc r Hrin) as [_ [[E _]|[E _]]]; [|done].
      rewrite E in Ht. done. }
    destruct (wi_cold w Hi r Hrin Hcold) as (p' & rc & json & Hp' & (Hv1 & Hn1 & Hr1 & _) & Hj & Ecid). fold o in Hp'.
    rewrite Hcold, Hp' in Hp. injection Hp as ->. destruct (snapshot_fields p s Hs) as [-> ->].
    rewrite Hv1 in Hver. injection Hver as <-. split; [done|]. exists rc, json. split_and!; try done. by rewrite Hloc.
Qed.

(** C12: Every version can be read, wherever its primary copy is.  In every history, the residency of a content
    version resolves to the object of that version, and the router accepts it with the client of the tier
    as soon as that client is the node on record and the CID is well formed: a version that was moved to
    the cold tier is read from the cold node only, from a copy that was verified there. *)
Theorem every_version_readable `{!TransitionCodecLaws} {Client Cid : Type} `{EqDecision Cid}
    (with_local_reads_only : Client -> Client) (local_node_identity : Client -> option string)
    (parse_cid : string -> option Cid) (clients : TierClients)
    (w : World) (v : VersionRow) (id : string) (Hw : reachable_world w)
    (Hv : v ∈ versions (wd_objects (w_db w))) (Hid : v_object_id v = Some id) :
  exists res, resolve_version_residency (v_id v) (wd_objects (w_db w)) = Ok (res, wd_objects (w_db w))
    /\ vri_object_id (rvr_identity res) = id
    /\ (loc_tier (rvr_primary res) = Cold -> ps_verification_state (rvr_physical res) = VVerified)
    /\ forall client, client_for_tier clients (loc_tier (rvr_primary res)) = Ok client ->
         (ps_verification_state (rvr_physical res) = VVerified ->
            local_node_identity client = ps_node_identity (rvr_physical res)) ->
         is_Some (parse_cid (vri_cid (rvr_identity res))) ->
         resolve_read_source with_local_reads_only local_node_identity read_receipt parse_cid clients res
         = Ok match loc_tier (rvr_primary res) with Cold => with_local_reads_only client | Hot => client end.
Proof.
  apply reachable_world_inv in Hw. destruct (version_resolves w v id Hw Hv Hid) as (res & Hres & Hident & Hloc & Hsome & Hcold).
  exists res. split; [done|]. rewrite Hident. simpl. split; [done|]. split; [intros Ht; by destruct (Hcold Ht)|]. intros client Hcl Hnode [cid Hcid].
  unfold resolve_read_source. rewrite Hcl. simpl. rewrite Hident. simpl. rewrite bool_decide_true, String.eqb_refl by done. simpl.
  destruct (loc_tier (rvr_primary res)) eqn:Et; simpl.
  - destruct (bool_decide (ps_verification_state (rvr_physical res) = VVerified)) eqn:Ev; [|done].
    apply bool_decide_eq_true in Ev. rewrite (Hnode Ev). destruct (Hsome Ev) as [n ->]. simpl. by rewrite bool_decide_true.
  - destruct (Hcold eq_refl) as (Hv1 & rc & json & Hj & Hr & Ec & En). rewrite Hv1. simpl.
    rewrite (proj2 (validate_cold_receipt_ok read_receipt parse_cid _ _ _)); simpl.
    2: { exists json, (tc_cid rc), (tc_node_identity rc), cid. split_and!; try done; [|by rewrite Ec].
         unfold read_receipt. by rewrite (tier_receipt_read rc json Hj). }
    rewrite (Hnode Hv1), En. simpl. by rewrite bool_decide_true.
Qed.

(** ** Publication *)

Lemma other_residency s revision now id o rs :
  (id <> ss_target_version_row_id (ts_snapshot s)) -> rs = update_where (source_residency s) (moved_cold revision now) (residencies o) ->
  head (filter (fun r => r_version_row_id r = id) rs) = find_residency id o.
Proof.
  intros Hne ->. unfold find_residency. f_equal. induction (residencies o) as [|r l IH]; [done|].
  unfold update_where. simpl. destruct (decide (source_residency s r)) as [Hs|Hs].
  - destruct Hs as (Hr & _). rewrite !filter_cons, !decide_False by (simpl; congruence). exact IH.
  - rewrite !filter_cons. case_decide; [|exact IH]. by rewrite <- IH.
Qed.

Lemma published_retained s now c1 refs refs' :
  published_references s now c1 refs refs' ->
  (exists x, (x ∈ refs') /\ reference_key x = reference_key (retained_row s "cold" now))
  /\ (forall x, x ∈ refs' -> ~ retained_hot s x)
  /\ forall x, reference_key x <> reference_key (retained_row s "cold" now) -> ~ retained_hot s x -> ~ held_by (ts_id s) x ->
       x ∈ refs' <-> x ∈ refs.
Proof.
  intros (refs1 & refs2 & Hadd1 & Hadd2 & Hiff). split_and!.
  - assert (exists x, (x ∈ refs2) /\ reference_key x = reference_key (retained_row s "cold" now)) as (x & Hx & Ek).
    { destruct Hadd2 as [[-> _]|[-> (x & Ek & Hx)%list_elem_of_fmap]]; [eexists; split; [apply elem_of_app; right; left|done]|by exists x]. }
    exists x. split; [|done]. apply Hiff. unfold reference_key in Ek. simpl in Ek. injection Ek as K1 K2 K3 K4 K5.
    split; [done|]. split; [intros (_ & _ & _ & _ & _ & Ht & _); congruence|]. intros [[Hk _] _]. rewrite Hk in K1. done.
  - by intros x (_ & ? & _)%Hiff.
  - intros x Hne Hnr Hnh. rewrite Hiff.
    assert (x ∈ refs2 <-> x ∈ refs1) as ->.
    { destruct Hadd2 as [[-> _]|[-> _]]; [|done]. rewrite elem_of_app, list_elem_of_singleton. naive_solver. }
    assert (x ∈ refs1 <-> x ∈ refs) as ->; [|naive_solver].
    destruct Hadd1 as [[-> _]|[-> _]]; [|done]. rewrite elem_of_app, list_elem_of_singleton. split; [|by left].
    intros [?| ->]; [done|]. by destruct Hnh.
Qed.

(** A copy that was verified on a node, with the proof on record *)
Definition verified_copy_on (node : string) (p : PhysicalRow) : Prop :=
  p_verification_state p = "verified" /\ p_node_identity p = Some node
  /\ (exists receipt, p_verification_receipt p = Some receipt /\ receipt <> EmptyString) /\ is_Some (p_verified_at p).

Lemma verified_on_copy node p : verified_on node p = true -> verified_copy_on node p.
Proof.
  unfold verified_on, verified_copy_on. intros E. guard_inv. split_and!; [done..| |by destruct (p_verified_at p)].
  destruct (p_verification_receipt p) as [[|x t]|]; [done|by eexists|done].
Qed.

(** The source of a saga is the residency of its version, on a hot copy verified on the expected node. *)
Lemma source_verified s c db u db' :
  validate_source_snapshot s c db = Ok (u, db') ->
  exists r p, find_residency (vt_version_row_id (target c)) (wd_objects db) = Some r
    /\ find_physical "hot" (r_cid r) (wd_objects db) = Some p
    /\ verified_copy_on (ss_expected_source_node_identity (ts_snapshot s)) p.
Proof. unfold validate_source_snapshot, load_verified_source. intros E. w_inv E. guard_inv. eexists _, _. eauto using verified_on_copy. Qed.

Lemma snapshot_target a c s : validate_candidate_snapshot a c = Ok tt -> of_action a s ->
  vt_version_row_id (target c) = ss_target_version_row_id (ts_snapshot s).
Proof.
  unfold validate_candidate_snapshot. intros [Hsnap _]%bail_ok (_ & _ & _ & _ & _ & Erow & _). guard_inv. congruence.
Qed.

(** C16: A publication moves exactly one version to the cold tier, in one transaction.  Its residency, which
    was on a hot copy verified on the expected node, becomes cold at the next revision, backed by a cold
    copy that was verified on the expected node; its own reference to the hot copy is exchanged for one to
    the cold copy; of the references of the saga exactly one is left, the one that keeps the hot copy until
    the publication is cleaned up; every other version, residency, copy and reference stays as it was, and so
    do the queue and the tickets.  The receipt that the saga records reads back as this publication. *)
Theorem publish_moves_version `{!TransitionCodecLaws} (w : World) (claim : ClaimedLifecycleAction) (guard : StandardMutationGuard)
    (receipt : TierCopyReceipt) (leases : AppResult unit) (c : nat -> Z) (s' : TransitionSaga) (db' : WorkerDb)
    (Hw : reachable_world w)
    (Hrun : Transitions.publish claim guard receipt leases c (w_db w) = Ok (Published s', db')) :
  let o := wd_objects (w_db w) in let o' := wd_objects db' in
  let row := ss_target_version_row_id (ts_snapshot s') in
  exists s r p text,
    sagas (w_db w) !! cl_id claim = Some s /\ same_saga s s' /\ ts_checkpoint s = "verify" /\ ts_checkpoint s' = "publish"
    /\ sagas db' = <[cl_id claim := s']> (sagas (w_db w)) /\ actions db' = actions (w_db w) /\ tickets db' = tickets (w_db w)
    /\ find_residency row o = Some r /\ r_primary_tier r = "hot" /\ r_storage_class r = "STANDARD"
    /\ find_residency row o' = Some (moved_cold (r_revision r + 1) (c 6%nat) r)
    /\ (forall id, id <> row -> find_residency id o' = find_residency id o)
    /\ (exists hot, find_physical "hot" (r_cid r) o = Some hot
          /\ verified_copy_on (ss_expected_source_node_identity (ts_snapshot s')) hot)
    /\ find_physical "cold" (r_cid r) o' = Some p
    /\ verified_copy_on (ss_expected_destination_node_identity (ts_snapshot s')) p
    /\ objects_kept o o' /\ physicals o' = physicals o
    /\ (exists x, (x ∈ references o') /\ reference_key x = reference_key (retained_row s' "cold" (c 6%nat)))
    /\ (forall x, x ∈ references o' -> ~ retained_hot s' x)
    /\ (forall x, reference_key x <> reference_key (retained_row s' "cold" (c 6%nat)) -> ~ retained_hot s' x ->
          ~ held_by (ts_id s') x -> x ∈ references o' <-> x ∈ references o)
    /\ (exists now, hold_row s' TransitionCleanupHold Hot now ∈ references o')
    /\ (forall x, x ∈ references o' -> held_by (ts_id s') x -> exists now, x = hold_row s' TransitionCleanupHold Hot now)
    /\ ts_publication_receipt s' = Some text
    /\ publication_from_json text = Some (published_receipt claim s' (r_revision r + 1) (c 6%nat)).
Proof.
  apply reachable_world_inv in Hw. pose proof (constraints_of w Hw) as Hc. intros o o' row.
  apply publish_effect in Hrun as [[_ Hno]|(s & x & a & cand & [= <-] & Hs & Ha & Hact & _ & _ & _ & Hsnap & _ & Hvs & _ & E)]; [by destruct (Hno s')| |done|apply Hw].
  apply publish_residency_effect in E
    as (p & json & pub & r & Hp & Hj & Hpv & Hpr & Hpn & Hf & Hsrc & Hpub & Hcp & Hset & Hs' & Hsg & Hac & Hti & Hk & Hps & Hres & Hrefs & Hc' & Hsc');
    [|done|apply Hw|done].
  assert (same_saga s s') as Hsame by (by subst s'). pose proof Hsame as [Eid Esn].
  pose proof Hsrc as (Erow & _ & Ecid & Et & Ecl & _).
  destruct (published_retained s _ _ _ _ Hrefs) as (Hcoldref & Hnohot & Hrest).
  assert (forall t now, retained_row s' t now = retained_row s t now) as Hrr by (intros; unfold retained_row; by rewrite Esn).
  assert (forall y, retained_hot s' y <-> retained_hot s y) as Hrh by (intros; unfold retained_hot; by rewrite Esn).
  assert (ts_checkpoint s' = "publish" /\ ts_settlement_kind s' = None) as [Hcp' Hset'] by (by subst s').
  destruct (published_holds s s' _ _ _ _ Hsame Hcp Hset Hcp' Hset' (proj1 (wi_holds w Hw _ s Hs)) Hrefs) as [[Honly Hhold] _].
  assert (required_holds s' = [(TransitionCleanupHold, Hot)]) as Hreq by (unfold required_holds, unsettled, in_checkpoint; by rewrite Hset', Hcp').
  rewrite Hreq in Honly, Hhold.
  destruct (source_verified _ _ _ _ _ Hvs) as (r' & hot & Hr' & Hhot & Hver).
  rewrite (snapshot_target _ _ s Hsnap (wi_actions w Hw _ s a Hs Ha)), Hf in Hr'. injection Hr' as <-.
  rewrite Eid in Honly. exists s, r, p, pub. rewrite Hrr, Eid. setoid_rewrite Hrh. unfold row. rewrite Esn. split_and!; try done.
  - apply (find_residency_ok _ Hc'). split; [|done]. rewrite Hres. apply elem_of_update_where. exists r.
    rewrite decide_True by done. split; [|done]. by apply (find_residency_ok _ Hc) in Hf as [? _].
  - intros id Hne. by eapply other_residency.
  - by exists hot.
  - unfold o', find_physical in *. by rewrite Hps, Ecid.
  - apply verified_on_copy. unfold verified_on. rewrite Hpv, bool_decide_true, Hpr by done. simpl.
    apply (find_physical_ok _ Hc) in Hp as (Hp & _). pose proof Hc as (_ & _ & _ & (_ & Hck) & _). rewrite Forall_forall in Hck.
    destruct (Hck p Hp) as (_ & _ & [(_ & _ & Hne & [t ->])|([?|?] & _)]); [|congruence..]. rewrite Hpr in Hne. by destruct json.
  - apply Hhold; [done|left].
  - intros x Hx Hh. destruct (Honly x Hx Hh) as (reason & tier & now & [= -> ->]%list_elem_of_singleton & ->). by exists now.
  - by subst s'.
  - rewrite (publication_read _ _ Hpub). unfold published_receipt. by rewrite Eid, Esn.
Qed.

(** The evaluator proposes an action that a rule is eligible to take. *)
Lemma evaluated_eligible cx version a :
  ctx_candidate cx = CandVersion version -> evaluate_candidate cx = Ok (Some a) ->
  exists n r id st, rules (configuration cx) !! n = Some r /\ rule_identity (rule_id r) (Z.of_nat n) = Ok (id, st)
    /\ act_rule_identity a = id /\ act_target a = TargetVersion (target version)
    /\ eligible {| candidate := version; facts := cx |} r (act_kind a) (act_due_at a).
Proof.
  intros Hc He. unfold evaluate_candidate in He. rewrite Hc in He. ok_inv He. simplify_eq.
  apply fmap_Some in He as (p & Hp & ->). unfold select_winner in Hp. apply sort_by_head in Hp as [Hin _].
  apply (evaluate_rules_spec _ _ _ E0) in Hin as (n & r & id & st & kind & due & Hn & Hid & Hel & ->). by exists n, r, id, st.
Qed.

Lemma revalidated_action claim c1 c2 db cand db' :
  revalidate_transition configuration_from_json claim c1 c2 db = Ok (Some cand, db') ->
  exists a row json config kind cx expected v,
    actions db !! cl_id claim = Some a /\ wd_configs db !! vt_bucket (target cand) = Some row
    /\ lc_revision row = ac_config_revision (la_columns a) /\ lc_canonical_json row = Some json
    /\ from_canonical_json configuration_from_json json = Ok config
    /\ action_kind_from_db (ac_action_kind (la_columns a)) = Ok kind
    /\ stored_context cx cand v config c2 db
    /\ evaluate_candidate cx = Ok (Some expected)
    /\ action_matches_expected (la_columns a) expected = true.
Proof.
  unfold revalidate_transition, lock_lifecycle_configuration. intros (locked & d & (l & E & ->)%on_lifecycle_ok & Hk)%t_bind_ok.
  apply lock_claim_ok in E as [-> Hr]. assert (set_lifecycle (wd_lifecycle db) db = db) as Hid by (by destruct db). rewrite Hid in Hk.
  destruct locked as [a|]; [|by t_inv Hk]. destruct (Hr a eq_refl) as (Ha & _). destruct (negb _); [by t_inv Hk|].
  apply t_bind_ok in Hk as (identity & d & [_ ->]%t_lift_ok & Hk). destruct identity as [t|t]; [|by t_inv Hk].
  apply t_bind_ok in Hk as (row & d & [-> ->]%t_reads_ok & Hk). destruct (wd_configs db !! vt_bucket t) as [row|] eqn:Erow; [|by t_inv Hk].
  destruct (lc_revision row =? _) eqn:Erev; [|by t_inv Hk]. apply Z.eqb_eq in Erev. simpl in Hk.
  destruct (lc_canonical_json row) as [json|] eqn:Ejson; [|by t_inv Hk].
  apply t_bind_ok in Hk as (config & d & [Hconfig ->]%t_lift_ok & Hk). apply t_bind_ok in Hk as (kind & d & [Hkind ->]%t_lift_ok & Hk).
  apply t_bind_ok in Hk as (candidate & d & Hcand & Hk). pose proof Hcand as Hro.
  apply (read_only_run (on_objects _)) in Hro as ->; [|apply read_only_on_objects, revalidate_candidate_read_only].
  apply on_objects_ok in Hcand as (o' & Hcand & _). destruct candidate as [[cv|]|]; [|by t_inv Hk..].
  apply revalidated_stored in Hcand as (c & v & [= <-] & Et & Hstored).
  apply t_bind_ok in Hk as (tags & d & Htags & Hk). rewrite <- Et, (sc_object_id _ _ _ Hstored) in Htags.
  apply list_object_tags_stored in Htags as [-> Htags].
  apply t_bind_ok in Hk as (cx & d & [Ecx ->]%t_reads_ok & Hk). apply t_bind_ok in Hk as (expected & d & [Hexp ->]%t_lift_ok & Hk).
  t_inv Hk. destruct expected as [expected|]; [|done]. simpl in *.
  destruct (action_matches_expected _ expected) eqn:Em; [|done]. simplify_eq.
  exists a, row, json, config, kind. eexists _, expected, v. split_and!; try done. by apply evaluation_context_stored.
Qed.

(** The destination carries the ticket of the claim. *)
Definition ticket_held (claim : ClaimedLifecycleAction) (guard : StandardMutationGuard) (bucket key : string) (im : ImportDb) : Prop :=
  exists d, im_dests im !! (bucket, key) = Some d /\ de_mutation_id d = Some (claim_token claim)
    /\ de_generation d = mg_expected_generation guard /\ de_owner_job_id d = None.

Lemma verified_ticket claim guard bucket key clk db :
  validate_guard_binding claim guard = Ok tt ->
  on_tickets (verify_standard_mutation_guard guard bucket key [] clk) db = Ok (tt, db) ->
  ticket_held claim guard bucket key (tickets db).
Proof.
  unfold validate_guard_binding. intros Hb E. ok_inv Hb. guard_inv. clear Hb.
  apply on_lifecycle_ok in E as (l & (im & E & _)%on_imports_ok & _).
  unfold verify_standard_mutation_guard, find_destination_for_update in E. t_inv E. guard_inv.
  match goal with d : Destination |- _ => exists d; split_and!; try done; [congruence|by destruct (de_owner_job_id d)] end.
Qed.

End theorems.
