(* ===== verification/BucketDelete.v ===== *)
(** * The deletion of a bucket ([delete] of [src/store/bucket.rs])

    The whole transaction: the lock, the five kinds of content that refuse it, the removal of the settled
    transitions, and the [DELETE] with the cascades of the schema ([src/store/migrations/baseline]) over
    every table of [WorkerDb]. *)

From Stdlib Require Import ZArith Lia Ascii.
From Stdlib Require String.
From stdpp Require Import base list strings pretty sorting gmap.
From S2P Require Import Prelude Errors Chrono VersionModel Database Transaction ObjectStore ResidencyStore VersionStore VersionSpec.
From S2P Require Import VersionReads Publication VersionSystem ImportDb Ownership LifecycleActions LifecycleQueue Revalidation Transitions.
From S2P Require Import TransitionRuns TransitionSystem TransitionTheorems.

#[local] Open Scope string_scope.
#[local] Open Scope list_scope.
#[local] Open Scope Z_scope.
#[local] Open Scope rust_scope.

(** ** The cascades *)

(** The objects that go with the bucket *)
Definition dropped_objects (bucket : string) (o : Db) : list string :=
  o_id <$> filter (fun r => o_bucket r = bucket) (objects o).

(** Objects and versions go with their bucket, versions with their object, and residencies and references
    with their version or their object. *)
Definition delete_bucket_objects (bucket : string) (o : Db) : Db :=
  let gone := dropped_objects bucket o in
  let kept := filter (fun v => v_bucket v <> bucket /\ from_option (fun id => id ∉ gone) True (v_object_id v)) (versions o) in
  let owners := version_owners (set_versions kept o) in
  {| buckets := filter (fun b => b_name b <> bucket) (buckets o);
     objects := filter (fun r => o_bucket r <> bucket) (objects o);
     versions := kept; physicals := physicals o;
     residencies := filter (fun r => ((r_version_row_id r, r_object_id r) ∈ owners) /\ r_object_id r ∉ gone) (residencies o);
     references := filter (fun r => ((ref_version_row_id r, ref_object_id r) ∈ owners) /\ ref_object_id r ∉ gone) (references o) |}.

(** Parts go with their upload. *)
Definition delete_bucket_uploads (bucket : string) (u : UploadTables) : UploadTables :=
  {| up_uploads := filter (fun r => mu_bucket r.2 <> bucket) (up_uploads u);
     up_parts := filter (fun p => from_option (fun r => mu_bucket r <> bucket) True (up_uploads u !! p.1.1)) (up_parts u) |}.

(** Tags go with their object.  Transitions do not go with the bucket or with their action. *)
Definition delete_bucket_tables (bucket : string) (db : WorkerDb) : WorkerDb :=
  {| wd_lifecycle :=
       {| ld_imports := without_bucket_imports bucket (tickets db);
          ld_actions := filter (fun r => ac_bucket (la_columns r.2) <> bucket) (actions db); ld_sagas := sagas db |};
     wd_objects := delete_bucket_objects bucket (wd_objects db);
     wd_configs := delete bucket (wd_configs db);
     wd_tags := filter (fun t => t.1.1 ∉ dropped_objects bucket (wd_objects db)) (wd_tags db);
     wd_uploads := delete_bucket_uploads bucket (wd_uploads db) |}.

(** What the tables of [WorkerDb] check *)
Definition table_constraints (db : WorkerDb) : Prop :=
  saga_constraints db /\ constraints (wd_objects db) /\ import_constraints (tickets db).

#[export] Instance table_constraints_dec db : Decision (table_constraints db).
Proof. unfold table_constraints. apply _. Defined.

(** ** The transaction *)

Section deletion.
Context `{Chrono} `{ActionCodec} `{UuidLaws} `{OwnershipGranted} `{TransitionCodec}.

Definition bucket_delete (bucket : string) (now : Z) : WTx unit :=
  let* _ := on_tickets (lock_bucket_for_ownership bucket) in
  let* has_multipart_uploads := t_reads (fun db =>
    existsb (fun r : string * UploadRow => String.eqb (mu_bucket r.2) bucket) (map_to_list (up_uploads (wd_uploads db)))) in
  stop_if has_multipart_uploads with BucketNotEmpty bucket else
  let* has_active_imports := t_reads (fun db => negb (bool_decide (active_ids bucket (tickets db) = []))) in
  stop_if has_active_imports with BucketNotEmpty bucket else
  let* has_objects := t_reads (fun db =>
    existsb (fun o => String.eqb (o_bucket o) bucket && o_is_latest o) (objects (wd_objects db))) in
  stop_if has_objects with BucketNotEmpty bucket else
  let* has_versions := t_reads (fun db => existsb (fun v => String.eqb (v_bucket v) bucket) (versions (wd_objects db))) in
  stop_if has_versions with BucketNotEmpty bucket else
  let* _ := delete_bucket_sagas bucket in
  let* _ := on_tickets (supersede_bucket bucket now) in
  let* rows_affected := t_reads (fun db => one_if (bool_decide (bucket ∈ im_buckets (tickets db)))) in
  stop_if negb (rows_affected =? 1) with NoSuchBucket bucket else
  t_exec table_constraints (delete_bucket_tables bucket).

(** * Properties *)

(** A bucket in use: it has an upload, an unfinished import, a current object, a version or an open
    transition. *)
Definition bucket_in_use (bucket : string) (db : WorkerDb) : Prop :=
  (exists id u, up_uploads (wd_uploads db) !! id = Some u /\ mu_bucket u = bucket)
  \/ (exists id j, im_jobs (tickets db) !! id = Some j /\ ij_bucket j = bucket /\ active_state (ij_state j) = true)
  \/ (exists o, o ∈ objects (wd_objects db) /\ o_bucket o = bucket /\ o_is_latest o = true)
  \/ (exists v, v ∈ versions (wd_objects db) /\ v_bucket v = bucket)
  \/ (exists i s, sagas db !! i = Some s /\ ss_bucket (ts_snapshot s) = bucket /\ ts_settlement_kind s = None).

(** What the deletion of a bucket leaves: nothing of the bucket, and everything else. *)
Record bucket_removed (bucket : string) (db db' : WorkerDb) : Prop := {
  br_buckets : buckets (wd_objects db') = filter (fun b => b_name b <> bucket) (buckets (wd_objects db));
  br_names : im_buckets (tickets db') = im_buckets (tickets db) ∖ {[bucket]};
  br_sagas : sagas db' = filter (fun r => ss_bucket (ts_snapshot r.2) <> bucket) (sagas db);
  br_actions : actions db' = filter (fun r => ac_bucket (la_columns r.2) <> bucket) (actions db);
  br_configs : wd_configs db' = delete bucket (wd_configs db);
  br_objects : objects (wd_objects db') = filter (fun o => o_bucket o <> bucket) (objects (wd_objects db));
  br_versions : versions (wd_objects db') = versions (wd_objects db);
  br_physicals : physicals (wd_objects db') = physicals (wd_objects db);
  br_residencies : residencies (wd_objects db') = residencies (wd_objects db);
  br_references : references (wd_objects db') = references (wd_objects db);
  br_uploads : wd_uploads db' = wd_uploads db;
  br_tags : wd_tags db' = filter (fun t => t.1.1 ∉ dropped_objects bucket (wd_objects db)) (wd_tags db);
  br_jobs : im_jobs (tickets db') = im_jobs (tickets db);
  br_dests : im_dests (tickets db') = filter (fun kd => kd.1.1 <> bucket) (im_dests (tickets db));
  br_claims : im_claims (tickets db') = filter (fun kc => kc.1.1.2 <> bucket) (im_claims (tickets db));
  br_targets : im_targets (tickets db') = filter (fun kt => kt.1.1.2 <> bucket) (im_targets (tickets db));
  br_leases : im_leases (tickets db') = filter (fun kl => kl.1.1 <> bucket) (im_leases (tickets db));
  br_constraints : table_constraints db'
}.

(** ** The tables *)

Lemma without_bucket_imports_ok bucket db : import_constraints db -> import_constraints (without_bucket_imports bucket db).
Proof.
  intros (Hj & Ht & Hd & Hc & Hg & Hl). unfold import_constraints. simpl. split_and!; [done|done|..];
    intros k x [Hx Hne]%map_lookup_filter_Some; simpl in Hne.
  - destruct (Hd k x Hx) as (? & ? & ?). split; [set_solver|done].
  - destruct (Hc k x Hx) as (? & ? & ?). split; [done|]. split; [set_solver|done].
  - destruct (Hg k x Hx) as (? & ? & ? & ?). split; [done|]. split; [set_solver|done].
  - destruct (Hl k x Hx) as [d Hk]. exists d. by apply map_lookup_filter_Some.
Qed.

(** The object of a version is in the version's bucket. *)
Lemma version_object_kept bucket o id object_id :
  Inv o -> (forall v, v ∈ versions o -> v_bucket v <> bucket) -> (id, object_id) ∈ version_owners o ->
  object_id ∉ dropped_objects bucket o.
Proof.
  intros Hi Hno Hown. unfold version_owners in Hown. apply list_elem_of_omap in Hown as (v & Hv & Ho).
  destruct (v_object_id v) as [x|] eqn:Ex; [|done]. injection Ho as _ <-.
  destruct (inv_object _ Hi v x Hv Ex) as (r & Hr & Hid & Hb & _). intros Hin.
  apply list_elem_of_fmap in Hin as (r' & Hid' & [Hb' Hr']%list_elem_of_filter).
  destruct (inv_constraints _ Hi) as (_ & (Hu & _) & _).
  assert (r = r') as <- by (eapply (unique_inj (fun o => Some (o_id o))); [done|done|done|done|simpl; congruence]).
  apply (Hno v Hv). congruence.
Qed.

Lemma kept_versions bucket o :
  Inv o -> (forall v, v ∈ versions o -> v_bucket v <> bucket) ->
  filter (fun v => v_bucket v <> bucket /\ from_option (fun id => id ∉ dropped_objects bucket o) True (v_object_id v))
    (versions o) = versions o.
Proof.
  intros Hi Hno. apply filter_all. intros v Hv. split; [by apply Hno|]. destruct (v_object_id v) as [x|] eqn:Ex; [|done].
  simpl. apply (version_object_kept bucket o (v_id v)); [done|done|]. apply list_elem_of_omap. exists v. by rewrite Ex.
Qed.

Lemma set_versions_same o : set_versions (versions o) o = o.
Proof. by destruct o. Qed.

(** A bucket without versions takes only its row and unused objects along. *)
Lemma delete_bucket_objects_run bucket o :
  Inv o -> (forall v, v ∈ versions o -> v_bucket v <> bucket) ->
  delete_bucket_objects bucket o
  = set_buckets (filter (fun b => b_name b <> bucket) (buckets o))
      (set_objects (filter (fun r => o_bucket r <> bucket) (objects o)) o).
Proof.
  intros Hi Hno. unfold delete_bucket_objects. cbv zeta. rewrite kept_versions, set_versions_same by done.
  destruct (inv_constraints _ Hi) as (_ & _ & _ & _ & (_ & _ & Hres & _) & (_ & _ & Href & _)).
  rewrite Forall_forall in Hres. rewrite Forall_forall in Href.
  rewrite (filter_all _ (residencies o)), (filter_all _ (references o)); [done|..];
    intros r Hr; [apply Href in Hr|apply Hres in Hr]; (split; [done|]); by eapply version_object_kept.
Qed.

Lemma kept_object {K} (f : ObjectRow -> K) bucket o x :
  x ∈ map f (objects o) -> (forall r, r ∈ objects o -> f r = x -> o_id r ∉ dropped_objects bucket o) ->
  x ∈ map f (filter (fun r => o_bucket r <> bucket) (objects o)).
Proof.
  intros (r & -> & Hr)%list_elem_of_fmap Hkept. apply (list_elem_of_fmap_2 f), list_elem_of_filter. split; [|done].
  intros Hb. apply (Hkept r Hr eq_refl), list_elem_of_fmap_2, list_elem_of_filter. done.
Qed.

Lemma delete_bucket_objects_ok bucket o :
  Inv o -> (forall v, v ∈ versions o -> v_bucket v <> bucket) -> constraints (delete_bucket_objects bucket o).
Proof.
  intros Hi Hno. rewrite delete_bucket_objects_run by done.
  destruct (inv_constraints _ Hi) as ((Hbn & Hbc) & (Ho1 & Ho2 & Ho3) & (Hv1 & Hv2 & Hv3 & Hv4 & Hv5 & Hv6 & Hv7 & Hv8)
    & Hp & (Hr1 & Hr2 & Hr3 & Hr4 & Hr5) & (Hf1 & Hf2 & Hf3 & Hf4 & Hf5)).
  assert (forall name, name ∈ map b_name (buckets o) -> name <> bucket ->
    name ∈ map b_name (filter (fun b => b_name b <> bucket) (buckets o))) as Hname.
  { intros name (b & -> & Hb)%list_elem_of_fmap Hne. by apply list_elem_of_fmap_2, list_elem_of_filter. }
  assert (forall row id cid, (row, id) ∈ version_owners o -> (id, cid) ∈ object_contents o ->
    (id, cid) ∈ map (fun r => (o_id r, o_cid r)) (filter (fun r => o_bucket r <> bucket) (objects o))) as Hcontent.
  { intros row id cid Hown Hc. apply kept_object; [done|]. intros r Hr [= <- _]. by eapply version_object_kept. }
  split; [|split; [|split; [|split; [done|split]]]]; split_and!; simpl; try done; try (by apply unique_filter);
    try (by apply Forall_filter); try apply Forall_forall.
  - eapply sublist_NoDup; [exact Hbn|]. apply fmap_sublist, sublist_filter.
  - intros r [Hne Hr]%list_elem_of_filter. rewrite Forall_forall in Ho3. by apply Hname; [apply Ho3|].
  - intros v Hv. rewrite Forall_forall in Hv7. by apply Hname; [apply Hv7|apply Hno].
  - intros v Hv. rewrite Forall_forall in Hv8. specialize (Hv8 v Hv). destruct (v_object_id v) as [x|] eqn:Ex; [|done].
    apply kept_object; [done|]. intros r _ <-. apply (version_object_kept bucket o (v_id v)); [done|done|].
    apply list_elem_of_omap. exists v. by rewrite Ex.
  - intros r Hr. rewrite Forall_forall in Hr3. rewrite Forall_forall in Hr4. by eapply Hcontent; [apply Hr3|apply Hr4].
  - intros r Hr. rewrite Forall_forall in Hf3. rewrite Forall_forall in Hf4. by eapply Hcontent; [apply Hf3|apply Hf4].
Qed.

Lemma delete_bucket_uploads_run bucket u :
  (forall id r, up_uploads u !! id = Some r -> mu_bucket r <> bucket) -> delete_bucket_uploads bucket u = u.
Proof.
  intros Hno. unfold delete_bucket_uploads. destruct u as [ups parts]. simpl in *. f_equal; apply map_filter_id.
  - intros id r Hr. by apply (Hno id).
  - intros p c _. simpl. destruct (ups !! p.1) as [r|] eqn:E; [|done]. by apply (Hno p.1).
Qed.

(** No transition of another bucket goes with this one, or loses its action. *)
Lemma delete_bucket_sagas_ok w bucket :
  world_inv w ->
  saga_constraints (delete_bucket_tables bucket (set_sagas (filter (fun r => ss_bucket (ts_snapshot r.2) <> bucket)) (w_db w))).
Proof.
  intros Hi. destruct (wi_sagas w Hi) as (Hck & Hu & Ha & Hb & Hp). unfold saga_constraints. simpl. split_and!.
  - intros i s [Hs _]%map_lookup_filter_Some. by apply (Hck i).
  - intros i s [Hs _]%map_lookup_filter_Some j s' [Hs' _]%map_lookup_filter_Some. by apply (Hu i s Hs j s').
  - intros i s [Hs Hne]%map_lookup_filter_Some. destruct (Ha i s Hs) as [a Hact]. exists a.
    apply map_lookup_filter_Some. split; [done|]. simpl in *. destruct (wi_actions w Hi i s a Hs Hact) as [-> _]. done.
  - intros i s [Hs Hne]%map_lookup_filter_Some. specialize (Hb i s Hs). simpl in *. set_solver.
  - intros i s [Hs _]%map_lookup_filter_Some. by apply (Hp i).
Qed.

(** ** The run *)

Lemma supersede_idle bucket now db : active_ids bucket db = [] -> supersede_bucket bucket now db = Ok (0, db).
Proof.
  intros Hno. unfold supersede_bucket, keyset_loop, t_bind, t_reads, t_ret, rows_after. simpl. by rewrite Hno.
Qed.

Lemma supersede_run bucket now db :
  active_ids bucket (tickets db) = [] -> on_tickets (supersede_bucket bucket now) db = Ok (0, db).
Proof.
  intros Hno. unfold on_tickets, on_lifecycle, on_imports. unfold tickets in Hno. rewrite supersede_idle by done.
  by destruct db as [[]].
Qed.

Lemma elem_of_active_ids bucket db id :
  id ∈ active_ids bucket db <->
  exists j, im_jobs db !! id = Some j /\ ij_bucket j = bucket /\ active_state (ij_state j) = true.
Proof.
  unfold active_ids, sorted_ids. rewrite elem_of_sort_by, list_elem_of_fmap. split.
  - intros ([i j] & -> & [Hj Hm]%list_elem_of_filter). apply elem_of_map_to_list in Hm. by exists j.
  - intros (j & Hj & Hb). exists (id, j). split; [done|]. by apply list_elem_of_filter; rewrite elem_of_map_to_list.
Qed.

Lemma existsb_spec {A} (f : A -> bool) l : existsb f l = true <-> exists x, x ∈ l /\ f x = true.
Proof. rewrite existsb_exists. by setoid_rewrite list_elem_of_In. Qed.

Lemma lock_bucket_run bucket db :
  on_tickets (lock_bucket_for_ownership bucket) db
  = if bool_decide (bucket ∈ im_buckets (tickets db)) then Ok (tt, db) else Err (NoSuchBucket bucket).
Proof.
  unfold on_tickets, on_lifecycle, on_imports, lock_bucket_for_ownership, t_bind, t_reads, t_ret, tickets. simpl.
  destruct (bool_decide _); simpl; [|done]. by destruct db as [[]].
Qed.

(** The tables after the deletion *)
Lemma bucket_removed_run w bucket :
  world_inv w -> import_constraints (tickets (w_db w)) -> ~ bucket_in_use bucket (w_db w) ->
  bucket_removed bucket (w_db w)
    (delete_bucket_tables bucket (set_sagas (filter (fun r => ss_bucket (ts_snapshot r.2) <> bucket)) (w_db w))).
Proof.
  intros Hi Himports Hfree. destruct (wi_safe w Hi) as [Hinv _].
  assert (forall v, v ∈ versions (wd_objects (w_db w)) -> v_bucket v <> bucket) as Hno
    by (intros v Hv Hb; apply Hfree; do 3 right; left; by exists v).
  pose proof (delete_bucket_objects_run bucket _ Hinv Hno) as Ho.
  assert (delete_bucket_uploads bucket (wd_uploads (w_db w)) = wd_uploads (w_db w)) as Hu.
  { apply delete_bucket_uploads_run. intros id r Hr Hb. apply Hfree. left. by exists id, r. }
  set (db' := delete_bucket_tables _ _).
  assert (table_constraints db') as Hc
    by (split; [by apply delete_bucket_sagas_ok|]; split; [by apply delete_bucket_objects_ok|by apply without_bucket_imports_ok]).
  assert (wd_objects db' = delete_bucket_objects bucket (wd_objects (w_db w))) as Hd by done. rewrite Ho in Hd.
  split; rewrite ?Hd; done.
Qed.

(** C32: A bucket is deleted when it is not in use, and otherwise stays as it is.  In every history whose
    import tables keep their constraints, the whole transaction is refused with [NoSuchBucket] when the
    bucket does not exist, and with [BucketNotEmpty] exactly when it has an upload, an unfinished import, a
    current object, a version or a transition that is not settled.  Otherwise it succeeds: no foreign key,
    trigger or stuck transition refuses it, the cascades take the rows of the bucket from every table, and
    no version, residency, reference, physical copy, upload or job goes with them, nor anything of another
    bucket. *)
Theorem bucket_delete_spec (w : World) (bucket : string) (now : Z) (Hw : reachable_world w)
    (Himports : import_constraints (tickets (w_db w))) :
  match bucket_delete bucket now (w_db w) with
  | Err e => (e = NoSuchBucket bucket /\ bucket ∉ im_buckets (tickets (w_db w)))
             \/ (e = BucketNotEmpty bucket /\ (bucket ∈ im_buckets (tickets (w_db w))) /\ bucket_in_use bucket (w_db w))
  | Ok (_, db') => (bucket ∈ im_buckets (tickets (w_db w))) /\ ~ bucket_in_use bucket (w_db w)
                   /\ bucket_removed bucket (w_db w) db'
  end.
Proof.
  unfold bucket_delete. unfold t_bind at 1. rewrite lock_bucket_run. case_bool_decide as Hb; [|by left]. cbn [rbind].
  assert (bucket_in_use bucket (w_db w) -> (BucketNotEmpty bucket = NoSuchBucket bucket /\ bucket ∉ im_buckets (tickets (w_db w)))
    \/ (BucketNotEmpty bucket = BucketNotEmpty bucket /\ (bucket ∈ im_buckets (tickets (w_db w))) /\ bucket_in_use bucket (w_db w)))
    as Hrefuse by (intros ?; by right).
  rewrite bind_reads. destruct (existsb _ _) eqn:Eu.
  { apply Hrefuse. left. apply existsb_spec in Eu as ([id u] & Hu%elem_of_map_to_list & Hm%String.eqb_eq). by exists id, u. }
  rewrite bind_reads. destruct (bool_decide_reflect (active_ids bucket (tickets (w_db w)) = [])) as [Ei|Ei]; cbn [negb].
  2:{ apply Hrefuse. right; left. destruct (active_ids _ _) as [|id l] eqn:El; [done|]. exists id.
      apply elem_of_active_ids. rewrite El. left. }
  rewrite bind_reads. destruct (existsb _ (objects _)) eqn:Eo.
  { apply Hrefuse. do 2 right; left. apply existsb_spec in Eo as (o & Ho & [Hm%String.eqb_eq Hl]%andb_true_iff). by exists o. }
  rewrite bind_reads. destruct (existsb _ (versions _)) eqn:Ev.
  { apply Hrefuse. do 3 right; left. apply existsb_spec in Ev as (v & Hv & Hm%String.eqb_eq). by exists v. }
  unfold t_bind at 1. destruct (bucket_sagas_deletable w bucket Hw) as [[Hopen ->]|[Hsettled ->]].
  { apply Hrefuse. by do 4 right. }
  cbn [rbind]. set (db1 := set_sagas _ (w_db w)). unfold t_bind at 1. rewrite supersede_run by done. cbn [rbind].
  rewrite bind_reads, bool_decide_true by done. cbn [one_if negb Z.eqb Pos.eqb].
  assert (~ bucket_in_use bucket (w_db w)) as Hfree.
  { intros [(id & u & Hu & Hm)|[(id & Hj)|[(o & Ho & Hm & Hl)|[(v & Hv & Hm)|(i & s & Hs & Hm & Hk)]]]].
    - apply not_true_iff_false in Eu. apply Eu, existsb_spec. exists (id, u). rewrite elem_of_map_to_list. by rewrite String.eqb_eq.
    - apply elem_of_active_ids in Hj. rewrite Ei in Hj. by apply elem_of_nil in Hj.
    - apply not_true_iff_false in Eo. apply Eo, existsb_spec. exists o. by rewrite andb_true_iff, String.eqb_eq.
    - apply not_true_iff_false in Ev. apply Ev, existsb_spec. exists v. by rewrite String.eqb_eq.
    - by apply (Hsettled i s). }
  pose proof (bucket_removed_run w bucket (reachable_world_inv w Hw) Himports Hfree) as Hr. fold db1 in Hr.
  unfold t_exec. destruct (decide _) as [_|Hn]; [done|]. destruct Hn. apply Hr.
Qed.
End deletion.
