(* ===== verification/TransitionWorker.v ===== *)
(** * The transition worker ([src/lifecycle/transition.rs])

    A worker runs one transaction after the other and talks to the Kubo nodes in between, while anything
    else may happen to the tables.  Its code is a tree: a node is a transaction or a question to the
    outside, and the answer selects the rest.  The theorem says that whatever the answers are, and
    whatever others do in between, a run of the worker is a history of [TransitionSystem]. *)

From Stdlib Require Import ZArith Lia Ascii.
From Stdlib Require String.
From stdpp Require Import base list strings pretty sorting gmap.
From S2P Require Import Prelude Errors Chrono VersionModel LifecycleModel LifecycleConfig LifecycleEval Database Transaction.
From S2P Require Import ObjectStore ResidencyStore VersionStore VersionSpec VersionReads Publication VersionSystem StoreEffects.
From S2P Require Import ImportDb Ownership LifecycleActions LifecycleQueue Revalidation Transitions TransitionRuns TransitionSystem.

#[local] Open Scope string_scope.
#[local] Open Scope list_scope.
#[local] Open Scope Z_scope.
#[local] Open Scope rust_scope.

(** ** Programs *)

(** What a transaction draws: clock readings, the outcome of locking leases, and fresh identifiers: of a
    saga, of a version, and of its row *)
Record Draws : Type := {
  dr_clock : nat -> Z;
  dr_leases : AppResult unit;
  dr_uuid : string;
  dr_public : string;
  dr_row : string
}.

Definition later (n : nat) (c : nat -> Z) : nat -> Z := fun i => c (n + i)%nat.

(** [Transact m k] runs [m] in a transaction, commits it when the flag is set, and goes on with its
    result; a failure rolls it back.  [Await k] goes on with what the outside answers. *)
Inductive Work (A : Type) : Type :=
| Finish (r : AppResult A)
| Transact {B : Type} (m : Draws -> WTx (B * bool)) (k : AppResult B -> Work A)
| Await {B : Type} (k : B -> Work A).
Arguments Finish {A} _.
Arguments Transact {A B} _ _.
Arguments Await {A B} _.

Fixpoint work_bind {A B} (m : Work A) (k : AppResult A -> Work B) : Work B :=
  match m with
  | Finish r => k r
  | Transact m k' => Transact m (fun r => work_bind (k' r) k)
  | Await k' => Await (fun x => work_bind (k' x) k)
  end.

(** [let x = m.await?; k] *)
Notation "'let&' x ':=' m 'in' k" := (work_bind m (fun r => match r with Ok x => k | Err e => Finish (Err e) end))
  (at level 10, x pattern, m at level 100, k at level 200,
   format "'[v' 'let&'  x  ':='  m  'in' '/' k ']'") : rust_scope.

Definition transaction {A} (m : Draws -> WTx (A * bool)) : Work A := Transact m Finish.
Definition work_done : Work unit := Finish (Ok tt).

Definition commit {A} (a : A) : WTx (A * bool) := t_ret (a, true).
Definition rollback {A} (a : A) : A * bool := (a, false).

Record ValidatedLifecycleConfig : Type := {
  max_attempts : Z;
  base_backoff_secs : Z;
  max_backoff_secs : Z;
  action_lease : Z
}.

Section worker.
Context `{Chrono} `{Uuid} `{TransitionCodec}.
Context (claim : ClaimedLifecycleAction) (config : ValidatedLifecycleConfig).

(** ** Transactions *)

Definition clear_ticket (bucket key : string) (now : Z) : WTx unit :=
  let* _ := on_tickets (clear_lifecycle_mutation_if_owned bucket key (cl_id claim) (cl_claim_epoch claim) (us now)) in
  t_ret tt.

Definition recovery_guard (generation : Z) : StandardMutationGuard :=
  {| mg_bucket := claim_bucket claim; mg_key := claim_key claim; mg_mutation_id := claim_token claim;
     mg_expected_generation := generation; mg_mutation_prefix := None |}.

(** The row was read by the action, so that is the action of the saga. *)
Definition of_claim (s : TransitionSaga) : string * TransitionSaga := (cl_id claim, s).

Definition admit_transaction (d : Draws) : WTx (option StandardMutationGuard * bool) :=
  let c := dr_clock d in
  while_claimed claim (c 0%nat) (rollback None) (fun _ =>
  let* guard := on_tickets (try_admit_lifecycle_mutation (claim_bucket claim) (claim_key claim) (cl_id claim)
                              (cl_claim_epoch claim) (us (c 1%nat)) (fun i => us (c (4 + i)%nat)) (us (c 2%nat))) in
  while_claimed claim (c 3%nat) (rollback None) (fun _ => commit guard)).

(** The action waits for the hot copy to be verified, and gives its ticket back. *)
Definition park_for_hot (c : nat -> Z) : WTx unit :=
  let* waiting := on_lifecycle (wait_for_hot_verification_in_transaction claim (c 0%nat) (c 1%nat)) in
  stop_if negb waiting with StaleContentMutation else
  clear_ticket (claim_bucket claim) (claim_key claim) (c 2%nat).

(** [true] when the transition goes on *)
Definition revalidate_transaction (guard : StandardMutationGuard) (d : Draws) : WTx (bool * bool) :=
  let c := dr_clock d in
  let* locked := on_lifecycle (lock_claim_for_execution claim (c 0%nat)) in
  stop_if is_none locked with StaleContentMutation else
  let* _ := on_tickets (lock_bucket_for_ownership (claim_bucket claim)) in
  let* candidate := revalidate_transition configuration_from_json claim (c 1%nat) (c 2%nat) in
  match candidate with
  | None =>
    let* _ := settle_cancelled claim guard None (dr_leases d) (later 3 c) in
    commit false
  | Some candidate =>
    if negb (hot_residency_verified candidate) then let* _ := park_for_hot (later 3 c) in commit false
    else commit true
  end.

Definition prepare_transaction (guard : StandardMutationGuard) (source_node destination_node : string) (d : Draws)
  : WTx (option TransitionSaga * bool) :=
  let c := dr_clock d in
  let* prepared := prepare claim guard source_node destination_node (dr_uuid d) (dr_leases d) c in
  match prepared with
  | Prepared saga => commit (Some saga)
  | PrepareStale =>
    let* _ := settle_cancelled claim guard None (dr_leases d) (later 8 c) in
    commit None
  | PrepareDependencyWaiting => let* _ := park_for_hot (later 8 c) in commit None
  end.

Definition copy_transaction (saga : TransitionSaga) (d : Draws) : WTx (TransitionSaga * bool) :=
  let* copied := record_copy claim (of_claim saga) (dr_leases d) (dr_clock d) in
  let* saga := t_some StaleContentMutation copied in
  commit saga.

Definition verified_transaction (saga : TransitionSaga) (receipt : TierCopyReceipt) (d : Draws) : WTx (unit * bool) :=
  let* recorded := record_verified claim (of_claim saga) receipt (dr_leases d) (dr_clock d) in
  let* _ := t_some StaleContentMutation recorded in
  commit tt.

(** The saga when it is published *)
Definition publish_transaction (guard : StandardMutationGuard) (saga : TransitionSaga) (receipt : TierCopyReceipt) (d : Draws)
  : WTx (option TransitionSaga * bool) :=
  let c := dr_clock d in
  let* published := publish claim guard receipt (dr_leases d) c in
  match published with
  | Published published | AlreadyPublished published => commit (Some published)
  | PublishStale =>
    let* _ := settle_cancelled claim guard (Some (of_claim saga)) (dr_leases d) (later 8 c) in
    commit None
  | PublishDependencyWaiting => let* _ := park_for_hot (later 8 c) in commit None
  end.

Definition cleanup_transaction (guard : StandardMutationGuard) (saga : TransitionSaga) (d : Draws) : WTx (unit * bool) :=
  let* _ := cleanup claim guard (of_claim saga) (dr_leases d) (dr_clock d) in
  commit tt.

Definition retry_transaction (a : LifecycleAction) (c : nat -> Z) : WTx (unit * bool) :=
  while_claimed claim (c 0%nat) (rollback tt) (fun _ =>
  let now := c 1%nat in
  let* due := t_lift (retry_at now (la_attempts a) (base_backoff_secs config) (max_backoff_secs config)) in
  let* scheduled := on_lifecycle (schedule_retry claim now due FAILURE_INTERNAL_DEPENDENCY) in
  stop_if negb scheduled with StaleContentMutation else
  let* _ := clear_ticket (ac_bucket (la_columns a)) (ac_object_key (la_columns a)) now in
  commit tt).

Definition failure_transaction (d : Draws) : WTx (unit * bool) :=
  let c := dr_clock d in
  while_claimed claim (c 0%nat) (rollback tt) (fun a =>
  let* _ := on_tickets (lock_bucket_for_ownership (ac_bucket (la_columns a))) in
  while_claimed claim (c 1%nat) (rollback tt) (fun a =>
  let* saga := lock_optional_saga_for_action claim in
  let published := is_some_and (fun s => is_some (ts_publication_receipt s)) saga in
  let exhausted := (max_attempts config <=? la_attempts a)
                   || bool_decide (la_last_error_redacted a = Some TRANSITION_SETTLEMENT_REQUIRED) in
  if published then retry_transaction a (later 4 c)
  else
    let* revalidated := revalidate_transition configuration_from_json claim (c 2%nat) (c 3%nat) in
    let stale := is_none revalidated in
    if exhausted || stale then
      let guard := recovery_guard (from_option (fun s => ss_ownership_generation (ts_snapshot s)) 1 saga) in
      let* settled :=
        if exhausted then settle_exhausted claim guard (of_claim <$> saga) stale (dr_leases d) (later 4 c)
        else settle_cancelled claim guard (of_claim <$> saga) (dr_leases d) (later 4 c) in
      stop_if negb settled with StaleContentMutation else
      commit tt
    else retry_transaction a (later 4 c))).

Definition renew_transaction (d : Draws) : WTx (bool * bool) :=
  let c := dr_clock d in
  let* renewed := on_lifecycle (renew_action_claim claim (action_lease config) (c 0%nat) (c 1%nat) (us (c 2%nat)) (us (c 3%nat))) in
  commit renewed.

Definition wait_transaction (d : Draws) : WTx (bool * bool) :=
  let c := dr_clock d in
  let* waiting := on_lifecycle (wait_for_mutation_dependency claim (max_attempts config) (c 0%nat) (c 1%nat)) in
  commit waiting.

(** ** The worker *)

Definition settle_failure : Work unit := transaction failure_transaction.

(** [n] heartbeats, each of which may end the work *)
Fixpoint heartbeats {T} (n : nat) (k : Work T) : Work T :=
  match n with
  | O => k
  | S n =>
    let& renewed := transaction renew_transaction in
    if renewed : bool then heartbeats n k else Finish (Err StaleContentMutation)
  end.

(** The outside says how many heartbeats there are before the end, and with what the nodes answer, if
    the worker is not cancelled before that.  The first tick comes at once, before an answer is looked at. *)
Definition io_with_lease {E T} (io : E -> AppResult T) : Work T :=
  if action_lease config <? 0 then Finish (Err (Internal "invalid transition lease"))
  else Await (fun end_of_io : nat * option E =>
    match end_of_io with
    | (n, None) => heartbeats n (Finish (Err StaleContentMutation))
    | (n, Some answers) => heartbeats (S n) (Finish (io answers))
    end).

Definition is_cancelled : Work bool := Await (fun cancelled : bool => Finish (Ok cancelled)).

Definition node_identities (answers : AppResult string * AppResult string) : AppResult (string * string) :=
  let? hot := answers.1 in
  let? cold := answers.2 in
  Ok (hot, cold).

(** The source is still the expected node, and so is the one that answers for the destination. *)
Definition reverified (saga : TransitionSaga) (answers : AppResult string * AppResult TierCopyReceipt) : AppResult TierCopyReceipt :=
  let? source_node := answers.1 in
  bail_if negb (String.eqb source_node (ss_expected_source_node_identity (ts_snapshot saga))) with Tier NodeIdentityMismatch else
  let? receipt := answers.2 in
  bail_if negb (String.eqb (tc_node_identity receipt) (ss_expected_destination_node_identity (ts_snapshot saga)))
  with Tier NodeIdentityMismatch else
  Ok receipt.

(** [stream_copy_verified] *)
Definition stream_copy : Work TierCopyReceipt := io_with_lease (fun answer : AppResult TierCopyReceipt => answer).

(** The receipt of the destination: it is asked again, and filled again when that fails. *)
Definition verified_copy (saga : TransitionSaga) : Work TierCopyReceipt :=
  work_bind (io_with_lease (reverified saga)) (fun verification =>
  match verification with
  | Ok receipt => Finish (Ok receipt)
  | Err StaleContentMutation => Finish (Err StaleContentMutation)
  | Err _ => stream_copy
  end).

Definition execute_admitted (cold_configured : bool) (guard : StandardMutationGuard) : Work unit :=
  if waiting_for_dependency (cl_action claim) && (max_attempts config <=? la_attempts (cl_action claim)) then settle_failure
  else
    let& eligible := transaction (revalidate_transaction guard) in
    if negb eligible then work_done
    else if max_attempts config <? la_attempts (cl_action claim) then settle_failure
    else if negb cold_configured then Finish (Err (Tier ColdNotConfigured))
    else
      let& nodes := io_with_lease node_identities in
      let& prepared := transaction (prepare_transaction guard nodes.1 nodes.2) in
      match prepared with
      | None => work_done
      | Some saga =>
        let& saga :=
          if String.eqb (ts_checkpoint saga) "prepare" then
            let& _ := stream_copy in
            transaction (copy_transaction saga)
          else Finish (Ok saga) in
        let& receipt := verified_copy saga in
        let& _ := transaction (verified_transaction saga receipt) in
        let& published := transaction (publish_transaction guard saga receipt) in
        match published with
        | None => work_done
        | Some published => transaction (cleanup_transaction guard published)
        end
      end.

(** [true] when the saga was published before *)
Definition recover_published : Work bool :=
  let& saga := transaction (fun _ => let* saga := lock_optional_saga_for_action claim in commit saga) in
  match saga with
  | Some saga =>
    if is_none (ts_publication_receipt saga) then Finish (Ok false)
    else
      let guard := recovery_guard (ss_ownership_generation (ts_snapshot saga)) in
      work_bind (transaction (cleanup_transaction guard saga)) (fun recovery =>
      match recovery with
      | Ok _ => Finish (Ok true)
      | Err _ =>
        let& cancelled := is_cancelled in
        let& _ := if cancelled : bool then work_done else settle_failure in
        Finish (Ok true)
      end)
  | None => Finish (Ok false)
  end.

Definition execute (cold_configured : bool) : Work unit :=
  let& cancelled := is_cancelled in
  if cancelled : bool then work_done
  else
    let& recovered := recover_published in
    if recovered : bool then work_done
    else if bool_decide (la_last_error_redacted (cl_action claim) = Some TRANSITION_SETTLEMENT_REQUIRED) then settle_failure
    else work_bind (transaction admit_transaction) (fun admitted =>
    match admitted with
    | Err _ => settle_failure
    | Ok None =>
      let& waiting := transaction wait_transaction in
      if waiting : bool then work_done else settle_failure
    | Ok (Some guard) =>
      work_bind (execute_admitted cold_configured guard) (fun result =>
      match result with
      | Ok _ => work_done
      | Err StaleContentMutation => work_done
      | Err _ =>
        let& cancelled := is_cancelled in
        if cancelled : bool then work_done else settle_failure
      end)
    end).
End worker.

(** ** Runs *)

(** After a transaction of a worker was committed *)
Definition committed (d : Draws) (db : WorkerDb) (w : World) : World :=
  {| w_db := db; w_issued := w_issued w; w_used := {[dr_uuid d]} ∪ w_used w; w_rows := {[dr_row d]} ∪ w_rows w |}.

Section runs.
Context `{Chrono} `{ActionCodec} `{UuidLaws} `{OwnershipGranted} `{TransitionCodec}.

(** Identifiers that are drawn were never used before, and no key runs out of sequence numbers. *)
Record drawn (d : Draws) (w : World) : Prop := {
  dn_uuid : dr_uuid d ∉ w_used w;
  dn_row : dr_row d ∉ w_rows w;
  dn_version b k : Fresh (dr_public d) (dr_row d) b k (wd_objects (w_db w))
}.

(** One step of a worker.  A transaction is committed, its answer is lost after the commit, it is rolled
    back, it is refused, or it fails for another reason. *)
Inductive work_step {A} : Work A * World -> Work A * World -> Prop :=
| wk_commit B (m : Draws -> WTx (B * bool)) k d b db' w :
  drawn d w -> m d (w_db w) = Ok ((b, true), db') -> work_step (Transact m k, w) (k (Ok b), committed d db' w)
| wk_unheard B (m : Draws -> WTx (B * bool)) k d b db' e w :
  drawn d w -> m d (w_db w) = Ok ((b, true), db') ->
  work_step (Transact m k, w) (k (Err (Database e)), committed d db' w)
| wk_rollback B (m : Draws -> WTx (B * bool)) k d b db' w :
  m d (w_db w) = Ok ((b, false), db') -> work_step (Transact m k, w) (k (Ok b), w)
| wk_refused B (m : Draws -> WTx (B * bool)) k d e w : m d (w_db w) = Err e -> work_step (Transact m k, w) (k (Err e), w)
| wk_failed B (m : Draws -> WTx (B * bool)) k e w : work_step (Transact m k, w) (k (Err (Database e)), w)
| wk_answer B (k : B -> Work A) x w : work_step (Await k, w) (k x, w).

(** *** Transactions that are histories *)

Section moves.
Context (claim : ClaimedLifecycleAction).

(** What a transaction commits is what steps of the system lead to. *)
Definition moves {A} (m : WTx A) : Prop := forall w a db',
  world_inv w -> claim ∈ w_issued w -> m (w_db w) = Ok (a, db') -> rtc world_step w (with_worker_db db' w).

Lemma with_same_db w : with_worker_db (w_db w) w = w.
Proof. by destruct w. Qed.

Lemma moves_read {A} (m : WTx A) : read_only m -> moves m.
Proof. intros Hm w a db' _ _ ->%read_only_run; [|done]. by rewrite with_same_db. Qed.

Lemma moves_ret {A} (a : A) : moves (t_ret a).
Proof. apply moves_read, keeps_ret. apply _. Qed.
Lemma moves_err {A} e : moves (t_err (A := A) e).
Proof. apply moves_read, keeps_err. Qed.
Lemma moves_lift {A} (r : AppResult A) : moves (t_lift r).
Proof. apply moves_read, keeps_lift. apply _. Qed.
Lemma moves_some {A} e (o : option A) : moves (t_some e o).
Proof. apply moves_read, keeps_some. apply _. Qed.
Lemma moves_reads {A} (f : WorkerDb -> A) : moves (t_reads f).
Proof. apply moves_read, keeps_reads. apply _. Qed.

Lemma moves_bind {A B} (m : WTx A) (k : A -> WTx B) : moves m -> (forall a, moves (k a)) -> moves (t_bind m k).
Proof.
  intros Hm Hk w b db' Hw Hc (a & db & E1 & E)%t_bind_ok. apply Hm in E1; [|done..].
  etrans; [exact E1|]. apply (Hk a (with_worker_db db w) b db'); [by eapply world_steps_inv|done|done].
Qed.

Lemma moves_once {A} (m : WTx A) :
  (forall w a db', claim ∈ w_issued w -> m (w_db w) = Ok (a, db') -> world_step w (with_worker_db db' w)) -> moves m.
Proof. intros Hm w a db' _ Hc E. eapply rtc_once, Hm; done. Qed.

(** A step of the queue that keeps what the sagas refer to *)
Definition rows_kept (l l' : LifecycleDb) : Prop :=
  ld_sagas l' = ld_sagas l /\ (forall i, is_Some (ld_actions l !! i) -> is_Some (ld_actions l' !! i))
  /\ same_buckets (ld_imports l) (ld_imports l').
#[local] Instance rows_kept_preorder : PreOrder rows_kept.
Proof.
  split; [by intros l|]. intros x y z (E1 & E2 & E3) (F1 & F2 & F3). split; [congruence|]. split; [auto|]. by etrans.
Qed.

Lemma moves_queue {A} (m : LTx A) :
  (forall q a l, claim ∈ q_issued q -> m (q_db q) = Ok (a, l) -> queue_step q (with_db l q)) -> t_keeps rows_kept m ->
  moves (on_lifecycle m).
Proof.
  intros Hq Hk w a db' Hw Hc (l & E & ->)%on_lifecycle_ok. apply rtc_once.
  pose proof (Hk _ _ _ E) as (Hs & Ha & Hb). apply (Hq (queue_of w)) in E; [|done].
  apply (ws_queue w _ E); [done|]. eapply saga_constraints_actions, (wi_sagas w Hw); done.
Qed.

Lemma keeps_update_action id p f : t_keeps rows_kept (update_action id p f).
Proof.
  intros l b l' [(a & Ha & _ & _ & -> & _)|(_ & _ & ->)]%update_action_ok; [|done]. split; [done|]. split; [|done].
  intros i Hi. simpl. apply lookup_insert_is_Some'. by right.
Qed.
Lemma keeps_locked now : t_keeps rows_kept (lock_claim_for_execution claim now).
Proof. by intros l a l' ->%(read_only_run _ _ _ _ (lock_claim_read_only claim now)). Qed.
Lemma keeps_tickets {A} (m : ITx A) : t_keeps same_buckets m -> t_keeps rows_kept (on_imports m).
Proof. by intros Hm l a l' (im & E%Hm & ->)%on_imports_ok. Qed.
#[local] Hint Resolve keeps_update_action keeps_locked keeps_tickets exec_dests_keeps exec_leases_keeps : keeps.

Lemma moves_tickets {A} (m : ITx A) : t_keeps same_buckets m -> moves (on_tickets m).
Proof.
  intros Hm. apply moves_queue; [|by apply keeps_tickets].
  intros q a l _ (im & _ & ->)%on_imports_ok. by eapply (qs_others q im (ld_sagas (q_db q))).
Qed.

Lemma keeps_renew_ticket b k id e c1 c2 : t_keeps same_buckets (renew_lifecycle_mutation_in_transaction b k id e c1 c2).
Proof.
  unfold renew_lifecycle_mutation_in_transaction, lock_bucket_for_ownership, find_destination_for_update, extend_lease, update_lease.
  t_keep.
Qed.
#[local] Hint Resolve keeps_renew_ticket : keeps.

Lemma moves_renew lease n1 n2 c1 c2 : moves (on_lifecycle (renew_action_claim claim lease n1 n2 c1 c2)).
Proof. apply moves_queue; [by intros; eapply qs_renew|]. unfold renew_action_claim. t_keep. Qed.
Lemma moves_wait_mutation n c1 c2 : moves (on_lifecycle (wait_for_mutation_dependency claim n c1 c2)).
Proof.
  apply moves_queue; [by intros; eapply qs_wait_mutation|].
  unfold wait_for_mutation_dependency, park_dependency_in_transaction. t_keep.
Qed.
Lemma moves_wait_hot c1 c2 : moves (on_lifecycle (wait_for_hot_verification_in_transaction claim c1 c2)).
Proof. apply moves_queue; [by intros; eapply qs_wait_hot|]. unfold wait_for_hot_verification_in_transaction. t_keep. Qed.
Lemma moves_retry now next class : moves (on_lifecycle (schedule_retry claim now next class)).
Proof. apply moves_queue; [by intros; eapply qs_retry|]. unfold schedule_retry. t_keep. Qed.

Lemma keeps_expired now l : t_keeps same_buckets (release_expired now l).
Proof.
  unfold release_expired, release_standard_mutation_in_transaction, clear_standard_mutation_in_transaction, update_dest. t_keep.
Qed.
Lemma recover_keeps_buckets bucket clock fuel i : t_keeps same_buckets (recover_loop fuel bucket clock i).
Proof.
  revert i. induction fuel as [|fuel IH]; intros i; [done|]. simpl. apply (keeps_bind same_buckets); [apply keeps_reads; apply _|].
  intros [|l leases]; [apply keeps_ret; apply _|].
  apply (keeps_bind same_buckets); [apply keeps_each; [apply _|apply keeps_expired]|done].
Qed.
#[local] Hint Resolve recover_keeps_buckets : keeps.

Lemma keeps_admit b k id e now clock clk : t_keeps same_buckets (try_admit_lifecycle_mutation b k id e now clock clk).
Proof.
  unfold try_admit_lifecycle_mutation, lock_bucket_for_ownership, recover_expired_mutations_in_transaction,
    find_destination_for_update, has_overlapping_standard_prefix_mutation, upsert_standard_mutation, update_dest, insert_row.
  t_keep.
Qed.

Lemma moves_admit b k id e now clock clk : moves (on_tickets (try_admit_lifecycle_mutation b k id e now clock clk)).
Proof. apply moves_tickets, keeps_admit. Qed.
Lemma moves_clear b k now : moves (clear_ticket claim b k now).
Proof.
  apply moves_bind; [apply moves_tickets, clear_lifecycle_keeps_buckets|]. intros r. apply moves_ret.
Qed.

Lemma moves_copy saga leases c : moves (record_copy claim saga leases c).
Proof. apply moves_once. intros. by eapply ws_copy. Qed.
Lemma moves_verified saga receipt leases c : moves (record_verified claim saga receipt leases c).
Proof. apply moves_once. intros. by eapply ws_verified. Qed.
Lemma moves_publish guard receipt leases c : moves (Transitions.publish claim guard receipt leases c).
Proof. apply moves_once. intros. by eapply ws_publish. Qed.
Lemma moves_cleanup guard saga leases c : moves (cleanup claim guard saga leases c).
Proof. apply moves_once. intros. by eapply ws_cleanup. Qed.
Lemma moves_settle guard saga class diagnostic leases c : moves (settle_unpublished claim guard saga class diagnostic leases c).
Proof. apply moves_once. intros. by eapply ws_settle. Qed.
Lemma moves_cancelled guard saga leases c : moves (settle_cancelled claim guard saga leases c).
Proof. apply moves_settle. Qed.
Lemma moves_exhausted guard saga stale leases c : moves (settle_exhausted claim guard saga stale leases c).
Proof. apply moves_settle. Qed.

Lemma moves_claimed {A} now (stale : A) k : (forall a, moves (k a)) -> moves (while_claimed claim now stale k).
Proof.
  intros Hk. apply moves_bind; [apply moves_read; eauto with keeps|]. intros [a|]; [done|]. apply moves_ret.
Qed.
End moves.
End runs.

#[export] Existing Instance rows_kept_preorder.
#[export] Hint Resolve keeps_update_action keeps_locked keeps_tickets exec_dests_keeps exec_leases_keeps : keeps.

Create HintDb moves.
#[export] Hint Resolve moves_ret moves_err moves_lift moves_some moves_reads : moves.
#[export] Hint Resolve moves_renew moves_wait_mutation moves_wait_hot moves_retry moves_admit moves_clear moves_copy moves_verified
  moves_publish moves_cleanup moves_cancelled moves_exhausted : moves.
#[export] Hint Extern 5 (moves _ (on_lifecycle _)) => apply moves_read, read_only_on_lifecycle, lock_claim_read_only : moves.
#[export] Hint Extern 5 (moves _ (on_tickets _)) => apply moves_read, read_only_on_tickets, lock_bucket_read_only : moves.
#[export] Hint Extern 5 (moves _ (revalidate_transition _ _ _ _)) => apply moves_read, revalidate_read_only : moves.

Ltac moves_walk :=
  repeat first [progress intros | match goal with
    | |- moves _ (t_bind _ _) => apply moves_bind
    | |- moves _ (while_claimed _ _ _ _) => apply moves_claimed
    | |- moves _ (if ?b then _ else _) => destruct b eqn:?
    | |- moves _ (match ?x with _ => _ end) => destruct x eqn:?
    | |- moves _ _ => solve [eauto 2 with moves]
    end].

Section worker_moves.
Context `{Chrono} `{ActionCodec} `{UuidLaws} `{OwnershipGranted} `{TransitionCodec}.
Context (claim : ClaimedLifecycleAction) (config : ValidatedLifecycleConfig).

Lemma moves_park c : moves claim (park_for_hot claim c).
Proof. unfold park_for_hot. moves_walk. Qed.
#[local] Hint Resolve moves_park : moves.

Lemma moves_admit_transaction d : moves claim (admit_transaction claim d).
Proof. unfold admit_transaction, commit. cbv zeta. moves_walk. Qed.
Lemma moves_revalidate_transaction guard d : moves claim (revalidate_transaction claim guard d).
Proof. unfold revalidate_transaction, commit. cbv zeta. moves_walk. Qed.
Lemma moves_copy_transaction saga d : moves claim (copy_transaction claim saga d).
Proof. unfold copy_transaction, commit. moves_walk. Qed.
Lemma moves_verified_transaction saga receipt d : moves claim (verified_transaction claim saga receipt d).
Proof. unfold verified_transaction, commit. moves_walk. Qed.
Lemma moves_publish_transaction guard saga receipt d : moves claim (publish_transaction claim guard saga receipt d).
Proof. unfold publish_transaction, commit. cbv zeta. moves_walk. Qed.
Lemma moves_cleanup_transaction guard saga d : moves claim (cleanup_transaction claim guard saga d).
Proof. unfold cleanup_transaction, commit. moves_walk. Qed.
Lemma moves_retry_transaction a c : moves claim (retry_transaction claim config a c).
Proof. unfold retry_transaction, commit. cbv zeta. moves_walk. Qed.
#[local] Hint Resolve moves_retry_transaction : moves.
Lemma moves_failure_transaction d : moves claim (failure_transaction claim config d).
Proof. unfold failure_transaction, commit, lock_optional_saga_for_action. cbv zeta. moves_walk. Qed.
Lemma moves_renew_transaction d : moves claim (renew_transaction claim config d).
Proof. unfold renew_transaction, commit. cbv zeta. moves_walk. Qed.
Lemma moves_wait_transaction d : moves claim (wait_transaction claim config d).
Proof. unfold wait_transaction, commit. cbv zeta. moves_walk. Qed.

(** *** Workers that are histories *)

(** What a transaction of the worker commits is what steps of the system lead to, whatever it draws. *)
Definition commits {B} (m : Draws -> WTx (B * bool)) : Prop := forall w d b db',
  world_inv w -> claim ∈ w_issued w -> drawn d w -> m d (w_db w) = Ok ((b, true), db') ->
  rtc world_step w (committed d db' w).

Fixpoint lawful {A} (m : Work A) : Prop :=
  match m with
  | Finish _ => True
  | Transact m k => commits m /\ forall r, lawful (k r)
  | Await k => forall x, lawful (k x)
  end.

Lemma committed_later w w' d :
  rtc world_step w w' -> w_issued w' = w_issued w -> w_used w' ⊆ {[dr_uuid d]} ∪ w_used w -> w_rows w' ⊆ {[dr_row d]} ∪ w_rows w ->
  rtc world_step w (committed d (w_db w') w).
Proof.
  intros Hr Hi Hu Hrows. etrans; [exact Hr|]. apply rtc_once.
  pose proof (ws_others w' (wd_configs (w_db w')) (wd_tags (w_db w')) (wd_uploads (w_db w')) _ _ Hu Hrows) as Hs.
  unfold committed. rewrite <- Hi. by destruct (w_db w').
Qed.

Lemma commits_moves {B} (m : Draws -> WTx (B * bool)) : (forall d, moves claim (m d)) -> commits m.
Proof.
  intros Hm w d b db' Hw Hc _ E. apply Hm in E; [|done..]. apply (committed_later w (with_worker_db db' w)); [done|done|set_solver..].
Qed.

Lemma commits_prepare guard sn dn : commits (prepare_transaction claim guard sn dn).
Proof.
  intros w d b db' Hw Hc Hd (prepared & db & E1 & E)%t_bind_ok.
  set (w1 := {| w_db := db; w_issued := w_issued w; w_used := {[dr_uuid d]} ∪ w_used w; w_rows := w_rows w |}).
  assert (world_step w w1) as Hs by (eapply (ws_prepare w claim); [done|apply Hd|exact E1]).
  pose proof (world_step_kept w w1 Hw Hs) as Hk.
  assert (moves claim (match prepared with
    | Prepared saga => commit (Some saga)
    | PrepareStale => let* _ := settle_cancelled claim guard None (dr_leases d) (later 8 (dr_clock d)) in commit None
    | PrepareDependencyWaiting => let* _ := park_for_hot claim (later 8 (dr_clock d)) in commit None
    end)) as Hm by (unfold commit; destruct prepared; moves_walk).
  apply (committed_later w (with_worker_db db' w1)); [|done|done|set_solver]. eapply rtc_l; [exact Hs|].
  apply (Hm w1 (b, true) db'); [apply Hk|done|exact E].
Qed.

Lemma lawful_bind {A B} (m : Work A) (k : AppResult A -> Work B) : lawful m -> (forall r, lawful (k r)) -> lawful (work_bind m k).
Proof.
  intros Hm Hk. induction m as [r|C m k' IH|C k' IH]; simpl in *; [apply Hk| |intros x; by apply IH].
  split; [apply Hm|]. intros r. by apply IH, Hm.
Qed.

Lemma lawful_transaction {B} (m : Draws -> WTx (B * bool)) : commits m -> lawful (transaction m).
Proof. by split. Qed.

End worker_moves.

#[export] Hint Resolve moves_admit_transaction moves_revalidate_transaction moves_copy_transaction moves_verified_transaction
  moves_publish_transaction moves_cleanup_transaction moves_failure_transaction moves_renew_transaction moves_wait_transaction : moves.
#[export] Hint Resolve commits_prepare : moves.
#[export] Hint Extern 4 (commits _ _) => apply commits_moves; intros : moves.

Ltac lawful_walk :=
  repeat first [progress intros | match goal with
    | |- lawful _ (work_bind _ _) => apply lawful_bind
    | |- lawful _ (transaction _) => apply lawful_transaction; solve [eauto 4 with moves]
    | |- lawful _ (if ?b then _ else _) => destruct b eqn:?
    | |- lawful _ (match ?x with _ => _ end) => destruct x eqn:?
    | |- lawful _ (Finish _) => exact I
    | |- lawful _ (Await _) => intro
    | |- lawful _ _ => solve [eauto 2 with moves]
    end].

Section lawful.
Context `{Chrono} `{ActionCodec} `{UuidLaws} `{OwnershipGranted} `{TransitionCodec}.
Context (claim : ClaimedLifecycleAction) (config : ValidatedLifecycleConfig).

Lemma lawful_failure : lawful claim (settle_failure claim config).
Proof. unfold settle_failure. lawful_walk. Qed.
Lemma lawful_done : lawful claim work_done.
Proof. done. Qed.
Lemma lawful_heartbeats {T} n (k : Work T) : lawful claim k -> lawful claim (heartbeats claim config n k).
Proof. intros Hk. induction n as [|n IH]; [done|]. cbn [heartbeats]. lawful_walk. Qed.
Lemma lawful_io {E T} (io : E -> AppResult T) : lawful claim (io_with_lease claim config io).
Proof. unfold io_with_lease. destruct (_ <? _); [exact I|]. intros [n [x|]]; by apply lawful_heartbeats. Qed.
#[local] Hint Resolve lawful_failure lawful_done lawful_io : moves.

Lemma lawful_stream : lawful claim (stream_copy claim config).
Proof. apply lawful_io. Qed.
#[local] Hint Resolve lawful_stream : moves.
Lemma lawful_verified saga : lawful claim (verified_copy claim config saga).
Proof. unfold verified_copy. lawful_walk. Qed.
#[local] Hint Resolve lawful_verified : moves.

Lemma lawful_admitted cold guard : lawful claim (execute_admitted claim config cold guard).
Proof. unfold execute_admitted. lawful_walk. Qed.
Lemma lawful_recover : lawful claim (recover_published claim config).
Proof.
  unfold recover_published, is_cancelled. cbv zeta. lawful_walk. apply lawful_transaction, commits_moves. intros d.
  unfold lock_optional_saga_for_action, commit. moves_walk.
Qed.
#[local] Hint Resolve lawful_admitted lawful_recover : moves.
Lemma lawful_execute cold : lawful claim (execute claim config cold).
Proof. unfold execute, is_cancelled. lawful_walk. Qed.

Lemma lawful_step {A} (m m' : Work A) w w' :
  world_inv w -> claim ∈ w_issued w -> lawful claim m -> work_step (m, w) (m', w') -> rtc world_step w w' /\ lawful claim m'.
Proof.
  intros Hw Hc Hm Hs. inversion Hs; subst; clear Hs; simplify_eq; simpl in Hm;
    try (split; [done|]; apply Hm); (split; [by eapply Hm|apply Hm]).
Qed.
End lawful.

#[export] Hint Resolve lawful_failure lawful_done lawful_recover lawful_execute : moves.
