(* ===== verification/Expiration.v ===== *)
(** * The execution of expirations and aborted uploads ([src/lifecycle/actions.rs])

    A claimed action that is not a transition is admitted with a mutation ticket, and executed in one
    transaction that reads the claim, the ticket, the configuration and the version again, deletes, and
    finishes the action.  What fails is retried or given up in a transaction of its own. *)

From Stdlib Require Import ZArith Lia Ascii.
From Stdlib Require String.
From stdpp Require Import base list strings pretty sorting gmap.
From S2P Require Import Prelude Bytes Errors Chrono VersionModel LifecycleModel LifecycleConfig LifecycleEval Database Transaction.
From S2P Require Import ObjectStore ResidencyStore VersionStore VersionSpec VersionReads Publication VersionSystem StoreEffects.
From S2P Require Import ImportDb Ownership LifecycleActions LifecycleQueue Revalidation Transitions TransitionRuns TransitionSystem.
From S2P Require Import TransitionWorker.

#[local] Open Scope string_scope.
#[local] Open Scope list_scope.
#[local] Open Scope Z_scope.
#[local] Open Scope rust_scope.

(** ** Failures *)

Definition contains (needle s : string) : bool := is_some (String.index 0 needle s).

Definition is_temporary_database_contention (message : string) : bool :=
  let message := ascii_lower message in
  existsb (fun needle => contains needle message)
    ["database is locked"; "database is busy"; "deadlock detected"; "could not serialize access";
     "serialization failure"; "sqlstate 40p01"; "sqlstate 40001"; "code: 40p01"; "code: 40001"].

Definition is_temporary_execution_error (error : AppError) : bool :=
  match error with
  | StaleContentMutation => true
  | Errors.Database message => is_temporary_database_contention message
  | _ => false
  end.

Inductive LifecycleAdmissionClassification : Type := ClassStale | ClassTemporary | ClassOther.

Definition classify_lifecycle_admission_error (error : AppError) : LifecycleAdmissionClassification :=
  match error with
  | StaleContentMutation => ClassStale
  | Errors.Database message => if is_temporary_database_contention message then ClassTemporary else ClassOther
  | _ => ClassOther
  end.

Inductive LifecycleAdmissionResult : Type :=
| ActionAdmitted (guard : StandardMutationGuard)
| AdmissionStale
| AdmissionTemporary
| AdmissionDependency.

Inductive GuardedLifecycleExecutionResult : Type :=
| LifecycleApplied (r : DeleteVersionResult)
| LifecycleAlreadySatisfied
| LifecycleStale.

Definition validate_execution_settings (max_attempts base_backoff_secs max_backoff_secs : Z) : AppResult unit :=
  bail_if (max_attempts <=? 0) || (MAX_LIFECYCLE_ACTION_ATTEMPTS <? max_attempts)
  with InvalidArgument "lifecycle action max attempts is out of range" else
  bail_if (base_backoff_secs =? 0) || (max_backoff_secs <? base_backoff_secs)
  with InvalidArgument "lifecycle action retry backoff is invalid" else
  Ok tt.

(** ** Uploads *)

Inductive AbortExactIncompleteUploadResult : Type := AbortApplied | AbortAlreadySatisfied | AbortStale.

Definition exact_upload (t : MultipartUploadTargetIdentity) (row : UploadRow) : bool :=
  String.eqb (mu_bucket row) (mt_bucket t) && String.eqb (mu_key row) (mt_key t) && (mu_created_at row =? mt_initiated_at t).

(** The parts go with their upload. *)
Definition remove_upload (upload_id : string) (u : UploadTables) : UploadTables :=
  {| up_uploads := delete upload_id (up_uploads u); up_parts := filter (fun r => r.1.1 <> upload_id) (up_parts u) |}.

Definition set_uploads (uploads : UploadTables) (db : WorkerDb) : WorkerDb :=
  {| wd_lifecycle := wd_lifecycle db; wd_objects := wd_objects db; wd_configs := wd_configs db; wd_tags := wd_tags db;
     wd_uploads := uploads |}.
Definition set_tags (tags : gmap (string * string) string) (db : WorkerDb) : WorkerDb :=
  {| wd_lifecycle := wd_lifecycle db; wd_objects := wd_objects db; wd_configs := wd_configs db; wd_tags := tags;
     wd_uploads := wd_uploads db |}.

Definition find_upload (upload_id : string) : WTx (option UploadRow) :=
  t_reads (fun db => up_uploads (wd_uploads db) !! upload_id).

Definition abort_exact_incomplete_upload_in_transaction (t : MultipartUploadTargetIdentity)
  : WTx AbortExactIncompleteUploadResult := fun db =>
  match up_uploads (wd_uploads db) !! mt_upload_id t with
  | None => Ok (AbortAlreadySatisfied, db)
  | Some row =>
    if exact_upload t row then Ok (AbortApplied, set_uploads (remove_upload (mt_upload_id t) (wd_uploads db)) db)
    else Ok (AbortStale, db)
  end.

(** The rule that an action was planned by: its identifier, or its place among the rules *)
Definition named_rule (rule_id_column : string) (configuration : CanonicalLifecycleConfiguration)
  : option CanonicalLifecycleRule :=
  match strip_prefix "id:" rule_id_column with
  | Some id => head (filter (fun rule => rule_id rule = Some id) (rules configuration))
  | None =>
    ordinal ← strip_prefix "ordinal:" rule_id_column;
    parsed ← parse_i64 ordinal;
    if (0 <=? parsed) && (parsed <? 65536) && String.eqb (pretty parsed) ordinal then
      rule ← rules configuration !! Z.to_nat parsed;
      if is_none (rule_id rule) then Some rule else None
    else None
  end.

Definition abort_selector_matches (selector : CanonicalRuleSelector) (key : string) : bool :=
  match selector with
  | Modern FAll => true
  | LegacyPrefix prefix | Modern (FPrefix prefix) => starts_with prefix key
  | _ => false
  end.

Definition eligible_abort (rule_id_column key : string) (configuration : CanonicalLifecycleConfiguration)
  : option AbortIncompleteMultipartUploadAction :=
  rule ← named_rule rule_id_column configuration;
  if bool_decide (status rule = RuleEnabled) && abort_selector_matches (selector rule) key
  then abort_incomplete_multipart_upload rule else None.

(** ** Deleting a version *)

(** The rules without their transitions *)
Definition without_transitions (configuration : CanonicalLifecycleConfiguration) : CanonicalLifecycleConfiguration :=
  {| schema_version := schema_version configuration;
     rules := (fun rule => {| rule_id := rule_id rule; status := status rule; selector := selector rule;
                              expiration := expiration rule;
                              noncurrent_version_expiration := noncurrent_version_expiration rule; transition := None;
                              noncurrent_version_transition := None;
                              abort_incomplete_multipart_upload := abort_incomplete_multipart_upload rule |})
              <$> rules configuration |}.

Definition expiration_wins_without_transitions `{Chrono} (a : ActionColumns) (context : LifecycleEvaluationContext)
  : AppResult bool :=
  let? expected := evaluate_candidate
    {| ctx_candidate := ctx_candidate context; ctx_tags := ctx_tags context;
       public_version_count := public_version_count context; newer_noncurrent_count := newer_noncurrent_count context;
       config_revision := config_revision context; configuration := without_transitions (configuration context);
       database_now := database_now context |} in
  Ok (is_some_and (action_matches_expected a) expected).

(** The facts the evaluator is given about a target *)
Definition target_context (candidate : LifecycleCandidate) (t : VersionTargetIdentity) (tags : list ObjectTag) (revision : Z)
    (configuration : CanonicalLifecycleConfiguration) (now : Z) (db : WorkerDb) : LifecycleEvaluationContext :=
  let of_target := of_key (vt_bucket t) (vt_key t) in
  {| ctx_candidate := candidate; ctx_tags := tags;
     public_version_count := matching of_target (versions (wd_objects db));
     newer_noncurrent_count := matching (fun v => of_target v /\ v_is_latest v = false /\ vt_sequence t < v_sequence v)
                                 (versions (wd_objects db));
     config_revision := revision; configuration := configuration; database_now := now |}.

(** The object that a deletion drops, whose tags go with it: none when a marker covers the version *)
Definition dropped_object (state : BucketVersioningState) (selector : VersionSelector) (bucket key : string) (db : Db)
  : option string :=
  match selector, state with
  | Current, Unversioned => o_id <$> head (filter (o_current bucket key) (objects db))
  | Current, Enabled => None
  | Current, Suspended => head (filter (with_version_id bucket key None) (versions db)) ≫= v_object_id
  | Exact id, _ => head (filter (with_version_id bucket key (version_as_db_value id)) (versions db)) ≫= v_object_id
  end.

Definition without_tags (object_id : option string) (db : WorkerDb) : WorkerDb :=
  set_tags (filter (fun r => Some r.1.1 <> object_id) (wd_tags db)) db.

Section expiration.
Context `{Chrono} `{Uuid} `{Publication.Ownership} `{TransitionCodec}.

(** A deletion with the tags of the object it drops *)
Definition delete_with_tags {A} (state : BucketVersioningState) (selector : VersionSelector) (bucket key : string) (m : Tx A)
  : WTx A :=
  let* dropped := t_reads (fun db => dropped_object state selector bucket key (wd_objects db)) in
  let* a := on_objects m in
  fun db => Ok (a, without_tags dropped db).

(** What an action deletes: [None] when its target is not what it was *)
Definition apply_deletion (d : Draws) (t : VersionTargetIdentity) (kind : LifecycleActionKind) (state : BucketVersioningState)
    (selected : VersionRow) (now c1 : Z) : WTx (option GuardedLifecycleExecutionResult) :=
  let b := vt_bucket t in
  let k := vt_key t in
  match kind with
  | ExpireCurrent =>
    if negb (bool_decide (vt_kind t = KObject)) || negb (v_is_latest selected) then t_ret None
    else
      let* deleted := delete_with_tags state Current b k
        match state with
        | Unversioned => delete_unversioned_current_core b k now
        | Enabled => delete_enabled_current_in_transaction (dr_public d) (dr_row d) c1 b k now
        | Suspended => delete_suspended_current_core (dr_public d) (dr_row d) c1 b k now
        end in
      t_ret (Some (LifecycleApplied deleted))
  | DeleteExpiredMarker =>
    if negb (bool_decide (vt_kind t = KDeleteMarker)) || negb (v_is_latest selected) then t_ret None
    else
      let* removed := on_objects (delete_current_sole_marker selected) in
      t_ret match removed with
            | MarkerDeleted deleted => Some (LifecycleApplied deleted)
            | AlreadySatisfied => Some LifecycleAlreadySatisfied
            | Stale => None
            end
  | ExpireNoncurrent =>
    if v_is_latest selected then t_ret None
    else
      let id := vt_public_version_id t in
      let* deleted := delete_with_tags state (Exact id) b k (delete_exact_core c1 b k id now) in
      t_ret (Some (LifecycleApplied deleted))
  | AbortIncompleteMultipartUpload => t_err (Internal "multipart lifecycle action reached version deletion")
  | TransitionCurrent | TransitionNoncurrent => t_err (Internal "transition kinds are rejected before deletion locks")
  end.

Definition execute_lifecycle_delete_guarded (d : Draws) (t : VersionTargetIdentity) (kind : LifecycleActionKind)
    (guard : StandardMutationGuard) (now : Z) (c : nat -> Z) : WTx GuardedLifecycleExecutionResult :=
  stop_if bool_decide (kind = TransitionCurrent) || bool_decide (kind = TransitionNoncurrent)
  with Internal "lifecycle transition cannot execute through lifecycle deletion" else
  if negb (String.eqb (vt_bucket t) (mg_bucket guard)) || negb (String.eqb (vt_key t) (mg_key guard)) then t_ret LifecycleStale
  else
    let* _ := on_tickets (lock_bucket_for_ownership (vt_bucket t)) in
    fun db =>
      match on_tickets (verify_standard_mutation_guard guard (vt_bucket t) (vt_key t) [] (us (c 0%nat))) db with
      | Err StaleContentMutation => Ok (LifecycleStale, db)
      | Err e => Err e
      | Ok (_, db) =>
        (let* state := on_objects (lock_versioning_state (vt_bucket t)) in
         let* selected := on_objects (lock_version_by_id (vt_version_row_id t)) in
         match selected with
         | None => t_ret LifecycleStale
         | Some selected =>
           let* matches := t_lift (target_matches_row selected t) in
           if negb matches then t_ret LifecycleStale
           else
             let* result := apply_deletion d t kind state selected now (c 1%nat) in
             match result with
             | None => t_ret LifecycleStale
             | Some result =>
               let* _ := on_tickets (complete_standard_mutation_in_transaction guard (us now) (us (c 2%nat)) (us (c 3%nat))) in
               t_ret result
             end
         end) db
      end.

(** ** The transactions of an action *)

Context (claim : ClaimedLifecycleAction).

Definition cancel_without_guard_in_transaction (now : Z) (failure_class : string) : WTx unit :=
  let* cancelled := on_lifecycle (mark_cancelled claim now failure_class) in
  stop_if negb cancelled with StaleContentMutation else
  t_ret tt.

Definition cancel_guarded_in_transaction (guard : StandardMutationGuard) (now : Z) : WTx unit :=
  let* _ := on_tickets (release_standard_mutation_in_transaction guard (us now)) in
  cancel_without_guard_in_transaction now FAILURE_CANCELLED_STALE.

Definition cancel_without_guard (failure_class : string) (d : Draws) : WTx (unit * bool) :=
  let c := dr_clock d in
  while_claimed claim (c 0%nat) (tt, true) (fun _ =>
  let* _ := cancel_without_guard_in_transaction (c 1%nat) failure_class in
  commit tt).

Definition fail_safe (failure_class : string) (d : Draws) : WTx (unit * bool) :=
  let c := dr_clock d in
  while_claimed claim (c 0%nat) (tt, true) (fun a =>
  let columns := la_columns a in
  let now := c 1%nat in
  let* _ := if String.eqb (ac_target_type columns) "version" then
              let* _ := on_tickets (lock_bucket_for_ownership (ac_bucket columns)) in
              clear_ticket claim (ac_bucket columns) (ac_object_key columns) now
            else t_ret tt in
  let* failed := on_lifecycle (mark_failed_safe claim now failure_class) in
  stop_if negb failed with StaleContentMutation else
  commit tt).

Definition schedule_next (a : LifecycleAction) (base_backoff_secs max_backoff_secs now : Z) (failure_class : string) : WTx unit :=
  let* next_attempt_at := t_lift (retry_at now (la_attempts a) base_backoff_secs max_backoff_secs) in
  let* scheduled := on_lifecycle (schedule_retry claim now next_attempt_at failure_class) in
  stop_if negb scheduled with StaleContentMutation else
  t_ret tt.

Definition retry_or_fail_safe (max_attempts base_backoff_secs max_backoff_secs : Z) (failure_class : string) (d : Draws)
  : WTx (unit * bool) :=
  let c := dr_clock d in
  while_claimed claim (c 0%nat) (tt, true) (fun a =>
  let columns := la_columns a in
  let now := c 1%nat in
  if max_attempts <=? la_attempts a then
    let* _ := if String.eqb (ac_target_type columns) "version" then
                let* _ := on_tickets (lock_bucket_for_ownership (ac_bucket columns)) in
                clear_ticket claim (ac_bucket columns) (ac_object_key columns) now
              else t_ret tt in
    let* failed := on_lifecycle (mark_failed_safe claim now failure_class) in
    stop_if negb failed with StaleContentMutation else
    commit tt
  else
    let* _ := schedule_next a base_backoff_secs max_backoff_secs now failure_class in
    commit tt).

Definition settle_post_admission_failure (t : VersionTargetIdentity) (guard : StandardMutationGuard)
    (max_attempts base_backoff_secs max_backoff_secs : Z) (failure_class : string) (retry : bool) (d : Draws)
  : WTx (unit * bool) :=
  let c := dr_clock d in
  let* locked := on_lifecycle (lock_claim_for_execution claim (c 0%nat)) in
  let now := c 1%nat in
  let* _ := on_tickets (lock_bucket_for_ownership (vt_bucket t)) in
  let* _ := on_tickets (release_standard_mutation_in_transaction guard (us now)) in
  match locked with
  | None => commit tt
  | Some a =>
    if retry && (la_attempts a <? max_attempts) then
      let* _ := schedule_next a base_backoff_secs max_backoff_secs now failure_class in
      commit tt
    else
      let* failed := on_lifecycle (mark_failed_safe claim now failure_class) in
      stop_if negb failed with StaleContentMutation else
      commit tt
  end.

(** *** The deletion of a version *)

Inductive Verdict : Type := Obsolete | Preempted | Due (kind : LifecycleActionKind).

(** Whether the rules still call for the action, read again in the transaction that acts on it *)
Definition judge (t : VersionTargetIdentity) (a : ActionColumns) (now : Z) : WTx Verdict :=
  let* row := lock_lifecycle_configuration (vt_bucket t) in
  match row with
  | None => t_ret Obsolete
  | Some row =>
    if negb (lc_revision row =? ac_config_revision a) then t_ret Obsolete
    else
      match lc_canonical_json row with
      | None => t_ret Obsolete
      | Some json =>
        let* configuration := t_lift (from_canonical_json configuration_from_json json) in
        let* kind := t_lift (action_kind_from_db (ac_action_kind a)) in
        let* candidate := on_objects (revalidate_candidate t kind) in
        match candidate with
        | None => t_ret Obsolete
        | Some candidate =>
          let* tags := match vt_object_id t with Some id => list_object_tags id | None => t_ret [] end in
          let* context := t_reads (target_context candidate t tags (lc_revision row) configuration now) in
          let* expected := t_lift (evaluate_candidate context) in
          if is_some_and (action_matches_expected a) expected then t_ret (Due kind)
          else if String.eqb (ac_action_kind a) "expire_current"
                  && is_some_and (fun winner => bool_decide (act_kind winner = TransitionCurrent)) expected then
            let* wins := t_lift (expiration_wins_without_transitions a context) in
            t_ret (if wins then Preempted else Obsolete)
          else t_ret Obsolete
        end
      end
  end.

Definition complete_ticket (guard : StandardMutationGuard) (now : Z) (c : nat -> Z) : WTx unit :=
  on_tickets (complete_standard_mutation_in_transaction guard (us now) (us (c 0%nat)) (us (c 1%nat))).

Definition final_transaction (t : VersionTargetIdentity) (guard : StandardMutationGuard) (max_attempts : Z) (d : Draws)
  : WTx (unit * bool) :=
  let c := dr_clock d in
  let* locked := on_lifecycle (lock_claim_for_execution claim (c 0%nat)) in
  let now := c 1%nat in
  let* _ := on_tickets (lock_bucket_for_ownership (vt_bucket t)) in
  match locked with
  | None =>
    let* _ := on_tickets (release_standard_mutation_in_transaction guard (us now)) in
    commit tt
  | Some a =>
    if negb (same_action_definition (cl_id claim, a) (cl_id claim, cl_action claim)) then
      let* _ := cancel_guarded_in_transaction guard now in
      commit tt
    else
      let* _ := on_tickets (verify_standard_mutation_guard guard (vt_bucket t) (vt_key t) [] (us (c 2%nat))) in
      if waiting_for_dependency a && (max_attempts <=? la_attempts a) then
        let* failed := on_lifecycle (mark_failed_safe claim now FAILURE_INTERNAL_DEPENDENCY) in
        stop_if negb failed with StaleContentMutation else
        let* _ := complete_ticket guard now (later 3 c) in
        commit tt
      else
        let* verdict := judge t (la_columns a) now in
        match verdict with
        | Obsolete =>
          let* _ := cancel_guarded_in_transaction guard now in
          commit tt
        | Preempted =>
          let* waiting := on_lifecycle (wait_for_transition_in_transaction claim (c 3%nat) (c 4%nat)) in
          stop_if negb waiting with StaleContentMutation else
          let* _ := complete_ticket guard now (later 5 c) in
          commit tt
        | Due kind =>
          let* result := execute_lifecycle_delete_guarded d t kind guard now (later 3 c) in
          match result with
          | LifecycleApplied _ | LifecycleAlreadySatisfied =>
            let* succeeded := on_lifecycle (mark_succeeded claim now) in
            stop_if negb succeeded with StaleContentMutation else
            commit tt
          | LifecycleStale =>
            let* _ := cancel_guarded_in_transaction guard now in
            commit tt
          end
        end
  end.

(** *** The abortion of an upload *)

Definition upload_due (t : MultipartUploadTargetIdentity) (a : ActionColumns) (now : Z) : WTx bool :=
  let* row := lock_lifecycle_configuration (mt_bucket t) in
  match row with
  | None => t_ret false
  | Some row =>
    if negb (lc_revision row =? ac_config_revision a) then t_ret false
    else
      match lc_canonical_json row with
      | None => t_ret false
      | Some json =>
        let* configuration := t_lift (from_canonical_json configuration_from_json json) in
        match eligible_abort (ac_rule_id a) (mt_key t) configuration with
        | None => t_ret false
        | Some abort =>
          let* upload := find_upload (mt_upload_id t) in
          if is_some_and (fun row => negb (exact_upload t row)) upload then t_ret false
          else
            t_ret match next_utc_midnight_after_full_days (mt_initiated_at t) (days_after_initiation abort) with
                  | Err _ => false
                  | Ok due_at => (ac_due_at a =? due_at) && (due_at <=? now)
                  end
        end
      end
  end.

Definition multipart_transaction (t : MultipartUploadTargetIdentity) (d : Draws) : WTx (unit * bool) :=
  let c := dr_clock d in
  while_claimed claim (c 0%nat) (tt, true) (fun a =>
  let now := c 1%nat in
  let cancel :=
    let* _ := cancel_without_guard_in_transaction now FAILURE_CANCELLED_STALE in
    commit tt in
  if negb (same_action_definition (cl_id claim, a) (cl_id claim, cl_action claim)) then cancel
  else
    let* _ := on_tickets (lock_bucket_for_ownership (mt_bucket t)) in
    let* due := upload_due t (la_columns a) now in
    if negb due then cancel
    else
      let* aborted := abort_exact_incomplete_upload_in_transaction t in
      match aborted with
      | AbortApplied | AbortAlreadySatisfied =>
        let* succeeded := on_lifecycle (mark_succeeded claim now) in
        stop_if negb succeeded with StaleContentMutation else
        commit tt
      | AbortStale => cancel
      end).

(** ** The program of an action *)

Definition admit_lifecycle_expiration (t : VersionTargetIdentity) (now : Z) : Work LifecycleAdmissionResult :=
  work_bind (transaction (fun d =>
    let c := dr_clock d in
    let* guard := on_tickets (try_admit_lifecycle_mutation (vt_bucket t) (vt_key t) (cl_id claim) (cl_claim_epoch claim) (us now)
                                (fun i => us (c (1 + i)%nat)) (us (c 0%nat))) in
    commit guard)) (fun result =>
  match result with
  | Ok (Some guard) => Finish (Ok (ActionAdmitted guard))
  | Ok None => Finish (Ok AdmissionDependency)
  | Err e =>
    match classify_lifecycle_admission_error e with
    | ClassStale => Finish (Ok AdmissionStale)
    | ClassTemporary => Finish (Ok AdmissionTemporary)
    | ClassOther => Finish (Err e)
    end
  end).

Definition execute_claimed_lifecycle_action (max_attempts base_backoff_secs max_backoff_secs : Z) : Work unit :=
  let retry class := transaction (retry_or_fail_safe max_attempts base_backoff_secs max_backoff_secs class) in
  let fail_safely := transaction (fail_safe FAILURE_INTERNAL_DEPENDENCY) in
  let settle e := if is_temporary_execution_error e then retry FAILURE_DATABASE_CONTENTION else fail_safely in
  match validate_execution_settings max_attempts base_backoff_secs max_backoff_secs with
  | Err e => Finish (Err e)
  | Ok _ =>
    match action_kind_from_db (ac_action_kind (la_columns (cl_action claim))) with
    | Ok TransitionCurrent | Ok TransitionNoncurrent =>
      Finish (Err (Internal "lifecycle transition requires the tier-aware executor"))
    | _ =>
      match target_from_action (la_columns (cl_action claim)) with
      | Err _ => fail_safely
      | Ok (TargetMultipart t) =>
        work_bind (transaction (multipart_transaction t)) (fun result =>
        match result with Ok _ => work_done | Err e => settle e end)
      | Ok (TargetVersion t) =>
        work_bind (transaction (fun d => commit (dr_clock d 0%nat))) (fun admission_now =>
        match admission_now with
        | Err e => settle e
        | Ok now =>
          work_bind (admit_lifecycle_expiration t now) (fun admission =>
          match admission with
          | Err e => settle e
          | Ok (ActionAdmitted guard) =>
            work_bind (transaction (final_transaction t guard max_attempts)) (fun result =>
            match result with
            | Ok _ => work_done
            | Err e =>
              let temporary := is_temporary_execution_error e in
              transaction (settle_post_admission_failure t guard max_attempts base_backoff_secs max_backoff_secs
                (if temporary then FAILURE_DATABASE_CONTENTION else FAILURE_INTERNAL_DEPENDENCY) temporary)
            end)
          | Ok AdmissionStale => transaction (cancel_without_guard FAILURE_CANCELLED_STALE)
          | Ok AdmissionTemporary => retry FAILURE_ADMISSION_TEMPORARILY_UNAVAILABLE
          | Ok AdmissionDependency =>
            let& waiting := transaction (fun d =>
              let* waiting := on_lifecycle (wait_for_mutation_dependency claim max_attempts (dr_clock d 0%nat) (dr_clock d 1%nat)) in
              commit waiting) in
            if waiting : bool then work_done else retry FAILURE_ADMISSION_TEMPORARILY_UNAVAILABLE
          end)
        end)
      end
    end
  end.

(** [execute_claimed_action] of [src/lifecycle/worker.rs]; [tiers] says whether there are Kubo clients, and
    whether one of them is cold. *)
Definition execute_claimed_action (config : ValidatedLifecycleConfig) (tiers : option bool) : Work unit :=
  match action_kind_from_db (ac_action_kind (la_columns (cl_action claim))) with
  | Ok TransitionCurrent | Ok TransitionNoncurrent =>
    match tiers with
    | None =>
      let& recovered := recover_published claim config in
      if recovered : bool then work_done else settle_failure claim config
    | Some cold_configured => execute claim config cold_configured
    end
  | _ => execute_claimed_lifecycle_action (max_attempts config) (base_backoff_secs config) (max_backoff_secs config)
  end.
End expiration.
