(* ===== verification/ActionWorkers.v ===== *)
(** * The workers of lifecycle actions

    Any number of workers run [execute_claimed_action] of [src/lifecycle/worker.rs], each with a claim it
    was given.  Whatever they do is a history of [TransitionSystem]; and an expiration deletes nothing but
    its target, and only while the rules call for it. *)

From Stdlib Require Import ZArith Lia Ascii.
From Stdlib Require String.
From stdpp Require Import base list strings pretty sorting gmap.
From S2P Require Import Prelude Bytes Errors Chrono VersionModel LifecycleModel LifecycleConfig LifecycleEval Database Transaction.
From S2P Require Import ObjectStore ResidencyStore VersionStore VersionSpec VersionReads Publication VersionSystem StoreEffects.
From S2P Require Import ImportDb Ownership LifecycleActions LifecycleQueue Revalidation Transitions TransitionRuns TransitionSystem.
From S2P Require Import TransitionTheorems TransitionWorker Expiration.

#[local] Open Scope string_scope.
#[local] Open Scope list_scope.
#[local] Open Scope Z_scope.
#[local] Open Scope rust_scope.

Section operations.
Context `{Chrono} `{ActionCodec} `{UuidLaws} `{OwnershipGranted} `{TransitionCodec}.
Context (claim : ClaimedLifecycleAction).

(** ** Operations *)

Lemma keeps_terminal now state class : t_keeps rows_kept (terminal_failure_update claim now state class).
Proof. unfold terminal_failure_update. t_keep. Qed.
Lemma moves_succeeded now : moves claim (on_lifecycle (mark_succeeded claim now)).
Proof. apply moves_queue; [by intros; eapply qs_succeed|apply keeps_update_action]. Qed.
Lemma moves_cancelled_action now class : moves claim (on_lifecycle (mark_cancelled claim now class)).
Proof. apply moves_queue; [by intros; eapply qs_cancel|apply keeps_terminal]. Qed.
Lemma moves_failed now class : moves claim (on_lifecycle (mark_failed_safe claim now class)).
Proof. apply moves_queue; [by intros; eapply qs_fail|apply keeps_terminal]. Qed.
Lemma moves_wait_transition c1 c2 : moves claim (on_lifecycle (wait_for_transition_in_transaction claim c1 c2)).
Proof.
  apply moves_queue; [by intros; eapply qs_wait_transition|].
  unfold wait_for_transition_in_transaction, park_dependency_in_transaction. t_keep.
Qed.
Lemma moves_release guard now : moves claim (on_tickets (release_standard_mutation_in_transaction guard now)).
Proof.
  apply moves_tickets. unfold release_standard_mutation_in_transaction, clear_standard_mutation_in_transaction, update_dest.
  t_keep.
Qed.
Lemma moves_complete guard now c : moves claim (complete_ticket guard now c).
Proof. apply moves_tickets, complete_keeps_buckets. Qed.
Lemma moves_abort t : moves claim (abort_exact_incomplete_upload_in_transaction t).
Proof.
  apply moves_once. intros w a db' _ E. unfold abort_exact_incomplete_upload_in_transaction in E.
  pose proof (fun u => ws_others w (wd_configs (w_db w)) (wd_tags (w_db w)) u _ _ (reflexivity (w_used w)) (reflexivity (w_rows w))) as Hs.
  destruct (up_uploads _ !! _) as [row|]; [destruct (exact_upload t row)|];
    injection E as _ <-; [apply Hs|specialize (Hs (wd_uploads (w_db w)))..]; destruct w as [[]]; exact Hs.
Qed.
End operations.

(** ** Deletions *)

Section deletions.
Context `{Chrono} `{UuidLaws} `{OwnershipGranted} `{TransitionCodec}.

(** What an action of a kind does to the version [v], its target, in a bucket whose versioning is [state],
    [public] being the identifier of a new delete marker: a current version is deleted as a DELETE without
    version id deletes it, a noncurrent one is removed, a delete marker is removed when it is alone.  No
    other key changes. *)
Record expires (kind : LifecycleActionKind) (state : BucketVersioningState) (public : string) (v : VersionRow) (o o' : Db) : Prop := {
  ex_history :
    let h := history (v_bucket v) (v_key v) in
    match kind with
    | ExpireCurrent => v_is_latest v = true /\ h o' = hist_delete state Current public (h o)
    | ExpireNoncurrent => v_is_latest v = false /\ h o' = hist_remove (v_version_id v) (h o)
    | DeleteExpiredMarker => h o = [(v_version_id v, None)] /\ h o' = []
    | _ => False
    end;
  ex_others b k : (b, k) <> (v_bucket v, v_key v) -> history b k o' = history b k o
}.

Lemma matched_row t v : target_matches_row v t = Ok true ->
  vt_bucket t = v_bucket v /\ vt_key t = v_key v /\ public_version_id v = Ok (vt_public_version_id t).
Proof.
  unfold target_matches_row. destruct (String.eqb_spec (v_bucket v) (vt_bucket t)) as [->|]; [|done].
  destruct (String.eqb_spec (v_key v) (vt_key t)) as [->|]; [|done]. destruct (_ =? _); [|done].
  destruct (bool_decide (v_object_id v = _)); [|done]. simpl. intros E. ok_inv E.
  destruct (bool_decide _); [|done]. ok_inv E. injection E as E. apply bool_decide_eq_true in E. subst.
  done.
Qed.

Lemma row_selector o v id : Inv o -> v ∈ versions o -> public_version_id v = Ok id ->
  valid_selector (Exact id) /\ version_as_db_value id = v_version_id v.
Proof.
  intros Hi Hv. unfold public_version_id. destruct (v_version_id v) as [value|] eqn:E; [|by intros [= <-]].
  intros [[-> ->]|[-> Hc]]%map_err_ok%parse_s3_ok; [|done].
  pose proof (inv_public o Hi v _ Hv E) as Hu. by rewrite uuid_canonical_null in Hu.
Qed.

(** An unversioned bucket has one version of a key at most, the current one. *)
Lemma unversioned_latest o v : Safe o -> get_versioning_state (v_bucket v) o = Ok (Unversioned, o) -> v ∈ versions o -> v_is_latest v = true.
Proof.
  intros [Hi Hn] Hs Hv. destruct (versioning_state_bucket _ _ o (inv_constraints o Hi) Hs) as (r & Hr & Eb & Est).
  assert (forall x, x ∈ versions o -> of_key (v_bucket v) (v_key v) x -> v_version_id x = None) as Hnull.
  { intros x Hx [Xb _]. apply (Hn r x); try done; [|congruence]. destruct (b_versioning_status r) as [st|]; [|done]. simpl in Est.
    destruct (String.eqb st "Enabled"); [done|]. by destruct (String.eqb st "Suspended"). }
  apply (inv_latest o Hi v Hv). intros x Hx Hk.
  assert (x = v) as -> by (by apply (null_row_only o (v_bucket v) (v_key v) Hi Hnull)). lia.
Qed.

(** A deletion of the version store *)
Record deletes (d : Draws) (kind : LifecycleActionKind) (state : BucketVersioningState) (v : VersionRow) (db db' : WorkerDb) : Prop := {
  de_tables : exists tags, db' = set_tags tags (set_worker_objects (wd_objects db') db);
  de_step : step (wd_objects db) (wd_objects db');
  de_rows x : x ∈ versions (wd_objects db') -> v_id x = dr_row d \/ v_id x ∈ map v_id (versions (wd_objects db));
  de_expires : expires kind state (dr_public d) v (wd_objects db) (wd_objects db')
}.

Lemma delete_with_tags_ok {A} state selector b k (m : Tx A) db a db' :
  delete_with_tags state selector b k m db = Ok (a, db') ->
  exists o' tags, m (wd_objects db) = Ok (a, o') /\ db' = set_tags tags (set_worker_objects o' db).
Proof.
  unfold delete_with_tags. intros (dropped & d & [-> ->]%t_reads_ok & E)%t_bind_ok.
  apply t_bind_ok in E as (a' & d & (o' & E1 & ->)%on_objects_ok & E). injection E as -> <-. exists o'. eexists. by split.
Qed.

(** A deletion as [delete_version_attempt] does it *)
Lemma attempt_deletes d kind state selector v now c1 db r o' tags :
  let o := wd_objects db in
  Safe o -> Fresh (dr_public d) (dr_row d) (v_bucket v) (v_key v) o -> get_versioning_state (v_bucket v) o = Ok (state, o) ->
  valid_selector selector ->
  delete_version_attempt (dr_public d) (dr_row d) c1 (v_bucket v) (v_key v) selector now o = Ok (r, o') ->
  (history (v_bucket v) (v_key v) o' = hist_delete state selector (dr_public d) (history (v_bucket v) (v_key v) o) ->
   (forall b k, (b, k) <> (v_bucket v, v_key v) -> history b k o' = history b k o) -> expires kind state (dr_public d) v o o') ->
  deletes d kind state v db (set_tags tags (set_worker_objects o' db)).
Proof.
  intros o [Hi Hn] Hf Hs Hval E Hex. pose proof (inv_constraints o Hi) as Hc. split; cbn [set_tags set_worker_objects wd_objects].
  - by exists tags.
  - by eapply step_delete.
  - intros x Hx. pose proof (delete_attempt_effect (dr_row d) _ _ _ _ _ _ _ _ _ E Hc) as K.
    destruct (sk_versions _ _ _ K x Hx) as [?|(y & Hy & Ey & _)]; [by left|]. right. rewrite <- Ey. by apply list_elem_of_fmap_2.
  - pose proof (fresh_installable _ _ _ _ o Hi Hf (bucket_of_state _ _ _ Hc Hs)) as I.
    pose proof (delete_version_attempt_spec _ _ c1 _ _ selector now o state Hi Hn Hs Hval I) as Hspec.
    cbv zeta in Hspec. rewrite E in Hspec. apply Hex.
    all: destruct selector as [|id], state; try (destruct (hist_resolve (Exact id) _)); try discriminate;
      destruct Hspec as [x Hx]; try discriminate; destruct Hx as ([= _ ->] & _ & _ & ? & ?); done.
Qed.

Lemma apply_deletion_ok d t kind state v now c1 db r db' :
  let o := wd_objects db in
  Safe o -> (forall b k, Fresh (dr_public d) (dr_row d) b k o) -> get_versioning_state (vt_bucket t) o = Ok (state, o) ->
  v ∈ versions o -> target_matches_row v t = Ok true -> apply_deletion d t kind state v now c1 db = Ok (r, db') ->
  match r with
  | Some (LifecycleApplied _) => deletes d kind state v db db'
  | Some LifecycleStale => False
  | _ => db' = db
  end.
Proof.
  intros o Hsafe Hf Hs Hv Hm E. destruct Hsafe as [Hi Hn] eqn:EqS. clear EqS. pose proof (inv_constraints o Hi) as Hc.
  destruct (matched_row t v Hm) as (Eb & Ek & Hid). unfold apply_deletion in E. rewrite Eb, Ek in *.
  destruct kind; [| |done|done| |done].
  - destruct (_ || negb (v_is_latest v)) eqn:Hl in E; [by t_inv E|]. apply orb_false_iff in Hl as [_ Hl%negb_false_iff].
    apply t_bind_ok in E as (x & d1 & (o' & tags & E1 & ->)%delete_with_tags_ok & E). t_inv E.
    apply (attempt_deletes d _ state Current v now c1 db x); try done.
    rewrite (delete_version_attempt_locked _ _ _ _ _ Current _ o state Hc Hs), andb_false_r.
    destruct state; fold o in E1; by rewrite E1.
  - destruct (v_is_latest v) eqn:Hl; [by t_inv E|].
    apply t_bind_ok in E as (x & d1 & (o' & tags & E1 & ->)%delete_with_tags_ok & E). t_inv E.
    destruct (row_selector o v _ Hi Hv Hid) as [Hval Hdb].
    apply (attempt_deletes d _ state (Exact (vt_public_version_id t)) v now c1 db x); try done.
    + rewrite (delete_version_attempt_locked _ _ _ _ _ (Exact _) _ o state Hc Hs). fold o in E1. rewrite bool_decide_false; [by rewrite E1|].
      intros ->. by rewrite (unversioned_latest o v) in Hl.
    + intros Hh Ho. split; [|done]. split; [done|]. simpl in Hh. by rewrite Hh, Hdb.
  - destruct (_ || negb (v_is_latest v)) eqn:Hl in E; [by t_inv E|].
    apply t_bind_ok in E as (x & d1 & (o' & E1 & ->)%on_objects_ok & E). t_inv E. fold o in E1.
    assert (version_check v) as Hck.
    { destruct Hc as (_ & _ & (_ & _ & _ & _ & _ & Hck & _) & _). rewrite Forall_forall in Hck. by apply Hck. }
    destruct (delete_current_sole_marker_safe o v Hi Hck) as (x' & d' & E1' & Hr). rewrite E1 in E1'. injection E1' as <- <-.
    destruct (sole_marker_rows _ _ _ _ Hc E1) as [_ Hrows]. destruct x as [res| |]; [|subst o'; by destruct db..].
    destruct Hr as (_ & _ & Hh & Hh' & _ & Ho). split; cbn [set_worker_objects wd_objects].
    + exists (wd_tags db). by destruct db.
    + by eapply step_sole_marker.
    + intros y Hy. right. apply list_elem_of_fmap_2. by apply Hrows.
    + split; [|done]. by split.
Qed.

(** *** What a guarded execution does *)

Lemma guarded_execution_ok d t kind guard now c db r db' :
  let o := wd_objects db in
  Safe o -> (forall b k, Fresh (dr_public d) (dr_row d) b k o) ->
  execute_lifecycle_delete_guarded d t kind guard now c db = Ok (r, db') ->
  match r with
  | LifecycleApplied _ | LifecycleAlreadySatisfied =>
    exists state v db1, get_versioning_state (vt_bucket t) o = Ok (state, o) /\ find_version (vt_version_row_id t) o = Some v
      /\ target_matches_row v t = Ok true
      /\ (deletes d kind state v db db1 \/ db1 = db /\ r = LifecycleAlreadySatisfied)
      /\ complete_ticket guard now (later 2 c) db1 = Ok (tt, db')
  | LifecycleStale => db' = db
  end.
Proof.
  intros o Hsafe Hf. pose proof (inv_constraints o (proj1 Hsafe)) as Hc. unfold execute_lifecycle_delete_guarded.
  destruct (_ || _); [done|]. destruct (_ || _); [by intros [= <- <-]|].
  intros (u & d1 & ->%(read_only_run (on_tickets _)) & E)%t_bind_ok; [|apply read_only_on_tickets, lock_bucket_read_only].
  destruct (on_tickets _ db) as [[x d1]|e] eqn:Ev in E; [|destruct e; try done; by injection E as <- <-].
  apply (read_only_run (on_tickets _)) in Ev as ->; [|apply read_only_on_tickets, verify_guard_read_only].
  apply t_bind_ok in E as (state & d1 & (o1 & Hs & ->)%on_objects_ok & E). apply lock_versioning_inv in Hs as [-> Hs].
  assert (set_worker_objects (wd_objects db) db = db) as Hid by (by destruct db). rewrite Hid in E.
  apply t_bind_ok in E as (sel & d1 & (o1 & [= <- <-] & ->)%on_objects_ok & E). rewrite Hid in E. fold o in E, Hs.
  destruct (find_version _ o) as [v|] eqn:Hv; [|by t_inv E]. pose proof Hv as [Hin _]%(find_version_ok o Hc).
  apply t_bind_ok in E as (m & d1 & [Hm ->]%t_lift_ok & E). destruct m; simpl in E; [|by t_inv E].
  apply t_bind_ok in E as (res & d1 & Ea & E). apply (apply_deletion_ok d t kind state v now) in Ea; try done.
  destruct res as [res|]; [|by t_inv E]. apply t_bind_ok in E as ([] & d2 & Ec & E). t_inv E.
  destruct res; [exists state, v, d1; split_and!; by try left|exists state, v, d1; split_and!; first [done|by right]|done].
Qed.

Lemma judge_read_only t a now : read_only (judge t a now).
Proof. unfold judge, lock_lifecycle_configuration, list_object_tags. read_only_walk; apply read_only_on_objects, revalidate_candidate_read_only. Qed.
Lemma upload_due_read_only t a now : read_only (upload_due t a now).
Proof. unfold upload_due, lock_lifecycle_configuration, find_upload. read_only_walk. Qed.
End deletions.

(** ** Actions are histories *)

#[export] Hint Resolve moves_succeeded moves_cancelled_action moves_failed moves_wait_transition moves_release moves_complete
  moves_abort : moves.
#[export] Hint Extern 5 (moves _ (judge _ _ _)) => apply moves_read, judge_read_only : moves.
#[export] Hint Extern 5 (moves _ (upload_due _ _ _)) => apply moves_read, upload_due_read_only : moves.
#[export] Hint Extern 6 (moves _ (on_tickets (verify_standard_mutation_guard _ _ _ _ _))) =>
  apply moves_read, read_only_on_tickets, verify_guard_read_only : moves.

Section actions.
Context `{Chrono} `{ActionCodec} `{UuidLaws} `{OwnershipGranted} `{TransitionCodec}.
Context (claim : ClaimedLifecycleAction).

Lemma moves_cancel_bare now class : moves claim (cancel_without_guard_in_transaction claim now class).
Proof. unfold cancel_without_guard_in_transaction. moves_walk. Qed.
#[local] Hint Resolve moves_cancel_bare : moves.
Lemma moves_cancel_guarded guard now : moves claim (cancel_guarded_in_transaction claim guard now).
Proof. unfold cancel_guarded_in_transaction. moves_walk. Qed.
Lemma moves_schedule_next a base max now class : moves claim (schedule_next claim a base max now class).
Proof. unfold schedule_next. moves_walk. Qed.
#[local] Hint Resolve moves_cancel_guarded moves_schedule_next : moves.

Lemma moves_cancel_transaction class d : moves claim (cancel_without_guard claim class d).
Proof. unfold cancel_without_guard, commit. cbv zeta. moves_walk. Qed.
Lemma moves_fail_safe class d : moves claim (fail_safe claim class d).
Proof. unfold fail_safe, commit. cbv zeta. moves_walk. Qed.
Lemma moves_retry_or_fail max base maxb class d : moves claim (retry_or_fail_safe claim max base maxb class d).
Proof. unfold retry_or_fail_safe, commit. cbv zeta. moves_walk. Qed.
Lemma moves_post_admission t guard max base maxb class retry d :
  moves claim (settle_post_admission_failure claim t guard max base maxb class retry d).
Proof. unfold settle_post_admission_failure, commit. cbv zeta. moves_walk. Qed.
Lemma moves_multipart t d : moves claim (multipart_transaction claim t d).
Proof. unfold multipart_transaction, commit. cbv zeta. moves_walk. Qed.

(** A deletion is a step of the store, and clears tags. *)
Lemma deletes_moves w d kind state v db1 :
  world_inv w -> drawn d w -> deletes d kind state v (w_db w) db1 ->
  exists rows, rows ⊆ {[dr_row d]} ∪ w_rows w
    /\ rtc world_step w {| w_db := db1; w_issued := w_issued w; w_used := w_used w; w_rows := rows |}.
Proof.
  intros Hw Hd [[tags Hdb] Hst Hr _]. set (o' := wd_objects db1) in *. exists (row_ids o' ∪ w_rows w). split.
  - intros x [Hx|Hx]%elem_of_union; [|set_solver]. unfold row_ids in Hx. rewrite elem_of_list_to_set in Hx.
    apply list_elem_of_fmap in Hx as (y & -> & Hy). destruct (Hr y Hy) as [->|Hin]; [set_solver|].
    apply list_elem_of_fmap in Hin as (z & -> & Hz). apply elem_of_union_r. by apply (wi_rows w Hw).
  - eapply rtc_l; [apply (ws_objects w o' Hst)|apply rtc_once].
    + intros y Hy Hnew. destruct (Hr y Hy) as [->|Hin]; [apply Hd|]. destruct Hnew. unfold row_ids. by rewrite elem_of_list_to_set.
    + rewrite Hdb. eapply (ws_others {| w_db := set_worker_objects o' (w_db w) |}); cbn [w_used w_rows]; done.
Qed.

Lemma rest_moves {B} (m : WTx (B * bool)) w d b db' :
  moves claim m -> world_inv w -> claim ∈ w_issued w -> drawn d w -> m (w_db w) = Ok ((b, true), db') ->
  rtc world_step w (committed d db' w).
Proof. intros Hm. by apply (commits_moves claim (fun _ => m)). Qed.

Lemma commits_final t guard max : commits claim (final_transaction claim t guard max).
Proof.
  intros w d b db' Hw Hc Hd. unfold final_transaction. cbv zeta.
  intros (locked & d1 & ->%(read_only_run (on_lifecycle _)) & E)%t_bind_ok; [|apply read_only_on_lifecycle, lock_claim_read_only].
  apply t_bind_ok in E as (u & d1 & ->%(read_only_run (on_tickets _)) & E); [|apply read_only_on_tickets, lock_bucket_read_only].
  destruct locked as [a|]; [|eapply rest_moves, E; try done; unfold commit; moves_walk].
  destruct (negb _); [eapply rest_moves, E; try done; unfold commit; moves_walk|].
  apply t_bind_ok in E as (u' & d1 & ->%(read_only_run (on_tickets _)) & E); [|apply read_only_on_tickets, verify_guard_read_only].
  destruct (_ && _); [eapply rest_moves, E; try done; unfold commit; moves_walk|].
  apply t_bind_ok in E as (verdict & d1 & ->%(read_only_run (judge _ _ _)) & E); [|apply judge_read_only].
  destruct verdict as [| |kind]; [eapply rest_moves, E; try done; unfold commit; moves_walk..|].
  apply t_bind_ok in E as (r & d1 & Er & E).
  apply guarded_execution_ok in Er; [|apply Hw|apply Hd].
  assert (r = LifecycleStale \/ exists state v db1, (deletes d kind state v (w_db w) db1 \/ db1 = w_db w)
    /\ complete_ticket guard (dr_clock d 1%nat) (later 2 (later 3 (dr_clock d))) db1 = Ok (tt, d1)) as [->|(state & v & db1 & Hdel & Ect)].
  { destruct r; [right|right|by left]; destruct Er as (state & v & db1 & _ & _ & _ & Hdel & Ect); exists state, v, db1; split; try done;
      destruct Hdel as [?|[? _]]; auto. }
  { subst d1. eapply rest_moves, E; try done. unfold commit. moves_walk. }
  assert (exists rows, rows ⊆ {[dr_row d]} ∪ w_rows w
    /\ rtc world_step w {| w_db := db1; w_issued := w_issued w; w_used := w_used w; w_rows := rows |}) as (rows & Hrows & Hr).
  { destruct Hdel as [Hdel| ->]; [by eapply deletes_moves|]. exists (w_rows w). split; [set_solver|]. by destruct w. }
  set (w1 := {| w_db := db1; w_issued := w_issued w; w_used := w_used w; w_rows := rows |}) in *.
  assert (moves claim (let* _ := complete_ticket guard (dr_clock d 1%nat) (later 2 (later 3 (dr_clock d))) in
    match r with
    | LifecycleApplied _ | LifecycleAlreadySatisfied =>
      let* succeeded := on_lifecycle (mark_succeeded claim (dr_clock d 1%nat)) in
      stop_if negb succeeded with StaleContentMutation else commit tt
    | LifecycleStale => let* _ := cancel_guarded_in_transaction claim guard (dr_clock d 1%nat) in commit tt
    end)) as Hm by (unfold commit; moves_walk).
  apply (committed_later w (with_worker_db db' w1)); [|done|cbn; set_solver|done]. etrans; [exact Hr|].
  apply (Hm w1 (b, true) db'); [by eapply world_steps_inv|done|]. unfold w1. cbn [w_db].
  apply t_bind_ok. by exists tt, d1.
Qed.

#[local] Hint Resolve moves_cancel_transaction moves_fail_safe moves_retry_or_fail moves_post_admission moves_multipart commits_final : moves.

Lemma lawful_admission t now : lawful claim (admit_lifecycle_expiration claim t now).
Proof.
  unfold admit_lifecycle_expiration. lawful_walk. apply lawful_transaction, commits_moves. intros d. unfold commit. cbv zeta. moves_walk.
Qed.
#[local] Hint Resolve lawful_admission : moves.

Lemma lawful_action max base maxb : lawful claim (execute_claimed_lifecycle_action claim max base maxb).
Proof.
  unfold execute_claimed_lifecycle_action. cbv zeta. lawful_walk; apply lawful_transaction, commits_moves; intros d; unfold commit; moves_walk.
Qed.
#[local] Hint Resolve lawful_action : moves.

Lemma lawful_claimed config tiers : lawful claim (execute_claimed_action claim config tiers).
Proof. unfold execute_claimed_action. lawful_walk. Qed.
End actions.

(** ** Many workers *)

Section fleet.
Context `{Chrono} `{ActionCodec} `{UuidLaws} `{OwnershipGranted} `{TransitionCodec}.

(** Any number of workers, each with a claim it was given, and others beside them.  A worker may stop at
    any point. *)
Inductive fleet_step : list (Work unit) * World -> list (Work unit) * World -> Prop :=
| fl_start claim config tiers fleet w :
  claim ∈ w_issued w -> fleet_step (fleet, w) (execute_claimed_action claim config tiers :: fleet, w)
| fl_work before m m' behind w w' :
  work_step (m, w) (m', w') -> fleet_step (before ++ m :: behind, w) (before ++ m' :: behind, w')
| fl_stop before m behind w : fleet_step (before ++ m :: behind, w) (before ++ behind, w)
| fl_others fleet w w' : world_step w w' -> fleet_step (fleet, w) (fleet, w').

Lemma issued_step w w' claim : world_step w w' -> claim ∈ w_issued w -> claim ∈ w_issued w'.
Proof.
  destruct 1 as [q' Hq| | | | | | | | | | |]; try done. cbn [with_queue w_issued]. intros Hc.
  destruct Hq; cbn [q_issued with_db queue_of] in *; try done. by apply elem_of_app; right.
Qed.
Lemma issued_steps w w' claim : rtc world_step w w' -> claim ∈ w_issued w -> claim ∈ w_issued w'.
Proof. induction 1; eauto using issued_step. Qed.

Definition employed (w : World) (m : Work unit) : Prop := exists claim, (claim ∈ w_issued w) /\ lawful claim m.

Lemma employed_steps w w' m : rtc world_step w w' -> employed w m -> employed w' m.
Proof. intros Hr (claim & Hc & Hm). exists claim. eauto using issued_steps. Qed.

Lemma fleet_step_moves fleet fleet' w w' :
  world_inv w -> Forall (employed w) fleet -> fleet_step (fleet, w) (fleet', w') ->
  rtc world_step w w' /\ Forall (employed w') fleet'.
Proof.
  intros Hw Hf Hs. inversion Hs as [claim config tiers f w0 Hc|b m m' f w0 w1 Hm|b m f w0|f w0 w1 Hstep]; subst; clear Hs.
  - split; [done|]. constructor; [|done]. exists claim. split; [done|apply lawful_claimed].
  - apply Forall_app in Hf as [Hb [(claim & Hc & Hl) Hf]%Forall_cons].
    destruct (lawful_step claim m m' w w') as [Hr Hl']; [done..|]. split; [done|].
    apply Forall_app. split; [|constructor]; try (eapply Forall_impl; [done|]; intros; by eapply employed_steps).
    exists claim. eauto using issued_steps.
  - split; [done|]. apply Forall_app in Hf as [Hb [_ Hf]%Forall_cons]. by apply Forall_app.
  - assert (rtc world_step w w') as Hr by by apply rtc_once.
    split; [done|]. eapply Forall_impl; [done|]. intros. by eapply employed_steps.
Qed.

Lemma fleet_steps_moves s s' :
  rtc fleet_step s s' -> world_inv s.2 -> Forall (employed s.2) s.1 -> rtc world_step s.2 s'.2.
Proof.
  induction 1 as [s|[f w] [f1 w1] s Hs _ IH]; [done|]. cbn [fst snd] in *. intros Hw Hf.
  destruct (fleet_step_moves f f1 w w1) as [Hr Hf1]; [done..|]. etrans; [exact Hr|]. apply IH; [|done].
  by eapply world_steps_inv.
Qed.

(** C8: The workers only do what the system of single operations allows.  Any number of workers run the code
    that executes claimed lifecycle actions from its first line, transitions, expirations and aborted
    uploads alike, each with a claim it was given, in any interleaving with each other and with everything
    else that happens to the tables; the nodes answer anything, workers are cancelled or stop at any point,
    transactions fail and their answers get lost.  Every state they reach is a state of the system of
    single committed operations, so what holds there holds while workers run. *)
Theorem fleet_refines (imports : ImportDb) (fleet : list (Work unit)) (w : World)
    (Hr : rtc fleet_step ([], empty_world imports) (fleet, w)) :
  reachable_world w.
Proof. exists imports. apply (fleet_steps_moves _ _ Hr); [apply empty_world_inv|constructor]. Qed.
End fleet.

(** ** What an expiration deletes *)

Section safety.
Context `{Chrono} `{ActionCodec} `{UuidLaws} `{OwnershipGranted} `{TransitionCodec}.

Lemma kind_of_persisted kind : action_kind_from_db (persisted_action_kind kind) = Ok kind.
Proof. by destruct kind. Qed.

(** An action is found due only when a rule of the current configuration makes it eligible. *)
Lemma judged_due t a now db kind db' :
  judge t a now db = Ok (Due kind, db') ->
  exists row json config version v cx i rule id st,
    wd_configs db !! vt_bucket t = Some row /\ lc_revision row = ac_config_revision a
    /\ lc_canonical_json row = Some json /\ from_canonical_json configuration_from_json json = Ok config
    /\ rules config !! i = Some rule /\ rule_identity (rule_id rule) (Z.of_nat i) = Ok (id, st)
    /\ persisted_rule_identity id = ac_rule_id a /\ persisted_action_kind kind = ac_action_kind a
    /\ ac_target_version_row_id a = Some (vt_version_row_id t)
    /\ target version = t /\ stored_context cx version v config now db
    /\ eligible {| candidate := version; facts := cx |} rule kind (ac_due_at a).
Proof.
  unfold judge, lock_lifecycle_configuration. intros (row & d & [-> ->]%t_reads_ok & Hk)%t_bind_ok.
  destruct (wd_configs db !! vt_bucket t) as [row|] eqn:Erow; [|by t_inv Hk].
  destruct (lc_revision row =? _) eqn:Erev; simpl in Hk; [|by t_inv Hk]. apply Z.eqb_eq in Erev.
  destruct (lc_canonical_json row) as [json|] eqn:Ejson; [|by t_inv Hk].
  apply t_bind_ok in Hk as (config & d & [Hconfig ->]%t_lift_ok & Hk). apply t_bind_ok in Hk as (k & d & [Hkind ->]%t_lift_ok & Hk).
  apply t_bind_ok in Hk as (cand & d & Hcand & Hk). pose proof Hcand as Hro.
  apply (read_only_run (on_objects _)) in Hro as ->; [|apply read_only_on_objects, revalidate_candidate_read_only].
  apply on_objects_ok in Hcand as (o' & Hcand & _). destruct cand as [cand|]; [|by t_inv Hk].
  apply revalidated_stored in Hcand as (version & v & -> & Et & Hstored).
  apply t_bind_ok in Hk as (tags & d & Htags & Hk). rewrite <- Et, (sc_object_id _ _ _ Hstored) in Htags.
  apply list_object_tags_stored in Htags as [-> Htags].
  apply t_bind_ok in Hk as (cx & d & [Ecx ->]%t_reads_ok & Hk).
  assert (stored_context cx version v config now db) as Hcx
    by (subst cx; rewrite <- Et; exact (evaluation_context_stored version v tags (lc_revision row) config now db Hstored Htags)).
  clear Ecx. apply t_bind_ok in Hk as (expected & d & [Hexp ->]%t_lift_ok & Hk).
  destruct (is_some_and _ expected) eqn:Em;
    [|destruct (_ && _); [apply t_bind_ok in Hk as (wins & d & [_ ->]%t_lift_ok & [Hk _]%t_ret_ok); by destruct wins|by t_inv Hk]].
  t_inv Hk. destruct expected as [expected|]; [|done]. simpl in Em.
  apply (evaluated_eligible _ version) in Hexp as (i & rule & id & st & Hrule & Hid & Eid & Etarget & Hel); [|apply Hcx].
  rewrite (sx_configuration _ _ _ _ _ _ Hcx) in Hrule. unfold action_matches_expected in Em. rewrite Etarget, !andb_true_iff in Em.
  destruct Em as (((((Hmt & _) & _) & Hmr) & Hmk) & Hmd). assert (ac_target_version_row_id a = Some (vt_version_row_id (target version))) by (destruct_and!; by guard_inv).
  apply String.eqb_eq in Hmr, Hmk. apply Z.eqb_eq in Hmd. rewrite Hmk, kind_of_persisted in Hkind. injection Hkind as <-.
  exists row, json, config, version, v, cx, i, rule, id, st. rewrite Hmd. split_and!; try done; congruence.
Qed.

Definition same_objects (db db' : WorkerDb) : Prop := wd_objects db' = wd_objects db.
#[local] Instance same_objects_preorder : PreOrder same_objects.
Proof. split; [done|]. unfold same_objects. intros x y z ? ?. congruence. Qed.

Lemma lifecycle_objects {A} (m : LTx A) : t_keeps same_objects (on_lifecycle m).
Proof. by intros db a db' (l & _ & ->)%on_lifecycle_ok. Qed.
Lemma tickets_objects {A} (m : ITx A) : t_keeps same_objects (on_tickets m).
Proof. apply lifecycle_objects. Qed.
#[local] Hint Resolve lifecycle_objects tickets_objects : keeps.
Lemma cancel_objects claim guard now : t_keeps same_objects (cancel_guarded_in_transaction claim guard now).
Proof. unfold cancel_guarded_in_transaction, cancel_without_guard_in_transaction. t_keep. Qed.
Lemma complete_objects guard now c : t_keeps same_objects (complete_ticket guard now c).
Proof. apply tickets_objects. Qed.
#[local] Hint Resolve cancel_objects complete_objects : keeps.

Lemma rest_objects {A} (m : WTx A) db a db' : t_keeps same_objects m -> m db = Ok (a, db') -> wd_objects db' <> wd_objects db -> False.
Proof. intros Hm E%Hm Hne. by apply Hne. Qed.

(** A final transaction that changes the version store found its action due and deleted. *)
Lemma final_deletes claim t guard max d db x db' :
  Safe (wd_objects db) -> (forall b k, Fresh (dr_public d) (dr_row d) b k (wd_objects db)) ->
  final_transaction claim t guard max d db = Ok (x, db') -> wd_objects db' <> wd_objects db ->
  let c := dr_clock d in
  exists a kind state v db1 d1,
    actions db !! cl_id claim = Some a /\ active_action_claim claim a = true /\ lease_after (c 0%nat) a = true
    /\ on_tickets (verify_standard_mutation_guard guard (vt_bucket t) (vt_key t) [] (us (c 2%nat))) db = Ok (tt, db)
    /\ judge t (la_columns a) (c 1%nat) db = Ok (Due kind, db)
    /\ get_versioning_state (vt_bucket t) (wd_objects db) = Ok (state, wd_objects db)
    /\ find_version (vt_version_row_id t) (wd_objects db) = Some v /\ target_matches_row v t = Ok true
    /\ deletes d kind state v db db1
    /\ complete_ticket guard (c 1%nat) (later 5 c) db1 = Ok (tt, d1)
    /\ on_lifecycle (mark_succeeded claim (c 1%nat)) d1 = Ok (true, db').
Proof.
  intros Hs Hf E Hne c. unfold final_transaction in E. cbv zeta in E. fold c in E.
  apply t_bind_ok in E as (locked & d0 & El & E). pose proof El as ->%(read_only_run (on_lifecycle _));
    [|apply read_only_on_lifecycle, lock_claim_read_only].
  apply t_bind_ok in E as (u & d0 & ->%(read_only_run (on_tickets _)) & E); [|apply read_only_on_tickets, lock_bucket_read_only].
  destruct locked as [a|]; [|exfalso; eapply rest_objects, Hne; [|exact E]; unfold commit; t_keep].
  apply on_lifecycle_ok in El as (l & [_ Hl]%lock_claim_ok & _). destruct (Hl a eq_refl) as (Ha & Hact & Hlease).
  destruct (negb _) in E; [exfalso; eapply rest_objects, Hne; [|exact E]; unfold commit; t_keep|].
  apply t_bind_ok in E as ([] & d0 & Ev & E). pose proof Ev as ->%(read_only_run (on_tickets _));
    [|apply read_only_on_tickets, verify_guard_read_only].
  destruct (_ && _) in E; [exfalso; eapply rest_objects, Hne; [|exact E]; unfold commit; t_keep|].
  apply t_bind_ok in E as (verdict & d0 & Ej & E). pose proof Ej as ->%(read_only_run (judge _ _ _)); [|apply judge_read_only].
  destruct verdict as [| |kind]; [exfalso; eapply rest_objects, Hne; [|exact E]; unfold commit; t_keep..|].
  apply t_bind_ok in E as (r & d0 & Er & E). apply guarded_execution_ok in Er; [|done..].
  destruct r as [res| |].
  3: { subst d0. exfalso. eapply rest_objects, Hne; [|exact E]. unfold commit. t_keep. }
  all: destruct Er as (state & v & db1 & Hst & Hv & Hm & Hdel & Ec);
    apply t_bind_ok in E as ([|] & d2 & Esu & E); [|done]; simpl in E; apply t_ret_ok in E as [_ ->].
  - destruct Hdel as [Hdel|[_ ?]]; [|done]. exists a, kind, state, v, db1, d0. split_and!; try done; exact Ec.
  - destruct Hdel as [Hdel|[-> _]]; [exists a, kind, state, v, db1, d0; split_and!; try done; exact Ec|].
    exfalso. apply Hne. pose proof (lifecycle_objects _ _ _ _ Esu) as ->. by apply complete_objects in Ec.
Qed.

(** C9: An expiration deletes what is due, and nothing else.  When the transaction that executes an action
    changes the version store, in whatever history, the claim stands on the action with a live lease, the
    mutation ticket passes verification, the target is the version it was when the action was queued, and a
    rule of the configuration that the bucket has at that moment, at the revision of the action and with its
    identity, makes exactly this kind of expiration of exactly this version eligible, on the facts that the
    tables hold at that moment: the key, kind, role and age of the row, the size of its object, its storage
    class, the tags of the object and the counts of versions of the key.  Then exactly that version goes, as
    its kind and the versioning of the bucket prescribe, no other key changes, and the same transaction
    records the action as succeeded. *)
Theorem expiration_only_due (w : World) (claim : ClaimedLifecycleAction) (t : VersionTargetIdentity)
    (guard : StandardMutationGuard) (max : Z) (d : Draws) (x : unit * bool) (db' : WorkerDb)
    (Hw : reachable_world w) (Hd : drawn d w) (Hrun : final_transaction claim t guard max d (w_db w) = Ok (x, db'))
    (Hchanged : wd_objects db' <> wd_objects (w_db w)) :
  let c := dr_clock d in
  exists a kind state v row json config version cx i rule id st,
    actions (w_db w) !! cl_id claim = Some a /\ active_action_claim claim a = true /\ lease_after (c 0%nat) a = true
    /\ on_tickets (verify_standard_mutation_guard guard (vt_bucket t) (vt_key t) [] (us (c 2%nat))) (w_db w) = Ok (tt, w_db w)
    /\ find_version (vt_version_row_id t) (wd_objects (w_db w)) = Some v /\ target_matches_row v t = Ok true
    /\ wd_configs (w_db w) !! vt_bucket t = Some row /\ lc_revision row = ac_config_revision (la_columns a)
    /\ lc_canonical_json row = Some json /\ from_canonical_json configuration_from_json json = Ok config
    /\ rules config !! i = Some rule /\ rule_identity (rule_id rule) (Z.of_nat i) = Ok (id, st)
    /\ persisted_rule_identity id = ac_rule_id (la_columns a) /\ persisted_action_kind kind = ac_action_kind (la_columns a)
    /\ ac_target_version_row_id (la_columns a) = Some (vt_version_row_id t)
    /\ target version = t /\ stored_context cx version v config (c 1%nat) (w_db w)
    /\ eligible {| candidate := version; facts := cx |} rule kind (ac_due_at (la_columns a))
    /\ get_versioning_state (vt_bucket t) (wd_objects (w_db w)) = Ok (state, wd_objects (w_db w))
    /\ expires kind state (dr_public d) v (wd_objects (w_db w)) (wd_objects db')
    /\ actions db' !! cl_id claim = Some (finished STATE_SUCCEEDED None None (c 1%nat) a).
Proof.
  apply reachable_world_inv in Hw. intros c.
  apply final_deletes in Hrun as (a & kind & state & v & db1 & d1 & Ha & Hact & Hl & Hver & Hj & Hst & Hv & Hm & Hdel & Ec & Esu);
    [|apply Hw|apply Hd|done].
  apply judged_due in Hj as (row & json & config & version & v' & cx & i & rule & id & st & Hrow & Hrev & Hjson & Hconfig
    & Hrule & Hid & Eid & Ekind & Erow & Et & Hcx & Hel).
  pose proof (sc_row _ _ _ (sx_stored _ _ _ _ _ _ Hcx)) as Hv'. rewrite Et, Hv in Hv'. injection Hv' as <-.
  assert (wd_objects db' = wd_objects db1) as Eo.
  { pose proof (lifecycle_objects _ _ _ _ Esu) as ->. by apply complete_objects in Ec. }
  assert (actions d1 = actions (w_db w)) as Eacts.
  { apply (keeps_on_tickets _ (complete_keeps_buckets _ _ _ _)) in Ec as (_ & -> & _). by destruct (de_tables _ _ _ _ _ _ Hdel) as [? ->]. }
  exists a, kind, state, v, row, json, config, version, cx, i, rule, id, st. rewrite Eo.
  split_and!; try done; [apply (de_expires _ _ _ _ _ _ Hdel)|].
  apply on_update_action_ok in Esu as [[? _]|(a' & _ & Ha' & _ & ->)]; [done|]. rewrite Eacts, Ha in Ha'. injection Ha' as <-.
  apply lookup_insert_eq.
Qed.
End safety.
