(* ===== verification/ScanWorker.v ===== *)
(** * The lifecycle worker that scans ([src/lifecycle/evaluator.rs], [src/lifecycle/worker.rs])

    A worker claims the scan of a bucket, evaluates a page of its versions and uploads under the document
    it was given, queues what is due and stores the cursor, all in one transaction that is given up when the
    claim was lost.  Scanners run beside the workers that execute actions and beside everything else.  The
    pages they commit for a document, in order, are cycles of the scan, whoever committed them; in each
    cycle every version that stays was evaluated, and what was due was queued. *)

From Stdlib Require Import ZArith Lia Ascii.
From Stdlib Require String.
From stdpp Require Import base list strings pretty sorting gmap.
From S2P Require Import Prelude Errors Chrono VersionModel LifecycleModel LifecycleConfig LifecycleEval Database Transaction.
From S2P Require Import ObjectStore ResidencyStore VersionStore VersionSpec VersionReads Publication VersionSystem StoreEffects.
From S2P Require Import ImportDb Ownership LifecycleActions LifecycleQueue Revalidation LifecycleScan LifecycleStore Transitions TransitionRuns.
From S2P Require Import TransitionSystem TransitionTheorems TransitionWorker Expiration ActionWorkers.

#[local] Open Scope string_scope.
#[local] Open Scope list_scope.
#[local] Open Scope Z_scope.
#[local] Open Scope rust_scope.

(** ** Scheduling a page *)

Definition with_idempotency_key (key : string) (a : NewLifecycleAction) : NewLifecycleAction :=
  {| act_idempotency_key := key; act_bucket := act_bucket a; act_config_revision := act_config_revision a;
     act_rule_identity := act_rule_identity a; act_kind := act_kind a; act_target := act_target a; act_due_at := act_due_at a |}.

(** A transition waits until the hot copy of its version is verified. *)
Definition waits_for_hot (action : NewLifecycleAction) (candidate : LifecycleCandidate) : bool :=
  is_transition_kind (act_kind action)
  && match candidate with CandVersion version => negb (hot_residency_verified version) | CandMultipart _ => false end.

(** The facts that a candidate is evaluated with *)
Definition candidate_context (claim : ClaimedLifecycleScan) (configuration : CanonicalLifecycleConfiguration)
    (candidate : LifecycleCandidate) : WTx LifecycleEvaluationContext :=
  match candidate with
  | CandMultipart _ =>
    t_ret {| ctx_candidate := candidate; ctx_tags := []; public_version_count := 0; newer_noncurrent_count := 0;
             config_revision := scan_config_revision claim; configuration := configuration; database_now := scan_database_now claim |}
  | CandVersion c =>
    let* tags := match vt_object_id (target c) with Some id => list_object_tags id | None => t_ret [] end in
    t_reads (evaluation_context c tags (scan_config_revision claim) configuration (scan_database_now claim))
  end.

Section scheduling.
Context `{Chrono} `{ActionCodec} `{Uuid} `{CursorCodec} `{JsonColumn}.
(** [serde_json::from_str] at the configuration *)
Context (configuration_from_json : string -> option CanonicalLifecycleConfiguration).

(** One turn of the loop; [id] is what the insertion draws. *)
Definition schedule_candidate (claim : ClaimedLifecycleScan) (configuration : CanonicalLifecycleConfiguration) (id : string)
    (candidate : LifecycleCandidate) : WTx unit :=
  let* context := candidate_context claim configuration candidate in
  let* proposed := t_lift (evaluate_candidate context) in
  match proposed with
  | None => t_ret tt
  | Some action =>
    if waits_for_hot action candidate then t_ret tt
    else
      let* key := t_lift (idempotency_key action) in
      let* _ := on_lifecycle (insert_idempotent id (with_idempotency_key key action) (scan_database_now claim)) in
      t_ret tt
  end.

Fixpoint schedule_candidates (claim : ClaimedLifecycleScan) (configuration : CanonicalLifecycleConfiguration) (ids : nat -> string)
    (found : list LifecycleCandidate) : WTx unit :=
  match found with
  | [] => t_ret tt
  | candidate :: found =>
    let* _ := schedule_candidate claim configuration (ids 0%nat) candidate in
    schedule_candidates claim configuration (fun i => ids (S i)) found
  end.

Definition schedule_claimed_scan_page (ids : nat -> string) (claim : ClaimedLifecycleScan) (page_limit : Z) : WTx LifecycleCandidatePage :=
  let* configuration := t_lift (from_canonical_json configuration_from_json (scan_canonical_json claim)) in
  let* page := scan_candidate_page (scan_bucket claim) (scan_cursor claim) page_limit in
  let* _ := schedule_candidates claim configuration ids (candidates page) in
  t_ret page.

(** One transaction.  When the claim was lost nothing of the page is kept. *)
Definition schedule_and_finish_scan_page (ids : nat -> string) (claim : ClaimedLifecycleScan) (page_limit now clock : Z) : WTx bool :=
  fun db =>
    let page_and_finish :=
      let* page := schedule_claimed_scan_page ids claim page_limit in
      finish_scan_page_in_transaction claim (next_cursor page) (cycle_complete page) now clock in
    match page_and_finish db with
    | Ok (true, db') => Ok (true, db')
    | Ok (false, _) => Ok (false, db)
    | Err e => Err e
    end.
End scheduling.

(** * Properties *)

(** ** What a page queues *)

Section page.
Context `{Chrono} `{ActionCodec} `{UuidLaws} `{CursorCodec} `{JsonColumn}.

Lemma scan_page_read_only bucket cursor limit db page db' :
  constraints (wd_objects db) -> 0 <= limit -> scan_candidate_page bucket cursor limit db = Ok (page, db') -> db' = db.
Proof.
  intros Hc Hpos E. pose proof E as [[E1%Z.eqb_neq E2%Z.ltb_ge]%orb_false_iff E']%stop_ok.
  apply t_bind_ok in E' as ([] & d & [Ev _]%t_lift_ok & _). rewrite scan_page_eq in E; [|done|lia|].
  - by apply rbind_ok in E as (found & _ & [= _ <-]).
  - intros c ->. by apply validate_cursor_ok.
Qed.

(** The verdict of the evaluator on a candidate, under the document of the claim *)
Definition judged (claim : ClaimedLifecycleScan) (configuration : CanonicalLifecycleConfiguration) (db : WorkerDb)
    (candidate : LifecycleCandidate) (verdict : option NewLifecycleAction) : Prop :=
  exists context, candidate_context claim configuration candidate db = Ok (context, db) /\ evaluate_candidate context = Ok verdict.

(** What is to be queued for a candidate: what is due and does not wait *)
Definition due (claim : ClaimedLifecycleScan) (configuration : CanonicalLifecycleConfiguration) (db : WorkerDb)
    (candidate : LifecycleCandidate) (action : NewLifecycleAction) : Prop :=
  judged claim configuration db candidate (Some action) /\ waits_for_hot action candidate = false.

Lemma context_pure claim configuration candidate db :
  exists context, forall db', wd_tags db' = wd_tags db -> wd_objects db' = wd_objects db ->
    candidate_context claim configuration candidate db' = Ok (context, db').
Proof.
  destruct candidate as [c|t]; [|by eexists]. unfold candidate_context, list_object_tags, t_bind, t_reads.
  destruct (vt_object_id (target c)); simpl; eexists; intros db' Ht Ho; unfold evaluation_context; rewrite ?Ht, ?Ho; reflexivity.
Qed.

Lemma key_of_keyed key action : validate_action (with_idempotency_key key action) = validate_action action.
Proof. by destruct action. Qed.

(** The queue grows by rows of actions that are due. *)
Record queued (claim : ClaimedLifecycleScan) (is_due : NewLifecycleAction -> Prop) (db db' : WorkerDb) : Prop := {
  qd_rest : db' = set_lifecycle (wd_lifecycle db') db;
  qd_imports : ld_imports (wd_lifecycle db') = ld_imports (wd_lifecycle db);
  qd_sagas : sagas db' = sagas db;
  qd_kept id a : actions db !! id = Some a -> actions db' !! id = Some a;
  qd_new id a : actions db' !! id = Some a -> actions db !! id = None ->
    exists action validated, is_due action /\ validate_action action = Ok validated
      /\ a = new_action action validated (scan_database_now claim)
}.

(** The row that keeps an action from being queued twice *)
Definition in_queue (action : NewLifecycleAction) (db : WorkerDb) : Prop :=
  exists id a, actions db !! id = Some a /\ idempotency_key action = Ok (ac_idempotency_key (la_columns a)).

Lemma queued_refl claim is_due db : queued claim is_due db db.
Proof. split; [by destruct db|done..|naive_solver]. Qed.

Lemma queued_trans claim (d1 d2 d : NewLifecycleAction -> Prop) db1 db2 db3 :
  (forall a, d1 a -> d a) -> (forall a, d2 a -> d a) -> queued claim d1 db1 db2 -> queued claim d2 db2 db3 -> queued claim d db1 db3.
Proof.
  intros HD1 HD2 Q1 Q2. split.
  - rewrite (qd_rest _ _ _ _ Q2), (qd_rest _ _ _ _ Q1). done.
  - by rewrite (qd_imports _ _ _ _ Q2), (qd_imports _ _ _ _ Q1).
  - by rewrite (qd_sagas _ _ _ _ Q2), (qd_sagas _ _ _ _ Q1).
  - intros id a Ha. by apply (qd_kept _ _ _ _ Q2), (qd_kept _ _ _ _ Q1).
  - intros id a Ha Hnone. destruct (actions db2 !! id) as [a2|] eqn:E2.
    + apply (qd_kept _ _ _ _ Q2) in E2 as E3. assert (a2 = a) as -> by congruence.
      destruct (qd_new _ _ _ _ Q1 id a E2 Hnone) as (x & v & Hx & Hv & ->). eauto 6.
    + destruct (qd_new _ _ _ _ Q2 id a Ha E2) as (x & v & Hx & Hv & ->). eauto 6.
Qed.

Lemma new_action_key action validated now : ac_idempotency_key (la_columns (new_action action validated now)) = validated.1.1.
Proof. unfold new_action. by destruct (act_target action). Qed.
Lemma new_action_keyed key action validated now : new_action (with_idempotency_key key action) validated now = new_action action validated now.
Proof. by destruct action. Qed.

Lemma insert_in_queue id action now db b l :
  insert_idempotent id action now (wd_lifecycle db) = Ok (b, l) -> in_queue action (set_lifecycle l db).
Proof.
  unfold insert_idempotent, in_queue, idempotency_key. intros (v & s & [Hv ->]%t_lift_ok & [_ E]%stop_ok)%t_bind_ok. rewrite Hv. simpl.
  apply t_bind_ok in E as (replay & s & [-> ->]%t_reads_ok & E). case_bool_decide as Hex.
  { apply t_ret_ok in E as [_ ->]. destruct Hex as (i & a & Hi & <-). by exists i, a. }
  apply t_bind_ok in E as (taken & s & [-> ->]%t_reads_ok & [Ht E]%stop_ok).
  apply t_bind_ok in E as (u & s & [-> _]%t_exec_ok & [_ ->]%t_ret_ok).
  exists id, (new_action action v now). split; [apply lookup_insert_eq|by rewrite new_action_key].
Qed.

Lemma insert_queued claim id action db b l :
  insert_idempotent id action (scan_database_now claim) (wd_lifecycle db) = Ok (b, l) ->
  queued claim (eq action) db (set_lifecycle l db).
Proof.
  unfold insert_idempotent. intros (v & s & [Hv ->]%t_lift_ok & [_ E]%stop_ok)%t_bind_ok.
  apply t_bind_ok in E as (replay & s & [-> ->]%t_reads_ok & E). case_bool_decide.
  { apply t_ret_ok in E as [_ ->]. destruct db. apply queued_refl. }
  apply t_bind_ok in E as (taken & s & [-> ->]%t_reads_ok & [Ht E]%stop_ok).
  apply t_bind_ok in E as (u & s & [-> _]%t_exec_ok & [_ ->]%t_ret_ok).
  assert (ld_actions (wd_lifecycle db) !! id = None) as Hid by by destruct (_ !! id).
  split; try done; unfold actions; simpl.
  - intros i a Ha. rewrite lookup_insert_ne; [done|]. intros ->. congruence.
  - intros i a Ha Hnone. apply lookup_insert_Some in Ha as [[-> <-]|[_ Ha]]; [eauto|congruence].
Qed.

Lemma schedule_candidate_ok claim configuration id candidate db db' :
  schedule_candidate claim configuration id candidate db = Ok (tt, db') ->
  queued claim (due claim configuration db candidate) db db'
  /\ (exists verdict, judged claim configuration db candidate verdict)
  /\ forall action, due claim configuration db candidate action -> in_queue action db'.
Proof.
  unfold schedule_candidate, due. destruct (context_pure claim configuration candidate db) as [context Hcx].
  intros (context' & d & E1 & E)%t_bind_ok. rewrite Hcx in E1 by done. injection E1 as <- <-.
  apply t_bind_ok in E as (verdict & d & [Hv ->]%t_lift_ok & E).
  assert (forall v, judged claim configuration db candidate v <-> v = verdict) as Hj.
  { intros v. unfold judged. rewrite Hcx by done. split; [intros (c & [= <-] & Hv'); congruence|intros ->; eauto]. }
  split_and!; [|by exists verdict; apply Hj|].
  - destruct verdict as [action|]; [|apply t_ret_ok in E as [_ ->]; apply queued_refl].
    destruct (waits_for_hot action candidate) eqn:Hw; [apply t_ret_ok in E as [_ ->]; apply queued_refl|].
    apply t_bind_ok in E as (key & d & [Hk ->]%t_lift_ok & E).
    apply t_bind_ok in E as (b & d & (l & E & ->)%on_lifecycle_ok & [_ ->]%t_ret_ok).
    destruct (insert_queued _ _ _ _ _ _ E) as [Q1 Q2 Q3 Q4 Q5]. split; try done.
    intros i a Ha Hnone. destruct (Q5 i a Ha Hnone) as (x & v & <- & Hval & ->).
    exists action, v. rewrite key_of_keyed in Hval. rewrite new_action_keyed. split_and!; [by apply Hj|done..].
  - intros action [<-%Hj Hw]. rewrite Hw in E. apply t_bind_ok in E as (key & d & [Hk ->]%t_lift_ok & E).
    apply t_bind_ok in E as (b & d & (l & E & ->)%on_lifecycle_ok & [_ ->]%t_ret_ok).
    destruct (insert_in_queue _ _ _ _ _ _ E) as (i & a & Hi & Ha). exists i, a. split; [done|].
    unfold idempotency_key in *. by rewrite key_of_keyed in Ha.
Qed.

Lemma judged_kept claim configuration is_due db db' candidate verdict :
  queued claim is_due db db' -> judged claim configuration db' candidate verdict <-> judged claim configuration db candidate verdict.
Proof.
  intros Q. unfold judged. destruct (context_pure claim configuration candidate db) as [context Hcx].
  rewrite (Hcx db), (Hcx db') by (try rewrite (qd_rest _ _ _ _ Q); done). naive_solver.
Qed.

Lemma in_queue_kept claim is_due db db' action : queued claim is_due db db' -> in_queue action db -> in_queue action db'.
Proof. intros Q (i & a & Hi & Hk). exists i, a. split; [by apply (qd_kept _ _ _ _ Q)|done]. Qed.

Lemma schedule_candidates_ok claim configuration ids found db db' :
  schedule_candidates claim configuration ids found db = Ok (tt, db') ->
  queued claim (fun action => exists c, c ∈ found /\ due claim configuration db c action) db db'
  /\ forall c, c ∈ found -> (exists verdict, judged claim configuration db c verdict)
       /\ forall action, due claim configuration db c action -> in_queue action db'.
Proof.
  revert ids db. induction found as [|c found IH]; intros ids db E.
  { apply t_ret_ok in E as [_ ->]. split; [apply queued_refl|]. by intros c ?%elem_of_nil. }
  apply t_bind_ok in E as ([] & d & (Q1 & Hjudged & Hin)%schedule_candidate_ok & (Q2 & Hall)%IH).
  assert (forall x action, due claim configuration d x action <-> due claim configuration db x action) as Hdue.
  { intros x action. unfold due. by rewrite (judged_kept _ _ _ db d) by done. }
  split.
  - eapply queued_trans; [| |exact Q1|exact Q2]; [intros a Ha; exists c; split; [left|done]|].
    intros a (x & Hx & Ha%Hdue). exists x. split; [by right|done].
  - intros x [->|Hx]%elem_of_cons.
    + split; [done|]. intros action Ha. eapply in_queue_kept; [exact Q2|]. by apply Hin.
    + destruct (Hall x Hx) as [[v Hv] Hq]. split; [exists v; by apply (judged_kept _ _ _ _ _ _ _ Q1)|]. intros action Ha. by apply Hq, Hdue.
Qed.

Context (configuration_from_json : string -> option CanonicalLifecycleConfiguration).

(** What a worker that evaluated a page did *)
Record page_scheduled (claim : ClaimedLifecycleScan) (limit : Z) (page : LifecycleCandidatePage) (db db' : WorkerDb)
    (configuration : CanonicalLifecycleConfiguration) : Prop := {
  ps_document : from_canonical_json configuration_from_json (scan_canonical_json claim) = Ok configuration;
  ps_page : scan_candidate_page (scan_bucket claim) (scan_cursor claim) limit db = Ok (page, db);
  ps_queued : queued claim (fun action => exists c, c ∈ candidates page /\ due claim configuration db c action) db db';
  ps_judged c : c ∈ candidates page -> exists verdict, judged claim configuration db c verdict;
  ps_due c action : c ∈ candidates page -> due claim configuration db c action -> in_queue action db'
}.

Lemma schedule_page_ok ids claim limit db page db' :
  constraints (wd_objects db) -> 0 <= limit ->
  schedule_claimed_scan_page configuration_from_json ids claim limit db = Ok (page, db') ->
  exists configuration, page_scheduled claim limit page db db' configuration
    /\ schedule_candidates claim configuration ids (candidates page) db = Ok (tt, db').
Proof.
  intros Hc Hl. unfold schedule_claimed_scan_page. intros (configuration & d & [Hj ->]%t_lift_ok & E)%t_bind_ok.
  apply t_bind_ok in E as (page' & d & E1 & E). pose proof (scan_page_read_only _ _ _ _ _ _ Hc Hl E1) as ->.
  apply t_bind_ok in E as ([] & d & E2 & [-> ->]%t_ret_ok). exists configuration. split; [|done].
  destruct (schedule_candidates_ok _ _ _ _ _ _ E2) as [Q Hall]. split; try done; [intros c Hin; by apply Hall|].
  intros c action Hin. by apply Hall.
Qed.
End page.

(** ** Histories with scanners *)

(** A committed page: the claim it was made with, the tables it was read of and the tables it left *)
Record CommittedPage : Type := { cp_claim : ClaimedLifecycleScan; cp_step : ScanStep; cp_after : WorkerDb }.

(** The workers that execute actions, everything they share, the scans that were claimed and the pages that
    were committed so far *)
Record Gateway : Type := {
  gw_fleet : list (Work unit);
  gw_world : World;
  gw_claims : list ClaimedLifecycleScan;
  gw_pages : list CommittedPage
}.
Abbreviation gw_db g := (w_db (gw_world g)).
Abbreviation gw_configs g := (wd_configs (w_db (gw_world g))).

Definition drawn_ids (ids : nat -> string) (n : nat) : gset string := list_to_set (ids <$> seq 0 n).

Section gateway.
Context `{Chrono} `{ActionCodec} `{UuidLaws} `{OwnershipGranted} `{TransitionCodec} `{CursorCodec} `{!CursorCodecLaws} `{JsonColumn}.
Context (configuration_from_json : string -> option CanonicalLifecycleConfiguration).

(** One committed transaction, or a step of a worker.  Documents are put and deleted at any time; a scanner
    acts with a claim it was given, however long ago.  Buckets stay: the row of a bucket goes with it. *)
Inductive gateway_step (g : Gateway) : Gateway -> Prop :=
| gw_work fleet w' :
  fleet_step (gw_fleet g, gw_world g) (fleet, w') -> wd_configs (w_db w') = gw_configs g ->
  gateway_step g {| gw_fleet := fleet; gw_world := w'; gw_claims := gw_claims g; gw_pages := gw_pages g |}
| gw_write bucket json owner now revision db' :
  write_configuration bucket json owner now (gw_db g) = Ok (revision, db') ->
  gateway_step g {| gw_fleet := gw_fleet g; gw_world := with_worker_db db' (gw_world g); gw_claims := gw_claims g; gw_pages := gw_pages g |}
| gw_claim lease_for now skipped claim db' :
  claim_next_scan lease_for now skipped (gw_db g) = Ok (Some claim, db') ->
  gateway_step g {| gw_fleet := gw_fleet g; gw_world := with_worker_db db' (gw_world g); gw_claims := claim :: gw_claims g;
                    gw_pages := gw_pages g |}
| gw_scan claim ids limit now clock page mid db' :
  (claim ∈ gw_claims g) -> 0 <= limit -> (forall i, ids i ∉ w_used (gw_world g)) -> (forall i j, ids i = ids j -> i = j) ->
  schedule_claimed_scan_page configuration_from_json ids claim limit (gw_db g) = Ok (page, mid) ->
  schedule_and_finish_scan_page configuration_from_json ids claim limit now clock (gw_db g) = Ok (true, db') ->
  gateway_step g
    {| gw_fleet := gw_fleet g;
       gw_world := {| w_db := db'; w_issued := w_issued (gw_world g);
                      w_used := drawn_ids ids (length (candidates page)) ∪ w_used (gw_world g); w_rows := w_rows (gw_world g) |};
       gw_claims := gw_claims g;
       gw_pages := gw_pages g ++ [{| cp_claim := claim; cp_step := {| st_db := gw_db g; st_limit := limit; st_page := page |};
                                     cp_after := db' |}] |}.

Definition empty_gateway (imports : ImportDb) : Gateway :=
  {| gw_fleet := []; gw_world := empty_world imports; gw_claims := []; gw_pages := [] |}.

Definition reachable_gateway (g : Gateway) : Prop := exists imports, rtc gateway_step (empty_gateway imports) g.

(** *** Cycles among the committed pages *)

Definition document_pages (bucket : string) (revision : Z) (pages : list CommittedPage) : list ScanStep :=
  cp_step <$> filter (fun p => scan_bucket (cp_claim p) = bucket /\ scan_config_revision (cp_claim p) = revision) pages.

(** The pages cut behind each one that completes a cycle: the cycles, and the pages of the unfinished one *)
Definition add_page (s : list (list ScanStep) * list ScanStep) (page : ScanStep) : list (list ScanStep) * list ScanStep :=
  if cycle_complete (st_page page) then (s.1 ++ [s.2 ++ [page]], []) else (s.1, s.2 ++ [page]).
Definition cycles (pages : list ScanStep) : list (list ScanStep) * list ScanStep := fold_left add_page pages ([], []).

(** The first pages of a cycle, up to a cursor *)
Fixpoint scan_part (bucket : string) (cursor : option LifecycleScanCursor) (steps : list ScanStep) (final : option LifecycleScanCursor) : Prop :=
  match steps with
  | [] => final = cursor
  | step :: later =>
    scan_candidate_page bucket cursor (st_limit step) (st_db step) = Ok (st_page step, st_db step)
    /\ cycle_complete (st_page step) = false /\ scan_part bucket (next_cursor (st_page step)) later final
  end.

Lemma scan_part_snoc bucket cursor steps mid step :
  scan_part bucket cursor steps mid ->
  scan_candidate_page bucket mid (st_limit step) (st_db step) = Ok (st_page step, st_db step) ->
  if cycle_complete (st_page step) then scan_cycle bucket cursor (steps ++ [step])
  else scan_part bucket cursor (steps ++ [step]) (next_cursor (st_page step)).
Proof.
  revert cursor. induction steps as [|st steps IH]; intros cursor; simpl.
  - intros <- Hpage. by destruct (cycle_complete (st_page step)) eqn:E; simpl; rewrite ?E.
  - intros (H1' & Hc & Hpart) Hpage. specialize (IH _ Hpart Hpage).
    destruct (cycle_complete (st_page step)); [by rewrite Hc|done].
Qed.

Lemma cycles_snoc pages page : cycles (pages ++ [page]) = add_page (cycles pages) page.
Proof. unfold cycles. by rewrite fold_left_app. Qed.

Lemma document_pages_app bucket revision l1 l2 :
  document_pages bucket revision (l1 ++ l2) = document_pages bucket revision l1 ++ document_pages bucket revision l2.
Proof. unfold document_pages. by rewrite filter_app, fmap_app. Qed.

(** ** Scanning is part of the system of the workers *)

Lemma set_configs_step w f : world_step w (with_worker_db (set_configs f (w_db w)) w).
Proof. destruct w as [[] ? ? ?]. apply ws_others; set_solver. Qed.

Lemma schedule_candidate_shape claim configuration id candidate db db' :
  schedule_candidate claim configuration id candidate db = Ok (tt, db') ->
  db' = db \/ exists action now b l, insert_idempotent id action now (wd_lifecycle db) = Ok (b, l) /\ db' = set_lifecycle l db.
Proof.
  unfold schedule_candidate. destruct (context_pure claim configuration candidate db) as [context Hcx].
  intros (context' & d & E1 & E)%t_bind_ok. rewrite Hcx in E1 by done. injection E1 as <- <-.
  apply t_bind_ok in E as (verdict & d & [_ ->]%t_lift_ok & E).
  destruct verdict as [action|]; [|apply t_ret_ok in E as [_ ->]; by left].
  destruct (waits_for_hot action candidate); [apply t_ret_ok in E as [_ ->]; by left|].
  apply t_bind_ok in E as (key & d & [_ ->]%t_lift_ok & E).
  apply t_bind_ok in E as (b & d & (l & E & ->)%on_lifecycle_ok & [_ ->]%t_ret_ok). right. eauto 6.
Qed.

Lemma schedule_candidate_moves claim configuration id candidate w db' :
  world_inv w -> id ∉ w_used w -> schedule_candidate claim configuration id candidate (w_db w) = Ok (tt, db') ->
  rtc world_step w {| w_db := db'; w_issued := w_issued w; w_used := {[id]} ∪ w_used w; w_rows := w_rows w |}.
Proof.
  intros Hw Hid E. pose proof (schedule_candidate_ok _ _ _ _ _ _ E) as [Q _].
  destruct (schedule_candidate_shape _ _ _ _ _ _ E) as [->|(action & now & b & l & Hins & ->)].
  - apply rtc_once. destruct w as [[] ? ? ?]. apply ws_others; set_solver.
  - apply rtc_once. apply (qs_insert (queue_of w) id action now) in Hins; [|done]. apply (ws_queue w _ Hins); [apply Q|].
    eapply saga_constraints_actions, (wi_sagas w Hw); [apply Q| |simpl|done].
    + intros i [a Ha]. exists a. by apply (qd_kept _ _ _ _ Q).
    + unfold tickets. simpl. by rewrite <- (qd_imports _ _ _ _ Q).
Qed.

Lemma schedule_candidates_moves claim configuration ids found w db' :
  world_inv w -> (forall i, ids i ∉ w_used w) -> (forall i j, ids i = ids j -> i = j) ->
  schedule_candidates claim configuration ids found (w_db w) = Ok (tt, db') ->
  rtc world_step w {| w_db := db'; w_issued := w_issued w; w_used := drawn_ids ids (length found) ∪ w_used w; w_rows := w_rows w |}.
Proof.
  revert ids w. induction found as [|c found IH]; intros ids w Hw Hid Hinj E.
  { apply t_ret_ok in E as [_ ->]. unfold drawn_ids. simpl. rewrite union_empty_l_L. by destruct w. }
  apply t_bind_ok in E as ([] & d & E1 & E). apply schedule_candidate_moves in E1; [|done..]. etrans; [exact E1|].
  match type of E1 with rtc _ _ ?w1 => apply (IH (fun i => ids (S i)) w1) in E; simpl end.
  - replace (drawn_ids ids (S (length found)) ∪ w_used w) with (drawn_ids (fun i => ids (S i)) (length found) ∪ ({[ids 0%nat]} ∪ w_used w)); [done|].
    unfold drawn_ids. simpl. rewrite <- fmap_S_seq, <- list_fmap_compose. unfold compose. set_solver.
  - by eapply world_steps_inv.
  - intros i [Hi%elem_of_singleton%Hinj|Hi]%elem_of_union; [done|by apply Hid in Hi].
  - intros i j Hij%Hinj. by injection Hij.
Qed.

(** ** The invariant *)

(** Where a claim stands against the row of its bucket: its document was replaced, its lease was taken over,
    or it is the latest one, and then the page is still to be finished or it was. *)
Definition claim_stands (c : ClaimedLifecycleScan) (row : LifecycleConfigRow) : Prop :=
  scan_config_revision c < lc_revision row
  \/ (scan_config_revision c = lc_revision row
      /\ (scan_lease_epoch c < lc_scan_lease_epoch row
          \/ (scan_lease_epoch c = lc_scan_lease_epoch row
              /\ (lc_scan_lease_until row = None \/ cursor_of (scan_bucket c) row = Ok (scan_cursor c))))).

Definition committed_page (p : CommittedPage) : Prop :=
  let step := cp_step p in
  constraints (wd_objects (st_db step)) /\ 0 <= st_limit step
  /\ exists configuration mid f, page_scheduled configuration_from_json (cp_claim p) (st_limit step) (st_page step) (st_db step) mid configuration
       /\ cp_after p = set_configs f mid.

Record gateway_inv (g : Gateway) : Prop := {
  gi_world : reachable_world (gw_world g);
  gi_fleet : Forall (employed (gw_world g)) (gw_fleet g);
  gi_claims c : c ∈ gw_claims g -> exists row, gw_configs g !! scan_bucket c = Some row /\ claim_stands c row;
  gi_unique c c' : c ∈ gw_claims g -> c' ∈ gw_claims g -> scan_bucket c = scan_bucket c' ->
    scan_config_revision c = scan_config_revision c' -> scan_lease_epoch c = scan_lease_epoch c' -> c = c';
  gi_pages p : p ∈ gw_pages g -> (cp_claim p ∈ gw_claims g) /\ committed_page p;
  gi_part bucket row : gw_configs g !! bucket = Some row ->
    exists cursor, cursor_of bucket row = Ok cursor
      /\ scan_part bucket None (cycles (document_pages bucket (lc_revision row) (gw_pages g))).2 cursor;
  gi_cycles bucket revision : Forall (scan_cycle bucket None) (cycles (document_pages bucket revision (gw_pages g))).1
}.

Lemma finish_page_shape ids claim limit now clock db r db' :
  schedule_and_finish_scan_page configuration_from_json ids claim limit now clock db = Ok (r, db') ->
  (r = false /\ db' = db)
  \/ (r = true /\ exists page mid, schedule_claimed_scan_page configuration_from_json ids claim limit db = Ok (page, mid)
       /\ exists row row', scan_finished claim (next_cursor page) (cycle_complete page) now clock row row' mid db').
Proof.
  unfold schedule_and_finish_scan_page. destruct (t_bind _ _ db) as [[[] d]|e] eqn:E; intros [= <- <-]; [right|by left].
  apply t_bind_ok in E as (page & mid & Hs & Hf). split; [done|]. exists page, mid. split; [done|].
  by apply finish_scan_page_ok in Hf as [[? _]|[_ ?]].
Qed.

Lemma empty_gateway_inv imports : gateway_inv (empty_gateway imports).
Proof. split; try (simpl; set_solver). by exists imports. Qed.

Lemma inv_moves g w' :
  gateway_inv g -> rtc world_step (gw_world g) w' -> reachable_world w' /\ Forall (employed w') (gw_fleet g).
Proof.
  intros Hg Hr. destruct (gi_world g Hg) as [imports Hi]. split; [exists imports; by etrans|].
  eapply Forall_impl; [apply (gi_fleet g Hg)|]. intros m. by apply employed_steps.
Qed.

Lemma inv_constraints g : gateway_inv g -> constraints (wd_objects (gw_db g)).
Proof. intros Hg. apply constraints_of, reachable_world_inv, (gi_world g Hg). Qed.

(** A claim was given for the document of its bucket or for an older one. *)
Lemma claim_revision c row : claim_stands c row -> scan_config_revision c <= lc_revision row.
Proof. unfold claim_stands. lia. Qed.

Lemma no_pages_yet g bucket revision :
  gateway_inv g -> (forall row, gw_configs g !! bucket = Some row -> lc_revision row < revision) ->
  document_pages bucket revision (gw_pages g) = [].
Proof.
  intros Hg Hrev. apply elem_of_nil_inv. intros step (p & _ & [[Hb Hr] Hp]%list_elem_of_filter)%list_elem_of_fmap.
  destruct (gi_pages g Hg p Hp) as [Hc _].
  destruct (gi_claims g Hg _ Hc) as (row & Hrow & Hst%claim_revision). rewrite Hb in Hrow. apply Hrev in Hrow. lia.
Qed.

Lemma inv_work g fleet w' :
  gateway_inv g -> fleet_step (gw_fleet g, gw_world g) (fleet, w') -> wd_configs (w_db w') = gw_configs g ->
  gateway_inv {| gw_fleet := fleet; gw_world := w'; gw_claims := gw_claims g; gw_pages := gw_pages g |}.
Proof.
  intros Hg Hs Hconf. pose proof (reachable_world_inv _ (gi_world g Hg)) as Hw.
  destruct (fleet_step_moves _ _ _ _ Hw (gi_fleet g Hg) Hs) as [Hr Hf]. destruct (inv_moves g w' Hg Hr) as [Hreach _].
  destruct Hg. split; simpl; rewrite ?Hconf; done.
Qed.

(** A step that writes the row of one bucket *)
Lemma inv_row g bucket row claims :
  gateway_inv g ->
  (forall c, c ∈ gw_claims g -> scan_bucket c = bucket -> claim_stands c row) ->
  (forall c, c ∈ claims -> scan_bucket c = bucket /\ claim_stands c row
     /\ forall c', c' ∈ claims ++ gw_claims g -> scan_bucket c' = bucket -> scan_config_revision c' = scan_config_revision c ->
          scan_lease_epoch c' = scan_lease_epoch c -> c = c') ->
  (exists cursor, cursor_of bucket row = Ok cursor
     /\ scan_part bucket None (cycles (document_pages bucket (lc_revision row) (gw_pages g))).2 cursor) ->
  gateway_inv {| gw_fleet := gw_fleet g; gw_world := with_worker_db (set_configs <[bucket := row]> (gw_db g)) (gw_world g);
                 gw_claims := claims ++ gw_claims g; gw_pages := gw_pages g |}.
Proof.
  intros Hg Hold Hnew Hpart. destruct (inv_moves g _ Hg (rtc_once _ _ (set_configs_step (gw_world g) <[bucket := row]>))) as [Hr Hf].
  split; simpl; [done|done| | | | |apply (gi_cycles g Hg)].
  - intros c Hc. destruct (decide (scan_bucket c = bucket)) as [Hb|Hb].
    + exists row. rewrite Hb, lookup_insert_eq. split; [done|]. apply elem_of_app in Hc as [Hc|Hc]; [by apply Hnew|by apply Hold].
    + rewrite lookup_insert_ne by done. apply elem_of_app in Hc as [Hc|Hc]; [by destruct (Hnew c Hc)|by apply (gi_claims g Hg)].
  - intros c c' Hc Hc' Hb Hrev He. pose proof Hc as [Hn|Ho]%elem_of_app.
    + destruct (Hnew c Hn) as (Hb' & _ & Hu). apply Hu; [done|by rewrite <- Hb|done..].
    + pose proof Hc' as [Hn'|Ho']%elem_of_app; [|by apply (gi_unique g Hg)].
      destruct (Hnew c' Hn') as (Hb' & _ & Hu). symmetry. apply Hu; [done|by rewrite Hb|done..].
  - intros p Hp. destruct (gi_pages g Hg p Hp) as [Hc Hp']. split; [set_solver|done].
  - intros b r [[<- <-]|[_ Hr']]%lookup_insert_Some; [done|by apply (gi_part g Hg)].
Qed.

Lemma inv_write g bucket json owner now revision db' :
  gateway_inv g -> write_configuration bucket json owner now (gw_db g) = Ok (revision, db') ->
  gateway_inv {| gw_fleet := gw_fleet g; gw_world := with_worker_db db' (gw_world g); gw_claims := gw_claims g; gw_pages := gw_pages g |}.
Proof.
  intros Hg [row W]%write_configuration_ok. rewrite (wr_db _ _ _ _ _ _ _ W). destruct (wr_scan _ _ _ _ _ _ _ W) as (Hcur & _).
  assert (forall old, gw_configs g !! bucket = Some old -> lc_revision old < lc_revision row) as Hrev.
  { intros old Hold. apply (wr_next _ _ _ _ _ _ _ W) in Hold. rewrite (wr_revision _ _ _ _ _ _ _ W). lia. }
  apply (inv_row g bucket row []); [done| |by intros c ?%elem_of_nil|].
  - intros c Hc <-. destruct (gi_claims g Hg c Hc) as (old & Hold & Hst%claim_revision). apply Hrev in Hold. left. lia.
  - exists None. unfold cursor_of. rewrite Hcur. split; [done|]. by rewrite (no_pages_yet g).
Qed.

Lemma inv_claim g lease_for now skipped claim db' :
  gateway_inv g -> claim_next_scan lease_for now skipped (gw_db g) = Ok (Some claim, db') ->
  gateway_inv {| gw_fleet := gw_fleet g; gw_world := with_worker_db db' (gw_world g); gw_claims := claim :: gw_claims g;
                 gw_pages := gw_pages g |}.
Proof.
  intros Hg (row & _ & C & _)%claim_next_scan_ok. destruct C as [Hrow -> Hrev Hjson Hep Hcur _].
  assert (forall c, c ∈ gw_claims g -> scan_bucket c = scan_bucket claim -> claim_stands c row) as Hold.
  { intros c Hc Hb. destruct (gi_claims g Hg c Hc) as (r & Hr & Hst). rewrite Hb in Hr. by assert (r = row) as <- by congruence. }
  apply (inv_row g (scan_bucket claim) _ [claim]); [done| | |].
  - intros c Hc Hb. specialize (Hold c Hc Hb). unfold claim_stands in *. simpl. lia.
  - intros c ->%list_elem_of_singleton. split; [done|]. split.
    + right. split; [done|]. right. split; [done|]. right. done.
    + intros c' [->|Hc']%elem_of_cons Hb Hr He; [done|]. specialize (Hold c' Hc' Hb). unfold claim_stands in Hold. lia.
  - apply (gi_part g Hg) in Hrow as (cursor & Hc & Hpart). by exists cursor.
Qed.

Lemma document_pages_snoc bucket revision pages p :
  document_pages bucket revision (pages ++ [p])
  = if bool_decide (scan_bucket (cp_claim p) = bucket /\ scan_config_revision (cp_claim p) = revision)
    then document_pages bucket revision pages ++ [cp_step p] else document_pages bucket revision pages.
Proof.
  rewrite document_pages_app. unfold document_pages at 2. rewrite filter_cons, filter_nil.
  case_bool_decide; [by rewrite decide_True|rewrite decide_False by done; apply app_nil_r].
Qed.

(** A claim that can finish a page goes on from the stored cursor. *)
Lemma held_cursor c row clock :
  claim_stands c row -> scan_lease_held c clock row = true ->
  lc_revision row = scan_config_revision c /\ lc_scan_lease_epoch row = scan_lease_epoch c /\ is_Some (lc_scan_lease_until row)
  /\ cursor_of (scan_bucket c) row = Ok (scan_cursor c).
Proof.
  unfold claim_stands, scan_lease_held. intros Hst [[[Hr%Z.eqb_eq He%Z.eqb_eq]%andb_true_iff _]%andb_true_iff Hl]%andb_true_iff.
  destruct (lc_scan_lease_until row) as [until|]; [|done]. split_and!; [done..|eauto|].
  destruct Hst as [?|(_ & [?|(_ & [?|?])])]; [lia|lia|done|done].
Qed.

(** The cursor that a finished page stores is the one the next page starts from. *)
Lemma finished_cursor c next complete now clock row row' db db' :
  scan_finished c next complete now clock row row' db db' -> cursor_of (scan_bucket c) row' = Ok (if complete then None else next).
Proof.
  intros [_ _ _ (stored & -> & ->) Hcur]. unfold cursor_of. simpl. destruct complete; [done|]. destruct next as [cursor|]; [|done]. simpl.
  specialize (Hcur eq_refl cursor eq_refl). destruct (decode_cursor (encode_cursor cursor) (scan_bucket c)) as [x|] eqn:E; [|done].
  by apply decode_encode in E as [-> _].
Qed.

(** What a committed page did to the tables *)
Lemma scan_commit g ids claim limit now clock page mid db' :
  gateway_inv g -> 0 <= limit ->
  schedule_claimed_scan_page configuration_from_json ids claim limit (gw_db g) = Ok (page, mid) ->
  schedule_and_finish_scan_page configuration_from_json ids claim limit now clock (gw_db g) = Ok (true, db') ->
  exists configuration row row', page_scheduled configuration_from_json claim limit page (gw_db g) mid configuration
    /\ schedule_candidates claim configuration ids (candidates page) (gw_db g) = Ok (tt, mid)
    /\ wd_configs mid = gw_configs g
    /\ scan_finished claim (next_cursor page) (cycle_complete page) now clock row row' mid db'.
Proof.
  intros Hg Hl Hs Hf. destruct (schedule_page_ok _ _ _ _ _ _ _ (inv_constraints g Hg) Hl Hs) as (configuration & P & Hcands).
  apply finish_page_shape in Hf as [[? _]|(_ & page' & mid' & Hs' & row & row' & F)]; [done|].
  rewrite Hs in Hs'. injection Hs' as <- <-. exists configuration, row, row'. split_and!; [done..| |done].
  by rewrite (qd_rest _ _ _ _ (ps_queued _ _ _ _ _ _ _ P)).
Qed.

Lemma scan_moves g ids claim configuration page mid f :
  gateway_inv g -> (forall i, ids i ∉ w_used (gw_world g)) -> (forall i j, ids i = ids j -> i = j) ->
  schedule_candidates claim configuration ids (candidates page) (gw_db g) = Ok (tt, mid) ->
  rtc world_step (gw_world g)
    {| w_db := set_configs f mid; w_issued := w_issued (gw_world g);
       w_used := drawn_ids ids (length (candidates page)) ∪ w_used (gw_world g); w_rows := w_rows (gw_world g) |}.
Proof.
  intros Hg Hid Hinj E. pose proof (reachable_world_inv _ (gi_world g Hg)) as Hw.
  apply schedule_candidates_moves in E; [|done..]. eapply rtc_r; [exact E|].
  match goal with |- world_step ?w _ => exact (set_configs_step w f) end.
Qed.

Lemma part_page g claim row clock page limit :
  gateway_inv g -> claim ∈ gw_claims g -> gw_configs g !! scan_bucket claim = Some row -> scan_lease_held claim clock row = true ->
  scan_candidate_page (scan_bucket claim) (scan_cursor claim) limit (gw_db g) = Ok (page, gw_db g) ->
  let step := {| st_db := gw_db g; st_limit := limit; st_page := page |} in
  let unfinished := (cycles (document_pages (scan_bucket claim) (lc_revision row) (gw_pages g))).2 in
  if cycle_complete page then scan_cycle (scan_bucket claim) None (unfinished ++ [step])
  else scan_part (scan_bucket claim) None (unfinished ++ [step]) (next_cursor page).
Proof.
  intros Hg Hc Hrow Hheld Hpage step unfinished. destruct (gi_claims g Hg claim Hc) as (r & Hr & Hst).
  assert (r = row) as -> by congruence. destruct (held_cursor _ _ _ Hst Hheld) as (_ & _ & _ & Hcur).
  destruct (gi_part g Hg _ _ Hrow) as (cursor & Hcur' & Hpart). assert (cursor = scan_cursor claim) as -> by congruence.
  exact (scan_part_snoc _ _ _ _ step Hpart Hpage).
Qed.

Lemma inv_scan g claim ids limit now clock page mid db' :
  gateway_inv g -> claim ∈ gw_claims g -> 0 <= limit -> (forall i, ids i ∉ w_used (gw_world g)) -> (forall i j, ids i = ids j -> i = j) ->
  schedule_claimed_scan_page configuration_from_json ids claim limit (gw_db g) = Ok (page, mid) ->
  schedule_and_finish_scan_page configuration_from_json ids claim limit now clock (gw_db g) = Ok (true, db') ->
  gateway_inv
    {| gw_fleet := gw_fleet g;
       gw_world := {| w_db := db'; w_issued := w_issued (gw_world g);
                      w_used := drawn_ids ids (length (candidates page)) ∪ w_used (gw_world g); w_rows := w_rows (gw_world g) |};
       gw_claims := gw_claims g;
       gw_pages := gw_pages g ++ [{| cp_claim := claim; cp_step := {| st_db := gw_db g; st_limit := limit; st_page := page |};
                                     cp_after := db' |}] |}.
Proof.
  intros Hg Hc Hl Hid Hinj Hs Hf. destruct (scan_commit _ _ _ _ _ _ _ _ _ Hg Hl Hs Hf) as (conf & row & row' & P & Hcands & Hconf & F).
  pose proof (finished_cursor _ _ _ _ _ _ _ _ _ F) as Hcur'. destruct F as [Hrow Hheld -> (stored & Erow & _) _]. rewrite Hconf in Hrow.
  pose proof (part_page g claim row clock page limit Hg Hc Hrow Hheld (ps_page _ _ _ _ _ _ _ P)) as Hpart. simpl in Hpart.
  assert (lc_revision row' = lc_revision row) as Erev by by rewrite Erow.
  destruct (gi_claims g Hg claim Hc) as (r & Hr & Hst). assert (r = row) as -> by congruence.
  destruct (held_cursor _ _ _ Hst Hheld) as (Hrev & _).
  destruct (inv_moves g _ Hg (scan_moves g ids claim conf page mid <[scan_bucket claim := row']> Hg Hid Hinj Hcands)) as [Hreach Hfleet].
  split; simpl; [done|done| |apply (gi_unique g Hg)| | |].
  - intros c Hin. destruct (gi_claims g Hg c Hin) as (rc & Hrc & Hstc). rewrite Hconf. destruct (decide (scan_bucket c = scan_bucket claim)) as [Hb|Hb].
    + exists row'. rewrite Hb, lookup_insert_eq. split; [done|]. rewrite Hb in Hrc. assert (rc = row) as -> by congruence.
      subst row'. unfold claim_stands in *. simpl. naive_solver.
    + exists rc. by rewrite lookup_insert_ne.
  - intros p [Hp| ->%list_elem_of_singleton]%elem_of_app; [by apply (gi_pages g Hg)|]. split; [done|].
    split; [by apply inv_constraints|]. split; [done|]. simpl. eauto.
  - rewrite Hconf. intros b r. rewrite document_pages_snoc. intros [[<- <-]|[Hb Hr']]%lookup_insert_Some; simpl.
    + rewrite bool_decide_eq_true_2 by (split; [done|congruence]). eexists. split; [exact Hcur'|].
      rewrite cycles_snoc, Erev. unfold add_page. simpl. by destruct (cycle_complete page).
    + rewrite bool_decide_eq_false_2 by naive_solver. by apply (gi_part g Hg).
  - intros b rev. rewrite document_pages_snoc. simpl. case_bool_decide as Hd; [|apply (gi_cycles g Hg)]. destruct Hd as [<- <-].
    rewrite cycles_snoc. unfold add_page. simpl. rewrite <- Hrev. pose proof (gi_cycles g Hg (scan_bucket claim) (lc_revision row)) as Hcs.
    destruct (cycle_complete page); [|done]. apply Forall_app. split; [done|by constructor].
Qed.

Lemma gateway_step_inv g g' : gateway_inv g -> gateway_step g g' -> gateway_inv g'.
Proof. intros Hg Hs. destruct Hs; [by apply inv_work|by eapply inv_write|by eapply inv_claim|by eapply inv_scan]. Qed.

Lemma gateway_steps_inv g g' : gateway_inv g -> rtc gateway_step g g' -> gateway_inv g'.
Proof. intros Hg Hr. induction Hr as [|x y z Hs _ IH]; [done|]. by apply IH, (gateway_step_inv x). Qed.

Lemma reachable_gateway_inv g : reachable_gateway g -> gateway_inv g.
Proof. intros [imports Hr]. by apply (gateway_steps_inv (empty_gateway imports)); [apply empty_gateway_inv|]. Qed.

(** ** Leases over time *)

(** The claim is the latest one, on the latest document, and its page is still to be finished. *)
Definition scan_holds (c : ClaimedLifecycleScan) (g : Gateway) : Prop :=
  exists row, gw_configs g !! scan_bucket c = Some row /\ lc_revision row = scan_config_revision c
    /\ lc_scan_lease_epoch row = scan_lease_epoch c /\ is_Some (lc_scan_lease_until row).

(** How the row of a bucket changes *)
Definition later_row (row row' : LifecycleConfigRow) : Prop :=
  lc_revision row < lc_revision row'
  \/ (lc_revision row = lc_revision row'
      /\ (lc_scan_lease_epoch row < lc_scan_lease_epoch row'
          \/ (lc_scan_lease_epoch row = lc_scan_lease_epoch row'
              /\ (lc_scan_lease_until row' = None \/ lc_scan_lease_until row' = lc_scan_lease_until row)))).

Lemma later_row_refl row : later_row row row.
Proof. unfold later_row. naive_solver. Qed.

Lemma later_insert bucket (row' : LifecycleConfigRow) (configs : gmap string LifecycleConfigRow) b row :
  (configs !! bucket = Some row -> later_row row row') -> configs !! b = Some row ->
  exists row'', <[bucket := row']> configs !! b = Some row'' /\ later_row row row''.
Proof.
  intros Hl Hb. destruct (decide (bucket = b)) as [->|Hne]; [exists row'; rewrite lookup_insert_eq; auto|].
  exists row. rewrite lookup_insert_ne by done. split; [done|apply later_row_refl].
Qed.

Lemma step_later g g' bucket row :
  gateway_inv g -> gateway_step g g' -> gw_configs g !! bucket = Some row ->
  exists row', gw_configs g' !! bucket = Some row' /\ later_row row row'.
Proof.
  intros Hg Hs Hrow. destruct Hs as [fleet w' _ Hconf|b json owner now rev db' [r W]%write_configuration_ok|lease now skipped c db' (r & _ & C & _)%claim_next_scan_ok
    |c ids limit now clock page mid db' Hc Hl Hid Hinj Hs Hf]; simpl.
  - exists row. rewrite Hconf. split; [done|apply later_row_refl].
  - rewrite (wr_db _ _ _ _ _ _ _ W). apply later_insert; [|done]. intros Hb%(wr_next _ _ _ _ _ _ _ W). left.
    rewrite (wr_revision _ _ _ _ _ _ _ W). lia.
  - rewrite (cs_db _ _ _ _ C). apply later_insert; [|done]. rewrite (cs_row _ _ _ _ C). intros [= <-]. right. split; [done|]. left.
    simpl. rewrite (cs_epoch _ _ _ _ C). lia.
  - destruct (scan_commit _ _ _ _ _ _ _ _ _ Hg Hl Hs Hf) as (conf & r & r' & _ & _ & Hconf & [Hr _ -> (stored & -> & _) _]). simpl. rewrite Hconf in *.
    apply later_insert; [|done]. rewrite Hr. intros [= <-]. right. split; [done|]. right. split; [done|]. by left.
Qed.

Lemma lost_step g g' c :
  gateway_inv g -> c ∈ gw_claims g -> ~ scan_holds c g -> gateway_step g g' -> (c ∈ gw_claims g') /\ ~ scan_holds c g'.
Proof.
  intros Hg Hc Hlost Hs. split; [destruct Hs; simpl; set_solver|]. intros (row' & Hrow' & Hr & He & Hl).
  destruct (gi_claims g Hg c Hc) as (row & Hrow & Hst). destruct (step_later g g' _ _ Hg Hs Hrow) as (r & Hr' & Hlater).
  assert (r = row') as -> by congruence. unfold claim_stands in Hst. unfold later_row in Hlater.
  assert (lc_revision row = scan_config_revision c /\ lc_scan_lease_epoch row = scan_lease_epoch c) as [Er Ee] by lia.
  destruct Hlater as [?|(_ & [?|(_ & [El|El])])]; [lia|lia|rewrite El in Hl; by destruct Hl|]. apply Hlost. exists row. by rewrite <- El.
Qed.

Lemma lost_steps g g' c :
  gateway_inv g -> c ∈ gw_claims g -> ~ scan_holds c g -> rtc gateway_step g g' -> ~ scan_holds c g'.
Proof.
  intros Hg Hc Hl Hr. induction Hr as [|x y z Hs _ IH]; [done|]. destruct (lost_step x y c Hg Hc Hl Hs) as [Hc' Hl'].
  apply IH; [by eapply gateway_step_inv|done..].
Qed.

(** C11: A scanner that lost its lease changes nothing any more.  Many workers scan, execute actions and
    serve requests at once, in any interleaving, and as long as the bucket stays: once the document of the
    bucket was replaced or deleted, another worker claimed the scan, or the page was finished, the claim is
    lost for good, and every page that is scheduled with it from then on is refused and rolled back as a
    whole, however long the worker took.  At any time at most one claim of a bucket is not lost, and it is
    the only one that can commit a page. *)
Theorem lost_scan_harmless (g g' : Gateway) (claim : ClaimedLifecycleScan) (Hg : reachable_gateway g)
    (Hc : claim ∈ gw_claims g) (Hlost : ~ scan_holds claim g) (Hlater : rtc gateway_step g g') :
  (forall ids limit now clock r db', 0 <= limit ->
     schedule_and_finish_scan_page configuration_from_json ids claim limit now clock (gw_db g') = Ok (r, db') ->
     r = false /\ db' = gw_db g')
  /\ (forall c c', c ∈ gw_claims g' -> c' ∈ gw_claims g' -> scan_bucket c = scan_bucket c' ->
        scan_holds c g' -> scan_holds c' g' -> c = c').
Proof.
  apply reachable_gateway_inv in Hg. pose proof (gateway_steps_inv g g' Hg Hlater) as Hg'.
  pose proof (lost_steps g g' claim Hg Hc Hlost Hlater) as Hl'. split.
  - intros ids limit now clock r db' Hl E. pose proof E as [?|(-> & page & mid & Hs & _)]%finish_page_shape; [done|]. destruct Hl'.
    destruct (scan_commit _ _ _ _ _ _ _ _ _ Hg' Hl Hs E) as (conf & row & row' & _ & _ & Hconf & [Hrow Hheld _ _ _]). rewrite Hconf in Hrow.
    unfold scan_lease_held in Hheld. apply andb_true_iff in Hheld as [[[Hr%Z.eqb_eq He%Z.eqb_eq]%andb_true_iff _]%andb_true_iff Hu].
    exists row. split_and!; [done..|]. by destruct (lc_scan_lease_until row).
  - intros c c' H1' H2' Hb (row & Hrow & Hr & He & _) (row' & Hrow' & Hr' & He' & _).
    assert (row' = row) as -> by congruence. apply (gi_unique g' Hg'); congruence.
Qed.

(** ** What committed cycles did *)

(** The candidate was evaluated with a page of the document, and what was due was queued with it. *)
Definition evaluated_with (bucket : string) (revision : Z) (p : CommittedPage) (c : LifecycleCandidate) : Prop :=
  scan_bucket (cp_claim p) = bucket /\ scan_config_revision (cp_claim p) = revision
  /\ (c ∈ candidates (st_page (cp_step p)))
  /\ exists configuration,
       from_canonical_json configuration_from_json (scan_canonical_json (cp_claim p)) = Ok configuration
       /\ (exists verdict, judged (cp_claim p) configuration (st_db (cp_step p)) c verdict)
       /\ forall action, due (cp_claim p) configuration (st_db (cp_step p)) c action -> in_queue action (cp_after p).

Lemma elem_of_add_pages pages s cycle step :
  cycle ∈ (fold_left add_page pages s).1 -> step ∈ cycle -> (exists c, c ∈ s.1 /\ step ∈ c) \/ step ∈ s.2 \/ step ∈ pages.
Proof.
  revert s. induction pages as [|p pages IH]; intros s Hc Hs; simpl in Hc; [eauto|].
  assert (forall l, step ∈ l ++ [p] -> step ∈ l \/ step ∈ p :: pages) as Hsnoc.
  { intros l [?| ->%list_elem_of_singleton]%elem_of_app; [by left|right; left]. }
  destruct (IH _ Hc Hs) as [(c & Hin & Hst)|[Hst|Hst]]; [| |right; right; by right]; unfold add_page in *;
    destruct (cycle_complete (st_page p)); cbn [fst snd] in *; [|by left; eauto|by apply elem_of_nil in Hst|by right; apply Hsnoc].
  apply elem_of_app in Hin as [Hin| ->%list_elem_of_singleton]; [by left; eauto|by right; apply Hsnoc].
Qed.

Lemma elem_of_cycles pages cycle step : cycle ∈ (cycles pages).1 -> step ∈ cycle -> step ∈ pages.
Proof. intros Hc Hs. by destruct (elem_of_add_pages _ _ _ _ Hc Hs) as [(c & Hin%elem_of_nil & _)|[Hin%elem_of_nil|?]]. Qed.

Lemma cycle_evaluated g bucket revision cycle c :
  gateway_inv g -> cycle ∈ (cycles (document_pages bucket revision (gw_pages g))).1 -> c ∈ visited cycle ->
  exists p, p ∈ gw_pages g /\ (cp_step p ∈ cycle) /\ evaluated_with bucket revision p c.
Proof.
  intros Hg Hcycle (l & Hl%list_elem_of_In & Hc%list_elem_of_In)%list_elem_of_In%in_concat.
  apply list_elem_of_fmap in Hl as (step & -> & Hstep).
  pose proof (elem_of_cycles _ _ _ Hcycle Hstep) as (p & -> & [[Hb Hr] Hp]%list_elem_of_filter)%list_elem_of_fmap.
  exists p. split; [done|]. split; [done|]. split; [done|]. split; [done|]. split; [done|].
  destruct (gi_pages g Hg p Hp) as (_ & _ & _ & conf & mid & f & P & ->). exists conf. split; [apply P|].
  split; [by apply (ps_judged _ _ _ _ _ _ _ P)|]. intros action Hdue. exact (ps_due _ _ _ _ _ _ _ P c action Hc Hdue).
Qed.

(** C10: Scanning a document leaves nothing out.  Many workers scan, execute actions and serve requests at
    once, no bucket is deleted, and each page may be committed by another worker.  The pages that were committed for a document
    of a bucket, in the order of their commits and cut behind each page that completes a cycle, are cycles of
    the scan from its start, each page from where the one before stopped.  Over each of these cycles every
    version that stayed in its place was evaluated under that document in one transaction in which the
    action that was due, unless it waits for the verification of its hot copy, was put in the queue; so was
    every upload that stayed; and no row was evaluated twice. *)
Theorem committed_cycles_cover (g : Gateway) (bucket : string) (revision : Z) (cycle : list ScanStep) (Hg : reachable_gateway g)
    (Hcycle : cycle ∈ (cycles (document_pages bucket revision (gw_pages g))).1) :
  scan_cycle bucket None cycle
  /\ NoDup (candidate_rank <$> visited cycle)
  /\ (forall v, (forall step, step ∈ cycle -> version_stays bucket v (st_db step)) ->
        exists p c, p ∈ gw_pages g /\ (cp_step p ∈ cycle) /\ vt_version_row_id (target c) = v_id v
          /\ evaluated_with bucket revision p (CandVersion c))
  /\ (forall id u, mu_bucket u = bucket -> (forall step, step ∈ cycle -> up_uploads (wd_uploads (st_db step)) !! id = Some u) ->
        exists p t, p ∈ gw_pages g /\ (cp_step p ∈ cycle) /\ mt_upload_id t = id
          /\ evaluated_with bucket revision p (CandMultipart t)).
Proof.
  apply reachable_gateway_inv in Hg. pose proof (gi_cycles g Hg bucket revision) as Hcs. rewrite Forall_forall in Hcs.
  assert (Forall (fun step => constraints (wd_objects (st_db step)) /\ 0 <= st_limit step) cycle) as Hall.
  { apply Forall_forall. intros step Hstep. apply (elem_of_cycles _ _ _ Hcycle) in Hstep as (p & -> & [_ Hp]%list_elem_of_filter)%list_elem_of_fmap.
    destruct (gi_pages g Hg p Hp) as (_ & ? & ? & _). done. }
  destruct (scan_cycle_sees bucket cycle Hall (Hcs _ Hcycle)) as (Hnd & Hv & Hu). split; [by apply Hcs|]. split; [done|]. split.
  - intros v Hstays. destruct (Hv v Hstays) as (c & Hc & Hid). destruct (cycle_evaluated g _ _ _ _ Hg Hcycle Hc) as (p & Hp & Hstep & He). eauto 6.
  - intros id u Hb Hstays. destruct (Hu id u Hb Hstays) as (t & Ht & Hid). destruct (cycle_evaluated g _ _ _ _ Hg Hcycle Ht) as (p & Hp & Hstep & He). eauto 6.
Qed.
End gateway.
