(* ===== verification/Examples.v ===== *)
(** * Sample runs

    A concrete identifier format, ownership tables that grant every request, and small databases on
    which the operations of the version store, the publication transactions and the listings are
    evaluated. *)

From Stdlib Require Import ZArith Lia Ascii.
From stdpp Require Import prelude strings list gmap.
From S2P Require Import Prelude Errors VersionModel Database ObjectStore ResidencyStore VersionStore VersionSpec VersionReads Publication VersionSystem StorageClasses Listing Transaction ZipEntries ZipBatch ZipSystem.
Local Open Scope Z_scope.

(** ** Instances *)

(** Identifiers are the texts that start with [u]. *)
#[local] Instance sample_uuid : Uuid := fun s => if starts_with "u" s then Some s else None.
#[local] Instance sample_uuid_laws : UuidLaws.
Proof.
  split; [|done]. unfold uuid_canonical, sample_uuid. intros s c Hs.
  destruct (starts_with "u" s) eqn:E; [|done]. injection Hs as <-. by rewrite E.
Qed.

#[local] Instance sample_ownership : Ownership := {|
  verify_standard_mutation_guard _ _ := tx_ret tt;
  complete_standard_mutation _ := tx_ret tt;
  lock_publication_lifecycle_frontier _ := tx_ret tt;
  end_active_leases_for_object _ _ := tx_ret tt;
  clear_object_tags _ := tx_ret tt
|}.
#[local] Instance sample_granted : OwnershipGranted.
Proof. by constructor. Qed.

(** ** Databases *)

Definition sample_bucket (status : option string) : BucketRow :=
  {| b_name := "b"; b_created_at := 0; b_owner := None; b_versioning_status := status |}.

Definition sample_latest (id key : string) : LatestObjectRow :=
  {| lo_id := id; lo_bucket := "b"; lo_key := key; lo_cid := "cid" +:+ id; lo_size := 3;
     lo_content_type := None; lo_etag := "e"; lo_metadata := None; lo_encrypted := false;
     lo_key_wrap := None; lo_sse_c_key_fingerprint := None; lo_multipart := false; lo_created_at := 1 |}.

Definition run {A} (c : Tx A) (db : Db) : Db := match c db with Ok (_, db') => db' | Err _ => db end.

(** A bucket with versioning enabled. *)
Definition db_empty : Db := Eval vm_compute in run (bucket_create 0 "b" None) empty_db.
Definition db_enabled : Db := Eval vm_compute in run (set_versioning_state "b" Enabled) db_empty.
(** One version of key [k], then a second. *)
Definition db_one : Db := Eval vm_compute in run (publish "u1" "r1" 5 5 (sample_latest "o1" "k")) db_enabled.
Definition db_two : Db := Eval vm_compute in run (publish "u2" "r2" 6 6 (sample_latest "o2" "k")) db_one.

Lemma fresh_sample public_uuid row_uuid b k db :
  uuid_canonical public_uuid = Some public_uuid -> nonempty row_uuid ->
  forallb (fun v => negb (String.eqb (v_id v) row_uuid) &&
                    negb (bool_decide (v_version_id v = Some public_uuid))) (versions db) = true ->
  fits_i64 (next_sequence b k db) = true -> Fresh public_uuid row_uuid b k db.
Proof.
  intros Hp Hr Hu Hs. constructor; [done..| |done]. intros v Hv%list_elem_of_In.
  rewrite forallb_forall in Hu. specialize (Hu v Hv). guard_inv.
  split; [by apply String.eqb_neq|done].
Qed.

Lemma objects_fresh_sample id db :
  forallb (fun o => negb (String.eqb (o_id o) id)) (objects db) = true ->
  forall o, o ∈ objects db -> o_id o <> id.
Proof.
  intros Hf o Ho%list_elem_of_In. rewrite forallb_forall in Hf. specialize (Hf o Ho). guard_inv. by apply String.eqb_neq.
Qed.

(** Every sample database is reached by steps that succeed. *)
Lemma step_empty : step empty_db db_empty.
Proof. apply (step_create_bucket _ 0 "b" None). by vm_compute. Qed.

Lemma step_enabled : step db_empty db_enabled.
Proof. apply (step_set_versioning _ "b" Enabled). by vm_compute. Qed.

Lemma fresh_one : Fresh "u1" "r1" "b" "k" db_enabled.
Proof. apply fresh_sample; by vm_compute. Qed.

Lemma fresh_two : Fresh "u2" "r2" "b" "k" db_one.
Proof. apply fresh_sample; by vm_compute. Qed.

Lemma fresh_three : Fresh "u3" "r3" "b" "k" db_two.
Proof. apply fresh_sample; by vm_compute. Qed.

Definition sample_result (id uuid : string) : PublicationResult :=
  {| pr_object_id := id; pr_version_id := Some uuid |}.

Lemma step_one : step db_enabled db_one.
Proof.
  apply (step_publish _ "u1" "r1" 5 5 (sample_latest "o1" "k") (sample_result "o1" "u1")); [apply fresh_one|..].
  - apply objects_fresh_sample. by vm_compute.
  - done.
  - done.
  - by vm_compute.
Qed.

Lemma step_two : step db_one db_two.
Proof.
  apply (step_publish _ "u2" "r2" 6 6 (sample_latest "o2" "k") (sample_result "o2" "u2")); [apply fresh_two|..].
  - apply objects_fresh_sample. by vm_compute.
  - done.
  - done.
  - by vm_compute.
Qed.

Lemma safe_two : Safe db_two.
Proof.
  apply (step_safe db_one), step_two. apply (step_safe db_enabled), step_one.
  apply (step_safe db_empty), step_enabled. apply (step_safe empty_db), step_empty. apply empty_safe.
Qed.

Lemma bucket_two : "b"%string ∈ map b_name (buckets db_two).
Proof. vm_compute. left. Qed.

Lemma installable_two : Installable db_two "b" "k" "u3" "r3" None.
Proof. apply fresh_installable; [apply safe_two|apply fresh_three|apply bucket_two]. Qed.

(** ** Properties on the samples *)

Lemma reachable_safe_witness : reachable db_two /\ Inv db_two /\ null_only db_two.
Proof.
  assert (Hr : reachable db_two).
  { eapply reachable_step; [|exact step_two]. eapply reachable_step; [|exact step_one].
    eapply reachable_step; [|exact step_enabled]. eapply reachable_step; [|exact step_empty]. constructor. }
  split; [exact Hr|]. exact (reachable_safe db_two Hr).
Defined.

Definition sample_row : VersionRow := default (new_row db_two Enabled "b" "k" 0 "u" "r" None) (head (versions db_two)).

Lemma remove_and_promote_refines_witness :
  exists promoted db', remove_and_promote 9 sample_row db_two = Ok (promoted, db') /\ Inv db' /\
    history "b" "k" db' = hist_remove (Some "u1"%string) (history "b" "k" db_two).
Proof.
  destruct (remove_and_promote_refines db_two 9 sample_row) as (promoted & db' & Hrun & Hinv & Hh & _).
  - apply safe_two.
  - vm_compute. left.
  - exists promoted, db'. split; [exact Hrun|]. split; [exact Hinv|]. exact Hh.
Defined.

Definition sample_object : ObjectRow := object_row (sample_latest "o3" "k") false.
Definition db_object : Db := Eval vm_compute in with_object db_two (sample_latest "o3" "k").

Lemma install_content_refines_witness :
  exists db', install_content_version "u3" "r3" 7 Enabled sample_object 7 db_object = Ok ("u3"%string, db') /\
    Inv db' /\ history "b" "k" db' = (Some "u3"%string, Some "o3"%string) :: history "b" "k" db_object.
Proof.
  destruct (install_content_refines db_object Enabled sample_object 7 7 "u3" "r3") as (db' & Hrun & Hinv & Hh & _).
  - apply (with_object_installable db_two (sample_latest "o3" "k")); [exact installable_two|].
    apply objects_fresh_sample. by vm_compute.
  - vm_compute. right. right. left.
  - done.
  - done.
  - exists db'. split; [exact Hrun|]. split; [exact Hinv|]. exact Hh.
Defined.

Lemma install_delete_marker_refines_witness :
  exists db', install_delete_marker "u3" "r3" 7 Enabled "b" "k" 7 db_two = Ok ("u3"%string, db') /\
    Inv db' /\ history "b" "k" db' = (Some "u3"%string, None) :: history "b" "k" db_two.
Proof.
  destruct (install_delete_marker_refines db_two Enabled "b" "k" 7 7 "u3" "r3") as (db' & Hrun & Hinv & Hh & _).
  - exact installable_two.
  - exists db'. split; [exact Hrun|]. split; [exact Hinv|]. exact Hh.
Defined.

Lemma resolve_version_spec_witness :
  (exists rv, resolve_version "b" "k" Current db_two = Ok (rv, db_two) /\ rv_public_version_id rv = "u2"%string) /\
  resolve_version "b" "k" (Exact (Opaque "u9")) db_two = Err (NoSuchVersion "b" "k" "u9").
Proof.
  pose proof (resolve_version_spec db_two "b" "k" Current Enabled (proj1 safe_two)) as H1.
  pose proof (resolve_version_spec db_two "b" "k" (Exact (Opaque "u9")) Enabled (proj1 safe_two)) as H2.
  split.
  - destruct H1 as (rv & Hrv & [Hid _] & _); [by vm_compute|done|]. exists rv. split; [exact Hrv|]. by rewrite Hid.
  - apply H2; [by vm_compute|by vm_compute].
Defined.

Lemma delete_version_attempt_refines_witness :
  exists db', delete_version_attempt "u3" "r3" 8 "b" "k" Current 8 db_two =
    Ok (delete_result (Some "u3"%string) false true, db') /\ Inv db' /\
    history "b" "k" db' = (Some "u3"%string, None) :: history "b" "k" db_two.
Proof.
  destruct (delete_version_attempt_refines "u3" "r3" 8 "b" "k" Current 8 db_two Enabled) as (db' & Hrun & Hinv & Hh & _).
  - apply safe_two.
  - apply safe_two.
  - by vm_compute.
  - done.
  - exact installable_two.
  - exists db'. split; [exact Hrun|]. split; [exact Hinv|]. exact Hh.
Defined.

Lemma write_object_version_refines_witness :
  exists db', write_object_version_and_update_lifecycle "u3" "r3" 8 (sample_latest "o3" "k") Enabled 8 db_two =
    Ok ({| pr_object_id := "o3"; pr_version_id := Some "u3"%string |}, db') /\ Inv db'.
Proof.
  destruct (write_object_version_refines db_two (sample_latest "o3" "k") Enabled 8 8 "u3" "r3") as (db' & Hrun & Hinv & _).
  - exact installable_two.
  - apply objects_fresh_sample. by vm_compute.
  - done.
  - done.
  - by vm_compute.
  - exists db'. split; [exact Hrun|exact Hinv].
Defined.

(** ** Listings *)

(** [LIKE 'prefix%'] for a prefix without percent signs: an underscore matches any character. *)
Fixpoint sample_like (prefix key : string) : bool :=
  match prefix, key with
  | EmptyString, _ => true
  | String a prefix, String c key => (Ascii.eqb a "_" || Ascii.eqb a c) && sample_like prefix key
  | String _ _, EmptyString => false
  end.

Definition db_listing : Db := Eval vm_compute in run (publish "u3" "r3" 7 7 (sample_latest "o3" "dir/x")) db_two.
Definition sample_request : ListingRequest :=
  {| lr_bucket := "b"; lr_prefix := ""; lr_delimiter := Some "/"%string; lr_cursor := None; lr_max_keys := 1 |}.

Lemma constraints_listing : constraints db_listing.
Proof. apply (bool_decide_unpack _). by vm_compute. Qed.

Lemma keys_listing o : o ∈ objects db_listing -> nonempty (o_key o).
Proof.
  intros Ho. assert (Hf : forallb (fun o => negb (str_is_empty (o_key o))) (objects db_listing) = true) by by vm_compute.
  rewrite forallb_forall in Hf. apply list_elem_of_In in Ho. specialize (Hf o Ho). by destruct (o_key o).
Qed.

Lemma build_listing_page_spec_witness :
  exists page, build_listing_page sample_like 5 sample_request db_listing = Ok page /\
    Z.of_nat (length (lp_entries page)) <= 1.
Proof.
  destruct (build_listing_page_spec sample_like 5 sample_request db_listing) as (page & shown & rest & Hrun & _ & _ & Hle & _).
  - exact constraints_listing.
  - exact keys_listing.
  - by vm_compute.
  - by vm_compute.
  - by vm_compute; lia.
  - exists page. split; [exact Hrun|exact Hle].
Defined.

Lemma list_all_complete_witness :
  list_all sample_like 5 5 sample_request db_listing =
  Ok (request_entries sample_request (request_rows sample_like db_listing sample_request)).
Proof.
  apply (list_all_complete sample_like 5 5 sample_request db_listing).
  - exact constraints_listing.
  - exact keys_listing.
  - by vm_compute.
  - by vm_compute.
  - vm_compute. lia.
  - vm_compute. lia.
Defined.

Definition sample_input : ListObjectsV2Input :=
  {| in_bucket := "b"; in_prefix := None; in_delimiter := Some "/"%string; in_url_encoding := false;
     in_start_after := None; in_continuation_token := None; in_max_keys := Some 1 |}.

Definition no_receipt (receipt : string) : option (string * string) := None.
Definition any_cid (cid : string) : option string := Some cid.

Lemma list_objects_v2_response_witness :
  match list_objects_v2 sample_like no_receipt any_cid 5 sample_input db_listing with
  | Ok out => 0 <= out_key_count out <= out_max_keys out
  | Err _ => True
  end.
Proof.
  pose proof (list_objects_v2_response sample_like no_receipt any_cid 5 sample_input db_listing
    constraints_listing keys_listing) as Hout.
  destruct (list_objects_v2 _ _ _ _ _ _) as [out|f]; [|exact I].
  destruct Hout as (shown & rest & _ & _ & _ & _ & Hrange & _).
  - by vm_compute.
  - vm_compute. lia.
  - exact Hrange.
Defined.

Lemma object_list_prefix_wildcard_witness :
  object_list sample_like "b" (Some "a_"%string) None 10
    (set_objects [o_set_latest true (object_row (sample_latest "o1" "ab") true)] db_two) =
    [listing_object (object_row (sample_latest "o1" "ab") true)] /\
  starts_with "a_" "ab" = false.
Proof.
  apply (object_list_prefix_wildcard sample_like
    (set_objects [o_set_latest true (object_row (sample_latest "o1" "ab") true)] db_two) "b"
    (o_set_latest true (object_row (sample_latest "o1" "ab") true))).
  - intros p c t. induction p as [|a p IH]; [done|]. cbn [String.append sample_like].
    by rewrite IH, Ascii.eqb_refl, orb_true_r.
  - reflexivity.
  - reflexivity.
  - reflexivity.
  - reflexivity.
Defined.

Definition sample_classes : gmap string StorageClass :=
  match classes_in_snapshot no_receipt any_cid (map object_identity (objects db_two)) db_two with
  | Ok classes => classes
  | Err _ => ∅
  end.

Lemma classes_in_snapshot_sound_witness :
  (exists o, o ∈ map object_identity (objects db_two) /\ oi_id o = "o1"%string) /\
  is_Some (sample_classes !! "o1"%string).
Proof.
  destruct (classes_in_snapshot_sound no_receipt any_cid (map object_identity (objects db_two)) db_two sample_classes)
    as [Hdom _].
  - by vm_compute.
  - assert (Ho : exists o, o ∈ map object_identity (objects db_two) /\ oi_id o = "o1"%string).
    { eexists. split; [vm_compute; left|done]. }
    split; [exact Ho|]. by apply Hdom.
Defined.

(** ** Reads, markers and verification *)

Definition db_marker : Db := Eval vm_compute in run (delete_version_attempt "u1" "r1" 5 "b" "k" Current 5) db_enabled.
Definition marker_row : VersionRow :=
  Eval vm_compute in default (new_row db_two Enabled "b" "k" 0 "u" "r" None) (head (versions db_marker)).

Lemma safe_marker : Safe db_marker.
Proof.
  apply (step_safe db_enabled).
  - apply (step_safe db_empty), step_enabled. apply (step_safe empty_db), step_empty. apply empty_safe.
  - apply (step_delete _ "u1" "r1" 5 5 "b" "k" Current (delete_result (Some "u1"%string) false true)); [apply fresh_one|done|].
    by vm_compute.
Qed.

Lemma delete_current_sole_marker_safe_witness :
  history "b" "k" db_marker = [(Some "u1"%string, None)] /\
  exists r db', delete_current_sole_marker marker_row db_marker = Ok (MarkerDeleted r, db') /\
    history "b" "k" db' = [] /\ Inv db'.
Proof.
  split; [by vm_compute|].
  destruct (delete_current_sole_marker_safe db_marker marker_row) as (r & db' & Hrun & Hr).
  - apply safe_marker.
  - right. by split.
  - assert (Hk : is_ok (delete_current_sole_marker marker_row db_marker) &&
      match delete_current_sole_marker marker_row db_marker with Ok (MarkerDeleted _, _) => true | _ => false end = true)
      by by vm_compute.
    rewrite Hrun in Hk. destruct r as [result| |]; [|done..]. exists result, db'. split; [exact Hrun|].
    destruct Hr as (_ & _ & _ & Hh & Hinv & _). split; [exact Hh|exact Hinv].
Defined.

Lemma scan_versions_resumes_witness :
  exists page, scan_versions sample_like "b" "" None 1 db_two = Ok (page, db_two) /\
    Forall2 (presents db_two) (take 1 (listing_rows sample_like "b" "" db_two)) page.
Proof.
  destruct (scan_versions_resumes sample_like "b" "" 1 db_two Enabled) as [Hpage _].
  - apply safe_two.
  - by vm_compute.
  - done.
  - lia.
  - exact Hpage.
Defined.

Definition sse_object : ObjectRow :=
  {| o_id := "s"; o_bucket := "b"; o_key := "k"; o_cid := "c"; o_size := 1; o_content_type := None;
     o_etag := "e"; o_metadata := None; o_encrypted := true; o_key_wrap := None;
     o_sse_c_key_fingerprint := None; o_multipart := false; o_is_latest := false; o_created_at := 0 |}.

Lemma claim_first_writer_wins_witness :
  exists o' db', claim_sse_c_key_fingerprint "s" "f1" (set_objects [sse_object] db_empty) = Ok (o', db') /\
    o_sse_c_key_fingerprint o' = Some "f1"%string /\
    claim_sse_c_key_fingerprint "s" "f2" db' = Ok (o', db').
Proof.
  destruct (claim_first_writer_wins (set_objects [sse_object] db_empty) sse_object "f1")
    as (o' & db' & Hrun & _ & Hf & _ & _ & Hsecond).
  - apply (bool_decide_unpack _). by vm_compute.
  - left.
  - exists o', db'. split; [exact Hrun|]. split; [exact Hf|]. exact (Hsecond "f2"%string).
Defined.

Lemma hot_verification_settles_witness :
  exists db', apply_hot_publication_verification "cido1" (PhysVerified "node" "receipt") 9 db_two = Ok (tt, db') /\
    apply_hot_publication_verification "cido1" (PhysVerified "node" "other") 9 db' =
      Err (corrupt "conflicting hot physical verification receipt").
Proof.
  destruct (hot_verification_settles db_two "cido1" "node" "receipt" 9) as (db' & Hrun & _ & _ & Hagain).
  - apply safe_two.
  - done.
  - done.
  - done.
  - exists db'. split; [exact Hrun|]. by rewrite Hagain.
Defined.

(** ** A ZIP batch from admission to a public root *)

(** A management layer that accepts every request and keeps results as they are. *)
#[local] Instance sample_world : ZipWorld := {|
  json_valid _ := true;
  lock_encoded_zip_intake _ := Ok tt;
  verify_mpu_archive _ _ _ _ _ := Ok tt;
  verify_root_retry_binding _ _ _ := Ok tt;
  terminal_with_root original _ _ _ := Ok original
|}.

Definition zip_run (op : ZipOp) (t : Z) (db : ZipDb) : ZipDb :=
  match run_op op t t t t db with Ok (_, db') => db' | Err _ => db end.

Definition sample_admission : BatchAdmission :=
  {| ba_id := "z1"; ba_owner := "alice"; ba_source := "direct"; ba_token := "t"; ba_fingerprint := "f";
     ba_bucket := "b"; ba_archive_key := "a.zip"; ba_input_identity := "i"; ba_captured_options := "{}" |}.
Definition sample_claim : RootClaim :=
  {| rc_batch_id := "z1"; rc_revision := 1; rc_epoch := 1; rc_worker := "w" |}.
Definition sample_entries : list ExtractedEntry := [{| ee_key := "k"; ee_cid := "cido1"; ee_size := 3 |}].
Definition sample_failures : list ExtractFailure :=
  [{| ef_entry_name := "broken"; ef_code := "EntryReadFailed"; ef_message := "truncated" |}].
Definition sample_manifest : FinalZipManifest :=
  Eval vm_compute in default invalid_manifest (final_zip_manifest sample_entries sample_failures "").

Definition op_prepare : ZipOp := OpPrepare "z1" (manifest_items sample_manifest) false.
Definition op_retain : ZipOp := OpRetain sample_claim "node" "hot" "root".
Definition op_verify : ZipOp := OpVerify sample_claim "node" "hot" "root" "receipt".
Definition op_publish : ZipOp :=
  OpPublish "z1" [{| vb_path := "k"; vb_version_row_id := "r1" |}] true "{}"
    (Verified sample_claim "node" "hot" "root") None.

Definition zip_admitted : ZipDb := Eval vm_compute in zip_run (OpAdmit sample_admission) 1 (zip_empty db_one).
Definition zip_prepared : ZipDb := Eval vm_compute in zip_run op_prepare 2 zip_admitted.
Definition zip_claimed : ZipDb := Eval vm_compute in zip_run (OpClaim "z1" "w" 60) 3 zip_prepared.
Definition zip_invoked : ZipDb := Eval vm_compute in zip_run (OpInvoked sample_claim) 4 zip_claimed.
Definition zip_retained : ZipDb := Eval vm_compute in zip_run op_retain 5 zip_invoked.
Definition zip_verified : ZipDb := Eval vm_compute in zip_run op_verify 6 zip_retained.
Definition zip_published : ZipDb := Eval vm_compute in zip_run op_publish 7 zip_verified.

(** One operation at time [t] as a step. *)
Lemma zip_op_step op t db clock db' :
  clock <= t -> run_op op t t t t db = Ok (tt, db') -> zip_step (db, clock) (db', t).
Proof. intros Hle E. by eapply (step_op op t t t t). Qed.

Lemma zip_reach_op op t db clock db' :
  zip_reachable (db, clock) -> clock <= t -> run_op op t t t t db = Ok (tt, db') -> zip_reachable (db', t).
Proof. intros (o & c & Hr) Hle E. exists o, c. eapply rtc_r; [exact Hr|]. by eapply zip_op_step. Qed.

Lemma admitted_reachable : zip_reachable (zip_admitted, 1).
Proof.
  apply (zip_reach_op (OpAdmit sample_admission) 1 (zip_empty db_one) 0); [|lia|vm_compute; reflexivity].
  exists db_one, 0. apply rtc_refl.
Qed.
Lemma prepared_reachable : zip_reachable (zip_prepared, 2).
Proof. apply (zip_reach_op op_prepare 2 _ 1 _ admitted_reachable); [lia|vm_compute; reflexivity]. Qed.
Lemma claimed_reachable : zip_reachable (zip_claimed, 3).
Proof. apply (zip_reach_op (OpClaim "z1" "w" 60) 3 _ 2 _ prepared_reachable); [lia|vm_compute; reflexivity]. Qed.
Lemma invoked_reachable : zip_reachable (zip_invoked, 4).
Proof. apply (zip_reach_op (OpInvoked sample_claim) 4 _ 3 _ claimed_reachable); [lia|vm_compute; reflexivity]. Qed.
Lemma retained_reachable : zip_reachable (zip_retained, 5).
Proof. apply (zip_reach_op op_retain 5 _ 4 _ invoked_reachable); [lia|vm_compute; reflexivity]. Qed.
Lemma verified_reachable : zip_reachable (zip_verified, 6).
Proof. apply (zip_reach_op op_verify 6 _ 5 _ retained_reachable); [lia|vm_compute; reflexivity]. Qed.
Lemma published_reachable : zip_reachable (zip_published, 7).
Proof. apply (zip_reach_op op_publish 7 _ 6 _ verified_reachable); [lia|vm_compute; reflexivity]. Qed.

Definition zip_batch_of (db : ZipDb) : ZipBatch := default (new_batch sample_admission 0) (zip_batches db !! "z1"%string).
Definition zip_build_of (db : ZipDb) : option ZipRootBuild := zip_builds db !! ("z1"%string, 1, 1).

Lemma prepare_final_manifest_witness :
  exists db', prepare_manifest "z1" (manifest_items sample_manifest) 2 zip_admitted = Ok (tt, db') /\
    is_Some (zip_entries db' !! ("z1"%string, "failed/0"%string)).
Proof.
  destruct (prepare_final_manifest zip_admitted 1 "z1" (zip_batch_of zip_admitted) sample_entries sample_failures ""
    sample_manifest 2) as (db' & E & _ & Hrows & _).
  - exact admitted_reachable.
  - vm_compute. reflexivity.
  - vm_compute. reflexivity.
  - vm_compute. reflexivity.
  - vm_compute. reflexivity.
  - vm_compute. reflexivity.
  - by repeat constructor.
  - done.
  - done.
  - exists db'. split; [exact E|]. eexists. apply Hrows. eexists. split; [right; left|]. by split.
Defined.

Lemma root_lease_exclusive_witness :
  exists b, zip_batches zip_claimed !! "z1"%string = Some b /\ 1 = zb_root_revision b /\ 1 = zb_root_epoch b.
Proof.
  destruct (zip_build_of zip_claimed) as [build|] eqn:E; [|discriminate E].
  refine (proj1 (root_lease_exclusive zip_claimed 3 "z1" 1 1 build claimed_reachable E _)).
  vm_compute in E. injection E as <-. reflexivity.
Defined.

Lemma public_root_verified_witness :
  zb_root_cid (zip_batch_of zip_published) = Some "root"%string /\
  exists node tier r, zip_refs zip_published !! (("z1"%string, 1, 1), node, tier, "root"%string) = Some r /\
    zf_state r = "adopted"%string /\ is_Some (zf_verification_receipt r).
Proof.
  split; [vm_compute; reflexivity|].
  refine (proj1 (proj1 (public_root_verified zip_published 7 "z1" (zip_batch_of zip_published)
    published_reachable _) "root"%string) _); vm_compute; reflexivity.
Defined.

(** Another admission after the publication. *)
Definition second_admission : BatchAdmission :=
  {| ba_id := "z2"; ba_owner := "alice"; ba_source := "direct"; ba_token := "t2"; ba_fingerprint := "f";
     ba_bucket := "b"; ba_archive_key := "c.zip"; ba_input_identity := "i"; ba_captured_options := "{}" |}.
Definition zip_second : ZipDb := Eval vm_compute in zip_run (OpAdmit second_admission) 8 zip_published.

Lemma published_batch_final_witness :
  exists b', zip_batches zip_second !! "z1"%string = Some b' /\ published_as (zip_batch_of zip_published) b'.
Proof.
  refine (proj1 (published_batch_final (zip_published, 7) (zip_second, 8) "z1" (zip_batch_of zip_published)
    published_reachable _ _ _)).
  - apply rtc_once, (zip_op_step (OpAdmit second_admission)); [lia|vm_compute; reflexivity].
  - vm_compute. reflexivity.
  - vm_compute. reflexivity.
Defined.

Lemma publish_binds_versions_witness :
  exists e v, zip_entries zip_published !! ("z1"%string, "k"%string) = Some (with_version v e) /\
    version_matches (zip_objects zip_verified) "b" e v.
Proof.
  destruct (publish_binds_versions "z1" [{| vb_path := "k"; vb_version_row_id := "r1" |}] true "{}"
    (Verified sample_claim "node" "hot" "root") None 7 7 zip_verified zip_published)
    as [(b & b' & Hb & _ & _ & _ & _ & _ & Hrows) _]; [vm_compute; reflexivity|].
  eassert (zip_entries zip_verified !! ("z1"%string, "k"%string) = Some _) as Hk by (vm_compute; reflexivity).
  specialize (Hrows _ _ Hk). simpl in Hrows. destruct Hrows as (v & Hv & Hm). eexists _, v. split; [exact Hv|].
  replace (zb_bucket b) with "b"%string in Hm; [exact Hm|].
  assert (Some b = zip_batches zip_verified !! "z1"%string) as Eb by (symmetry; exact Hb).
  vm_compute in Eb. by injection Eb as ->.
Defined.
