(* ===== verification/OwnershipExamples.v ===== *)
(** * A history of the ownership store

    A bucket with an import of an archive, ordinary writers of other keys, and the theorems of the
    ownership store applied along it. *)

From Stdlib Require Import ZArith Lia Ascii.
From stdpp Require Import base list strings gmap.
From S2P Require Import Prelude Errors Database Transaction ImportDb ImportJobs Ownership OwnershipLoops.
From S2P Require Import OwnershipChanges OwnershipSystem.

#[local] Open Scope string_scope.
#[local] Open Scope list_scope.
#[local] Open Scope Z_scope.

#[local] Instance sample_imports : ImportWorld := {|
  freeze_request _ := Ok tt;
  cid_valid _ := true;
  payloads_fit _ _ := true;
  lock_intake _ := Ok tt
|}.

Definition sample_request : NewImportJob :=
  {| nj_id := "j1"; nj_bucket := "b"; nj_key := "a.zip"; nj_source := SrcCid "cid"; nj_request_fingerprint := "f";
     nj_client_token := None; nj_decompress_prefix := Some "out/" |}.
Definition history : list OwnOp :=
  [OpCreateBucket "b"; OpSubmit sample_request 1; OpClaimDue "w" 2 1000 10; OpAdmitOne "b" "k" "t1" 3 (fun _ => 3)].

Definition ticket (token : string) (generation : Z) : StandardMutationGuard :=
  {| mg_bucket := "b"; mg_key := "k"; mg_mutation_id := token; mg_expected_generation := generation;
     mg_mutation_prefix := None |}.
Definition ticket_row (token : string) (generation now : Z) : Destination :=
  {| de_generation := generation; de_owner_job_id := None; de_mutation_id := Some token; de_mutation_prefix := None;
     de_updated_at := now |}.
Definition import_guard : ImportPublicationGuard :=
  {| pg_job_id := "j1"; pg_worker_id := "w"; pg_claim_epoch := 1;
     pg_targets := [{| et_bucket := "b"; et_key := "a.zip"; et_generation := 1 |}] |}.

Definition sample_db : ImportDb := Eval vm_compute in own_run history empty_db.

Lemma history_run : own_run history empty_db = sample_db.
Proof. vm_compute. reflexivity. Qed.

Lemma token_guard_only_writer_witness :
  covers sample_db (Token "b" "k") "b" "k" /\ forall w, covers sample_db w "b" "k" -> w = Token "b" "k".
Proof.
  split.
  - split; [done|]. exists (ticket_row "t1" 1 3). split; [vm_compute; reflexivity|]. split; [by exists "t1"|by left].
  - intros w Hw. rewrite <- history_run in Hw.
    refine (token_guard_only_writer history (ticket "t1" 1) [] 10 tt sample_db "k" w _ _ Hw); [|by left].
    rewrite history_run. vm_compute. reflexivity.
Defined.

Lemma publication_guard_only_writer_witness :
  covers sample_db (Import "j1") "b" "a.zip" /\ forall w, covers sample_db w "b" "a.zip" -> w = Import "j1".
Proof.
  split.
  - split; [vm_compute; reflexivity|]. left.
    exists {| de_generation := 1; de_owner_job_id := Some "j1"; de_mutation_id := None; de_mutation_prefix := None;
              de_updated_at := 1 |}. split; [vm_compute; reflexivity|done].
  - intros w Hw. rewrite <- history_run in Hw.
    refine (publication_guard_only_writer history import_guard "b" [("b", "a.zip")] 10 tt sample_db ("b", "a.zip") w _ _ Hw);
      [|by left]. rewrite history_run. vm_compute. reflexivity.
Defined.

(** A second writer of the key displaces the first, and is released later. *)
Definition displaced : list OwnOp := history ++ [OpAdmitOne "b" "k" "t2" 4 (fun _ => 4)].
Definition later : list OwnOp := [OpRelease (ticket "t2" 2) 11; OpRenew (ticket "t1" 1) 12 12 12; OpRecover "b" (fun _ => 20)].

Lemma stale_guard_stays_stale_witness :
  verify_standard_mutation_guard (ticket "t1" 1) "b" "k" [] 30 (own_run later (own_run displaced empty_db))
  = Err StaleContentMutation.
Proof.
  refine (stale_guard_stays_stale displaced later (ticket "t1" 1) [] 10 30 StaleContentMutation _ _ _ _ _).
  - exists (ticket_row "t2" 2 4). split; [vm_compute; reflexivity|]. simpl. lia.
  - vm_compute. reflexivity.
  - repeat constructor; simpl; lia.
  - repeat constructor; simpl; by apply not_elem_of_nil.
  - lia.
Defined.

Definition two_tickets : list StandardMutationGuard :=
  [{| mg_bucket := "b"; mg_key := "m"; mg_mutation_id := "t4"; mg_expected_generation := 1; mg_mutation_prefix := None |};
   {| mg_bucket := "b"; mg_key := "n"; mg_mutation_id := "t3"; mg_expected_generation := 1; mg_mutation_prefix := None |}].
Definition two_ids : gmap string string := {["n" := "t3"; "m" := "t4"]}.
Definition two_db : ImportDb := Eval vm_compute in
  match admit_content_mutations "b" ["n"; "m"] two_ids None 5 (fun _ => 5) sample_db with Ok (_, db) => db | Err _ => sample_db end.

Lemma admitted_guards_hold_witness :
  mg_key <$> two_tickets = ["m"; "n"]
  /\ forall g, g ∈ two_tickets -> verify_standard_mutation_guard g "b" (mg_key g) [] 100 two_db = Ok (tt, two_db).
Proof.
  assert (admit_content_mutations "b" ["n"; "m"] two_ids None 5 (fun _ => 5) sample_db = Ok (two_tickets, two_db)) as E
    by (vm_compute; reflexivity).
  destruct (admitted_guards_hold _ _ _ _ _ _ _ _ E) as [Hk Hg]. split; [rewrite Hk; vm_compute; reflexivity|].
  intros g Hin. apply (Hg g Hin). vm_compute. reflexivity.
Defined.

Lemma recovery_terminates_witness :
  exists db', recover_expired_mutations_in_transaction "b" (fun _ => 200000000000) sample_db = Ok (tt, db')
    /\ expired_leases "b" 200000000000 db' = [].
Proof.
  destruct (recovery_terminates "b" (fun _ => 200000000000) sample_db) as (db' & n & E & _ & Hx & _);
    [|exists db'; split; [exact E|exact Hx]].
  rewrite <- history_run. apply own_run_inv.
Defined.
