(* ===== verification/CorsExamples.v ===== *)
(** * CORS: sample libraries, documents and requests

    Instances of the library interfaces that satisfy their laws, a service with one bucket and its
    document, and requests to it. *)

From Stdlib Require Import ZArith Lia Ascii.
From Stdlib Require String.
From stdpp Require Import base list strings pretty gmap countable.
From S2P Require Import Prelude Bytes Errors Database Transaction CorsConfig CorsMatching Crc64 CorsStore CorsHttp CorsSystem.

#[local] Open Scope string_scope.
#[local] Open Scope list_scope.
#[local] Open Scope Z_scope.

(** ** Libraries *)

(** A text form of documents: the bits of their code *)
Fixpoint bits_of (p : positive) : string :=
  match p with
  | xH => EmptyString
  | xO p => String "0" (bits_of p)
  | xI p => String "1" (bits_of p)
  end.
Fixpoint of_bits (s : string) : option positive :=
  match s with
  | EmptyString => Some xH
  | String c s => if ascii_dec c "0" then xO <$> of_bits s else if ascii_dec c "1" then xI <$> of_bits s else None
  end.
Lemma of_bits_of p : of_bits (bits_of p) = Some p.
Proof. induction p as [p IH|p IH|]; simpl; by rewrite ?IH. Qed.

(** A reader takes a value off the front of a text. *)
Abbreviation reader A := (string -> option (A * string)).
Definition reads_back {A} (put : A -> string) (get : reader A) : Prop :=
  forall a rest, get (put a +:+ rest) = Some (a, rest).

(** Counts are written in unary. *)
Fixpoint put_count (n : nat) : string := match n with O => ":" | S n => String "." (put_count n) end.
Fixpoint get_count (s : string) : option (nat * string) :=
  match s with
  | EmptyString => None
  | String c s => if ascii_dec c "." then prod_map S id <$> get_count s else Some (O, s)
  end.
Lemma get_put_count : reads_back put_count get_count.
Proof. intros n rest. induction n as [|n IH]; [done|]. simpl. by rewrite IH. Qed.

Definition put_string (s : string) : string := put_count (String.length s) +:+ s.
Definition get_string : reader string := fun s => '(n, s) ← get_count s; Some (str_take n s, str_drop n s).
Lemma get_put_string : reads_back put_string get_string.
Proof.
  intros s rest. unfold get_string, put_string. rewrite str_app_assoc, get_put_count. simpl.
  by rewrite str_take_app, str_take_all, str_drop_app by lia.
Qed.

Definition put_list {A} (put : A -> string) (l : list A) : string :=
  put_count (length l) +:+ foldr (fun a s => put a +:+ s) EmptyString l.
Fixpoint get_n {A} (get : reader A) (n : nat) : reader (list A) :=
  fun s => match n with
           | O => Some ([], s)
           | S n => '(a, s) ← get s; '(l, s) ← get_n get n s; Some (a :: l, s)
           end.
Definition get_list {A} (get : reader A) : reader (list A) := fun s => '(n, s) ← get_count s; get_n get n s.
Lemma get_put_list {A} (put : A -> string) get : reads_back put get -> reads_back (put_list put) (get_list get).
Proof.
  intros Hg l rest. unfold get_list, put_list. rewrite str_app_assoc, get_put_count. simpl.
  induction l as [|a l IH]; [done|]. simpl. rewrite str_app_assoc, Hg. simpl. by rewrite IH.
Qed.

Abbreviation put_strings := (put_list put_string).
Abbreviation get_strings := (get_list get_string).
Definition put_code {A} `{Countable A} (a : A) : string := put_string (bits_of (encode a)).
Definition get_code {A} `{Countable A} : reader A :=
  fun s => '(b, s) ← get_string s; p ← of_bits b; a ← decode p; Some (a, s).
Lemma get_put_code {A} `{Countable A} : reads_back (put_code (A := A)) get_code.
Proof. intros a rest. unfold get_code, put_code. rewrite get_put_string. simpl. rewrite of_bits_of. simpl. by rewrite decode_encode. Qed.

Definition put_rule (r : CorsRule) : string :=
  put_strings (cr_allowed_origins r) +:+ put_strings (cr_allowed_methods r) +:+ put_strings (cr_allowed_headers r)
  +:+ put_strings (cr_expose_headers r) +:+ put_code (cr_id r) +:+ put_code (cr_max_age_seconds r).
Definition get_rule : reader CorsRule := fun s =>
  '(o, s) ← get_strings s; '(m, s) ← get_strings s; '(h, s) ← get_strings s; '(e, s) ← get_strings s;
  '(i, s) ← get_code s; '(a, s) ← get_code s;
  Some ({| cr_allowed_origins := o; cr_allowed_methods := m; cr_allowed_headers := h;
           cr_expose_headers := e; cr_id := i; cr_max_age_seconds := a |}, s).
Lemma get_put_rule : reads_back put_rule get_rule.
Proof.
  intros [o m h e i a] rest. unfold get_rule, put_rule.
  cbn [cr_allowed_origins cr_allowed_methods cr_allowed_headers cr_expose_headers cr_id cr_max_age_seconds].
  rewrite !str_app_assoc. do 4 (rewrite (get_put_list _ _ get_put_string); cbn [mbind option_bind]).
  do 2 (rewrite get_put_code; cbn [mbind option_bind]). done.
Qed.

#[local] Instance sample_cors_lib : CorsLib := {|
  header_name s := if negb (str_is_empty s) && string_forallb (fun c => within 33 126 (N_of_ascii c)) s
                   then Some (ascii_lower s) else None;
  cors_to_json c := Some (put_list put_rule (cc_rules c));
  cors_from_json j := '(rules, _) ← get_list get_rule j; Some {| cc_rules := rules |}
|}.

#[local] Instance sample_cors_laws : CorsLibLaws.
Proof.
  split; simpl.
  - intros s n. destruct (_ && _); congruence.
  - intros s n. destruct (str_is_empty s), (string_forallb _ s) eqn:E; try done. intros _. revert E. unfold visible.
    clear n. induction s as [|c s IH]; simpl; [done|]. unfold within. rewrite !andb_true_iff, !N.leb_le.
    intros [? ?]. split; [lia|by apply IH].
  - intros [rules] j [= <-]. cbn [cc_rules]. rewrite <- (str_app_nil_r (put_list put_rule rules)).
    by rewrite (get_put_list _ _ get_put_rule).
Defined.

(** Two letters per byte stand for the alphabet of the encoding. *)
Definition nibble (n : N) : ascii := ascii_of_N (97 + n).
Fixpoint letters (s : string) : string :=
  match s with
  | EmptyString => EmptyString
  | String c s => String (nibble (N_of_ascii c / 16)) (String (nibble (N_of_ascii c mod 16)) (letters s))
  end.
Fixpoint of_letters (s : string) : option string :=
  match s with
  | EmptyString => Some EmptyString
  | String a (String b s) =>
    let n := (N_of_ascii a - 97) in let m := (N_of_ascii b - 97) in String (ascii_of_N (n * 16 + m)) <$> of_letters s
  | _ => None
  end%N.

#[local] Instance sample_digests : DigestLib := {|
  base64_decode := of_letters;
  md5_compute s := str_take 16 (s +:+ "................")
|}.

#[local] Instance sample_web : WebLib := {|
  Body := string; body_from s := s;
  to_bytes b n := if str_len b <=? n then Some b else None;
  header_value_from_str s := if visible s then Some s else None;
  header_value_to_str s := if visible s then Some s else None;
  method_from_bytes s := if str_is_empty s then None else Some s;
  percent_decode_utf8 s := Some s;
  path_style_bucket s := (3 <=? str_len s)
|}.

#[local] Instance sample_responses : IntoResponse := {|
  status_response n := {| rs_status := n; rs_headers := ∅; rs_body := EmptyString |};
  text_response n t := {| rs_status := n; rs_headers := header_insert CONTENT_TYPE "text/plain; charset=utf-8" ∅; rs_body := t |}
|}.

#[local] Instance sample_web_laws : WebLaws.
Proof.
  split; simpl; try done.
  - intros b n s. destruct (Z.leb_spec (str_len b) n); congruence.
  - intros s n Hs%Z.leb_le. by rewrite Hs.
  - intros s Hs. by rewrite Hs.
  - intros v s. destruct (visible v); congruence.
  - intros v m. destruct (str_is_empty v); congruence.
  - intros n t name Hn. rewrite get_all_insert, decide_False by done. apply get_all_empty.
Defined.

(** ** A service with one document *)

Definition sample_cors_rules : list CORSRule :=
  [{| dto_allowed_headers := Some ["x-amz-*"]; dto_allowed_methods := ["GET"; "PUT"];
      dto_allowed_origins := ["https://*.example.org"]; dto_expose_headers := Some ["ETag"];
      dto_id := Some "site"; dto_max_age_seconds := Some 600 |};
   {| dto_allowed_headers := Some []; dto_allowed_methods := ["GET"]; dto_allowed_origins := ["*"];
      dto_expose_headers := None; dto_id := None; dto_max_age_seconds := None |}].

Definition sample_body : string := "<CORSConfiguration/>".
Definition sample_metadata : CorsPutBodyMetadata := Eval vm_compute in
  {| pb_len := str_len sample_body; pb_computed_md5 := md5_compute sample_body;
     pb_computed_crc64nvme := crc64nvme sample_body; pb_sdk_checksum_algorithm := SdkSingle;
     pb_supplied_crc64nvme := CrcValue (crc64nvme sample_body) |}.
Definition sample_put : PutBucketCorsInput :=
  {| pi_bucket := "photos"; pi_expected_bucket_owner := Some "alice"; pi_content_md5 := None;
     pi_checksum_algorithm := Some "CRC64NVME"; pi_cors_configuration := {| dto_cors_rules := sample_cors_rules |} |}.

Definition cors_start : CorsDb := Eval vm_compute in add_bucket_row "photos" (Some "alice") empty_cors.
Definition cors_db : CorsDb := Eval vm_compute in
  match put_bucket_cors 7 cors_start sample_put (Some sample_metadata) cors_start with
  | Ok (_, db) => db
  | Err _ => empty_cors
  end.

Lemma cors_start_constraints : cors_constraints cors_start.
Proof. apply (bool_decide_unpack _). vm_compute. exact I. Qed.

Lemma cors_db_put : put_bucket_cors 7 cors_start sample_put (Some sample_metadata) cors_start = Ok (tt, cors_db).
Proof. vm_compute. reflexivity. Qed.

Lemma cors_db_history : rtc cors_step empty_cors cors_db.
Proof.
  apply (rtc_l _ _ cors_start).
  - change cors_start with (add_bucket_row "photos" (Some "alice") empty_cors). by apply step_create_bucket.
  - apply rtc_once. exact (step_put_bucket_cors cors_start 7 cors_start sample_put (Some sample_metadata) cors_db cors_db_put).
Qed.

(** ** Requests *)

Definition preflight : Request :=
  {| rq_method := "OPTIONS"; rq_path := "/photos/cat.jpg"; rq_query := None;
     rq_headers := header_insert ACCESS_CONTROL_REQUEST_HEADERS "X-Amz-Date, x-amz-acl"
       (header_insert ACCESS_CONTROL_REQUEST_METHOD "PUT" (header_insert ORIGIN "https://a.example.org" ∅));
     rq_extension := None; rq_body := EmptyString |}.

Definition inner (request : Request) (db : CorsDb) : Response * CorsDb :=
  ({| rs_status := 200; rs_headers := header_insert "etag" "e1" ∅; rs_body := "bytes" |}, db).

Definition fetch : Request :=
  {| rq_method := "GET"; rq_path := "/photos/cat.jpg"; rq_query := None;
     rq_headers := header_insert ORIGIN "https://elsewhere.net" ∅; rq_extension := None; rq_body := EmptyString |}.

(** ** The theorems at work *)

Definition cors_document : CorsConfiguration := Eval vm_compute in submitted sample_put.

Lemma first_match_spec_witness :
  Forall2 (fun r h => header_name r = Some h) ["X-Amz-Date"] ["x-amz-date"]
  /\ exists m, first_match cors_document "https://a.example.org" "PUT" ["x-amz-date"] = Some m
     /\ admits (cm_rule m) "https://a.example.org" "PUT" ["x-amz-date"].
Proof.
  assert (Forall2 (fun r h => header_name r = Some h) ["X-Amz-Date"] ["x-amz-date"]) as Hraw
    by (constructor; [reflexivity|constructor]).
  split; [exact Hraw|].
  pose proof (first_match_spec cors_document "https://a.example.org" "PUT" _ _ Hraw) as Hspec.
  destruct (first_match cors_document "https://a.example.org" "PUT" ["x-amz-date"]) as [m|] eqn:E.
  - exists m. split; [reflexivity|]. destruct Hspec as (before & after & _ & _ & Hm & _). exact Hm.
  - vm_compute in E. discriminate E.
Defined.

Lemma put_bucket_cors_spec_witness :
  cors_constraints cors_start
  /\ digests_verified sample_put sample_metadata.
Proof.
  split; [exact cors_start_constraints|].
  destruct (proj1 (put_bucket_cors_spec 7 cors_start cors_start cors_db sample_put (Some sample_metadata)
    cors_start_constraints) cors_db_put) as (_ & _ & m & json & [= <-] & _ & _ & Hd & _).
  exact Hd.
Defined.

Lemma stored_configurations_typed_witness :
  rtc cors_step empty_cors cors_db
  /\ map_Forall (fun _ row => exists c, valid_cors c /\ from_canonical_cors_json (bc_canonical_json row) = Ok c)
       (cd_configs cors_db).
Proof.
  split; [exact cors_db_history|]. intros b row Hb.
  destruct (proj1 (stored_configurations_typed cors_db cors_db_history) b row Hb) as (_ & c & Hv & Hc & _).
  exists c. split; [exact Hv|exact Hc].
Defined.

Lemma put_get_bucket_cors_witness :
  put_bucket_cors 7 cors_start sample_put (Some sample_metadata) cors_start = Ok (tt, cors_db)
  /\ get_bucket_cors "photos" (Some "alice") cors_db = Ok (normal_rule <$> sample_cors_rules).
Proof.
  split; [exact cors_db_put|].
  exact (proj1 (put_get_bucket_cors 7 cors_start cors_start cors_db sample_put (Some sample_metadata)
    cors_start_constraints cors_db_put)).
Defined.

Lemma preflight_spec_witness :
  classify_bucket_path "/photos/cat.jpg" = Some {| bp_bucket := "photos"; bp_bucket_only := false |}
  /\ exists response, bucket_cors Ok inner preflight cors_db = (response, cors_db)
     /\ rs_status response = 200
     /\ get_all ACCESS_CONTROL_ALLOW_ORIGIN (rs_headers response) = ["https://a.example.org"].
Proof.
  assert (classify_bucket_path "/photos/cat.jpg" = Some {| bp_bucket := "photos"; bp_bucket_only := false |}) as Hbp
    by reflexivity.
  split; [exact Hbp|].
  assert ("/photos/cat.jpg" ∉ ["/health"; "/ready"]) as Hpath by (apply (bool_decide_unpack _); vm_compute; exact I).
  destruct (preflight_spec (World := CorsDb) Ok inner preflight cors_db cors_db _ Hpath Hbp eq_refl cors_db_history
    eq_refl eq_refl) as (response & Hrun & _).
  exists response. split; [exact Hrun|].
  assert (response = (bucket_cors Ok inner preflight cors_db).1) as -> by (rewrite Hrun; reflexivity).
  split; vm_compute; reflexivity.
Defined.

Lemma actual_response_spec_witness :
  exists response, bucket_cors Ok inner fetch cors_db = (response, cors_db)
    /\ rs_body response = "bytes" /\ get_all ACCESS_CONTROL_ALLOW_ORIGIN (rs_headers response) = ["*"].
Proof.
  assert (classify_bucket_path "/photos/cat.jpg" = Some {| bp_bucket := "photos"; bp_bucket_only := false |}) as Hbp
    by reflexivity.
  assert ("/photos/cat.jpg" ∉ ["/health"; "/ready"]) as Hpath by (apply (bool_decide_unpack _); vm_compute; exact I).
  assert (rq_method fetch <> "OPTIONS") as Hm by discriminate.
  destruct (actual_response_spec (World := CorsDb) Ok inner fetch cors_db cors_db _ Hpath Hbp eq_refl cors_db_history
    Hm eq_refl) as (response & additions & Hrun & _ & Hbody & _).
  exists response. split; [exact Hrun|]. split; [exact Hbody|].
  assert (response = (bucket_cors Ok inner fetch cors_db).1) as -> by (rewrite Hrun; reflexivity).
  vm_compute. reflexivity.
Defined.

(** An upload one byte of which was changed on its way *)
Definition upload_checksum : string := Eval vm_compute in letters (crc64nvme "<a>x</a>").
Definition upload : Request := Eval vm_compute in
  {| rq_method := "PUT"; rq_path := "/photos"; rq_query := Some "cors";
     rq_headers := header_insert "x-amz-checksum-crc64nvme" upload_checksum ∅;
     rq_extension := None; rq_body := "<a>y</a>" |}.
Definition forwarded_upload : Request := Eval vm_compute in
  match reconstruct_put_body upload with Ok request => request | Err _ => upload end.

Lemma tampered_body_refused_witness :
  reconstruct_put_body upload = Ok forwarded_upload
  /\ put_bucket_cors 8 cors_start sample_put (rq_extension forwarded_upload) cors_start = Err BadCorsDigest.
Proof.
  assert (reconstruct_put_body upload = Ok forwarded_upload) as Hf by (vm_compute; reflexivity).
  split; [exact Hf|].
  apply (tampered_body_refused upload forwarded_upload 8 cors_start cors_start sample_put
    upload_checksum "<a>" "x" "y" "</a>").
  - vm_compute. reflexivity.
  - reflexivity.
  - simpl. lia.
  - discriminate.
  - vm_compute. reflexivity.
  - exists upload_checksum. vm_compute. reflexivity.
  - vm_compute. reflexivity.
  - vm_compute. lia.
  - exact Hf.
  - reflexivity.
  - exists (Some "alice"). split; [reflexivity|right; reflexivity].
Defined.
