(* ===== verification/LifecycleExamples.v ===== *)
(** * A history of the queue of lifecycle actions

    One expiration is queued, claimed, lost to another worker when its lease runs out, and completed
    by that worker; the theorems of the queue are applied along the way. *)

From Stdlib Require Import ZArith Lia Ascii.
From Stdlib Require String.
From stdpp Require Import base list strings pretty gmap.
From S2P Require Import Prelude Bytes Errors Chrono VersionModel LifecycleModel Database Transaction.
From S2P Require Import ImportDb ImportJobs Ownership LifecycleActions LifecycleQueue.

#[local] Open Scope string_scope.
#[local] Open Scope list_scope.
#[local] Open Scope Z_scope.

#[local] Instance queue_chrono : Chrono := proleptic.
#[local] Instance queue_uuid : Uuid := fun s => if starts_with "u" s then Some s else None.
#[local] Instance queue_uuid_laws : UuidLaws.
Proof. split; [intros s c; unfold uuid_canonical, queue_uuid|done]. destruct (starts_with "u" s) eqn:E; [|done]. intros [= <-]. by rewrite E. Defined.

#[local] Instance queue_codec : ActionCodec := {|
  version_action_json c := Some (cv_rule_identity c +:+ "/" +:+ cv_target_version_row_id c +:+ "/" +:+ cv_due_at c);
  multipart_action_json c := Some (cm_rule_identity c +:+ "/" +:+ cm_target_upload_id c +:+ "/" +:+ cm_due_at c);
  sha256_hex s := s;
  to_rfc3339_nanos := pretty
|}.

Definition one_bucket : ImportDb :=
  {| im_buckets := {["b"]}; im_jobs := ∅; im_dests := ∅; im_claims := ∅; im_targets := ∅; im_leases := ∅ |}.

Definition expiration : NewLifecycleAction :=
  {| act_idempotency_key := EmptyString; act_bucket := "b"; act_config_revision := 1;
     act_rule_identity := RuleId "old"; act_kind := ExpireCurrent;
     act_target := TargetVersion {| vt_bucket := "b"; vt_key := "k"; vt_version_row_id := "r1";
       vt_public_version_id := Opaque "u-1"; vt_kind := KObject; vt_object_id := Some "o1"; vt_sequence := 4 |};
     act_due_at := 100 |}.

Definition queue0 : Queue := Eval vm_compute in empty_queue one_bucket ∅.
Definition db0 : LifecycleDb := Eval vm_compute in q_db queue0.
Definition db1 : LifecycleDb := Eval vm_compute in
  match insert_idempotent "a1" expiration 100 db0 with Ok (_, db) => db | Err _ => db0 end.
Abbreviation claim_by worker now db := (claim_due_with_max_attempts worker 1000 8 10 now now (fun _ => false) db).
Definition claims1 : list ClaimedLifecycleAction := Eval vm_compute in
  match claim_by "w1" 200 db1 with Ok (cs, _) => cs | Err _ => [] end.
Definition db2 : LifecycleDb := Eval vm_compute in
  match claim_by "w1" 200 db1 with Ok (_, db) => db | Err _ => db0 end.
Definition claims2 : list ClaimedLifecycleAction := Eval vm_compute in
  match claim_by "w2" 1300 db2 with Ok (cs, _) => cs | Err _ => [] end.
Definition db3 : LifecycleDb := Eval vm_compute in
  match claim_by "w2" 1300 db2 with Ok (_, db) => db | Err _ => db0 end.

Definition no_claim : ClaimedLifecycleAction := Eval vm_compute in
  {| cl_id := EmptyString; cl_action := new_action expiration (EmptyString, EmptyString, EmptyString) 0; cl_claim_epoch := 0;
     cl_worker_id := EmptyString |}.
Definition first_claim : ClaimedLifecycleAction := Eval vm_compute in default no_claim (head claims1).
Definition second_claim : ClaimedLifecycleAction := Eval vm_compute in default no_claim (head claims2).
Definition db4 : LifecycleDb := Eval vm_compute in
  match mark_succeeded second_claim 1400 db3 with Ok (_, db) => db | Err _ => db0 end.
Definition row_of (db : LifecycleDb) : LifecycleAction := default (cl_action no_claim) (ld_actions db !! "a1").
Definition claimed_row : LifecycleAction := Eval vm_compute in row_of db2.
Definition done_row : LifecycleAction := Eval vm_compute in row_of db4.

Lemma insert_runs : insert_idempotent "a1" expiration 100 db0 = Ok (true, db1).
Proof. vm_compute. reflexivity. Qed.
Lemma claim1_runs : claim_by "w1" 200 db1 = Ok ([first_claim], db2).
Proof. vm_compute. reflexivity. Qed.
Lemma claim2_runs : claim_by "w2" 1300 db2 = Ok ([second_claim], db3).
Proof. vm_compute. reflexivity. Qed.
Lemma succeed_runs : mark_succeeded second_claim 1400 db3 = Ok (true, db4).
Proof. vm_compute. reflexivity. Qed.

Definition queue2 : Queue := {| q_db := db3; q_issued := [second_claim; first_claim]; q_used := {["a1"]} ∪ ∅ |}.
Definition queue3 : Queue := with_db db4 queue2.

Lemma queue2_reachable : reachable_queue queue2.
Proof.
  exists one_bucket, ∅. change (empty_queue one_bucket ∅) with queue0.
  apply (rtc_l _ _ {| q_db := db1; q_issued := []; q_used := {["a1"]} ∪ ∅ |}).
  { exact (qs_insert queue0 "a1" expiration 100 true db1 (not_elem_of_empty "a1") insert_runs). }
  apply (rtc_l _ _ {| q_db := db2; q_issued := [first_claim]; q_used := {["a1"]} ∪ ∅ |}).
  { exact (qs_claim {| q_db := db1; q_issued := []; q_used := {["a1"]} ∪ ∅ |} "w1" 1000 8 10 200 200 (fun _ => false) _ _ claim1_runs). }
  apply rtc_once.
  exact (qs_claim {| q_db := db2; q_issued := [first_claim]; q_used := {["a1"]} ∪ ∅ |} "w2" 1000 8 10 1300 1300 (fun _ => false) _ _ claim2_runs).
Qed.

Lemma queue3_later : rtc queue_step queue2 queue3.
Proof. apply rtc_once. exact (qs_succeed queue2 second_claim 1400 true db4 (list_elem_of_here _ _) succeed_runs). Qed.

Lemma queue3_reachable : reachable_queue queue3.
Proof.
  destruct queue2_reachable as (im & sagas & Hr). exists im, sagas. etrans; [exact Hr|exact queue3_later].
Qed.

Lemma first_claim_lost : ~ holds first_claim queue2.
Proof. intros (a & Ha & Hact). vm_compute in Ha. injection Ha as <-. vm_compute in Hact. discriminate Hact. Qed.

(** ** The theorems at work *)

Lemma one_claim_holder_witness :
  reachable_queue queue2 /\ holds second_claim queue2
  /\ cl_claim_epoch second_claim <> cl_claim_epoch first_claim.
Proof.
  split; [exact queue2_reachable|]. split; [exists (row_of db3); split; vm_compute; reflexivity|]. intros E.
  assert (first_claim ∈ q_issued queue2) as Hin by (apply list_elem_of_further, list_elem_of_here).
  pose proof (proj2 (one_claim_holder queue2 second_claim first_claim queue2_reachable (list_elem_of_here _ _) Hin eq_refl) E) as Heq.
  discriminate Heq.
Defined.

Lemma stale_claim_refused_witness :
  rtc queue_step queue2 queue3 /\ mark_succeeded first_claim 1500 (q_db queue3) = Ok (false, q_db queue3).
Proof.
  split; [exact queue3_later|].
  assert (first_claim ∈ q_issued queue2) as Hin by (apply list_elem_of_further, list_elem_of_here).
  destruct (stale_claim_refused queue2 queue3 first_claim queue2_reachable Hin first_claim_lost queue3_later)
    as (_ & _ & Hs & _). exact (Hs 1500).
Defined.

Lemma live_lease_respected_witness :
  claim_by "w2" 1100 db2 = Ok ([], db2) /\ ld_actions db2 !! "a1" = Some claimed_row.
Proof.
  assert (claim_by "w2" 1100 db2 = Ok ([], db2)) as Hrun by (vm_compute; reflexivity).
  split; [exact Hrun|].
  assert (ld_actions db2 !! "a1" = Some claimed_row) as Hrow by (vm_compute; reflexivity).
  exact (proj1 (live_lease_respected "w2" 1000 8 10 1100 1100 (fun _ => false) db2 db2 [] "a1" claimed_row 1200
    Hrow eq_refl eq_refl eq_refl Hrun)).
Defined.

Lemma finished_action_final_witness :
  settled done_row /\ (ld_actions (q_db queue3) !! "a1" = Some done_row \/ ld_actions (q_db queue3) !! "a1" = None).
Proof.
  assert (settled done_row) as Hset by (left; vm_compute; reflexivity).
  split; [exact Hset|].
  exact (finished_action_final queue3 queue3 "a1" done_row queue3_reachable eq_refl Hset (rtc_refl _ _)).
Defined.

Lemma attempts_bounded_witness : la_attempts done_row = 2 /\ la_attempts done_row <= MAX_LIFECYCLE_ACTION_ATTEMPTS + 1.
Proof.
  split; [reflexivity|].
  exact (attempts_bounded queue3 "a1" done_row queue3_reachable eq_refl eq_refl).
Defined.

Lemma claim_due_spec_witness :
  claim_by "w1" 200 db1 = Ok ([first_claim], db2) /\ NoDup (cl_id <$> [first_claim]).
Proof.
  split; [exact claim1_runs|].
  destruct (claim_due_spec "w1" 1000 8 10 200 200 (fun _ => false) db1 db2 [first_claim] claim1_runs)
    as (lease_until & _ & _ & _ & Hnd & _). exact Hnd.
Defined.

Lemma queued_target_roundtrip_witness :
  insert_idempotent "a1" expiration 100 db0 = Ok (true, db1)
  /\ exists row, ld_actions db1 !! "a1" = Some row /\ target_from_action (la_columns row) = Ok (act_target expiration).
Proof.
  split; [exact insert_runs|].
  assert (forall t, act_target expiration = TargetVersion t ->
    parse_s3 (as_s3_str (vt_public_version_id t)) = Ok (vt_public_version_id t)) as Hv
    by (intros t [= <-]; reflexivity).
  exact (queued_target_roundtrip "a1" expiration 100 db0 db1 Hv insert_runs).
Defined.
