(* ===== verification/TransitionExamples.v ===== *)
(** * A version moves to the cold tier

    One version is published, its transition is queued, claimed, prepared, copied, verified, published
    and cleaned up, and the saga is removed; the theorems on transitions are applied along the way. *)

From Stdlib Require Import ZArith Lia Ascii.
From Stdlib Require String.
From stdpp Require Import base list strings pretty sorting gmap.
From S2P Require Import Prelude Errors Chrono VersionModel LifecycleModel LifecycleConfig LifecycleEval Database Transaction.
From S2P Require Import ObjectStore ResidencyStore VersionStore VersionSpec VersionReads Publication VersionSystem StoreEffects Examples.
From S2P Require Import ImportDb Ownership LifecycleActions LifecycleQueue LifecycleExamples Revalidation Transitions TransitionRuns.
From S2P Require Import TransitionSystem TransitionTheorems BucketDelete.

#[local] Open Scope string_scope.
#[local] Open Scope list_scope.
#[local] Open Scope Z_scope.

#[local] Existing Instances sample_uuid sample_uuid_laws sample_ownership sample_granted queue_chrono queue_codec.

(** ** Receipts and configuration *)

Definition cold_receipt : TierCopyReceipt := {| tc_node_identity := "cold-node"; tc_cid := "cido1" |}.
Definition verification_of_sample : DurableVerificationReceipt :=
  {| dv_version := 1; dv_saga_id := "s1"; dv_action_id := "a1"; dv_claim_epoch := 1; dv_source_residency_revision := 1;
     dv_source_node_identity := "hot-node"; dv_destination_node_identity := "cold-node"; dv_cid := "cido1";
     dv_tier_receipt := cold_receipt |}.
Definition publication_of_sample : TransitionPublicationReceipt :=
  {| tp_version := 1; tp_saga_id := "s1"; tp_action_id := "a1"; tp_claim_epoch := 1; tp_source_residency_revision := 1;
     tp_published_residency_revision := 2; tp_destination_node_identity := "cold-node"; tp_cid := "cido1"; tp_published_at := 300 |}.

(** Every object goes to the cold tier at once. *)
Definition move_all : CanonicalLifecycleConfiguration :=
  {| schema_version := SCHEMA_VERSION;
     rules := [{| rule_id := Some "move"; status := RuleEnabled; selector := Modern FAll; LifecycleModel.expiration := None;
                  noncurrent_version_expiration := None; transition := Some (TransDate 0); noncurrent_version_transition := None;
                  abort_incomplete_multipart_upload := None |}] |}.

(** Every object expires at once. *)
Definition expire_all : CanonicalLifecycleConfiguration :=
  {| schema_version := SCHEMA_VERSION;
     rules := [{| rule_id := Some "drop"; status := RuleEnabled; selector := Modern FAll;
                  LifecycleModel.expiration := Some (ExpDate 0); noncurrent_version_expiration := None; transition := None;
                  noncurrent_version_transition := None; abort_incomplete_multipart_upload := None |}] |}.

#[local] Instance TransitionPublicationReceipt_eq_dec : EqDecision TransitionPublicationReceipt.
Proof. solve_decision. Defined.

(** Documents by name *)
Definition named {A} `{EqDecision A} (name : string) (value x : A) : option string :=
  if bool_decide (x = value) then Some name else None.
Definition document {A} (name : string) (value : A) (text : string) : option A :=
  if String.eqb text name then Some value else None.

Lemma named_read {A} `{EqDecision A} name (value x : A) text : named name value x = Some text -> document name value text = Some x.
Proof. unfold named, document. case_bool_decide as E; [|done]. intros [= <-]. by rewrite String.eqb_refl, E. Qed.

#[local] Instance sample_codec : TransitionCodec := {|
  tier_receipt_json := named "tier" cold_receipt;
  tier_receipt_from_json := document "tier" cold_receipt;
  verification_json := named "verification" verification_of_sample;
  verification_from_json := document "verification" verification_of_sample;
  publication_json := named "publication" publication_of_sample;
  publication_from_json := document "publication" publication_of_sample;
  configuration_from_json text := union (document "config" move_all text) (document "expire" expire_all text)
|}.
#[local] Instance sample_codec_laws : TransitionCodecLaws.
Proof. split; intros r json; apply named_read. Qed.

(** ** The run *)

Definition move_action : NewLifecycleAction :=
  {| act_idempotency_key := EmptyString; act_bucket := "b"; act_config_revision := 1; act_rule_identity := RuleId "move";
     act_kind := TransitionCurrent;
     act_target := TargetVersion {| vt_bucket := "b"; vt_key := "k"; vt_version_row_id := "r1";
       vt_public_version_id := Opaque "u1"; vt_kind := KObject; vt_object_id := Some "o1"; vt_sequence := 1 |};
     act_due_at := 0 |}.

(** The bucket of the import tables, and the ticket of the claim of the action *)
Definition ticket : ImportDb :=
  {| im_buckets := {["b"]}; im_jobs := ∅;
     im_dests := {[("b", "k") := {| de_generation := 1; de_owner_job_id := None; de_mutation_id := Some "lifecycle:a1:1";
                                    de_mutation_prefix := None; de_updated_at := 0 |}]};
     im_claims := ∅; im_targets := ∅;
     im_leases := {[("b", "k") := {| ml_mutation_id := "lifecycle:a1:1"; ml_generation := 1; ml_lease_until := 1000 |}]} |}.
Definition sample_guard : StandardMutationGuard :=
  {| mg_bucket := "b"; mg_key := "k"; mg_mutation_id := "lifecycle:a1:1"; mg_expected_generation := 1; mg_mutation_prefix := None |}.

Definition after {A} (m : WTx A) (db : WorkerDb) : WorkerDb := match m db with Ok (_, db') => db' | Err _ => db end.
Definition result {A} (m : WTx A) (db : WorkerDb) (other : A) : A := match m db with Ok (a, _) => a | Err _ => other end.

Definition start : WorkerDb := Eval vm_compute in w_db (empty_world one_bucket).
Definition stored : WorkerDb := Eval vm_compute in set_worker_objects db_one start.
Definition identity_of_r1 : VersionResidencyIdentity := {| vri_version_row_id := "r1"; vri_object_id := "o1"; vri_cid := "cido1" |}.
Abbreviation verify_hot := (on_objects (mark_hot_verified_in_transaction identity_of_r1 "hot-node" "hot-receipt" 10)).
Definition hot_verified : WorkerDb := Eval vm_compute in after verify_hot stored.
Definition config_row (document : string) : LifecycleConfigRow :=
  {| lc_canonical_json := Some document; lc_revision := 1; lc_scan_cursor := None; lc_scan_lease_epoch := 0;
     lc_scan_lease_until := None; lc_created_at := 0; lc_updated_at := 0; lc_last_scanned_at := None |}.
Definition configured : WorkerDb := Eval vm_compute in
  {| wd_lifecycle := wd_lifecycle hot_verified; wd_objects := wd_objects hot_verified;
     wd_configs := {["b" := config_row "config"]}; wd_tags := ∅;
     wd_uploads := wd_uploads hot_verified |}.
Abbreviation queue_move := (insert_idempotent "a1" move_action 100).
Definition queued : WorkerDb := Eval vm_compute in after (on_lifecycle queue_move) configured.
Abbreviation claim_move := (claim_due_with_max_attempts "w1" 1000000 8 10 200 200 (fun _ => false)).
Definition claimed : WorkerDb := Eval vm_compute in after (on_lifecycle claim_move) queued.
Definition sample_claim : ClaimedLifecycleAction := Eval vm_compute in
  default no_claim (head (result (on_lifecycle claim_move) queued [])).
Definition guarded : WorkerDb := Eval vm_compute in
  set_lifecycle (with_others ticket (sagas claimed) (wd_lifecycle claimed)) claimed.

Definition clock (now : Z) : nat -> Z := fun _ => now.
Abbreviation prepare_move := (prepare sample_claim sample_guard "hot-node" "cold-node" "s1" (Ok tt) (clock 300)).
Definition prepared : WorkerDb := Eval vm_compute in after prepare_move guarded.
Definition saga_in (db : WorkerDb) : option TransitionSaga := sagas db !! "a1".
Definition no_saga : TransitionSaga := Eval vm_compute in
  prepared_saga EmptyString (la_columns (cl_action sample_claim)) EmptyString EmptyString EmptyString 0 EmptyString
    {| pl_source_residency_revision := 0; pl_expected_source_node_identity := EmptyString;
       pl_expected_destination_node_identity := EmptyString; pl_ownership_generation := 0 |} 0.
Definition prepared_row : TransitionSaga := Eval vm_compute in default no_saga (saga_in prepared).
Abbreviation copy_move := (record_copy sample_claim ("a1", prepared_row) (Ok tt) (clock 300)).
Definition copied : WorkerDb := Eval vm_compute in after copy_move prepared.
Abbreviation verify_move := (record_verified sample_claim ("a1", prepared_row) cold_receipt (Ok tt) (clock 300)).
Definition verified : WorkerDb := Eval vm_compute in after verify_move copied.
Abbreviation publish_move := (Transitions.publish sample_claim sample_guard cold_receipt (Ok tt) (clock 300)).
Definition published : WorkerDb := Eval vm_compute in after publish_move verified.
Definition published_row : TransitionSaga := Eval vm_compute in default no_saga (saga_in published).
Abbreviation cleanup_move := (cleanup sample_claim sample_guard ("a1", prepared_row) (Ok tt) (clock 300)).
Definition cleaned : WorkerDb := Eval vm_compute in after cleanup_move published.
Definition cleaned_row : TransitionSaga := Eval vm_compute in default no_saga (saga_in cleaned).

Lemma verify_hot_runs : verify_hot stored = Ok (true, hot_verified).
Proof. vm_compute. reflexivity. Qed.
Lemma queue_runs : queue_move (wd_lifecycle configured) = Ok (true, wd_lifecycle queued).
Proof. vm_compute. reflexivity. Qed.
Lemma claim_runs : claim_move (wd_lifecycle queued) = Ok ([sample_claim], wd_lifecycle claimed).
Proof. vm_compute. reflexivity. Qed.
Lemma prepare_runs : prepare_move guarded = Ok (Prepared prepared_row, prepared).
Proof. vm_compute. reflexivity. Qed.
Lemma copy_runs : copy_move prepared = Ok (saga_in copied, copied).
Proof. vm_compute. reflexivity. Qed.
Lemma verify_runs : verify_move copied = Ok (saga_in verified, verified).
Proof. vm_compute. reflexivity. Qed.
Lemma publish_runs : publish_move verified = Ok (Published published_row, published).
Proof. vm_compute. reflexivity. Qed.
Lemma cleanup_runs : cleanup_move published = Ok (true, cleaned).
Proof. vm_compute. reflexivity. Qed.

(** ** The history *)

Definition rows_of_sample : gset string := row_ids db_one ∪ (row_ids db_enabled ∪ (row_ids db_empty ∪ ∅)).
Definition world_of (db : WorkerDb) (issued : list ClaimedLifecycleAction) (used : gset string) : World :=
  {| w_db := db; w_issued := issued; w_used := used; w_rows := rows_of_sample |}.
Definition one_used : gset string := {["a1"]} ∪ ∅.
Definition both_used : gset string := {["s1"]} ∪ one_used.

Definition world_stored : World := world_of stored [] ∅.
Definition world_claimed : World := world_of claimed [sample_claim] one_used.
Definition world_guarded : World := world_of guarded [sample_claim] one_used.
Definition world_prepared : World := world_of prepared [sample_claim] both_used.
Definition world_copied : World := world_of copied [sample_claim] both_used.
Definition world_verified : World := world_of verified [sample_claim] both_used.
Definition world_published : World := world_of published [sample_claim] both_used.
Definition world_cleaned : World := world_of cleaned [sample_claim] both_used.

Lemma stored_reachable : rtc world_step (empty_world one_bucket) world_stored.
Proof.
  eapply rtc_l; [apply (ws_objects (empty_world one_bucket) db_empty step_empty); intros v Hv; by apply elem_of_nil in Hv|].
  eapply rtc_l; [apply (ws_objects _ db_enabled); [exact step_enabled|intros v Hv; by apply elem_of_nil in Hv]|].
  eapply rtc_l; [apply (ws_objects _ db_one); [exact step_one|]|apply rtc_refl].
  intros v Hv _. vm_compute in Hv. apply list_elem_of_singleton in Hv as ->. apply (bool_decide_unpack _). vm_compute. exact I.
Qed.

Lemma action_claimed_reachable : rtc world_step world_stored world_claimed.
Proof.
  eapply rtc_l; [exact (ws_verify_hot world_stored _ _ _ _ _ _ verify_hot_runs)|].
  eapply rtc_l; [exact (ws_others (world_of hot_verified [] ∅) (wd_configs configured) (wd_tags configured) (wd_uploads configured) ∅
    rows_of_sample (reflexivity _) (reflexivity _))|].
  eapply rtc_l; [apply (ws_queue (world_of configured [] ∅) {| q_db := wd_lifecycle queued; q_issued := []; q_used := one_used |})|].
  { exact (qs_insert (queue_of (world_of configured [] ∅)) "a1" move_action 100 true _ (not_elem_of_empty "a1") queue_runs). }
  { reflexivity. }
  { apply (bool_decide_unpack _). vm_compute. exact I. }
  eapply rtc_l; [apply (ws_queue (world_of queued [] one_used) {| q_db := wd_lifecycle claimed; q_issued := [sample_claim]; q_used := one_used |})|].
  { exact (qs_claim (queue_of (world_of queued [] one_used)) "w1" 1000000 8 10 200 200 (fun _ => false) _ _ claim_runs). }
  { reflexivity. }
  { apply (bool_decide_unpack _). vm_compute. exact I. }
  apply rtc_refl.
Qed.

Lemma guarded_reachable : rtc world_step world_stored world_guarded.
Proof.
  etrans; [exact action_claimed_reachable|].
  eapply rtc_l; [apply (ws_queue world_claimed {| q_db := wd_lifecycle guarded; q_issued := [sample_claim]; q_used := one_used |})|].
  { exact (qs_others (queue_of world_claimed) ticket (sagas claimed)). }
  { reflexivity. }
  { apply (bool_decide_unpack _). vm_compute. exact I. }
  apply rtc_refl.
Qed.

Lemma claim_given : sample_claim ∈ [sample_claim].
Proof. apply list_elem_of_here. Qed.

Lemma prepared_step : world_step world_guarded world_prepared.
Proof.
  assert ("s1" ∉ w_used world_guarded) as Hs by (apply (bool_decide_unpack _); vm_compute; exact I).
  exact (ws_prepare world_guarded _ _ _ _ "s1" _ _ _ _ claim_given Hs prepare_runs).
Qed.
Lemma copied_step : world_step world_prepared world_copied.
Proof. exact (ws_copy world_prepared _ _ _ _ _ _ claim_given copy_runs). Qed.
Lemma verified_step : world_step world_copied world_verified.
Proof. exact (ws_verified world_copied _ _ _ _ _ _ _ claim_given verify_runs). Qed.
Lemma published_step : world_step world_verified world_published.
Proof. exact (ws_publish world_verified _ _ _ _ _ _ _ claim_given publish_runs). Qed.
Lemma cleaned_step : world_step world_published world_cleaned.
Proof. exact (ws_cleanup world_published _ _ _ _ _ _ _ claim_given cleanup_runs). Qed.

Lemma saga_verified_reachable : reachable_world world_verified.
Proof.
  exists one_bucket. etrans; [exact stored_reachable|]. etrans; [exact guarded_reachable|].
  eapply rtc_l; [exact prepared_step|]. eapply rtc_l; [exact copied_step|]. apply rtc_once, verified_step.
Qed.
Lemma published_later : rtc world_step world_verified world_published.
Proof. apply rtc_once, published_step. Qed.
Lemma cleaned_later : rtc world_step world_verified world_cleaned.
Proof. eapply rtc_l; [exact published_step|]. apply rtc_once, cleaned_step. Qed.
Lemma later_reachable w : rtc world_step world_verified w -> reachable_world w.
Proof. intros Hw. destruct saga_verified_reachable as [im Hr]. exists im. by etrans. Qed.

(** ** The theorems at work *)

Definition verified_row : TransitionSaga := Eval vm_compute in default no_saga (saga_in verified).
Definition cold_hold : ReferenceRow := hold_row verified_row TransitionStaging Cold 300.
Definition version_r1 : VersionRow := Eval vm_compute in default sample_row (find_version "r1" (wd_objects published)).

Lemma open_saga_holds_witness :
  reachable_world world_verified /\ sagas (w_db world_verified) !! "a1" = Some verified_row
  /\ (exists r, (r ∈ references (wd_objects (w_db world_verified))) /\ held_by "s1" r /\ ref_tier r = "cold").
Proof.
  split; [exact saga_verified_reachable|].
  assert (sagas (w_db world_verified) !! "a1" = Some verified_row) as Hs by (vm_compute; reflexivity). split; [exact Hs|].
  assert (target_alive verified_row (wd_objects (w_db world_verified))) as Ha by (vm_compute; left).
  assert ((TransitionStaging, Cold) ∈ required_holds verified_row) as Hr by (vm_compute; right; left).
  destruct (proj2 (open_saga_holds world_verified "a1" verified_row saga_verified_reachable Hs eq_refl Ha) _ _ Hr)
    as (r & Hin & Hh & _ & _ & Ht & _). exists r. split; [exact Hin|]. split; [exact Hh|exact Ht].
Defined.

Lemma no_orphan_holds_witness :
  (cold_hold ∈ references (wd_objects (w_db world_verified)))
  /\ exists i s, sagas (w_db world_verified) !! i = Some s /\ ts_settlement_kind s = None.
Proof.
  assert (cold_hold ∈ references (wd_objects (w_db world_verified))) as Hin
    by (apply (bool_decide_unpack _); vm_compute; exact I).
  split; [exact Hin|].
  destruct (no_orphan_holds world_verified cold_hold saga_verified_reachable Hin eq_refl) as (i & s & _ & _ & _ & Hs & Hopen & _).
  exists i, s. split; [exact Hs|exact Hopen].
Defined.

Lemma bucket_delete_spec_witness :
  bucket_delete "b" 900 (w_db world_cleaned) = Err (BucketNotEmpty "b")
  /\ exists db', bucket_delete "b" 900 (w_db (empty_world one_bucket)) = Ok (tt, db')
     /\ bucket_removed "b" (w_db (empty_world one_bucket)) db'.
Proof.
  assert (import_constraints (tickets (w_db world_cleaned))) as Hc by (apply (bool_decide_unpack _); vm_compute; exact I).
  assert (import_constraints one_bucket) as Ho by (apply (bool_decide_unpack _); vm_compute; exact I).
  assert (reachable_world (empty_world one_bucket)) as Hr by (exists one_bucket; apply rtc_refl).
  split.
  - pose proof (bucket_delete_spec world_cleaned "b" 900 (later_reachable _ cleaned_later) Hc) as Hs. revert Hs.
    destruct (bucket_delete _ _ _) as [[u db']|e]; [intros (_ & Hfree & _)|intros [[_ Hb]|(-> & _)]; [|reflexivity]].
    + exfalso. apply Hfree. do 3 right; left. apply Exists_exists, (bool_decide_unpack _). vm_compute. exact I.
    + exfalso. apply Hb, (bool_decide_unpack _). vm_compute. exact I.
  - pose proof (bucket_delete_spec (empty_world one_bucket) "b" 900 Hr Ho) as Hs. revert Hs.
    assert (is_ok (bucket_delete "b" 900 (w_db (empty_world one_bucket))) = true) as E by (vm_compute; reflexivity).
    destruct (bucket_delete _ _ _) as [[[] db']|e]; [|discriminate E]. intros (_ & _ & Hs). exists db'. split; [reflexivity|exact Hs].
Defined.

Lemma saga_only_advances_witness :
  rtc world_step world_verified world_cleaned /\ followed verified_row cleaned_row.
Proof.
  split; [exact cleaned_later|].
  assert (sagas (w_db world_verified) !! "a1" = Some verified_row) as Hs by (vm_compute; reflexivity).
  pose proof (saga_only_advances world_verified world_cleaned "a1" verified_row saga_verified_reachable Hs cleaned_later) as Hf.
  assert (sagas (w_db world_cleaned) !! "a1" = Some cleaned_row) as Hs' by (vm_compute; reflexivity).
  rewrite Hs' in Hf. exact Hf.
Defined.

Lemma lost_claim_harmless_witness :
  reachable_world world_cleaned
  /\ forall r db', publish_move (w_db world_cleaned) = Ok (r, db') -> r = PublishStale /\ db' = w_db world_cleaned.
Proof.
  split; [exact (later_reachable _ cleaned_later)|].
  assert (~ holds sample_claim (queue_of world_cleaned)) as Hlost.
  { intros (a & Ha & Hact). vm_compute in Ha. injection Ha as <-. vm_compute in Hact. discriminate Hact. }
  destruct (lost_claim_harmless world_cleaned world_cleaned sample_claim (later_reachable _ cleaned_later) claim_given Hlost (rtc_refl _ _))
    as (_ & _ & _ & _ & Hp & _). exact (Hp sample_guard cold_receipt (Ok tt) (clock 300)).
Defined.

Lemma every_version_readable_witness :
  v_object_id version_r1 = Some "o1"
  /\ exists res, resolve_version_residency "r1" (wd_objects (w_db world_published)) = Ok (res, wd_objects (w_db world_published))
     /\ resolve_read_source (fun c => "local " +:+ c) (fun _ => Some "cold-node") read_receipt Some
          {| hot := "hot client"; cold := Some "cold client" |} res = Ok "local cold client".
Proof.
  split; [reflexivity|].
  assert (version_r1 ∈ versions (wd_objects (w_db world_published))) as Hv by (vm_compute; left).
  destruct (every_version_readable (fun c => "local " +:+ c) (fun _ => Some "cold-node") Some
    {| hot := "hot client"; cold := Some "cold client" |} world_published version_r1 "o1"
    (later_reachable _ published_later) Hv eq_refl) as (res & Hres & _ & _ & Hread).
  exists res. split; [exact Hres|]. vm_compute in Hres. injection Hres as <-. apply (Hread "cold client"); [reflexivity|reflexivity|by eexists].
Defined.

Lemma publish_moves_version_witness :
  publish_move (w_db world_verified) = Ok (Published published_row, published)
  /\ (r_primary_tier <$> find_residency "r1" (wd_objects verified)) = Some "hot"
  /\ (r_primary_tier <$> find_residency "r1" (wd_objects published)) = Some "cold".
Proof.
  split; [exact publish_runs|].
  destruct (publish_moves_version world_verified sample_claim sample_guard cold_receipt (Ok tt) (clock 300) published_row published
    saga_verified_reachable publish_runs) as (s & r & p & text & _ & _ & _ & _ & _ & _ & _ & Hf & Ht & _ & Hf' & _).
  split; [|change "r1" with (ss_target_version_row_id (ts_snapshot published_row)); rewrite Hf'; reflexivity].
  change "r1" with (ss_target_version_row_id (ts_snapshot published_row)). change verified with (w_db world_verified).
  rewrite Hf. simpl. rewrite Ht. reflexivity.
Defined.

