(* ===== verification/ActionExamples.v ===== *)
(** * Workers at work

    A worker moves a version to the cold tier, and another one expires it: the programs of the workers run
    from their first line to their last, and the theorems on workers are applied to the runs. *)

From Stdlib Require Import ZArith Lia Ascii.
From Stdlib Require String.
From stdpp Require Import base list strings pretty sorting gmap.
From S2P Require Import Prelude Bytes Errors Chrono VersionModel LifecycleModel LifecycleConfig LifecycleEval Database Transaction.
From S2P Require Import ObjectStore ResidencyStore VersionStore VersionSpec VersionReads Publication VersionSystem StoreEffects Examples.
From S2P Require Import ImportDb Ownership LifecycleActions LifecycleQueue LifecycleExamples Revalidation Transitions TransitionRuns.
From S2P Require Import TransitionSystem TransitionTheorems TransitionExamples TransitionWorker Expiration ActionWorkers.

#[local] Open Scope string_scope.
#[local] Open Scope list_scope.
#[local] Open Scope Z_scope.
#[local] Open Scope rust_scope.

#[local] Existing Instances sample_uuid sample_uuid_laws sample_ownership sample_granted queue_chrono queue_codec sample_codec
  sample_codec_laws.

(** ** What workers draw *)

Definition draws (uuid : string) : Draws :=
  {| dr_clock := clock 300; dr_leases := Ok tt; dr_uuid := uuid; dr_public := "u" +:+ uuid; dr_row := "row" +:+ uuid |}.

Lemma next_sequence_small b k o n : Forall (fun v => v_sequence v <= n) (versions o) -> Forall (fun v => 0 <= v_sequence v) (versions o) ->
  0 <= n -> 0 < next_sequence b k o <= n + 1.
Proof.
  intros Hn H0 Hp. unfold next_sequence. destruct (head _) as [z|] eqn:E; simpl; [|lia].
  apply head_elem, elem_of_sort_by, list_elem_of_fmap in E as (v & -> & Hv).
  apply elem_of_key_rows in Hv as [Hv _]. rewrite Forall_forall in Hn, H0. specialize (Hn v Hv). specialize (H0 v Hv). lia.
Qed.

Definition unused_in (uuid : string) (w : World) : bool :=
  bool_decide (uuid ∉ w_used w) && bool_decide ("row" +:+ uuid ∉ w_rows w)
  && forallb (fun v => negb (String.eqb (v_id v) ("row" +:+ uuid)) && negb (bool_decide (v_version_id v = Some ("u" +:+ uuid)))
                       && (0 <=? v_sequence v) && (v_sequence v <=? 100)) (versions (wd_objects (w_db w))).

Lemma drawn_sample uuid w : unused_in uuid w = true -> drawn (draws uuid) w.
Proof.
  unfold unused_in. rewrite !andb_true_iff. intros [[H1%bool_decide_eq_true H2%bool_decide_eq_true] H3].
  rewrite forallb_forall in H3.
  assert (forall v, v ∈ versions (wd_objects (w_db w)) -> v_id v <> "row" +:+ uuid /\ v_version_id v <> Some ("u" +:+ uuid)
    /\ 0 <= v_sequence v <= 100) as Hall.
  { intros v Hv%list_elem_of_In%H3. rewrite !andb_true_iff in Hv. destruct Hv as [[[E1 E2] E3] E4].
    apply negb_true_iff in E1, E2. apply String.eqb_neq in E1. apply bool_decide_eq_false in E2. split_and!; try done; lia. }
  split; [done|done|]. intros b k. split; [done|done|intros v Hv; by destruct (Hall v Hv) as (? & ? & _)|].
  destruct (next_sequence_small b k (wd_objects (w_db w)) 100) as [Hlo Hhi]; [rewrite Forall_forall; intros v Hv; by apply Hall..|done|].
  unfold fits_i64, i64_max, i64_min. lia.
Qed.

(** ** A worker at work *)

Definition sample_config : ValidatedLifecycleConfig :=
  {| max_attempts := 8; base_backoff_secs := 1; max_backoff_secs := 60; action_lease := 1000000 |}.

(** Its transactions; the identifier that the preparation draws names the saga. *)
Abbreviation read_now := (fun _ : Draws => let* saga := lock_optional_saga_for_action sample_claim in commit saga).
Abbreviation admit_now := (admit_transaction sample_claim (draws "x2")).
Definition admitted : WorkerDb := Eval vm_compute in after admit_now claimed.
Abbreviation revalidate_now := (revalidate_transaction sample_claim sample_guard (draws "x3")).
Abbreviation renew_now uuid := (renew_transaction sample_claim sample_config (draws uuid)).
Definition renewed : WorkerDb := Eval vm_compute in after (renew_now "x4") admitted.
Abbreviation prepare_now := (prepare_transaction sample_claim sample_guard "hot-node" "cold-node" (draws "s1")).
Definition run_prepared : WorkerDb := Eval vm_compute in after prepare_now renewed.
Definition run_prepared_row : TransitionSaga := Eval vm_compute in default no_saga (saga_in run_prepared).
Definition run_copied : WorkerDb := Eval vm_compute in after (copy_transaction sample_claim run_prepared_row (draws "x7")) run_prepared.
Definition run_copied_row : TransitionSaga := Eval vm_compute in default no_saga (saga_in run_copied).
Definition run_verified : WorkerDb := Eval vm_compute in
  after (verified_transaction sample_claim run_copied_row cold_receipt (draws "x9")) run_copied.
Definition run_published : WorkerDb := Eval vm_compute in
  after (publish_transaction sample_claim sample_guard run_copied_row cold_receipt (draws "x10")) run_verified.
Definition run_published_row : TransitionSaga := Eval vm_compute in default no_saga (saga_in run_published).
Definition run_cleaned : WorkerDb := Eval vm_compute in
  after (cleanup_transaction sample_claim sample_guard run_published_row (draws "x11")) run_published.

Lemma fleet_commit {B} (m : Draws -> WTx (B * bool)) k d b db' w s :
  drawn d w -> m d (w_db w) = Ok ((b, true), db') ->
  rtc fleet_step ([k (Ok b)], committed d db' w) s -> rtc fleet_step ([Transact m k], w) s.
Proof. intros Hu E Hs. eapply rtc_l; [|exact Hs]. by apply (fl_work [] _ _ []), wk_commit. Qed.
Lemma fleet_answer {B} (k : B -> Work unit) x w s : rtc fleet_step ([k x], w) s -> rtc fleet_step ([Await k], w) s.
Proof. intros Hs. eapply rtc_l; [|exact Hs]. apply (fl_work [] _ _ []), wk_answer. Qed.

Ltac fleet_commits uuid b db :=
  eapply (fleet_commit _ _ (draws uuid) b db);
  [apply drawn_sample; vm_compute; reflexivity|vm_compute; reflexivity|].

Lemma fleet_idle fleet w w' : rtc world_step w w' -> rtc fleet_step (fleet, w) (fleet, w').
Proof. intros Hr. induction Hr; [done|]. eapply rtc_l; [by apply fl_others|done]. Qed.

(** The worker moves the version, and nothing else happens meanwhile. *)
Lemma worker_run : exists w, rtc fleet_step ([execute_claimed_action sample_claim sample_config (Some true)], world_claimed) ([work_done], w)
  /\ w_db w = run_cleaned.
Proof.
  eexists. split.
  - apply (fleet_answer _ false).
    fleet_commits "x1" (None : option TransitionSaga) claimed.
    fleet_commits "x2" (Some sample_guard) admitted.
    fleet_commits "x3" true admitted.
    apply (fleet_answer _ (0%nat, Some (Ok "hot-node" : AppResult string, Ok "cold-node" : AppResult string))).
    fleet_commits "x4" true renewed.
    fleet_commits "s1" (Some run_prepared_row) run_prepared.
    apply (fleet_answer _ (0%nat, Some (Ok cold_receipt : AppResult TierCopyReceipt))).
    fleet_commits "x6" true run_prepared.
    fleet_commits "x7" run_copied_row run_copied.
    apply (fleet_answer _ (0%nat, Some (Ok "hot-node" : AppResult string, Ok cold_receipt : AppResult TierCopyReceipt))).
    fleet_commits "x8" true run_copied.
    fleet_commits "x9" tt run_verified.
    fleet_commits "x10" (Some run_published_row) run_published.
    fleet_commits "x11" tt run_cleaned.
    apply rtc_refl.
  - reflexivity.
Qed.

Lemma fleet_refines_witness :
  exists w, rtc fleet_step ([], empty_world one_bucket) ([work_done], w) /\ reachable_world w
    /\ (ts_settlement_kind <$> sagas (w_db w) !! "a1") = Some (Some "cleanup_complete")
    /\ (r_primary_tier <$> find_residency "r1" (wd_objects (w_db w))) = Some "cold".
Proof.
  destruct worker_run as (w & Hr & Hdb). exists w.
  assert (rtc fleet_step ([], empty_world one_bucket) ([work_done], w)) as Hrun.
  { etrans; [exact (fleet_idle [] _ _ stored_reachable)|]. etrans; [exact (fleet_idle [] _ _ action_claimed_reachable)|].
    eapply rtc_l; [exact (fl_start sample_claim sample_config (Some true) [] world_claimed claim_given)|exact Hr]. }
  split; [exact Hrun|]. split; [exact (fleet_refines one_bucket _ w Hrun)|]. rewrite Hdb. split; vm_compute; reflexivity.
Defined.

(** ** An expiration *)

Definition expire_action : NewLifecycleAction :=
  {| act_idempotency_key := EmptyString; act_bucket := "b"; act_config_revision := 1; act_rule_identity := RuleId "drop";
     act_kind := ExpireCurrent; act_target := act_target move_action; act_due_at := 0 |}.
Definition target_r1 : VersionTargetIdentity :=
  {| vt_bucket := "b"; vt_key := "k"; vt_version_row_id := "r1"; vt_public_version_id := Opaque "u1"; vt_kind := KObject;
     vt_object_id := Some "o1"; vt_sequence := 1 |}.

Definition ex_configured : WorkerDb := Eval vm_compute in
  {| wd_lifecycle := wd_lifecycle stored; wd_objects := wd_objects stored;
     wd_configs := {["b" := config_row "expire"]};
     wd_tags := {[("o1", "color") := "red"]}; wd_uploads := wd_uploads stored |}.
Abbreviation queue_expire := (insert_idempotent "a1" expire_action 100).
Definition ex_queued : WorkerDb := Eval vm_compute in after (on_lifecycle queue_expire) ex_configured.
Definition ex_claimed : WorkerDb := Eval vm_compute in after (on_lifecycle claim_move) ex_queued.
Definition expire_claim : ClaimedLifecycleAction := Eval vm_compute in
  default no_claim (head (result (on_lifecycle claim_move) ex_queued [])).

Abbreviation admit_expire := (fun d : Draws =>
  let* guard := on_tickets (try_admit_lifecycle_mutation "b" "k" "a1" 1 0 (fun i => us (dr_clock d (1 + i)%nat)) (us (dr_clock d 0%nat))) in
  commit guard).
Definition ex_admitted : WorkerDb := Eval vm_compute in after (admit_expire (draws "y2")) ex_claimed.
Abbreviation expire_now := (final_transaction expire_claim target_r1 sample_guard 8 (draws "y3")).
Definition ex_expired : WorkerDb := Eval vm_compute in after expire_now ex_admitted.

Lemma queue_expire_runs : queue_expire (wd_lifecycle ex_configured) = Ok (true, wd_lifecycle ex_queued).
Proof. vm_compute. reflexivity. Qed.
Lemma claim_expire_runs : claim_move (wd_lifecycle ex_queued) = Ok ([expire_claim], wd_lifecycle ex_claimed).
Proof. vm_compute. reflexivity. Qed.
Lemma expire_runs : expire_now ex_admitted = Ok ((tt, true), ex_expired).
Proof. vm_compute. reflexivity. Qed.

Definition world_expiring : World := world_of ex_admitted [expire_claim] one_used.

Lemma expiring_reachable : reachable_world world_expiring.
Proof.
  exists one_bucket. etrans; [exact stored_reachable|].
  eapply rtc_l; [exact (ws_others world_stored (wd_configs ex_configured) (wd_tags ex_configured) (wd_uploads ex_configured) ∅
    rows_of_sample (reflexivity _) (reflexivity _))|].
  eapply rtc_l; [apply (ws_queue (world_of ex_configured [] ∅) {| q_db := wd_lifecycle ex_queued; q_issued := []; q_used := one_used |})|].
  { exact (qs_insert (queue_of (world_of ex_configured [] ∅)) "a1" expire_action 100 true _ (not_elem_of_empty "a1") queue_expire_runs). }
  { reflexivity. }
  { apply (bool_decide_unpack _). vm_compute. exact I. }
  eapply rtc_l; [apply (ws_queue (world_of ex_queued [] one_used)
    {| q_db := wd_lifecycle ex_claimed; q_issued := [expire_claim]; q_used := one_used |})|].
  { exact (qs_claim (queue_of (world_of ex_queued [] one_used)) "w1" 1000000 8 10 200 200 (fun _ => false) _ _ claim_expire_runs). }
  { reflexivity. }
  { apply (bool_decide_unpack _). vm_compute. exact I. }
  eapply rtc_l; [apply (ws_queue (world_of ex_claimed [expire_claim] one_used)
    {| q_db := wd_lifecycle ex_admitted; q_issued := [expire_claim]; q_used := one_used |})|].
  { exact (qs_others (queue_of (world_of ex_claimed [expire_claim] one_used)) (tickets ex_admitted) (sagas ex_claimed)). }
  { reflexivity. }
  { apply (bool_decide_unpack _). vm_compute. exact I. }
  apply rtc_refl.
Qed.

Lemma expiration_only_due_witness :
  expire_now (w_db world_expiring) = Ok ((tt, true), ex_expired)
  /\ exists v, find_version "r1" (wd_objects ex_admitted) = Some v
     /\ expires ExpireCurrent Enabled "uy3" v (wd_objects ex_admitted) (wd_objects ex_expired)
     /\ history "b" "k" (wd_objects ex_expired) = [(Some "uy3", None); (Some "u1", Some "o1")].
Proof.
  split; [exact expire_runs|].
  assert (drawn (draws "y3") world_expiring) as Hd by (apply drawn_sample; vm_compute; reflexivity).
  assert (wd_objects ex_expired <> wd_objects ex_admitted) as Hne by (intros E; apply (f_equal versions) in E; discriminate E).
  destruct (expiration_only_due world_expiring expire_claim target_r1 sample_guard 8 (draws "y3") (tt, true) ex_expired
    expiring_reachable Hd expire_runs Hne)
    as (a & kind & state & v & row & json & config & version & tags & i & rule & id & st & Ha & _ & _ & _ & Hv & _ & _ & _ & _ & _ & _ & _ & _
        & Hk & _ & _ & _ & _ & Hs & Hex & _).
  exists v. split; [exact Hv|]. vm_compute in Ha. injection Ha as <-. vm_compute in Hs. injection Hs as <-.
  assert (kind = ExpireCurrent) as -> by (destruct kind; vm_compute in Hk; first [reflexivity|discriminate Hk]).
  split; [exact Hex|]. vm_compute. reflexivity.
Defined.
