(* ===== verification/ScanExamples.v ===== *)
(** * A bucket is scanned

    A document is put, two workers scan the bucket page by page, and what is due is queued; the theorems on
    scans and configurations are applied along the way. *)

From Stdlib Require Import ZArith Lia Ascii.
From Stdlib Require String.
From stdpp Require Import base list strings pretty sorting gmap.
From S2P Require Import Prelude Bytes Errors Chrono VersionModel LifecycleModel LifecycleConfig LifecycleEval Database Transaction.
From S2P Require Import ObjectStore ResidencyStore VersionStore VersionSpec VersionReads Publication VersionSystem StoreEffects Examples.
From S2P Require Import ImportDb Ownership LifecycleActions LifecycleQueue LifecycleExamples Revalidation Transitions TransitionRuns.
From S2P Require Import TransitionSystem TransitionTheorems TransitionExamples TransitionWorker Expiration ActionWorkers ActionExamples.
From S2P Require Import LifecycleScan LifecycleStore ScanWorker.

#[local] Open Scope string_scope.
#[local] Open Scope list_scope.
#[local] Open Scope Z_scope.

#[local] Existing Instances sample_uuid sample_uuid_laws sample_ownership sample_granted queue_chrono queue_codec sample_codec
  sample_codec_laws.

(** ** Cursors *)

(** The cursor behind the version *)
Definition cursor_r1 : LifecycleScanCursor :=
  {| cur_source := SourceCurrent; cur_bucket := "b"; cur_key := "k"; cur_sequence := Some 1; cur_version_row_id := Some "r1";
     cur_multipart_created_at := None; cur_multipart_upload_id := None |}.

#[local] Instance sample_cursors : CursorCodec := {|
  cursor_to_vec c := if bool_decide (c = cursor_r1) then "r1" else EmptyString;
  cursor_from_slice text := if String.eqb text "r1" then Some cursor_r1 else None;
  url_safe_encode text := text;
  url_safe_decode text := Some text
|}.
#[local] Instance sample_cursor_laws : CursorCodecLaws.
Proof. split; [|done]. intros c c'. simpl. case_bool_decide as E; simpl; [by intros [= <-]|done]. Qed.
#[local] Instance any_json : JsonColumn := fun _ => true.

(** ** The run *)

Definition uploaded : WorkerDb := Eval vm_compute in
  {| wd_lifecycle := wd_lifecycle stored; wd_objects := wd_objects stored; wd_configs := wd_configs stored; wd_tags := wd_tags stored;
     wd_uploads := {| up_uploads := {["up1" := {| mu_bucket := "b"; mu_key := "k"; mu_created_at := 7 |}]}; up_parts := ∅ |} |}.
Abbreviation write_now := (write_configuration "b" (Some "expire") None 50).
Definition scan_written : WorkerDb := Eval vm_compute in after write_now uploaded.
Abbreviation claim_now now := (claim_next_scan second_ns now (fun _ => false)).
Definition no_scan : ClaimedLifecycleScan :=
  {| scan_bucket := EmptyString; scan_config_revision := 0; scan_canonical_json := EmptyString; scan_cursor := None;
     scan_lease_epoch := 0; scan_database_now := 0; scan_lease_until := 0 |}.
Definition scan_one : ClaimedLifecycleScan := Eval vm_compute in default no_scan (result (claim_now 100) scan_written None).
Definition claimed_one : WorkerDb := Eval vm_compute in after (claim_now 100) scan_written.

Definition one_ids (i : nat) : string := "p" +:+ pretty i.
Definition two_ids (i : nat) : string := "q" +:+ pretty i.
Abbreviation read_json := (@configuration_from_json sample_codec).
Definition no_page : LifecycleCandidatePage := {| candidates := []; next_cursor := None; cycle_complete := false |}.
Abbreviation schedule_one := (schedule_claimed_scan_page read_json one_ids scan_one 1).
Abbreviation finish_one := (schedule_and_finish_scan_page read_json one_ids scan_one 1 120 120).
Definition page_one : LifecycleCandidatePage := Eval vm_compute in result schedule_one claimed_one no_page.
Definition scheduled_one : WorkerDb := Eval vm_compute in after schedule_one claimed_one.
Definition finished_one : WorkerDb := Eval vm_compute in after finish_one claimed_one.

Definition scan_two : ClaimedLifecycleScan := Eval vm_compute in default no_scan (result (claim_now 200) finished_one None).
Definition claimed_two : WorkerDb := Eval vm_compute in after (claim_now 200) finished_one.
Abbreviation schedule_two := (schedule_claimed_scan_page read_json two_ids scan_two 1).
Abbreviation finish_two := (schedule_and_finish_scan_page read_json two_ids scan_two 1 220 220).
Definition page_two : LifecycleCandidatePage := Eval vm_compute in result schedule_two claimed_two no_page.
Definition scheduled_two : WorkerDb := Eval vm_compute in after schedule_two claimed_two.
Definition finished_two : WorkerDb := Eval vm_compute in after finish_two claimed_two.

Lemma write_scan_runs : write_now uploaded = Ok (1, scan_written).
Proof. vm_compute. reflexivity. Qed.
Lemma claim_one_runs : claim_now 100 scan_written = Ok (Some scan_one, claimed_one).
Proof. vm_compute. reflexivity. Qed.
Lemma schedule_one_runs : schedule_one claimed_one = Ok (page_one, scheduled_one).
Proof. vm_compute. reflexivity. Qed.
Lemma finish_one_runs : finish_one claimed_one = Ok (true, finished_one).
Proof. vm_compute. reflexivity. Qed.
Lemma claim_two_runs : claim_now 200 finished_one = Ok (Some scan_two, claimed_two).
Proof. vm_compute. reflexivity. Qed.
Lemma schedule_two_runs : schedule_two claimed_two = Ok (page_two, scheduled_two).
Proof. vm_compute. reflexivity. Qed.
Lemma finish_two_runs : finish_two claimed_two = Ok (true, finished_two).
Proof. vm_compute. reflexivity. Qed.

(** ** The history *)

Lemma pretty_nat_injective (i j : nat) : pretty i = pretty j -> i = j.
Proof. apply pretty_nat_inj. Qed.
Lemma one_ids_inj i j : one_ids i = one_ids j -> i = j.
Proof. unfold one_ids. simpl. intros [= E]. by apply pretty_nat_injective. Qed.
Lemma two_ids_inj i j : two_ids i = two_ids j -> i = j.
Proof. unfold two_ids. simpl. intros [= E]. by apply pretty_nat_injective. Qed.

Definition scanning (db : WorkerDb) (used : gset string) (claims : list ClaimedLifecycleScan) (pages : list CommittedPage) : Gateway :=
  {| gw_fleet := []; gw_world := world_of db [] used; gw_claims := claims; gw_pages := pages |}.
Definition used_one : gset string := drawn_ids one_ids (length (candidates page_one)) ∪ ∅.
Definition used_two : gset string := drawn_ids two_ids (length (candidates page_two)) ∪ used_one.
Definition first_step : ScanStep := {| st_db := claimed_one; st_limit := 1; st_page := page_one |}.
Definition second_step : ScanStep := {| st_db := claimed_two; st_limit := 1; st_page := page_two |}.
Definition commit_one : CommittedPage := {| cp_claim := scan_one; cp_step := first_step; cp_after := finished_one |}.
Definition commit_two : CommittedPage := {| cp_claim := scan_two; cp_step := second_step; cp_after := finished_two |}.

Definition gateway_one : Gateway := scanning finished_one used_one [scan_one] [commit_one].
Definition gateway_two : Gateway := scanning finished_two used_two [scan_two; scan_one] [commit_one; commit_two].

Lemma idle_step w w' :
  world_step w w' -> wd_configs (w_db w') = wd_configs (w_db w) ->
  gateway_step read_json {| gw_fleet := []; gw_world := w; gw_claims := []; gw_pages := [] |}
    {| gw_fleet := []; gw_world := w'; gw_claims := []; gw_pages := [] |}.
Proof. intros Hs Hc. apply (gw_work read_json {| gw_fleet := []; gw_world := w; gw_claims := []; gw_pages := [] |}); [by apply fl_others|done]. Qed.

Lemma uploaded_reached : rtc (gateway_step read_json) (empty_gateway one_bucket) (scanning uploaded ∅ [] []).
Proof.
  eapply rtc_l; [apply idle_step; [apply (ws_objects (empty_world one_bucket) db_empty step_empty); intros v Hv; by apply elem_of_nil in Hv|reflexivity]|].
  eapply rtc_l; [apply idle_step; [apply (ws_objects _ db_enabled); [exact step_enabled|intros v Hv; by apply elem_of_nil in Hv]|reflexivity]|].
  eapply rtc_l; [apply idle_step; [apply (ws_objects _ db_one); [exact step_one|]|reflexivity]|].
  { intros v Hv _. vm_compute in Hv. apply list_elem_of_singleton in Hv as ->. apply (bool_decide_unpack _). vm_compute. exact I. }
  apply rtc_once. apply (idle_step world_stored); [|reflexivity].
  exact (ws_others world_stored (wd_configs uploaded) (wd_tags uploaded) (wd_uploads uploaded) ∅ rows_of_sample (reflexivity _) (reflexivity _)).
Qed.

Lemma one_reached : reachable_gateway read_json gateway_one.
Proof.
  exists one_bucket. etrans; [exact uploaded_reached|].
  eapply rtc_l; [exact (gw_write read_json (scanning uploaded ∅ [] []) _ _ _ _ _ _ write_scan_runs)|].
  eapply rtc_l; [exact (gw_claim read_json (scanning scan_written ∅ [] []) _ _ _ _ _ claim_one_runs)|]. apply rtc_once.
  exact (gw_scan read_json (scanning claimed_one ∅ [scan_one] []) scan_one one_ids 1 120 120 page_one scheduled_one finished_one
    (list_elem_of_here _ _) ltac:(lia) (fun i => not_elem_of_empty (one_ids i)) one_ids_inj schedule_one_runs finish_one_runs).
Qed.

Lemma two_later : rtc (gateway_step read_json) gateway_one gateway_two.
Proof.
  eapply rtc_l; [exact (gw_claim read_json gateway_one _ _ _ _ _ claim_two_runs)|]. apply rtc_once.
  assert (forall i, two_ids i ∉ used_one) as Hfresh.
  { intros i. unfold used_one, drawn_ids. vm_compute length. simpl. intros Hi. apply elem_of_union in Hi as [Hi|Hi]; [|by apply elem_of_empty in Hi].
    apply elem_of_union in Hi as [Hi%elem_of_singleton|Hi]; [done|by apply elem_of_empty in Hi]. }
  exact (gw_scan read_json (scanning claimed_two used_one [scan_two; scan_one] [commit_one]) scan_two two_ids 1 220 220 page_two scheduled_two
    finished_two (list_elem_of_here _ _) ltac:(lia) Hfresh two_ids_inj schedule_two_runs finish_two_runs).
Qed.

Lemma two_reached : reachable_gateway read_json gateway_two.
Proof. destruct one_reached as [imports Hr]. exists imports. etrans; [exact Hr|exact two_later]. Qed.

(** ** The theorems at work *)

Definition version_of_k : VersionRow := Eval vm_compute in default sample_row (find_version "r1" (wd_objects stored)).
Definition upload_of_k : UploadRow := {| mu_bucket := "b"; mu_key := "k"; mu_created_at := 7 |}.

Lemma version_of_k_stays step : step ∈ [first_step; second_step] -> version_stays "b" version_of_k (st_db step).
Proof.
  intros Hs. exists version_of_k. split; [|done].
  apply elem_of_cons in Hs as [->|[->|Hs%elem_of_nil]%elem_of_cons]; [vm_compute; left..|done].
Qed.

Lemma scan_cycle_visits_witness :
  scan_cycle "b" None [first_step; second_step]
  /\ (exists c, CandVersion c ∈ visited [first_step; second_step] /\ vt_version_row_id (target c) = "r1")
  /\ (exists t, CandMultipart t ∈ visited [first_step; second_step] /\ mt_upload_id t = "up1").
Proof.
  assert (scan_cycle "b" None [first_step; second_step]) as Hcycle by (split; [|split]; vm_compute; reflexivity). split; [exact Hcycle|].
  assert (Forall (fun step => constraints (wd_objects (st_db step)) /\ 0 <= st_limit step) [first_step; second_step]) as Hall.
  { apply (bool_decide_unpack _). vm_compute. exact I. }
  destruct (scan_cycle_visits "b" [first_step; second_step] Hall Hcycle) as (_ & _ & _ & Hv & Hu). split.
  - exact (Hv version_of_k version_of_k_stays).
  - apply (Hu "up1" upload_of_k eq_refl). intros step Hs.
    apply elem_of_cons in Hs as [->|[->|Hs%elem_of_nil]%elem_of_cons]; [vm_compute; reflexivity..|destruct Hs].
Defined.

Lemma committed_cycles_cover_witness :
  ([first_step; second_step] ∈ (cycles (document_pages "b" 1 (gw_pages gateway_two))).1)
  /\ exists p c, p ∈ gw_pages gateway_two /\ vt_version_row_id (target c) = "r1" /\ evaluated_with read_json "b" 1 p (CandVersion c).
Proof.
  assert ([first_step; second_step] ∈ (cycles (document_pages "b" 1 (gw_pages gateway_two))).1) as Hin by left. split; [exact Hin|].
  destruct (committed_cycles_cover read_json gateway_two "b" 1 [first_step; second_step] two_reached Hin) as (_ & _ & Hv & _).
  destruct (Hv version_of_k version_of_k_stays) as (p & c & Hp & _ & Hid & He). exists p, c. split; [exact Hp|]. split; [exact Hid|exact He].
Defined.

(** The first claim finished its page: whatever it does then is refused. *)
Lemma lost_scan_harmless_witness :
  ~ scan_holds scan_one gateway_one
  /\ forall r db', finish_one (gw_db gateway_two) = Ok (r, db') -> r = false /\ db' = gw_db gateway_two.
Proof.
  assert (~ scan_holds scan_one gateway_one) as Hlost.
  { intros (row & Hrow & _ & _ & Hl). vm_compute in Hrow. injection Hrow as <-. destruct Hl as [x Hx]. discriminate Hx. }
  split; [exact Hlost|]. intros r db'.
  destruct (lost_scan_harmless read_json gateway_one gateway_two scan_one one_reached (list_elem_of_here _ _) Hlost two_later) as [Hr _].
  apply Hr. lia.
Defined.

(** *** A bucket that is deleted and created again *)

(** The row goes with its bucket, and the new one starts from the same revision and epoch: the old claim
    finishes the page of the new one. *)
Definition recreated : WorkerDb := Eval vm_compute in after write_now (set_configs (delete "b") claimed_one).
Definition claimed_again : WorkerDb := Eval vm_compute in after (claim_now 300) recreated.

Lemma old_claim_finishes :
  (exists claim, claim_now 300 recreated = Ok (Some claim, claimed_again) /\ claim <> scan_one)
  /\ exists db', finish_one claimed_again = Ok (true, db').
Proof. split; [eexists; split; [vm_compute; reflexivity|discriminate]|eexists; vm_compute; reflexivity]. Qed.

(** *** Putting a document *)

Definition put_input : @PutBucketLifecycleConfigurationInput toy_timestamps :=
  {| put_bucket := "b"; put_expected_bucket_owner := None; put_transition_default_minimum_object_size := None;
     put_lifecycle_configuration := Some sample_rules |}.
Abbreviation put_now := (@put_bucket_lifecycle_configuration proleptic toy_timestamps any_json sample_to_json true put_input uploaded 60).
Definition put_done : WorkerDb := Eval vm_compute in after put_now uploaded.

Lemma put_runs : put_now uploaded = Ok (tt, put_done).
Proof. vm_compute. reflexivity. Qed.

Lemma put_lifecycle_configuration_stores_witness :
  put_now uploaded = Ok (tt, put_done)
  /\ exists accepted, validate_and_canonicalize sample_rules = Ok accepted
     /\ @get_bucket_lifecycle_configuration proleptic toy_timestamps sample_from_json "b" None put_done
        = rbind (@to_s3_rules proleptic toy_timestamps accepted) (fun rules => Ok (rules, put_done)).
Proof.
  split; [exact put_runs|].
  assert (forall c json, sample_to_json c = Some json -> sample_from_json json = Some c) as Hjson.
  { intros c json. unfold sample_to_json, sample_from_json. destruct (decide _); congruence. }
  destruct (put_lifecycle_configuration_stores sample_to_json sample_from_json true put_input uploaded uploaded put_done 60 Hjson put_runs)
    as (given & accepted & row & Hgiven & Hacc & Hget & _). injection Hgiven as <-. exists accepted. split; [exact Hacc|].
  exact (Hget None).
Defined.
